(* ===== verification/_CoqProject ===== *)
-Q . S2P
Prelude.v
GoStrings.v
Errors.v
Model.v
Crypto.v
KeyGen.v
Lockout.v
RateLimit.v
World.v
Tables.v
Logic.v
Progress.v
Token.v
Usability.v
AesGcm.v
Store.v
Webhook.v
LicenseService.v
Demo.v
Lookup.v
LicenseProps.v
GoTime.v
Usage.v
Entitlement.v
Seats.v
Floating.v
Idempotency.v
Sessions.v
Concurrency.v
Metered.v
Expiry.v
ExpiryProps.v
EmailQueue.v
Base64.v
ReleaseStore.v
Release.v
ReleaseInv.v
ReleaseProps.v
ReleaseSigning.v
ReleaseFeed.v
ReleaseDemo.v
Payments.v
PaymentProps.v
PaymentRun.v
PaymentGrant.v
PaymentRequests.v
PaymentDemo.v
Audited.v
Access.v
AdminLicense.v
Confinement.v
Scoped.v
ReleaseAdmin.v
AdminScope.v
AccessProps.v
ReleaseScope.v
WebhookAdmin.v
ScopeDemo.v
AccessDemo.v
Catalogue.v
CatalogueProps.v
CatalogueDemo.v
Passkeys.v
Txn.v
PasskeyProps.v
Team.v
AuditOutbox.v
Portal.v
PortalProps.v
Sdk.v
PasskeyDemo.v
Config.v
Settings.v
Setup.v
Letters.v
Mail.v
Migrations.v
S3.v
StripeSetup.v
Boot.v
