(* ===== verification/Prelude.v ===== *)
(** * LicenseHub server: a verification library (root file)

    LicenseHub ([src/server]) sells and polices software licences.  A Go HTTP
    server keeps its state in PostgreSQL (and, optionally, Redis); SDKs call
    it with a licence key to activate a device, verify a licence, refresh a
    signed lease, record usage, check features, take seats and floating
    sessions.  This library models that core as executable functions and
    proves what it promises.

    ** How the program is modelled

    - [GoStrings.v], [GoTime.v], [Crypto.v] model what the source uses of Go's
      standard library: ASCII strings, [int64] arithmetic ([go_add], [wrap64]
      in this file), [time.Time] as Unix nanoseconds with the proleptic
      Gregorian calendar, SHA-256, HMAC, hex and base64url.  Letter case and
      spaces are those of ASCII.
    - [Errors.v] is [pkg/apperr] with the store's error values; [Model.v] the
      rows of [internal/model].
    - [World.v] is the effects of a request: the tables, the open transaction,
      a clock that advances by arbitrary amounts between readings, sources of
      identifiers and random bytes, the lockout map, and the trace of external
      effects (messages, webhooks, metrics, log lines).  A program is a
      function of the world ([M E A]); every SQL statement consumes one entry
      of a script of faults, which can make it fail, or make it take effect
      and lose its answer.  Theorems quantify over the script: they hold
      whatever fails.  Inside a transaction a failed statement aborts the
      transaction, as in PostgreSQL.
    - [Tables.v] is the schema of [db/migrations]: one [Table] per table with
      its unique indexes, checks and foreign keys.  A SQL statement of the
      source is a pure function on the tables.
    - [Logic.v] holds the reasoning: [hoare], a calculus of triples that hold
      under every fault; [keeps], the preservation of a predicate on the
      tables at every commit; [readonly]; and inversion of successful runs.
      [Progress.v] is the reasoning for what must happen when nothing fails:
      [tame] and [ahead], invariants indexed by the clock.
      [Txn.v] is the reasoning about one transaction: invariants its
      statements break and its commit restores, and atomicity.
    - [Token.v], [AesGcm.v] take Ed25519, [encoding/json] and AES-GCM as
      classes with their documented laws; the same files discharge the classes
      with small instances, so that every law set is known to be satisfiable
      and the examples run.  Identifiers come from the class [UUIDs] (their
      freshness is a law), [mail.ParseAddress] and the HTTP exchanges of
      webhooks and the billing API are arguments.

    ** Components

    - [KeyGen.v] ([internal/license/keygen.go]): generation, normalisation and
      hashing of keys.
    - [Lockout.v], [RateLimit.v] ([internal/middleware]): the in-memory maps
      and the Redis scripts, compared with one another.
    - [Token.v] ([internal/license/token.go]): signed lease tokens.
    - [Usability.v] ([service/license.go], [service/release.go]): when a
      licence is usable.
    - [AesGcm.v] ([internal/crypto]): the envelope and the derived subkeys.
    - [Store.v] ([internal/store]): licences, activations, subscriptions and
      the audit trail; [Lookup.v] the lemmas about finding a licence.
    - [Webhook.v] ([service/webhook.go], [store/webhook.go]): dispatch,
      delivery and retries.
    - [LicenseService.v] ([service/license.go]): Activate, Verify, Deactivate,
      RefreshLease, DeactivateLease and the loader of the other services;
      [LicenseProps.v] its theorems.
    - [Usage.v] ([service/usage.go], [store/usage.go]): quotas.
    - [Entitlement.v] ([service/entitlement.go], [store/addons.go]): features.
    - [Seats.v] ([service/seats.go], [store/seats.go]): team seats.
    - [Floating.v] ([service/floating.go], [store/floating.go]): floating
      sessions, checked out, renewed by heartbeats and checked in.
    - [Idempotency.v] ([middleware/idempotency.go], [store/idempotency.go]):
      replay of requests that carry an idempotency key.
    - [Sessions.v] ([store/store.go], [handler/auth_helpers.go],
      [middleware/auth.go]): refresh tokens, one-time codes, owner accounts
      and the session tokens.
    - [Metered.v] ([service/metered_sync.go], [store/metered.go]): the worker
      that reports metered usage to Stripe.
    - [Expiry.v] ([service/expiry.go], [store/expiry.go]): the periodic job
      that expires trials and licences and sends dunning messages;
      [ExpiryProps.v] its theorems.
    - [ReleaseStore.v] ([store/release.go], [store/release_signing.go]): the
      rows of releases, their artifacts and the signing keys.
    - [Release.v] ([service/release.go], [service/release_signing.go]):
      creating, uploading, finalising, signing, publishing, yanking and
      downloading; [Base64.v] is the standard encoding its keys and signatures
      use.  Object storage ([Storage], whose answers may differ at every call)
      and golang.org/x/mod/semver ([Semver]) are classes.  [ReleaseInv.v] has
      the invariants, [ReleaseProps.v] and [ReleaseSigning.v] the functional
      theorems.
    - [ReleaseFeed.v] ([service/release_feed.go], [handler/release_public.go]):
      the update feeds of Sparkle, Velopack and Tauri.
    - [EmailQueue.v] ([store/store.go], [service/email.go]): the queue of
      messages that carry licence keys.
    - [Payments.v] ([payment/stripe.go] with its store functions): the Stripe
      webhook, the fulfilment of checkouts and the customer's requests.  The
      API client ([Stripe], whose answers may differ at every call), the
      structs [encoding/json] decodes ([StripeJSON]) and [net/url] ([URLs])
      are classes.  [PaymentProps.v] has the abstract billing machine and its
      refinement, [PaymentRun.v] and [PaymentGrant.v] what happens when
      nothing fails, [PaymentRequests.v] the requests.
    - [Access.v] ([middleware/auth.go], [cmd/server/main.go], [store],
      [handler/admin.go]): API keys, the middlewares in front of the routes
      under [/admin] with their order, and the handlers of the keys.
      [Audited.v] is the audited mutation and the triggers of the outbox,
      [AccessProps.v] the theorems.
    - [AdminLicense.v] ([handler/admin.go]): the routes open to a
      [licenses:write] key and their handlers.  [Confinement.v] says what it is
      to leave the other products alone, [AdminScope.v] proves it of every
      handler.
    - [ReleaseAdmin.v] ([handler/release_admin.go],
      [handler/release_signing_admin.go]) and [WebhookAdmin.v]
      ([handler/webhook_admin.go]): the routes of releases, signing keys and
      webhooks with their handlers.  [Scoped.v] is what the confinement of a
      table and of the rows below it needs, [ReleaseScope.v] applies it to
      releases; [ScopeDemo.v] has the examples.
    - [Team.v] ([handler/admin.go]): who administers: listing, inviting and
      removing.
    - [AuditOutbox.v] ([store/audit_outbox.go]): the flush that moves the
      changes recorded by database triggers into the audit log.  The trigger
      itself ([db/migrations]) is in [Audited.v]; the statements of the passkey
      recovery and of the backfills fire it (see below for the others).
    - [Portal.v] ([cmd/server/main.go], [handler/portal_activations.go],
      [handler/usage.go], [handler/seats.go]): the routes under [/portal] with
      the guards in front of them; [PortalProps.v] its theorem.
    - [Sdk.v] ([handler/license.go], [handler/floating.go],
      [handler/entitlement.go]): the routes an SDK calls, behind the lockout,
      the rate limit and the idempotency slot.
    - [Catalogue.v] ([handler/admin.go], [store/admin.go],
      [store/addons.go]): products, plans, entitlements and add-ons as the
      administration edits them; [CatalogueProps.v] their invariant.
    - [Passkeys.v] ([store/passkey.go], [handler/passkey.go]): enrolment,
      assertion, removal and recovery of passkeys; the WebAuthn library is a
      class.  [PasskeyProps.v] its theorems.
    - [Config.v] ([config/config.go], [license/token.go]): the environment, the
      security checks at start-up, durations, and the ring of retained keys.
    - [Settings.v] ([store/settings.go], [handler/admin.go]): the stored
      settings and the public ones.
    - [Setup.v] ([handler/setup.go], [handler/oauth.go]): the first owner with
      a product and a plan, and the sign-ins other than one-time codes.
    - [Letters.v], [Mail.v] ([service/email.go]): the templates and the letters;
      the conversation with the mail server, which is an argument that may
      answer anything, through the client of [net/smtp].
    - [Migrations.v] ([store/store.go]): the files that change the schema, and
      the pass that encrypts the keys stored before encryption was on.
    - [S3.v] ([storage/s3.go]): [Storage] over the client of the AWS SDK, a
      class.
    - [StripeSetup.v] ([payment/stripe_webhook_setup.go]): the webhook endpoint
      the server keeps at Stripe, and the secret of its deliveries.
    - [Boot.v] ([cmd/server/main.go], [middleware/security.go]): from the
      configuration to the services of the components above; the check for
      updates ([handler/system.go]).
    - [Demo.v], [ReleaseDemo.v], [PaymentDemo.v], [AccessDemo.v],
      [CatalogueDemo.v], [PasskeyDemo.v]: small databases on which the
      examples run.
    - [Concurrency.v]: several requests at once, see below.

    ** What the theorems show

    Each property is numbered in its comment.  The limits (devices, quotas,
    seats) hold at the end of a request whatever failed during it, for every
    licence, and so at every reachable state whose rows were added this way.
    The soundness theorems read a successful answer back into the tables: the
    key was stored, in scope and usable at an instant of the request, the
    device is active, the token is the licence's.  Round trips cover tokens
    and encryption at rest.  Equivalences relate the two backends of lockout
    and rate limiting, the two usability tests, and the period keys to the
    reset instants.  The error theorems state which answers a caller can tell
    apart, whatever tracks the failures.  A refresh token is exchanged at most once, the guesses of a
    one-time code are bounded, an owner remains.  A release that was published
    stays complete and its files frozen, whatever operation follows; downloads
    and manifests name a published, uploaded artifact of the greatest visible
    version (among the 1000 releases of a channel the queries look at), and the
    signatures in the feeds verify under the key published for the product, made
    first or by rotation, and carry its identifier; what a client does with them
    is not modelled.  A delivery of the payment webhook is one step of an abstract billing machine for the licence
    it concerns, taken at most once for each event, and taken when nothing
    fails; a paid checkout grants a licence; a customer's requests change only
    their own licence.  A request reaches the administration
    only with a stored key of the right scope or an owner's or admin's session
    opened with a passkey; on the routes of the licence group a key bound to a
    product changes nothing of another product, and learns of it only through
    the export, and a key of no other scope is refused by every other group (one
    of the scope [admin] is not confined there); the same holds of
    releases with their artifacts and of webhooks with their deliveries, with
    no exception; revoking a licence and
    rotating a key happen as a whole, with their audit row, or not at all.
    Only an owner changes the team, and an owner is left.  No row of the audit
    outbox is lost, and the outbox drains.
    A request of the portal's account, listing, usage, seat and device routes
    changes and tells nothing of a licence its session has no part in, and is
    refused in the same words when it names it, provided the guard in front of the route reads the key the
    handler reads and none of the guard's statements fail; examples show that
    both provisos are needed.  No sequence of SDK requests takes a licence
    over its number of devices.
    However the catalogue is edited, plans keep to the bounds and to what
    their product supports, and no row refers to one that is gone.  A session
    is stepped up only by closing a ceremony with a stored passkey, once; a
    user with a passkey keeps one, and has codes to recover with, and a
    recovery happens as a whole.  The set-up happens once and as a whole, as
    long as the statements of its guard are answered (an example shows that it
    fails open otherwise); no credentials and no letter leave for a remote mail
    server in the clear; migrations run in order, each once and with its record.
    A configuration without fatal errors starts the server, with its limits
    shared and its keys encrypted in production; the secret in force is that of
    an endpoint Stripe delivers from; every key of the ring is published, and no
    other; the keys stored before are sealed, recorded in the outbox, and
    nothing else changes; the names of downloads survive the header.
    The expiry job keeps the
    tables well formed, expires only what is due and, when nothing fails, all
    of it; the metered rows it finds are settled.

    ** Interleaving

    A request runs alone in [World.v].  What the limits need of the other
    requests is in [Concurrency.v]: any number of transactions that lock the
    parent row, count and insert are interleaved statement by statement under
    READ COMMITTED, and refine the machine in which each is one step; so the
    limit holds at every reachable state, and every transaction ends.

    ** Bounds

    Loops over rows are structural.  [backoff_loop] iterates as many times as
    the number of past locks, the loop bound of the source.  The loop of the
    audit outbox takes a fuel, and ends with more fuel than the rows make
    batches of 200 ([AuditOutbox.outbox_rows_kept]).  A duration is read with
    one turn per character, which is enough ([Config.duration_terms_enough]).
    The rounds of a mail server's challenges have no bound in the source: they
    take a fuel, and what is proved of the conversation holds for any.  The
    batches of the pass over unencrypted keys take a fuel, enough when it is
    more than the rows fill, and never enough when a whole batch keeps failing
    ([Migrations.batches_starved]).  Key generation
    reads random bytes until enough are accepted: it takes the bytes as a list
    and answers [None] when they run out; [KeyGen.randomSegment_total] says
    how many accepted bytes are enough.

    ** Not modelled

    The decoding of HTTP bodies (what a decoder makes of a body is an
    argument), [html/template], [mail.ParseAddress] and [strconv.ParseFloat]
    (arguments), [net/url] and the parsers of addresses of [net] (arguments),
    the AWS SDK, the checks of the WebAuthn library, the Stripe API itself and
    the list of invoices, reporting queries with their admin handlers and the
    Prometheus counters, the XML and JSON layout of feeds, the tickers of the background loops, and the
    static files of the web interface.  Nor are the clients: what Tauri, Sparkle
    and the SDKs do with a lease, a signature or a feed.  The triggers that fill
    the audit outbox are part of the statements whose theorems speak of the
    whole database (the passkey recovery and the backfills); the other
    statements leave the outbox alone, and the theorems about them say nothing
    of its rows.
    Non-ASCII letter case, leap seconds and monotonic clock readings are not
    modelled either. *)

From stdpp Require Export base tactics numbers list strings gmap fin_maps pretty.
From Stdlib Require Export ZArith Lia.
From Stdlib Require Import Sorted.
From Stdlib Require Import Ascii String.

#[global] Open Scope Z_scope.
#[global] Set Default Goal Selector "!".

(** ** Notation scope and hint database of the development *)

Declare Scope go_scope.
Delimit Scope go_scope with go.
Create HintDb licensehub discriminated.

(** ** Tactics *)

(** Split every boolean connective and every decided comparison of the
    context into its propositional reading. *)
Ltac bool_facts :=
  repeat match goal with
  | H : _ && _ = true |- _ => apply andb_true_iff in H; destruct H
  | H : _ || _ = false |- _ => apply orb_false_iff in H; destruct H
  | H : negb _ = true |- _ => apply negb_true_iff in H
  | H : negb _ = false |- _ => apply negb_false_iff in H
  | H : bool_decide _ = true |- _ => apply bool_decide_eq_true in H
  | H : bool_decide _ = false |- _ => apply bool_decide_eq_false in H
  | H : (_ <? _) = true |- _ => apply Z.ltb_lt in H
  | H : (_ <? _) = false |- _ => apply Z.ltb_ge in H
  | H : (_ <=? _) = true |- _ => apply Z.leb_le in H
  | H : (_ <=? _) = false |- _ => apply Z.leb_gt in H
  | H : (_ =? _) = true |- _ => apply Z.eqb_eq in H
  | H : (_ =? _) = false |- _ => apply Z.eqb_neq in H
  end.

(** Case analysis on the scrutinee of a [match] or [if] of the goal, keeping
    the equation and clearing the cases it contradicts. *)
Ltac case_goal :=
  match goal with
  | |- context [match ?x with _ => _ end] =>
      lazymatch x with
      | context [match _ with _ => _ end] => fail
      | _ => let E := fresh "E" in destruct x eqn:E; simplify_eq/=
      end
  end.

Ltac cases := repeat case_goal.

(** ** Machine integers

    Go's [int] and [int64] on the 64-bit targets of the server: integers of
    [Z] with two's-complement wrap-around written out. *)

Definition int64_min : Z := - 2 ^ 63.
Definition int64_max : Z := 2 ^ 63 - 1.
Definition in_int64 (z : Z) : bool := (int64_min <=? z) && (z <=? int64_max).
Definition wrap64 (z : Z) : Z := (z + 2 ^ 63) mod 2 ^ 64 - 2 ^ 63.

Definition go_add (a b : Z) : Z := wrap64 (a + b).
Definition go_sub (a b : Z) : Z := wrap64 (a - b).
Definition go_mul (a b : Z) : Z := wrap64 (a * b).

Lemma in_int64_iff z : in_int64 z = true <-> int64_min <= z <= int64_max.
Proof. unfold in_int64. rewrite andb_true_iff, !Z.leb_le. done. Qed.

Lemma wrap64_id z : int64_min <= z <= int64_max -> wrap64 z = z.
Proof. unfold wrap64, int64_min, int64_max. intros ?. rewrite Z.mod_small; lia. Qed.

Lemma wrap64_range z : int64_min <= wrap64 z <= int64_max.
Proof.
  unfold wrap64, int64_min, int64_max.
  pose proof (Z.mod_pos_bound (z + 2 ^ 63) (2 ^ 64)). lia.
Qed.

(** A sum of two non-negative [int64]s wraps to a negative number exactly when
    it leaves the range. *)
Lemma go_add_overflow a b :
  0 <= a <= int64_max -> 0 <= b <= int64_max -> int64_max < a + b ->
  go_add a b = a + b - 2 ^ 64.
Proof.
  unfold go_add, wrap64, int64_max. intros.
  replace (a + b + 2 ^ 63) with ((a + b - 2 ^ 63) + 1 * 2 ^ 64) by lia.
  rewrite Z_mod_plus_full, Z.mod_small; lia.
Qed.

#[export] Hint Resolve wrap64_id wrap64_range : licensehub.

(** ** Time

    An instant is a number of nanoseconds since the Unix epoch, a
    [time.Duration] an [int64] number of nanoseconds, a [*time.Time] an
    [option Z]. *)

Abbreviation Time := Z (only parsing).
Abbreviation Duration := Z (only parsing).

Definition Millisecond : Duration := 1000000.
Definition Second : Duration := 1000000000.
Definition Minute : Duration := 60 * Second.
Definition Hour : Duration := 60 * Minute.

Definition After (t u : Time) : bool := u <? t.
Definition Before (t u : Time) : bool := t <? u.
Definition Add (t : Time) (d : Duration) : Time := t + d.
(** [t.Sub(u)] saturates at the ends of the [int64] range. *)
Definition Sub (t u : Time) : Duration := Z.max int64_min (Z.min int64_max (t - u)).
(** [t.Unix()]: whole seconds, rounded towards minus infinity. *)
Definition Unix (t : Time) : Z := t / Second.

Lemma Sub_small t u : int64_min <= t - u <= int64_max -> Sub t u = t - u.
Proof. unfold Sub. lia. Qed.

(** ** Sorting

    [sort.SliceStable] and [ORDER BY]: the stable sort by a total preorder. *)

Section sorting.
Context {A : Type} (le : A -> A -> bool).

Fixpoint insert_le (x : A) (l : list A) : list A :=
  match l with
  | [] => [x]
  | y :: l' => if le x y then x :: l else y :: insert_le x l'
  end.

Definition sort_le (l : list A) : list A := foldr insert_le [] l.

Lemma insert_le_perm x l : insert_le x l ≡ₚ x :: l.
Proof. induction l as [|y l IH]; simpl; [done|]. destruct (le x y); [done|]. rewrite IH. constructor. Qed.

Lemma sort_le_perm l : sort_le l ≡ₚ l.
Proof. induction l as [|x l IH]; simpl; [done|]. by rewrite insert_le_perm, IH. Qed.

Context (total : forall x y, le x y = true \/ le y x = true)
  (trans : forall x y z, le x y = true -> le y z = true -> le x z = true).

Lemma insert_le_sorted x l :
  StronglySorted (fun a b => le a b = true) l -> StronglySorted (fun a b => le a b = true) (insert_le x l).
Proof.
  induction 1 as [|y l Hs IH Hy]; simpl; [repeat constructor|].
  destruct (le x y) eqn:E; constructor; [by constructor| |done|].
  - constructor; [done|]. eapply Forall_impl; [exact Hy|]. intros z Hz. by apply (trans x y).
  - rewrite insert_le_perm. constructor; [|done]. destruct (total x y); congruence.
Qed.

Lemma sort_le_sorted l : StronglySorted (fun a b => le a b = true) (sort_le l).
Proof. induction l; simpl; [constructor|]. by apply insert_le_sorted. Qed.

(** The head of a sorted list is a least element of it. *)
Lemma sort_le_head l x l' y : sort_le l = x :: l' -> y ∈ l -> le x y = true.
Proof.
  intros E Hy. pose proof (sort_le_sorted l) as Hs. rewrite E in Hs.
  rewrite <- (sort_le_perm l), E in Hy. inversion Hs as [|? ? _ Hall]; subst.
  apply list_elem_of_In in Hy as [-> | Hy]; [by destruct (total y y)|].
  rewrite Forall_forall in Hall. by apply Hall, list_elem_of_In.
Qed.
End sorting.
