(* ===== verification/GoStrings.v ===== *)
(** * The part of Go's [strings], [strconv] and [unicode] the server uses

    A Go string is a sequence of bytes: Rocq's [string].  Case mapping and
    white space are the ASCII ones; the licence keys, e-mail addresses and key
    identifiers these functions are applied to are ASCII, and bytes from 0x80
    on are left alone. *)

From S2P Require Import Prelude.
From Stdlib Require Import Ascii String.

#[local] Open Scope string_scope.
#[local] Open Scope Z_scope.

(** ** Bytes *)

Definition ord (c : ascii) : Z := Z.of_N (N_of_ascii c).
Definition chr (z : Z) : ascii := ascii_of_N (Z.to_N z).

Lemma ord_range c : 0 <= ord c < 256.
Proof. unfold ord. pose proof (N_ascii_bounded c). lia. Qed.

Lemma chr_ord c : chr (ord c) = c.
Proof. unfold chr, ord. rewrite N2Z.id. apply ascii_N_embedding. Qed.

Lemma ord_chr z : 0 <= z < 256 -> ord (chr z) = z.
Proof. intros ?. unfold chr, ord. rewrite N_ascii_embedding; lia. Qed.

Definition between (lo hi : ascii) (c : ascii) : bool := (ord lo <=? ord c) && (ord c <=? ord hi).
Definition is_lower (c : ascii) : bool := between "a" "z" c.
Definition is_upper (c : ascii) : bool := between "A" "Z" c.
Definition is_digit (c : ascii) : bool := between "0" "9" c.
(** U+0009 to U+000D and the space. *)
Definition is_space (c : ascii) : bool := ((9 <=? ord c) && (ord c <=? 13)) || (ord c =? 32).

Definition upper (c : ascii) : ascii := if is_lower c then chr (ord c - 32) else c.
Definition lower (c : ascii) : ascii := if is_upper c then chr (ord c + 32) else c.

(** ** Strings *)

Definition streq (s t : string) : bool := bool_decide (s = t).

Definition len (s : string) : Z := Z.of_nat (String.length s).

Fixpoint smap (f : ascii -> ascii) (s : string) : string :=
  match s with
  | "" => ""
  | String c s' => String (f c) (smap f s')
  end.

Fixpoint sall (p : ascii -> bool) (s : string) : bool :=
  match s with
  | "" => true
  | String c s' => p c && sall p s'
  end.

Definition ToUpper (s : string) : string := smap upper s.
Definition ToLower (s : string) : string := smap lower s.
Definition EqualFold (s t : string) : bool := bool_decide (ToLower s = ToLower t).

Fixpoint srev_app (s acc : string) : string :=
  match s with
  | "" => acc
  | String c s' => srev_app s' (String c acc)
  end.
Definition srev (s : string) : string := srev_app s "".

Fixpoint trim_left (p : ascii -> bool) (s : string) : string :=
  match s with
  | String c s' => if p c then trim_left p s' else s
  | "" => ""
  end.
Definition trim_right (p : ascii -> bool) (s : string) : string := srev (trim_left p (srev s)).
Definition TrimSpace (s : string) : string := trim_right is_space (trim_left is_space s).
(** [strings.TrimRight(s, "/")]. *)
Definition TrimRightByte (b : ascii) (s : string) : string := trim_right (Ascii.eqb b) s.

Definition HasPrefix (s p : string) : bool := String.prefix p s.
Fixpoint sdrop (n : nat) (s : string) : string :=
  match n, s with
  | O, _ => s
  | S n', String _ s' => sdrop n' s'
  | S _, "" => ""
  end.
Fixpoint stake (n : nat) (s : string) : string :=
  match n, s with
  | O, _ => ""
  | S n', String c s' => String c (stake n' s')
  | S _, "" => ""
  end.
Definition TrimPrefix (s p : string) : string :=
  if HasPrefix s p then sdrop (String.length p) s else s.

(** [strings.Contains]. *)
Fixpoint Contains (s sub : string) : bool :=
  HasPrefix s sub || match s with "" => false | String _ s' => Contains s' sub end.

Definition contains_byte (b : ascii) (s : string) : bool := negb (sall (fun c => negb (Ascii.eqb c b)) s).

(** [strings.LastIndexByte] followed by the two slices around it. *)
Fixpoint split_last (b : ascii) (s : string) : option (string * string) :=
  match s with
  | "" => None
  | String c s' =>
      match split_last b s' with
      | Some (l, r) => Some (String c l, r)
      | None => if Ascii.eqb c b then Some ("", s') else None
      end
  end.

(** ** Equations *)

#[global] Arguments String.append !_ _ / : simpl nomatch.

Lemma append_cons c s t : (String c s) +:+ t = String c (s +:+ t).
Proof. done. Qed.
Lemma append_nil_r s : s +:+ "" = s.
Proof. induction s; simpl; f_equal; done. Qed.
Lemma append_assoc s t u : (s +:+ t) +:+ u = s +:+ (t +:+ u).
Proof. induction s; simpl; f_equal; done. Qed.
Lemma length_append s t : String.length (s +:+ t) = (String.length s + String.length t)%nat.
Proof. induction s; simpl; lia. Qed.
Lemma len_append s t : len (s +:+ t) = len s + len t.
Proof. unfold len. rewrite length_append. lia. Qed.
Lemma len_nonneg s : 0 <= len s.
Proof. unfold len. lia. Qed.
Lemma len_0 s : len s = 0 <-> s = "".
Proof. unfold len. destruct s; simpl; split; intros; try done; lia. Qed.

Lemma sall_append p s t : sall p (s +:+ t) = sall p s && sall p t.
Proof. induction s; simpl; [done|]. rewrite IHs. apply andb_assoc. Qed.

Lemma smap_append f s t : smap f (s +:+ t) = smap f s +:+ smap f t.
Proof. induction s; simpl; f_equal; done. Qed.
Lemma length_smap f s : String.length (smap f s) = String.length s.
Proof. induction s; simpl; f_equal; done. Qed.
Lemma smap_smap f g s : smap f (smap g s) = smap (fun c => f (g c)) s.
Proof. induction s; simpl; f_equal; done. Qed.
Lemma smap_ext f g s : (forall c, f c = g c) -> smap f s = smap g s.
Proof. intros E. induction s; simpl; f_equal; done. Qed.

Lemma srev_app_spec s acc : srev_app s acc = srev s +:+ acc.
Proof.
  unfold srev. revert acc. induction s as [|c s IH]; intros acc; simpl; [done|].
  rewrite IH, (IH (String c "")), append_assoc. done.
Qed.
Lemma srev_cons c s : srev (String c s) = srev s +:+ String c "".
Proof. unfold srev at 1. simpl. apply srev_app_spec. Qed.
Lemma srev_append s t : srev (s +:+ t) = srev t +:+ srev s.
Proof.
  induction s as [|c s IH]; simpl; [by rewrite append_nil_r|].
  rewrite !srev_cons, IH, append_assoc. done.
Qed.
Lemma srev_involutive s : srev (srev s) = s.
Proof. induction s as [|c s IH]; [done|]. rewrite srev_cons, srev_append, IH. done. Qed.
Lemma smap_srev f s : smap f (srev s) = srev (smap f s).
Proof. induction s as [|c s IH]; [done|]. simpl. rewrite !srev_cons, smap_append, IH. done. Qed.

(** Case mapping does not create, remove or move white space. *)
Lemma ascii_forall (p : ascii -> bool) :
  forallb (fun n => p (ascii_of_nat n)) (seq 0 256) = true -> forall c, p c = true.
Proof.
  intros H c. rewrite <- (ascii_nat_embedding c).
  rewrite forallb_forall in H. apply H, in_seq. pose proof (nat_ascii_bounded c). lia.
Qed.

Lemma upper_space c : is_space (upper c) = is_space c.
Proof. apply eqb_prop. revert c. apply ascii_forall. vm_compute. done. Qed.
Lemma upper_idemp c : upper (upper c) = upper c.
Proof. apply Ascii.eqb_eq. revert c. apply ascii_forall. vm_compute. done. Qed.
Lemma upper_lower c : upper (lower c) = upper c.
Proof. apply Ascii.eqb_eq. revert c. apply ascii_forall. vm_compute. done. Qed.
Lemma lower_idemp c : lower (lower c) = lower c.
Proof. apply Ascii.eqb_eq. revert c. apply ascii_forall. vm_compute. done. Qed.
Lemma lower_space c : is_space (lower c) = is_space c.
Proof. apply eqb_prop. revert c. apply ascii_forall. vm_compute. done. Qed.

(** ** Trimming *)

Lemma trim_left_all p s : sall p s = true -> trim_left p s = "".
Proof. induction s as [|c s IH]; simpl; [done|]. intros [-> Hs]%andb_true_iff. by apply IH. Qed.

Lemma trim_left_append_all p s t : sall p s = true -> trim_left p (s +:+ t) = trim_left p t.
Proof. induction s as [|c s IH]; simpl; [done|]. intros [-> Hs]%andb_true_iff. by apply IH. Qed.

Lemma trim_left_append p s t : sall p s = false -> trim_left p (s +:+ t) = trim_left p s +:+ t.
Proof. induction s as [|c s IH]; simpl; [done|]. destruct (p c); simpl; [apply IH|done]. Qed.

Lemma sall_srev p s : sall p (srev s) = sall p s.
Proof.
  induction s as [|c s IH]; [done|]. rewrite srev_cons, sall_append, IH. simpl.
  rewrite andb_true_r. apply andb_comm.
Qed.

Lemma trim_right_append_all p s t : sall p t = true -> trim_right p (s +:+ t) = trim_right p s.
Proof.
  intros Ht. unfold trim_right. rewrite srev_append, trim_left_append_all; [done|]. by rewrite sall_srev.
Qed.

(** White space around a string does not survive [TrimSpace]. *)
Lemma TrimSpace_pad a s b :
  sall is_space a = true -> sall is_space b = true -> TrimSpace (a +:+ s +:+ b) = TrimSpace s.
Proof.
  intros Ha Hb. unfold TrimSpace. rewrite trim_left_append_all by done.
  destruct (sall is_space s) eqn:Hs.
  - rewrite (trim_left_append_all _ s), (trim_left_all _ b), (trim_left_all _ s) by done. done.
  - rewrite trim_left_append by done. by apply trim_right_append_all.
Qed.

Lemma trim_left_smap p f s :
  (forall c, p (f c) = p c) -> trim_left p (smap f s) = smap f (trim_left p s).
Proof. intros E. induction s as [|c s IH]; simpl; [done|]. rewrite E. by destruct (p c). Qed.

Lemma TrimSpace_smap f s :
  (forall c, is_space (f c) = is_space c) -> TrimSpace (smap f s) = smap f (TrimSpace s).
Proof.
  intros E. unfold TrimSpace, trim_right.
  by rewrite trim_left_smap, <- smap_srev, trim_left_smap, smap_srev.
Qed.

(** A string with no white space at its ends is its own [TrimSpace]. *)
Lemma trim_left_id p c s : p c = false -> trim_left p (String c s) = String c s.
Proof. simpl. by intros ->. Qed.

Lemma TrimSpace_none s : sall (fun c => negb (is_space c)) s = true -> TrimSpace s = s.
Proof.
  intros Hs. unfold TrimSpace, trim_right.
  assert (forall t, sall (fun c => negb (is_space c)) t = true -> trim_left is_space t = t) as Ht.
  { intros [|c t]; simpl; [done|]. intros [Hc _]%andb_true_iff. apply negb_true_iff in Hc. by rewrite Hc. }
  rewrite (Ht s) by done. rewrite Ht by (by rewrite sall_srev). apply srev_involutive.
Qed.

(** ** [strconv] *)

(** The value of a non-empty run of digits, [None] when another byte occurs. *)
Fixpoint digits_value (acc : Z) (s : string) : option Z :=
  match s with
  | "" => Some acc
  | String c s' => if is_digit c then digits_value (acc * 10 + (ord c - 48)) s' else None
  end.

Definition parse_digits (s : string) : option Z :=
  match s with "" => None | _ => digits_value 0 s end.

(** [strconv.ParseInt(s, 10, 64)] whose error is discarded: a syntax error
    leaves 0, a value out of range is clamped. *)
Definition ParseInt (s : string) : Z :=
  let clamp z := Z.max int64_min (Z.min int64_max z) in
  match s with
  | String "-" s' => match parse_digits s' with Some z => clamp (- z) | None => 0 end
  | String "+" s' => match parse_digits s' with Some z => clamp z | None => 0 end
  | _ => match parse_digits s with Some z => clamp z | None => 0 end
  end.

Lemma ParseInt_range s : int64_min <= ParseInt s <= int64_max.
Proof.
  unfold ParseInt, int64_min, int64_max. repeat case_match; lia.
Qed.

(** [strconv.Atoi]. *)
Definition Atoi (s : string) : option Z :=
  z ← match s with
      | String "-" s' => Z.opp <$> parse_digits s'
      | String "+" s' => parse_digits s'
      | _ => parse_digits s
      end;
  if (int64_min <=? z) && (z <=? int64_max) then Some z else None.

Lemma trim_left_head p s : trim_left p s = "" \/ exists c t, trim_left p s = String c t /\ p c = false.
Proof.
  induction s as [|c s IH]; simpl; [by left|]. destruct (p c) eqn:E; [done|]. right. eauto.
Qed.

Lemma trim_left_idemp p s : trim_left p (trim_left p s) = trim_left p s.
Proof.
  destruct (trim_left_head p s) as [->|(c & t & -> & Hc)]; [done|]. by apply trim_left_id.
Qed.

Lemma trim_right_idemp p s : trim_right p (trim_right p s) = trim_right p s.
Proof. unfold trim_right. by rewrite srev_involutive, trim_left_idemp. Qed.

Lemma trim_right_cons p c s : p c = false -> exists t, trim_right p (String c s) = String c t.
Proof.
  intros Hc. unfold trim_right. rewrite srev_cons. destruct (sall p (srev s)) eqn:Hs.
  - rewrite trim_left_append_all by done. simpl. rewrite Hc. by exists "".
  - rewrite trim_left_append by done. rewrite srev_append. simpl. eauto.
Qed.

Lemma TrimSpace_idemp s : TrimSpace (TrimSpace s) = TrimSpace s.
Proof.
  unfold TrimSpace. destruct (trim_left_head is_space s) as [->|(c & t & -> & Hc)]; [done|].
  destruct (trim_right_cons is_space c t Hc) as [u Hu]. rewrite Hu.
  rewrite trim_left_id by done. rewrite <- Hu. apply trim_right_idemp.
Qed.

(** ** [utf8.ValidString]

    The well-formed sequences of one to four bytes; surrogates and overlong
    forms are excluded by the range of the second byte. *)

Definition byte_in (lo hi : Z) (c : ascii) : bool := (lo <=? ord c) && (ord c <=? hi).
Definition utf8_cont : ascii -> bool := byte_in 128 191.

Fixpoint utf8_ValidString (s : string) : bool :=
  match s with
  | "" => true
  | String a s1 =>
      if ord a <? 128 then utf8_ValidString s1
      else match s1 with
      | "" => false
      | String b s2 =>
          if byte_in 194 223 a then utf8_cont b && utf8_ValidString s2
          else match s2 with
          | "" => false
          | String c s3 =>
              if byte_in 224 239 a then
                byte_in (if ord a =? 224 then 160 else 128) (if ord a =? 237 then 159 else 191) b
                && utf8_cont c && utf8_ValidString s3
              else match s3 with
              | "" => false
              | String d s4 =>
                  byte_in 240 244 a
                  && byte_in (if ord a =? 240 then 144 else 128) (if ord a =? 244 then 143 else 191) b
                  && utf8_cont c && utf8_cont d && utf8_ValidString s4
              end
          end
      end
  end.

Definition is_ascii (c : ascii) : bool := ord c <? 128.

Lemma utf8_ascii s : sall is_ascii s = true -> utf8_ValidString s = true.
Proof.
  induction s as [|c s IH]; [done|]. intros Hs. simpl in Hs. apply andb_true_iff in Hs as [Hc Hs].
  unfold is_ascii in Hc. simpl. rewrite Hc. by apply IH.
Qed.

(** ** Equality *)

Lemma streq_true s t : streq s t = true <-> s = t.
Proof. unfold streq. by rewrite bool_decide_eq_true. Qed.
Lemma streq_false s t : streq s t = false <-> s <> t.
Proof. unfold streq. by rewrite bool_decide_eq_false. Qed.
Lemma streq_refl s : streq s s = true.
Proof. by apply streq_true. Qed.

Ltac str_facts :=
  repeat match goal with
  | H : streq _ _ = true |- _ => apply streq_true in H
  | H : streq _ _ = false |- _ => apply streq_false in H
  end.

(** ** Substrings *)

Lemma HasPrefix_app p t : HasPrefix (p +:+ t) p = true.
Proof. unfold HasPrefix. induction p as [|c p IH]; [by destruct t|]. simpl. by destruct (ascii_dec c c). Qed.

Lemma HasPrefix_app_l s t p : HasPrefix s p = true -> HasPrefix (s +:+ t) p = true.
Proof.
  unfold HasPrefix. revert p. induction s as [|c s IH]; intros [|d p]; simpl; try done; [by destruct t|].
  destruct (ascii_dec d c); [apply IH|done].
Qed.

Lemma Contains_app_l s t sub : Contains s sub = true -> Contains (s +:+ t) sub = true.
Proof.
  induction s as [|c s IH]; simpl.
  - destruct sub; [|done]. intros _. destruct t; reflexivity.
  - intros [H|H]%orb_true_iff; apply orb_true_iff; [left|right; by apply IH].
    by apply (HasPrefix_app_l (String c s)).
Qed.

Lemma Contains_app_r s t sub : Contains t sub = true -> Contains (s +:+ t) sub = true.
Proof. intros Ht. induction s as [|c s IH]; [done|]. simpl. by rewrite IH, orb_true_r. Qed.

Lemma Contains_refl s : Contains s s = true.
Proof. pose proof (HasPrefix_app s "") as H. rewrite append_nil_r in H.
  destruct s as [|c s]; [done|]. apply orb_true_iff. by left. Qed.

Lemma Contains_empty s : Contains s "" = true.
Proof. by destruct s. Qed.

(** What holds of every byte holds of every byte of the trimmed text. *)
Lemma sall_trim_left q p s : sall q s = true -> sall q (trim_left p s) = true.
Proof.
  induction s as [|c s IH]; [done|]. simpl. intros H. apply andb_true_iff in H as [Hc Hs].
  destruct (p c); [by apply IH|]. simpl. by rewrite Hc.
Qed.

Lemma sall_TrimSpace q s : sall q s = true -> sall q (TrimSpace s) = true.
Proof.
  intros H. unfold TrimSpace, trim_right. rewrite sall_srev. apply sall_trim_left. rewrite sall_srev. by apply sall_trim_left.
Qed.
