(* ===== verification/Errors.v ===== *)
(** * Application errors and input validation ([server/pkg/apperr])

    [goerr] are the plain [error] values of the modelled code (the driver's
    errors, [sql.ErrNoRows], the sentinels compared with [errors.Is], and
    [fmt.Errorf] texts); [AppError] is the structured error handlers turn into
    a response; [error] is Go's [error] interface holding one or the other. *)

From S2P Require Import Prelude GoStrings.
From Stdlib Require Import Ascii String.
From Stdlib Require Import Floats.SpecFloat.

#[local] Open Scope string_scope.
#[local] Open Scope Z_scope.

(** ** Error values *)

(** What PostgreSQL reports for a statement it refuses. *)
Inductive sql_error :=
  | UniqueViolation      (* SQLSTATE 23505 *)
  | CheckViolation       (* SQLSTATE 23514 *)
  | ForeignKeyViolation  (* SQLSTATE 23503 *)
  | NumericOutOfRange    (* SQLSTATE 22003 *)
  | InFailedTransaction  (* SQLSTATE 25P02 *)
  | TxDone               (* sql.ErrTxDone *)
  | ConnectionFailure.   (* the connection, a timeout, a cancelled context *)

#[export] Instance sql_error_eq_dec : EqDecision sql_error.
Proof. solve_decision. Defined.

Inductive goerr :=
  | ErrNoRows
  | ErrSQL (d : sql_error)
  | ErrSeatLimitReached
  | ErrSeatInviteInvalid
  | ErrFloatingLimitReached
  | ErrRefreshTokenReused
  | ErrLastOwner
  | ErrLastPasskey
  | ErrIdempotencyBodyMismatch
  | ErrWebhookDeliveryNotResendable
  | ErrText (msg : string)
  | ErrWrap (msg : string) (cause : goerr)         (* fmt.Errorf("msg: %w", cause) *)
  | ErrWrapAfter (cause : goerr) (msg : string).   (* fmt.Errorf("%w msg", cause) *)

#[export] Instance goerr_eq_dec : EqDecision goerr.
Proof. solve_decision. Defined.

Definition sqlstate (d : sql_error) : string :=
  match d with
  | UniqueViolation => "23505"
  | CheckViolation => "23514"
  | ForeignKeyViolation => "23503"
  | NumericOutOfRange => "22003"
  | InFailedTransaction => "25P02"
  | TxDone => "sql: transaction has already been committed or rolled back"
  | ConnectionFailure => "08006"
  end.

(** [err.Error()]. *)
Fixpoint goerr_Error (e : goerr) : string :=
  match e with
  | ErrNoRows => "sql: no rows in result set"
  | ErrSQL d => "ERROR: #" +:+ sqlstate d
  | ErrSeatLimitReached => "seat limit reached"
  | ErrSeatInviteInvalid => "seat invite invalid or expired"
  | ErrFloatingLimitReached => "floating session limit reached"
  | ErrRefreshTokenReused => "refresh token reuse detected"
  | ErrLastOwner => "cannot remove the last owner"
  | ErrLastPasskey => "cannot remove the last passkey"
  | ErrIdempotencyBodyMismatch => "idempotency key reused with a different request body"
  | ErrWebhookDeliveryNotResendable => "webhook delivery is not resendable"
  | ErrText msg => msg
  | ErrWrap msg cause => msg +:+ ": " +:+ goerr_Error cause
  | ErrWrapAfter cause msg => goerr_Error cause +:+ " " +:+ msg
  end.

(** [isUniqueViolation]: the driver's error type and SQLSTATE field. *)
Definition isUniqueViolation (e : option goerr) : bool :=
  match e with
  | None => false
  | Some (ErrSQL d) => bool_decide (sqlstate d = "23505")
  | Some _ => false
  end.

(** The values of a [map[string]any]. *)
Inductive any :=
  | AnyNil
  | AnyString (s : string)
  | AnyInt (z : Z)
  | AnyBool (b : bool)
  | AnyTime (t : Time)
  | AnyFloat (f : spec_float)
  | AnyStrings (l : list string).

(** ** AppError *)

Record AppError := mkAppError {
  Code : string;
  Message : string;
  Status : Z;
  Details : option (gmap string any);
  Cause : option goerr
}.

Inductive error :=
  | GoError (e : goerr)
  | AppErr (a : AppError).

(** [(e *AppError) Error()]. *)
Definition AppError_Error (e : AppError) : string :=
  match Cause e with
  | Some c => Code e +:+ ": " +:+ Message e +:+ ": " +:+ goerr_Error c
  | None => Code e +:+ ": " +:+ Message e
  end.

Definition error_Error (e : error) : string :=
  match e with GoError g => goerr_Error g | AppErr a => AppError_Error a end.

Definition Unwrap (e : AppError) : option goerr := Cause e.

(** [errors.Is(err, target)] for a sentinel: the error itself or, through
    [Unwrap], a cause of it. *)
Fixpoint goerr_Is (e target : goerr) : bool :=
  bool_decide (e = target) || match e with
  | ErrWrap _ cause | ErrWrapAfter cause _ => goerr_Is cause target
  | _ => false
  end.

Definition errors_Is (e : error) (target : goerr) : bool :=
  match e with
  | GoError g => goerr_Is g target
  | AppErr a => match Unwrap a with Some g => goerr_Is g target | None => false end
  end.

Definition New (status : Z) (code message : string) : AppError :=
  {| Code := code; Message := message; Status := status; Details := None; Cause := None |}.

Definition Wrap (status : Z) (code message : string) (cause : goerr) : AppError :=
  {| Code := code; Message := message; Status := status; Details := None; Cause := Some cause |}.

Definition WithDetails (err : AppError) (details : gmap string any) : AppError :=
  {| Code := Code err; Message := Message err; Status := Status err;
     Details := Some details; Cause := Cause err |}.

Definition NotFound (entity id : string) : AppError :=
  New 404 (entity +:+ "_NOT_FOUND") (entity +:+ " '" +:+ id +:+ "' not found").
Definition BadRequest (message : string) : AppError := New 400 "BAD_REQUEST" message.
Definition Unauthorized (message : string) : AppError := New 401 "UNAUTHORIZED" message.
Definition Forbidden (message : string) : AppError := New 403 "FORBIDDEN" message.
Definition Conflict (code message : string) : AppError := New 409 code message.
Definition Internal (cause : goerr) : AppError :=
  Wrap 500 "INTERNAL_ERROR" "an internal error occurred" cause.

(** ** The response envelope ([server/pkg/response], [handler.writeAppErr]) *)

(** The part of the JSON error envelope a client can see. *)
Record Envelope := mkEnvelope {
  env_status : Z;
  env_code : string;
  env_message : string;
  env_details : option (gmap string any)
}.

Definition writeAppErr (e : error) : Envelope :=
  match e with
  | AppErr ae =>
      match Details ae with
      | Some d => mkEnvelope (Status ae) (Code ae) (Message ae) (Some d)
      | None => mkEnvelope (Status ae) (Code ae) (Message ae) None
      end
  | GoError _ => mkEnvelope 500 "INTERNAL_ERROR" "an internal error occurred" None
  end.

(** ** Input validation *)

Definition invalid_input (m : string) : AppError := New 400 "INVALID_INPUT" m.

Definition ValidateName (field value : string) : option AppError :=
  if bool_decide (value = "") then Some (invalid_input (field +:+ " is required"))
  else if 200 <? len value then Some (invalid_input (field +:+ " must be at most 200 characters"))
  else None.

Definition slug_char (c : ascii) : bool := is_lower c || is_digit c || Ascii.eqb c "-".

Definition ValidateSlug (value : string) : option AppError :=
  if bool_decide (value = "") then Some (invalid_input "slug is required")
  else if len value <? 2 then Some (invalid_input "slug must be at least 2 characters")
  else if 100 <? len value then Some (invalid_input "slug must be at most 100 characters")
  else if HasPrefix value "-" || HasPrefix (srev value) "-"
    then Some (invalid_input "slug must not start or end with a hyphen")
  else if negb (sall slug_char value)
    then Some (invalid_input "slug must contain only lowercase letters, numbers, and hyphens (a-z, 0-9, -)")
  else None.

Definition ValidateURL (value : string) : option AppError :=
  if bool_decide (value = "") then Some (invalid_input "url is required")
  else if 2048 <? len value then Some (invalid_input "url is too long")
  else if negb (HasPrefix value "https://") && negb (HasPrefix value "http://")
    then Some (invalid_input "url must start with https:// or http://")
  else None.

(** [semverShape]: [^[0-9]+\.[0-9]+\.[0-9]+(?:-[0-9A-Za-z.-]+)?(?:\+[0-9A-Za-z.-]+)?$],
    as the greedy matcher of its components.  The components are delimited by
    bytes none of them contains ('.' ends a run of digits, '+' a pre-release),
    so greedy matching decides the expression. *)
Fixpoint span (p : ascii -> bool) (s : string) : string * string :=
  match s with
  | "" => ("", "")
  | String c s' =>
      if p c then let '(a, b) := span p s' in (String c a, b) else ("", s)
  end.

Definition semver_ident (c : ascii) : bool :=
  is_digit c || is_lower c || is_upper c || Ascii.eqb c "." || Ascii.eqb c "-".

(** One or more digits; the rest. *)
Definition digits1 (s : string) : option string :=
  let '(d, rest) := span is_digit s in
  if bool_decide (d = "") then None else Some rest.

Definition expect (b : ascii) (s : string) : option string :=
  match s with String c s' => if Ascii.eqb c b then Some s' else None | "" => None end.

(** An optional suffix: [b] followed by one or more identifier bytes. *)
Definition opt_suffix (b : ascii) (s : string) : option string :=
  match expect b s with
  | Some s' =>
      let '(d, rest) := span semver_ident s' in
      if bool_decide (d = "") then None else Some rest
  | None => Some s
  end.

Definition semverShape (v : string) : bool :=
  match (s ← digits1 v; s ← expect "." s; s ← digits1 s; s ← expect "." s;
         s ← digits1 s; s ← opt_suffix "-" s; opt_suffix "+" s) with
  | Some rest => bool_decide (rest = "")
  | None => false
  end.

Section third_party.
(** [semver.IsValid] of golang.org/x/mod and [mail.ParseAddress], which
    returns the address part of a mailbox. *)
Context (semver_IsValid : string -> bool) (mail_ParseAddress : string -> option string).

Definition ValidateSemver (value : string) : option AppError :=
  if bool_decide (value = "") then Some (invalid_input "version is required")
  else if 64 <? len value then Some (invalid_input "version must be at most 64 characters")
  else if negb (semverShape value) || negb (semver_IsValid ("v" +:+ value))
    then Some (invalid_input "version must be SemVer 2.0 (e.g. 1.2.3 or 1.2.3-beta.1)")
  else None.

Definition ValidateEmail (email : string) : option AppError :=
  if bool_decide (email = "") then Some (BadRequest "email is required")
  else if 254 <? len email then Some (BadRequest "email is too long")
  else match mail_ParseAddress email with
       | None => Some (BadRequest "invalid email format")
       | Some addr =>
           if negb (contains_byte "@" addr) then Some (BadRequest "invalid email format")
           else None
       end.
End third_party.
