(* ===== verification/Model.v ===== *)
(** * Data model ([server/internal/model])

    The Go structs that are rows of the database, field by field, in the
    source's order.  A nullable string column ([bun:",nullzero"]) keeps the Go
    reading: [""] is NULL.  A [*time.Time] is an [option]; the relation fields
    a query may leave unloaded ([Plan], [Product], [Addon]) are [option]s that
    are [None] in the stored row. *)

From S2P Require Import Prelude GoStrings Errors.
From Stdlib Require Import Ascii String.

#[local] Open Scope string_scope.
#[local] Open Scope Z_scope.

(** ** Users, API keys *)

Definition RoleOwner := "owner".
Definition RoleAdmin := "admin".
Definition RoleUser := "user".

Record User := mkUser {
  user_ID : string;
  user_Email : string;
  user_Name : string;
  user_AvatarURL : string;
  user_Role : string;
  user_SessionVersion : Z;
  user_CreatedAt : Time;
  user_UpdatedAt : Time
}.

Definition IsAdmin (u : User) : bool :=
  bool_decide (user_Role u = "owner") || bool_decide (user_Role u = "admin").

Record APIKey := mkAPIKey {
  ak_ID : string;
  ak_ProductID : string;
  ak_Name : string;
  ak_KeyHash : string;
  ak_Prefix : string;
  ak_Scopes : list string;
  ak_LastUsed : option Time;
  ak_LastUsedIP : string;
  ak_CreatedAt : Time
}.

Definition ScopeAdmin := "admin".
Definition ScopeLicensesWrite := "licenses:write".
Definition ScopeReleasesWrite := "releases:write".

Definition AllScopes : list string := [ScopeAdmin; ScopeLicensesWrite; ScopeReleasesWrite].

(** [slices.Contains]. *)
Definition contains (s : string) (l : list string) : bool := bool_decide (s ∈ l).

Definition IsValidScope (s : string) : bool := contains s AllScopes.

Definition HasScope (a : option APIKey) (scope : string) : bool :=
  match a with
  | None => false
  | Some a => existsb (fun s => bool_decide (s = ScopeAdmin) || bool_decide (s = scope)) (ak_Scopes a)
  end.

(** ** Products *)

Definition ProductTypeDesktop := "desktop".
Definition ProductTypeSaaS := "saas".
Definition ProductTypeHybrid := "hybrid".

Definition CapActivations := "activations".
Definition CapSeats := "seats".
Definition CapReleases := "releases".

Definition IsValidProductType (t : string) : bool :=
  bool_decide (t = ProductTypeDesktop) || bool_decide (t = ProductTypeSaaS)
  || bool_decide (t = ProductTypeHybrid).

Definition ProductSupports (t capability : string) : bool :=
  if bool_decide (t = ProductTypeDesktop) then
    bool_decide (capability = CapActivations) || bool_decide (capability = CapReleases)
  else if bool_decide (t = ProductTypeSaaS) then
    bool_decide (capability = CapSeats)
  else if bool_decide (t = ProductTypeHybrid) then
    bool_decide (capability = CapActivations) || bool_decide (capability = CapSeats)
    || bool_decide (capability = CapReleases)
  else false.

Record Product := mkProduct {
  prod_ID : string;
  prod_Name : string;
  prod_Slug : string;
  prod_Type : string;
  prod_MinimumSupportedVersion : string;
  prod_MinimumSupportedMessage : string;
  prod_RequireSigning : bool;
  prod_CreatedAt : Time
}.

(** ** Plans and entitlements *)

Record Entitlement := mkEntitlement {
  ent_ID : string;
  ent_PlanID : string;
  ent_Feature : string;
  ent_ValueType : string;
  ent_Value : string;
  ent_QuotaPeriod : string;
  ent_QuotaUnit : string;
  ent_StripeMeterEventName : string
}.

Record Plan := mkPlan {
  plan_ID : string;
  plan_ProductID : string;
  plan_Name : string;
  plan_Slug : string;
  plan_CheckoutID : string;
  plan_LicenseType : string;
  plan_BillingInterval : string;
  plan_MaxActivations : Z;
  plan_TrialDays : Z;
  plan_GraceDays : Z;
  plan_StripePriceID : string;
  plan_LicenseModel : string;
  plan_FloatingTimeout : Z;
  plan_MaxSeats : Z;
  plan_Active : bool;
  plan_SortOrder : Z;
  plan_CreatedAt : Time;
  plan_Entitlements : list Entitlement
}.

(** [validatePlanNumericBounds] of the admin handlers. *)
Record planBounds := mkPlanBounds {
  pb_MaxActivations : Z;
  pb_MaxSeats : Z;
  pb_TrialDays : Z;
  pb_GraceDays : Z;
  pb_FloatingTimeout : Z
}.

Definition validatePlanNumericBounds (b : planBounds) : option string :=
  if pb_MaxActivations b <? 0 then Some "max_activations cannot be negative"
  else if 10000 <? pb_MaxActivations b then Some "max_activations cannot exceed 10000"
  else if pb_MaxSeats b <? 0 then Some "max_seats cannot be negative"
  else if 100000 <? pb_MaxSeats b then Some "max_seats cannot exceed 100000"
  else if pb_TrialDays b <? 0 then Some "trial_days cannot be negative"
  else if 365 <? pb_TrialDays b then Some "trial_days cannot exceed 365"
  else if pb_GraceDays b <? 0 then Some "grace_days cannot be negative"
  else if 365 <? pb_GraceDays b then Some "grace_days cannot exceed 365"
  else if pb_FloatingTimeout b <? 0 then Some "floating_timeout cannot be negative"
  else if 1440 <? pb_FloatingTimeout b then Some "floating_timeout cannot exceed 1440 minutes (1 day)"
  else None.

(** ** Licenses *)

Definition StatusActive := "active".
Definition StatusTrialing := "trialing".
Definition StatusPastDue := "past_due".
Definition StatusCanceled := "canceled".
Definition StatusExpired := "expired".
Definition StatusSuspended := "suspended".
Definition StatusRevoked := "revoked".

Record License := mkLicense {
  lic_ID : string;
  lic_ProductID : string;
  lic_PlanID : string;
  lic_UserID : string;
  lic_Email : string;
  lic_LicenseKey : string;
  lic_KeyHash : string;
  lic_LicenseKeyEncrypted : string;
  lic_PaymentProvider : string;
  lic_StripeCustomerID : string;
  lic_StripeSubscriptionID : string;
  lic_Status : string;
  lic_ValidFrom : Time;
  lic_ValidUntil : option Time;
  lic_CanceledAt : option Time;
  lic_SuspendedAt : option Time;
  lic_PastDueAt : option Time;
  lic_Notes : string;
  lic_OrgName : string;
  lic_ExternalCustomerID : string;
  lic_ExternalWorkspaceID : string;
  lic_CreatedAt : Time;
  lic_UpdatedAt : Time;
  lic_Product : option Product;
  lic_Plan : option Plan
}.

(** The scan of a joined row: the stored columns with the relations loaded. *)
Definition lic_with_relations (l : License) (prod : option Product) (plan : option Plan) : License :=
  mkLicense (lic_ID l) (lic_ProductID l) (lic_PlanID l) (lic_UserID l) (lic_Email l)
    (lic_LicenseKey l) (lic_KeyHash l) (lic_LicenseKeyEncrypted l) (lic_PaymentProvider l)
    (lic_StripeCustomerID l) (lic_StripeSubscriptionID l) (lic_Status l) (lic_ValidFrom l)
    (lic_ValidUntil l) (lic_CanceledAt l) (lic_SuspendedAt l) (lic_PastDueAt l) (lic_Notes l)
    (lic_OrgName l) (lic_ExternalCustomerID l) (lic_ExternalWorkspaceID l) (lic_CreatedAt l)
    (lic_UpdatedAt l) prod plan.

(** The columns [status] and [updated_at] of an [UPDATE licenses]. *)
Definition lic_set_status (s : string) (now : Time) (l : License) : License :=
  mkLicense (lic_ID l) (lic_ProductID l) (lic_PlanID l) (lic_UserID l) (lic_Email l)
    (lic_LicenseKey l) (lic_KeyHash l) (lic_LicenseKeyEncrypted l) (lic_PaymentProvider l)
    (lic_StripeCustomerID l) (lic_StripeSubscriptionID l) s (lic_ValidFrom l)
    (lic_ValidUntil l) (lic_CanceledAt l) (lic_SuspendedAt l) (lic_PastDueAt l) (lic_Notes l)
    (lic_OrgName l) (lic_ExternalCustomerID l) (lic_ExternalWorkspaceID l) (lic_CreatedAt l)
    now (lic_Product l) (lic_Plan l).

Record Activation := mkActivation {
  act_ID : string;
  act_LicenseID : string;
  act_Identifier : string;
  act_IdentifierType : string;
  act_Label : string;
  act_IPAddress : string;
  act_LastVerified : Time;
  act_CreatedAt : Time
}.

Definition act_set_LastVerified (t : Time) (a : Activation) : Activation :=
  mkActivation (act_ID a) (act_LicenseID a) (act_Identifier a) (act_IdentifierType a)
    (act_Label a) (act_IPAddress a) t (act_CreatedAt a).

Record AuditLog := mkAuditLog {
  audit_ID : string;
  audit_Entity : string;
  audit_EntityID : string;
  audit_Action : string;
  audit_ActorID : string;
  audit_ActorType : string;
  audit_Changes : gmap string any;
  audit_IPAddress : string;
  audit_CreatedAt : Time
}.

(** ** Seats *)

Record Seat := mkSeat {
  seat_ID : string;
  seat_LicenseID : string;
  seat_UserID : string;
  seat_Email : string;
  seat_Role : string;
  seat_InvitedAt : Time;
  seat_AcceptedAt : option Time;
  seat_RemovedAt : option Time;
  seat_InviteTokenHash : string;
  seat_InviteExpiresAt : option Time;
  seat_CreatedAt : Time
}.

(** ** Usage *)

Record UsageEvent := mkUsageEvent {
  ue_ID : string;
  ue_LicenseID : string;
  ue_Feature : string;
  ue_Quantity : Z;
  ue_Metadata : gmap string any;
  ue_IPAddress : string;
  ue_RecordedAt : Time
}.

Record UsageCounter := mkUsageCounter {
  uc_ID : string;
  uc_LicenseID : string;
  uc_Feature : string;
  uc_Period : string;
  uc_PeriodKey : string;
  uc_Used : Z;
  uc_UpdatedAt : Time
}.

(** ** Webhooks *)

Record Webhook := mkWebhook {
  wh_ID : string;
  wh_ProductID : string;
  wh_URL : string;
  wh_Secret : string;
  wh_Events : list string;
  wh_Active : bool;
  wh_CreatedAt : Time;
  wh_UpdatedAt : Time
}.

(** The JSON payload of a delivery: event name, RFC 3339 timestamp (kept as
    the instant it prints) and data. *)
Record WebhookPayload := mkPayload {
  pl_event : string;
  pl_timestamp : Time;
  pl_data : gmap string any
}.

Record WebhookDelivery := mkDelivery {
  wd_ID : string;
  wd_WebhookID : string;
  wd_Event : string;
  wd_Payload : WebhookPayload;
  wd_ResponseCode : Z;
  wd_ResponseBody : string;
  wd_Attempts : Z;
  wd_NextRetry : option Time;
  wd_Status : string;
  wd_CreatedAt : Time;
  wd_DeliveredAt : option Time
}.

(** ** Subscriptions *)

Record Subscription := mkSubscription {
  sub_ID : string;
  sub_LicenseID : string;
  sub_PlanID : string;
  sub_Status : string;
  sub_TrialStart : option Time;
  sub_TrialEnd : option Time;
  sub_CreatedAt : Time;
  sub_UpdatedAt : Time
}.

(** ** Floating sessions *)

Record FloatingSession := mkFloatingSession {
  fs_ID : string;
  fs_LicenseID : string;
  fs_Identifier : string;
  fs_Label : string;
  fs_IPAddress : string;
  fs_CheckedOut : Time;
  fs_ExpiresAt : Time;
  fs_Heartbeat : Time
}.

(** ** Add-ons *)

Record Addon := mkAddon {
  addon_ID : string;
  addon_ProductID : string;
  addon_Name : string;
  addon_Slug : string;
  addon_Description : string;
  addon_Feature : string;
  addon_ValueType : string;
  addon_Value : string;
  addon_QuotaPeriod : string;
  addon_QuotaUnit : string;
  addon_Active : bool;
  addon_SortOrder : Z;
  addon_CreatedAt : Time
}.

Record LicenseAddon := mkLicenseAddon {
  la_ID : string;
  la_LicenseID : string;
  la_AddonID : string;
  la_Enabled : bool;
  la_Addon : option Addon
}.

(** ** Metered billing *)

Record MeteredBilling := mkMetered {
  mb_ID : string;
  mb_LicenseID : string;
  mb_Feature : string;
  mb_Quantity : Z;
  mb_PeriodKey : string;
  mb_Identifier : string;
  mb_Synced : bool;
  mb_SyncedAt : option Time;
  mb_ExternalID : string;
  mb_Attempts : Z;
  mb_LastError : string;
  mb_CreatedAt : Time
}.

(** ** Queued messages ([store.QueuedEmail], with the columns the queries use) *)

Record QueuedEmail := mkQueuedEmail {
  qe_ID : string;
  qe_ToAddr : string;
  qe_Subject : string;
  qe_Body : string;
  qe_Attempts : Z;
  qe_MaxAttempts : Z;
  qe_Status : string;
  qe_NextRetry : option Time;
  qe_Error : string;
  qe_CreatedAt : Time;
  qe_SentAt : option Time
}.

Definition EventLicenseCreated := "license.created".
Definition EventQuotaWarning := "quota.warning".
Definition EventQuotaExceeded := "quota.exceeded".
Definition EventSeatAdded := "seat.added".
Definition EventSeatRemoved := "seat.removed".

(** ** Idempotency keys *)

Record IdempotencyKey := mkIdemKey {
  ik_Key : string;
  ik_Endpoint : string;
  ik_BodyHash : string;
  ik_ResponseStatus : Z;
  ik_ResponseBody : string;
  ik_ResponseComplete : bool;
  ik_CreatedAt : Time;
  ik_ExpiresAt : Time
}.

(** ** Sessions and one-time codes *)

Record RefreshToken := mkRefreshToken {
  rt_ID : string;
  rt_UserID : string;
  rt_TokenHash : string;
  rt_ExpiresAt : Time;
  rt_CreatedAt : Time;
  rt_RevokedAt : option Time
}.

Record OTPCode := mkOTP {
  otp_ID : string;
  otp_Email : string;
  otp_CodeHash : string;
  otp_Attempts : Z;
  otp_ExpiresAt : Time;
  otp_Used : bool;
  otp_CreatedAt : Time
}.

(** ** Releases *)

Definition ReleaseStatusDraft := "draft".
Definition ReleaseStatusPublished := "published".
Definition ReleaseStatusYanked := "yanked".

Definition ReleaseChannelStable := "stable".
Definition ReleaseChannelBeta := "beta".
Definition ReleaseChannelAlpha := "alpha".
Definition ReleaseChannelDev := "dev".

Definition EventReleasePublished := "release.published".
Definition EventReleaseYanked := "release.yanked".
Definition EventReleaseUnyanked := "release.unyanked".

Definition IsValidReleaseChannel (c : string) : bool :=
  bool_decide (c ∈ [ReleaseChannelStable; ReleaseChannelBeta; ReleaseChannelAlpha; ReleaseChannelDev]).

(** [SigningKeyID] is nullable. *)
Record ReleaseArtifact := mkArtifact {
  art_ID : string;
  art_ReleaseID : string;
  art_Platform : string;
  art_FileKey : string;
  art_FileSize : Z;
  art_SHA256 : string;
  art_Ed25519Sig : string;
  art_ContentType : string;
  art_SigningKeyID : option string;
  art_CreatedAt : Time;
  art_UpdatedAt : Time
}.

Definition IsUploaded (a : ReleaseArtifact) : bool :=
  negb (bool_decide (art_FileKey a = "")) && negb (bool_decide (art_SHA256 a = "")).

(** The last two fields are the loaded relations; a stored row has none. *)
Record Release := mkRelease {
  rel_ID : string;
  rel_ProductID : string;
  rel_Version : string;
  rel_Channel : string;
  rel_Name : string;
  rel_ReleaseNotes : string;
  rel_Status : string;
  rel_YankedReason : string;
  rel_PublishedAt : option Time;
  rel_YankedAt : option Time;
  rel_CreatedAt : Time;
  rel_UpdatedAt : Time;
  rel_Product : option Product;
  rel_Artifacts : list ReleaseArtifact
}.

Record ReleaseSigningKey := mkSigningKey {
  sk_ID : string;
  sk_ProductID : string;
  sk_PublicKey : string;
  sk_PrivateKeyEncrypted : string;
  sk_Active : bool;
  sk_Note : string;
  sk_CreatedAt : Time;
  sk_RotatedAt : option Time
}.

(** ** Passkeys *)

Record PasskeyCredential := mkPasskey {
  pk_ID : string;
  pk_UserID : string;
  pk_CredentialID : string;
  pk_CredentialData : string;
  pk_Name : string;
  pk_CreatedAt : Time;
  pk_LastUsedAt : option Time
}.

Record WebAuthnSession := mkWebAuthnSession {
  ws_CeremonyIDHash : string;
  ws_UserID : string;
  ws_Purpose : string;
  ws_SessionData : string;
  ws_ExpiresAt : Time;
  ws_CreatedAt : Time
}.

Record PasskeyRecoveryCode := mkRecoveryCode {
  rc_ID : string;
  rc_UserID : string;
  rc_CodeHash : string;
  rc_CreatedAt : Time;
  rc_UsedAt : option Time
}.

(** A row of [audit_outbox], written by the triggers of the migrations. *)
Record OutboxRow := mkOutboxRow {
  ob_ID : string;
  ob_Entity : string;
  ob_EntityID : string;
  ob_Action : string;
  ob_CreatedAt : Time
}.

Record Setting := mkSetting { st_Key : string; st_Value : string }.

(** ** Lemmas *)

(** Only the three known product types expose any capability. *)
Lemma ProductSupports_valid t c : ProductSupports t c = true -> IsValidProductType t = true.
Proof. unfold ProductSupports, IsValidProductType. intros H. repeat case_bool_decide; done. Qed.

Lemma HasScope_In a scope :
  HasScope (Some a) scope = true <-> ScopeAdmin ∈ ak_Scopes a \/ scope ∈ ak_Scopes a.
Proof.
  unfold HasScope. rewrite existsb_exists. setoid_rewrite <- list_elem_of_In.
  setoid_rewrite orb_true_iff. setoid_rewrite bool_decide_eq_true. split.
  - intros (x & Hx & [-> | ->]); auto.
  - intros [H | H]; eauto.
Qed.
