(* ===== verification/Crypto.v ===== *)
(** * The digests and encodings the server uses

    [encoding/hex], [base64.RawURLEncoding], [crypto/sha256] and [crypto/hmac]
    of Go's standard library, executable on strings of bytes; [crypto/ed25519]
    as an interface [Ed25519] with the correctness of its signatures. *)

From S2P Require Import Prelude GoStrings.
From Stdlib Require Import Ascii String.

#[local] Open Scope string_scope.
#[local] Open Scope Z_scope.

(** ** Hexadecimal *)

Definition hex_digit (n : Z) : ascii := chr (if n <? 10 then 48 + n else 87 + n).

Definition hex_value (c : ascii) : option Z :=
  if is_digit c then Some (ord c - 48)
  else if between "a" "f" c then Some (ord c - 87)
  else if between "A" "F" c then Some (ord c - 55)
  else None.

(** [hex.EncodeToString]. *)
Fixpoint hex_EncodeToString (s : string) : string :=
  match s with
  | "" => ""
  | String c s' => String (hex_digit (ord c / 16)) (String (hex_digit (ord c mod 16)) (hex_EncodeToString s'))
  end.

(** [hex.DecodeString]. *)
Fixpoint hex_DecodeString (s : string) : option string :=
  match s with
  | "" => Some ""
  | String a (String b s') =>
      hi ← hex_value a; lo ← hex_value b; r ← hex_DecodeString s'; Some (String (chr (hi * 16 + lo)) r)
  | String _ "" => None
  end.

(** ** Base64, URL alphabet, no padding *)

Definition b64_char (n : Z) : ascii :=
  chr (if n <? 26 then 65 + n else if n <? 52 then 71 + n else if n <? 62 then n - 4
       else if n =? 62 then 45 else 95).

Definition b64_value (c : ascii) : option Z :=
  if is_upper c then Some (ord c - 65)
  else if is_lower c then Some (ord c - 71)
  else if is_digit c then Some (ord c + 4)
  else if Ascii.eqb c "-" then Some 62
  else if Ascii.eqb c "_" then Some 63
  else None.

Fixpoint b64_EncodeToString (s : string) : string :=
  match s with
  | "" => ""
  | String a "" =>
      String (b64_char (ord a / 4)) (String (b64_char (ord a mod 4 * 16)) "")
  | String a (String b "") =>
      String (b64_char (ord a / 4)) (String (b64_char (ord a mod 4 * 16 + ord b / 16))
        (String (b64_char (ord b mod 16 * 4)) ""))
  | String a (String b (String c s')) =>
      String (b64_char (ord a / 4)) (String (b64_char (ord a mod 4 * 16 + ord b / 16))
        (String (b64_char (ord b mod 16 * 4 + ord c / 64))
          (String (b64_char (ord c mod 64)) (b64_EncodeToString s'))))
  end.

(** Line breaks are skipped; the unused low bits of the last character are not
    checked (the encoding is not in [Strict] mode). *)
Fixpoint b64_quanta (s : string) : option string :=
  match s with
  | "" => Some ""
  | String _ "" => None
  | String p (String q "") =>
      p ← b64_value p; q ← b64_value q; Some (String (chr (p * 4 + q / 16)) "")
  | String p (String q (String r "")) =>
      p ← b64_value p; q ← b64_value q; r ← b64_value r;
      Some (String (chr (p * 4 + q / 16)) (String (chr (q mod 16 * 16 + r / 4)) ""))
  | String p (String q (String r (String t s'))) =>
      p ← b64_value p; q ← b64_value q; r ← b64_value r; t ← b64_value t; rest ← b64_quanta s';
      Some (String (chr (p * 4 + q / 16)) (String (chr (q mod 16 * 16 + r / 4))
        (String (chr (r mod 4 * 64 + t)) rest)))
  end.

Definition is_newline (c : ascii) : bool := (ord c =? 10) || (ord c =? 13).

Fixpoint sfilter (p : ascii -> bool) (s : string) : string :=
  match s with
  | "" => ""
  | String c s' => if p c then String c (sfilter p s') else sfilter p s'
  end.

Definition b64_DecodeString (s : string) : option string :=
  b64_quanta (sfilter (fun c => negb (is_newline c)) s).

(** ** SHA-256 *)

Definition mask32 : Z := 4294967295.
Definition add32 (a b : Z) : Z := Z.land (a + b) mask32.
Definition rotr (x n : Z) : Z := Z.lor (Z.shiftr x n) (Z.land (Z.shiftl x (32 - n)) mask32).
Definition Ch (x y z : Z) : Z := Z.lxor (Z.land x y) (Z.land (Z.lxor x mask32) z).
Definition Maj (x y z : Z) : Z := Z.lxor (Z.lxor (Z.land x y) (Z.land x z)) (Z.land y z).
Definition Sigma0 (x : Z) : Z := Z.lxor (Z.lxor (rotr x 2) (rotr x 13)) (rotr x 22).
Definition Sigma1 (x : Z) : Z := Z.lxor (Z.lxor (rotr x 6) (rotr x 11)) (rotr x 25).
Definition sigma0 (x : Z) : Z := Z.lxor (Z.lxor (rotr x 7) (rotr x 18)) (Z.shiftr x 3).
Definition sigma1 (x : Z) : Z := Z.lxor (Z.lxor (rotr x 17) (rotr x 19)) (Z.shiftr x 10).

(** A row of 32-bit words, written as one number. *)
Definition sha_row (n : Z) : list Z :=
  (fun i => Z.shiftr n (32 * i) mod 2 ^ 32) <$> [7; 6; 5; 4; 3; 2; 1; 0].

(** The fractional parts of the cube roots of the first 64 primes. *)
Definition sha_K : list Z := Eval vm_compute in List.concat (sha_row <$> [
  0x428a2f9871374491b5c0fbcfe9b5dba53956c25b59f111f1923f82a4ab1c5ed5;
  0xd807aa9812835b01243185be550c7dc372be5d7480deb1fe9bdc06a7c19bf174;
  0xe49b69c1efbe47860fc19dc6240ca1cc2de92c6f4a7484aa5cb0a9dc76f988da;
  0x983e5152a831c66db00327c8bf597fc7c6e00bf3d5a7914706ca635114292967;
  0x27b70a852e1b21384d2c6dfc53380d13650a7354766a0abb81c2c92e92722c85;
  0xa2bfe8a1a81a664bc24b8b70c76c51a3d192e819d6990624f40e3585106aa070;
  0x19a4c1161e376c082748774c34b0bcb5391c0cb34ed8aa4a5b9cca4f682e6ff3;
  0x748f82ee78a5636f84c878148cc7020890befffaa4506cebbef9a3f7c67178f2]).

(** The fractional parts of the square roots of the first 8 primes. *)
Definition sha_H0 : list Z := Eval vm_compute in
  sha_row 0x6a09e667bb67ae853c6ef372a54ff53a510e527f9b05688c1f83d9ab5be0cd19.

Fixpoint be_bytes (n : nat) (z : Z) : list Z :=
  match n with
  | O => []
  | S n' => Z.land (Z.shiftr z (8 * Z.of_nat n')) 255 :: be_bytes n' z
  end.

Fixpoint be_words (l : list Z) : list Z :=
  match l with
  | a :: b :: c :: d :: l' => ((a * 256 + b) * 256 + c) * 256 + d :: be_words l'
  | _ => []
  end.

Definition sha_pad (bytes : list Z) : list Z :=
  let n := Z.of_nat (List.length bytes) in
  app bytes (128 :: app (repeat 0 (Z.to_nat ((55 - n) mod 64))) (be_bytes 8 (8 * n))).

(** The message schedule, newest word first. *)
Fixpoint sha_schedule (n : nat) (w : list Z) : list Z :=
  match n with
  | O => w
  | S n' =>
      let at_ i := nth i w 0 in
      sha_schedule n' (add32 (add32 (sigma1 (at_ 1%nat)) (at_ 6%nat)) (add32 (sigma0 (at_ 14%nat)) (at_ 15%nat)) :: w)
  end.

Definition sha_round (st : list Z) (kw : Z * Z) : list Z :=
  match st with
  | [a; b; c; d; e; f; g; h] =>
      let t1 := add32 (add32 (add32 h (Sigma1 e)) (Ch e f g)) (add32 kw.1 kw.2) in
      let t2 := add32 (Sigma0 a) (Maj a b c) in
      [add32 t1 t2; a; b; c; add32 d t1; e; f; g]
  | _ => st
  end.

Definition sha_block (H : list Z) (block : list Z) : list Z :=
  let w := rev (sha_schedule 48 (rev (be_words block))) in
  zip_with add32 H (fold_left sha_round (zip sha_K w) H).

Fixpoint sha_blocks (n : nat) (H bytes : list Z) : list Z :=
  match n with
  | O => H
  | S n' => sha_blocks n' (sha_block H (take 64 bytes)) (drop 64 bytes)
  end.

Definition bytes_of (s : string) : list Z := ord <$> list_ascii_of_string s.
Definition string_of (l : list Z) : string := string_of_list_ascii (chr <$> l).

(** [sha256.Sum256]. *)
Definition Sum256 (s : string) : string :=
  let padded := sha_pad (bytes_of s) in
  string_of (mjoin (be_bytes 4 <$> sha_blocks (List.length padded / 64) sha_H0 padded)).

(** [hmac.New(sha256.New, key)] fed [msg]. *)
Definition hmac_sha256 (key msg : string) : string :=
  let key := if 64 <? len key then Sum256 key else key in
  let k := app (bytes_of key) (repeat 0 (64 - String.length key)%nat) in
  let pad x := string_of (Z.lxor x <$> k) in
  Sum256 (pad 0x5c +:+ Sum256 (pad 0x36 +:+ msg)).

Definition sha256_hex (s : string) : string := hex_EncodeToString (Sum256 s).

Example Sum256_abc :
  sha256_hex "abc" = "ba7816bf8f01cfea414140de5dae2223b00361a396177a9cb410ff61f20015ad".
Proof. vm_compute. reflexivity. Qed.
Example Sum256_two_blocks :
  sha256_hex "abcdbcdecdefdefgefghfghighijhijkijkljklmklmnlmnomnopnopq"
  = "248d6a61d20638b8e5c026930c3e6039a33ce45964ff2167f6ecedd419db06c1".
Proof. vm_compute. reflexivity. Qed.
Example hmac_rfc4231_case2 :
  hex_EncodeToString (hmac_sha256 "Jefe" "what do ya want for nothing?")
  = "5bdcc146bf60754e6a042426089575c75a003f089d2739839dec58b964ec3843".
Proof. vm_compute. reflexivity. Qed.

(** ** Ed25519 *)

Class Ed25519 := {
  NewKeyFromSeed : string -> string;
  PublicKey : string -> string;
  ed_Sign : string -> string -> string;
  ed_Verify : string -> string -> string -> bool;
  len_NewKeyFromSeed seed : len seed = 32 -> len (NewKeyFromSeed seed) = 64;
  len_PublicKey priv : len priv = 64 -> len (PublicKey priv) = 32;
  len_Sign priv msg : len priv = 64 -> len (ed_Sign priv msg) = 64;
  ed_Verify_Sign priv msg : len priv = 64 -> ed_Verify (PublicKey priv) msg (ed_Sign priv msg) = true
}.

(** ** Round trips of the encodings *)

Lemma forall_range (p : Z -> bool) n :
  forallb (fun i => p (Z.of_nat i)) (seq 0 n) = true -> forall z, 0 <= z < Z.of_nat n -> p z = true.
Proof.
  intros H z Hz. rewrite forallb_forall in H. rewrite <- (Z2Nat.id z) by lia.
  apply H, in_seq. lia.
Qed.

Lemma hex_value_digit n : 0 <= n < 16 -> hex_value (hex_digit n) = Some n.
Proof.
  intros Hn. apply (bool_decide_eq_true (hex_value (hex_digit n) = Some n)).
  revert n Hn. apply (forall_range (fun n => bool_decide (hex_value (hex_digit n) = Some n)) 16).
  vm_compute. done.
Qed.

Lemma hex_Decode_Encode s : hex_DecodeString (hex_EncodeToString s) = Some s.
Proof.
  induction s as [|c s IH]; [done|]. cbn [hex_EncodeToString hex_DecodeString].
  pose proof (ord_range c). rewrite !hex_value_digit by (Z.to_euclidean_division_equations; lia).
  simpl. rewrite IH. simpl. rewrite Z.mul_comm, <- Z.div_mod by lia. by rewrite chr_ord.
Qed.

Lemma length_hex s : String.length (hex_EncodeToString s) = (2 * String.length s)%nat.
Proof. induction s; simpl; lia. Qed.

Lemma b64_value_char n : 0 <= n < 64 -> b64_value (b64_char n) = Some n.
Proof.
  intros Hn. apply (bool_decide_eq_true (b64_value (b64_char n) = Some n)).
  revert n Hn. apply (forall_range (fun n => bool_decide (b64_value (b64_char n) = Some n)) 64).
  vm_compute. done.
Qed.

(** The bytes the encoder emits: no line break, no dot. *)
Definition b64_byte (c : ascii) : bool :=
  is_upper c || is_lower c || is_digit c || Ascii.eqb c "-" || Ascii.eqb c "_".

Lemma b64_byte_char n : 0 <= n < 64 -> b64_byte (b64_char n) = true.
Proof.
  revert n. apply (forall_range (fun n => b64_byte (b64_char n)) 64). vm_compute. done.
Qed.

Lemma b64_byte_props c : b64_byte c = true -> negb (is_newline c) = true /\ Ascii.eqb c "." = false.
Proof.
  assert (implb (b64_byte c) (negb (is_newline c) && negb (Ascii.eqb c ".")) = true) as H.
  { revert c. apply ascii_forall. vm_compute. done. }
  intros Hc. rewrite Hc in H. simpl in H. apply andb_true_iff in H as [H1 H2].
  apply negb_true_iff in H2. done.
Qed.

(** Induction three bytes at a time. *)
Lemma string_ind3 (P : string -> Prop) :
  P "" -> (forall a, P (String a "")) -> (forall a b, P (String a (String b ""))) ->
  (forall a b c s, P s -> P (String a (String b (String c s)))) -> forall s, P s.
Proof.
  intros H0 H1 H2 H3. fix IH 1. intros s.
  destruct s as [|a s]; [done|]. destruct s as [|b s]; [done|]. destruct s as [|c s]; [done|].
  apply H3, IH.
Qed.

Ltac sextets :=
  repeat match goal with
  | |- context [ord ?c] => lazymatch goal with _ : 0 <= ord c < 256 |- _ => fail | _ => pose proof (ord_range c) end
  end; Z.to_euclidean_division_equations; lia.

Lemma b64_Encode_bytes s : sall b64_byte (b64_EncodeToString s) = true.
Proof.
  induction s as [|a|a b|a b c s IH] using string_ind3; cbn [b64_EncodeToString sall]; [done|..];
    rewrite !b64_byte_char by sextets; done.
Qed.

Lemma b64_quanta_Encode s : b64_quanta (b64_EncodeToString s) = Some s.
Proof.
  induction s as [|a|a b|a b c s IH] using string_ind3; [done|..];
    cbn [b64_EncodeToString b64_quanta]; rewrite !b64_value_char by sextets; simpl;
    try (rewrite IH; simpl); repeat f_equal;
    match goal with |- chr ?z = ?c => transitivity (chr (ord c)); [f_equal; sextets|apply chr_ord] end.
Qed.

Lemma sfilter_all p s : sall p s = true -> sfilter p s = s.
Proof.
  induction s as [|c s IH]; simpl; [done|]. intros [-> Hs]%andb_true_iff. by rewrite IH.
Qed.

Lemma sall_impl (p q : ascii -> bool) s :
  (forall c, p c = true -> q c = true) -> sall p s = true -> sall q s = true.
Proof.
  intros Hpq. induction s as [|c s IH]; simpl; [done|]. intros [Hc Hs]%andb_true_iff.
  by rewrite Hpq, IH.
Qed.

Lemma b64_Decode_Encode s : b64_DecodeString (b64_EncodeToString s) = Some s.
Proof.
  unfold b64_DecodeString. rewrite sfilter_all; [apply b64_quanta_Encode|].
  eapply sall_impl; [|apply b64_Encode_bytes]. intros c Hc. by apply b64_byte_props.
Qed.

Lemma split_last_none b s : sall (fun c => negb (Ascii.eqb c b)) s = true -> split_last b s = None.
Proof.
  induction s as [|c s IH]; simpl; [done|]. intros [Hc Hs]%andb_true_iff.
  rewrite IH by done. apply negb_true_iff in Hc. by rewrite Hc.
Qed.

Lemma split_last_app b s t :
  sall (fun c => negb (Ascii.eqb c b)) t = true -> split_last b (s +:+ String b t) = Some (s, t).
Proof.
  intros Ht. induction s as [|c s IH]; simpl.
  - rewrite split_last_none by done. by rewrite Ascii.eqb_refl.
  - by rewrite IH.
Qed.

Lemma split_last_Some b s l r : split_last b s = Some (l, r) -> s = l +:+ String b r.
Proof.
  revert l r. induction s as [|c s IH]; intros l r; simpl; [done|].
  destruct (split_last b s) as [[l' r']|] eqn:E.
  - intros [= <- <-]. simpl. f_equal. by apply IH.
  - destruct (Ascii.eqb c b) eqn:Ec; [|done]. apply Ascii.eqb_eq in Ec. intros [= <- <-]. by subst c.
Qed.

Lemma split_last_b64 s t :
  split_last "." (b64_EncodeToString s +:+ String "." (b64_EncodeToString t))
  = Some (b64_EncodeToString s, b64_EncodeToString t).
Proof.
  apply split_last_app. eapply sall_impl; [|apply b64_Encode_bytes].
  intros c Hc. apply negb_true_iff. by apply b64_byte_props.
Qed.

Lemma b64_byte_ascii c : b64_byte c = true -> is_ascii c = true.
Proof.
  revert c. assert (forall c, implb (b64_byte c) (is_ascii c) = true) as Hall.
  { apply ascii_forall. vm_compute. done. }
  intros c Hc. specialize (Hall c). by rewrite Hc in Hall.
Qed.

Lemma utf8_b64 s : utf8_ValidString (b64_EncodeToString s) = true.
Proof.
  apply utf8_ascii. eapply sall_impl; [|apply b64_Encode_bytes]. apply b64_byte_ascii.
Qed.

(** ** The length of a digest *)

Lemma sha_round_length st kw : List.length (sha_round st kw) = List.length st.
Proof. do 9 (destruct st as [|? st]; [done|]). done. Qed.

Lemma sha_blocks_length n H bytes : List.length (sha_blocks n H bytes) = List.length H.
Proof.
  revert H bytes. induction n as [|n IH]; intros H bytes; simpl; [done|]. rewrite IH. unfold sha_block.
  assert (forall l st, List.length (fold_left sha_round l st) = List.length st) as Hf.
  { induction l as [|x l IHl]; intros st; simpl; [done|]. by rewrite IHl, sha_round_length. }
  rewrite length_zip_with, Hf. lia.
Qed.

Lemma length_Sum256 s : String.length (Sum256 s) = 32%nat.
Proof.
  unfold Sum256, string_of. set (l := sha_blocks _ _ _).
  assert (List.length l = 8%nat) as Hl by (subst l; by rewrite sha_blocks_length).
  assert (forall l : list ascii, String.length (string_of_list_ascii l) = List.length l) as Hs
    by (induction l0 as [|c l0 IH]; simpl; [done|by rewrite IH]).
  rewrite Hs, length_fmap. clearbody l. do 9 (destruct l as [|? l]; [done|]). done.
Qed.

Lemma length_sha256_hex s : String.length (sha256_hex s) = 64%nat.
Proof. unfold sha256_hex. by rewrite length_hex, length_Sum256. Qed.
