(* ===== verification/KeyGen.v ===== *)
(** * Licence keys ([server/internal/license/keygen.go])

    Key generation by rejection sampling over a stream of random bytes, and
    the normalised hash a key is looked up by.  The stream ends where
    [rand.Read] fails, on which the code panics ([None]). *)

From S2P Require Import Prelude GoStrings Crypto.
From Stdlib Require Import Ascii String.

#[local] Open Scope string_scope.
#[local] Open Scope Z_scope.

Definition alphabet : string := "ABCDEFGHJKLMNPQRSTUVWXYZ23456789".
Definition maxUnbiased : Z := 248.

(** [alphabet[b % byte(len(alphabet))]]. *)
Definition alphabet_at (i : Z) : ascii := default "000"%char (String.get (Z.to_nat i) alphabet).
Definition symbol (b : ascii) : ascii := alphabet_at (ord b mod len alphabet).
Definition accepted (b : ascii) : bool := ord b <? maxUnbiased.

Fixpoint randomSegment (n : nat) (bytes : list ascii) {struct bytes} : option (string * list ascii) :=
  match n with
  | O => Some ("", bytes)
  | S n' =>
      match bytes with
      | [] => None
      | b :: bytes =>
          if maxUnbiased <=? ord b then randomSegment n bytes
          else '(out, rest) ← randomSegment n' bytes; Some (String (symbol b) out, rest)
      end
  end.

(** The loop over the four segments. *)
Fixpoint segments (k : nat) (bytes : list ascii) : option (list string * list ascii) :=
  match k with
  | O => Some ([], bytes)
  | S k' =>
      '(s, bytes) ← randomSegment 8 bytes;
      '(l, bytes) ← segments k' bytes;
      Some (s :: l, bytes)
  end.

Definition GenerateKey (prefix : string) (bytes : list ascii) : option (string * list ascii) :=
  let prefix := if bool_decide (prefix = "") then "KG" else prefix in
  '(segs, rest) ← segments 4 bytes;
  Some (prefix +:+ "-" +:+ String.concat "-" segs, rest).

Definition normalizeKey (key : string) : string := ToUpper (TrimSpace key).

Definition HashKey (key : string) : string := sha256_hex (normalizeKey key).

(** ** Lemmas *)

Lemma normalizeKey_idemp k : normalizeKey (normalizeKey k) = normalizeKey k.
Proof.
  unfold normalizeKey, ToUpper. rewrite TrimSpace_smap by apply upper_space.
  rewrite smap_smap, (smap_ext _ upper) by apply upper_idemp. by rewrite TrimSpace_idemp.
Qed.

(** A customer's copy of a key: any case, any surrounding white space. *)
Lemma normalizeKey_copy a k b :
  sall is_space a = true -> sall is_space b = true ->
  normalizeKey (a +:+ ToLower k +:+ b) = normalizeKey k.
Proof.
  intros Ha Hb. unfold normalizeKey, ToUpper, ToLower. rewrite TrimSpace_pad by done.
  rewrite TrimSpace_smap by apply lower_space. rewrite smap_smap. apply smap_ext, upper_lower.
Qed.

Definition in_alphabet (c : ascii) : bool := contains_byte c alphabet.

Lemma symbol_in_alphabet b : in_alphabet (symbol b) = true.
Proof. revert b. apply ascii_forall. vm_compute. done. Qed.

Definition segment_ok (s : string) : Prop := String.length s = 8%nat /\ sall in_alphabet s = true.

Lemma randomSegment_ok n bytes s rest :
  randomSegment n bytes = Some (s, rest) ->
  String.length s = n /\ sall in_alphabet s = true.
Proof.
  revert n s. induction bytes as [|b bytes IH]; intros [|n] s; simpl; try (intros; simplify_eq; done).
  destruct (maxUnbiased <=? ord b); [apply IH|].
  destruct (randomSegment n bytes) as [[out r]|] eqn:E; simpl; [|done]. intros. simplify_eq.
  apply IH in E as [Hl Ha]. simpl. rewrite Hl, Ha, symbol_in_alphabet. done.
Qed.

Lemma segments_ok k bytes l rest :
  segments k bytes = Some (l, rest) -> List.length l = k /\ Forall segment_ok l.
Proof.
  revert bytes l. induction k as [|k IH]; intros bytes l; cbn -[randomSegment].
  - intros. by simplify_eq.
  - destruct (randomSegment 8 bytes) as [[s r]|] eqn:E; simpl; [|done].
    destruct (segments k r) as [[l' r']|] eqn:E'; simpl; [|done]. intros. simplify_eq/=.
    apply IH in E' as [<- Hl]. apply randomSegment_ok in E. split; [done|by constructor].
Qed.

(** The number of bytes of a stream the sampling keeps. *)
Definition kept (bytes : list ascii) : nat := List.length (List.filter accepted bytes).

Lemma randomSegment_total n bytes :
  (n <= kept bytes)%nat ->
  exists s rest, randomSegment n bytes = Some (s, rest) /\ (kept bytes = n + kept rest)%nat.
Proof.
  unfold kept. revert n. induction bytes as [|b bytes IH]; intros n Hn; simpl in *.
  - assert (n = 0)%nat as -> by lia. by exists "", [].
  - destruct n as [|n]; [by eexists _, _|]. unfold accepted in *.
    rewrite Z.leb_antisym. destruct (ord b <? maxUnbiased); simpl in *.
    + destruct (IH n) as (s & r & -> & Hr); [lia|]. simpl. eexists _, _. split; [done|]. lia.
    + apply IH. lia.
Qed.

Lemma segments_total k bytes :
  (8 * k <= kept bytes)%nat -> exists l rest, segments k bytes = Some (l, rest).
Proof.
  revert bytes. induction k as [|k IH]; intros bytes Hk; cbn -[randomSegment]; [eauto|].
  destruct (randomSegment_total 8 bytes) as (s & r & -> & Hr); [lia|]. simpl.
  destruct (IH r) as (l & r' & ->); [lia|]. simpl. eauto.
Qed.

(** ** Properties *)

(** Key_format: a generated key is the prefix ([KG] by default) and
    four segments of eight symbols of the alphabet, joined by dashes; and 32
    accepted random bytes are enough to generate one. *)
Theorem GenerateKey_format prefix bytes :
  (forall key rest, GenerateKey prefix bytes = Some (key, rest) ->
     exists s1 s2 s3 s4, Forall segment_ok [s1; s2; s3; s4] /\
       key = (if bool_decide (prefix = "") then "KG" else prefix) +:+ "-" +:+ s1 +:+ "-" +:+ s2
             +:+ "-" +:+ s3 +:+ "-" +:+ s4)
  /\ ((32 <= kept bytes)%nat -> is_Some (GenerateKey prefix bytes)).
Proof.
  unfold GenerateKey. split.
  - intros key rest. destruct (segments 4 bytes) as [[l r]|] eqn:E; simpl; [|done]. intros. simplify_eq.
    apply segments_ok in E as [Hl Hs]. destruct l as [|s1 [|s2 [|s3 [|s4 [|]]]]]; try done.
    exists s1, s2, s3, s4. done.
  - intros Hk. destruct (segments_total 4 bytes) as (l & r & ->); [lia|]. simpl. eauto.
Qed.

(** Key_hash: the stored hash of a generated key is found again
    from any copy of the key a customer types, whatever its case and the
    white space around it. *)
Theorem HashKey_copy a key b :
  sall is_space a = true -> sall is_space b = true ->
  HashKey (a +:+ ToLower key +:+ b) = HashKey key /\ HashKey (normalizeKey key) = HashKey key.
Proof.
  intros Ha Hb. unfold HashKey. by rewrite normalizeKey_copy, normalizeKey_idemp.
Qed.

Lemma HashKey_copy_witness :
  HashKey ("  " +:+ ToLower "KG-AB" +:+ " ") = HashKey "KG-AB" /\ HashKey (normalizeKey "KG-AB") = HashKey "KG-AB".
Proof. apply (HashKey_copy "  " "KG-AB" " "); reflexivity. Defined.

(** The accepted bytes that give the symbol of index [i]. *)
Definition preimages (i : Z) : Z :=
  Z.of_nat (List.length (List.filter (fun b => accepted b && (ord b mod len alphabet =? i))
    (ascii_of_nat <$> seq 0 256))).

(** Key_bias: the sampling is not uniform.  The alphabet has 32 symbols, of
    which 248 is not a multiple: the first 24 symbols are given by eight bytes
    each, the last eight by seven. *)
Theorem randomSegment_bias i :
  0 <= i < len alphabet -> len alphabet = 32 /\ preimages i = (if i <? 24 then 8 else 7).
Proof.
  intros Hi. split; [done|]. apply Z.eqb_eq. revert i Hi.
  change (len alphabet) with (Z.of_nat 32) at 1.
  apply (forall_range (fun i => preimages i =? (if i <? 24 then 8 else 7))). vm_compute. done.
Qed.

Lemma randomSegment_bias_witness : len alphabet = 32 /\ preimages 31 = 7.
Proof. apply (randomSegment_bias 31). vm_compute. split; congruence. Defined.
