(* ===== verification/Lockout.v ===== *)
(** * Brute-force lockout ([server/internal/middleware/bruteforce.go])

    Two implementations of one failure tracker: the in-memory map of
    [attemptRecord]s, and the Redis hash updated by two Lua scripts.  Both are
    pure state machines here, one entry per key; [World.v] threads the
    in-memory map and [LicenseService.v] uses it through the
    [FailureTracker] interface. *)

From S2P Require Import Prelude GoStrings Crypto.
From Stdlib Require Import Ascii String.

#[local] Open Scope string_scope.
#[local] Open Scope Z_scope.

(** The constructor's arguments. *)
Record BFConfig := mkBFConfig {
  maxFails : Z;
  lockout : Duration;
  maxLockout : Duration;
  window : Duration
}.

(** ** The in-memory map *)

Record attemptRecord := mkAttempt {
  failures : Z;
  firstFailure : Time;
  lockedUntil : Time;     (* Go's zero time when the key was never locked *)
  lockoutCount : Z
}.

(** Go's zero [time.Time], January 1 of year 1, in Unix nanoseconds. *)
Definition zeroTime : Time := -62135596800 * Second.

(** [for i := 0; i < n; i++ { duration *= 2; if duration > max { duration = max; break } }] *)
Fixpoint backoff_loop (n : nat) (max duration : Duration) : Duration :=
  match n with
  | O => duration
  | S n' =>
      let duration := go_mul duration 2 in
      if max <? duration then max else backoff_loop n' max duration
  end.

Abbreviation BF := (gmap string attemptRecord).

Definition bf_fail (cfg : BFConfig) (now : Time) (rec : option attemptRecord) : attemptRecord :=
  match rec with
  | None => mkAttempt 1 now zeroTime 0
  | Some rec =>
      if window cfg <? Sub now (firstFailure rec) then mkAttempt 1 now zeroTime 0
      else
        let failures := failures rec + 1 in
        if maxFails cfg <=? failures then
          let duration := backoff_loop (Z.to_nat (lockoutCount rec)) (maxLockout cfg) (lockout cfg) in
          mkAttempt 0 now (Add now duration) (lockoutCount rec + 1)
        else mkAttempt failures (firstFailure rec) (lockedUntil rec) (lockoutCount rec)
  end.

(** [RecordFailure], [RecordSuccess], [IsBlocked] and one pass of [cleanup];
    [key] is the digest [bruteForceStateKey] of the caller's key. *)
Definition RecordFailure (cfg : BFConfig) (now : Time) (key : string) (st : BF) : BF :=
  <[key := bf_fail cfg now (st !! key)]> st.

Definition RecordSuccess (key : string) (st : BF) : BF := delete key st.

Definition IsBlocked (now : Time) (key : string) (st : BF) : bool * Duration :=
  match st !! key with
  | None => (false, 0)
  | Some rec =>
      if After (lockedUntil rec) now then (true, Sub (lockedUntil rec) now) else (false, 0)
  end.

Definition bf_stale (cfg : BFConfig) (now : Time) (rec : attemptRecord) : bool :=
  (go_mul (window cfg) 4 <? Sub now (firstFailure rec)) && negb (After (lockedUntil rec) now).

Definition cleanup (cfg : BFConfig) (now : Time) (st : BF) : BF :=
  filter (fun kv => bf_stale cfg now kv.2 = false) st.

(** The key the state is kept under: no address or licence key is stored. *)
Definition bruteForceStateKey (key : string) : string := "licensehub:bf:" +:+ sha256_hex key.

(** ** The Redis scripts

    The hash fields of one key, in milliseconds, and the instant [PEXPIRE]
    removes it; an absent or expired hash reads as zeroes ([or '0']). *)

Record redisRecord := mkRedisRecord {
  r_failures : Z;
  r_first : Z;
  r_lockouts : Z;
  r_locked_until : Z
}.

Definition r_zero : redisRecord := mkRedisRecord 0 0 0 0.

(** [for _ = 1, lockouts do duration = duration * 2; if duration >= max ... break end end] *)
Fixpoint r_backoff_loop (n : nat) (max duration : Z) : Z :=
  match n with
  | O => duration
  | S n' =>
      let duration := duration * 2 in
      if max <=? duration then max else r_backoff_loop n' max duration
  end.

Definition recordFailureScript (cfg : BFConfig) (now : Z) (rec : redisRecord) : redisRecord :=
  let '(mkRedisRecord failures first lockouts locked_until) := rec in
  let '(failures, first, lockouts) :=
    if (first =? 0) || (window cfg <? now - first) then (0, now, 0) else (failures, first, lockouts) in
  let failures := failures + 1 in
  if maxFails cfg <=? failures then
    let duration := r_backoff_loop (Z.to_nat lockouts) (maxLockout cfg) (lockout cfg) in
    let duration := if maxLockout cfg <? duration then maxLockout cfg else duration in
    mkRedisRecord 0 now (lockouts + 1) (now + duration)
  else mkRedisRecord failures first lockouts locked_until.

Definition blockedScript (now : Z) (rec : redisRecord) : Z :=
  if now <? r_locked_until rec then r_locked_until rec - now else 0.

Definition script_ttl (cfg : BFConfig) : Z := Z.max (window cfg * 4) (maxLockout cfg * 2).

Abbreviation RedisBF := (gmap string (redisRecord * Z)).

Definition r_read (now : Z) (key : string) (st : RedisBF) : redisRecord :=
  match st !! key with
  | Some (rec, expires) => if now <? expires then rec else r_zero
  | None => r_zero
  end.

(** [cfg] holds milliseconds ([lockout.Milliseconds()] and the like). *)
Definition RecordFailure_redis (cfg : BFConfig) (now : Z) (key : string) (st : RedisBF) : RedisBF :=
  <[key := (recordFailureScript cfg now (r_read now key st), now + script_ttl cfg)]> st.
Definition RecordSuccess_redis (key : string) (st : RedisBF) : RedisBF := delete key st.
(** [None] is a failed evaluation: the guard fails closed. *)
Definition IsBlocked_redis (now : option Z) (key : string) (st : RedisBF) : bool * Duration :=
  match now with
  | None => (true, 5 * Second)
  | Some now =>
      let remaining := blockedScript now (r_read now key st) in
      (0 <? remaining, remaining * Millisecond)
  end.

(** [LicenseBruteForceGuard]: whether the request goes on, else the
    [Retry-After] seconds of the 429 answer. *)
Definition LicenseBruteForceGuard (blocked : bool * Duration) : option Z :=
  if blocked.1 then Some (Z.quot blocked.2 Second) else None.

(** ** The backoff *)

Lemma backoff_loop_min n max d :
  0 < d <= 2 ^ 61 -> 0 < max <= 2 ^ 61 ->
  backoff_loop n max d = if bool_decide (n = O) then d else Z.min max (d * 2 ^ Z.of_nat n).
Proof.
  revert d. induction n as [|n IH]; intros d Hd Hm; [done|]. cbn [backoff_loop].
  unfold go_mul. rewrite wrap64_id by (unfold int64_min, int64_max; lia).
  rewrite (bool_decide_false (S n = O)) by done.
  rewrite Nat2Z.inj_succ, Z.pow_succ_r by lia.
  assert (0 < 2 ^ Z.of_nat n) by (apply Z.pow_pos_nonneg; lia).
  assert (d * 2 * 1 <= d * 2 * 2 ^ Z.of_nat n) by (apply Z.mul_le_mono_nonneg_l; lia).
  destruct (max <? d * 2) eqn:E; bool_facts; [lia|].
  rewrite IH by lia. case_bool_decide as Hn; [subst n; simpl; lia|]. lia.
Qed.

Lemma r_backoff_loop_min n max d :
  0 < d -> Z.min max (r_backoff_loop n max d) = Z.min max (d * 2 ^ Z.of_nat n).
Proof.
  revert d. induction n as [|n IH]; intros d Hd; [simpl; lia|]. cbn [r_backoff_loop].
  rewrite Nat2Z.inj_succ, Z.pow_succ_r by lia.
  assert (0 < 2 ^ Z.of_nat n) by (apply Z.pow_pos_nonneg; lia).
  assert (d * 2 * 1 <= d * 2 * 2 ^ Z.of_nat n) by (apply Z.mul_le_mono_nonneg_l; lia).
  destruct (max <=? d * 2) eqn:E; bool_facts; [lia|]. rewrite IH by lia. f_equal. lia.
Qed.

(** ** Guarded histories of one key

    The states a key goes through when a failure is only recorded while the
    key is not locked, as behind [LicenseBruteForceGuard]. *)

Record sane (cfg : BFConfig) : Prop := {
  sane_lockout : 0 < lockout cfg <= 2 ^ 61;
  sane_maxLockout : 0 < maxLockout cfg <= 2 ^ 61;
  sane_window : 0 < window cfg <= 2 ^ 61
}.

Inductive guarded (cfg : BFConfig) : Time -> option attemptRecord -> Prop :=
  | g_init t : guarded cfg t None
  | g_pass t t' rec : guarded cfg t rec -> t <= t' -> guarded cfg t' rec
  | g_fail t rec :
      guarded cfg t rec ->
      match rec with Some r => lockedUntil r <= t | None => True end ->
      guarded cfg t (Some (bf_fail cfg t rec))
  | g_clear t rec : guarded cfg t rec -> guarded cfg t None.

Definition lock_bound (cfg : BFConfig) : Duration :=
  Z.max (lockout cfg) (Z.min (maxLockout cfg) (2 * window cfg)).

Definition guarded_inv (cfg : BFConfig) (t : Time) (rec : attemptRecord) : Prop :=
  firstFailure rec <= t /\ 0 <= lockoutCount rec /\
  ((lockoutCount rec = 0 /\ lockedUntil rec = zeroTime) \/
   (exists n, lockoutCount rec = Z.of_nat (S n) /\
      lockedUntil rec = firstFailure rec + backoff_loop n (maxLockout cfg) (lockout cfg) /\
      backoff_loop n (maxLockout cfg) (lockout cfg) <= lock_bound cfg)).

Lemma backoff_next cfg n :
  sane cfg -> backoff_loop n (maxLockout cfg) (lockout cfg) <= window cfg ->
  backoff_loop (S n) (maxLockout cfg) (lockout cfg) <= lock_bound cfg.
Proof.
  intros [Hl Hm Hw] Hn. rewrite backoff_loop_min in * by lia. unfold lock_bound.
  rewrite (bool_decide_false (S n = O)) by done.
  rewrite Nat2Z.inj_succ, Z.pow_succ_r by lia.
  case_bool_decide; [subst n; simpl in *; lia|]. lia.
Qed.

Lemma guarded_preserved cfg t rec :
  sane cfg -> match rec with Some r => lockedUntil r <= t | None => True end ->
  (forall r, rec = Some r -> guarded_inv cfg t r) -> guarded_inv cfg t (bf_fail cfg t rec).
Proof.
  intros Hs Hg Hi. pose proof Hs as [Hl Hm Hw].
  assert (guarded_inv cfg t (mkAttempt 1 t zeroTime 0)) as Hfresh by (split; [simpl; lia|simpl; auto with lia]).
  unfold bf_fail. destruct rec as [r|]; [|done]. specialize (Hi r eq_refl) as (Hf & Hc & Hlk).
  destruct (window cfg <? Sub t (firstFailure r)) eqn:Ew; [done|]. bool_facts.
  destruct (maxFails cfg <=? failures r + 1).
  - split; [simpl; lia|]. split; [simpl; lia|]. right. simpl. unfold Add.
    destruct Hlk as [[Hz _]|(n & Hn & Hu & Hb)].
    + exists O. rewrite Hz. simpl. unfold lock_bound. repeat split; lia.
    + exists (S n). rewrite Hn, Nat2Z.id. split; [lia|]. split; [done|]. apply backoff_next; [done|].
      unfold Sub in Ew. unfold int64_min, int64_max in Ew. lia.
  - split; [simpl; lia|]. split; [done|]. simpl. destruct Hlk as [?|(n & ?)]; [by left|right; eauto].
Qed.

Lemma guarded_invariant cfg t rec :
  sane cfg -> guarded cfg t rec -> forall r, rec = Some r -> guarded_inv cfg t r.
Proof.
  intros Hs. induction 1 as [t|t t' rec _ IH Ht|t rec _ IH Hg|t rec _ IH]; intros r Hr; simplify_eq.
  - specialize (IH r eq_refl) as (? & ?). split; [lia|done].
  - by apply guarded_preserved.
Qed.

(** The records of one key after failures at the given instants. *)
Definition failures_at (cfg : BFConfig) (key : string) (times : list Time) (st : BF) : BF :=
  fold_left (fun st t => RecordFailure cfg t key st) times st.

Lemma failures_at_cons cfg key t ts st :
  failures_at cfg key (t :: ts) st = failures_at cfg key ts (RecordFailure cfg t key st).
Proof. done. Qed.

Lemma failures_at_snoc cfg key ts t st :
  failures_at cfg key (app ts [t]) st = RecordFailure cfg t key (failures_at cfg key ts st).
Proof. unfold failures_at. by rewrite fold_left_app. Qed.

Lemma failures_counting cfg key t0 ts n st :
  sane cfg -> st !! key = Some (mkAttempt n t0 zeroTime 0) ->
  (forall t, t ∈ ts -> 0 <= t - t0 <= window cfg) -> n + Z.of_nat (List.length ts) < maxFails cfg ->
  failures_at cfg key ts st !! key = Some (mkAttempt (n + Z.of_nat (List.length ts)) t0 zeroTime 0).
Proof.
  intros [_ _ Hw]. revert n st. induction ts as [|t ts IH]; intros n st Hk Ht Hn.
  - simpl. by rewrite Z.add_0_r.
  - rewrite failures_at_cons, (IH (n + 1)).
    + simpl List.length. do 2 f_equal. lia.
    + unfold RecordFailure. rewrite lookup_insert_eq, Hk. f_equal. unfold bf_fail. simpl.
      destruct (Ht t (list_elem_of_here _ _)) as [Ht1 Ht2].
      rewrite Sub_small by (unfold int64_min, int64_max; lia).
      rewrite (proj2 (Z.ltb_ge _ _)) by lia. rewrite (proj2 (Z.leb_gt _ _)) by (simpl in Hn; lia). done.
    + intros u Hu. by apply Ht, list_elem_of_further.
    + simpl List.length in Hn. lia.
Qed.

(** ** Agreement of the two backends *)

Definition in_ns (cfg : BFConfig) : BFConfig :=
  mkBFConfig (maxFails cfg) (lockout cfg * Millisecond) (maxLockout cfg * Millisecond) (window cfg * Millisecond).

(** At [now] (in milliseconds) the two records hold the same counters, and
    the same lock unless both locks are over. *)
Record agree_rec (cfg : BFConfig) (now : Z) (r : attemptRecord) (rr : redisRecord) : Prop := {
  ag_failures : failures r = r_failures rr;
  ag_first : firstFailure r = r_first rr * Millisecond;
  ag_lockouts : lockoutCount r = r_lockouts rr /\ 0 <= r_lockouts rr;
  ag_locked : lockedUntil r = r_locked_until rr * Millisecond
              \/ (lockedUntil r <= now * Millisecond /\ r_locked_until rr <= now);
  ag_past : 0 < r_first rr <= now;
  ag_bound : r_locked_until rr <= r_first rr + maxLockout cfg
}.

Definition agree (cfg : BFConfig) (now : Z) (r : option attemptRecord) (rr : redisRecord) : Prop :=
  match r with None => rr = r_zero | Some r => agree_rec cfg now r rr end.

Lemma agree_fresh cfg now lu :
  0 < now -> lu <= now -> 0 < maxLockout cfg ->
  agree_rec cfg now (mkAttempt 1 (now * Millisecond) zeroTime 0) (mkRedisRecord 1 now 0 lu).
Proof. intros. split; simpl; unfold zeroTime, Second, Millisecond; try lia. Qed.

Lemma agree_fail cfg now r rr :
  sane (in_ns cfg) -> 0 < now -> 2 <= maxFails cfg -> lockout cfg <= maxLockout cfg ->
  (r_locked_until rr <= now \/ (exists r0, r = Some r0 /\ now - r_first rr <= window cfg)) ->
  agree cfg now r rr ->
  agree cfg now (Some (bf_fail (in_ns cfg) (now * Millisecond) r)) (recordFailureScript cfg now rr).
Proof.
  intros [Hl Hm Hw] Hnow Hmf Hlm Hg Ha. unfold in_ns, Millisecond in *. simpl in *.
  assert (0 < maxLockout cfg) by lia.
  destruct r as [r|]; simpl in Ha; unfold recordFailureScript.
  - destruct Ha as [Hf H1 [Hc Hc0] Hlk Hp Hb]. destruct rr as [f first lo lu]; unfold Millisecond in *; simpl in *.
    rewrite (proj2 (Z.eqb_neq first 0)) by lia. simpl. unfold bf_fail. simpl.
    rewrite H1. assert (Sub (now * 1000000) (first * 1000000) = Z.min int64_max ((now - first) * 1000000)) as ->.
    { unfold Sub, int64_min, int64_max. lia. }
    replace (window cfg * 1000000 <? Z.min int64_max ((now - first) * 1000000)) with (window cfg <? now - first).
    2:{ apply eq_true_iff_eq. rewrite !Z.ltb_lt. unfold int64_max. lia. }
    destruct (window cfg <? now - first) eqn:Ew; bool_facts.
    + cbn -[r_backoff_loop]. rewrite (proj2 (Z.leb_gt (maxFails cfg) (0 + 1))) by lia.
      apply agree_fresh; destruct Hg as [?|(?&?&?)]; lia.
    + rewrite Hf. destruct (maxFails cfg <=? f + 1); simpl.
      * rewrite Hc. pose proof (r_backoff_loop_min (Z.to_nat lo) (maxLockout cfg) (lockout cfg)) as Hr.
        set (d := r_backoff_loop _ _ _) in *.
        assert ((if maxLockout cfg <? d then maxLockout cfg else d) = Z.min (maxLockout cfg) d) as ->.
        { destruct (maxLockout cfg <? d) eqn:E; bool_facts; lia. }
        rewrite Hr by lia. rewrite backoff_loop_min by lia.
        assert (0 < 2 ^ Z.of_nat (Z.to_nat lo)) by (apply Z.pow_pos_nonneg; lia).
        split; simpl; unfold Millisecond; try lia. left. unfold Add.
        case_bool_decide as E; [rewrite E; simpl; lia|]. lia.
      * split; simpl; unfold Millisecond; try lia; done.
  - subst rr. cbn -[r_backoff_loop]. rewrite (proj2 (Z.leb_gt (maxFails cfg) (0 + 1))) by lia.
    apply agree_fresh; lia.
Qed.

(** ** Properties *)

(** Lockout_threshold: for a key with no record, failures inside one window
    leave the key free up to the [maxFails]-th, which locks it for the initial
    duration; no other key is touched. *)
Theorem lockout_threshold cfg key st t0 ts :
  sane cfg -> 2 <= maxFails cfg -> 0 <= t0 -> st !! key = None ->
  (forall t, t ∈ ts -> 0 <= t - t0 <= window cfg) ->
  Z.of_nat (List.length ts) < maxFails cfg ->
  let t := List.last ts t0 in
  let st' := failures_at cfg key (t0 :: ts) st in
  IsBlocked t key st'
    = (if Z.of_nat (List.length ts) + 1 =? maxFails cfg then (true, lockout cfg) else (false, 0))
  /\ (forall key', key' <> key -> IsBlocked t key' st' = IsBlocked t key' st).
Proof.
  intros Hs Hm Ht0 Hk Hw Hn t st'. split.
  - subst t st'. destruct (Z.of_nat (List.length ts) + 1 =? maxFails cfg) eqn:E; bool_facts.
    + destruct ts as [|u ts' _] using rev_ind; [simpl in E; lia|].
      rewrite last_last, failures_at_cons, failures_at_snoc. unfold RecordFailure at 1, IsBlocked. rewrite lookup_insert_eq.
      rewrite length_app in E. simpl in E.
      rewrite (failures_counting cfg key t0 ts' 1 (RecordFailure cfg t0 key st)); [|done| | |lia].
      * destruct (Hw u) as [Hu1 Hu2]; [apply elem_of_app; right; apply list_elem_of_here|]. destruct Hs as [Hl _ Hw'].
        unfold bf_fail. cbn [firstFailure failures lockoutCount].
        rewrite Sub_small by (unfold int64_min, int64_max; lia).
        rewrite (proj2 (Z.ltb_ge _ _)) by lia. rewrite (proj2 (Z.leb_le _ _)) by lia.
        change (backoff_loop (Z.to_nat 0) (maxLockout cfg) (lockout cfg)) with (lockout cfg).
        cbn [lockedUntil]. unfold After, Add.
        rewrite (proj2 (Z.ltb_lt _ _)) by lia. rewrite Sub_small by (unfold int64_min, int64_max; lia).
        f_equal. lia.
      * unfold RecordFailure. by rewrite lookup_insert_eq, Hk.
      * intros v Hv. apply Hw, elem_of_app. by left.
    + rewrite failures_at_cons. unfold IsBlocked.
      rewrite (failures_counting cfg key t0 ts 1 (RecordFailure cfg t0 key st)); [|done| |done|lia].
      * cbn [lockedUntil]. unfold After. rewrite (proj2 (Z.ltb_ge _ _)); [done|].
        assert (t0 <= List.last ts t0); [|unfold zeroTime, Second; lia].
        destruct ts as [|u ts' _] using rev_ind; [done|]. rewrite last_last.
        destruct (Hw u); [apply elem_of_app; right; apply list_elem_of_here|lia].
      * unfold RecordFailure. by rewrite lookup_insert_eq, Hk.
  - intros key' Hne. subst st'. unfold IsBlocked. clearbody t. clear Hk Hw Hn.
    assert (forall l s, failures_at cfg key l s !! key' = s !! key') as ->; [|done].
    induction l as [|u l IH]; intros s; [done|]. rewrite failures_at_cons, IH. unfold RecordFailure. by rewrite lookup_insert_ne.
Qed.

(** Lockout_bound: behind the guard, where failures are only
    recorded for keys that are not locked, no key is ever locked longer than
    the initial duration or twice the counting window: the cap [maxLockout] is
    not reached when the window is shorter than half of it. *)
Theorem guarded_lock_bounded cfg t key st d :
  sane cfg -> 0 <= t -> guarded cfg t (st !! key) -> IsBlocked t key st = (true, d) ->
  0 < d <= Z.max (lockout cfg) (Z.min (maxLockout cfg) (2 * window cfg)).
Proof.
  intros Hs Ht Hg. unfold IsBlocked. destruct (st !! key) as [rec|] eqn:E; [|done].
  destruct (guarded_invariant cfg t _ Hs Hg rec eq_refl) as (Hf & _ & Hl).
  unfold After. destruct (t <? lockedUntil rec) eqn:El; [|done]. bool_facts. intros [= <-].
  destruct Hl as [[_ Hz]|(n & _ & Hu & Hb)]; [unfold zeroTime, Second in Hz; lia|].
  destruct Hs as [? ? ?]. unfold lock_bound in Hb. rewrite Sub_small; unfold int64_min, int64_max; lia.
Qed.

(** Lockout_backends: with at least two failures allowed and
    an initial lockout below the cap, the in-memory map and the Redis script
    record a failure alike and give the same answer on whether the key is
    blocked and for how long, as long as a lock is not outlived by the window. *)
Theorem backends_agree cfg now key st r rr :
  sane (in_ns cfg) -> 0 < now -> 2 <= maxFails cfg -> lockout cfg <= maxLockout cfg ->
  st !! key = r -> agree cfg now r rr ->
  (r_locked_until rr <= now \/ (exists r0, r = Some r0 /\ now - r_first rr <= window cfg)) ->
  let rr' := recordFailureScript cfg now rr in
  IsBlocked (now * Millisecond) key (RecordFailure (in_ns cfg) (now * Millisecond) key st)
    = (0 <? blockedScript now rr', blockedScript now rr' * Millisecond)
  /\ agree cfg now (RecordFailure (in_ns cfg) (now * Millisecond) key st !! key) rr'.
Proof.
  intros Hs Hnow Hm Hl <- Ha Hg rr'. unfold IsBlocked, RecordFailure. rewrite lookup_insert_eq.
  pose proof (agree_fail cfg now _ rr Hs Hnow Hm Hl Hg Ha) as Ha'. fold rr' in Ha'.
  split; [|done]. destruct Ha' as [_ _ _ Hlk Hp Hb]. destruct Hs as [_ Hm' _]. simpl in Hm'.
  unfold After, blockedScript. set (rec := bf_fail _ _ _) in *. clearbody rec rr'.
  unfold Millisecond in *. destruct (now <? r_locked_until rr') eqn:E; bool_facts.
  - destruct Hlk as [Hlk|[_ ?]]; [|lia]. rewrite Hlk.
    rewrite (proj2 (Z.ltb_lt _ _)) by lia. rewrite (proj2 (Z.ltb_lt 0 _)) by lia.
    rewrite Sub_small by (unfold int64_min, int64_max; lia). f_equal. lia.
  - rewrite (proj2 (Z.ltb_ge (now * 1000000) _)) by lia. done.
Qed.

(** Lockout_first: with [maxFails = 1] the first failure locks the key in
    Redis and not in memory. *)
Theorem first_failure_differs cfg now key st :
  sane (in_ns cfg) -> 0 < now -> maxFails cfg = 1 -> st !! key = None ->
  IsBlocked (now * Millisecond) key (RecordFailure (in_ns cfg) (now * Millisecond) key st) = (false, 0)
  /\ blockedScript now (recordFailureScript cfg now r_zero) = Z.min (maxLockout cfg) (lockout cfg).
Proof.
  intros [Hl Hm _] Hnow Hf Hk. simpl in Hl, Hm. unfold Millisecond in *. split.
  - unfold IsBlocked, RecordFailure. rewrite lookup_insert_eq, Hk. simpl. unfold After.
    rewrite (proj2 (Z.ltb_ge _ _)); [done|]. unfold zeroTime, Second. lia.
  - unfold recordFailureScript, r_zero. simpl. rewrite Hf. simpl.
    unfold blockedScript. destruct (maxLockout cfg <? lockout cfg) eqn:E; bool_facts; simpl;
      rewrite (proj2 (Z.ltb_lt _ _)) by lia; lia.
Qed.

(** ** Instances *)

Definition demo_cfg : BFConfig := mkBFConfig 3 (30 * Second) (30 * Minute) (5 * Minute).
Definition demo_cfg_ms : BFConfig := mkBFConfig 3 30000 1800000 300000.

Lemma demo_sane : sane demo_cfg.
Proof. split; vm_compute; split; congruence. Qed.
Lemma demo_ms_sane : sane (in_ns demo_cfg_ms).
Proof. split; vm_compute; split; congruence. Qed.

Lemma lockout_threshold_witness :
  IsBlocked (1002 * Second) "ip:1" (failures_at demo_cfg "ip:1" [1000 * Second; 1001 * Second; 1002 * Second] ∅)
  = (true, 30 * Second).
Proof.
  refine (proj1 (lockout_threshold demo_cfg "ip:1" ∅ (1000 * Second) [1001 * Second; 1002 * Second]
    demo_sane _ _ eq_refl _ _)); [vm_compute; congruence | vm_compute; congruence | | vm_compute; congruence].
  intros t Ht. repeat (apply elem_of_cons in Ht as [->|Ht]; [vm_compute; split; congruence|]).
  by apply elem_of_nil in Ht.
Defined.

Lemma guarded_lock_bounded_witness :
  let st := failures_at demo_cfg "ip:1" [1000 * Second; 1001 * Second; 1002 * Second] ∅ in
  IsBlocked (1002 * Second) "ip:1" st = (true, 30 * Second) /\
  0 < 30 * Second <= Z.max (30 * Second) (Z.min (30 * Minute) (10 * Minute)).
Proof.
  split; [vm_compute; reflexivity|].
  apply (guarded_lock_bounded demo_cfg (1002 * Second) "ip:1"
    (failures_at demo_cfg "ip:1" [1000 * Second; 1001 * Second; 1002 * Second] ∅) (30 * Second));
    [apply demo_sane | vm_compute; congruence | | vm_compute; reflexivity].
  change (guarded demo_cfg (1002 * Second) (Some (bf_fail demo_cfg (1002 * Second)
    (Some (bf_fail demo_cfg (1001 * Second) (Some (bf_fail demo_cfg (1000 * Second) None))))))).
  apply g_fail; [|vm_compute; congruence].
  apply (g_pass demo_cfg (1001 * Second)); [|vm_compute; congruence].
  apply g_fail; [|vm_compute; congruence].
  apply (g_pass demo_cfg (1000 * Second)); [|vm_compute; congruence].
  apply g_fail; [apply g_init|exact I].
Defined.

Lemma backends_agree_witness :
  let rr' := recordFailureScript demo_cfg_ms 1000 r_zero in
  IsBlocked (1000 * Millisecond) "ip:1" (RecordFailure (in_ns demo_cfg_ms) (1000 * Millisecond) "ip:1" ∅)
    = (0 <? blockedScript 1000 rr', blockedScript 1000 rr' * Millisecond).
Proof.
  refine (proj1 (backends_agree demo_cfg_ms 1000 "ip:1" ∅ None r_zero demo_ms_sane _ _ _ _ _ _));
    try (vm_compute; congruence); try reflexivity. left. vm_compute. congruence.
Defined.

Lemma first_failure_differs_witness :
  let cfg := mkBFConfig 1 30000 1800000 300000 in
  IsBlocked (1000 * Millisecond) "ip:1" (RecordFailure (in_ns cfg) (1000 * Millisecond) "ip:1" ∅) = (false, 0)
  /\ blockedScript 1000 (recordFailureScript cfg 1000 r_zero) = 30000.
Proof.
  apply (first_failure_differs (mkBFConfig 1 30000 1800000 300000) 1000 "ip:1" ∅);
    [split; vm_compute; split; congruence | vm_compute; congruence | reflexivity | reflexivity].
Defined.
