(* ===== verification/RateLimit.v ===== *)
(** * Rate limiting ([server/internal/middleware/ratelimit.go])

    The fixed-window limiter: its in-memory and Redis backends, and the
    middleware's decision when the backend fails. *)

From S2P Require Import Prelude.
From Stdlib Require Import String.
#[local] Open Scope string_scope.
#[local] Open Scope Z_scope.

(** ** In-memory backend *)

Record visitor := mkVisitor { v_count : Z; v_firstSeen : Time; v_lastSeen : Time }.

Abbreviation visitors := (gmap string visitor).

(** One visitor's step: its next record and the decision. *)
Definition visit (rate : Z) (window : Duration) (now : Time) (v : option visitor) : visitor * bool :=
  match v with
  | Some v =>
      if window <=? Sub now (v_firstSeen v) then (mkVisitor 1 now now, true)
      else
        let v := mkVisitor (v_count v + 1) (v_firstSeen v) now in
        (v, v_count v <=? rate)
  | None => (mkVisitor 1 now now, true)
  end.

Definition AllowContext (key : string) (rate : Z) (window : Duration) (now : Time) (mb : visitors)
    : bool * visitors :=
  let '(v, ok) := visit rate window now (mb !! key) in (ok, <[key := v]> mb).

Definition visitor_stale (now : Time) (v : visitor) : bool := Before (v_lastSeen v) (Add now (-5 * Minute)).

Definition rl_cleanup (now : Time) (mb : visitors) : visitors :=
  filter (fun kv => visitor_stale now kv.2 = false) mb.

(** ** Redis backend: a counter that [PEXPIRE] removes, in milliseconds *)

Abbreviation redisCounters := (gmap string (Z * Z)).

Definition r_current (now : Z) (c : option (Z * Z)) : Z :=
  match c with Some (n, expires) => if now <? expires then n else 0 | None => 0 end.

Definition rateLimitScript (key : string) (window_ms now : Z) (st : redisCounters) : Z * redisCounters :=
  let current := r_current now (st !! key) + 1 in
  let expires := if current =? 1 then now + window_ms
                 else match st !! key with Some (_, e) => e | None => 0 end in
  (current, <[key := (current, expires)]> st).

Definition AllowContext_redis (key : string) (rate window_ms now : Z) (st : redisCounters)
    : bool * redisCounters :=
  let '(count, st) := rateLimitScript key window_ms now st in (count <=? rate, st).

(** ** The middleware's decision *)

Inductive verdict :=
  | Next
  | Abort (status : Z) (code : string).

Definition rateLimit (failClosed : bool) (allowed : option bool) : verdict :=
  match allowed with
  | None =>
      if failClosed then Abort 503 "RATE_LIMIT_UNAVAILABLE" else Next
  | Some false => Abort 429 "RATE_LIMITED"
  | Some true => Next
  end.

(** ** Histories *)

(** The decisions on one key's requests at the given instants. *)
Fixpoint decisions (key : string) (rate : Z) (window : Duration) (times : list Time) (mb : visitors)
    : list bool :=
  match times with
  | [] => []
  | now :: times =>
      let '(ok, mb) := AllowContext key rate window now mb in ok :: decisions key rate window times mb
  end.

Fixpoint decisions_redis (key : string) (rate window_ms : Z) (times : list Z) (st : redisCounters)
    : list bool :=
  match times with
  | [] => []
  | now :: times =>
      let '(ok, st) := AllowContext_redis key rate window_ms now st in
      ok :: decisions_redis key rate window_ms times st
  end.

Definition admitted (l : list bool) : Z := Z.of_nat (List.length (List.filter id l)).

Fixpoint nondecreasing (t : Z) (l : list Z) : Prop :=
  match l with
  | [] => True
  | u :: l => t <= u /\ nondecreasing u l
  end.

Lemma nondecreasing_In t l u : nondecreasing t l -> u ∈ l -> t <= u.
Proof.
  revert t. induction l as [|v l IH]; intros t; simpl.
  - intros _ H. by apply elem_of_nil in H.
  - intros [Ht Hl] [->|Hu]%elem_of_cons; [done|]. specialize (IH v Hl Hu). lia.
Qed.

Lemma admitted_cons b l : admitted (b :: l) = (if b then 1 else 0) + admitted l.
Proof. unfold admitted. destruct b; simpl; lia. Qed.

(** Inside one window the count only grows. *)
Lemma admitted_same_window key rate window times mb v :
  0 < window <= int64_max -> mb !! key = Some v -> 1 <= v_count v ->
  (forall t, t ∈ times -> 0 <= t - v_firstSeen v < window) ->
  admitted (decisions key rate window times mb) <= Z.max 0 (rate - v_count v).
Proof.
  intros Hw. revert mb v. induction times as [|t times IH]; intros mb v Hk Hc Ht; simpl.
  - unfold admitted. simpl. lia.
  - unfold AllowContext. rewrite Hk. unfold visit.
    destruct (Ht t (list_elem_of_here _ _)) as [Ht1 Ht2].
    rewrite Sub_small by (unfold int64_min, int64_max in *; lia).
    rewrite (proj2 (Z.leb_gt _ _)) by lia. rewrite admitted_cons.
    set (v' := mkVisitor _ _ _).
    specialize (IH (<[key := v']> mb) v' (lookup_insert_eq _ _ _)). simpl in IH |- *.
    assert (admitted (decisions key rate window times (<[key := v']> mb)) <= Z.max 0 (rate - (v_count v + 1))).
    { apply IH; [lia|]. intros u Hu. by apply Ht, list_elem_of_further. }
    destruct (v_count v + 1 <=? rate) eqn:E; bool_facts; lia.
Qed.

(** A client with an open window: what is left of it, and one more window. *)
Lemma admitted_interval key rate window a times mb :
  1 <= rate -> 0 < window <= int64_max ->
  nondecreasing a times -> (forall t, t ∈ times -> t < a + window) ->
  (forall v, mb !! key = Some v -> 1 <= v_count v) ->
  admitted (decisions key rate window times mb)
  <= match mb !! key with Some v => Z.max 0 (rate - v_count v) + rate | None => rate end.
Proof.
  intros Hr Hw. revert a mb. induction times as [|t times IH]; intros a mb Hs Ht Hv.
  - unfold admitted. simpl. destruct (mb !! key); lia.
  - destruct Hs as [Hat Hs].
    (* the request opens a window: the rest of the interval is inside it *)
    assert (Hopen : admitted (decisions key rate window times (<[key := mkVisitor 1 t t]> mb)) <= rate - 1).
    { etrans; [apply (admitted_same_window key rate window times _ (mkVisitor 1 t t)); simpl|simpl; lia];
        [done|apply lookup_insert_eq|lia|].
      intros u Hu. pose proof (nondecreasing_In _ _ _ Hs Hu).
      specialize (Ht u (list_elem_of_further _ _ _ Hu)). lia. }
    simpl. unfold AllowContext, visit. destruct (mb !! key) as [v|] eqn:Ek.
    + destruct (window <=? Sub t (v_firstSeen v)) eqn:E; rewrite admitted_cons; [lia|].
      specialize (Hv v eq_refl). set (v' := mkVisitor _ _ _). simpl v_count.
      specialize (IH t (<[key := v']> mb) Hs). rewrite lookup_insert_eq in IH. simpl in IH.
      assert (admitted (decisions key rate window times (<[key := v']> mb))
              <= Z.max 0 (rate - (v_count v + 1)) + rate).
      { apply IH; [|intros v0 [= <-]; simpl; lia].
        intros u Hu. specialize (Ht u (list_elem_of_further _ _ _ Hu)). lia. }
      destruct (v_count v + 1 <=? rate) eqn:E'; bool_facts; lia.
    + rewrite admitted_cons. lia.
Qed.

(** The counter of the script is the visitor's count, removed when the
    visitor's window is over. *)
Definition same_window (window_ms : Z) (v : option visitor) (c : option (Z * Z)) : Prop :=
  match v, c with
  | None, None => True
  | Some v, Some (n, expires) =>
      exists first, v_count v = n /\ 1 <= n /\ v_firstSeen v = first * Millisecond /\ expires = first + window_ms
  | _, _ => False
  end.

Lemma same_window_step key rate window_ms now mb st :
  0 < window_ms <= 2 ^ 40 -> same_window window_ms (mb !! key) (st !! key) -> 1 <= rate ->
  let '(ok, mb') := AllowContext key rate (window_ms * Millisecond) (now * Millisecond) mb in
  let '(ok', st') := AllowContext_redis key rate window_ms now st in
  ok = ok' /\ same_window window_ms (mb' !! key) (st' !! key).
Proof.
  intros Hw Hv Hr. unfold AllowContext, AllowContext_redis, rateLimitScript, visit.
  destruct (mb !! key) as [v|], (st !! key) as [[n e]|]; simpl in Hv; try done.
  - destruct Hv as (first & Hc & Hn & Hf & ->). rewrite Hf. unfold Sub, r_current, Millisecond in *.
    replace (window_ms * 1000000 <=? Z.max int64_min (Z.min int64_max (now * 1000000 - first * 1000000)))
      with (negb (now <? first + window_ms)).
    2:{ unfold int64_max, int64_min. apply eq_true_iff_eq. rewrite negb_true_iff, Z.ltb_ge, Z.leb_le. lia. }
    destruct (now <? first + window_ms) eqn:E; simpl.
    + rewrite (proj2 (Z.eqb_neq _ _)) by lia. rewrite Hc. split; [done|]. rewrite !lookup_insert_eq.
      exists first. simpl. repeat split; lia.
    + change (0 + 1) with 1. rewrite (proj2 (Z.leb_le 1 rate)) by lia. split; [done|]. rewrite !lookup_insert_eq. simpl.
      exists now. unfold Millisecond. repeat split; lia.
  - simpl. change (0 + 1) with 1. rewrite (proj2 (Z.leb_le 1 rate)) by lia. split; [done|]. rewrite !lookup_insert_eq. simpl.
    exists now. unfold Millisecond. repeat split; lia.
Qed.

(** ** Properties *)

(** Rate_limit: whatever a client did before, fewer than [2 * rate] of its
    requests are admitted in any interval as long as the window, and at most
    [rate] when the client is new. *)
Theorem admitted_bounded key rate window a times mb :
  1 <= rate -> 0 < window <= int64_max ->
  nondecreasing a times -> (forall t, t ∈ times -> t < a + window) ->
  (forall v, mb !! key = Some v -> 1 <= v_count v) ->
  admitted (decisions key rate window times mb)
  <= match mb !! key with Some _ => 2 * rate - 1 | None => rate end.
Proof.
  intros Hr Hw Hs Ht Hv. etrans; [by apply (admitted_interval key rate window a)|].
  destruct (mb !! key) as [v|]; [|lia]. specialize (Hv v eq_refl). lia.
Qed.

Definition burst : list Time := [0; 1 * Second; 2 * Second; 59 * Second].

Lemma admitted_bounded_witness :
  decisions "ip:1" 2 Minute burst ∅ = [true; true; false; false] /\
  admitted (decisions "ip:1" 2 Minute burst ∅)
  <= match (∅ : visitors) !! "ip:1" with Some _ => 2 * 2 - 1 | None => 2 end.
Proof.
  split; [vm_compute; reflexivity|].
  apply (admitted_bounded "ip:1" 2 Minute 0 burst ∅).
  - lia.
  - vm_compute. split; congruence.
  - vm_compute. repeat split; congruence.
  - intros t Ht. unfold burst in Ht.
    repeat (apply elem_of_cons in Ht as [->|Ht]; [vm_compute; congruence|]).
    by apply elem_of_nil in Ht.
  - intros v Hv. vm_compute in Hv. discriminate.
Defined.

(** Rate_limit_backends: on the same requests of a client new to both, the
    in-memory and the Redis backends take the same decisions. *)
Theorem backends_decide_alike key rate window_ms times :
  1 <= rate -> 0 < window_ms <= 2 ^ 40 ->
  decisions key rate (window_ms * Millisecond) ((fun t => t * Millisecond) <$> times) ∅
  = decisions_redis key rate window_ms times ∅.
Proof.
  intros Hr Hw.
  assert (forall mb st, same_window window_ms (mb !! key) (st !! key) ->
    decisions key rate (window_ms * Millisecond) ((fun t => t * Millisecond) <$> times) mb
    = decisions_redis key rate window_ms times st) as H; [|by apply H].
  induction times as [|t times IH]; intros mb st Hv; [done|]. cbn [fmap list_fmap decisions decisions_redis].
  pose proof (same_window_step key rate window_ms t mb st Hw Hv Hr) as Hstep.
  destruct (AllowContext _ _ _ _ mb) as [ok mb'], (AllowContext_redis _ _ _ _ st) as [ok' st'].
  destruct Hstep as [-> Hv']. f_equal. by apply IH.
Qed.

Lemma backends_decide_alike_witness :
  decisions "ip:1" 2 (60000 * Millisecond) ((fun t => t * Millisecond) <$> [0; 1000; 2000; 60000]) ∅
  = decisions_redis "ip:1" 2 60000 [0; 1000; 2000; 60000] ∅.
Proof. apply (backends_decide_alike "ip:1" 2 60000 [0; 1000; 2000; 60000]); lia. Defined.

(** Rate_limit_cleanup: removing a client not seen for five minutes does not
    change what it is allowed, for windows of at most five minutes. *)
Theorem cleanup_harmless key rate window now mb v :
  0 < window <= 5 * Minute -> 1 <= rate -> mb !! key = Some v -> v_firstSeen v <= v_lastSeen v ->
  fst (AllowContext key rate window now (rl_cleanup now mb)) = fst (AllowContext key rate window now mb).
Proof.
  intros Hw Hr Hk Hl. unfold AllowContext, rl_cleanup. rewrite Hk.
  destruct (visitor_stale now v) eqn:E.
  - rewrite (proj2 (map_lookup_filter_None _ _ _)).
    2:{ right. intros v' Hv'. simplify_eq. simpl. by rewrite E. }
    unfold visit, visitor_stale, Before, Add, Minute, Second in *. bool_facts. simpl.
    rewrite (proj2 (Z.leb_le _ _)); [done|]. unfold Sub, int64_max, int64_min. lia.
  - rewrite (map_lookup_filter_Some_2 _ _ _ v Hk E). by destruct (visit rate window now (Some v)).
Qed.

Lemma cleanup_harmless_witness :
  fst (AllowContext "ip:1" 1 Minute (400 * Second)
        (rl_cleanup (400 * Second) (<["ip:1" := mkVisitor 1 0 0]> ∅))) = true.
Proof.
  refine (eq_trans (cleanup_harmless "ip:1" 1 Minute (400 * Second) (<["ip:1" := mkVisitor 1 0 0]> ∅)
    (mkVisitor 1 0 0) _ _ _ _) _); try (vm_compute; (reflexivity || (split; congruence) || congruence)).
Defined.
