(* ===== verification/World.v ===== *)
(** * The world the handlers run in

    The server's effects as a state-and-error monad: the PostgreSQL tables,
    the open transaction, the clock, the identifier and random sources, the
    in-memory lockout map and the trace of external effects.  Every SQL
    statement may fail: the world carries a script of faults, one per
    statement, which the theorems quantify over; time passes between any two
    readings of the clock by an arbitrary non-negative amount.

    A transaction that takes a [FOR UPDATE] lock on the parent row is run
    without interleaving; [Concurrency.v] justifies this for the lock protocol
    the store uses. *)

From S2P Require Import Prelude GoStrings Errors Model Lockout.
From Stdlib Require Import Ascii String.

#[local] Open Scope string_scope.
#[local] Open Scope Z_scope.

(** ** The database *)

Record DB := mkDB {
  db_users : gmap string User;
  db_products : gmap string Product;
  db_plans : gmap string Plan;
  db_entitlements : gmap string Entitlement;
  db_licenses : gmap string License;
  db_activations : gmap string Activation;
  db_audit_logs : gmap string AuditLog;
  db_seats : gmap string Seat;
  db_usage_events : gmap string UsageEvent;
  db_usage_counters : gmap string UsageCounter;
  db_webhooks : gmap string Webhook;
  db_webhook_deliveries : gmap string WebhookDelivery;
  db_subscriptions : gmap string Subscription;
  db_floating_sessions : gmap string FloatingSession;
  db_addons : gmap string Addon;
  db_license_addons : gmap string LicenseAddon;
  db_metered_billing : gmap string MeteredBilling;
  db_idempotency_keys : gmap (string * string) IdempotencyKey;
  db_notifications : gset (string * string);
  db_refresh_tokens : gmap string RefreshToken;
  db_otp_codes : gmap string OTPCode;
  db_releases : gmap string Release;
  db_release_artifacts : gmap string ReleaseArtifact;
  db_signing_keys : gmap string ReleaseSigningKey;
  db_processed_events : gset (string * string);
  db_email_queue : gmap string QueuedEmail;
  db_api_keys : gmap string APIKey;
  db_passkeys : gmap string PasskeyCredential;
  db_webauthn_sessions : gmap string WebAuthnSession;
  db_recovery_codes : gmap string PasskeyRecoveryCode;
  db_audit_outbox : gmap string OutboxRow;
  db_settings : gmap string Setting
}.

Definition empty_db : DB :=
  mkDB ∅ ∅ ∅ ∅ ∅ ∅ ∅ ∅ ∅ ∅ ∅ ∅ ∅ ∅ ∅ ∅ ∅ ∅ ∅ ∅ ∅ ∅ ∅ ∅ ∅ ∅ ∅ ∅ ∅ ∅ ∅ ∅.

(** ** External effects, in the order they happen *)

Inductive Event :=
  | EvMetric (name : string) (labels : list string)
  | EvEmail (template to : string) (args : list string)
  | EvDeliver (webhook_id delivery_id : string)      (* go s.deliver(wh, delivery) *)
  | EvStripe (call : string) (args : list string)    (* a call of the Stripe API *)
  | EvStorage (op key : string)                      (* a call of the object storage *)
  | EvWebAuthn (call userID : string)                (* a call of the WebAuthn library *)
  | EvWarn (msg : string).                           (* slog.Warn / logger.Error *)

(** What happens to the next statement sent to the server: executed, or the
    connection is lost before or after the server applied it. *)
Inductive fault := NoFault | Lost (applied : bool).

(** An open transaction: the database at BEGIN, whether a statement of it has
    failed, and the instant [now()] denotes in it. *)
Record Tx := mkTx { tx_snapshot : DB; tx_failed : bool; tx_now : Time }.

Record World := mkWorld {
  w_db : DB;
  w_tx : option Tx;
  w_clock : Time;
  w_ticks : list N;
  w_faults : list fault;
  (** whether the driver turns the ROLLBACK answer to a COMMIT of a failed
      transaction into an error *)
  w_commit_reports : bool;
  w_ids : nat;
  w_rand : list ascii;
  w_attempts : BF;
  w_events : list Event
}.

Definition set_db (db : DB) (w : World) : World :=
  mkWorld db (w_tx w) (w_clock w) (w_ticks w) (w_faults w) (w_commit_reports w) (w_ids w)
    (w_rand w) (w_attempts w) (w_events w).
Definition set_tx (tx : option Tx) (w : World) : World :=
  mkWorld (w_db w) tx (w_clock w) (w_ticks w) (w_faults w) (w_commit_reports w) (w_ids w)
    (w_rand w) (w_attempts w) (w_events w).
Definition set_clock (t : Time) (ticks : list N) (w : World) : World :=
  mkWorld (w_db w) (w_tx w) t ticks (w_faults w) (w_commit_reports w) (w_ids w)
    (w_rand w) (w_attempts w) (w_events w).
Definition set_faults (f : list fault) (w : World) : World :=
  mkWorld (w_db w) (w_tx w) (w_clock w) (w_ticks w) f (w_commit_reports w) (w_ids w)
    (w_rand w) (w_attempts w) (w_events w).
Definition set_ids (n : nat) (w : World) : World :=
  mkWorld (w_db w) (w_tx w) (w_clock w) (w_ticks w) (w_faults w) (w_commit_reports w) n
    (w_rand w) (w_attempts w) (w_events w).
Definition set_rand (r : list ascii) (w : World) : World :=
  mkWorld (w_db w) (w_tx w) (w_clock w) (w_ticks w) (w_faults w) (w_commit_reports w) (w_ids w)
    r (w_attempts w) (w_events w).
Definition set_attempts (b : BF) (w : World) : World :=
  mkWorld (w_db w) (w_tx w) (w_clock w) (w_ticks w) (w_faults w) (w_commit_reports w) (w_ids w)
    (w_rand w) b (w_events w).
Definition set_events (e : list Event) (w : World) : World :=
  mkWorld (w_db w) (w_tx w) (w_clock w) (w_ticks w) (w_faults w) (w_commit_reports w) (w_ids w)
    (w_rand w) (w_attempts w) e.

(** ** The monad *)

Inductive result (E A : Type) := Ok (a : A) | Err (e : E).
Arguments Ok {_ _} a.
Arguments Err {_ _} e.

Definition M (E A : Type) : Type := World -> result E A * World.

#[export] Instance M_ret {E} : MRet (M E) := fun A a w => (Ok a, w).
#[export] Instance M_bind {E} : MBind (M E) := fun A B k m w =>
  match m w with
  | (Ok a, w') => k a w'
  | (Err e, w') => (Err e, w')
  end.
#[export] Instance M_fmap {E} : FMap (M E) := fun A B f m w =>
  match m w with
  | (Ok a, w') => (Ok (f a), w')
  | (Err e, w') => (Err e, w')
  end.

Definition throw {E A} (e : E) : M E A := fun w => (Err e, w).

(** [x, err := f(); if err != nil { ... }]: the error as a value. *)
Definition attempt {E E' A} (m : M E A) : M E' (result E A) := fun w =>
  let '(r, w') := m w in (Ok r, w').

(** [_ = f()]. *)
Definition ignore {E E' A} (m : M E A) : M E' unit := fun w => (Ok tt, snd (m w)).

(** [if err != nil { return wrap(err) }]. *)
Definition map_err {E E' A} (f : E -> E') (m : M E A) : M E' A := fun w =>
  match m w with
  | (Ok a, w') => (Ok a, w')
  | (Err e, w') => (Err (f e), w')
  end.

Definition gets {E A} (f : World -> A) : M E A := fun w => (Ok (f w), w).
Definition modify {E} (f : World -> World) : M E unit := fun w => (Ok tt, f w).

(** [for _, x := range l { body }] with a body that cannot return early. *)
Fixpoint for_each {E A} (l : list A) (body : A -> M E unit) : M E unit :=
  match l with
  | [] => mret tt
  | x :: l' => body x ;; for_each l' body
  end.

(** ** Clock, identifiers, randomness, effects *)

Definition tick (w : World) : Time * list N :=
  match w_ticks w with
  | [] => (w_clock w, [])
  | d :: ds => (w_clock w + Z.of_N d, ds)
  end.

(** [time.Now()]. *)
Definition time_Now {E} : M E Time := fun w =>
  let '(t, ds) := tick w in (Ok t, set_clock t ds w).

(** SQL's [now()]: the start of the open transaction, else of the statement. *)
Definition sql_now {E} : M E Time := fun w =>
  match w_tx w with
  | Some tx => (Ok (tx_now tx), w)
  | None => time_Now w
  end.

(** The UUIDs [uuid.NewString] returns, in order. *)
Class UUIDs := uuid_nth : nat -> string.

Definition newID `{UUIDs} {E} : M E string := fun w =>
  (Ok (uuid_nth (w_ids w)), set_ids (S (w_ids w)) w).

(** [rand.Read] of an [n]-byte buffer: fails when the source is exhausted. *)
Definition rand_Read {E} (n : nat) : M E (option string) := fun w =>
  if bool_decide (n ≤ List.length (w_rand w))%nat
  then (Ok (Some (string_of_list_ascii (take n (w_rand w)))), set_rand (drop n (w_rand w)) w)
  else (Ok None, w).

Definition emit {E} (e : Event) : M E unit := modify (fun w => set_events (w_events w ++ [e]) w).
Definition metric {E} (name : string) (labels : list string) : M E unit := emit (EvMetric name labels).

(** ** Statements and transactions *)

Definition fail_tx (w : World) : World :=
  match w_tx w with
  | Some tx => set_tx (Some (mkTx (tx_snapshot tx) true (tx_now tx))) w
  | None => w
  end.

Definition next_fault (w : World) : fault * World :=
  match w_faults w with
  | [] => (NoFault, w)
  | f :: fs => (f, set_faults fs w)
  end.

(** A statement computes its answer and the new tables, or is refused.  A
    refused or lost statement fails the open transaction; [ErrNoRows] is not
    a refusal, it is how an empty answer is scanned. *)
Definition refuses (e : goerr) : bool := match e with ErrSQL _ => true | _ => false end.

Definition stmt {A} (f : DB -> result goerr (A * DB)) : M goerr A := fun w =>
  let '(flt, w) := next_fault w in
  match w_tx w with
  | Some (mkTx _ true _) => (Err (ErrSQL InFailedTransaction), w)
  | _ =>
      match flt, f (w_db w) with
      | NoFault, Ok (a, db') => (Ok a, set_db db' w)
      | NoFault, Err e => (Err e, if refuses e then fail_tx w else w)
      | Lost true, Ok (_, db') => (Err (ErrSQL ConnectionFailure), fail_tx (set_db db' w))
      | Lost _, _ => (Err (ErrSQL ConnectionFailure), fail_tx w)
      end
  end.

(** [tx, err := db.BeginTx(ctx, nil)]. *)
Definition begin_tx : M goerr unit := fun w =>
  let '(flt, w) := next_fault w in
  match flt with
  | NoFault =>
      let '(t, ds) := tick w in
      (Ok tt, set_tx (Some (mkTx (w_db w) false t)) (set_clock t ds w))
  | Lost _ => (Err (ErrSQL ConnectionFailure), w)
  end.

Definition rollback_w (w : World) : World :=
  match w_tx w with
  | Some tx => set_tx None (set_db (tx_snapshot tx) w)
  | None => w
  end.

(** [tx.Commit()]. *)
Definition commit_tx : M goerr unit := fun w =>
  let '(flt, w) := next_fault w in
  match w_tx w with
  | None => (Err (ErrSQL TxDone), w)
  | Some tx =>
      match flt with
      | NoFault =>
          if tx_failed tx then
            (if w_commit_reports w then Err (ErrSQL InFailedTransaction) else Ok tt, rollback_w w)
          else (Ok tt, set_tx None w)
      | Lost applied =>
          (Err (ErrSQL ConnectionFailure),
           if applied && negb (tx_failed tx) then set_tx None w else rollback_w w)
      end
  end.

(** [defer tx.Rollback()] around the rest of the function. *)
Definition defer_rollback {E A} (m : M E A) : M E A := fun w =>
  let '(r, w') := m w in (r, rollback_w w').

(** [tx, err := BeginTx(); if err != nil { return err }; defer tx.Rollback(); body]. *)
Definition with_tx {A} (body : M goerr A) : M goerr A := begin_tx ;; defer_rollback body.

(** ** Tables *)

(** A table: how to reach it, its laws, its unique indexes beyond the primary
    key (a new row [r] conflicts with a stored row [r']), and its CHECK and
    FOREIGN KEY constraints. *)
Record Table (K R : Type) `{Countable K} := mkTable {
  t_get : DB -> gmap K R;
  t_set : gmap K R -> DB -> DB;
  t_conflict : R -> R -> bool;
  t_check : DB -> R -> option sql_error;
  t_get_set : forall m db, t_get (t_set m db) = m
}.
Arguments t_get {_ _ _ _} _ _.
Arguments t_set {_ _ _ _} _ _ _.
Arguments t_conflict {_ _ _ _} _ _ _.
Arguments t_check {_ _ _ _} _ _ _.
Arguments t_get_set {_ _ _ _} _ _ _.

Fixpoint insert_by {R} (key : R -> Z) (r : R) (l : list R) : list R :=
  match l with
  | [] => [r]
  | r' :: l' => if key r <=? key r' then r :: l else r' :: insert_by key r l'
  end.
Definition sort_by {R} (key : R -> Z) (l : list R) : list R := foldr (insert_by key) [] l.

Section rows.
Context {K R : Type} `{Countable K}.
Implicit Types (m : gmap K R) (P : R -> bool).

Definition rows P m : gmap K R := filter (fun kv => P kv.2 = true) m.
Definition first_row m : option R := snd <$> head (map_to_list m).
Definition count P m : Z := Z.of_nat (size (rows P m)).
Definition row_exists P m : bool := match first_row (rows P m) with Some _ => true | None => false end.
Definition update_rows P (f : R -> R) m : gmap K R := (fun r => if P r then f r else r) <$> m.
Definition delete_rows P m : gmap K R := filter (fun kv => P kv.2 = false) m.

Context (T : Table K R).

Definition sql_select_one P : M goerr R := stmt (fun db =>
  match first_row (rows P (t_get T db)) with
  | Some r => Ok (r, db)
  | None => Err ErrNoRows
  end).

Definition sql_select P : M goerr (list R) := stmt (fun db =>
  Ok ((map_to_list (rows P (t_get T db))).*2, db)).

(** [ORDER BY key ASC LIMIT limit]; a negated key orders descending. *)
Definition sql_select_ordered P (key : R -> Z) (limit : nat) : M goerr (list R) := stmt (fun db =>
  Ok (take limit (sort_by key (map_to_list (rows P (t_get T db))).*2), db)).

Definition sql_count P : M goerr Z := stmt (fun db => Ok (count P (t_get T db), db)).

Definition insert_row (k : K) (r : R) (db : DB) : result goerr (unit * DB) :=
  let m := t_get T db in
  match m !! k with
  | Some _ => Err (ErrSQL UniqueViolation)
  | None =>
      if row_exists (fun r' => t_conflict T r' r) m then Err (ErrSQL UniqueViolation)
      else match t_check T db r with
           | Some e => Err (ErrSQL e)
           | None => Ok (tt, t_set T (<[k := r]> m) db)
           end
  end.

Definition sql_insert (k : K) (r : R) : M goerr unit := stmt (insert_row k r).

(** An UPDATE of columns no constraint mentions; the number of rows. *)
Definition sql_update P (f : R -> R) : M goerr Z := stmt (fun db =>
  let m := t_get T db in Ok (count P m, t_set T (update_rows P f m) db)).

(** An UPDATE that sets columns the CHECK and FOREIGN KEY constraints mention;
    no unique index covers them. *)
Definition sql_update_where P (f : R -> R) : M goerr Z := stmt (fun db =>
  let m := t_get T db in
  match head (omap (fun r => t_check T db (f r)) (map_to_list (rows P m)).*2) with
  | Some e => Err (ErrSQL e)
  | None => Ok (count P m, t_set T (update_rows P f m) db)
  end).

(** An UPDATE by primary key whose new row the constraints are checked on. *)
Definition sql_update_checked (k : K) (f : R -> R) : M goerr Z := stmt (fun db =>
  let m := t_get T db in
  match m !! k with
  | None => Ok (0, db)
  | Some r =>
      let r' := f r in
      if row_exists (fun r0 => t_conflict T r0 r') (delete k m) then Err (ErrSQL UniqueViolation)
      else match t_check T db r' with
           | Some e => Err (ErrSQL e)
           | None => Ok (1, t_set T (<[k := r']> m) db)
           end
  end).

Definition sql_delete P : M goerr Z := stmt (fun db =>
  let m := t_get T db in Ok (count P m, t_set T (delete_rows P m) db)).
End rows.

(** [SELECT id FROM licenses WHERE id = ? FOR UPDATE] run with [Exec]: the
    answer is not read, the statement only takes the lock. *)
Definition sql_lock : M goerr unit := stmt (fun db => Ok (tt, db)).
