(* ===== verification/Tables.v ===== *)
(** * The tables and their constraints ([server/db/migrations])

    One [Table] value per table the modelled code touches, with the unique
    indexes and the CHECK and FOREIGN KEY constraints of the migrations
    (their final state), and the relation loading of the [Find] queries. *)

From S2P Require Import Prelude GoStrings Errors Model World.
From Stdlib Require Import Ascii String.

#[local] Open Scope string_scope.
#[local] Open Scope Z_scope.

Definition fk (found : bool) : option sql_error := if found then None else Some ForeignKeyViolation.
Definition check (ok : bool) : option sql_error := if ok then None else Some CheckViolation.
Definition and_then (a b : option sql_error) : option sql_error :=
  match a with Some e => Some e | None => b end.
Definition present {R} (o : option R) : bool := match o with Some _ => true | None => false end.
Definition no_conflict {R} (_ _ : R) : bool := false.

(** ** Users *)

Definition users : Table string User := {|
  t_get := db_users;
  t_set m db := mkDB m (db_products db) (db_plans db) (db_entitlements db) (db_licenses db)
    (db_activations db) (db_audit_logs db) (db_seats db) (db_usage_events db) (db_usage_counters db)
    (db_webhooks db) (db_webhook_deliveries db) (db_subscriptions db) (db_floating_sessions db)
    (db_addons db) (db_license_addons db) (db_metered_billing db) (db_idempotency_keys db)
    (db_notifications db) (db_refresh_tokens db) (db_otp_codes db)
    (db_releases db) (db_release_artifacts db) (db_signing_keys db)
    (db_processed_events db) (db_email_queue db)
    (db_api_keys db)
    (db_passkeys db) (db_webauthn_sessions db) (db_recovery_codes db) (db_audit_outbox db) (db_settings db);
  t_conflict r' r := streq (user_Email r') (user_Email r);
  t_check db r := check (contains (user_Role r) [RoleOwner; RoleAdmin; RoleUser]);
  t_get_set _ _ := eq_refl
|}.

(** ** Licenses *)

Definition licenses : Table string License := {|
  t_get := db_licenses;
  t_set m db := mkDB (db_users db) (db_products db) (db_plans db) (db_entitlements db) m
    (db_activations db) (db_audit_logs db) (db_seats db) (db_usage_events db) (db_usage_counters db)
    (db_webhooks db) (db_webhook_deliveries db) (db_subscriptions db) (db_floating_sessions db)
    (db_addons db) (db_license_addons db) (db_metered_billing db) (db_idempotency_keys db)
    (db_notifications db) (db_refresh_tokens db) (db_otp_codes db)
    (db_releases db) (db_release_artifacts db) (db_signing_keys db)
    (db_processed_events db) (db_email_queue db)
    (db_api_keys db)
    (db_passkeys db) (db_webauthn_sessions db) (db_recovery_codes db) (db_audit_outbox db) (db_settings db);
  t_conflict r' r :=
    streq (lic_LicenseKey r') (lic_LicenseKey r)
    || (negb (streq (lic_KeyHash r) "") && streq (lic_KeyHash r') (lic_KeyHash r))
    || (negb (streq (lic_StripeSubscriptionID r) "")
        && streq (lic_StripeSubscriptionID r') (lic_StripeSubscriptionID r));
  t_check db r := and_then (fk (present (db_products db !! lic_ProductID r)))
    (and_then (fk (present (db_plans db !! lic_PlanID r)))
      (check (contains (lic_Status r) [StatusActive; StatusTrialing; StatusPastDue; StatusCanceled;
                                       StatusExpired; StatusSuspended; StatusRevoked])));
  t_get_set _ _ := eq_refl
|}.

Definition subscriptions : Table string Subscription := {|
  t_get := db_subscriptions;
  t_set m db := mkDB (db_users db) (db_products db) (db_plans db) (db_entitlements db) (db_licenses db)
    (db_activations db) (db_audit_logs db) (db_seats db) (db_usage_events db) (db_usage_counters db)
    (db_webhooks db) (db_webhook_deliveries db) m (db_floating_sessions db)
    (db_addons db) (db_license_addons db) (db_metered_billing db) (db_idempotency_keys db)
    (db_notifications db) (db_refresh_tokens db) (db_otp_codes db)
    (db_releases db) (db_release_artifacts db) (db_signing_keys db)
    (db_processed_events db) (db_email_queue db)
    (db_api_keys db)
    (db_passkeys db) (db_webauthn_sessions db) (db_recovery_codes db) (db_audit_outbox db) (db_settings db);
  t_conflict := no_conflict;
  t_check db r := and_then (fk (present (db_licenses db !! sub_LicenseID r)))
    (and_then (fk (present (db_plans db !! sub_PlanID r)))
      (check (contains (sub_Status r) ["active"; "trialing"; "past_due"; "canceled"; "expired";
                                       "paused"; "suspended"; "revoked"])));
  t_get_set _ _ := eq_refl
|}.

(** ** Activations *)

Definition activations : Table string Activation := {|
  t_get := db_activations;
  t_set m db := mkDB (db_users db) (db_products db) (db_plans db) (db_entitlements db) (db_licenses db)
    m (db_audit_logs db) (db_seats db) (db_usage_events db) (db_usage_counters db)
    (db_webhooks db) (db_webhook_deliveries db) (db_subscriptions db) (db_floating_sessions db)
    (db_addons db) (db_license_addons db) (db_metered_billing db) (db_idempotency_keys db)
    (db_notifications db) (db_refresh_tokens db) (db_otp_codes db)
    (db_releases db) (db_release_artifacts db) (db_signing_keys db)
    (db_processed_events db) (db_email_queue db)
    (db_api_keys db)
    (db_passkeys db) (db_webauthn_sessions db) (db_recovery_codes db) (db_audit_outbox db) (db_settings db);
  t_conflict r' r := streq (act_LicenseID r') (act_LicenseID r) && streq (act_Identifier r') (act_Identifier r);
  t_check db r := and_then (fk (present (db_licenses db !! act_LicenseID r)))
    (check (contains (act_IdentifierType r) ["device"; "user"]));
  t_get_set _ _ := eq_refl
|}.

Definition audit_logs : Table string AuditLog := {|
  t_get := db_audit_logs;
  t_set m db := mkDB (db_users db) (db_products db) (db_plans db) (db_entitlements db) (db_licenses db)
    (db_activations db) m (db_seats db) (db_usage_events db) (db_usage_counters db)
    (db_webhooks db) (db_webhook_deliveries db) (db_subscriptions db) (db_floating_sessions db)
    (db_addons db) (db_license_addons db) (db_metered_billing db) (db_idempotency_keys db)
    (db_notifications db) (db_refresh_tokens db) (db_otp_codes db)
    (db_releases db) (db_release_artifacts db) (db_signing_keys db)
    (db_processed_events db) (db_email_queue db)
    (db_api_keys db)
    (db_passkeys db) (db_webauthn_sessions db) (db_recovery_codes db) (db_audit_outbox db) (db_settings db);
  t_conflict := no_conflict;
  t_check db r := None;
  t_get_set _ _ := eq_refl
|}.

(** ** Seats: the two partial unique indexes, and the two-tier role check *)

Definition seats : Table string Seat := {|
  t_get := db_seats;
  t_set m db := mkDB (db_users db) (db_products db) (db_plans db) (db_entitlements db) (db_licenses db)
    (db_activations db) (db_audit_logs db) m (db_usage_events db) (db_usage_counters db)
    (db_webhooks db) (db_webhook_deliveries db) (db_subscriptions db) (db_floating_sessions db)
    (db_addons db) (db_license_addons db) (db_metered_billing db) (db_idempotency_keys db)
    (db_notifications db) (db_refresh_tokens db) (db_otp_codes db)
    (db_releases db) (db_release_artifacts db) (db_signing_keys db)
    (db_processed_events db) (db_email_queue db)
    (db_api_keys db)
    (db_passkeys db) (db_webauthn_sessions db) (db_recovery_codes db) (db_audit_outbox db) (db_settings db);
  t_conflict r' r :=
    (negb (present (seat_RemovedAt r')) && negb (present (seat_RemovedAt r))
     && streq (seat_LicenseID r') (seat_LicenseID r) && streq (seat_Email r') (seat_Email r))
    || (negb (streq (seat_InviteTokenHash r) "")
        && streq (seat_InviteTokenHash r') (seat_InviteTokenHash r));
  t_check db r := and_then (fk (present (db_licenses db !! seat_LicenseID r)))
    (and_then (fk (streq (seat_UserID r) "" || present (db_users db !! seat_UserID r)))
      (check (contains (seat_Role r) ["admin"; "member"])));
  t_get_set _ _ := eq_refl
|}.

(** ** Usage *)

Definition usage_events : Table string UsageEvent := {|
  t_get := db_usage_events;
  t_set m db := mkDB (db_users db) (db_products db) (db_plans db) (db_entitlements db) (db_licenses db)
    (db_activations db) (db_audit_logs db) (db_seats db) m (db_usage_counters db)
    (db_webhooks db) (db_webhook_deliveries db) (db_subscriptions db) (db_floating_sessions db)
    (db_addons db) (db_license_addons db) (db_metered_billing db) (db_idempotency_keys db)
    (db_notifications db) (db_refresh_tokens db) (db_otp_codes db)
    (db_releases db) (db_release_artifacts db) (db_signing_keys db)
    (db_processed_events db) (db_email_queue db)
    (db_api_keys db)
    (db_passkeys db) (db_webauthn_sessions db) (db_recovery_codes db) (db_audit_outbox db) (db_settings db);
  t_conflict := no_conflict;
  t_check db r := fk (present (db_licenses db !! ue_LicenseID r));
  t_get_set _ _ := eq_refl
|}.

Definition same_counter (c : UsageCounter) (licenseID feature period periodKey : string) : bool :=
  streq (uc_LicenseID c) licenseID && streq (uc_Feature c) feature
  && streq (uc_Period c) period && streq (uc_PeriodKey c) periodKey.

Definition usage_counters : Table string UsageCounter := {|
  t_get := db_usage_counters;
  t_set m db := mkDB (db_users db) (db_products db) (db_plans db) (db_entitlements db) (db_licenses db)
    (db_activations db) (db_audit_logs db) (db_seats db) (db_usage_events db) m
    (db_webhooks db) (db_webhook_deliveries db) (db_subscriptions db) (db_floating_sessions db)
    (db_addons db) (db_license_addons db) (db_metered_billing db) (db_idempotency_keys db)
    (db_notifications db) (db_refresh_tokens db) (db_otp_codes db)
    (db_releases db) (db_release_artifacts db) (db_signing_keys db)
    (db_processed_events db) (db_email_queue db)
    (db_api_keys db)
    (db_passkeys db) (db_webauthn_sessions db) (db_recovery_codes db) (db_audit_outbox db) (db_settings db);
  t_conflict r' r := same_counter r' (uc_LicenseID r) (uc_Feature r) (uc_Period r) (uc_PeriodKey r);
  t_check db r := fk (present (db_licenses db !! uc_LicenseID r));
  t_get_set _ _ := eq_refl
|}.

Definition metered_billing : Table string MeteredBilling := {|
  t_get := db_metered_billing;
  t_set m db := mkDB (db_users db) (db_products db) (db_plans db) (db_entitlements db) (db_licenses db)
    (db_activations db) (db_audit_logs db) (db_seats db) (db_usage_events db) (db_usage_counters db)
    (db_webhooks db) (db_webhook_deliveries db) (db_subscriptions db) (db_floating_sessions db)
    (db_addons db) (db_license_addons db) m (db_idempotency_keys db)
    (db_notifications db) (db_refresh_tokens db) (db_otp_codes db)
    (db_releases db) (db_release_artifacts db) (db_signing_keys db)
    (db_processed_events db) (db_email_queue db)
    (db_api_keys db)
    (db_passkeys db) (db_webauthn_sessions db) (db_recovery_codes db) (db_audit_outbox db) (db_settings db);
  t_conflict r' r := negb (streq (mb_Identifier r) "") && streq (mb_Identifier r') (mb_Identifier r);
  t_check db r := fk (present (db_licenses db !! mb_LicenseID r));
  t_get_set _ _ := eq_refl
|}.

(** ** Webhooks *)

Definition webhooks : Table string Webhook := {|
  t_get := db_webhooks;
  t_set m db := mkDB (db_users db) (db_products db) (db_plans db) (db_entitlements db) (db_licenses db)
    (db_activations db) (db_audit_logs db) (db_seats db) (db_usage_events db) (db_usage_counters db)
    m (db_webhook_deliveries db) (db_subscriptions db) (db_floating_sessions db)
    (db_addons db) (db_license_addons db) (db_metered_billing db) (db_idempotency_keys db)
    (db_notifications db) (db_refresh_tokens db) (db_otp_codes db)
    (db_releases db) (db_release_artifacts db) (db_signing_keys db)
    (db_processed_events db) (db_email_queue db)
    (db_api_keys db)
    (db_passkeys db) (db_webauthn_sessions db) (db_recovery_codes db) (db_audit_outbox db) (db_settings db);
  t_conflict := no_conflict;
  t_check db r := fk (present (db_products db !! wh_ProductID r));
  t_get_set _ _ := eq_refl
|}.

Definition webhook_deliveries : Table string WebhookDelivery := {|
  t_get := db_webhook_deliveries;
  t_set m db := mkDB (db_users db) (db_products db) (db_plans db) (db_entitlements db) (db_licenses db)
    (db_activations db) (db_audit_logs db) (db_seats db) (db_usage_events db) (db_usage_counters db)
    (db_webhooks db) m (db_subscriptions db) (db_floating_sessions db)
    (db_addons db) (db_license_addons db) (db_metered_billing db) (db_idempotency_keys db)
    (db_notifications db) (db_refresh_tokens db) (db_otp_codes db)
    (db_releases db) (db_release_artifacts db) (db_signing_keys db)
    (db_processed_events db) (db_email_queue db)
    (db_api_keys db)
    (db_passkeys db) (db_webauthn_sessions db) (db_recovery_codes db) (db_audit_outbox db) (db_settings db);
  t_conflict := no_conflict;
  t_check db r := and_then (fk (present (db_webhooks db !! wd_WebhookID r)))
    (check (contains (wd_Status r) ["pending"; "delivered"; "failed"]));
  t_get_set _ _ := eq_refl
|}.

(** ** Floating sessions *)

Definition floating_sessions : Table string FloatingSession := {|
  t_get := db_floating_sessions;
  t_set m db := mkDB (db_users db) (db_products db) (db_plans db) (db_entitlements db) (db_licenses db)
    (db_activations db) (db_audit_logs db) (db_seats db) (db_usage_events db) (db_usage_counters db)
    (db_webhooks db) (db_webhook_deliveries db) (db_subscriptions db) m
    (db_addons db) (db_license_addons db) (db_metered_billing db) (db_idempotency_keys db)
    (db_notifications db) (db_refresh_tokens db) (db_otp_codes db)
    (db_releases db) (db_release_artifacts db) (db_signing_keys db)
    (db_processed_events db) (db_email_queue db)
    (db_api_keys db)
    (db_passkeys db) (db_webauthn_sessions db) (db_recovery_codes db) (db_audit_outbox db) (db_settings db);
  t_conflict r' r := streq (fs_LicenseID r') (fs_LicenseID r) && streq (fs_Identifier r') (fs_Identifier r);
  t_check db r := fk (present (db_licenses db !! fs_LicenseID r));
  t_get_set _ _ := eq_refl
|}.

(** ** Add-ons *)

Definition license_addons : Table string LicenseAddon := {|
  t_get := db_license_addons;
  t_set m db := mkDB (db_users db) (db_products db) (db_plans db) (db_entitlements db) (db_licenses db)
    (db_activations db) (db_audit_logs db) (db_seats db) (db_usage_events db) (db_usage_counters db)
    (db_webhooks db) (db_webhook_deliveries db) (db_subscriptions db) (db_floating_sessions db)
    (db_addons db) m (db_metered_billing db) (db_idempotency_keys db)
    (db_notifications db) (db_refresh_tokens db) (db_otp_codes db)
    (db_releases db) (db_release_artifacts db) (db_signing_keys db)
    (db_processed_events db) (db_email_queue db)
    (db_api_keys db)
    (db_passkeys db) (db_webauthn_sessions db) (db_recovery_codes db) (db_audit_outbox db) (db_settings db);
  t_conflict r' r := streq (la_LicenseID r') (la_LicenseID r) && streq (la_AddonID r') (la_AddonID r);
  t_check db r := and_then (fk (present (db_licenses db !! la_LicenseID r)))
    (fk (present (db_addons db !! la_AddonID r)));
  t_get_set _ _ := eq_refl
|}.

(** ** Idempotency keys: the primary key is (key, endpoint) *)

Definition sha256_hex_char (c : ascii) : bool := is_digit c || between "a" "f" c.

Definition idempotency_keys : Table (string * string) IdempotencyKey := {|
  t_get := db_idempotency_keys;
  t_set m db := mkDB (db_users db) (db_products db) (db_plans db) (db_entitlements db) (db_licenses db)
    (db_activations db) (db_audit_logs db) (db_seats db) (db_usage_events db) (db_usage_counters db)
    (db_webhooks db) (db_webhook_deliveries db) (db_subscriptions db) (db_floating_sessions db)
    (db_addons db) (db_license_addons db) (db_metered_billing db) m
    (db_notifications db) (db_refresh_tokens db) (db_otp_codes db)
    (db_releases db) (db_release_artifacts db) (db_signing_keys db)
    (db_processed_events db) (db_email_queue db)
    (db_api_keys db)
    (db_passkeys db) (db_webauthn_sessions db) (db_recovery_codes db) (db_audit_outbox db) (db_settings db);
  t_conflict := no_conflict;
  t_check db r := check ((1 <=? len (ik_Key r)) && (len (ik_Key r) <=? 256)
    && (1 <=? len (ik_Endpoint r)) && (len (ik_Endpoint r) <=? 256)
    && sall sha256_hex_char (ik_BodyHash r) && (len (ik_BodyHash r) =? 64));
  t_get_set _ _ := eq_refl
|}.

(** ** Sessions and codes *)

Definition refresh_tokens : Table string RefreshToken := {|
  t_get := db_refresh_tokens;
  t_set m db := mkDB (db_users db) (db_products db) (db_plans db) (db_entitlements db) (db_licenses db)
    (db_activations db) (db_audit_logs db) (db_seats db) (db_usage_events db) (db_usage_counters db)
    (db_webhooks db) (db_webhook_deliveries db) (db_subscriptions db) (db_floating_sessions db)
    (db_addons db) (db_license_addons db) (db_metered_billing db) (db_idempotency_keys db)
    (db_notifications db) m (db_otp_codes db)
    (db_releases db) (db_release_artifacts db) (db_signing_keys db)
    (db_processed_events db) (db_email_queue db)
    (db_api_keys db)
    (db_passkeys db) (db_webauthn_sessions db) (db_recovery_codes db) (db_audit_outbox db) (db_settings db);
  t_conflict r' r := streq (rt_TokenHash r') (rt_TokenHash r);
  t_check db r := fk (present (db_users db !! rt_UserID r));
  t_get_set _ _ := eq_refl
|}.

Definition otp_codes : Table string OTPCode := {|
  t_get := db_otp_codes;
  t_set m db := mkDB (db_users db) (db_products db) (db_plans db) (db_entitlements db) (db_licenses db)
    (db_activations db) (db_audit_logs db) (db_seats db) (db_usage_events db) (db_usage_counters db)
    (db_webhooks db) (db_webhook_deliveries db) (db_subscriptions db) (db_floating_sessions db)
    (db_addons db) (db_license_addons db) (db_metered_billing db) (db_idempotency_keys db)
    (db_notifications db) (db_refresh_tokens db) m
    (db_releases db) (db_release_artifacts db) (db_signing_keys db)
    (db_processed_events db) (db_email_queue db)
    (db_api_keys db)
    (db_passkeys db) (db_webauthn_sessions db) (db_recovery_codes db) (db_audit_outbox db) (db_settings db);
  t_conflict := no_conflict;
  t_check db r := None;
  t_get_set _ _ := eq_refl
|}.

(** ** Releases, their artifacts and signing keys

    [length] of a [TEXT] counts characters, [octet_length] of a [BYTEA] bytes. *)

Fixpoint char_length (s : string) : Z :=
  match s with
  | "" => 0
  | String c s' => (if utf8_cont c then 0 else 1) + char_length s'
  end.

Definition releases : Table string Release := {|
  t_get := db_releases;
  t_set m db := mkDB (db_users db) (db_products db) (db_plans db) (db_entitlements db) (db_licenses db)
    (db_activations db) (db_audit_logs db) (db_seats db) (db_usage_events db) (db_usage_counters db)
    (db_webhooks db) (db_webhook_deliveries db) (db_subscriptions db) (db_floating_sessions db)
    (db_addons db) (db_license_addons db) (db_metered_billing db) (db_idempotency_keys db)
    (db_notifications db) (db_refresh_tokens db) (db_otp_codes db)
    m (db_release_artifacts db) (db_signing_keys db)
    (db_processed_events db) (db_email_queue db)
    (db_api_keys db)
    (db_passkeys db) (db_webauthn_sessions db) (db_recovery_codes db) (db_audit_outbox db) (db_settings db);
  t_conflict r' r := streq (rel_ProductID r') (rel_ProductID r) && streq (rel_Version r') (rel_Version r);
  t_check db r := and_then (fk (present (db_products db !! rel_ProductID r)))
    (check ((1 <=? char_length (rel_Version r)) && (char_length (rel_Version r) <=? 64)
      && semverShape (rel_Version r)
      && IsValidReleaseChannel (rel_Channel r)
      && (char_length (rel_Name r) <=? 256) && (char_length (rel_ReleaseNotes r) <=? 65536)
      && contains (rel_Status r) [ReleaseStatusDraft; ReleaseStatusPublished; ReleaseStatusYanked]
      && (char_length (rel_YankedReason r) <=? 1024)));
  t_get_set _ _ := eq_refl
|}.

Definition release_artifacts : Table string ReleaseArtifact := {|
  t_get := db_release_artifacts;
  t_set m db := mkDB (db_users db) (db_products db) (db_plans db) (db_entitlements db) (db_licenses db)
    (db_activations db) (db_audit_logs db) (db_seats db) (db_usage_events db) (db_usage_counters db)
    (db_webhooks db) (db_webhook_deliveries db) (db_subscriptions db) (db_floating_sessions db)
    (db_addons db) (db_license_addons db) (db_metered_billing db) (db_idempotency_keys db)
    (db_notifications db) (db_refresh_tokens db) (db_otp_codes db)
    (db_releases db) m (db_signing_keys db)
    (db_processed_events db) (db_email_queue db)
    (db_api_keys db)
    (db_passkeys db) (db_webauthn_sessions db) (db_recovery_codes db) (db_audit_outbox db) (db_settings db);
  t_conflict r' r := streq (art_ReleaseID r') (art_ReleaseID r) && streq (art_Platform r') (art_Platform r);
  t_check db r := and_then (fk (present (db_releases db !! art_ReleaseID r)))
    (and_then (fk (match art_SigningKeyID r with
                   | Some id => present (db_signing_keys db !! id)
                   | None => true
                   end))
      (check ((1 <=? char_length (art_Platform r)) && (char_length (art_Platform r) <=? 64)
        && (char_length (art_FileKey r) <=? 1024) && (0 <=? art_FileSize r)
        && (streq (art_SHA256 r) "" || (sall sha256_hex_char (art_SHA256 r) && (len (art_SHA256 r) =? 64)))
        && (char_length (art_Ed25519Sig r) <=? 256) && (char_length (art_ContentType r) <=? 128))));
  t_get_set _ _ := eq_refl
|}.

(** The partial unique index: one active key per product. *)
Definition signing_keys : Table string ReleaseSigningKey := {|
  t_get := db_signing_keys;
  t_set m db := mkDB (db_users db) (db_products db) (db_plans db) (db_entitlements db) (db_licenses db)
    (db_activations db) (db_audit_logs db) (db_seats db) (db_usage_events db) (db_usage_counters db)
    (db_webhooks db) (db_webhook_deliveries db) (db_subscriptions db) (db_floating_sessions db)
    (db_addons db) (db_license_addons db) (db_metered_billing db) (db_idempotency_keys db)
    (db_notifications db) (db_refresh_tokens db) (db_otp_codes db)
    (db_releases db) (db_release_artifacts db) m
    (db_processed_events db) (db_email_queue db)
    (db_api_keys db)
    (db_passkeys db) (db_webauthn_sessions db) (db_recovery_codes db) (db_audit_outbox db) (db_settings db);
  t_conflict r' r := sk_Active r' && sk_Active r && streq (sk_ProductID r') (sk_ProductID r);
  t_check db r := and_then (fk (present (db_products db !! sk_ProductID r)))
    (check ((32 <=? char_length (sk_PublicKey r)) && (char_length (sk_PublicKey r) <=? 128)
      && (60 <=? len (sk_PrivateKeyEncrypted r)) && (len (sk_PrivateKeyEncrypted r) <=? 256)
      && (char_length (sk_Note r) <=? 256)));
  t_get_set _ _ := eq_refl
|}.

(** ** Queued messages and processed events *)

Definition email_queue : Table string QueuedEmail := {|
  t_get := db_email_queue;
  t_set m db := mkDB (db_users db) (db_products db) (db_plans db) (db_entitlements db) (db_licenses db)
    (db_activations db) (db_audit_logs db) (db_seats db) (db_usage_events db) (db_usage_counters db)
    (db_webhooks db) (db_webhook_deliveries db) (db_subscriptions db) (db_floating_sessions db)
    (db_addons db) (db_license_addons db) (db_metered_billing db) (db_idempotency_keys db)
    (db_notifications db) (db_refresh_tokens db) (db_otp_codes db)
    (db_releases db) (db_release_artifacts db) (db_signing_keys db)
    (db_processed_events db) m
    (db_api_keys db)
    (db_passkeys db) (db_webauthn_sessions db) (db_recovery_codes db) (db_audit_outbox db) (db_settings db);
  t_conflict := no_conflict;
  t_check db r := check (contains (qe_Status r) ["pending"; "sent"; "failed"]);
  t_get_set _ _ := eq_refl
|}.

(** A missing product is NULL. *)
Definition api_keys : Table string APIKey := {|
  t_get := db_api_keys;
  t_set m db := mkDB (db_users db) (db_products db) (db_plans db) (db_entitlements db) (db_licenses db)
    (db_activations db) (db_audit_logs db) (db_seats db) (db_usage_events db) (db_usage_counters db)
    (db_webhooks db) (db_webhook_deliveries db) (db_subscriptions db) (db_floating_sessions db)
    (db_addons db) (db_license_addons db) (db_metered_billing db) (db_idempotency_keys db)
    (db_notifications db) (db_refresh_tokens db) (db_otp_codes db)
    (db_releases db) (db_release_artifacts db) (db_signing_keys db)
    (db_processed_events db) (db_email_queue db) m
    (db_passkeys db) (db_webauthn_sessions db) (db_recovery_codes db) (db_audit_outbox db) (db_settings db);
  t_conflict r' r := streq (ak_KeyHash r') (ak_KeyHash r);
  t_check db r := fk (streq (ak_ProductID r) "" || present (db_products db !! ak_ProductID r));
  t_get_set _ _ := eq_refl
|}.

(** ** The catalogue *)

(** Lengths are counted in bytes. *)
Definition products : Table string Product := {|
  t_get := db_products;
  t_set m db := mkDB (db_users db) m (db_plans db) (db_entitlements db) (db_licenses db) (db_activations db)
    (db_audit_logs db) (db_seats db) (db_usage_events db) (db_usage_counters db) (db_webhooks db)
    (db_webhook_deliveries db) (db_subscriptions db) (db_floating_sessions db) (db_addons db)
    (db_license_addons db) (db_metered_billing db) (db_idempotency_keys db) (db_notifications db)
    (db_refresh_tokens db) (db_otp_codes db) (db_releases db) (db_release_artifacts db) (db_signing_keys db)
    (db_processed_events db) (db_email_queue db) (db_api_keys db)
    (db_passkeys db) (db_webauthn_sessions db) (db_recovery_codes db) (db_audit_outbox db) (db_settings db);
  t_conflict r' r := streq (prod_Slug r') (prod_Slug r);
  t_check db r := check (contains (prod_Type r) ["desktop"; "saas"; "hybrid"]
    && (streq (prod_MinimumSupportedVersion r) "" || semverShape (prod_MinimumSupportedVersion r))
    && (len (prod_MinimumSupportedMessage r) <=? 1024));
  t_get_set _ _ := eq_refl
|}.

(** A plan is stored without its entitlements. *)
Definition plans : Table string Plan := {|
  t_get := db_plans;
  t_set m db := mkDB (db_users db) (db_products db) m (db_entitlements db) (db_licenses db) (db_activations db)
    (db_audit_logs db) (db_seats db) (db_usage_events db) (db_usage_counters db) (db_webhooks db)
    (db_webhook_deliveries db) (db_subscriptions db) (db_floating_sessions db) (db_addons db)
    (db_license_addons db) (db_metered_billing db) (db_idempotency_keys db) (db_notifications db)
    (db_refresh_tokens db) (db_otp_codes db) (db_releases db) (db_release_artifacts db) (db_signing_keys db)
    (db_processed_events db) (db_email_queue db) (db_api_keys db)
    (db_passkeys db) (db_webauthn_sessions db) (db_recovery_codes db) (db_audit_outbox db) (db_settings db);
  t_conflict r' r := streq (plan_ProductID r') (plan_ProductID r) && streq (plan_Slug r') (plan_Slug r)
    || streq (plan_CheckoutID r') (plan_CheckoutID r);
  t_check db r := and_then (fk (present (db_products db !! plan_ProductID r)))
    (check (contains (plan_LicenseType r) ["subscription"; "perpetual"; "trial"]
      && contains (plan_BillingInterval r) [""; "month"; "year"]
      && contains (plan_LicenseModel r) ["standard"; "floating"]));
  t_get_set _ _ := eq_refl
|}.

(** One row for a plan and a feature. *)
Definition entitlements : Table string Entitlement := {|
  t_get := db_entitlements;
  t_set m db := mkDB (db_users db) (db_products db) (db_plans db) m (db_licenses db) (db_activations db)
    (db_audit_logs db) (db_seats db) (db_usage_events db) (db_usage_counters db) (db_webhooks db)
    (db_webhook_deliveries db) (db_subscriptions db) (db_floating_sessions db) (db_addons db)
    (db_license_addons db) (db_metered_billing db) (db_idempotency_keys db) (db_notifications db)
    (db_refresh_tokens db) (db_otp_codes db) (db_releases db) (db_release_artifacts db) (db_signing_keys db)
    (db_processed_events db) (db_email_queue db) (db_api_keys db)
    (db_passkeys db) (db_webauthn_sessions db) (db_recovery_codes db) (db_audit_outbox db) (db_settings db);
  t_conflict r' r := streq (ent_PlanID r') (ent_PlanID r) && streq (ent_Feature r') (ent_Feature r);
  t_check db r := and_then (fk (present (db_plans db !! ent_PlanID r)))
    (check (contains (ent_ValueType r) ["bool"; "int"; "string"; "quota"; "flag"]
      && contains (ent_QuotaPeriod r) [""; "hourly"; "daily"; "monthly"; "yearly"]));
  t_get_set _ _ := eq_refl
|}.

(** One slug for a product. *)
Definition addons : Table string Addon := {|
  t_get := db_addons;
  t_set m db := mkDB (db_users db) (db_products db) (db_plans db) (db_entitlements db) (db_licenses db)
    (db_activations db) (db_audit_logs db) (db_seats db) (db_usage_events db) (db_usage_counters db)
    (db_webhooks db) (db_webhook_deliveries db) (db_subscriptions db) (db_floating_sessions db) m
    (db_license_addons db) (db_metered_billing db) (db_idempotency_keys db) (db_notifications db)
    (db_refresh_tokens db) (db_otp_codes db) (db_releases db) (db_release_artifacts db) (db_signing_keys db)
    (db_processed_events db) (db_email_queue db) (db_api_keys db)
    (db_passkeys db) (db_webauthn_sessions db) (db_recovery_codes db) (db_audit_outbox db) (db_settings db);
  t_conflict r' r := streq (addon_ProductID r') (addon_ProductID r) && streq (addon_Slug r') (addon_Slug r);
  t_check db r := and_then (fk (present (db_products db !! addon_ProductID r)))
    (check (contains (addon_ValueType r) ["bool"; "int"; "string"; "quota"]));
  t_get_set _ _ := eq_refl
|}.

(** ** Passkeys and the audit outbox *)

Definition passkeys : Table string PasskeyCredential := {|
  t_get := db_passkeys;
  t_set m db := mkDB (db_users db) (db_products db) (db_plans db) (db_entitlements db) (db_licenses db)
    (db_activations db) (db_audit_logs db) (db_seats db) (db_usage_events db) (db_usage_counters db)
    (db_webhooks db) (db_webhook_deliveries db) (db_subscriptions db) (db_floating_sessions db) (db_addons db)
    (db_license_addons db) (db_metered_billing db) (db_idempotency_keys db) (db_notifications db)
    (db_refresh_tokens db) (db_otp_codes db) (db_releases db) (db_release_artifacts db) (db_signing_keys db)
    (db_processed_events db) (db_email_queue db) (db_api_keys db) m (db_webauthn_sessions db)
    (db_recovery_codes db) (db_audit_outbox db) (db_settings db);
  t_conflict r' r := streq (pk_CredentialID r') (pk_CredentialID r);
  t_check db r := fk (present (db_users db !! pk_UserID r));
  t_get_set _ _ := eq_refl
|}.

Definition webauthn_sessions : Table string WebAuthnSession := {|
  t_get := db_webauthn_sessions;
  t_set m db := mkDB (db_users db) (db_products db) (db_plans db) (db_entitlements db) (db_licenses db)
    (db_activations db) (db_audit_logs db) (db_seats db) (db_usage_events db) (db_usage_counters db)
    (db_webhooks db) (db_webhook_deliveries db) (db_subscriptions db) (db_floating_sessions db) (db_addons db)
    (db_license_addons db) (db_metered_billing db) (db_idempotency_keys db) (db_notifications db)
    (db_refresh_tokens db) (db_otp_codes db) (db_releases db) (db_release_artifacts db) (db_signing_keys db)
    (db_processed_events db) (db_email_queue db) (db_api_keys db) (db_passkeys db) m (db_recovery_codes db)
    (db_audit_outbox db) (db_settings db);
  t_conflict := no_conflict;
  t_check db r := and_then (fk (present (db_users db !! ws_UserID r)))
    (check (contains (ws_Purpose r) ["register"; "login"]));
  t_get_set _ _ := eq_refl
|}.

Definition recovery_codes : Table string PasskeyRecoveryCode := {|
  t_get := db_recovery_codes;
  t_set m db := mkDB (db_users db) (db_products db) (db_plans db) (db_entitlements db) (db_licenses db)
    (db_activations db) (db_audit_logs db) (db_seats db) (db_usage_events db) (db_usage_counters db)
    (db_webhooks db) (db_webhook_deliveries db) (db_subscriptions db) (db_floating_sessions db) (db_addons db)
    (db_license_addons db) (db_metered_billing db) (db_idempotency_keys db) (db_notifications db)
    (db_refresh_tokens db) (db_otp_codes db) (db_releases db) (db_release_artifacts db) (db_signing_keys db)
    (db_processed_events db) (db_email_queue db) (db_api_keys db) (db_passkeys db) (db_webauthn_sessions db) m
    (db_audit_outbox db) (db_settings db);
  t_conflict r' r := streq (rc_CodeHash r') (rc_CodeHash r);
  t_check db r := fk (present (db_users db !! rc_UserID r));
  t_get_set _ _ := eq_refl
|}.

Definition audit_outbox : Table string OutboxRow := {|
  t_get := db_audit_outbox;
  t_set m db := mkDB (db_users db) (db_products db) (db_plans db) (db_entitlements db) (db_licenses db)
    (db_activations db) (db_audit_logs db) (db_seats db) (db_usage_events db) (db_usage_counters db)
    (db_webhooks db) (db_webhook_deliveries db) (db_subscriptions db) (db_floating_sessions db) (db_addons db)
    (db_license_addons db) (db_metered_billing db) (db_idempotency_keys db) (db_notifications db)
    (db_refresh_tokens db) (db_otp_codes db) (db_releases db) (db_release_artifacts db) (db_signing_keys db)
    (db_processed_events db) (db_email_queue db) (db_api_keys db) (db_passkeys db) (db_webauthn_sessions db)
    (db_recovery_codes db) m (db_settings db);
  t_conflict := no_conflict;
  t_check _ _ := None;
  t_get_set _ _ := eq_refl
|}.

Definition settings : Table string Setting := {|
  t_get := db_settings;
  t_set m db := mkDB (db_users db) (db_products db) (db_plans db) (db_entitlements db) (db_licenses db)
    (db_activations db) (db_audit_logs db) (db_seats db) (db_usage_events db) (db_usage_counters db)
    (db_webhooks db) (db_webhook_deliveries db) (db_subscriptions db) (db_floating_sessions db) (db_addons db)
    (db_license_addons db) (db_metered_billing db) (db_idempotency_keys db) (db_notifications db)
    (db_refresh_tokens db) (db_otp_codes db) (db_releases db) (db_release_artifacts db) (db_signing_keys db)
    (db_processed_events db) (db_email_queue db) (db_api_keys db) (db_passkeys db) (db_webauthn_sessions db)
    (db_recovery_codes db) (db_audit_outbox db) m;
  t_conflict := no_conflict;
  t_check _ _ := None;
  t_get_set _ _ := eq_refl
|}.

(** The rows of [processed_events], of which only the pair of the unique index
    is ever read. *)
Definition add_processed_event (provider eventID : string) (db : DB) : DB :=
  mkDB (db_users db) (db_products db) (db_plans db) (db_entitlements db) (db_licenses db)
    (db_activations db) (db_audit_logs db) (db_seats db) (db_usage_events db) (db_usage_counters db)
    (db_webhooks db) (db_webhook_deliveries db) (db_subscriptions db) (db_floating_sessions db)
    (db_addons db) (db_license_addons db) (db_metered_billing db) (db_idempotency_keys db)
    (db_notifications db) (db_refresh_tokens db) (db_otp_codes db)
    (db_releases db) (db_release_artifacts db) (db_signing_keys db)
    ({[(provider, eventID)]} ∪ db_processed_events db) (db_email_queue db)
    (db_api_keys db)
    (db_passkeys db) (db_webauthn_sessions db) (db_recovery_codes db) (db_audit_outbox db) (db_settings db).

(** ** Relation loading *)

(** [Relation("Plan").Relation("Plan.Entitlements")]. *)
Definition with_entitlements (db : DB) (p : Plan) : Plan :=
  mkPlan (plan_ID p) (plan_ProductID p) (plan_Name p) (plan_Slug p) (plan_CheckoutID p)
    (plan_LicenseType p) (plan_BillingInterval p) (plan_MaxActivations p) (plan_TrialDays p)
    (plan_GraceDays p) (plan_StripePriceID p) (plan_LicenseModel p) (plan_FloatingTimeout p)
    (plan_MaxSeats p) (plan_Active p) (plan_SortOrder p) (plan_CreatedAt p)
    (map_to_list (rows (fun e => streq (ent_PlanID e) (plan_ID p)) (db_entitlements db))).*2.

Definition load_plan (db : DB) (id : string) : option Plan :=
  p ← db_plans db !! id;
  Some (with_entitlements db p).

Definition load_license (db : DB) (l : License) : License :=
  lic_with_relations l (db_products db !! lic_ProductID l) (load_plan db (lic_PlanID l)).

(** [Relation("Addon")]. *)
Definition load_addon (db : DB) (la : LicenseAddon) : LicenseAddon :=
  mkLicenseAddon (la_ID la) (la_LicenseID la) (la_AddonID la) (la_Enabled la)
    (db_addons db !! la_AddonID la).
