(* ===== verification/Logic.v ===== *)
(** * Reasoning about rows and about programs of the monad

    Lemmas on selected rows and their counts; a weakest-precondition calculus
    [wp] for safety under every fault script; [keeps], the preservation of a
    predicate on the tables by a program whatever fails; and the equations of
    a calm world (no fault to come), used for functional behaviour. *)

From S2P Require Import Prelude GoStrings Errors Model Lockout World Tables.
From Stdlib Require Import Ascii String.

#[local] Open Scope string_scope.
#[local] Open Scope Z_scope.

(** ** Rows *)

Section rows.
Context {K R : Type} `{Countable K}.
Implicit Types (m : gmap K R) (P Q : R -> bool) (k : K) (r : R).

Definition b2z (b : bool) : Z := if b then 1 else 0.

Lemma lookup_rows P m k r : rows P m !! k = Some r <-> m !! k = Some r /\ P r = true.
Proof. unfold rows. rewrite map_lookup_filter_Some. done. Qed.

Lemma first_row_Some m r : first_row m = Some r -> exists k, m !! k = Some r.
Proof.
  unfold first_row. destruct (map_to_list m) as [|[k r'] l] eqn:E; simpl; [done|].
  intros [= ->]. exists k. apply elem_of_map_to_list. rewrite E. apply list_elem_of_here.
Qed.

Lemma first_row_None m : first_row m = None <-> m = ∅.
Proof.
  unfold first_row. split.
  - destruct (map_to_list m) eqn:E; [|done]. intros _. by apply map_to_list_empty_iff.
  - intros ->. by rewrite map_to_list_empty.
Qed.

Lemma first_row_rows P m r :
  first_row (rows P m) = Some r -> exists k, m !! k = Some r /\ P r = true.
Proof. intros [k Hk]%first_row_Some. exists k. by apply lookup_rows. Qed.

Lemma first_row_rows_None P m :
  first_row (rows P m) = None <-> forall k r, m !! k = Some r -> P r = false.
Proof.
  rewrite first_row_None. unfold rows. split.
  - intros E k r Hk. destruct (P r) eqn:HP; [|done]. exfalso.
    assert (rows P m !! k = Some r) as E' by (by apply lookup_rows).
    unfold rows in E'. rewrite E in E'. done.
  - intros HP. apply map_empty. intros k. apply map_lookup_filter_None. right. simpl.
    intros r Hr. rewrite (HP k r Hr). done.
Qed.

(** With a unique match, the answer of [LIMIT 1] is that match. *)
Lemma first_row_unique P m k r :
  m !! k = Some r -> P r = true ->
  (forall k' r', m !! k' = Some r' -> P r' = true -> k' = k) ->
  first_row (rows P m) = Some r.
Proof.
  intros Hk HP Hu. destruct (first_row (rows P m)) as [r'|] eqn:E.
  - apply first_row_rows in E as (k' & Hk' & HP'). assert (k' = k) by eauto. naive_solver.
  - rewrite first_row_rows_None in E. rewrite (E k r Hk) in HP. done.
Qed.

Lemma row_exists_false P m :
  row_exists P m = false <-> forall k r, m !! k = Some r -> P r = false.
Proof.
  unfold row_exists. rewrite <- first_row_rows_None. by destruct (first_row (rows P m)).
Qed.

Lemma row_exists_true P m :
  row_exists P m = true <-> exists k r, m !! k = Some r /\ P r = true.
Proof.
  unfold row_exists. destruct (first_row (rows P m)) as [r|] eqn:E.
  - apply first_row_rows in E as (k & Hk & HP). naive_solver.
  - rewrite first_row_rows_None in E. split; [done|]. intros (k & r & Hk & HP).
    rewrite (E k r Hk) in HP. done.
Qed.

Lemma count_nonneg P m : 0 <= count P m.
Proof. unfold count. lia. Qed.

Lemma count_empty P : count P (∅ : gmap K R) = 0.
Proof. unfold count, rows. rewrite map_filter_empty, map_size_empty. done. Qed.

Lemma count_insert_fresh P m k r :
  m !! k = None -> count P (<[k := r]> m) = count P m + b2z (P r).
Proof.
  intros Hk. unfold count, rows. destruct (P r) eqn:HP; simpl.
  - rewrite map_filter_insert_True by done. rewrite map_size_insert_None; [lia|].
    apply map_lookup_filter_None. by left.
  - rewrite map_filter_insert_False by (simpl; by rewrite HP). rewrite delete_id by done. lia.
Qed.

Lemma count_delete P m k r :
  m !! k = Some r -> count P m = count P (delete k m) + b2z (P r).
Proof.
  intros Hk. rewrite <- (count_insert_fresh P (delete k m) k r) by apply lookup_delete_eq.
  rewrite insert_delete_eq. f_equal. symmetry. by apply insert_id.
Qed.

Lemma count_insert P m k r r0 :
  m !! k = Some r0 -> count P (<[k := r]> m) = count P m - b2z (P r0) + b2z (P r).
Proof.
  intros Hk. rewrite (count_delete P m k r0 Hk).
  rewrite <- insert_delete_eq, count_insert_fresh by apply lookup_delete_eq. lia.
Qed.

Lemma count_ext P Q m :
  (forall k r, m !! k = Some r -> P r = Q r) -> count P m = count Q m.
Proof.
  intros E. unfold count, rows. do 2 f_equal. apply map_filter_ext.
  intros k r Hk. simpl. by rewrite (E k r Hk).
Qed.

Lemma count_zero P m : (forall k r, m !! k = Some r -> P r = false) -> count P m = 0.
Proof.
  intros E. pose proof (proj2 (first_row_rows_None P m) E) as E'.
  apply first_row_None in E'. unfold count. rewrite E', map_size_empty. done.
Qed.

Lemma count_pos P m k r : m !! k = Some r -> P r = true -> 0 < count P m.
Proof.
  intros Hk HP. rewrite (count_delete P m k r Hk), HP. pose proof (count_nonneg P (delete k m)).
  simpl. lia.
Qed.

Lemma count_mono P Q m :
  (forall k r, m !! k = Some r -> P r = true -> Q r = true) -> count P m <= count Q m.
Proof.
  induction m as [|k r m Hk IH] using map_ind; intros E.
  - rewrite !count_empty. lia.
  - rewrite !count_insert_fresh by done.
    assert (b2z (P r) <= b2z (Q r)).
    { pose proof (E k r (lookup_insert_eq _ _ _)) as Er. destruct (P r), (Q r); simpl; naive_solver lia. }
    assert (count P m <= count Q m); [|lia]. apply IH. intros k' r' Hk'. apply (E k').
    rewrite lookup_insert_ne; [done|congruence].
Qed.

Lemma count_delete_rows P Q m : count P (delete_rows Q m) <= count P m.
Proof.
  unfold count, delete_rows, rows. apply inj_le. rewrite map_filter_comm.
  apply map_subseteq_size, map_filter_subseteq.
Qed.

Lemma lookup_update_rows P f m k :
  update_rows P f m !! k = (fun r => if P r then f r else r) <$> m !! k.
Proof. unfold update_rows. apply lookup_fmap. Qed.

Lemma count_update_rows P Q f m :
  count Q (update_rows P f m) = count (fun r => Q (if P r then f r else r)) m.
Proof.
  induction m as [|k r m Hk IH] using map_ind.
  - unfold update_rows. rewrite fmap_empty, !count_empty. done.
  - unfold update_rows in *. rewrite fmap_insert, !count_insert_fresh; [by rewrite IH|done|].
    rewrite lookup_fmap, Hk. done.
Qed.

(** An update that does not touch the counted columns. *)
Lemma count_update_same P Q f m :
  (forall r, Q (f r) = Q r) -> count Q (update_rows P f m) = count Q m.
Proof. intros E. rewrite count_update_rows. apply count_ext. intros k r _. by destruct (P r). Qed.

Lemma lookup_delete_rows P m k r :
  delete_rows P m !! k = Some r <-> m !! k = Some r /\ P r = false.
Proof. unfold delete_rows. rewrite map_lookup_filter_Some. done. Qed.
End rows.

(** ** Outcomes of a statement, of a transaction *)

(** What no statement changes. *)
Record frame (w w' : World) : Prop := mkFrame {
  fr_snapshot : tx_snapshot <$> w_tx w' = tx_snapshot <$> w_tx w;
  fr_clock : w_clock w' = w_clock w;
  fr_attempts : w_attempts w' = w_attempts w;
  fr_events : w_events w' = w_events w;
  fr_ids : w_ids w' = w_ids w
}.

Inductive stmt_outcome {A} (f : DB -> result goerr (A * DB)) (w : World)
    : result goerr A -> World -> Prop :=
  | so_ok a db' w' : f (w_db w) = Ok (a, db') -> w_db w' = db' -> frame w w' ->
      stmt_outcome f w (Ok a) w'
  | so_err e w' : f (w_db w) = Err e -> w_db w' = w_db w -> frame w w' ->
      stmt_outcome f w (Err e) w'
  | so_lost e w' : e = ConnectionFailure \/ e = InFailedTransaction ->
      w_db w' = w_db w -> frame w w' -> stmt_outcome f w (Err (ErrSQL e)) w'
  | so_applied a db' w' : f (w_db w) = Ok (a, db') -> w_db w' = db' -> frame w w' ->
      stmt_outcome f w (Err (ErrSQL ConnectionFailure)) w'.

Lemma next_fault_frame w :
  w_db (snd (next_fault w)) = w_db w /\ w_tx (snd (next_fault w)) = w_tx w /\ frame w (snd (next_fault w)).
Proof. unfold next_fault. destruct (w_faults w); repeat split. Qed.

Lemma frame_fail_tx w w' : frame w w' -> frame w (fail_tx w').
Proof. intros [Hs]. unfold fail_tx. destruct (w_tx w') as [[]|] eqn:E; split; simpl in *; try done.
  by rewrite E. Qed.

Lemma frame_set_db w w' db : frame w w' -> frame w (set_db db w').
Proof. intros []. by split. Qed.

Lemma w_db_fail_tx w : w_db (fail_tx w) = w_db w.
Proof. unfold fail_tx. by destruct (w_tx w). Qed.

#[export] Hint Resolve frame_fail_tx frame_set_db : licensehub.

Lemma stmt_outcomes {A} (f : DB -> result goerr (A * DB)) w :
  stmt_outcome f w (fst (stmt f w)) (snd (stmt f w)).
Proof.
  unfold stmt. pose proof (next_fault_frame w) as (Edb & Etx & Fr).
  destruct (next_fault w) as [flt w1]; simpl in *.
  assert (forall w2, w2 = w1 \/ w2 = fail_tx w1 -> w_db w2 = w_db w /\ frame w w2) as Hw.
  { intros w2 [-> | ->]; rewrite ?w_db_fail_tx; auto with licensehub. }
  assert (w_tx w1 = w_tx w1) as _ by done.
  destruct (match w_tx w1 with Some (mkTx _ true _) => true | _ => false end) eqn:Ef.
  - destruct (w_tx w1) as [[s [] n]|]; try done. simpl. eapply so_lost; [by right|done|done].
  - assert (forall B (x y : B), match w_tx w1 with Some (mkTx _ true _) => x | _ => y end = y) as ->.
    { intros. by destruct (w_tx w1) as [[? [] ?]|]. }
    rewrite Edb. destruct flt as [|[]]; destruct (f (w_db w)) as [[a db']|e] eqn:E; simpl.
    + eapply so_ok; eauto with licensehub.
    + apply so_err; [done| |]; apply Hw; destruct (refuses e); auto.
    + eapply so_applied; eauto with licensehub. by rewrite w_db_fail_tx.
    + apply so_lost; [by left| |]; apply Hw; auto.
    + apply so_lost; [by left| |]; apply Hw; auto.
    + apply so_lost; [by left| |]; apply Hw; auto.
Qed.

(** ** Preservation of an invariant of the tables, whatever fails *)

(** [I] holds of the tables and of those a rollback would restore. *)
Definition safe (I : DB -> Prop) (w : World) : Prop :=
  I (w_db w) /\ forall tx, w_tx w = Some tx -> I (tx_snapshot tx).

(** From a safe world whose tables satisfy [P], [m] ends in a safe world whose
    tables satisfy [Q] of its result. *)
Definition hoare {E A} (I P : DB -> Prop) (m : M E A) (Q : result E A -> DB -> Prop) : Prop :=
  forall w, safe I w -> P (w_db w) ->
    safe I (snd (m w)) /\ Q (fst (m w)) (w_db (snd (m w))).

(** Preservation alone. *)
Definition keeps {E A} (I : DB -> Prop) (m : M E A) : Prop :=
  forall w, safe I w -> safe I (snd (m w)).

Section hoare.
Context (I : DB -> Prop).
Implicit Types P : DB -> Prop.

Lemma safe_frame w w' : safe I w -> I (w_db w') -> frame w w' -> safe I w'.
Proof.
  intros [_ Hs] Hi Fr. split; [done|]. intros tx Etx. pose proof (fr_snapshot _ _ Fr) as E.
  rewrite Etx in E. destruct (w_tx w) as [tx0|]; simpl in E; [|done]. injection E as ->. by apply Hs.
Qed.

Lemma hoare_keeps {E A} (m : M E A) : hoare I (fun _ => True) m (fun _ _ => True) <-> keeps I m.
Proof. unfold hoare, keeps. naive_solver. Qed.

Lemma hoare_of_keeps {E A} (m : M E A) P : keeps I m -> hoare I P m (fun _ _ => True).
Proof. unfold hoare, keeps. naive_solver. Qed.

Lemma hoare_weaken {E A} (m : M E A) P P' (Q Q' : result E A -> DB -> Prop) :
  hoare I P m Q -> (forall db, I db -> P' db -> P db) -> (forall r db, I db -> Q r db -> Q' r db) ->
  hoare I P' m Q'.
Proof.
  intros Hm HP HQ w Hs Hp. destruct (Hm w Hs) as [Hs' Hq].
  - apply HP; [apply Hs|done].
  - split; [done|]. apply HQ; [apply Hs'|done].
Qed.

Lemma hoare_ret {E A} P (a : A) : hoare (E := E) I P (mret a) (fun r db => r = Ok a /\ P db).
Proof. intros w Hs Hp. done. Qed.

Lemma hoare_throw {E A} P (e : E) : hoare (A := A) I P (throw e) (fun r db => r = Err e /\ P db).
Proof. intros w Hs Hp. done. Qed.

Lemma hoare_bind {E A B} P (m : M E A) (k : A -> M E B) Q R :
  hoare I P m Q -> (forall a, hoare I (Q (Ok a)) (k a) R) ->
  (forall e db, Q (Err e) db -> R (Err e) db) -> hoare I P (m ≫= k) R.
Proof.
  intros Hm Hk He w Hs Hp. unfold mbind, M_bind.
  destruct (Hm w Hs Hp) as [Hs' Hq]. destruct (m w) as [[a|e] w']; simpl in *.
  - by apply Hk.
  - split; [done|]. by apply He.
Qed.

(** The same when what is learnt of the result does not depend on the tables. *)
Lemma hoare_bind_fact {E A B} P (F : A -> Prop) (m : M E A) (k : A -> M E B) R :
  hoare I P m (fun r db => P db /\ match r with Ok a => F a | Err _ => True end) ->
  (forall a, F a -> hoare I P (k a) R) -> (forall e db, R (Err e) db) -> hoare I P (m ≫= k) R.
Proof. intros Hm Hk He. eapply hoare_bind; [exact Hm| |done]. intros a w Hs [Hp Hf]. by apply (Hk a Hf). Qed.

Lemma hoare_attempt {E E' A} P (m : M E A) (Q : result E A -> DB -> Prop) :
  hoare I P m Q ->
  hoare (E := E') I P (attempt m) (fun r db => match r with Ok x => Q x db | Err _ => False end).
Proof. intros Hm w Hs Hp. unfold attempt. destruct (Hm w Hs Hp). by destruct (m w). Qed.

Lemma hoare_map_err {E E' A} P (f : E -> E') (m : M E A) (Q : result E' A -> DB -> Prop) :
  hoare I P m (fun r db => Q (match r with Ok a => Ok a | Err e => Err (f e) end) db) ->
  hoare I P (map_err f m) Q.
Proof. intros Hm w Hs Hp. unfold map_err. destruct (Hm w Hs Hp). by destruct (m w) as [[]]. Qed.

Lemma hoare_map_err_Ok {E E' A} P (f : E -> E') (m : M E A) (Q : result E A -> DB -> Prop) :
  hoare I P m Q ->
  hoare I P (map_err f m) (fun r db => match r with Ok a => Q (Ok a) db | Err _ => True end).
Proof. intros Hm w Hs Hp. unfold map_err. destruct (Hm w Hs Hp). by destruct (m w) as [[]]. Qed.

Lemma hoare_stmt {A} P (f : DB -> result goerr (A * DB)) Q :
  (forall db, I db -> P db ->
    (forall e, Q (Err (ErrSQL e)) db) /\
    match f db with
    | Ok (a, db') => I db' /\ Q (Ok a) db' /\ Q (Err (ErrSQL ConnectionFailure)) db'
    | Err e => Q (Err e) db
    end) ->
  hoare I P (stmt f) Q.
Proof.
  intros Hf w Hs Hp. destruct (Hf (w_db w)) as [He Hf']; [apply Hs|done|].
  destruct (stmt_outcomes f w) as [a db' w' E Edb Fr|e w' E Edb Fr|e w' _ Edb Fr|a db' w' E Edb Fr];
    try rewrite E in Hf'; simpl.
  - destruct Hf' as (Hi & Hq & _). subst db'. split; [|done]. by eapply safe_frame.
  - rewrite Edb. split; [|done]. eapply safe_frame; [done| |done]. rewrite Edb. apply Hs.
  - rewrite Edb. split; [|done]. eapply safe_frame; [done| |done]. rewrite Edb. apply Hs.
  - destruct Hf' as (Hi & _ & Hq). subst db'. split; [|done]. by eapply safe_frame.
Qed.

Lemma safe_rollback w : safe I w -> safe I (rollback_w w).
Proof.
  intros Hsafe. unfold rollback_w. destruct (w_tx w) as [tx|] eqn:E; [|done].
  split; simpl; [by apply Hsafe|done].
Qed.

Lemma safe_next_fault w : safe I w -> safe I (snd (next_fault w)).
Proof. unfold next_fault. intros []. destruct (w_faults w); by split. Qed.

Lemma hoare_begin P : hoare I P begin_tx (fun _ => P).
Proof.
  intros w Hs Hp. unfold begin_tx. pose proof (safe_next_fault w Hs) as Hs'.
  pose proof (next_fault_frame w) as (Edb & _ & _). destruct (next_fault w) as [[] w1]; simpl in *.
  - destruct (tick w1) as [t ds]. simpl. rewrite Edb. split; [|done].
    assert (I (w_db w1)) by (rewrite Edb; apply Hs).
    split; simpl; [done|]. intros tx [= <-]. simpl. by rewrite <- Edb.
  - by rewrite Edb.
Qed.

Lemma hoare_commit P : hoare I P commit_tx (fun _ _ => True).
Proof.
  intros w Hs Hp. split; [|done]. unfold commit_tx. pose proof (safe_next_fault w Hs) as Hs'.
  destruct (next_fault w) as [flt w1]; simpl in *. destruct (w_tx w1) as [tx|] eqn:E; [|done].
  assert (safe I (set_tx None w1)) by (split; [apply Hs'|done]).
  pose proof (safe_rollback w1 Hs').
  destruct flt as [|a]; [destruct (tx_failed tx)|destruct (_ && _)]; simpl; done.
Qed.

Lemma hoare_with_tx {A} P (body : M goerr A) Q :
  hoare I P body Q -> hoare I P (with_tx body) (fun _ _ => True).
Proof.
  intros Hb. unfold with_tx. eapply hoare_bind; [apply hoare_begin| |done].
  intros _ w Hs Hp. unfold defer_rollback. destruct (Hb w Hs Hp) as [Hs' _].
  destruct (body w) as [r w']; simpl in *. split; [|done]. by apply safe_rollback.
Qed.
End hoare.

(** ** Programs that keep an invariant *)

Section keeps.
Context (I : DB -> Prop).

Lemma keeps_ret {E A} (a : A) : keeps (E := E) I (mret a).
Proof. by intros w. Qed.
Lemma keeps_throw {E A} (e : E) : keeps (A := A) I (throw e).
Proof. by intros w. Qed.
Lemma keeps_gets {E A} (f : World -> A) : keeps (E := E) I (gets f).
Proof. by intros w. Qed.

Lemma keeps_bind {E A B} (m : M E A) (k : A -> M E B) :
  keeps I m -> (forall a, keeps I (k a)) -> keeps I (m ≫= k).
Proof.
  intros Hm Hk w Hs. unfold mbind, M_bind. specialize (Hm w Hs).
  destruct (m w) as [[a|e] w']; simpl in *; [by apply Hk|done].
Qed.

Lemma keeps_fmap {E A B} (f : A -> B) (m : M E A) : keeps I m -> keeps I (f <$> m).
Proof.
  intros Hm w Hs. unfold fmap, M_fmap. specialize (Hm w Hs). by destruct (m w) as [[] ?].
Qed.

Lemma keeps_attempt {E E' A} (m : M E A) : keeps I m -> keeps (E := E') I (attempt m).
Proof. intros Hm w Hs. unfold attempt. specialize (Hm w Hs). by destruct (m w). Qed.
Lemma keeps_ignore {E E' A} (m : M E A) : keeps I m -> keeps (E := E') I (ignore m).
Proof. intros Hm w Hs. unfold ignore. apply (Hm w Hs). Qed.
Lemma keeps_map_err {E E' A} (f : E -> E') (m : M E A) : keeps I m -> keeps I (map_err f m).
Proof. intros Hm w Hs. unfold map_err. specialize (Hm w Hs). by destruct (m w) as [[]]. Qed.

Lemma keeps_modify {E} (f : World -> World) :
  (forall w, w_db (f w) = w_db w /\ w_tx (f w) = w_tx w) -> keeps (E := E) I (modify f).
Proof. intros Hf w [Hi Hs]. destruct (Hf w) as [E1 E2]. split; simpl; [by rewrite E1|by rewrite E2]. Qed.
Lemma keeps_emit {E} e : keeps (E := E) I (emit e).
Proof. by apply keeps_modify. Qed.
Lemma keeps_metric {E} n l : keeps (E := E) I (metric n l).
Proof. apply keeps_emit. Qed.

Lemma keeps_time_Now {E} : keeps (E := E) I time_Now.
Proof. intros w []. unfold time_Now. destruct (tick w). by split. Qed.
Lemma keeps_sql_now {E} : keeps (E := E) I sql_now.
Proof. intros w Hs. unfold sql_now. destruct (w_tx w) eqn:Ew; [done|]. by apply keeps_time_Now. Qed.
Lemma keeps_newID `{UUIDs} {E} : keeps (E := E) I newID.
Proof. intros w []. by split. Qed.
Lemma keeps_rand_Read {E} n : keeps (E := E) I (rand_Read n).
Proof. intros w []. unfold rand_Read. case_bool_decide; by split. Qed.

Lemma keeps_for_each {E A} (l : list A) (body : A -> M E unit) :
  (forall x, x ∈ l -> keeps I (body x)) -> keeps I (for_each l body).
Proof.
  induction l as [|x l IH]; intros Hb; simpl; [apply keeps_ret|].
  apply keeps_bind; [apply Hb; set_solver|]. intros _. apply IH. intros. apply Hb. set_solver.
Qed.

Lemma keeps_stmt {A} (f : DB -> result goerr (A * DB)) :
  (forall db a db', I db -> f db = Ok (a, db') -> I db') -> keeps I (stmt f).
Proof.
  intros Hf. apply hoare_keeps, hoare_stmt. intros db Hi _. split; [done|].
  destruct (f db) as [[a db']|e] eqn:E; [|done]. split; [|done]. by eapply Hf.
Qed.

(** A statement that only reads. *)
Lemma keeps_read {A} (f : DB -> result goerr (A * DB)) :
  (forall db a db', f db = Ok (a, db') -> db' = db) -> keeps I (stmt f).
Proof. intros Hf. apply keeps_stmt. intros db a db' Hi E. by rewrite (Hf db a db' E). Qed.

Lemma keeps_with_tx {A} (body : M goerr A) : keeps I body -> keeps I (with_tx body).
Proof. rewrite <- !hoare_keeps. apply hoare_with_tx. Qed.
Lemma keeps_commit : keeps I commit_tx.
Proof. apply hoare_keeps, hoare_commit. Qed.

Lemma keeps_sql_lock : keeps I sql_lock.
Proof. apply keeps_read. intros. by simplify_eq. Qed.

Section tables.
Context {K R : Type} `{Countable K} (T : Table K R).

Lemma keeps_select_one P : keeps I (sql_select_one T P).
Proof. apply keeps_read. intros db a db'. destruct (first_row _); intros; by simplify_eq. Qed.
Lemma keeps_select P : keeps I (sql_select T P).
Proof. apply keeps_read. intros. by simplify_eq. Qed.
Lemma keeps_count P : keeps I (sql_count T P).
Proof. apply keeps_read. intros. by simplify_eq. Qed.

(** A write to a table [I] does not depend on. *)
Definition ignores_table : Prop := forall m db, I db -> I (t_set T m db).

Lemma insert_row_Ok k r db u db' :
  insert_row T k r db = Ok (u, db') ->
  t_get T db !! k = None /\ (forall k' r', t_get T db !! k' = Some r' -> t_conflict T r' r = false) /\
  t_check T db r = None /\ db' = t_set T (<[k := r]> (t_get T db)) db.
Proof.
  unfold insert_row. destruct (t_get T db !! k) eqn:Ek; [done|].
  destruct (row_exists _ _) eqn:Er; [done|]. rewrite row_exists_false in Er.
  destruct (t_check T db r) eqn:Ec; [done|]. intros. simplify_eq. done.
Qed.

Lemma keeps_insert_ignored k r : ignores_table -> keeps I (sql_insert T k r).
Proof.
  intros Hi. apply keeps_stmt. intros db a db' Hdb E. apply insert_row_Ok in E as (_ & _ & _ & ->).
  by apply Hi.
Qed.
Lemma keeps_update_ignored P f : ignores_table -> keeps I (sql_update T P f).
Proof. intros Hi. apply keeps_stmt. intros db a db' Hdb [= _ <-]. by apply Hi. Qed.
Lemma keeps_update_where P f :
  (forall db, I db -> (forall k r, t_get T db !! k = Some r -> P r = true -> t_check T db (f r) = None) ->
    I (t_set T (update_rows P f (t_get T db)) db)) ->
  keeps I (sql_update_where T P f).
Proof.
  intros Hi. apply keeps_stmt. intros db a db' Hdb. cbv zeta.
  destruct (head _) eqn:E; [done|]. intros [= _ <-]. apply Hi; [done|]. intros k r Hk Hp.
  destruct (t_check T db (f r)) as [e|] eqn:Ec; [|done].
  assert (e ∈ omap (fun r => t_check T db (f r)) (map_to_list (rows P (t_get T db))).*2) as Hin.
  { apply list_elem_of_omap. exists r. split; [|done]. apply list_elem_of_fmap. exists (k, r). split; [done|].
    by apply elem_of_map_to_list, lookup_rows. }
  destruct (omap _ _); [by apply elem_of_nil in Hin|done].
Qed.
Lemma keeps_update_where_ignored P f : ignores_table -> keeps I (sql_update_where T P f).
Proof. intros Hi. apply keeps_update_where. intros. by apply Hi. Qed.
Lemma keeps_delete_ignored P : ignores_table -> keeps I (sql_delete T P).
Proof. intros Hi. apply keeps_stmt. intros db a db' Hdb [= _ <-]. by apply Hi. Qed.
Lemma keeps_update_checked_ignored k f : ignores_table -> keeps I (sql_update_checked T k f).
Proof.
  intros Hi. apply keeps_stmt. intros db a db' Hdb. cbv zeta. destruct (t_get T db !! k); [|by intros [= _ <-]].
  destruct (row_exists _ _); [done|]. destruct (t_check _ _ _); [done|]. intros [= _ <-]. by apply Hi.
Qed.
End tables.
End keeps.

(** Walk down a program, leaving the writes to tables the invariant reads. *)
#[export] Hint Resolve keeps_ret keeps_throw keeps_gets keeps_emit keeps_metric keeps_time_Now
  keeps_sql_now keeps_newID keeps_rand_Read keeps_commit keeps_sql_lock keeps_select_one keeps_select
  keeps_count : licensehub.

Ltac keeps_step :=
  match goal with
  | |- forall _, _ => intros ?
  | |- keeps _ (_ ≫= _) => apply keeps_bind
  | |- keeps _ (_ <$> _) => apply keeps_fmap
  | |- keeps _ (attempt _) => apply keeps_attempt
  | |- keeps _ (ignore _) => apply keeps_ignore
  | |- keeps _ (map_err _ _) => apply keeps_map_err
  | |- keeps _ (with_tx _) => apply keeps_with_tx
  | |- keeps _ (for_each _ _) => apply keeps_for_each
  | |- keeps _ (match ?x with _ => _ end) => destruct x eqn:?
  | |- keeps _ (let '(_, _) := ?x in _) => destruct x eqn:?
  | |- keeps _ (sql_insert _ _ _) => apply keeps_insert_ignored; [by intros ??]
  | |- keeps _ (sql_update_where _ _ _) => apply keeps_update_where_ignored; [by intros ??]
  | |- keeps _ (sql_update _ _ _) => apply keeps_update_ignored; [by intros ??]
  | |- keeps _ (sql_delete _ _) => apply keeps_delete_ignored; [by intros ??]
  | |- keeps _ (sql_update_checked _ _ _) => apply keeps_update_checked_ignored; [by intros ??]
  | |- keeps _ _ => solve [auto with licensehub nocore]
  end.
Ltac keeps_go := repeat keeps_step.

(** ** A calm world: no fault to come *)

Definition calm (w : World) : Prop :=
  w_faults w = [] /\ match w_tx w with Some tx => tx_failed tx = false | None => True end.

Lemma stmt_calm {A} (f : DB -> result goerr (A * DB)) w :
  calm w ->
  stmt f w = match f (w_db w) with
             | Ok (a, db') => (Ok a, set_db db' w)
             | Err e => (Err e, if refuses e then fail_tx w else w)
             end.
Proof.
  intros [Hf Ht]. unfold stmt, next_fault. rewrite Hf.
  destruct (w_tx w) as [[s fl n]|] eqn:E; [|done]. simpl in Ht. by subst fl.
Qed.

Lemma begin_calm w :
  calm w -> begin_tx w =
    let '(t, ds) := tick w in (Ok tt, set_tx (Some (mkTx (w_db w) false t)) (set_clock t ds w)).
Proof. intros [Hf _]. unfold begin_tx, next_fault. by rewrite Hf. Qed.

Lemma commit_calm w tx :
  calm w -> w_tx w = Some tx -> commit_tx w = (Ok tt, set_tx None w).
Proof.
  intros [Hf Ht] E. unfold commit_tx, next_fault. rewrite Hf, E. rewrite E in Ht. by rewrite Ht.
Qed.

Lemma tick_later w t ds : tick w = (t, ds) -> w_clock w <= t.
Proof. unfold tick. destruct (w_ticks w); intros; simplify_eq; lia. Qed.

(** ** Steps that leave the tables alone *)

Definition still {E A} (m : M E A) : Prop :=
  forall w, w_db (snd (m w)) = w_db w /\ w_tx (snd (m w)) = w_tx w /\ w_clock w <= w_clock (snd (m w))
    /\ w_faults (snd (m w)) = w_faults w.

Lemma still_time_Now {E} : still (E := E) time_Now.
Proof.
  intros w. unfold time_Now. destruct (tick w) eqn:Et. apply tick_later in Et. by repeat split.
Qed.
Lemma still_sql_now {E} : still (E := E) sql_now.
Proof. intros w. unfold sql_now. destruct (w_tx w) eqn:Ew; [by repeat split|]. rewrite <- Ew. apply still_time_Now. Qed.
Lemma still_newID `{UUIDs} {E} : still (E := E) newID.
Proof. by intros w. Qed.
Lemma still_emit {E} e : still (E := E) (emit e).
Proof. by intros w. Qed.
Lemma still_ret {E A} (a : A) : still (E := E) (mret a).
Proof. intros w. by repeat split. Qed.
Lemma still_throw {E A} (e : E) : still (A := A) (throw e).
Proof. intros w. by repeat split. Qed.
Lemma still_rand_Read {E} n : still (E := E) (rand_Read n).
Proof. intros w. unfold rand_Read. case_bool_decide; by repeat split. Qed.

Lemma still_bind {E A B} (m : M E A) (k : A -> M E B) :
  still m -> (forall a, still (k a)) -> still (m ≫= k).
Proof.
  intros Hm Hk w. unfold mbind, M_bind. destruct (Hm w) as (E1 & E2 & E3 & E4).
  destruct (m w) as [[a|e] w1]; simpl in *; [|done].
  destruct (Hk a w1) as (F1 & F2 & F3 & F4). rewrite F1, F2, F4. repeat split; try done. lia.
Qed.

#[export] Hint Resolve still_time_Now still_sql_now still_newID still_emit still_ret still_throw still_rand_Read : licensehub.

Lemma hoare_still {E A} I P (m : M E A) : still m -> hoare I P m (fun _ => P).
Proof.
  intros Hm w [Hi Hs] Hp. destruct (Hm w) as (Edb & Etx & _). unfold safe. by rewrite Edb, Etx.
Qed.

Lemma hoare_bind_still {E A B} I P (m : M E A) (k : A -> M E B) R :
  still m -> (forall a, hoare I P (k a) R) -> (forall e db, P db -> R (Err e) db) ->
  hoare I P (m ≫= k) R.
Proof. intros Hm Hk He. eapply hoare_bind; [by apply hoare_still|done|done]. Qed.

(** An INSERT that is accepted: the key is free, no unique index is hit, the
    constraints hold. *)
Lemma hoare_insert {K R} `{Countable K} (T : Table K R) I P k r :
  (forall db, I db -> P db -> t_get T db !! k = None ->
     (forall k' r', t_get T db !! k' = Some r' -> t_conflict T r' r = false) -> t_check T db r = None ->
     I (t_set T (<[k := r]> (t_get T db)) db)) ->
  hoare I P (sql_insert T k r) (fun _ _ => True).
Proof.
  intros Hi. apply hoare_stmt. intros db Hdb Hp. split; [done|].
  destruct (insert_row T k r db) as [[u db']|e] eqn:E; [|done].
  apply insert_row_Ok in E as (? & ? & ? & ->). split; [|done]. by apply Hi.
Qed.

Lemma hoare_count {K R} `{Countable K} (T : Table K R) I P (p : R -> bool) :
  hoare I P (sql_count T p)
    (fun r db => P db /\ match r with Ok n => n = count p (t_get T db) | Err _ => True end).
Proof. apply hoare_stmt. intros db Hi Hp. auto. Qed.

Lemma hoare_lock I P : hoare I P sql_lock (fun _ => P).
Proof. apply hoare_stmt. auto. Qed.

Lemma hoare_drop {E A} I P (m : M E A) : keeps I m -> hoare I P m (fun _ _ => True).
Proof. intros Hm w Hs Hp. split; [by apply Hm|done]. Qed.

Lemma keeps_still {E A} I (m : M E A) : still m -> keeps I m.
Proof. intros Hm w [Hi Hs]. destruct (Hm w) as (Edb & Etx & _). unfold safe. by rewrite Edb, Etx. Qed.

(** A statement that only reads: what it answers is what the tables say. *)
Lemma hoare_read {A} I P (f : DB -> result goerr (A * DB)) :
  (forall db a db', f db = Ok (a, db') -> db' = db) ->
  hoare I P (stmt f) (fun r db => P db /\ match r with Ok a => f db = Ok (a, db) | Err _ => True end).
Proof.
  intros Hf. apply hoare_stmt. intros db Hi Hp. split; [done|].
  destruct (f db) as [[a db']|e] eqn:E; [|done]. pose proof (Hf _ _ _ E) as ->. done.
Qed.

Lemma hoare_select_one {K R} `{Countable K} (T : Table K R) I P (p : R -> bool) :
  hoare I P (sql_select_one T p)
    (fun r db => P db /\ match r with
                         | Ok x => exists k, t_get T db !! k = Some x /\ p x = true
                         | Err _ => True
                         end).
Proof.
  eapply hoare_weaken; [apply hoare_read|done|].
  - intros db a db'. destruct (first_row _); intros; by simplify_eq.
  - intros [x|e] db _ [Hp Hr]; [|done]. split; [done|]. simpl in Hr.
    destruct (first_row _) as [x'|] eqn:E; [|done]. injection Hr as ->. by apply first_row_rows in E.
Qed.

Lemma insert_by_perm {R} (key : R -> Z) r l : insert_by key r l ≡ₚ r :: l.
Proof. induction l as [|r' l IH]; simpl; [done|]. destruct (_ <=? _); [done|]. rewrite IH. apply perm_swap. Qed.
Lemma sort_by_perm {R} (key : R -> Z) l : sort_by key l ≡ₚ l.
Proof. induction l as [|r l IH]; simpl; [done|]. by rewrite insert_by_perm, IH. Qed.

Lemma elem_of_rows {K R} `{Countable K} (p : R -> bool) (m : gmap K R) x :
  x ∈ (map_to_list (rows p m)).*2 <-> exists k, m !! k = Some x /\ p x = true.
Proof.
  rewrite list_elem_of_fmap. split.
  - intros ([k y] & -> & Hy). apply elem_of_map_to_list, lookup_rows in Hy. eauto.
  - intros (k & Hk). exists (k, x). split; [done|]. by apply elem_of_map_to_list, lookup_rows.
Qed.

Lemma hoare_select_ordered {K R} `{Countable K} (T : Table K R) I P (p : R -> bool) key limit :
  hoare I P (sql_select_ordered T p key limit)
    (fun r db => P db /\ match r with
                         | Ok l => forall x, x ∈ l -> exists k, t_get T db !! k = Some x /\ p x = true
                         | Err _ => True
                         end).
Proof.
  eapply hoare_weaken; [apply hoare_read|done|].
  - intros db a db' [= _ <-]. done.
  - intros [l|e] db _ [Hp Hr]; [|done]. split; [done|]. injection Hr as <-. intros x Hx.
    apply elem_of_rows.
    rewrite <- (sort_by_perm key). by apply (subseteq_take limit).
Qed.

(** An UPDATE by primary key. *)
Lemma hoare_update_checked {K R} `{Countable K} (T : Table K R) I P k f :
  (forall db r, I db -> P db -> t_get T db !! k = Some r ->
     (forall k' r', delete k (t_get T db) !! k' = Some r' -> t_conflict T r' (f r) = false) ->
     t_check T db (f r) = None -> I (t_set T (<[k := f r]> (t_get T db)) db)) ->
  hoare I P (sql_update_checked T k f) (fun _ _ => True).
Proof.
  intros Hi. apply hoare_stmt. intros db Hdb Hp. split; [done|]. cbv zeta.
  destruct (t_get T db !! k) as [r|] eqn:Ek; [|done].
  destruct (row_exists _ _) eqn:Er; [done|]. rewrite row_exists_false in Er.
  destruct (t_check T db (f r)) eqn:Ec; [done|]. split; [|done]. by apply Hi.
Qed.

(** An UPDATE or a DELETE of rows, the constraints left aside. *)
Lemma hoare_update_where {K R} `{Countable K} (T : Table K R) I P (p : R -> bool) f :
  (forall db, I db -> P db -> I (t_set T (update_rows p f (t_get T db)) db)) ->
  hoare I P (sql_update_where T p f) (fun _ _ => True).
Proof.
  intros Hi. apply hoare_stmt. intros db Hdb Hp. split; [done|]. cbv zeta.
  destruct (head _); [done|]. split; [|done]. by apply Hi.
Qed.

Lemma hoare_delete {K R} `{Countable K} (T : Table K R) I P (p : R -> bool) :
  (forall db, I db -> P db -> I (t_set T (delete_rows p (t_get T db)) db)) ->
  hoare I P (sql_delete T p) (fun _ _ => True).
Proof. intros Hi. apply hoare_stmt. intros db Hdb Hp. split; [done|]. split; [|done]. by apply Hi. Qed.

(** ** Programs that only read, outside a transaction *)

Definition readonly {E A} (m : M E A) : Prop :=
  forall w, w_tx w = None ->
    w_db (snd (m w)) = w_db w /\ w_tx (snd (m w)) = None /\ w_clock w <= w_clock (snd (m w)).

Section readonly.
Lemma readonly_still {E A} (m : M E A) : still m -> readonly m.
Proof. intros Hm w Hw. destruct (Hm w) as (? & Htx & ? & _). rewrite Hw in Htx. done. Qed.

Lemma readonly_ret {E A} (a : A) : readonly (E := E) (mret a).
Proof. by intros w. Qed.
Lemma readonly_throw {E A} (e : E) : readonly (A := A) (throw e).
Proof. by intros w. Qed.
Lemma readonly_gets {E A} (f : World -> A) : readonly (E := E) (gets f).
Proof. by intros w. Qed.

Lemma readonly_bind {E A B} (m : M E A) (k : A -> M E B) :
  readonly m -> (forall a, readonly (k a)) -> readonly (m ≫= k).
Proof.
  intros Hm Hk w Hw. unfold mbind, M_bind. destruct (Hm w Hw) as (E1 & E2 & E3).
  destruct (m w) as [[a|e] w1]; simpl in *; [|done].
  destruct (Hk a w1 E2) as (F1 & F2 & F3). rewrite F1. split; [done|]. split; [done|lia].
Qed.

Lemma readonly_attempt {E E' A} (m : M E A) : readonly m -> readonly (E := E') (attempt m).
Proof. intros Hm w Hw. unfold attempt. specialize (Hm w Hw). by destruct (m w). Qed.
Lemma readonly_map_err {E E' A} (f : E -> E') (m : M E A) : readonly m -> readonly (map_err f m).
Proof. intros Hm w Hw. unfold map_err. specialize (Hm w Hw). by destruct (m w) as [[]]. Qed.

Lemma readonly_stmt {A} (f : DB -> result goerr (A * DB)) :
  (forall db a db', f db = Ok (a, db') -> db' = db) -> readonly (stmt f).
Proof.
  intros Hf w Hw.
  assert (forall w', frame w w' -> w_tx w' = None /\ w_clock w <= w_clock w') as Hfr.
  { intros w' [Hs Hc _ _ _]. rewrite Hw in Hs. destruct (w_tx w'); [done|]. split; [done|lia]. }
  destruct (stmt_outcomes f w) as [a db' w' E Edb Fr|e w' E Edb Fr|e w' _ Edb Fr|a db' w' E Edb Fr];
    simpl; try (apply Hf in E; subst db'); rewrite Edb; auto.
Qed.

Lemma readonly_select_one {K R} `{Countable K} (T : Table K R) P : readonly (sql_select_one T P).
Proof. apply readonly_stmt. intros db a db'. destruct (first_row _); intros; by simplify_eq. Qed.
Lemma readonly_select {K R} `{Countable K} (T : Table K R) P : readonly (sql_select T P).
Proof. apply readonly_stmt. intros. by simplify_eq. Qed.
Lemma readonly_count {K R} `{Countable K} (T : Table K R) P : readonly (sql_count T P).
Proof. apply readonly_stmt. intros. by simplify_eq. Qed.
End readonly.

#[export] Hint Resolve readonly_ret readonly_throw readonly_gets readonly_select_one readonly_select
  readonly_count readonly_still : licensehub.

Ltac readonly_step :=
  match goal with
  | |- forall _, _ => intros ?
  | |- readonly (_ ≫= _) => apply readonly_bind
  | |- readonly (attempt _) => apply readonly_attempt
  | |- readonly (map_err _ _) => apply readonly_map_err
  | |- readonly (match ?x with _ => _ end) => destruct x eqn:?
  | |- readonly (let '(_, _) := ?x in _) => destruct x eqn:?
  | |- readonly _ => solve [auto with licensehub nocore]
  end.
Ltac readonly_go := repeat readonly_step.

(** ** Inverting a successful run *)

Section inversion.
Lemma bind_Ok {E A B} (m : M E A) (k : A -> M E B) w b w' :
  (m ≫= k) w = (Ok b, w') <-> exists a w1, m w = (Ok a, w1) /\ k a w1 = (Ok b, w').
Proof.
  unfold mbind, M_bind. destruct (m w) as [[a|e] w1] eqn:E1.
  - split; [eauto|]. intros (a' & w2 & ? & ?). by simplify_eq.
  - split; [done|]. intros (a' & w2 & ? & ?). by simplify_eq.
Qed.

Lemma map_err_Ok {E E' A} (f : E -> E') (m : M E A) w a w' :
  map_err f m w = (Ok a, w') <-> m w = (Ok a, w').
Proof. unfold map_err. destruct (m w) as [[] ?]; naive_solver. Qed.

Lemma attempt_Ok {E E' A} (m : M E A) w r w' :
  attempt (E' := E') m w = (Ok r, w') <-> m w = (r, w').
Proof. unfold attempt. destruct (m w). naive_solver. Qed.

Lemma mret_Ok {E A} (a b : A) w w' : mret (M := M E) a w = (Ok b, w') <-> a = b /\ w = w'.
Proof. unfold mret, M_ret. naive_solver. Qed.

Lemma throw_Ok {E A} (e : E) (b : A) w w' : throw e w = (Ok b, w') <-> False.
Proof. unfold throw. naive_solver. Qed.

Lemma readonly_run {E A} (m : M E A) w r w' :
  readonly m -> m w = (r, w') -> w_tx w = None ->
  w_db w' = w_db w /\ w_tx w' = None /\ w_clock w <= w_clock w'.
Proof. intros Hm E1 Hw. specialize (Hm w Hw). by rewrite E1 in Hm. Qed.

Lemma select_one_Ok {K R} `{Countable K} (T : Table K R) P w r w' :
  sql_select_one T P w = (Ok r, w') -> exists k, t_get T (w_db w) !! k = Some r /\ P r = true.
Proof.
  intros E. pose proof (stmt_outcomes (fun db => match first_row (rows P (t_get T db)) with
    | Some r => Ok (r, db) | None => Err ErrNoRows end) w) as Ho.
  unfold sql_select_one in E. rewrite E in Ho. simpl in Ho.
  inversion Ho as [a db' w2 Ef _ _| | |]; subst.
  destruct (first_row _) as [r'|] eqn:Er; [|done]. injection Ef as -> _. by apply first_row_rows in Er.
Qed.

Lemma time_Now_Ok {E} w t w' :
  time_Now (E := E) w = (Ok t, w') -> w_clock w <= t /\ w_clock w' = t.
Proof.
  unfold time_Now. destruct (tick w) as [t' ds] eqn:Et. intros [= <- <-].
  by apply tick_later in Et.
Qed.
End inversion.

(** Decompose every successful run of the context. *)
Ltac inv_ok :=
  repeat match goal with
  | H : (_ ≫= _) _ = (Ok _, _) |- _ => apply (proj1 (bind_Ok _ _ _ _ _)) in H as (? & ? & ? & H)
  | H : map_err _ _ _ = (Ok _, _) |- _ => apply (proj1 (map_err_Ok _ _ _ _ _)) in H
  | H : attempt _ _ = (Ok _, _) |- _ => apply (proj1 (attempt_Ok _ _ _ _)) in H
  | H : mret _ _ = (Ok _, _) |- _ => apply (proj1 (mret_Ok _ _ _ _)) in H as [? ?]; subst
  | H : throw _ _ = (Ok _, _) |- _ => apply (proj1 (throw_Ok _ _ _ _)) in H; destruct H
  end.

(** ** A quiet world: no fault to come, no open transaction *)

Definition quiet (w : World) : Prop := w_faults w = [] /\ w_tx w = None.

Lemma quiet_calm w : quiet w -> calm w.
Proof. intros [Hf Ht]. unfold calm. by rewrite Hf, Ht. Qed.

Lemma set_db_same w : set_db (w_db w) w = w.
Proof. by destruct w. Qed.

Lemma stmt_quiet {A} (f : DB -> result goerr (A * DB)) w :
  quiet w ->
  stmt f w = match f (w_db w) with
             | Ok (a, db') => (Ok a, set_db db' w)
             | Err e => (Err e, w)
             end.
Proof.
  intros Hq. rewrite stmt_calm by by apply quiet_calm. destruct (f (w_db w)) as [[]|e]; [done|].
  unfold fail_tx. destruct Hq as [_ ->]. by destruct (refuses e).
Qed.

Lemma select_one_quiet {K R} `{Countable K} (T : Table K R) P w :
  quiet w ->
  sql_select_one T P w
  = (match first_row (rows P (t_get T (w_db w))) with Some r => Ok r | None => Err ErrNoRows end, w).
Proof.
  intros Hq. unfold sql_select_one. rewrite stmt_quiet by done.
  destruct (first_row _); [|done]. by rewrite set_db_same.
Qed.

Lemma quiet_still {E A} (m : M E A) w : still m -> quiet w -> quiet (snd (m w)).
Proof. intros Hm [Hf Ht]. destruct (Hm w) as (_ & Etx & _ & Ef). unfold quiet. by rewrite Ef, Etx. Qed.

Lemma time_Now_quiet {E} w :
  quiet w -> exists t w', time_Now (E := E) w = (Ok t, w') /\ quiet w' /\ w_db w' = w_db w /\
    w_clock w <= t /\ w_clock w' = t /\ w_events w' = w_events w /\ w_attempts w' = w_attempts w.
Proof.
  intros [Hf Ht]. unfold time_Now. destruct (tick w) as [t ds] eqn:Et. apply tick_later in Et.
  eexists t, _. split; [done|]. done.
Qed.

Lemma rollback_closed w : w_tx (rollback_w w) = None.
Proof. unfold rollback_w. by destruct (w_tx w) eqn:E. Qed.

Lemma with_tx_closed {A} (body : M goerr A) w :
  w_tx w = None -> w_tx (snd (with_tx body w)) = None.
Proof.
  intros Hw. unfold with_tx, mbind, M_bind, begin_tx. pose proof (next_fault_frame w) as (_ & Etx & _).
  destruct (next_fault w) as [[|b] w1]; simpl in *; [|congruence].
  destruct (tick w1) as [t ds]. unfold defer_rollback. destruct (body _) as [r w2].
  apply rollback_closed.
Qed.

Lemma safe_closed I w : I (w_db w) -> w_tx w = None -> safe I w.
Proof. intros Hi Hw. split; [done|]. by rewrite Hw. Qed.

(** A transaction whose body is a function of its [now()]. *)
Lemma with_tx_now {A} (I : Time -> DB -> Prop) (body : Time -> M goerr A) w :
  w_tx w = None -> (forall now, w_clock w <= now -> I now (w_db w)) ->
  (forall now, w_clock w <= now -> keeps (I now) (body now)) ->
  exists now, w_clock w <= now /\ I now (w_db (snd (with_tx (sql_now ≫= body) w))).
Proof.
  intros Hw Hi Hb. unfold with_tx, mbind, M_bind, begin_tx, sql_now.
  pose proof (next_fault_frame w) as (Edb & Etx & [_ Eclk _ _ _]). destruct (next_fault w) as [[|b] w1]; simpl in *.
  - destruct (tick w1) as [t ds] eqn:Et. apply tick_later in Et. exists t. split; [lia|].
    assert (w_clock w <= t) as Ht by lia. unfold defer_rollback. simpl.
    match goal with |- context [body t ?w2] => assert (safe (I t) (snd (body t w2))) as Hs;
      [apply (Hb t Ht w2)|destruct (body t w2) as [r w3]] end.
    + split; simpl; [rewrite Edb; by apply Hi|]. intros tx [= <-]. simpl. rewrite Edb. by apply Hi.
    + simpl in *. by apply (safe_rollback (I t)).
  - exists (w_clock w). split; [lia|]. rewrite Edb. apply Hi. lia.
Qed.

(** A readonly tail. *)
Lemma bind_readonly_tail {E A B} (m : M E A) (k : A -> M E B) w :
  (forall a, readonly (k a)) -> w_tx (snd (m w)) = None ->
  w_db (snd ((m ≫= k) w)) = w_db (snd (m w)) /\ w_tx (snd ((m ≫= k) w)) = None.
Proof.
  intros Hk Hw. unfold mbind, M_bind. destruct (m w) as [[a|e] w']; simpl in *; [|done].
  destruct (Hk a w' Hw) as (E1 & E2 & _). done.
Qed.

Lemma attempt_readonly_tail {E E' A B} (m : M E A) (k : result E A -> M E' B) w :
  (forall a, readonly (k a)) -> w_tx (snd (m w)) = None ->
  w_db (snd ((attempt m ≫= k) w)) = w_db (snd (m w)) /\ w_tx (snd ((attempt m ≫= k) w)) = None.
Proof.
  intros Hk Hw. destruct (bind_readonly_tail (attempt m) k w Hk) as [E1 E2].
  - unfold attempt. by destruct (m w).
  - split; [|done]. rewrite E1. unfold attempt. by destruct (m w).
Qed.

(** ** Successful transactions *)

Definition tx_ok (w : World) : Prop := match w_tx w with Some tx => tx_failed tx = false | None => True end.

(** An accepted statement leaves the state of the transaction as it is. *)
Lemma stmt_Ok {A} (f : DB -> result goerr (A * DB)) w a w' :
  stmt f w = (Ok a, w') -> f (w_db w) = Ok (a, w_db w') /\ w_tx w' = w_tx w /\ tx_ok w /\ w_clock w' = w_clock w.
Proof.
  unfold stmt, tx_ok. pose proof (next_fault_frame w) as (Edb & Etx & Fr). pose proof (fr_clock _ _ Fr) as Ec.
  destruct (next_fault w) as [flt w1]; simpl in *. rewrite <- Edb, <- Etx, <- Ec.
  destruct (w_tx w1) as [[sn [] n]|] eqn:E1; [done| |];
    (destruct flt as [|[]]; destruct (f (w_db w1)) as [[a' db']|e] eqn:E; intros; simplify_eq/=; by rewrite E1).
Qed.

(** A statement that only reads leaves the tables alone, whatever it answers. *)
Lemma read_db {A} (f : DB -> result goerr (A * DB)) w :
  (forall db a db', f db = Ok (a, db') -> db' = db) ->
  w_db (snd (stmt f w)) = w_db w /\ w_clock (snd (stmt f w)) = w_clock w.
Proof.
  intros Hf. destruct (stmt_outcomes f w) as [a db' w' E Edb Fr|e w' E Edb Fr|e w' _ Edb Fr|a db' w' E Edb Fr];
    simpl; try (apply Hf in E; subst db'); rewrite Edb, (fr_clock _ _ Fr); done.
Qed.

Lemma select_one_db {K R} `{Countable K} (T : Table K R) P w r w' :
  sql_select_one T P w = (r, w') -> w_db w' = w_db w /\ w_clock w' = w_clock w.
Proof.
  intros E. pose proof (read_db (fun db => match first_row (rows P (t_get T db)) with
    | Some r => Ok (r, db) | None => Err ErrNoRows end) w) as Hr. unfold sql_select_one in E. rewrite E in Hr.
  apply Hr. intros db a db'. destruct (first_row _); intros; by simplify_eq.
Qed.

Lemma with_tx_Ok {A} (body : M goerr A) w a w' :
  with_tx body w = (Ok a, w') ->
  exists w1 wb, body w1 = (Ok a, wb) /\ w' = rollback_w wb /\ w_db w1 = w_db w /\ w_clock w <= w_clock w1.
Proof.
  unfold with_tx. rewrite bind_Ok. intros ([] & w1 & Hb & Hr). unfold defer_rollback in Hr.
  destruct (body w1) as [r wb] eqn:Eb. injection Hr as -> <-. exists w1, wb. split; [done|]. split; [done|].
  unfold begin_tx in Hb. pose proof (next_fault_frame w) as (Edb & _ & Fr). pose proof (fr_clock _ _ Fr) as Ec.
  destruct (next_fault w) as [[|b] w0]; [|done]. simpl in Edb, Ec.
  destruct (tick w0) as [t ds] eqn:Et. apply tick_later in Et. injection Hb as <-. simpl. split; [done|lia].
Qed.

(** A reported commit of a transaction none of whose statements failed. *)
Lemma commit_Ok w w' :
  commit_tx w = (Ok tt, w') -> tx_ok w -> w_db (rollback_w w') = w_db w.
Proof.
  unfold commit_tx, tx_ok. pose proof (next_fault_frame w) as (Edb & Etx & _).
  destruct (next_fault w) as [flt w1]; simpl in *. rewrite <- Etx.
  destruct (w_tx w1) as [tx|]; [|done]. destruct flt; [|done]. intros Hc Hok. rewrite Hok in Hc.
  injection Hc as <-. done.
Qed.

(** A write followed by the commit, at the end of a transaction. *)
Lemma write_commit_Ok {A B} (f : DB -> result goerr (A * DB)) (g : A -> B) w b w' :
  (x ← stmt f; commit_tx ;; mret (M := M goerr) (g x)) w = (Ok b, w') ->
  exists a, f (w_db w) = Ok (a, w_db (rollback_w w')) /\ b = g a.
Proof.
  intros Hr. apply bind_Ok in Hr as (a & w1 & Hs & Hr). apply bind_Ok in Hr as ([] & w2 & Hc & Hr).
  apply mret_Ok in Hr as [<- <-]. apply stmt_Ok in Hs as (Hf & Htx & Hok & _).
  apply commit_Ok in Hc; [|unfold tx_ok in *; by rewrite Htx]. exists a. by rewrite Hc.
Qed.

(** [ErrNoRows] is the answer of the tables, not of a failure. *)
Lemma select_one_NoRows {K R} `{Countable K} (T : Table K R) P w e w' :
  sql_select_one T P w = (Err e, w') -> goerr_Is e ErrNoRows = true ->
  first_row (rows P (t_get T (w_db w))) = None.
Proof.
  intros Hs He. unfold sql_select_one in Hs.
  match type of Hs with stmt ?f w = _ => pose proof (stmt_outcomes f w) as Ho end. rewrite Hs in Ho. simpl in Ho.
  inversion Ho as [|e' ? Hf|e' ? He'|]; subst; [by destruct (first_row _)|by destruct He' as [-> | ->]|done].
Qed.

(** ** Programs that leave no transaction open *)

Definition closes {E A} (m : M E A) : Prop := forall w, w_tx w = None -> w_tx (snd (m w)) = None.

Section closes.
Lemma closes_still {E A} (m : M E A) : still m -> closes m.
Proof. intros Hm w Hw. destruct (Hm w) as (_ & Htx & _). congruence. Qed.
Lemma closes_ret {E A} (a : A) : closes (E := E) (mret a).
Proof. by intros w. Qed.
Lemma closes_throw {E A} (e : E) : closes (A := A) (throw e).
Proof. by intros w. Qed.
Lemma closes_bind {E A B} (m : M E A) (k : A -> M E B) : closes m -> (forall a, closes (k a)) -> closes (m ≫= k).
Proof.
  intros Hm Hk w Hw. unfold mbind, M_bind. specialize (Hm w Hw). destruct (m w) as [[a|e] w1]; [by apply Hk|done].
Qed.
Lemma closes_attempt {E E' A} (m : M E A) : closes m -> closes (E := E') (attempt m).
Proof. intros Hm w Hw. specialize (Hm w Hw). unfold attempt. by destruct (m w). Qed.
Lemma closes_map_err {E E' A} (f : E -> E') (m : M E A) : closes m -> closes (map_err f m).
Proof. intros Hm w Hw. specialize (Hm w Hw). unfold map_err. by destruct (m w) as [[]]. Qed.
Lemma closes_for_each {E A} (l : list A) (body : A -> M E unit) :
  (forall x, closes (body x)) -> closes (for_each l body).
Proof. intros Hb. induction l as [|x l IH]; simpl; [apply closes_ret|]. by apply closes_bind. Qed.
Lemma closes_stmt {A} (f : DB -> result goerr (A * DB)) : closes (stmt f).
Proof.
  intros w Hw. destruct (stmt_outcomes f w) as [a db' w' _ _ Fr|e w' _ _ Fr|e w' _ _ Fr|a db' w' _ _ Fr]; simpl;
    pose proof (fr_snapshot _ _ Fr) as E; rewrite Hw in E; by destruct (w_tx w').
Qed.
Lemma closes_with_tx {A} (body : M goerr A) : closes (with_tx body).
Proof. intros w Hw. by apply with_tx_closed. Qed.
End closes.

#[export] Hint Resolve closes_ret closes_throw closes_stmt closes_with_tx closes_still : licensehub.

Ltac closes_step :=
  match goal with
  | |- forall _, _ => intros ?
  | |- closes (_ ≫= _) => apply closes_bind
  | |- closes (attempt _) => apply closes_attempt
  | |- closes (map_err _ _) => apply closes_map_err
  | |- closes (for_each _ _) => apply closes_for_each
  | |- closes (match ?x with _ => _ end) => destruct x eqn:?
  | |- closes (let '(_, _) := ?x in _) => destruct x eqn:?
  | |- closes (sql_update_where _ _ _) => apply closes_stmt
  | |- closes (sql_select_one _ _) => apply closes_stmt
  | |- closes (sql_select _ _) => apply closes_stmt
  | |- closes (sql_insert _ _ _) => apply closes_stmt
  | |- closes (sql_count _ _) => apply closes_stmt
  | |- closes _ => solve [auto with licensehub nocore]
  end.
Ltac closes_go := repeat closes_step.
