(* ===== verification/Progress.v ===== *)
(** * Programs that run to their end

    [tame] programs never turn the clock back, close the transactions they
    open and need no fault to come: run from a quiet world they leave a quiet
    world.  [ahead] strengthens preservation of an invariant with the clock:
    the invariant may mention the latest instant read. *)

From S2P Require Import Prelude GoStrings Errors Model World Logic.
From Stdlib Require Import Ascii String.

#[local] Open Scope string_scope.
#[local] Open Scope Z_scope.

Record tame_step (w w' : World) : Prop := mkTame {
  tm_clock : w_clock w <= w_clock w';
  tm_faults : w_faults w = [] -> w_faults w' = [];
  tm_tx : w_tx w = None -> w_tx w' = None
}.

Definition tame {E A} (m : M E A) : Prop := forall w, tame_step w (snd (m w)).

#[export] Instance tame_step_preorder : PreOrder tame_step.
Proof.
  split.
  - intros w. split; [lia|done..].
  - intros w1 w2 w3 [] []. split; [lia|auto..].
Qed.

Lemma tame_quiet {E A} (m : M E A) w : tame m -> quiet w -> quiet (snd (m w)).
Proof. intros Hm [Hf Ht]. destruct (Hm w) as [_ H1 H2]. split; auto. Qed.

Section tame.
Lemma tame_still {E A} (m : M E A) : still m -> tame m.
Proof. intros Hm w. destruct (Hm w) as (_ & Et & Hc & Ef). split; [done|by rewrite Ef|by rewrite Et]. Qed.

Lemma tame_ret {E A} (a : A) : tame (E := E) (mret a).
Proof. intros w. done. Qed.
Lemma tame_throw {E A} (e : E) : tame (A := A) (throw e).
Proof. intros w. done. Qed.
Lemma tame_emit {E} e : tame (E := E) (emit e).
Proof. intros w. by split. Qed.
Lemma tame_metric {E} n l : tame (E := E) (metric n l).
Proof. apply tame_emit. Qed.
Lemma tame_gets {E A} (f : World -> A) : tame (E := E) (gets f).
Proof. intros w. done. Qed.

Lemma tame_bind {E A B} (m : M E A) (k : A -> M E B) : tame m -> (forall a, tame (k a)) -> tame (m ≫= k).
Proof.
  intros Hm Hk w. unfold mbind, M_bind. specialize (Hm w). destruct (m w) as [[a|e] w1]; simpl in *; [|done].
  etrans; [done|apply Hk].
Qed.

Lemma tame_attempt {E E' A} (m : M E A) : tame m -> tame (E := E') (attempt m).
Proof. intros Hm w. unfold attempt. specialize (Hm w). by destruct (m w). Qed.
Lemma tame_ignore {E E' A} (m : M E A) : tame m -> tame (E := E') (ignore m).
Proof. intros Hm w. apply (Hm w). Qed.
Lemma tame_map_err {E E' A} (f : E -> E') (m : M E A) : tame m -> tame (map_err f m).
Proof. intros Hm w. unfold map_err. specialize (Hm w). by destruct (m w) as [[]]. Qed.
Lemma tame_fmap {E A B} (f : A -> B) (m : M E A) : tame m -> tame (f <$> m).
Proof. intros Hm w. unfold fmap, M_fmap. specialize (Hm w). by destruct (m w) as [[]]. Qed.

Lemma tame_for_each {E A} (l : list A) (body : A -> M E unit) : (forall x, tame (body x)) -> tame (for_each l body).
Proof. intros Hb. induction l as [|x l IH]; simpl; [apply tame_ret|by apply tame_bind]. Qed.

Lemma tame_next_fault w : tame_step w (snd (next_fault w)).
Proof. unfold next_fault. destruct (w_faults w) eqn:E; simpl; [done|]. by split; simpl; [lia|congruence|]. Qed.

Lemma tame_fail_tx w w' : tame_step w w' -> tame_step w (fail_tx w').
Proof. intros [Hc Hf Ht]. unfold fail_tx. destruct (w_tx w') eqn:E; split; simpl; naive_solver. Qed.
Lemma tame_set_db w w' db : tame_step w w' -> tame_step w (set_db db w').
Proof. intros [Hc Hf Ht]. by split. Qed.
Lemma tame_rollback w w' : tame_step w w' -> tame_step w (rollback_w w').
Proof. intros [Hc Hf Ht]. unfold rollback_w. destruct (w_tx w') eqn:E; split; simpl; naive_solver. Qed.

Lemma tame_stmt {A} (f : DB -> result goerr (A * DB)) : tame (stmt f).
Proof.
  intros w. unfold stmt. pose proof (tame_next_fault w) as Hn. destruct (next_fault w) as [flt w1]. simpl in Hn.
  pose proof (tame_fail_tx _ _ Hn) as Hx.
  destruct (w_tx w1) as [[s [] n]|], flt as [|[]]; try (destruct (f (w_db w1)) as [[a db']|e]); simpl;
    try destruct (refuses e); try done; first [by apply tame_fail_tx, tame_set_db|by apply tame_set_db].
Qed.

Lemma tame_commit : tame commit_tx.
Proof.
  intros w. unfold commit_tx. pose proof (tame_next_fault w) as Hn. destruct (next_fault w) as [flt w1]. simpl in Hn.
  assert (tame_step w (set_tx None w1)) as Hc by (destruct Hn; by split).
  destruct (w_tx w1) as [tx|] eqn:E; [|done]. destruct flt as [|applied]; simpl.
  - destruct (tx_failed tx); [|done]. by apply tame_rollback.
  - destruct (applied && negb (tx_failed tx)); [done|]. by apply tame_rollback.
Qed.

Lemma tame_with_tx {A} (body : M goerr A) : tame body -> tame (with_tx body).
Proof.
  intros Hb w. split.
  - unfold with_tx, mbind, M_bind, begin_tx. pose proof (tame_next_fault w) as [Hc _ _].
    destruct (next_fault w) as [[|b] w1]; simpl in *; [|done]. destruct (tick w1) as [t ds] eqn:Et.
    apply tick_later in Et. unfold defer_rollback. simpl.
    match goal with |- context [body ?w2] => pose proof (tame_rollback _ _ (Hb w2)) as [Hc' _ _]; destruct (body w2) end.
    simpl in *. lia.
  - intros Hf. unfold with_tx, mbind, M_bind, begin_tx, next_fault. rewrite Hf. destruct (tick w) as [t ds].
    unfold defer_rollback.
    match goal with |- context [body ?w2] => pose proof (tame_rollback _ _ (Hb w2)) as [_ Hf' _]; destruct (body w2) end.
    by apply Hf'.
  - apply with_tx_closed.
Qed.

Lemma tame_time_Now {E} : tame (E := E) time_Now.
Proof. apply tame_still, still_time_Now. Qed.
Lemma tame_sql_now {E} : tame (E := E) sql_now.
Proof. apply tame_still, still_sql_now. Qed.
Lemma tame_newID `{UUIDs} {E} : tame (E := E) newID.
Proof. apply tame_still, still_newID. Qed.
End tame.

#[export] Hint Resolve tame_ret tame_throw tame_emit tame_metric tame_gets tame_stmt tame_commit tame_time_Now
  tame_sql_now tame_newID : licensehub.

Ltac tame_step_go :=
  match goal with
  | |- forall _, _ => intros ?
  | |- tame (_ ≫= _) => apply tame_bind
  | |- tame (_ <$> _) => apply tame_fmap
  | |- tame (attempt _) => apply tame_attempt
  | |- tame (ignore _) => apply tame_ignore
  | |- tame (map_err _ _) => apply tame_map_err
  | |- tame (with_tx _) => apply tame_with_tx
  | |- tame (for_each _ _) => apply tame_for_each
  | |- tame (match ?x with _ => _ end) => destruct x eqn:?
  | |- tame (let '(_, _) := ?x in _) => destruct x eqn:?
  | |- tame (sql_insert _ _ _) => apply tame_stmt
  | |- tame (sql_update _ _ _) => apply tame_stmt
  | |- tame (sql_update_checked _ _ _) => apply tame_stmt
  | |- tame (sql_delete _ _) => apply tame_stmt
  | |- tame (sql_select_one _ _) => apply tame_stmt
  | |- tame (sql_select _ _) => apply tame_stmt
  | |- tame (sql_select_ordered _ _ _ _) => apply tame_stmt
  | |- tame (sql_count _ _) => apply tame_stmt
  | |- tame sql_lock => apply tame_stmt
  | |- tame _ => solve [auto with licensehub nocore]
  end.
Ltac tame_go := repeat tame_step_go.

Lemma keeps_and {E A} (I J : DB -> Prop) (m : M E A) : keeps I m -> keeps J m -> keeps (fun db => I db /\ J db) m.
Proof.
  intros HI HJ w [[H1 H2] Htx]. destruct (HI w) as [H3 H4]; [split; [done|]; intros; by apply Htx|].
  destruct (HJ w) as [H5 H6]; [split; [done|]; intros; by apply Htx|]. split; [done|]. auto.
Qed.

(** ** Invariants that mention the clock *)

(** [J t db]: [db] is good at instant [t]; time passing keeps it good. *)
Definition ahead {E A} (J : Time -> DB -> Prop) (m : M E A) : Prop :=
  forall w, safe (J (w_clock w)) w -> safe (J (w_clock (snd (m w)))) (snd (m w)).

Section ahead.
Context (J : Time -> DB -> Prop) (later : forall t u db, t <= u -> J t db -> J u db).

Lemma safe_later t u w : t <= u -> safe (J t) w -> safe (J u) w.
Proof. intros Htu [H1 H2]. split; eauto. Qed.

Lemma ahead_keeps {E A} (m : M E A) : (forall t, keeps (J t) m) -> tame m -> ahead J m.
Proof. intros Hk Ht w Hw. eapply safe_later; [apply Ht|]. by apply Hk. Qed.

Lemma ahead_bind {E A B} (m : M E A) (k : A -> M E B) : ahead J m -> (forall a, ahead J (k a)) -> ahead J (m ≫= k).
Proof.
  intros Hm Hk w Hw. unfold mbind, M_bind. specialize (Hm w Hw). destruct (m w) as [[a|e] w1]; simpl in *; [|done].
  by apply Hk.
Qed.

Lemma ahead_for_each {E A} (l : list A) (body : A -> M E unit) :
  (forall x, x ∈ l -> ahead J (body x)) -> ahead J (for_each l body).
Proof.
  induction l as [|x l IH]; intros Hb; simpl; [by intros w|].
  apply ahead_bind; [apply Hb; by left|]. intros _. apply IH. intros y Hy. apply Hb. by right.
Qed.

Lemma ahead_ext {E A} (m m' : M E A) : (forall w, m w = m' w) -> ahead J m' -> ahead J m.
Proof. intros Em Hm w. rewrite Em. apply Hm. Qed.

(** What a query answers is read off tables the invariant holds of. *)
Lemma ahead_query {E A B} (f : DB -> result goerr (A * DB)) (k : result goerr A -> M E B) :
  (forall db a db', f db = Ok (a, db') -> db' = db) ->
  (forall t db a, J t db -> f db = Ok (a, db) -> ahead J (k (Ok a))) -> (forall e, ahead J (k (Err e))) ->
  ahead J (attempt (stmt f) ≫= k).
Proof.
  intros Hf Hk He w Hw. unfold mbind, M_bind, attempt.
  assert (ahead J (stmt f)) as Hs.
  { apply ahead_keeps; [|apply tame_stmt]. intros t. apply keeps_read. done. }
  specialize (Hs w Hw). pose proof (stmt_outcomes f w) as Ho.
  destruct (stmt f w) as [[a|e] w1]; simpl in *; [|by apply He].
  inversion Ho as [a' db' w' E1 E2 Fr| | |]; simplify_eq. pose proof (Hf _ _ _ E1) as E2. rewrite E2 in E1.
  apply (Hk (w_clock w) (w_db w)); [apply Hw|done|done].
Qed.
End ahead.

(** [now := time.Now()]: from here on the clock shows [now] or later. *)
Lemma ahead_time_Now {E A} (J : Time -> DB -> Prop) (k : Time -> M E A) :
  (forall t u db, t <= u -> J t db -> J u db) ->
  (forall now, (exists db, J now db) -> ahead (fun t db => J t db /\ now <= t) (k now)) ->
  ahead J (time_Now ≫= k).
Proof.
  intros later Hk w [H1 H2]. unfold mbind, M_bind, time_Now. destruct (tick w) as [now ds] eqn:Et.
  apply tick_later in Et. pose proof (ex_intro _ (w_db w) (later _ _ _ Et H1)) as Hnow.
  assert (safe (fun db => J now db /\ now <= now) (set_clock now ds w)) as Hs.
  { split; [eauto with lia|]. intros tx Htx. split; [by eauto|lia]. }
  destruct (Hk now Hnow (set_clock now ds w) Hs) as [H3 H4]. split; [apply H3|]. intros tx Htx. by apply H4.
Qed.

Lemma attempt_time_Now {E E' A B} (k : Time -> M E A) (g : result E A -> M E' B) w :
  (attempt (time_Now ≫= k) ≫= g) w = (now ← time_Now; attempt (k now) ≫= g) w.
Proof. unfold attempt, mbind, M_bind, time_Now. destruct (tick w) as [t ds]. by destruct (k t _). Qed.

(** ** Loops and sequences of programs that cannot fail *)

Lemma run_seq {A} (m : M Empty_set unit) (m' : M Empty_set A) w : snd ((m ;; m') w) = snd (m' (snd (m w))).
Proof. unfold mbind, M_bind. by destruct (m w) as [[[]|[]] w1]. Qed.

Lemma for_each_inv {A} (Inv : World -> Prop) (body : A -> M Empty_set unit) ls w :
  (forall x w1, x ∈ ls -> Inv w1 -> Inv (snd (body x w1))) -> Inv w -> Inv (snd (for_each ls body w)).
Proof.
  revert w. induction ls as [|x ls IH]; intros w Hb Hw; simpl; [done|].
  pose proof (Hb x w ltac:(by left) Hw) as H1. unfold mbind, M_bind. destruct (body x w) as [[[]|[]] w1].
  apply IH; [|done]. intros y w2 Hy. apply Hb. by right.
Qed.

(** A loop reaches what the body reaches on one of its elements. *)
Lemma for_each_reach {A} (Inv G : World -> Prop) (body : A -> M Empty_set unit) ls x0 :
  (forall x w, Inv w -> Inv (snd (body x w))) -> (forall x w, Inv w -> G w -> G (snd (body x w))) ->
  (forall w, Inv w -> G (snd (body x0 w))) -> x0 ∈ ls -> forall w, Inv w -> G (snd (for_each ls body w)).
Proof.
  intros HI HG H0.
  assert (forall ls w, Inv w -> G w -> G (snd (for_each ls body w))) as Hrest.
  { induction ls0 as [|x ls0 IH]; intros w Hw Hg; simpl; [done|]. unfold mbind, M_bind.
    specialize (HI x w Hw). specialize (HG x w Hw Hg). destruct (body x w) as [[[]|[]] w1]. by apply IH. }
  induction ls as [|x ls IH]; intros Hin w Hw; [by apply not_elem_of_nil in Hin|]. simpl. unfold mbind, M_bind.
  pose proof (HI x w Hw) as HI1. apply elem_of_cons in Hin as [->|Hin].
  - specialize (H0 w Hw). destruct (body x w) as [[[]|[]] w1]. by apply Hrest.
  - destruct (body x w) as [[[]|[]] w1]. by apply IH.
Qed.

Lemma keeps_closed {E A} I (m : M E A) w : keeps I m -> w_tx w = None -> I (w_db w) -> I (w_db (snd (m w))).
Proof. intros Hm Hw HI. apply Hm. by apply safe_closed. Qed.
