(* ===== verification/Token.v ===== *)
(** * Offline licence tokens ([server/internal/license/token.go])

    The signed payload, its issue and its verification, by one key and by a
    key ring.  [encoding/json] on the payload struct is the interface
    [TokenJSON]: marshalling a payload gives a text that unmarshals to it, and
    whose [kid] field can be read alone.  The texts of wrapped library errors
    are not kept. *)

From S2P Require Import Prelude GoStrings Errors Crypto Lockout World Logic.
From Stdlib Require Import Ascii String.

#[local] Open Scope string_scope.
#[local] Open Scope Z_scope.

Record VerifyToken := mkToken {
  tk_Version : Z;
  tk_KeyID : string;
  tk_LicenseID : string;
  tk_ProductID : string;
  tk_PlanID : string;
  tk_Status : string;
  tk_Identifier : string;
  tk_Entitlements : list string;
  tk_IssuedAt : Z;
  tk_ExpiresAt : Z;
  tk_GraceDays : Z;
  tk_Nonce : string;
  tk_Fingerprint : string
}.

Definition tk_set_Nonce (n : string) (t : VerifyToken) : VerifyToken :=
  mkToken (tk_Version t) (tk_KeyID t) (tk_LicenseID t) (tk_ProductID t) (tk_PlanID t) (tk_Status t)
    (tk_Identifier t) (tk_Entitlements t) (tk_IssuedAt t) (tk_ExpiresAt t) (tk_GraceDays t) n
    (tk_Fingerprint t).

(** What [encoding/json] carries without loss: valid UTF-8 and [int64]s. *)
Definition token_encodable (t : VerifyToken) : bool :=
  forallb utf8_ValidString
    ([tk_KeyID t; tk_LicenseID t; tk_ProductID t; tk_PlanID t; tk_Status t; tk_Identifier t;
      tk_Nonce t; tk_Fingerprint t] ++ tk_Entitlements t)%list
  && forallb in_int64 [tk_Version t; tk_IssuedAt t; tk_ExpiresAt t; tk_GraceDays t].

Class TokenJSON := {
  json_Marshal : VerifyToken -> string;
  json_Unmarshal : string -> option VerifyToken;
  json_UnmarshalKeyID : string -> option string;
  Unmarshal_Marshal t : token_encodable t = true -> json_Unmarshal (json_Marshal t) = Some t;
  UnmarshalKeyID_Marshal t :
    token_encodable t = true -> json_UnmarshalKeyID (json_Marshal t) = Some (tk_KeyID t)
}.

Definition PublicKeySize : Z := 32.
Definition PrivateKeySize : Z := 64.
Definition SeedSize : Z := 32.

Definition kid_char (r : ascii) : bool :=
  is_lower r || is_upper r || is_digit r || Ascii.eqb r "." || Ascii.eqb r "_" || Ascii.eqb r "-".

Definition ValidKeyID (v : string) : bool :=
  if (len v <? 1) || (64 <? len v) then false else sall kid_char v.

Definition Fingerprint (identifier productID : string) : string :=
  hex_EncodeToString (stake 8 (Sum256 (identifier +:+ ":" +:+ productID))).

Section token.
Context `{Ed25519} `{TokenJSON}.

Definition PrivateKeyFromHex (s : string) : result goerr string :=
  match hex_DecodeString (TrimSpace s) with
  | None => Err (ErrText "must be hex-encoded")
  | Some seed =>
      if negb (len seed =? SeedSize)
      then Err (ErrText "must decode to 32 bytes; generate with 'openssl rand -hex 32'")
      else Ok (NewKeyFromSeed seed)
  end.

(** The nonce of a token that has none: sixteen random bytes. *)
Definition with_nonce (t : VerifyToken) : M goerr VerifyToken :=
  if bool_decide (tk_Nonce t = "") then
    n ← rand_Read 16;
    match n with
    | None => throw (ErrText "nonce")
    | Some nonce => mret (tk_set_Nonce (b64_EncodeToString nonce) t)
    end
  else mret t.

Definition Sign (t : VerifyToken) (priv : string) : M goerr string :=
  if negb (len priv =? PrivateKeySize) then throw (ErrText "ed25519 private key not initialised")
  else
    t ← with_nonce t;
    let b64 := b64_EncodeToString (json_Marshal t) in
    let sig := ed_Sign priv b64 in
    mret (b64 +:+ "." +:+ b64_EncodeToString sig).

Definition Verify (raw pub : string) : M goerr VerifyToken :=
  if negb (len pub =? PublicKeySize) then throw (ErrText "ed25519 public key not initialised")
  else match split_last "." raw with
  | None => throw (ErrText "invalid token format")
  | Some (b64, sigB64) =>
    match b64_DecodeString sigB64 with
    | None => throw (ErrText "signature decode")
    | Some sig =>
      if negb (ed_Verify pub b64 sig) then throw (ErrText "invalid signature")
      else match b64_DecodeString b64 with
      | None => throw (ErrText "payload decode")
      | Some payload =>
        match json_Unmarshal payload with
        | None => throw (ErrText "payload unmarshal")
        | Some t =>
          if 0 <? tk_ExpiresAt t then
            now ← time_Now;
            if tk_ExpiresAt t <? Unix now then throw (ErrText "token expired") else mret t
          else mret t
        end
      end
    end
  end.

Definition VerifyWithKeyRing (raw : string) (keys : gmap string string) : M goerr VerifyToken :=
  match split_last "." raw with
  | None => throw (ErrText "invalid token format")
  | Some (head, _) =>
    match b64_DecodeString head with
    | None => throw (ErrText "payload decode")
    | Some payload =>
      match json_UnmarshalKeyID payload with
      | None => throw (ErrText "payload unmarshal")
      | Some kid =>
        if bool_decide (kid = "") then throw (ErrText "token key id missing")
        else match keys !! kid with
        | None => throw (ErrText "unknown token key id")
        | Some pub => Verify raw pub
        end
      end
    end
  end.

(** ** Lemmas *)

(** The text [Sign] returns for a payload with its nonce. *)
Definition signed_text (t : VerifyToken) (priv : string) : string :=
  b64_EncodeToString (json_Marshal t) +:+ "." +:+
  b64_EncodeToString (ed_Sign priv (b64_EncodeToString (json_Marshal t))).

Lemma split_signed t priv :
  split_last "." (signed_text t priv)
  = Some (b64_EncodeToString (json_Marshal t),
          b64_EncodeToString (ed_Sign priv (b64_EncodeToString (json_Marshal t)))).
Proof. unfold signed_text. apply split_last_b64. Qed.

Lemma with_nonce_Ok t w t' w' :
  with_nonce t w = (Ok t', w') ->
  t' = t \/ exists nonce, t' = tk_set_Nonce (b64_EncodeToString nonce) t.
Proof.
  unfold with_nonce. case_bool_decide; [|intros [= <- _]; by left].
  unfold mbind, M_bind, rand_Read. case_bool_decide; simpl; [|done]. intros [= <- _]. eauto.
Qed.

Lemma encodable_nonce t nonce :
  token_encodable t = true -> token_encodable (tk_set_Nonce (b64_EncodeToString nonce) t) = true.
Proof.
  unfold token_encodable, tk_set_Nonce. simpl. rewrite !andb_true_iff, utf8_b64. tauto.
Qed.

Lemma with_nonce_spec t w t' w' :
  with_nonce t w = (Ok t', w') ->
  exists nonce, t' = tk_set_Nonce nonce t /\ (tk_Nonce t <> "" -> nonce = tk_Nonce t) /\
    (token_encodable t = true -> token_encodable t' = true).
Proof.
  unfold with_nonce. case_bool_decide as En.
  - unfold mbind, M_bind, rand_Read. case_bool_decide; simpl; [|done]. intros [= <- _].
    eexists. split; [done|]. split; [done|apply encodable_nonce].
  - intros [= <- _]. exists (tk_Nonce t). by destruct t.
Qed.

Lemma Sign_Ok t priv w raw w' :
  Sign t priv w = (Ok raw, w') ->
  len priv = 64 /\ exists t', raw = signed_text t' priv /\
    (t' = t \/ exists nonce, t' = tk_set_Nonce (b64_EncodeToString nonce) t).
Proof.
  unfold Sign, PrivateKeySize. destruct (len priv =? 64) eqn:El; simpl; [|done]. apply Z.eqb_eq in El.
  unfold mbind, M_bind. destruct (with_nonce t w) as [[t'|] w1] eqn:E; [|done].
  intros [= <- _]. apply with_nonce_Ok in E. eauto.
Qed.

Lemma Verify_signed t priv w :
  len priv = 64 -> token_encodable t = true ->
  fst (Verify (signed_text t priv) (PublicKey priv) w)
  = if (0 <? tk_ExpiresAt t) && (tk_ExpiresAt t <? Unix (fst (tick w))) then Err (ErrText "token expired")
    else Ok t.
Proof.
  intros El Hen. unfold Verify, PublicKeySize. rewrite (len_PublicKey priv El). simpl negb. cbv iota.
  rewrite split_signed, b64_Decode_Encode, (ed_Verify_Sign priv _ El). simpl negb. cbv iota.
  rewrite b64_Decode_Encode, Unmarshal_Marshal by done. destruct (0 <? tk_ExpiresAt t); [|done]. simpl.
  unfold mbind, M_bind, time_Now. destruct (tick w) as [now ds]. simpl.
  by destruct (tk_ExpiresAt t <? Unix now).
Qed.

Lemma VerifyWithKeyRing_signed t priv keys :
  tk_KeyID t <> "" -> token_encodable t = true ->
  VerifyWithKeyRing (signed_text t priv) keys
  = match keys !! tk_KeyID t with
    | None => throw (ErrText "unknown token key id")
    | Some pub => Verify (signed_text t priv) pub
    end.
Proof.
  intros Hk Hen. unfold VerifyWithKeyRing.
  rewrite split_signed, b64_Decode_Encode, UnmarshalKeyID_Marshal by done. rewrite bool_decide_false by done. done.
Qed.

(** What a verified token proves: the payload half of the text is signed by
    the key, decodes to the token, and has not expired. *)
Record token_valid (raw pub : string) (now : Time) (t : VerifyToken) : Prop := {
  tv_parts : exists b64 sigB64 sig payload,
    raw = b64 +:+ String "." sigB64 /\ b64_DecodeString sigB64 = Some sig /\
    ed_Verify pub b64 sig = true /\ b64_DecodeString b64 = Some payload /\
    json_Unmarshal payload = Some t;
  tv_live : 0 < tk_ExpiresAt t -> Unix now <= tk_ExpiresAt t
}.

Lemma Verify_valid raw pub w t w' :
  Verify raw pub w = (Ok t, w') -> token_valid raw pub (w_clock w') t.
Proof.
  unfold Verify. destruct (len pub =? PublicKeySize); simpl; [|done].
  destruct (split_last "." raw) as [[b64 sigB64]|] eqn:Es; [|done].
  destruct (b64_DecodeString sigB64) as [sig|] eqn:Eg; [|done].
  destruct (ed_Verify pub b64 sig) eqn:Ev; simpl; [|done].
  destruct (b64_DecodeString b64) as [payload|] eqn:Ep; [|done].
  destruct (json_Unmarshal payload) as [t0|] eqn:Et; [|done].
  apply split_last_Some in Es. intros Hv.
  assert (t0 = t /\ (0 < tk_ExpiresAt t0 -> Unix (w_clock w') <= tk_ExpiresAt t0)) as [-> Hl].
  { destruct (0 <? tk_ExpiresAt t0) eqn:E0; [|injection Hv as -> _; bool_facts; split; [done|lia]].
    revert Hv. unfold mbind, M_bind, time_Now. destruct (tick w) as [now ds]. simpl.
    destruct (tk_ExpiresAt t0 <? Unix now) eqn:Ex; [done|]. intros [= <- <-]. bool_facts.
    split; [done|]. intros _. simpl. lia. }
  split; [|done]. naive_solver.
Qed.

Lemma VerifyWithKeyRing_Ok raw keys w t w' :
  VerifyWithKeyRing raw keys w = (Ok t, w') ->
  exists kid pub, keys !! kid = Some pub /\ kid <> "" /\ Verify raw pub w = (Ok t, w').
Proof.
  unfold VerifyWithKeyRing. intros Hv. repeat case_match; simplify_eq/=; bool_facts; eauto 10.
Qed.

Lemma keeps_Sign I t priv : keeps I (Sign t priv).
Proof. unfold Sign, with_nonce. keeps_go. Qed.

Lemma keeps_VerifyWithKeyRing I raw keys : keeps I (VerifyWithKeyRing raw keys).
Proof. unfold VerifyWithKeyRing, Verify. keeps_go. Qed.
End token.

#[export] Hint Resolve keeps_Sign keeps_VerifyWithKeyRing : licensehub.

(** ** An instance of the interfaces

    Deterministic stand-ins with the laws of the interfaces, on which the
    theorems are evaluated: a "signature" is the digest of the key and the
    message, and a payload is written field by field. *)
Module Toy.
(** A field is written in hexadecimal, a number in binary, each ended by a bar. *)
Fixpoint cut (s : string) : option (string * string) :=
  match s with
  | "" => None
  | String c s' =>
      if Ascii.eqb c "|" then Some ("", s')
      else '(l, r) ← cut s'; Some (String c l, r)
  end.

Fixpoint bits (p : positive) : string :=
  match p with xH => "." | xO p => String "0" (bits p) | xI p => String "1" (bits p) end.
Fixpoint unbits (s : string) : option positive :=
  match s with
  | String "0" s' => xO <$> unbits s'
  | String "1" s' => xI <$> unbits s'
  | String _ _ => Some xH
  | "" => None
  end.

Definition put (s rest : string) : string := hex_EncodeToString s +:+ String "|" rest.
Definition get (raw : string) : option (string * string) :=
  '(h, rest) ← cut raw; s ← hex_DecodeString h; Some (s, rest).
Definition zput (z : Z) (rest : string) : string := bits (encode z) +:+ String "|" rest.
Definition zget (raw : string) : option (Z * string) :=
  '(h, rest) ← cut raw; p ← unbits h; z ← decode p; Some (z, rest).
Definition lput (l : list string) (rest : string) : string :=
  zput (Z.of_nat (List.length l)) (foldr put rest l).
Fixpoint get_n (n : nat) (raw : string) : option (list string * string) :=
  match n with
  | O => Some ([], raw)
  | S n => '(s, rest) ← get raw; '(l, rest) ← get_n n rest; Some (s :: l, rest)
  end.
Definition lget (raw : string) : option (list string * string) :=
  '(n, rest) ← zget raw; get_n (Z.to_nat n) rest.

Lemma cut_app s t : sall (fun c => negb (Ascii.eqb c "|")) s = true -> cut (s +:+ String "|" t) = Some (s, t).
Proof.
  induction s as [|c s IH]; [done|]. intros Hs. simpl in Hs. apply andb_true_iff in Hs as [Hc Hs].
  apply negb_true_iff in Hc. rewrite append_cons. simpl. by rewrite Hc, IH.
Qed.

Lemma hex_no_bar s : sall (fun c => negb (Ascii.eqb c "|")) (hex_EncodeToString s) = true.
Proof.
  assert (forall n, 0 <= n < 16 -> negb (Ascii.eqb (hex_digit n) "|") = true) as Hd.
  { apply (forall_range (fun n => negb (Ascii.eqb (hex_digit n) "|")) 16). vm_compute. done. }
  induction s as [|c s IH]; [done|]. simpl. pose proof (ord_range c). rewrite !Hd, IH; [done|..].
  - apply Z.mod_pos_bound. lia.
  - split; [apply Z.div_pos; lia|apply Z.div_lt_upper_bound; lia].
Qed.

Lemma bits_no_bar p : sall (fun c => negb (Ascii.eqb c "|")) (bits p) = true.
Proof. by induction p. Qed.
Lemma unbits_bits p : unbits (bits p) = Some p.
Proof. induction p; simpl; rewrite ?IHp; done. Qed.

Lemma get_put s t : get (put s t) = Some (s, t).
Proof. unfold get, put. rewrite cut_app by apply hex_no_bar. simpl. by rewrite hex_Decode_Encode. Qed.
Lemma zget_zput z t : zget (zput z t) = Some (z, t).
Proof.
  unfold zget, zput. rewrite cut_app by apply bits_no_bar. cbn [mbind option_bind].
  rewrite unbits_bits. cbn [mbind option_bind]. by rewrite decode_encode.
Qed.
Lemma lget_lput l t : lget (lput l t) = Some (l, t).
Proof.
  unfold lget, lput. rewrite zget_zput. simpl. rewrite Nat2Z.id.
  induction l as [|s l IH]; [done|]. simpl. rewrite get_put. simpl. by rewrite IH.
Qed.

Definition marshal (t : VerifyToken) : string :=
  put (tk_KeyID t) (zput (tk_Version t) (put (tk_LicenseID t) (put (tk_ProductID t) (put (tk_PlanID t)
    (put (tk_Status t) (put (tk_Identifier t) (lput (tk_Entitlements t) (zput (tk_IssuedAt t)
    (zput (tk_ExpiresAt t) (zput (tk_GraceDays t) (put (tk_Nonce t) (put (tk_Fingerprint t) "")))))))))))).

Definition unmarshal (s : string) : option VerifyToken :=
  '(kid, s) ← get s; '(v, s) ← zget s; '(lic, s) ← get s; '(prod, s) ← get s; '(plan, s) ← get s;
  '(status, s) ← get s; '(ident, s) ← get s; '(ents, s) ← lget s; '(iat, s) ← zget s;
  '(exp, s) ← zget s; '(grace, s) ← zget s; '(nonce, s) ← get s; '(fp, s) ← get s;
  Some (mkToken v kid lic prod plan status ident ents iat exp grace nonce fp).

Lemma unmarshal_marshal t : unmarshal (marshal t) = Some t.
Proof.
  unfold unmarshal, marshal.
  repeat first [rewrite get_put; simpl | rewrite zget_zput; simpl | rewrite lget_lput; simpl]. by destruct t.
Qed.

#[export] Instance json : TokenJSON := {|
  json_Marshal := marshal;
  json_Unmarshal := unmarshal;
  json_UnmarshalKeyID s := fmap (M := option) tk_KeyID (unmarshal s);
  Unmarshal_Marshal t _ := unmarshal_marshal t;
  UnmarshalKeyID_Marshal t _ := f_equal (fmap (M := option) tk_KeyID) (unmarshal_marshal t)
|}.

Definition key (seed : string) : string := seed +:+ seed.
Lemma len_key seed : len seed = 32 -> len (key seed) = 64.
Proof. unfold key. rewrite len_append. lia. Qed.
Lemma length_stake n s : (n <= String.length s)%nat -> String.length (stake n s) = n.
Proof.
  revert s. induction n as [|n IH]; intros [|c s]; simpl; try lia. intros ?. rewrite IH; lia.
Qed.
Lemma len_public priv : len priv = 64 -> len (stake 32 priv) = 32.
Proof. unfold len. intros ?. rewrite length_stake; lia. Qed.

#[export] Instance ed25519 : Ed25519 := {|
  NewKeyFromSeed := key;
  PublicKey priv := stake 32 priv;
  ed_Sign priv msg := sha256_hex (stake 32 priv +:+ msg);
  ed_Verify pub msg sig := bool_decide (sig = sha256_hex (pub +:+ msg));
  len_NewKeyFromSeed := len_key;
  len_PublicKey := len_public;
  len_Sign priv msg _ := f_equal Z.of_nat (length_sha256_hex _);
  ed_Verify_Sign priv msg _ := bool_decide_eq_true_2 _ eq_refl
|}.
End Toy.

(** ** Properties *)

(** C36. Token_roundtrip: a token issued with a private key verifies against any
    key ring that holds its public key under the token's key identifier,
    whatever the other keys, and gives back the payload, with a fresh nonce when
    it had none: up to its expiry second and during it, and for ever when the
    payload has no positive expiry; once that second has passed, it is refused. *)
Theorem Sign_VerifyWithKeyRing `{Ed25519} `{TokenJSON} t priv keys w raw w' w2 :
  Sign t priv w = (Ok raw, w') -> token_encodable t = true ->
  tk_KeyID t <> "" -> keys !! tk_KeyID t = Some (PublicKey priv) ->
  let expired := (0 <? tk_ExpiresAt t) && (tk_ExpiresAt t <? Unix (fst (tick w2))) in
  if expired then fst (VerifyWithKeyRing raw keys w2) = Err (ErrText "token expired")
  else exists nonce, (tk_Nonce t <> "" -> nonce = tk_Nonce t) /\
         fst (VerifyWithKeyRing raw keys w2) = Ok (tk_set_Nonce nonce t).
Proof.
  intros Hs Hen Hkid Hring expired.
  assert (len priv = 64 /\ exists nonce, raw = signed_text (tk_set_Nonce nonce t) priv /\
    token_encodable (tk_set_Nonce nonce t) = true /\ (tk_Nonce t <> "" -> nonce = tk_Nonce t))
    as (Hl & nonce & -> & Hen' & Hnonce).
  { unfold Sign, PrivateKeySize in Hs. destruct (len priv =? 64) eqn:El; [|done]. apply Z.eqb_eq in El.
    split; [done|]. simpl in Hs. apply bind_Ok in Hs as (t' & w1 & Hn & Hs).
    apply with_nonce_spec in Hn as (nonce & -> & Hn & He). injection Hs as <- _. eauto 10. }
  rewrite VerifyWithKeyRing_signed by done.
  change (tk_KeyID (tk_set_Nonce nonce t)) with (tk_KeyID t). rewrite Hring.
  rewrite (Verify_signed _ _ _ Hl Hen'). simpl tk_ExpiresAt. subst expired.
  destruct (_ && _); [done|]. eauto.
Qed.

#[local] Existing Instances Toy.json Toy.ed25519.

Lemma Sign_VerifyWithKeyRing_witness :
  let t := mkToken 1 "k1" "lic" "prod" "plan" "active" "laptop" ["sso"] 1000 2000 7 "n" "fp" in
  let priv := NewKeyFromSeed (string_of_list_ascii (repeat "s"%char 32)) in
  let w := mkWorld empty_db None (1500 * Second) [] [] false 0 [] ∅ [] in
  match fst (Sign t priv w) with
  | Ok raw => fst (VerifyWithKeyRing raw {["k0" := "other"; "k1" := PublicKey priv]} w) = Ok t
  | Err _ => False
  end.
Proof.
  intros t priv w. destruct (Sign t priv w) as [[raw|e] w'] eqn:E; [|vm_compute in E; discriminate E].
  destruct (Sign_VerifyWithKeyRing t priv {["k0" := "other"; "k1" := PublicKey priv]} w raw w' w E eq_refl
    ltac:(discriminate) eq_refl) as (nonce & Hn & Hv).
  change (fst (VerifyWithKeyRing raw {["k0" := "other"; "k1" := PublicKey priv]} w) = Ok t).
  etransitivity; [exact Hv|]. rewrite Hn; [reflexivity|discriminate].
Defined.
