(* ===== verification/Usability.v ===== *)
(** * Licence lifecycle checks ([service/license.go], [service/release.go])

    Whether a licence may be used at an instant: [assertUsable] of the licence
    service and its mirror [IsLicenseUsable] of the download endpoints, and
    the values read from the plan of a licence. *)

From S2P Require Import Prelude GoStrings Errors Model.
From Stdlib Require Import Ascii String Sorting.Sorted.

#[local] Open Scope string_scope.
#[local] Open Scope Z_scope.

Definition maxActivations (lic : License) : Z :=
  match lic_Plan lic with Some plan => plan_MaxActivations plan | None => 1 end.

Definition graceDays (lic : License) : Z :=
  match lic_Plan lic with Some plan => plan_GraceDays plan | None => 7 end.

(** [time.Duration(days) * 24 * time.Hour]. *)
Definition grace (days : Z) : Duration := go_mul (go_mul days 24) Hour.

Definition license_error (code message : string) : error := AppErr (New 403 code message).

(** [assertUsable] at the instant [now] it reads; [None] is [nil]. *)
Definition assertUsable (now : Time) (lic : License) : option error :=
  let status := lic_Status lic in
  if contains status [StatusActive; StatusTrialing; StatusPastDue] then
    match lic_ValidUntil lic with
    | Some valid_until =>
        if After now valid_until then
          if After now (Add valid_until (grace (graceDays lic)))
          then Some (license_error "LICENSE_EXPIRED" "license has expired")
          else None
        else None
    | None => None
    end
  else if streq status StatusCanceled then
    match lic_ValidUntil lic with
    | Some valid_until =>
        if Before now valid_until then None
        else Some (license_error "LICENSE_CANCELED" "license has been canceled")
    | None => Some (license_error "LICENSE_CANCELED" "license has been canceled")
    end
  else if streq status StatusSuspended then
    Some (license_error "LICENSE_SUSPENDED" "license has been suspended")
  else if streq status StatusRevoked then
    Some (license_error "LICENSE_REVOKED" "license has been revoked")
  else if streq status StatusExpired then
    Some (license_error "LICENSE_EXPIRED" "license has expired")
  else Some (license_error "LICENSE_INVALID" "license is not valid").

(** [IsLicenseUsable]. *)
Definition IsLicenseUsable (now : Time) (lic : License) : bool :=
  let graceDays := match lic_Plan lic with Some plan => plan_GraceDays plan | None => 7 end in
  let status := lic_Status lic in
  if contains status [StatusActive; StatusTrialing; StatusPastDue] then
    match lic_ValidUntil lic with
    | None => true
    | Some valid_until =>
        if Before now valid_until then true
        else Before now (Add valid_until (grace graceDays))
    end
  else if streq status StatusCanceled then
    match lic_ValidUntil lic with
    | Some valid_until => Before now valid_until
    | None => false
    end
  else false.

(** The entitlement map of a verification and the sorted feature names of a
    token. *)
Definition entitlement_value (e : Entitlement) : any :=
  if streq (ent_ValueType e) "bool" then AnyBool (streq (ent_Value e) "true") else AnyString (ent_Value e).

Definition entitlements (lic : License) : gmap string any :=
  match lic_Plan lic with
  | None => ∅
  | Some plan => fold_left (fun m e => <[ent_Feature e := entitlement_value e]> m) (plan_Entitlements plan) ∅
  end.

Definition entitlement_enabled (e : Entitlement) : bool :=
  negb (streq (ent_ValueType e) "bool" && negb (streq (ent_Value e) "true")).

(** [sort.Strings]: by bytes. *)
Definition sleb (s t : string) : bool := String.leb s t.
Fixpoint sinsert (s : string) (l : list string) : list string :=
  match l with
  | [] => [s]
  | t :: l' => if sleb s t then s :: l else t :: sinsert s l'
  end.
Definition sort_Strings (l : list string) : list string := foldr sinsert [] l.

Definition entitlementNames (lic : License) : list string :=
  match lic_Plan lic with
  | None => []
  | Some plan => sort_Strings (ent_Feature <$> List.filter entitlement_enabled (plan_Entitlements plan))
  end.

(** [requireProductCapability]; the text of the wrong product type follows
    [fmt.Sprintf]. *)
Definition requireProductCapability (prod : option Product) (capability hint : string) : option error :=
  match prod with
  | None => Some (AppErr (Internal (ErrText "product not loaded for capability check")))
  | Some prod =>
      if ProductSupports (prod_Type prod) capability then None
      else Some (AppErr (New 404 "FEATURE_NOT_AVAILABLE"
             (hint +:+ " is not available for " +:+ prod_Type prod +:+ " products")))
  end.

(** ** Lemmas *)

Lemma contains_true s l : contains s l = true <-> s ∈ l.
Proof. unfold contains. apply bool_decide_eq_true. Qed.

Lemma grace_small days : 0 <= days <= 365 -> grace days = days * (24 * Hour).
Proof.
  intros Hd. unfold grace, go_mul, Hour, Minute, Second.
  rewrite (wrap64_id (days * 24)) by (unfold int64_min, int64_max; lia).
  rewrite wrap64_id by (unfold int64_min, int64_max; lia). lia.
Qed.

Lemma sinsert_perm s l : sinsert s l ≡ₚ s :: l.
Proof.
  induction l as [|t l IH]; simpl; [done|]. destruct (sleb s t); [done|].
  rewrite IH. apply perm_swap.
Qed.

Lemma sort_Strings_perm l : sort_Strings l ≡ₚ l.
Proof. induction l as [|s l IH]; simpl; [done|]. by rewrite sinsert_perm, IH. Qed.

Lemma sleb_total s t : sleb s t = false -> sleb t s = true.
Proof.
  unfold sleb, String.leb. rewrite (String.compare_antisym t s).
  destruct (s ?= t)%string; simpl; congruence.
Qed.

Lemma sinsert_sorted s l :
  Sorted (fun a b => sleb a b = true) l -> Sorted (fun a b => sleb a b = true) (sinsert s l).
Proof.
  induction l as [|t l IH]; simpl; intros Hl; [by repeat constructor|].
  destruct (sleb s t) eqn:E; [constructor; [done|by constructor]|].
  apply Sorted_inv in Hl as [Hl Ht]. constructor; [by apply IH|].
  destruct l as [|u l]; simpl in *; [constructor; by apply sleb_total|].
  destruct (sleb s u); constructor; [by apply sleb_total|by inversion Ht].
Qed.

Lemma sort_Strings_sorted l : Sorted (fun a b => sleb a b = true) (sort_Strings l).
Proof. induction l; simpl; [constructor|by apply sinsert_sorted]. Qed.

(** ** Properties *)

(** Usable_window: a licence is usable exactly while it is active, trialing or
    past due and no later than its end plus its plan's grace days (to the
    nanosecond, without overflow for the grace a plan may have), or canceled
    with paid time left. *)
Theorem usable_window now lic :
  0 <= graceDays lic <= 365 ->
  assertUsable now lic = None <->
  (lic_Status lic ∈ [StatusActive; StatusTrialing; StatusPastDue] /\
   (lic_ValidUntil lic = None \/
    exists until, lic_ValidUntil lic = Some until /\ now <= until + graceDays lic * (24 * Hour)))
  \/ (lic_Status lic = StatusCanceled /\ exists until, lic_ValidUntil lic = Some until /\ now < until).
Proof.
  intros Hg. unfold assertUsable, After, Before, Add. rewrite grace_small by done.
  assert (StatusCanceled ∉ [StatusActive; StatusTrialing; StatusPastDue]) as Hc
    by (apply (bool_decide_unpack _); vm_compute; exact I).
  destruct (contains _ _) eqn:Es.
  - apply contains_true in Es. destruct (lic_ValidUntil lic) as [until|]; [|naive_solver].
    assert (lic_Status lic <> StatusCanceled) by (intros E; by rewrite E in Es).
    unfold Hour, Minute, Second in *.
    repeat case_match; bool_facts; split; try done; try naive_solver lia.
  - assert (lic_Status lic ∉ [StatusActive; StatusTrialing; StatusPastDue]) by (by rewrite <- contains_true, Es).
    destruct (streq (lic_Status lic) StatusCanceled) eqn:E; str_facts.
    + destruct (lic_ValidUntil lic); repeat case_match; bool_facts; naive_solver lia.
    + split; [intros; repeat case_match; done|naive_solver].
Qed.

(** Usable_mirror: the download check [IsLicenseUsable], documented as the
    mirror of [assertUsable], differs from it at one instant only: the exact
    end of the usable window, which [assertUsable] still accepts. *)
Theorem assertUsable_IsLicenseUsable now lic :
  assertUsable now lic = None <->
  IsLicenseUsable now lic = true
  \/ (lic_Status lic ∈ [StatusActive; StatusTrialing; StatusPastDue] /\
      exists until, lic_ValidUntil lic = Some until /\
        now = Z.max until (Add until (grace (graceDays lic)))).
Proof.
  unfold assertUsable, IsLicenseUsable, graceDays, After, Before, Add. rewrite <- contains_true.
  set (g := grace _). destruct (contains _ _).
  - destruct (lic_ValidUntil lic) as [until|]; [|naive_solver].
    destruct (until <? now) eqn:E1; [destruct (until + g <? now) eqn:E2|];
      destruct (now <? until) eqn:E3; destruct (now <? until + g) eqn:E4; bool_facts;
      (split; [intros ?; first [congruence|by left|right; split; [done|]; exists until; split; [done|lia]]|
               intros [?|(_ & v & [= <-] & ?)]; first [congruence|lia]]).
  - destruct (streq (lic_Status lic) StatusCanceled), (lic_ValidUntil lic) as [until|];
      repeat case_match; bool_facts; naive_solver.
Qed.

Lemma usable_window_witness :
  let lic := mkLicense "l" "p" "pl" "" "" "K" "" "" "" "" "" StatusPastDue 0 (Some 100) None None None
               "" "" "" "" 0 0 None None in
  0 <= graceDays lic <= 365 /\ assertUsable (100 + 7 * (24 * Hour)) lic = None.
Proof.
  intros lic. assert (0 <= graceDays lic <= 365) as Hg by (vm_compute; split; congruence). split; [exact Hg|].
  apply (usable_window _ lic Hg). left. split; [set_solver|]. right. exists 100. split; [reflexivity|vm_compute; congruence].
Defined.
