(* ===== verification/AesGcm.v ===== *)
(** * Encryption at rest ([server/internal/crypto])

    The AES-256-GCM envelope (nonce, ciphertext, tag) and the HKDF-SHA256
    subkeys.  The block cipher mode itself ([cipher.AEAD]) is the interface
    [GCM], with the documented behaviour of [Seal] and [Open]. *)

From S2P Require Import Prelude GoStrings Errors Crypto Lockout World Logic.
From Stdlib Require Import Ascii String.

#[local] Open Scope string_scope.
#[local] Open Scope Z_scope.

Definition MasterKeyBytes : Z := 32.
Definition nonceBytes : Z := 12.
Definition gcmTagBytes : Z := 16.
Definition MinCiphertextBytes : Z := nonceBytes + gcmTagBytes.
Definition SubkeyBytes : nat := 32.

Class GCM := {
  gcm_Seal : string -> string -> string -> string -> string;          (* key nonce plaintext aad *)
  gcm_Open : string -> string -> string -> string -> option string;   (* key nonce ciphertext aad *)
  gcm_Open_Seal key nonce pt aad : len nonce = 12 ->
    gcm_Open key nonce (gcm_Seal key nonce pt aad) aad = Some pt;
  gcm_Seal_len key nonce pt aad : len nonce = 12 -> len (gcm_Seal key nonce pt aad) = len pt + 16
}.

Record AESGCM := mkAESGCM { aead_key : string }.

Definition NewAESGCM (key : string) : result goerr AESGCM :=
  if negb (len key =? MasterKeyBytes)
  then Err (ErrText ("crypto: master key must be 32 bytes, got " +:+ pretty (len key)))
  else Ok (mkAESGCM key).

Definition NewAESGCMFromHex (hexKey : string) : result goerr AESGCM :=
  if negb (len hexKey =? MasterKeyBytes * 2)
  then Err (ErrText ("crypto: hex master key must be 64 chars, got " +:+ pretty (len hexKey)))
  else match hex_DecodeString hexKey with
       | None => Err (ErrText "crypto: master key hex decode")
       | Some raw => NewAESGCM raw
       end.

Section gcm.
Context `{GCM}.

Definition Encrypt (a : AESGCM) (plaintext aad : string) : M goerr string :=
  n ← rand_Read 12;
  match n with
  | None => throw (ErrText "crypto: nonce gen")
  | Some nonce => mret (nonce +:+ gcm_Seal (aead_key a) nonce plaintext aad)
  end.

Definition Decrypt (a : AESGCM) (envelope aad : string) : result goerr string :=
  if len envelope <? MinCiphertextBytes then Err (ErrText "crypto: ciphertext too short")
  else
    let nonce := stake 12 envelope in
    let ciphertext := sdrop 12 envelope in
    match gcm_Open (aead_key a) nonce ciphertext aad with
    | None => Err (ErrText "crypto: decryption failed")
    | Some plaintext => Ok plaintext
    end.
End gcm.

(** ** Subkeys: HKDF-SHA256 (RFC 5869) with an empty salt *)

Definition purposePrefix : string := "keygate-v1-".

Fixpoint hkdf_expand (blocks : nat) (i : Z) (prk prev info : string) : string :=
  match blocks with
  | O => ""
  | S blocks' =>
      let t := hmac_sha256 prk (prev +:+ info +:+ String (chr i) "") in
      t +:+ hkdf_expand blocks' (i + 1) prk t info
  end.

Definition hkdf_sha256 (secret info : string) (n : nat) : string :=
  let prk := hmac_sha256 (string_of (repeat 0 32)) secret in
  stake n (hkdf_expand ((n + 31) / 32) 1 prk "" info).

Definition DeriveSubkey (master purpose : string) : result goerr string :=
  if len master <? 16 then Err (ErrText "crypto: master key too short for HKDF")
  else if bool_decide (purpose = "") then Err (ErrText "crypto: purpose label is required")
  else Ok (hkdf_sha256 master (purposePrefix +:+ purpose) SubkeyBytes).

(** [MustDeriveAEAD]; [None] is the panic. *)
Definition MustDeriveAEAD (master purpose : string) : option AESGCM :=
  match DeriveSubkey master purpose with
  | Err _ => None
  | Ok sub => match NewAESGCM sub with Err _ => None | Ok a => Some a end
  end.

(** RFC 5869, test case 3 (no salt, no info): the first 32 bytes. *)
Example hkdf_case3 :
  hex_EncodeToString (hkdf_sha256 (string_of (repeat 0x0b 22)) "" 32)
  = "8da4e775a563c18f715f802a063c5a31b8a11f5c5ee1879ec3454e5f3c738d2d".
Proof. vm_compute. reflexivity. Qed.

(** ** Lemmas *)

Lemma stake_append n s t : String.length s = n -> stake n (s +:+ t) = s.
Proof. intros <-. induction s as [|c s IH]; simpl; [by destruct t|]. by rewrite IH. Qed.
Lemma sdrop_append n s t : String.length s = n -> sdrop n (s +:+ t) = t.
Proof. intros <-. by induction s as [|c s IH]; simpl. Qed.

Lemma length_list_ascii l : String.length (string_of_list_ascii l) = List.length l.
Proof. induction l; simpl; congruence. Qed.

Lemma rand_Read_Ok {E} n w s w' :
  rand_Read (E := E) n w = (Ok (Some s), w') -> String.length s = n.
Proof.
  unfold rand_Read. case_bool_decide as Hn; [|done]. intros [= <- _].
  rewrite length_list_ascii, length_take. lia.
Qed.

(** ** Properties *)

(** Envelope: what [Encrypt] writes, [Decrypt] reads back with the same key
    and associated data, whatever nonce was drawn; and an envelope shorter
    than a nonce and a tag is refused before the cipher is called. *)
Theorem Decrypt_Encrypt `{GCM} a plaintext aad w envelope w' :
  Encrypt a plaintext aad w = (Ok envelope, w') ->
  Decrypt a envelope aad = Ok plaintext /\ MinCiphertextBytes <= len envelope.
Proof.
  unfold Encrypt, mbind, M_bind. destruct (rand_Read 12 w) as [[[nonce|]|] w1] eqn:E; try done.
  intros [= <- _]. apply rand_Read_Ok in E.
  assert (len nonce = 12) as Hn by (unfold len; lia).
  assert (len (nonce +:+ gcm_Seal (aead_key a) nonce plaintext aad) = len plaintext + 28) as Hl.
  { rewrite len_append, gcm_Seal_len by done. lia. }
  pose proof (len_nonneg plaintext). unfold Decrypt, MinCiphertextBytes, nonceBytes, gcmTagBytes.
  rewrite (proj2 (Z.ltb_ge _ _)) by lia.
  rewrite stake_append, sdrop_append, gcm_Open_Seal by done. split; [done|lia].
Qed.

Module ToyGCM.
(** A cipher with the interface's laws: no secrecy, sixteen tag bytes. *)
Definition tag : string := "0123456789abcdef".
Definition open (ct : string) : option string :=
  if bool_decide (srev (stake 16 (srev ct)) = tag) then Some (srev (sdrop 16 (srev ct))) else None.
Lemma open_seal pt : open (pt +:+ tag) = Some pt.
Proof.
  unfold open. rewrite srev_append, stake_append, sdrop_append by done.
  rewrite !srev_involutive. by rewrite bool_decide_true.
Qed.
#[export] Instance gcm : GCM := {|
  gcm_Seal _ _ pt _ := pt +:+ tag;
  gcm_Open _ _ ct _ := open ct;
  gcm_Open_Seal _ _ pt _ _ := open_seal pt;
  gcm_Seal_len _ _ pt _ _ := len_append pt tag
|}.
End ToyGCM.

#[local] Existing Instance ToyGCM.gcm.
Definition demo_random : list ascii := list_ascii_of_string "abcdefghijklmnopqrstuvwxyz0123456789".

Lemma Decrypt_Encrypt_witness :
  Decrypt (mkAESGCM "k") ("abcdefghijkl" +:+ "secret" +:+ ToyGCM.tag) "lic-1" = Ok "secret".
Proof.
  refine (proj1 (Decrypt_Encrypt (mkAESGCM "k") "secret" "lic-1"
    (mkWorld empty_db None 0 [] [] false 0 demo_random ∅ []) _ _ _)). vm_compute. reflexivity.
Defined.
