(* ===== verification/Store.v ===== *)
(** * Licences, activations and audit ([server/internal/store])

    The data layer of the licence core: key lookup, creation, column updates,
    the lifecycle changes of the admin API, device activations and their
    limit, and the audit log, alone ([Audit]) or in the transaction of the
    change it records ([RunAuditedMutation]). *)

From S2P Require Import Prelude GoStrings Errors Model Crypto KeyGen Lockout World Tables Logic AesGcm.
From Stdlib Require Import Ascii String.

#[local] Open Scope string_scope.
#[local] Open Scope Z_scope.

Definition lift {A} (m : M goerr A) : M error A := map_err GoError m.
Definition internal {A} (m : M goerr A) : M error A := map_err (fun e => AppErr (Internal e)) m.

(** [RowsAffected] of an UPDATE or DELETE by primary key that must hit. *)
Definition must_affect (n : Z) (ok : Z -> bool) (e : goerr) : M goerr unit :=
  if ok n then mret tt else throw e.

(** ** Columns of an [UPDATE licenses] *)

Inductive LicCol :=
  | ColStatus | ColValidUntil | ColPastDueAt | ColCanceledAt | ColSuspendedAt | ColPlanID | ColUpdatedAt.

(** Copy the columns of [src], the struct in memory, over the stored row. *)
Definition lic_assign (src : License) (row : License) (c : LicCol) : License :=
  let pick {A} (here : bool) (f : License -> A) : A := if here then f src else f row in
  let is_ c' := match c, c' with
    | ColStatus, ColStatus | ColValidUntil, ColValidUntil | ColPastDueAt, ColPastDueAt
    | ColCanceledAt, ColCanceledAt | ColSuspendedAt, ColSuspendedAt | ColPlanID, ColPlanID
    | ColUpdatedAt, ColUpdatedAt => true
    | _, _ => false
    end in
  mkLicense (lic_ID row) (lic_ProductID row) (pick (is_ ColPlanID) lic_PlanID) (lic_UserID row)
    (lic_Email row) (lic_LicenseKey row) (lic_KeyHash row) (lic_LicenseKeyEncrypted row)
    (lic_PaymentProvider row) (lic_StripeCustomerID row) (lic_StripeSubscriptionID row)
    (pick (is_ ColStatus) lic_Status) (lic_ValidFrom row) (pick (is_ ColValidUntil) lic_ValidUntil)
    (pick (is_ ColCanceledAt) lic_CanceledAt) (pick (is_ ColSuspendedAt) lic_SuspendedAt)
    (pick (is_ ColPastDueAt) lic_PastDueAt) (lic_Notes row) (lic_OrgName row)
    (lic_ExternalCustomerID row) (lic_ExternalWorkspaceID row) (lic_CreatedAt row)
    (pick (is_ ColUpdatedAt) lic_UpdatedAt) (lic_Product row) (lic_Plan row).

Definition lic_assign_cols (src : License) (cols : list LicCol) (row : License) : License :=
  fold_left (lic_assign src) cols row.

Definition lic_set_UpdatedAt (t : Time) (l : License) : License := lic_set_status (lic_Status l) t l.

Definition lic_set_key (id hash ct : string) (l : License) : License :=
  mkLicense id (lic_ProductID l) (lic_PlanID l) (lic_UserID l) (lic_Email l)
    (lic_LicenseKey l) hash ct (lic_PaymentProvider l)
    (lic_StripeCustomerID l) (lic_StripeSubscriptionID l) (lic_Status l) (lic_ValidFrom l)
    (lic_ValidUntil l) (lic_CanceledAt l) (lic_SuspendedAt l) (lic_PastDueAt l) (lic_Notes l)
    (lic_OrgName l) (lic_ExternalCustomerID l) (lic_ExternalWorkspaceID l) (lic_CreatedAt l)
    (lic_UpdatedAt l) (lic_Product l) (lic_Plan l).

Definition sub_set_Status (s : string) (now : Time) (r : Subscription) : Subscription :=
  mkSubscription (sub_ID r) (sub_LicenseID r) (sub_PlanID r) s (sub_TrialStart r) (sub_TrialEnd r)
    (sub_CreatedAt r) now.

(** An UPDATE whose new rows the CHECK constraints are evaluated on. *)
Definition sql_update_c {K R} `{Countable K} (T : Table K R) (P : R -> bool) (f : R -> R) : M goerr Z :=
  stmt (fun db =>
    let m := t_get T db in
    match head (omap (fun r => t_check T db (f r)) (map_to_list (rows P m)).*2) with
    | Some e => Err (ErrSQL e)
    | None => Ok (count P m, t_set T (update_rows P f m) db)
    end).

Section store.
Context `{UUIDs}.

(** ** Audit *)

Definition audit_with (id : string) (now : Time) (log : AuditLog) : AuditLog :=
  mkAuditLog id (audit_Entity log) (audit_EntityID log) (audit_Action log) (audit_ActorID log)
    (audit_ActorType log) (audit_Changes log) (audit_IPAddress log) now.

Definition fresh_id {E} (id : string) : M E string :=
  if bool_decide (id = "") then newID else mret id.

Definition insert_audit (log : AuditLog) : M goerr unit :=
  now ← sql_now;
  sql_insert audit_logs (audit_ID log) (audit_with (audit_ID log) now log).

(** [store.Audit]: a failed write is logged, not returned. *)
Definition Audit {E} (log : AuditLog) : M E unit :=
  id ← fresh_id (audit_ID log);
  r ← attempt (insert_audit (audit_with id 0 log));
  match r with
  | Ok _ => mret tt
  | Err _ => emit (EvWarn "audit log write failed")
  end.

Definition RunAuditedMutation (log : option AuditLog) (mutate : M goerr unit) : M goerr unit :=
  match log with
  | None => throw (ErrText "audit log is required")
  | Some log =>
      id ← fresh_id (audit_ID log);
      with_tx (
        mutate ;;
        map_err (ErrWrap "write audit log") (insert_audit (audit_with id 0 log)) ;;
        commit_tx)
  end.

(** ** Licences *)

Definition select_license (P : License -> bool) : M goerr License := stmt (fun db =>
  match first_row (rows P (db_licenses db)) with
  | Some l => Ok (load_license db l, db)
  | None => Err ErrNoRows
  end).

Definition FindLicenseByKey (key : string) : M goerr License :=
  let keyHash := HashKey key in
  r ← attempt (select_license (fun l => streq (lic_KeyHash l) keyHash));
  match r with
  | Err _ => select_license (fun l => streq (lic_LicenseKey l) key)
  | Ok l => mret l
  end.

Definition FindLicenseByID (id : string) : M goerr License :=
  select_license (fun l => streq (lic_ID l) id).

Section encryption.
Context `{GCM} (LicenseKeyAEAD : option AESGCM).

Definition DecryptLicenseKey {E} (l : option License) : M E string :=
  match l with
  | None => mret ""
  | Some l =>
      match LicenseKeyAEAD with
      | Some aead =>
          if 0 <? len (lic_LicenseKeyEncrypted l) then
            match Decrypt aead (lic_LicenseKeyEncrypted l) (lic_ID l) with
            | Ok pt => mret pt
            | Err _ =>
                emit (EvWarn "license key decrypt failed; falling back to plaintext column") ;;
                metric "license_key_decrypt_failures" [] ;;
                mret (lic_LicenseKey l)
            end
          else mret (lic_LicenseKey l)
      | None => mret (lic_LicenseKey l)
      end
  end.

(** The licence with its identifier, hash and ciphertext filled in. *)
Definition prepareLicenseForInsert (l : License) : M goerr License :=
  id ← fresh_id (lic_ID l);
  let hash := HashKey (lic_LicenseKey l) in
  match LicenseKeyAEAD with
  | Some aead =>
      if negb (streq (lic_LicenseKey l) "") then
        ct ← map_err (ErrWrap "encrypt license key") (Encrypt aead (lic_LicenseKey l) id);
        mret (lic_set_key id hash ct l)
      else mret (lic_set_key id hash (lic_LicenseKeyEncrypted l) l)
  | None => mret (lic_set_key id hash (lic_LicenseKeyEncrypted l) l)
  end.

(** An instant whose column defaults to [now()]: the default replaces zero. *)
Definition or_now (now t : Time) : Time := if t =? 0 then now else t.

(** The row an INSERT stores: no relation, the defaults of the columns. *)
Definition lic_row (now : Time) (l : License) : License :=
  mkLicense (lic_ID l) (lic_ProductID l) (lic_PlanID l) (lic_UserID l) (lic_Email l)
    (lic_LicenseKey l) (lic_KeyHash l) (lic_LicenseKeyEncrypted l) (lic_PaymentProvider l)
    (lic_StripeCustomerID l) (lic_StripeSubscriptionID l) (lic_Status l) (or_now now (lic_ValidFrom l))
    (lic_ValidUntil l) (lic_CanceledAt l) (lic_SuspendedAt l) (lic_PastDueAt l) (lic_Notes l)
    (lic_OrgName l) (lic_ExternalCustomerID l) (lic_ExternalWorkspaceID l)
    (or_now now (lic_CreatedAt l)) (or_now now (lic_UpdatedAt l)) None None.

Definition insert_license (l : License) : M goerr unit :=
  t ← sql_now; sql_insert licenses (lic_ID l) (lic_row t l).

Definition CreateLicense (l : License) : M goerr License :=
  l ← prepareLicenseForInsert l;
  insert_license l ;;
  mret l.

Definition CreateLicenseWithSubscription (l : License) (plan : option Plan) : M goerr License :=
  l ← prepareLicenseForInsert l;
  with_tx (
    insert_license l ;;
    match plan with
    | Some plan =>
        if streq (plan_LicenseType plan) "subscription" || streq (plan_LicenseType plan) "trial" then
          id ← newID;
          sub ← (if streq (plan_LicenseType plan) "trial" && (0 <? plan_TrialDays plan) then
                   now ← time_Now;
                   mret (mkSubscription id (lic_ID l) (plan_ID plan) (lic_Status l) (Some now)
                     (Some (Add now (go_mul (go_mul (plan_TrialDays plan) 24) Hour))) 0 0)
                 else mret (mkSubscription id (lic_ID l) (plan_ID plan) (lic_Status l) None None 0 0));
          t ← sql_now;
          let sub := mkSubscription (sub_ID sub) (sub_LicenseID sub) (sub_PlanID sub) (sub_Status sub)
            (sub_TrialStart sub) (sub_TrialEnd sub) (or_now t (sub_CreatedAt sub)) (or_now t (sub_UpdatedAt sub)) in
          sql_insert subscriptions (sub_ID sub) sub
        else mret tt
    | None => mret tt
    end ;;
    commit_tx) ;;
  mret l.
End encryption.

Definition UpdateLicense (l : License) (cols : list LicCol) : M goerr unit :=
  now ← time_Now;
  let l := lic_set_UpdatedAt now l in
  sql_update_checked licenses (lic_ID l) (lic_assign_cols l (app cols [ColUpdatedAt])) ;;
  mret tt.

(** The transaction of [UpdateLicenseAndSubscription]: the failure of the
    subscription statement is logged and the commit attempted. *)
Definition UpdateLicenseAndSubscription (lic : License) (cols : list LicCol) : M goerr unit :=
  with_tx (
    now ← time_Now;
    let lic := lic_set_UpdatedAt now lic in
    sql_update_checked licenses (lic_ID lic) (lic_assign_cols lic (app cols [ColUpdatedAt])) ;;
    t ← sql_now;
    r ← attempt (sql_update_c subscriptions
      (fun r => streq (sub_LicenseID r) (lic_ID lic) && negb (streq (sub_Status r) (lic_Status lic)))
      (sub_set_Status (lic_Status lic) t));
    match r with
    | Err _ => emit (EvWarn "sync subscription status failed")
    | Ok _ => mret tt
    end ;;
    commit_tx).

Definition UpdateLicenseUser (licenseID userID : string) : M goerr unit :=
  sql_update licenses (fun l => streq (lic_ID l) licenseID) (fun l =>
    mkLicense (lic_ID l) (lic_ProductID l) (lic_PlanID l) userID (lic_Email l)
      (lic_LicenseKey l) (lic_KeyHash l) (lic_LicenseKeyEncrypted l) (lic_PaymentProvider l)
      (lic_StripeCustomerID l) (lic_StripeSubscriptionID l) (lic_Status l) (lic_ValidFrom l)
      (lic_ValidUntil l) (lic_CanceledAt l) (lic_SuspendedAt l) (lic_PastDueAt l) (lic_Notes l)
      (lic_OrgName l) (lic_ExternalCustomerID l) (lic_ExternalWorkspaceID l) (lic_CreatedAt l)
      (lic_UpdatedAt l) (lic_Product l) (lic_Plan l)) ;;
  mret tt.

(** ** Lifecycle changes ([store/admin.go]) *)

Definition lic_set_suspension (status : string) (suspended canceled : option Time) (now : Time) (l : License)
    : License :=
  mkLicense (lic_ID l) (lic_ProductID l) (lic_PlanID l) (lic_UserID l) (lic_Email l)
    (lic_LicenseKey l) (lic_KeyHash l) (lic_LicenseKeyEncrypted l) (lic_PaymentProvider l)
    (lic_StripeCustomerID l) (lic_StripeSubscriptionID l) status (lic_ValidFrom l)
    (lic_ValidUntil l) canceled suspended (lic_PastDueAt l) (lic_Notes l)
    (lic_OrgName l) (lic_ExternalCustomerID l) (lic_ExternalWorkspaceID l) (lic_CreatedAt l)
    now (lic_Product l) (lic_Plan l).

(** [UPDATE subscriptions SET status = ?, updated_at = now() WHERE license_id = ?] *)
Definition set_subscription_status (status licenseID : string) : M goerr Z :=
  t ← sql_now;
  sql_update_c subscriptions (fun r => streq (sub_LicenseID r) licenseID) (sub_set_Status status t).

Definition delete_activations_of (licenseID : string) : M goerr Z :=
  sql_delete activations (fun a => streq (act_LicenseID a) licenseID).

Definition RevokeLicense (id : string) : M goerr unit :=
  ignore (delete_activations_of id) ;;
  now ← time_Now;
  n ← sql_update licenses (fun l => streq (lic_ID l) id) (lic_set_status StatusRevoked now);
  must_affect n (fun n => negb (n =? 0)) (ErrText "license not found") ;;
  ignore (set_subscription_status StatusRevoked id).

Definition RevokeLicenseWithAudit (id actorID ip : string) : M goerr unit :=
  RunAuditedMutation
    (Some (mkAuditLog "" "license" id "revoked" actorID "admin" ∅ ip 0))
    (delete_activations_of id ;;
     now ← time_Now;
     n ← sql_update licenses (fun l => streq (lic_ID l) id) (lic_set_status StatusRevoked now);
     must_affect n (fun n => negb (n =? 0)) (ErrText "license not found") ;;
     set_subscription_status StatusRevoked id ;;
     mret tt).

Definition SuspendLicense (id : string) : M goerr unit :=
  now ← time_Now;
  n ← sql_update licenses (fun l => streq (lic_ID l) id)
        (fun l => lic_set_suspension StatusSuspended (Some now) (lic_CanceledAt l) now l);
  must_affect n (fun n => negb (n =? 0)) (ErrText "license not found") ;;
  ignore (set_subscription_status StatusSuspended id).

Definition ReinstateLicense (id : string) : M goerr unit :=
  now ← time_Now;
  n ← sql_update licenses
        (fun l => streq (lic_ID l) id
                  && contains (lic_Status l) [StatusSuspended; StatusExpired; StatusCanceled])
        (lic_set_suspension StatusActive None None now);
  must_affect n (fun n => negb (n =? 0))
    (ErrText "license not found or cannot be reinstated from current status") ;;
  ignore (set_subscription_status StatusActive id).

(** ** Queries of the expiry job *)

Definition DeleteExpiredActivations : M goerr Z := stmt (fun db =>
  let dead a := row_exists (fun l => streq (lic_ID l) (act_LicenseID a)
                  && contains (lic_Status l) [StatusExpired; StatusRevoked]) (db_licenses db) in
  Ok (count dead (db_activations db), t_set activations (delete_rows dead (db_activations db)) db)).

(** [UPDATE subscriptions ... FROM licenses l WHERE ...]: licence ids are
    primary keys, so at most one licence matches a subscription. *)
Definition SyncSubscriptionStatuses : M goerr unit :=
  t ← sql_now;
  stmt (fun db =>
    let terminal r := match db_licenses db !! sub_LicenseID r with
      | Some l => negb (streq (sub_Status r) (lic_Status l))
                  && contains (lic_Status l) [StatusExpired; StatusCanceled; StatusRevoked]
      | None => false
      end in
    let sync r := match db_licenses db !! sub_LicenseID r with
      | Some l => sub_set_Status (lic_Status l) t r
      | None => r
      end in
    Ok (tt, t_set subscriptions (update_rows terminal sync (db_subscriptions db)) db)).

(** ** Activations *)

Definition act_with (id : string) (now : Time) (a : Activation) : Activation :=
  mkActivation id (act_LicenseID a) (act_Identifier a) (act_IdentifierType a) (act_Label a)
    (act_IPAddress a) now now.

Definition insert_activation (a : Activation) : M goerr unit :=
  now ← sql_now;
  sql_insert activations (act_ID a) (act_with (act_ID a) now a).

Definition CreateActivation (a : Activation) : M goerr unit :=
  id ← fresh_id (act_ID a);
  insert_activation (act_with id 0 a).

Definition of_license (licenseID : string) (a : Activation) : bool := streq (act_LicenseID a) licenseID.

Definition FindActivation (licenseID identifier : string) : M goerr Activation :=
  sql_select_one activations (fun a => of_license licenseID a && streq (act_Identifier a) identifier).

Definition TouchActivation (id : string) : M goerr unit :=
  now ← sql_now;
  sql_update activations (fun a => streq (act_ID a) id) (act_set_LastVerified now) ;;
  mret tt.

Definition DeleteActivation (id : string) : M goerr unit :=
  sql_delete activations (fun a => streq (act_ID a) id) ;; mret tt.

Definition CountActivations (licenseID : string) : M goerr Z :=
  sql_count activations (of_license licenseID).

Definition ActivateWithinLimit (act : Activation) (maxActivations : Z) : M goerr unit :=
  id ← fresh_id (act_ID act);
  let act := act_with id 0 act in
  with_tx (
    sql_lock ;;
    count ← sql_count activations (of_license (act_LicenseID act));
    if maxActivations <=? count then throw (ErrText "activation limit reached")
    else insert_activation act ;; commit_tx).
End store.

(** ** Lemmas *)

Lemma streq_neq s t : s <> t -> streq s t = false.
Proof. by rewrite streq_false. Qed.

(** The number of activations of a licence is at most [bound]. *)
Definition activations_within (licenseID : string) (bound : Z) (db : DB) : Prop :=
  count (of_license licenseID) (db_activations db) <= bound.

Section activation.
Context `{UUIDs}.

Lemma keeps_fresh_id {E} I id : keeps (E := E) I (fresh_id id).
Proof. unfold fresh_id. keeps_go. Qed.

Lemma insert_activation_within l bound P a :
  (forall db, P db -> act_LicenseID a = l -> count (of_license l) (db_activations db) < bound) ->
  hoare (activations_within l bound) P (insert_activation a) (fun _ _ => True).
Proof.
  intros Hb. apply hoare_bind_still; [auto with licensehub| |done]. intros now.
  apply hoare_insert. intros db Hi Hp Hk _ _. unfold activations_within in *. simpl in Hk |- *.
  rewrite count_insert_fresh by done. unfold of_license at 2, act_with. simpl.
  destruct (decide (act_LicenseID a = l)) as [E|E].
  - specialize (Hb db Hp E). rewrite (proj2 (streq_true _ _) E). simpl. lia.
  - rewrite (streq_neq _ _ E). simpl. lia.
Qed.

Lemma ActivateWithinLimit_keeps l bound act max :
  (act_LicenseID act = l -> max <= bound) ->
  keeps (activations_within l bound) (ActivateWithinLimit act max).
Proof.
  intros Hb. apply keeps_bind; [apply keeps_fresh_id|]. intros id. cbv zeta.
  apply keeps_with_tx, hoare_keeps.
  eapply hoare_bind; [apply hoare_lock| |done]. intros [].
  eapply hoare_bind; [apply hoare_count| |done]. intros n. simpl.
  destruct (max <=? n) eqn:E.
  - eapply hoare_weaken; [apply hoare_throw|done|done].
  - eapply hoare_bind; [apply insert_activation_within| |done].
    + intros db [_ En] El. bool_facts. simpl in El, En, E. specialize (Hb El). rewrite El in En. lia.
    + intros []. apply hoare_drop, keeps_commit.
Qed.
End activation.

(** ** [ActivateWithinLimit] in a quiet world, and what its success means *)

Section activation_runs.
Context `{UUIDs}.

Definition stored_id (id : string) (w : World) : string :=
  if bool_decide (id = "") then uuid_nth (w_ids w) else id.

Lemma fresh_id_run {E} id w :
  exists w', fresh_id (E := E) id w = (Ok (stored_id id w), w') /\
    w_db w' = w_db w /\ w_tx w' = w_tx w /\ w_faults w' = w_faults w /\ w_clock w' = w_clock w /\
    w_rand w' = w_rand w.
Proof. unfold fresh_id, stored_id. case_bool_decide; by eexists. Qed.

Lemma ActivateWithinLimit_quiet act max w :
  quiet w ->
  exists r t w', ActivateWithinLimit act max w = (r, w') /\ quiet w' /\ w_clock w <= t /\
    w_clock w <= w_clock w' /\ w_rand w' = w_rand w /\
    if max <=? count (of_license (act_LicenseID act)) (db_activations (w_db w))
    then r = Err (ErrText "activation limit reached") /\ w_db w' = w_db w
    else let id := stored_id (act_ID act) w in
         match insert_row activations id (act_with id t act) (w_db w) with
         | Ok (_, db') => r = Ok tt /\ w_db w' = db'
         | Err e => r = Err e /\ w_db w' = w_db w
         end.
Proof.
  intros [Hf Ht]. unfold ActivateWithinLimit, mbind, M_bind.
  destruct (fresh_id_run (E := goerr) (act_ID act) w) as (w1 & -> & D1 & T1 & F1 & C1 & R1). cbv zeta.
  set (id := stored_id (act_ID act) w). unfold with_tx, mbind, M_bind, defer_rollback.
  assert (calm w1) as Hc1 by (unfold calm; by rewrite F1, T1, Hf, Ht).
  rewrite begin_calm by done. destruct (tick w1) as [t ds] eqn:Et. apply tick_later in Et.
  set (w2 := set_tx _ _).
  assert (calm w2) as Hc2 by (split; [simpl; congruence|done]).
  unfold sql_lock. rewrite stmt_calm by done. cbv beta iota. rewrite set_db_same.
  unfold sql_count. rewrite stmt_calm by done. cbv beta iota. rewrite set_db_same.
  change (w_db w2) with (w_db w1). cbn [t_get activations].
  change (act_LicenseID (act_with id 0 act)) with (act_LicenseID act). rewrite D1.
  destruct (max <=? _).
  - exists (Err (ErrText "activation limit reached")), t. eexists. split; [reflexivity|]. simpl.
    rewrite D1. repeat split; try done; try lia; simpl; congruence.
  - unfold insert_activation, sql_now, mbind, M_bind.
    change (w_tx w2) with (Some (mkTx (w_db w1) false t)). cbv beta iota. cbn [tx_now].
    unfold sql_insert. rewrite stmt_calm by done. change (w_db w2) with (w_db w1). rewrite D1.
    change (act_with (act_ID (act_with id 0 act)) t (act_with id 0 act)) with (act_with id t act).
    change (act_ID (act_with id 0 act)) with id.
    destruct (insert_row activations id (act_with id t act) (w_db w)) as [[u db']|e] eqn:Ei.
    + rewrite (commit_calm _ (mkTx (w_db w1) false t)); [|split; [simpl; congruence|done]|done].
      change (rollback_w _) with (set_tx None (set_db db' w2)).
      exists (Ok tt), t. eexists. split; [reflexivity|]. rewrite Ei. simpl.
      repeat split; try done; try lia; simpl; congruence.
    + assert (forall b : bool, rollback_w (if b then fail_tx w2 else w2) = set_tx None (set_db (w_db w1) w2)) as ->
        by by intros [].
      exists (Err e), t. eexists. split; [reflexivity|]. rewrite Ei. simpl. rewrite D1.
      repeat split; try done; try lia; simpl; congruence.
Qed.

(** When [ActivateWithinLimit] reports success the activation is stored. *)
Lemma ActivateWithinLimit_Ok act max w w' :
  ActivateWithinLimit act max w = (Ok tt, w') ->
  exists k a, db_activations (w_db w') !! k = Some a /\
    act_LicenseID a = act_LicenseID act /\ act_Identifier a = act_Identifier act.
Proof.
  unfold ActivateWithinLimit. intros Hr. inv_ok.
  apply with_tx_Ok in Hr as (w1 & wb & Hb & -> & _ & _). inv_ok.
  match goal with n : Z |- _ => destruct (max <=? n); inv_ok end.
  unfold insert_activation in *. inv_ok.
  match goal with Hi : sql_insert _ _ _ _ = _, Hc : commit_tx _ = _ |- _ => unfold sql_insert in Hi;
    apply stmt_Ok in Hi as (Hi & Htx & Hfl & _); apply insert_row_Ok in Hi as (_ & _ & _ & Hdb);
    apply commit_Ok in Hc; [|unfold tx_ok in *; by rewrite Htx] ; rewrite Hc, Hdb end.
  eexists _, _. split; [apply lookup_insert_eq|]. done.
Qed.
End activation_runs.
