(* ===== verification/Webhook.v ===== *)
(** * Webhook delivery ([service/webhook.go], [store/webhook.go])

    Dispatch of an event to the subscribed webhooks, one delivery attempt and
    its retry schedule, the retry loop's pass and the admin's redispatch.  The
    goroutine started for a delivery is the event [EvDeliver]; the attempt it
    makes is [deliver], given what the HTTP exchange returned. *)

From S2P Require Import Prelude GoStrings Errors Model Crypto Lockout World Tables Logic Store.
From Stdlib Require Import Ascii String.

#[local] Open Scope string_scope.
#[local] Open Scope Z_scope.

(** ** Store *)

Definition wd_with (id : string) (now : Time) (d : WebhookDelivery) : WebhookDelivery :=
  mkDelivery id (wd_WebhookID d) (wd_Event d) (wd_Payload d) (wd_ResponseCode d) (wd_ResponseBody d)
    (wd_Attempts d) (wd_NextRetry d) (wd_Status d) now (wd_DeliveredAt d).

Section store.
Context `{UUIDs}.

Definition FindWebhookByID (id : string) : M goerr Webhook :=
  sql_select_one webhooks (fun w => streq (wh_ID w) id).

Definition FindWebhooksForEvent (productID event : string) : M goerr (list Webhook) :=
  sql_select webhooks (fun w => streq (wh_ProductID w) productID && wh_Active w && contains event (wh_Events w)).

Definition CreateWebhookDelivery (d : WebhookDelivery) : M goerr WebhookDelivery :=
  id ← fresh_id (wd_ID d);
  now ← sql_now;
  sql_insert webhook_deliveries id (wd_with id now d) ;;
  mret (wd_with id now d).

Definition UpdateWebhookDelivery (d : WebhookDelivery) : M goerr unit :=
  sql_update_checked webhook_deliveries (wd_ID d) (fun _ => d) ;; mret tt.

Definition ListPendingDeliveries (limit : nat) : M goerr (list WebhookDelivery) :=
  now ← time_Now;
  sql_select_ordered webhook_deliveries
    (fun d => streq (wd_Status d) "pending"
              && match wd_NextRetry d with None => true | Some t => t <=? now end)
    wd_CreatedAt limit.

Definition FindWebhookDeliveryByID (id : string) : M goerr WebhookDelivery :=
  sql_select_one webhook_deliveries (fun d => streq (wd_ID d) id).
End store.

(** ** Retry schedule *)

Definition wd_set_schedule (status : string) (next : option Time) (d : WebhookDelivery) : WebhookDelivery :=
  mkDelivery (wd_ID d) (wd_WebhookID d) (wd_Event d) (wd_Payload d) (wd_ResponseCode d) (wd_ResponseBody d)
    (wd_Attempts d) next status (wd_CreatedAt d) (wd_DeliveredAt d).

(** [time.Duration(1<<uint(d.Attempts)) * 30 * time.Second]. *)
Definition retry_backoff (attempts : Z) : Duration :=
  go_mul (go_mul (wrap64 (Z.shiftl 1 attempts)) 30) Second.

Definition scheduleRetry {E} (maxRetries : Z) (d : WebhookDelivery) : M E WebhookDelivery :=
  if maxRetries <=? wd_Attempts d then
    metric "webhook_deliveries" ["failed"] ;;
    mret (wd_set_schedule "failed" (wd_NextRetry d) d)
  else
    now ← time_Now;
    metric "webhook_deliveries" ["retrying"] ;;
    mret (wd_set_schedule "pending" (Some (Add now (retry_backoff (wd_Attempts d)))) d).

Definition wd_set_response (code : Z) (body : string) (d : WebhookDelivery) : WebhookDelivery :=
  mkDelivery (wd_ID d) (wd_WebhookID d) (wd_Event d) (wd_Payload d) code body
    (wd_Attempts d + 1) (wd_NextRetry d) (wd_Status d) (wd_CreatedAt d) (wd_DeliveredAt d).

Definition wd_set_delivered (now : Time) (d : WebhookDelivery) : WebhookDelivery :=
  mkDelivery (wd_ID d) (wd_WebhookID d) (wd_Event d) (wd_Payload d) (wd_ResponseCode d) (wd_ResponseBody d)
    (wd_Attempts d) (wd_NextRetry d) "delivered" (wd_CreatedAt d) (Some now).

(** What [http.NewRequest] and [client.Do] gave: an error, or a response's
    status code and the first 4096 bytes of its body. *)
Inductive http_reply := HttpError (msg : string) | HttpResponse (code : Z) (body : string).

Section deliver.
Context (maxRetries : Z).

(** The struct [failDelivery] and [deliver] leave for the final UPDATE. *)
Definition failed_attempt {E} (d : WebhookDelivery) (code : Z) (body : string) : M E WebhookDelivery :=
  scheduleRetry maxRetries (wd_set_response code body d).

Definition failDelivery {E} (d : WebhookDelivery) (code : Z) (body : string) : M E unit :=
  d ← failed_attempt d code body;
  ignore (UpdateWebhookDelivery d).

Definition answered_attempt {E} (code : Z) (body : string) (delivery : WebhookDelivery) : M E WebhookDelivery :=
  let delivery := wd_set_response code body delivery in
  if (200 <=? code) && (code <? 300) then
    now ← time_Now;
    metric "webhook_deliveries" ["delivered"] ;;
    mret (wd_set_delivered now delivery)
  else scheduleRetry maxRetries delivery.

Definition deliver {E} (reply : http_reply) (delivery : WebhookDelivery) : M E unit :=
  match reply with
  | HttpError msg => failDelivery delivery 0 msg
  | HttpResponse code body =>
      delivery ← answered_attempt code body delivery;
      ignore (UpdateWebhookDelivery delivery)
  end.

(** The struct after an attempt. *)
Definition attempted {E} (reply : http_reply) (d : WebhookDelivery) : M E WebhookDelivery :=
  match reply with
  | HttpError msg => failed_attempt d 0 msg
  | HttpResponse code body => answered_attempt code body d
  end.

Lemma deliver_attempted {E} reply d :
  deliver (E := E) reply d = (d ← attempted reply d; ignore (UpdateWebhookDelivery d)).
Proof. by destruct reply. Qed.

(** A delivery as its attempts go: created pending, attempted while pending
    ([ListPendingDeliveries] returns no other). *)
Inductive delivery_reachable : WebhookDelivery -> Prop :=
  | dr_created d : wd_Status d = "pending" -> wd_Attempts d = 0 -> wd_NextRetry d = None ->
      delivery_reachable d
  | dr_attempt d reply w w' d' :
      delivery_reachable d -> wd_Status d = "pending" ->
      attempted (E := goerr) reply d w = (Ok d', w') -> delivery_reachable d'.

Definition delivery_ok (d : WebhookDelivery) : Prop :=
  0 <= wd_Attempts d <= Z.max 1 maxRetries /\
  contains (wd_Status d) ["pending"; "delivered"; "failed"] = true /\
  (wd_Status d = "pending" -> wd_Attempts d < Z.max 1 maxRetries) /\
  (wd_Status d = "failed" -> maxRetries <= wd_Attempts d) /\
  (wd_Status d = "delivered" -> exists t, wd_DeliveredAt d = Some t).
End deliver.

(** The signature header of a delivery. *)
Definition signPayload (payload secret : string) : string := hex_EncodeToString (hmac_sha256 secret payload).

(** ** Dispatch *)

Section dispatch.
Context `{UUIDs}.

Definition start_delivery {E} (payload : WebhookPayload) (event : string) (wh : Webhook) : M E unit :=
  r ← attempt (CreateWebhookDelivery
        (mkDelivery "" (wh_ID wh) event payload 0 "" 0 None "pending" 0 None));
  match r with
  | Err _ => emit (EvWarn "webhook delivery create failed")
  | Ok d => emit (EvDeliver (wh_ID wh) (wd_ID d))
  end.

Definition DispatchWithLog (productID event : string) (data : gmap string any) : M goerr unit :=
  webhooks ← map_err (ErrWrap "find webhooks") (FindWebhooksForEvent productID event);
  match webhooks with
  | [] => mret tt
  | _ =>
      now ← time_Now;
      for_each webhooks (start_delivery (mkPayload event now data) event)
  end.

Definition Dispatch {E} (productID event : string) (data : gmap string any) : M E unit :=
  r ← attempt (DispatchWithLog productID event data);
  match r with
  | Err _ => emit (EvWarn "webhook dispatch failed")
  | Ok _ => mret tt
  end.

Definition Redispatch (deliveryID : string) : M goerr WebhookDelivery :=
  orig ← FindWebhookDeliveryByID deliveryID;
  wh ← map_err (fun _ => ErrWebhookDeliveryNotResendable) (FindWebhookByID (wd_WebhookID orig));
  if negb (wh_Active wh) then throw ErrWebhookDeliveryNotResendable
  else
    fresh ← CreateWebhookDelivery
      (mkDelivery "" (wh_ID wh) (wd_Event orig) (wd_Payload orig) 0 "" 0 None "pending" 0 None);
    emit (EvDeliver (wh_ID wh) (wd_ID fresh)) ;;
    mret fresh.

Definition retry_one {E} (d : WebhookDelivery) : M E unit :=
  r ← attempt (FindWebhookByID (wd_WebhookID d));
  match r with
  | Err _ => mret tt
  | Ok wh => emit (EvDeliver (wh_ID wh) (wd_ID d))
  end.

Definition ProcessRetries {E} : M E unit :=
  r ← attempt (ListPendingDeliveries 50);
  match r with
  | Err _ => mret tt
  | Ok deliveries => for_each deliveries retry_one
  end.

Lemma keeps_Dispatch {E} I productID event data :
  ignores_table I webhook_deliveries -> keeps (E := E) I (Dispatch productID event data).
Proof.
  intros Hi. unfold Dispatch, DispatchWithLog, start_delivery, CreateWebhookDelivery, FindWebhooksForEvent, fresh_id.
  repeat (keeps_step || (apply keeps_insert_ignored; done)).
Qed.
End dispatch.

(** ** Lemmas *)

Lemma retry_backoff_exact n :
  0 <= n <= 28 -> retry_backoff n = 2 ^ n * (30 * Second).
Proof.
  intros Hn. unfold retry_backoff, go_mul, Second. rewrite Z.shiftl_1_l.
  assert (1 <= 2 ^ n <= 2 ^ 28) by (split; [change 1 with (2 ^ 0)|]; apply Z.pow_le_mono_r; lia).
  rewrite (wrap64_id (2 ^ n)) by (unfold int64_min, int64_max; lia).
  rewrite (wrap64_id (2 ^ n * 30)) by (unfold int64_min, int64_max; lia).
  rewrite wrap64_id by (unfold int64_min, int64_max; lia). lia.
Qed.

(** What an attempt leaves in the struct. *)
Lemma attempted_spec maxRetries reply d w d' w' :
  attempted (E := goerr) maxRetries reply d w = (Ok d', w') ->
  wd_Attempts d' = wd_Attempts d + 1 /\ wd_ID d' = wd_ID d /\
  exists now, w_clock w <= now /\
  ((wd_Status d' = "delivered" /\ wd_DeliveredAt d' = Some now /\
    exists code body, reply = HttpResponse code body /\ 200 <= code < 300) \/
   (wd_Status d' = "failed" /\ maxRetries <= wd_Attempts d') \/
   (wd_Status d' = "pending" /\ wd_Attempts d' < maxRetries /\
    wd_NextRetry d' = Some (Add now (retry_backoff (wd_Attempts d'))))).
Proof.
  assert (forall code body, scheduleRetry (E := goerr) maxRetries (wd_set_response code body d) w = (Ok d', w') ->
    wd_Attempts d' = wd_Attempts d + 1 /\ wd_ID d' = wd_ID d /\
    exists now, w_clock w <= now /\
    ((wd_Status d' = "failed" /\ maxRetries <= wd_Attempts d') \/
     (wd_Status d' = "pending" /\ wd_Attempts d' < maxRetries /\
      wd_NextRetry d' = Some (Add now (retry_backoff (wd_Attempts d')))))) as Hsched.
  { intros code body. unfold scheduleRetry, metric, emit, modify, mbind, M_bind, time_Now.
    destruct (maxRetries <=? _) eqn:E.
    - intros [= <- _]. bool_facts. repeat split; try done. exists (w_clock w). split; [lia|]. left.
      split; [done|]. simpl in *. lia.
    - destruct (tick w) as [now ds] eqn:Et. intros [= <- _]. bool_facts. repeat split; try done.
      exists now. split; [by eapply tick_later|]. right. simpl in *. repeat split; lia. }
  destruct reply as [msg|code body]; simpl.
  - intros H. destruct (Hsched _ _ H) as (Ha & Hid & now & Hn & Hc). eauto 10.
  - unfold answered_attempt. destruct (_ && _) eqn:Ec.
    + unfold metric, emit, modify, mbind, M_bind, time_Now. destruct (tick w) as [now ds] eqn:Et.
      intros [= <- _]. bool_facts. repeat split; try done. exists now. split; [by eapply tick_later|].
      left. repeat split; try done. exists code, body. split; [done|lia].
    + intros H. destruct (Hsched _ _ H) as (Ha & Hid & now & Hn & Hc). eauto 10.
Qed.

(** ** Properties *)

(** Webhook_retries: a delivery is attempted at most [maxRetries] times (once
    at least); it is pending while attempts are left, ends delivered after a
    2xx answer or failed when the attempts are used up, and is not attempted
    again then. *)
Theorem delivery_attempts_bounded maxRetries d :
  delivery_reachable maxRetries d -> delivery_ok maxRetries d.
Proof.
  induction 1 as [d Hs Ha _|d reply w w' d' _ IH Hp Ht].
  - unfold delivery_ok. rewrite Hs, Ha. repeat split; try lia; try done.
  - destruct IH as (Hb & _ & Hpend & _). specialize (Hpend Hp).
    apply attempted_spec in Ht as (Ha & _ & now & _ & Hc). unfold delivery_ok. rewrite Ha.
    destruct Hc as [(-> & -> & _)|[(-> & Hm)|(-> & Hm & _)]]; repeat split; try lia; try done; eauto.
Qed.

(** Webhook_backoff: when an attempt fails with attempts left, the next one is
    scheduled 30 seconds, doubled at each attempt, after the failure: no
    earlier, and without overflow for up to 28 retries. *)
Theorem retry_schedule maxRetries reply d w d' w' :
  0 <= wd_Attempts d -> maxRetries <= 29 ->
  attempted (E := goerr) maxRetries reply d w = (Ok d', w') -> wd_Status d' = "pending" ->
  exists now, w_clock w <= now /\ wd_NextRetry d' = Some (now + 30 * Second * 2 ^ (wd_Attempts d + 1)).
Proof.
  intros Hd Hm Ht Hp. apply attempted_spec in Ht as (Ha & _ & now & Hn & Hc).
  destruct Hc as [(E & _)|[(E & _)|(_ & Hlt & Hnext)]]; [by rewrite E in Hp..|].
  exists now. split; [done|]. rewrite Hnext, retry_backoff_exact by lia. unfold Add. rewrite Ha.
  do 2 f_equal. lia.
Qed.

(** ** Instances *)

Definition demo_payload : WebhookPayload := mkPayload "license.activated" 0 ∅.
Definition demo_delivery : WebhookDelivery :=
  mkDelivery "d1" "wh1" "license.activated" demo_payload 0 "" 0 None "pending" 0 None.
Definition demo_world : World := mkWorld empty_db None (1000 * Second) [] [] false 0 [] ∅ [].

Lemma delivery_attempts_bounded_witness :
  match fst (attempted (E := goerr) 1 (HttpResponse 500 "") demo_delivery demo_world) with
  | Ok d => wd_Status d = "failed" /\ delivery_ok 1 d
  | Err _ => False
  end.
Proof.
  split; [reflexivity|]. apply delivery_attempts_bounded.
  eapply (dr_attempt 1 demo_delivery (HttpResponse 500 "") demo_world);
    [apply dr_created; reflexivity | reflexivity | reflexivity].
Defined.

Lemma retry_schedule_witness :
  exists now, 1000 * Second <= now /\
    wd_NextRetry (wd_set_schedule "pending" (Some (1060 * Second)) (wd_set_response 0 "refused" demo_delivery))
    = Some (now + 30 * Second * 2 ^ (0 + 1)).
Proof.
  refine (retry_schedule 3 (HttpError "refused") demo_delivery demo_world _
    (set_events [EvMetric "webhook_deliveries" ["retrying"]] demo_world) _ _ _ _);
    [vm_compute; congruence | vm_compute; congruence | vm_compute; reflexivity | reflexivity].
Defined.
