(* ===== verification/LicenseService.v ===== *)
(** * Activation, verification and offline leases ([service/license.go])

    The public SDK endpoints of a licence key: [Activate], [Verify],
    [Deactivate], the lease operations on a signed token, and the lookup
    shared by the other services.  The failure tracker is the interface the
    source declares; the in-memory lockout of [Lockout.v] implements it. *)

From S2P Require Import Prelude GoStrings Errors Model Crypto KeyGen Lockout World Tables Logic Token Usability Store.
From S2P Require Import Webhook.
From Stdlib Require Import Ascii String.

#[local] Open Scope string_scope.
#[local] Open Scope Z_scope.

(** ** [FailureTracker]

    Its operations have no error to return, and leave the database alone. *)

(** [m] has a result in every world. *)
Definition answers {E A} (m : M E A) : Prop := forall w, exists a w', m w = (Ok a, w').

Record FailureTracker := {
  ft_RecordFailure : string -> M error unit;
  ft_RecordSuccess : string -> M error unit;
  ft_IsBlocked : string -> M error (bool * Duration);
  ft_RecordFailure_still key : still (ft_RecordFailure key);
  ft_RecordSuccess_still key : still (ft_RecordSuccess key);
  ft_IsBlocked_still key : still (ft_IsBlocked key);
  ft_RecordFailure_answers key : answers (ft_RecordFailure key);
  ft_RecordSuccess_answers key : answers (ft_RecordSuccess key);
  ft_IsBlocked_answers key : answers (ft_IsBlocked key)
}.

Section memory_tracker.
Context (cfg : BFConfig).

Definition bf_RecordFailure (key : string) : M error unit :=
  now ← time_Now;
  modify (fun w => set_attempts (RecordFailure cfg now (bruteForceStateKey key) (w_attempts w)) w).
Definition bf_RecordSuccess (key : string) : M error unit :=
  modify (fun w => set_attempts (RecordSuccess (bruteForceStateKey key) (w_attempts w)) w).
Definition bf_IsBlocked (key : string) : M error (bool * Duration) :=
  now ← time_Now;
  gets (fun w => IsBlocked now (bruteForceStateKey key) (w_attempts w)).

Lemma bf_still :
  (forall key, still (bf_RecordFailure key)) /\ (forall key, still (bf_RecordSuccess key))
  /\ (forall key, still (bf_IsBlocked key)).
Proof.
  split; [|split]; intros key w; [..|]; cbv [bf_RecordFailure bf_RecordSuccess bf_IsBlocked mbind M_bind time_Now];
    try (destruct (tick w) eqn:Et; apply tick_later in Et); by repeat split.
Qed.

Lemma bf_answers :
  (forall key, answers (bf_RecordFailure key)) /\ (forall key, answers (bf_RecordSuccess key))
  /\ (forall key, answers (bf_IsBlocked key)).
Proof.
  split; [|split]; intros key w; cbv [bf_RecordFailure bf_RecordSuccess bf_IsBlocked mbind M_bind time_Now];
    try destruct (tick w); by eexists _, _.
Qed.

(** [*BruteForceProtection] without Redis. *)
Definition BruteForceProtection : FailureTracker := {|
  ft_RecordFailure := bf_RecordFailure;
  ft_RecordSuccess := bf_RecordSuccess;
  ft_IsBlocked := bf_IsBlocked;
  ft_RecordFailure_still := proj1 bf_still;
  ft_RecordSuccess_still := proj1 (proj2 bf_still);
  ft_IsBlocked_still := proj2 (proj2 bf_still);
  ft_RecordFailure_answers := proj1 bf_answers;
  ft_RecordSuccess_answers := proj1 (proj2 bf_answers);
  ft_IsBlocked_answers := proj2 (proj2 bf_answers)
|}.
End memory_tracker.

Lemma keeps_RecordFailure I ft key : keeps I (ft_RecordFailure ft key).
Proof. apply keeps_still, ft_RecordFailure_still. Qed.
Lemma keeps_RecordSuccess I ft key : keeps I (ft_RecordSuccess ft key).
Proof. apply keeps_still, ft_RecordSuccess_still. Qed.
Lemma keeps_IsBlocked I ft key : keeps I (ft_IsBlocked ft key).
Proof. apply keeps_still, ft_IsBlocked_still. Qed.
#[export] Hint Resolve keeps_RecordFailure keeps_RecordSuccess keeps_IsBlocked : licensehub.

(** ** The service *)

Record LicenseService := mkLicenseService {
  ls_signingKey : string;
  ls_signingKeyID : string;
  ls_verificationKeys : gmap string string;
  ls_leaseTTL : Duration;
  ls_failures : option FailureTracker;
  ls_webhook : bool        (* whether the webhook service is set *)
}.

Definition NewLicenseService `{Ed25519} (signingKey signingKeyID : string)
    (verificationKeys : gmap string string) (leaseTTL : Duration) (failures : option FailureTracker)
    (webhook : bool) : LicenseService :=
  let leaseTTL := if leaseTTL <=? 0 then go_mul 72 Hour else leaseTTL in
  mkLicenseService signingKey signingKeyID (<[signingKeyID := PublicKey signingKey]> verificationKeys)
    leaseTTL failures webhook.

Definition licenseNotFound : error := AppErr (New 404 "LICENSE_NOT_FOUND" "license not found").
Definition lockedOut : error := AppErr (New 429 "LOCKED_OUT" "too many failed attempts").

Record LeaseInput := mkLeaseInput {
  li_Lease : string; li_ProductID : string; li_Identifier : string; li_IPAddress : string }.

Record ActivateInput := mkActivateInput {
  ai_LicenseKey : string; ai_Identifier : string; ai_IdentifierType : string; ai_Label : string;
  ai_IPAddress : string; ai_ProductID : string }.

Record ActivateResult := mkActivateResult {
  ar_Status : string; ar_LicenseID : string; ar_Token : string }.

Record VerifyInput := mkVerifyInput {
  vi_LicenseKey : string; vi_Identifier : string; vi_ProductID : string; vi_IPAddress : string }.

Record VerifyResult := mkVerifyResult {
  vr_Status : string; vr_PlanID : string; vr_PlanName : string; vr_ValidUntil : option Time;
  vr_Features : gmap string any; vr_Token : string; vr_GraceDays : Z;
  vr_ExternalCustomerID : string; vr_ExternalWorkspaceID : string }.

Record DeactivateInput := mkDeactivateInput {
  di_LicenseKey : string; di_Identifier : string; di_ProductID : string; di_IPAddress : string }.

Section service.
Context `{UUIDs} `{Ed25519} `{TokenJSON} (s : LicenseService).

(** ** The guards shared by the operations *)

Definition check_lockout (ip : string) : M error unit :=
  match ls_failures s with
  | None => mret tt
  | Some ft =>
      b ← ft_IsBlocked ft ("ip:" +:+ ip);
      if (b : bool * Duration).1 then throw lockedOut else mret tt
  end.

Definition record_failures (key ip : string) : M error unit :=
  match ls_failures s with
  | None => mret tt
  | Some ft => ft_RecordFailure ft ("key:" +:+ key) ;; ft_RecordFailure ft ("ip:" +:+ ip)
  end.

Definition record_successes (key ip : string) : M error unit :=
  match ls_failures s with
  | None => mret tt
  | Some ft => ft_RecordSuccess ft ("key:" +:+ key) ;; ft_RecordSuccess ft ("ip:" +:+ ip)
  end.

(** The lookup at the head of [Activate], [Verify] and [Deactivate]: key,
    product scope, product capability. *)
Definition find_scoped (key productID ip hint : string) : M error License :=
  r ← attempt (FindLicenseByKey key);
  match r with
  | Err e =>
      if goerr_Is e ErrNoRows then record_failures key ip ;; throw licenseNotFound
      else throw (AppErr (Internal e))
  | Ok lic =>
      if negb (streq productID "") && negb (streq (lic_ProductID lic) productID)
      then record_failures key ip ;; throw licenseNotFound
      else match requireProductCapability (lic_Product lic) CapActivations hint with
           | Some e => throw e
           | None => mret lic
           end
  end.

Definition assert_usable (lic : License) : M error (option error) :=
  now ← time_Now; mret (assertUsable now lic).

Definition dispatch_if (productID event : string) (data : gmap string any) : M error unit :=
  if ls_webhook s then Dispatch productID event data else mret tt.

Definition token_payload (lic : License) (identifier : string) (now : Time) : VerifyToken :=
  mkToken 1 (ls_signingKeyID s) (lic_ID lic) (lic_ProductID lic) (lic_PlanID lic)
    (lic_Status lic) identifier (entitlementNames lic) (Unix now)
    (Unix (Add now (ls_leaseTTL s))) (graceDays lic) ""
    (Fingerprint identifier (lic_ProductID lic)).

Definition signToken (lic : License) (identifier : string) : M goerr string :=
  now ← time_Now;
  Sign (token_payload lic identifier now) (ls_signingKey s).

(** ** Activate *)

Definition device_audit (action licenseID ip : string) (changes : gmap string any) : AuditLog :=
  mkAuditLog "" "license" licenseID action "" "sdk" changes ip 0.

Definition already_activated (lic : License) (identifier : string) (existing : Activation)
    : M error ActivateResult :=
  ignore (TouchActivation (act_ID existing)) ;;
  metric "license_activations" [lic_ProductID lic; "already_activated"] ;;
  token ← internal (signToken lic identifier);
  mret (mkActivateResult "already_activated" (lic_ID lic) token).

Definition activation_failed (lic : License) (max : Z) (err : goerr) : M error ActivateResult :=
  if streq (goerr_Error err) "activation limit reached" then
    metric "license_activations" [lic_ProductID lic; "failed"] ;;
    r ← attempt (CountActivations (lic_ID lic));
    let count := match r with Ok n => n | Err _ => 0 end in
    throw (AppErr (WithDetails (Conflict "ACTIVATION_LIMIT" "maximum activations reached")
      {["max" := AnyInt max; "current" := AnyInt count]}))
  else throw (AppErr (Internal err)).

Definition activated (lic : License) (in_ : ActivateInput) (idtype : string) : M error ActivateResult :=
  Audit (device_audit "activated" (lic_ID lic) (ai_IPAddress in_)
    {["identifier" := AnyString (ai_Identifier in_); "type" := AnyString idtype;
      "label" := AnyString (ai_Label in_)]}) ;;
  record_successes (ai_LicenseKey in_) (ai_IPAddress in_) ;;
  metric "license_activations" [lic_ProductID lic; "activated"] ;;
  dispatch_if (lic_ProductID lic) "license.activated"
    {["license_id" := AnyString (lic_ID lic); "identifier" := AnyString (ai_Identifier in_);
      "type" := AnyString idtype]} ;;
  token ← internal (signToken lic (ai_Identifier in_));
  mret (mkActivateResult "activated" (lic_ID lic) token).

Definition Activate (in_ : ActivateInput) : M error ActivateResult :=
  check_lockout (ai_IPAddress in_) ;;
  let idtype := if streq (ai_IdentifierType in_) "" then "device" else ai_IdentifierType in_ in
  lic ← find_scoped (ai_LicenseKey in_) (ai_ProductID in_) (ai_IPAddress in_) "device activation";
  u ← assert_usable lic;
  match u with
  | Some e => throw e
  | None =>
      r ← attempt (FindActivation (lic_ID lic) (ai_Identifier in_));
      match r with
      | Ok existing => already_activated lic (ai_Identifier in_) existing
      | Err _ =>
          let max := maxActivations lic in
          let act := mkActivation "" (lic_ID lic) (ai_Identifier in_) idtype (ai_Label in_)
                       (ai_IPAddress in_) 0 0 in
          r ← attempt (ActivateWithinLimit act max);
          match r with
          | Err err => activation_failed lic max err
          | Ok _ => activated lic in_ idtype
          end
      end
  end.

(** ** Verify *)

Definition verified (lic : License) (in_ : VerifyInput) : M error VerifyResult :=
  record_successes (vi_LicenseKey in_) (vi_IPAddress in_) ;;
  let planName := match lic_Plan lic with Some p => plan_Name p | None => "" end in
  metric "license_verifications" [lic_ProductID lic; "valid"] ;;
  token ← internal (signToken lic (vi_Identifier in_));
  mret (mkVerifyResult (lic_Status lic) (lic_PlanID lic) planName (lic_ValidUntil lic)
    (entitlements lic) token (graceDays lic) (lic_ExternalCustomerID lic) (lic_ExternalWorkspaceID lic)).

Definition Verify (in_ : VerifyInput) : M error VerifyResult :=
  check_lockout (vi_IPAddress in_) ;;
  lic ← find_scoped (vi_LicenseKey in_) (vi_ProductID in_) (vi_IPAddress in_) "device verification";
  u ← assert_usable lic;
  match u with
  | Some _ =>
      record_failures (vi_LicenseKey in_) (vi_IPAddress in_) ;;
      metric "license_verifications" [lic_ProductID lic; "unusable"] ;;
      throw licenseNotFound
  | None =>
      r ← attempt (FindActivation (lic_ID lic) (vi_Identifier in_));
      match r with
      | Err _ =>
          metric "license_verifications" [lic_ProductID lic; "not_activated"] ;;
          throw licenseNotFound
      | Ok act =>
          ignore (TouchActivation (act_ID act)) ;;
          verified lic in_
      end
  end.

(** ** Deactivate *)

Definition Deactivate (in_ : DeactivateInput) : M error unit :=
  check_lockout (di_IPAddress in_) ;;
  lic ← find_scoped (di_LicenseKey in_) (di_ProductID in_) (di_IPAddress in_) "device deactivation";
  act ← map_err (fun _ => licenseNotFound) (FindActivation (lic_ID lic) (di_Identifier in_));
  internal (DeleteActivation (act_ID act)) ;;
  record_successes (di_LicenseKey in_) (di_IPAddress in_) ;;
  Audit (device_audit "deactivated" (lic_ID lic) (di_IPAddress in_)
    {["identifier" := AnyString (di_Identifier in_)]}) ;;
  dispatch_if (lic_ProductID lic) "license.deactivated"
    {["license_id" := AnyString (lic_ID lic); "identifier" := AnyString (di_Identifier in_)]}.

(** ** Leases *)

Definition verifyLeaseBinding (in_ : LeaseInput) : M error VerifyToken :=
  t ← map_err (fun _ => licenseNotFound) (VerifyWithKeyRing (li_Lease in_) (ls_verificationKeys s));
  if negb (tk_Version t =? 1) || negb (streq (tk_ProductID t) (li_ProductID in_))
     || negb (streq (tk_Identifier t) (li_Identifier in_))
  then throw licenseNotFound else mret t.

Definition licenseFromLease (in_ : LeaseInput) : M error License :=
  t ← map_err (fun _ => licenseNotFound) (verifyLeaseBinding in_);
  lic ← map_err (fun _ => licenseNotFound) (FindLicenseByID (tk_LicenseID t));
  if negb (streq (lic_ProductID lic) (li_ProductID in_)) then throw licenseNotFound
  else
    u ← assert_usable lic;
    match u with
    | Some _ => throw licenseNotFound
    | None => mret lic
    end.

Definition RefreshLease (in_ : LeaseInput) : M error string :=
  lic ← licenseFromLease in_;
  act ← map_err (fun _ => licenseNotFound) (FindActivation (lic_ID lic) (li_Identifier in_));
  ignore (TouchActivation (act_ID act)) ;;
  lift (signToken lic (li_Identifier in_)).

Definition DeactivateLease (in_ : LeaseInput) : M error unit :=
  lic ← licenseFromLease in_;
  act ← map_err (fun _ => licenseNotFound) (FindActivation (lic_ID lic) (li_Identifier in_));
  internal (DeleteActivation (act_ID act)) ;;
  Audit (device_audit "deactivated" (lic_ID lic) (li_IPAddress in_)
    {["identifier" := AnyString (li_Identifier in_)]}).
End service.

(** ** [loadLicenseForSDK] *)

Definition loadLicenseForSDK (key productID capability : string) (usabilityRequired : bool)
    : M error License :=
  r ← attempt (FindLicenseByKey key);
  match r with
  | Err e => if goerr_Is e ErrNoRows then throw licenseNotFound else throw (AppErr (Internal e))
  | Ok lic =>
      if negb (streq productID "") && negb (streq (lic_ProductID lic) productID) then throw licenseNotFound
      else if negb (streq capability "")
              && match lic_Product lic with
                 | None => true
                 | Some p => negb (ProductSupports (prod_Type p) capability)
                 end
      then throw licenseNotFound
      else if usabilityRequired then
        now ← time_Now;
        if negb (IsLicenseUsable now lic) then throw licenseNotFound else mret lic
      else mret lic
  end.
