(* ===== verification/Demo.v ===== *)
(** * A small catalogue the theorems are evaluated on

    Identifiers in sequence, a product of each kind with a plan, licences with
    a device, and a quiet world over them. *)

From S2P Require Import Prelude GoStrings Errors Model Crypto KeyGen Lockout World Tables.
From Stdlib Require Import Ascii String.

#[local] Open Scope string_scope.
#[local] Open Scope Z_scope.

Module Demo.
#[export] Instance uuids : UUIDs := fun n => "id-" +:+ pretty n.

Definition hybrid : Product := mkProduct "prod-1" "Editor" "editor" ProductTypeHybrid "" "" false 0.
Definition saas : Product := mkProduct "prod-2" "Portal" "portal" ProductTypeSaaS "" "" false 0.

Definition plan (id productID model : string) : Plan :=
  mkPlan id productID "Pro" "pro" "" "subscription" "month" 2 14 3 "" model 30 2 true 0 0 [].

Definition license (id productID planID key status : string) (until : option Time) : License :=
  mkLicense id productID planID "" (id +:+ "@example.com") key (HashKey key) "" "stripe" "" "" status 0
    until None None None "" "" "" "" 0 0 None None.

Definition activation (id licenseID device : string) : Activation :=
  mkActivation id licenseID device "device" "" "" 0 0.

Definition entitlement (id planID feature type value period : string) : Entitlement :=
  mkEntitlement id planID feature type value period "" "".

Definition db : DB := {|
  db_users := ∅;
  db_products := {["prod-1" := hybrid; "prod-2" := saas]};
  db_plans := {["plan-1" := plan "plan-1" "prod-1" "standard"; "plan-2" := plan "plan-2" "prod-2" "standard";
                "plan-3" := plan "plan-3" "prod-1" "floating"]};
  db_entitlements := {["ent-1" := entitlement "ent-1" "plan-1" "export" "quota" "10" "day";
                       "ent-2" := entitlement "ent-2" "plan-1" "sso" "bool" "true" ""]};
  db_licenses := {["lic-1" := license "lic-1" "prod-1" "plan-1" "KEY-1" StatusActive (Some (5000 * Second));
                   "lic-2" := license "lic-2" "prod-2" "plan-2" "KEY-2" StatusActive None;
                   "lic-3" := license "lic-3" "prod-1" "plan-3" "KEY-3" StatusActive None]};
  db_activations := {["act-1" := activation "act-1" "lic-1" "laptop"]};
  db_audit_logs := ∅; db_seats := ∅; db_usage_events := ∅; db_usage_counters := ∅;
  db_webhooks := ∅; db_webhook_deliveries := ∅; db_subscriptions := ∅; db_floating_sessions := ∅;
  db_addons := ∅; db_license_addons := ∅; db_metered_billing := ∅; db_idempotency_keys := ∅;
  db_notifications := ∅; db_refresh_tokens := ∅; db_otp_codes := ∅; db_releases := ∅; db_release_artifacts := ∅; db_signing_keys := ∅;
  db_processed_events := ∅; db_email_queue := ∅; db_api_keys := ∅;
  db_passkeys := ∅; db_webauthn_sessions := ∅; db_recovery_codes := ∅; db_audit_outbox := ∅; db_settings := ∅
|}.

Definition world_of (db : DB) : World :=
  mkWorld db None (1000 * Second) [5%N] [] false 0 (repeat "r"%char 64) ∅ [].
Definition world : World := world_of db.
End Demo.
