(* ===== verification/Lookup.v ===== *)
(** * Finding a licence ([FindLicenseByKey], [loadLicenseForSDK])

    What the lookups of a licence by its key return, and how a program that
    first reads outside a transaction is reasoned about. *)

From S2P Require Import Prelude GoStrings Errors Model Crypto KeyGen Lockout World Tables Logic Token Usability Store.
From S2P Require Import Webhook LicenseService.
From Stdlib Require Import Ascii String.

#[local] Open Scope string_scope.
#[local] Open Scope Z_scope.

(** ** Lookup *)

(** The licence a key names: by hash first, else by the plain key. *)
Definition lookup_license (db : DB) (key : string) : option License :=
  match first_row (rows (fun l => streq (lic_KeyHash l) (HashKey key)) (db_licenses db)) with
  | Some l => Some (load_license db l)
  | None => load_license db <$> first_row (rows (fun l => streq (lic_LicenseKey l) key) (db_licenses db))
  end.

(** A stored licence whose key or key hash is the given key's. *)
Definition found (key : string) (db : DB) (lic : License) : Prop :=
  exists k l, db_licenses db !! k = Some l /\ lic = load_license db l /\
    (lic_KeyHash l = HashKey key \/ lic_LicenseKey l = key).

Lemma readonly_select_license P : readonly (select_license P).
Proof. apply readonly_stmt. intros db a db'. destruct (first_row _); intros; by simplify_eq. Qed.
#[export] Hint Resolve readonly_select_license : licensehub.

Lemma readonly_FindLicenseByKey key : readonly (FindLicenseByKey key).
Proof. unfold FindLicenseByKey. readonly_go. Qed.
Lemma readonly_FindLicenseByID id : readonly (FindLicenseByID id).
Proof. unfold FindLicenseByID. readonly_go. Qed.
#[export] Hint Resolve readonly_FindLicenseByKey readonly_FindLicenseByID : licensehub.

Lemma select_license_Ok P w lic w' :
  select_license P w = (Ok lic, w') ->
  exists k l, db_licenses (w_db w) !! k = Some l /\ P l = true /\ lic = load_license (w_db w) l.
Proof.
  intros E. pose proof (stmt_outcomes (fun db => match first_row (rows P (db_licenses db)) with
    | Some l => Ok (load_license db l, db) | None => Err ErrNoRows end) w) as Ho.
  unfold select_license in E. rewrite E in Ho. simpl in Ho.
  inversion Ho as [a db' w2 Ef _ _| | |]; subst.
  destruct (first_row _) as [l|] eqn:Er; [|done]. injection Ef as <- _.
  apply first_row_rows in Er as (k & Hk & HP). eauto.
Qed.

Lemma FindLicenseByKey_Ok key w lic w' :
  w_tx w = None -> FindLicenseByKey key w = (Ok lic, w') -> found key (w_db w) lic.
Proof.
  intros Hw H. unfold FindLicenseByKey in H. inv_ok.
  match goal with H1 : select_license _ w = (?r, ?w1) |- _ => rename H1 into E1, r into r1, w1 into w1' end.
  pose proof (readonly_run _ _ _ _ (readonly_select_license _) E1 Hw) as (Edb & _ & _).
  destruct r1 as [l|e].
  - inv_ok. apply select_license_Ok in E1 as (k & l0 & Hk & Hp & ->). str_facts. unfold found. eauto 10.
  - apply select_license_Ok in H as (k & l0 & Hk & Hp & ->). rewrite Edb in *. str_facts. unfold found. eauto 10.
Qed.

Lemma select_license_quiet P w :
  quiet w ->
  select_license P w
  = (match first_row (rows P (db_licenses (w_db w))) with
     | Some l => Ok (load_license (w_db w) l) | None => Err ErrNoRows end, w).
Proof.
  intros Hq. unfold select_license. rewrite stmt_quiet by done.
  destruct (first_row _); [|done]. by rewrite set_db_same.
Qed.

Lemma FindLicenseByKey_quiet key w :
  quiet w ->
  FindLicenseByKey key w = (match lookup_license (w_db w) key with Some l => Ok l | None => Err ErrNoRows end, w).
Proof.
  intros Hq. unfold FindLicenseByKey, mbind, M_bind, attempt, lookup_license.
  rewrite select_license_quiet by done. destruct (first_row _) as [l|]; [done|].
  rewrite select_license_quiet by done. by destruct (first_row _).
Qed.

(** ** The guards *)

Section guards.
Context (s : LicenseService).

Lemma still_check_lockout ip : still (check_lockout s ip).
Proof.
  unfold check_lockout. destruct (ls_failures s) as [ft|]; [|by intros w].
  intros w. unfold mbind, M_bind. pose proof (ft_IsBlocked_still ft ("ip:" +:+ ip) w) as Hw.
  destruct (ft_IsBlocked ft ("ip:" +:+ ip) w) as [[b|e] w1]; [|done]. by destruct (b.1).
Qed.

Lemma still_record_failures key ip : still (record_failures s key ip).
Proof.
  unfold record_failures. destruct (ls_failures s) as [ft|]; [|by intros w].
  apply still_bind; intros; apply ft_RecordFailure_still.
Qed.
Lemma still_record_successes key ip : still (record_successes s key ip).
Proof.
  unfold record_successes. destruct (ls_failures s) as [ft|]; [|by intros w].
  apply still_bind; intros; apply ft_RecordSuccess_still.
Qed.
(** Whether the tracker says that the address is locked out. *)
Definition blocked (ip : string) (w : World) : bool :=
  match ls_failures s with
  | None => false
  | Some ft => match fst (ft_IsBlocked ft ("ip:" +:+ ip) w) with Ok b => b.1 | Err _ => false end
  end.

Lemma check_lockout_run ip w :
  fst (check_lockout s ip w) = if blocked ip w then Err lockedOut else Ok tt.
Proof.
  unfold check_lockout, blocked. destruct (ls_failures s) as [ft|]; [|done]. unfold mbind, M_bind.
  destruct (ft_IsBlocked_answers ft ("ip:" +:+ ip) w) as (b & w' & ->). simpl. by destruct (b.1).
Qed.

Lemma record_failures_answers key ip : answers (record_failures s key ip).
Proof.
  intros w. unfold record_failures. destruct (ls_failures s) as [ft|]; [|by eexists _, _]. unfold mbind, M_bind.
  destruct (ft_RecordFailure_answers ft ("key:" +:+ key) w) as (a & w' & ->). apply ft_RecordFailure_answers.
Qed.

(** A refusal after the failures are counted. *)
Lemma record_failures_throw {A} key ip e w :
  exists w', (record_failures s key ip ;; throw (A := A) e) w = (Err e, w').
Proof. unfold mbind, M_bind. destruct (record_failures_answers key ip w) as (a & w' & ->). by eexists. Qed.

Lemma still_assert_usable lic : still (assert_usable lic).
Proof. apply still_bind; [apply still_time_Now|]. by intros a w. Qed.
End guards.
#[export] Hint Resolve still_check_lockout still_record_failures still_record_successes
  still_assert_usable : licensehub.

(** Rows are stored under their primary key. *)
Definition licenses_keyed (db : DB) : Prop := forall k l, db_licenses db !! k = Some l -> lic_ID l = k.

(** A program that first reads outside a transaction. *)
Lemma bind_readonly_safe {E A B} I (m : M E A) (k : A -> M E B) w :
  readonly m -> safe I w -> w_tx w = None ->
  (forall a w', m w = (Ok a, w') -> w_db w' = w_db w -> w_tx w' = None -> safe I w' ->
     safe I (snd (k a w'))) ->
  safe I (snd ((m ≫= k) w)).
Proof.
  intros Hr [Hi Hs] Hw Hk. unfold mbind, M_bind. destruct (Hr w Hw) as (E1 & E2 & _).
  destruct (m w) as [[a|e] w'] eqn:Em; simpl in *.
  - apply (Hk a w' eq_refl E1 E2). split; [by rewrite E1|by rewrite E2].
  - split; [by rewrite E1|by rewrite E2].
Qed.

Lemma bind_readonly_ind {E A B} (Q : World -> Prop) (m : M E A) (k : A -> M E B) w :
  readonly m -> w_tx w = None ->
  (forall w', w_db w' = w_db w -> w_tx w' = None -> Q w') ->
  (forall a w', m w = (Ok a, w') -> w_db w' = w_db w -> w_tx w' = None -> w_clock w <= w_clock w' ->
     Q (snd (k a w'))) ->
  Q (snd ((m ≫= k) w)).
Proof.
  intros Hr Hw Hq Hk. unfold mbind, M_bind. destruct (Hr w Hw) as (E1 & E2 & E3).
  destruct (m w) as [[a|e] w'] eqn:Em; simpl in *; [by apply Hk|by apply Hq].
Qed.

Lemma bind_readonly_Ok {E A B} (m : M E A) (k : A -> M E B) w b w' :
  readonly m -> w_tx w = None -> (m ≫= k) w = (Ok b, w') ->
  exists a w1, m w = (Ok a, w1) /\ w_db w1 = w_db w /\ w_tx w1 = None /\ w_clock w <= w_clock w1 /\
    k a w1 = (Ok b, w').
Proof.
  intros Hr Hw Hb. apply bind_Ok in Hb as (a & w1 & Hm & Hk).
  destruct (readonly_run _ _ _ _ Hr Hm Hw) as (E1 & E2 & E3). eauto 10.
Qed.

(** ** [loadLicenseForSDK] *)

Lemma readonly_loadLicenseForSDK key productID capability usabilityRequired :
  readonly (loadLicenseForSDK key productID capability usabilityRequired).
Proof. unfold loadLicenseForSDK. readonly_go. Qed.
#[export] Hint Resolve readonly_loadLicenseForSDK : licensehub.

Lemma loadLicenseForSDK_Ok key productID capability usabilityRequired w lic w' :
  w_tx w = None -> loadLicenseForSDK key productID capability usabilityRequired w = (Ok lic, w') ->
  found key (w_db w) lic /\ (productID = "" \/ lic_ProductID lic = productID) /\
  (capability = "" \/ exists p, lic_Product lic = Some p /\ ProductSupports (prod_Type p) capability = true) /\
  (usabilityRequired = true -> exists now, w_clock w <= now /\ IsLicenseUsable now lic = true).
Proof.
  intros Hw H. unfold loadLicenseForSDK in H.
  apply bind_readonly_Ok in H as (r & w1 & Hf & D1 & T1 & C1 & H); [|auto using readonly_attempt with licensehub|done].
  apply (proj1 (attempt_Ok _ _ _ _)) in Hf. destruct r as [l|e].
  2:{ destruct (goerr_Is e ErrNoRows); inv_ok. }
  destruct (_ && _) eqn:Ep; [inv_ok|]. destruct (negb (streq capability "") && _) eqn:Ec; [inv_ok|].
  apply andb_false_iff in Ep, Ec. rewrite !negb_false_iff, !streq_true in Ep. rewrite negb_false_iff, streq_true in Ec.
  assert (capability = "" \/ exists p, lic_Product l = Some p /\ ProductSupports (prod_Type p) capability = true) as Hc.
  { destruct Ec as [|Ec]; [by left|right]. destruct (lic_Product l) as [p|]; [|done].
    apply negb_false_iff in Ec. eauto. }
  apply FindLicenseByKey_Ok in Hf; [|done].
  destruct usabilityRequired; [|inv_ok; by eauto].
  apply bind_Ok in H as (now & w2 & Hn & H). apply time_Now_Ok in Hn as [Hn _].
  destruct (negb (IsLicenseUsable now l)) eqn:Eu; inv_ok. apply negb_false_iff in Eu.
  split; [done|]. split; [done|]. split; [done|]. intros _. exists now. split; [lia|done].
Qed.

Lemma loadLicenseForSDK_quiet key productID capability usabilityRequired w r w' :
  quiet w -> loadLicenseForSDK key productID capability usabilityRequired w = (r, w') ->
  quiet w' /\ w_db w' = w_db w /\ w_clock w <= w_clock w'.
Proof.
  intros Hq Hr. unfold loadLicenseForSDK, mbind, M_bind, attempt in Hr. rewrite FindLicenseByKey_quiet in Hr by done.
  assert (quiet w /\ w_db w = w_db w /\ w_clock w <= w_clock w) as Hsame by (repeat split; try apply Hq; lia).
  destruct (lookup_license _ _) as [lic|].
  2:{ destruct (goerr_Is _ _); by injection Hr as <- <-. }
  destruct (_ && _); [by injection Hr as <- <-|]. destruct (_ && _); [by injection Hr as <- <-|].
  destruct usabilityRequired; [|by injection Hr as <- <-].
  destruct (time_Now_quiet (E := error) w Hq) as (t & w1 & E1 & Hq1 & D1 & C1 & C2 & _). rewrite E1 in Hr.
  assert (w' = w1) as -> by by destruct (negb _); injection Hr as <- <-.
  split; [done|]. split; [done|lia].
Qed.
