(* ===== verification/LicenseProps.v ===== *)
(** * Properties of the licence service

    What the public endpoints of [LicenseService.v] guarantee: the activation
    limit under every failure, what a successful verification or lease refresh
    proves, what their errors do not reveal, and the life of a lease. *)

From S2P Require Import Prelude GoStrings Errors Model Crypto KeyGen Lockout World Tables Logic Progress Token Usability Store.
From S2P Require Import Webhook LicenseService Lookup Demo.
From Stdlib Require Import Ascii String.

#[local] Open Scope string_scope.
#[local] Open Scope Z_scope.

Lemma readonly_find_scoped s key productID ip hint : readonly (find_scoped s key productID ip hint).
Proof. unfold find_scoped. readonly_go. Qed.
#[export] Hint Resolve readonly_find_scoped : licensehub.

(** The scoping the lookup of the licence endpoints enforces. *)
Definition in_scope (productID : string) (lic : License) : Prop :=
  (productID = "" \/ lic_ProductID lic = productID) /\
  exists p, lic_Product lic = Some p /\ ProductSupports (prod_Type p) CapActivations = true.

Lemma find_scoped_Ok s key productID ip hint w lic w' :
  w_tx w = None -> find_scoped s key productID ip hint w = (Ok lic, w') ->
  found key (w_db w) lic /\ in_scope productID lic.
Proof.
  intros Hw H. unfold find_scoped in H. inv_ok.
  match goal with H1 : FindLicenseByKey key w = (?r, _) |- _ => destruct r as [l|e]; rename H1 into E1 end.
  - destruct (_ && _) eqn:Ep; [inv_ok|].
    destruct (requireProductCapability _ _ _) eqn:Ec; [inv_ok|]. inv_ok.
    split; [by eapply FindLicenseByKey_Ok|]. unfold requireProductCapability in Ec.
    destruct (lic_Product lic) as [p|] eqn:Elp; [|done].
    destruct (ProductSupports (prod_Type p) CapActivations) eqn:Es; [|done].
    split; [|eauto]. apply andb_false_iff in Ep as [Ep|Ep]; apply negb_false_iff in Ep; str_facts; auto.
  - destruct (goerr_Is e ErrNoRows); inv_ok.
Qed.

Lemma assert_usable_Ok lic w u w' :
  assert_usable lic w = (Ok u, w') -> exists now, w_clock w <= now /\ u = assertUsable now lic.
Proof.
  unfold assert_usable. intros H. inv_ok.
  match goal with H1 : time_Now w = _ |- _ => apply time_Now_Ok in H1 as [? _] end. eauto.
Qed.

(** ** Tokens *)

Section tokens.
Context `{Ed25519} `{TokenJSON} (s : LicenseService).

(** A token issued for a device of a licence at an instant. *)
Definition issued (lic : License) (identifier : string) (now : Time) (token : string) : Prop :=
  len (ls_signingKey s) = 64 /\
  exists t, token = signed_text t (ls_signingKey s) /\
    (t = token_payload s lic identifier now
     \/ exists nonce, t = tk_set_Nonce (b64_EncodeToString nonce) (token_payload s lic identifier now)).

Lemma signToken_Ok lic identifier w token w' :
  signToken s lic identifier w = (Ok token, w') ->
  exists now, w_clock w <= now /\ issued lic identifier now token.
Proof.
  unfold signToken. intros H1. inv_ok.
  match goal with H2 : time_Now w = _ |- _ => apply time_Now_Ok in H2 as [? _] end.
  apply Sign_Ok in H1 as (Hl & t & -> & Ht). eexists. split; [done|]. split; [done|]. eauto.
Qed.

(** Every field of an issued token but the nonce. *)
Lemma issued_fields lic identifier now t :
  (t = token_payload s lic identifier now
   \/ exists nonce, t = tk_set_Nonce (b64_EncodeToString nonce) (token_payload s lic identifier now)) ->
  tk_Version t = 1 /\ tk_KeyID t = ls_signingKeyID s /\ tk_LicenseID t = lic_ID lic /\
  tk_ProductID t = lic_ProductID lic /\ tk_Identifier t = identifier /\
  tk_ExpiresAt t = Unix (Add now (ls_leaseTTL s)) /\
  (token_encodable (token_payload s lic identifier now) = true -> token_encodable t = true).
Proof. intros [->|[n ->]]; repeat (split; [done|]); [done|apply encodable_nonce]. Qed.
End tokens.

(** ** Reading an activation *)

Lemma FindActivation_Ok licenseID identifier w act w' :
  FindActivation licenseID identifier w = (Ok act, w') ->
  exists k, db_activations (w_db w) !! k = Some act /\
    act_LicenseID act = licenseID /\ act_Identifier act = identifier.
Proof.
  intros E. apply select_one_Ok in E as (k & Hk & Hp). simpl in Hk. exists k.
  unfold of_license in Hp. bool_facts. by str_facts.
Qed.

Lemma readonly_FindActivation licenseID identifier : readonly (FindActivation licenseID identifier).
Proof. unfold FindActivation. readonly_go. Qed.
#[export] Hint Resolve readonly_FindActivation : licensehub.

(** A device of the licence is activated. *)
Definition device_active (db : DB) (lic : License) (identifier : string) : Prop :=
  exists k act, db_activations db !! k = Some act /\
    act_LicenseID act = lic_ID lic /\ act_Identifier act = identifier.

(** ** Invariant of the activation limit *)

(** The limit a licence row has from its plan. *)
Definition limit_of (db : DB) (l : License) : Z :=
  match db_plans db !! lic_PlanID l with Some p => plan_MaxActivations p | None => 1 end.

Lemma maxActivations_load db l : maxActivations (load_license db l) = limit_of db l.
Proof.
  unfold maxActivations, limit_of, load_license, load_plan. simpl.
  by destruct (db_plans db !! lic_PlanID l).
Qed.

(** Since [db0], the catalogue is unchanged and no licence has gone over the
    larger of its limit and the number of devices it had. *)
Definition limits_since (db0 db : DB) : Prop :=
  db_licenses db = db_licenses db0 /\ db_plans db = db_plans db0 /\
  forall k l, db_licenses db0 !! k = Some l ->
    activations_within k (Z.max (count (of_license k) (db_activations db0)) (limit_of db0 l)) db.

Lemma limits_since_ignores db0 :
  ignores_table (limits_since db0) audit_logs /\ ignores_table (limits_since db0) webhook_deliveries.
Proof. split; by intros m db. Qed.

Section limit.
Context `{UUIDs} `{Ed25519} `{TokenJSON} (s : LicenseService) (db0 : DB).
Let I := limits_since db0.

Lemma keeps_Audit {E} log : keeps (E := E) I (Audit log).
Proof. unfold Audit, insert_audit, fresh_id. keeps_go. Qed.

Lemma keeps_TouchActivation id : keeps I (TouchActivation id).
Proof.
  unfold TouchActivation. keeps_go. apply keeps_stmt. intros db n db' (E1 & E2 & Hl) [= _ <-].
  split; [done|]. split; [done|]. intros k l Hk. unfold activations_within. simpl.
  rewrite count_update_same by done. by apply (Hl k l).
Qed.

Lemma keeps_DeleteActivation id : keeps I (DeleteActivation id).
Proof.
  unfold DeleteActivation. keeps_go. apply keeps_stmt. intros db n db' (E1 & E2 & Hl) [= _ <-].
  split; [done|]. split; [done|]. intros k l Hk. unfold activations_within. simpl.
  etrans; [apply count_delete_rows|]. by apply (Hl k l).
Qed.

Lemma keeps_signToken lic identifier : keeps I (signToken s lic identifier).
Proof. unfold signToken. keeps_go. Qed.

(** [ActivateWithinLimit] with the limit read from the licence's plan. *)
Lemma keeps_ActivateWithinLimit k l act :
  db_licenses db0 !! k = Some l -> act_LicenseID act = k ->
  keeps I (ActivateWithinLimit act (limit_of db0 l)).
Proof.
  intros Hk Ha w [Hi Hs].
  assert (forall (P : DB -> Prop), (I (w_db w) -> P (w_db w)) ->
    (forall tx, w_tx w = Some tx -> I (tx_snapshot tx) -> P (tx_snapshot tx)) -> safe P w) as Hsafe.
  { intros P HP HPs. split; [by apply HP|]. intros tx Htx. apply HPs; [done|]. by apply Hs. }
  (* the catalogue is untouched *)
  assert (keeps (fun db => db_licenses db = db_licenses db0 /\ db_plans db = db_plans db0)
    (ActivateWithinLimit act (limit_of db0 l))) as Hcat.
  { unfold ActivateWithinLimit, insert_activation, fresh_id. keeps_go. }
  destruct (Hcat w) as [[C1 C2] Cs].
  { apply Hsafe; [|intros tx _]; intros (? & ? & _); done. }
  assert (forall k' l', db_licenses db0 !! k' = Some l' ->
    safe (activations_within k' (Z.max (count (of_license k') (db_activations db0)) (limit_of db0 l')))
      (snd (ActivateWithinLimit act (limit_of db0 l) w))) as Hcount.
  { intros k' l' Hk'. apply ActivateWithinLimit_keeps.
    - intros E. rewrite Ha in E. subst k'. simplify_eq. lia.
    - apply Hsafe; [|intros tx _]; intros (_ & _ & Hl); by apply (Hl k' l'). }
  split.
  - split; [done|]. split; [done|]. intros k' l' Hk'. by apply (Hcount k' l').
  - intros tx Htx. destruct (Cs tx Htx). split; [done|]. split; [done|].
    intros k' l' Hk'. by apply (Hcount k' l').
Qed.
End limit.
#[export] Hint Resolve keeps_Audit keeps_TouchActivation keeps_DeleteActivation keeps_signToken : licensehub.

(** The store's limit holds through the whole of [Activate]. *)
Lemma Activate_keeps_limits `{UUIDs} `{Ed25519} `{TokenJSON} s in_ w :
  w_tx w = None -> licenses_keyed (w_db w) ->
  safe (limits_since (w_db w)) (snd (Activate s in_ w)).
Proof.
  intros Hw Hkey. set (db0 := w_db w) in *. set (I := limits_since db0).
  assert (safe I w) as Hs.
  { split; [|by rewrite Hw]. split; [done|]. split; [done|]. intros k l Hk. unfold activations_within.
    fold db0. lia. }
  unfold Activate. apply bind_readonly_safe; [auto with licensehub|done|done|]. intros [] w1 _ Edb1 Hw1 Hs1.
  cbv zeta. apply bind_readonly_safe; [auto with licensehub|done|done|]. intros lic w2 Ef Edb2 Hw2 Hs2.
  apply find_scoped_Ok in Ef as [(k & l & Hk & -> & _) _]; [|done]. rewrite Edb1 in *. fold db0 in Hk.
  apply bind_readonly_safe; [auto with licensehub|done|done|]. intros u w3 _ Edb3 Hw3 Hs3.
  destruct u as [e|]; [apply Hs3|].
  apply bind_readonly_safe; [apply readonly_attempt, readonly_FindActivation|done|done|].
  intros r w4 _ Edb4 Hw4 Hs4. revert w4 Edb4 Hw4 Hs4.
  assert (forall {A} (m : M error A), keeps I m -> forall w4, w_db w4 = w_db w3 -> w_tx w4 = None ->
    safe I w4 -> safe I (snd (m w4))) as Hgo by (intros A m Hm w4 _ _ Hs4; by apply Hm).
  apply Hgo. subst I. rewrite maxActivations_load.
  assert (lic_ID l = k) as Hid by by apply Hkey.
  destruct r as [existing|e].
  - unfold already_activated, internal. keeps_go.
  - apply keeps_bind; [apply keeps_attempt; by apply (keeps_ActivateWithinLimit db0 k)|]. intros r.
    destruct r as [[]|err].
    + unfold activated, record_successes, dispatch_if, internal. keeps_go.
      apply keeps_Dispatch. apply limits_since_ignores.
    + unfold activation_failed, CountActivations. keeps_go.
Qed.

(** ** Properties *)

(** C1. Activation_limit: whatever fails during an activation (a lost connection,
    a statement applied whose answer is lost, a failed commit), and however
    long it takes, no licence ends with more devices than the larger of its
    plan's limit and the number it had. *)
Theorem Activate_respects_limit `{UUIDs} `{Ed25519} `{TokenJSON} s in_ w k l :
  w_tx w = None -> licenses_keyed (w_db w) -> db_licenses (w_db w) !! k = Some l ->
  count (of_license k) (db_activations (w_db (snd (Activate s in_ w))))
  <= Z.max (count (of_license k) (db_activations (w_db w))) (limit_of (w_db w) l).
Proof.
  intros Hw Hkey Hk. destruct (Activate_keeps_limits s in_ w Hw Hkey) as [(_ & _ & Hl) _].
  by apply (Hl k l).
Qed.

(** C5. Verify_sound: a verification that succeeds, whatever failed on the way,
    is of a stored licence with the given key, of the requested product, whose
    product has activations, usable at an instant of the request, and with the
    device activated; the answer is the licence's data with a token signed for
    that device. *)
Theorem Verify_sound `{UUIDs} `{Ed25519} `{TokenJSON} s in_ w r w' :
  w_tx w = None -> Verify s in_ w = (Ok r, w') ->
  exists lic now issue,
    found (vi_LicenseKey in_) (w_db w) lic /\ in_scope (vi_ProductID in_) lic /\
    w_clock w <= now /\ assertUsable now lic = None /\
    device_active (w_db w) lic (vi_Identifier in_) /\
    issued s lic (vi_Identifier in_) issue (vr_Token r) /\
    vr_Status r = lic_Status lic /\ vr_ValidUntil r = lic_ValidUntil lic /\ vr_Features r = entitlements lic.
Proof.
  intros Hw Hv. unfold Verify in Hv.
  apply bind_readonly_Ok in Hv as ([] & w1 & _ & D1 & T1 & C1 & Hv); [|auto with licensehub|done].
  apply bind_readonly_Ok in Hv as (lic & w2 & Hf & D2 & T2 & C2 & Hv); [|auto with licensehub|done].
  apply bind_readonly_Ok in Hv as (u & w3 & Hu & D3 & T3 & C3 & Hv); [|auto with licensehub|done].
  apply find_scoped_Ok in Hf as [Hf Hscope]; [|done]. apply assert_usable_Ok in Hu as (now & Hnow & ->).
  destruct (assertUsable now lic) eqn:Eu; [inv_ok|].
  apply bind_readonly_Ok in Hv as (r1 & w4 & Ha & D4 & T4 & C4 & Hv);
    [|apply readonly_attempt, readonly_FindActivation|done].
  apply (proj1 (attempt_Ok _ _ _ _)) in Ha. destruct r1 as [act|]; [|inv_ok].
  apply FindActivation_Ok in Ha as (k & Hk & Hl & Hi).
  unfold verified in Hv. inv_ok.
  match goal with Ht : internal _ _ = _ |- _ => unfold internal in Ht; apply map_err_Ok in Ht;
    apply signToken_Ok in Ht as (issue & _ & Ht); rename Ht into Htok end.
  exists lic, now, issue. rewrite D1 in Hf. split; [done|]. split; [done|]. split; [lia|].
  split; [done|]. split; [|split; [exact Htok|done]].
  exists k, act. rewrite D3, D2, D1 in Hk. done.
Qed.

(** C6. Lease_sound: a refresh that succeeds is of a token signed by a key of the
    ring, not expired, of version 1, bound to the caller's product and device,
    and of a licence that is still stored, of that product, usable and with
    the device activated; the new lease is for that same licence and device. *)
Theorem RefreshLease_sound `{UUIDs} `{Ed25519} `{TokenJSON} s in_ w lease w' :
  w_tx w = None -> RefreshLease s in_ w = (Ok lease, w') ->
  exists t kid pub k l now issue,
    ls_verificationKeys s !! kid = Some pub /\ token_valid (li_Lease in_) pub now t /\
    tk_Version t = 1 /\ tk_ProductID t = li_ProductID in_ /\ tk_Identifier t = li_Identifier in_ /\
    db_licenses (w_db w) !! k = Some l /\ lic_ID l = tk_LicenseID t /\ lic_ProductID l = li_ProductID in_ /\
    w_clock w <= now /\ (exists used, now <= used /\ assertUsable used (load_license (w_db w) l) = None) /\
    device_active (w_db w) l (li_Identifier in_) /\
    issued s (load_license (w_db w) l) (li_Identifier in_) issue lease.
Proof.
  intros Hw Hr. unfold RefreshLease in Hr.
  assert (readonly (verifyLeaseBinding s in_)) as Rb.
  { unfold verifyLeaseBinding, VerifyWithKeyRing, Token.Verify. readonly_go. }
  assert (readonly (licenseFromLease s in_)) as Rl by (unfold licenseFromLease; readonly_go).
  apply bind_readonly_Ok in Hr as (lic & w1 & Hl & D1 & T1 & C1 & Hr); [|done|done].
  apply bind_readonly_Ok in Hr as (act & w2 & Ha & D2 & T2 & C2 & Hr);
    [|apply readonly_map_err, readonly_FindActivation|done].
  apply map_err_Ok, FindActivation_Ok in Ha as (ka & Hk & Hal & Hai). inv_ok.
  match goal with Ht : lift _ _ = _ |- _ => unfold lift in Ht; apply map_err_Ok, signToken_Ok in Ht as (issue & _ & Ht) end.
  unfold licenseFromLease in Hl.
  apply bind_readonly_Ok in Hl as (t & w3 & Hb & D3 & T3 & C3 & Hl); [|by apply readonly_map_err|done].
  apply bind_readonly_Ok in Hl as (lic' & w4 & Hf & D4 & T4 & C4 & Hl);
    [|apply readonly_map_err; auto with licensehub|done].
  destruct (negb (streq (lic_ProductID lic') (li_ProductID in_))) eqn:Ep; [inv_ok|].
  apply map_err_Ok in Hb, Hf. unfold FindLicenseByID in Hf.
  apply select_license_Ok in Hf as (k & l & Hkl & Hidl & ->).
  apply bind_Ok in Hl as (u & w5 & Hu & Hl). apply assert_usable_Ok in Hu as (used & Hused & ->).
  destruct (assertUsable used _) eqn:Eu; inv_ok.
  unfold verifyLeaseBinding in Hb. inv_ok.
  destruct (_ || _) eqn:Ebind in Hb; inv_ok. bool_facts. str_facts.
  match goal with Hv : VerifyWithKeyRing _ _ _ = _ |- _ =>
    apply VerifyWithKeyRing_Ok in Hv as (kid & pub & Hkid & _ & Hv);
    apply Token.Verify_valid in Hv; rename Hv into Hvalid end.
  rewrite D3 in *. rewrite D1 in Hk.
  exists t, kid, pub, k, l, (w_clock w3), issue. repeat (split; [done|]).
  split; [by exists used; split; [lia|]|]. split; [by exists ka, act|exact Hr].
Qed.

(** Lease_life: a token issued for a device is accepted by the lease endpoints
    exactly for the product and the device it was issued for, until the
    signing service's lease time has passed (to the second). *)
Theorem issued_lease_binding `{Ed25519} `{TokenJSON} s lic device issue lease productID device' ip w :
  issued s lic device issue lease ->
  ls_verificationKeys s !! ls_signingKeyID s = Some (PublicKey (ls_signingKey s)) ->
  ls_signingKeyID s <> "" -> token_encodable (token_payload s lic device issue) = true ->
  let expires := Unix (Add issue (ls_leaseTTL s)) in
  let live := negb ((0 <? expires) && (expires <? Unix (fst (tick w)))) in
  match fst (verifyLeaseBinding s (mkLeaseInput lease productID device' ip) w) with
  | Ok t => live = true /\ productID = lic_ProductID lic /\ device' = device /\ tk_LicenseID t = lic_ID lic
  | Err e => e = licenseNotFound /\ (live = false \/ productID <> lic_ProductID lic \/ device' <> device)
  end.
Proof.
  intros (Hl & t & -> & Ht) Hring Hkid Hen expires live.
  apply issued_fields in Ht as (F1 & F2 & F3 & F4 & F5 & F6 & F7). specialize (F7 Hen).
  unfold verifyLeaseBinding, mbind, M_bind, map_err. simpl li_Lease.
  rewrite VerifyWithKeyRing_signed by first [done|by rewrite F2]. rewrite F2, Hring.
  pose proof (Verify_signed t (ls_signingKey s) w Hl F7) as Hv. rewrite F6 in Hv. fold expires in Hv.
  subst live. destruct (Token.Verify _ _ w) as [r w']. simpl in Hv. subst r.
  destruct ((0 <? expires) && (expires <? Unix (fst (tick w)))); simpl; [auto|].
  rewrite F1, F4, F5. simpl. destruct (streq (lic_ProductID lic) productID) eqn:E1; simpl; str_facts.
  - destruct (streq device device') eqn:E2; simpl; str_facts; [done|]. split; [done|]. right. right. congruence.
  - split; [done|]. right. left. congruence.
Qed.

(** What is told of a key: nothing more than of an unknown one. *)
Definition opaque (s : LicenseService) (ip : string) (w : World) (answer : result error VerifyResult) : Prop :=
  answer = Err (if blocked s ip w then lockedOut else licenseNotFound) \/
  w_faults w <> [] /\ exists e, answer = Err (AppErr (Internal e)).

(** No licence the key may name is one the device can use within the scope asked for. *)
Definition unusable (in_ : VerifyInput) (w : World) : Prop :=
  forall lic, found (vi_LicenseKey in_) (w_db w) lic ->
    (vi_ProductID in_ <> "" /\ lic_ProductID lic <> vi_ProductID in_) \/
    (requireProductCapability (lic_Product lic) CapActivations "device verification" = None /\
     ((forall now, w_clock w <= now -> assertUsable now lic <> None)
      \/ ~ device_active (w_db w) lic (vi_Identifier in_))).

Lemma FindLicenseByKey_fails key w e w' :
  w_tx w = None -> FindLicenseByKey key w = (Err e, w') -> goerr_Is e ErrNoRows = false -> w_faults w <> [].
Proof. intros Htx E He Hf. rewrite FindLicenseByKey_quiet in E by (by split). destruct (lookup_license _ _); [done|]. injection E as <- _. revert He. done. Qed.

Lemma Verify_unusable `{UUIDs} `{Ed25519} `{TokenJSON} s in_ w :
  w_tx w = None -> unusable in_ w -> opaque s (vi_IPAddress in_) w (fst (Verify s in_ w)).
Proof.
  intros Htx Hlic. unfold Verify, find_scoped. unfold mbind at 1, M_bind at 1.
  pose proof (check_lockout_run s (vi_IPAddress in_) w) as Hb. pose proof (still_check_lockout s (vi_IPAddress in_) w) as (D & T & C & F).
  destruct (check_lockout s _ w) as [r w1]. simpl in *. subst r.
  assert (blocked s (vi_IPAddress in_) w = false -> forall e, e = licenseNotFound -> opaque s (vi_IPAddress in_) w (Err e)) as Hno
    by (intros Hbl e ->; left; by rewrite Hbl).
  destruct (blocked _ _ _) eqn:Hbl; [left; by rewrite Hbl|]. specialize (Hno eq_refl).
  rewrite Htx in T. unfold mbind at 1, M_bind at 1. unfold mbind at 1, M_bind at 1, attempt at 1.
  pose proof (record_failures_throw (A := License) s (vi_LicenseKey in_) (vi_IPAddress in_) licenseNotFound) as Hcount.
  destruct (FindLicenseByKey _ w1) as [[lic|e] w2] eqn:Ef.
  2:{ destruct (goerr_Is e ErrNoRows) eqn:Ee.
      - destruct (Hcount w2) as [w3 ->]. by apply Hno.
      - right. split; [|by eexists]. rewrite <- F. by eapply FindLicenseByKey_fails. }
  pose proof (readonly_run _ _ _ _ (readonly_FindLicenseByKey _) Ef T) as (D2 & T2 & C2).
  apply FindLicenseByKey_Ok in Ef; [|done]. rewrite D in *. specialize (Hlic lic Ef).
  destruct (negb _ && negb _) eqn:Es.
  { destruct (Hcount w2) as [w3 ->]. by apply Hno. }
  destruct Hlic as [[Hp1 Hp2]|[-> Hdead]]; [by rewrite !streq_neq in Es by done|].
  unfold mret at 1, M_ret at 1, assert_usable. unfold mbind at 1, M_bind at 1. unfold mbind at 1, M_bind at 1.
  destruct (time_Now w2) as [[t|e] w3] eqn:En; [|unfold time_Now in En; by destruct (tick w2)].
  pose proof (readonly_run _ _ _ _ (readonly_still _ still_time_Now) En T2) as (D3 & T3 & C3).
  apply time_Now_Ok in En as [Ht _]. unfold mret at 1, M_ret at 1. destruct (assertUsable t lic) eqn:Eu.
  { unfold mbind, M_bind. destruct (record_failures_answers s (vi_LicenseKey in_) (vi_IPAddress in_) w3) as (a & w4 & ->). by apply Hno. }
  destruct Hdead as [Hdead|Hdev]; [by destruct (Hdead t); [lia|]|].
  unfold mbind, M_bind, attempt. destruct (FindActivation _ _ w3) as [[act|e] w4] eqn:Ea; [|by apply Hno]. exfalso. apply Hdev.
  apply FindActivation_Ok in Ea as (k & Hk & Hl & Hi). rewrite D3, D2 in Hk. by exists k, act.
Qed.

(** C39. Opaque errors: when every licence a key may name is of another product
    than the one asked for, or is of a product with activations and is not
    usable from now on or not activated on the device, then [Verify] answers
    what it answers to an unknown key, whatever tracks the failures: locked out
    when the tracker blocks the address, no such licence otherwise. Only when a
    statement may fail can it be the internal error instead. *)
Theorem Verify_opaque `{UUIDs} `{Ed25519} `{TokenJSON} s in_ w :
  w_tx w = None -> unusable in_ w ->
  fst (Verify s in_ w) = Err (if blocked s (vi_IPAddress in_) w then lockedOut else licenseNotFound) \/
  w_faults w <> [] /\ exists e, fst (Verify s in_ w) = Err (AppErr (Internal e)).
Proof. intros Htx Hu. by apply Verify_unusable. Qed.

(** Oracle: a key of a product without activations is told apart from an
    unknown key: the answer of [Verify] (and of [Activate] and [Deactivate])
    is then [FEATURE_NOT_AVAILABLE] and names the product's type. *)
Theorem Verify_reveals_saas_keys `{UUIDs} `{Ed25519} `{TokenJSON} s in_ w lic p :
  quiet w -> ls_failures s = None ->
  lookup_license (w_db w) (vi_LicenseKey in_) = Some lic ->
  vi_ProductID in_ = "" -> lic_Product lic = Some p -> prod_Type p = ProductTypeSaaS ->
  fst (Verify s in_ w)
  = Err (AppErr (New 404 "FEATURE_NOT_AVAILABLE" "device verification is not available for saas products"))
  /\ fst (Verify s (mkVerifyInput (vi_LicenseKey in_) (vi_Identifier in_) "" (vi_IPAddress in_))
            (set_db empty_db w)) = Err licenseNotFound.
Proof.
  intros Hq Hf Hl Hp Hprod Ht. split.
  - unfold Verify, check_lockout, find_scoped. rewrite Hf. unfold mbind, M_bind, attempt. cbn [mret M_ret].
    rewrite FindLicenseByKey_quiet by done. rewrite Hl, Hp, Hprod. simpl. unfold requireProductCapability.
    by rewrite Ht.
  - edestruct (Verify_unusable s (mkVerifyInput (vi_LicenseKey in_) (vi_Identifier in_) "" (vi_IPAddress in_)) (set_db empty_db w))
      as [->|[Hn _]]; [apply Hq|by intros l (k & x & Hk & _)| |by destruct Hn; apply Hq].
    unfold blocked. by rewrite Hf.
Qed.

Lemma device_active_Touch `{UUIDs} lic identifier id :
  keeps (fun db => device_active db lic identifier) (TouchActivation id).
Proof.
  unfold TouchActivation. keeps_go. apply keeps_stmt. intros db n db' (k & act & Hk & Hl & Hi) [= _ <-].
  exists k, (if streq (act_ID act) id then act_set_LastVerified a act else act). simpl.
  rewrite lookup_update_rows, Hk. simpl. by destruct (streq (act_ID act) id).
Qed.

Lemma device_active_Audit `{UUIDs} {E} lic identifier log :
  keeps (E := E) (fun db => device_active db lic identifier) (Audit log).
Proof. unfold Audit, insert_audit, fresh_id. keeps_go. Qed.

Lemma run_keeps {E A} I (m : M E A) w r w' : keeps I m -> m w = (r, w') -> w_tx w = None -> I (w_db w) -> I (w_db w').
Proof. intros Hm Hrun Htx HI. pose proof (keeps_closed I m w Hm Htx HI) as Hk. by rewrite Hrun in Hk. Qed.

Section activate_ends.
Context `{UUIDs} `{Ed25519} `{TokenJSON} (s : LicenseService) (lic : License) (identifier : string).

(** What a successful activation answers, and leaves behind. *)
Definition answered (r : ActivateResult) (w' : World) : Prop :=
  device_active (w_db w') lic identifier /\ (exists issue, issued s lic identifier issue (ar_Token r)) /\
  ar_LicenseID r = lic_ID lic /\ contains (ar_Status r) ["activated"; "already_activated"] = true.

Lemma already_activated_Ok existing w r w' :
  w_tx w = None -> device_active (w_db w) lic identifier -> already_activated s lic identifier existing w = (Ok r, w') ->
  answered r w'.
Proof.
  intros Hw Hd Hv. assert (device_active (w_db w') lic identifier) as Hd'.
  { eapply run_keeps; [|exact Hv|done|exact Hd]. unfold already_activated, internal. keeps_go; [apply device_active_Touch|].
    unfold signToken. keeps_go. }
  unfold already_activated in Hv. inv_ok.
  match goal with Ht : internal _ _ = _ |- _ => rename Ht into Htok end.
  unfold internal in Htok. apply map_err_Ok, signToken_Ok in Htok as (issue & _ & Htok). split_and!; eauto.
Qed.

Lemma activated_Ok in_ idtype w r w' :
  ai_Identifier in_ = identifier -> w_tx w = None -> device_active (w_db w) lic identifier ->
  activated s lic in_ idtype w = (Ok r, w') -> answered r w'.
Proof.
  intros Hi Hw Hd Hv. assert (device_active (w_db w') lic identifier) as Hd'.
  { eapply run_keeps; [|exact Hv|done|exact Hd]. unfold activated, record_successes, dispatch_if, internal. keeps_go;
      first [apply device_active_Audit | apply keeps_Dispatch; by intros m db | unfold signToken; keeps_go]. }
  unfold activated in Hv. inv_ok.
  match goal with Ht : internal _ _ = _ |- _ => rename Ht into Htok end.
  unfold internal in Htok. apply map_err_Ok, signToken_Ok in Htok as (issue & _ & Htok).
  rewrite Hi in Htok. split_and!; eauto.
Qed.

Lemma ActivateWithinLimit_closed act max w r w' : w_tx w = None -> ActivateWithinLimit act max w = (Ok r, w') -> w_tx w' = None.
Proof.
  intros Hw Hact. pose proof (@with_tx_closed unit) as Hc. unfold ActivateWithinLimit in Hact. inv_ok.
  match goal with Hx : with_tx ?b ?wx = _ |- _ => specialize (Hc b wx); rewrite Hx in Hc; apply Hc end.
  match goal with Hx : fresh_id _ _ = _ |- _ => revert Hx end. unfold fresh_id.
  case_bool_decide; intros [= _ <-]; done.
Qed.
End activate_ends.

(** C3. Activate_sound: an activation that reports success, whatever failed on the
    way, is of a stored licence with the given key, in scope and usable, and
    leaves the device activated in the tables, with a token signed for it. *)
Theorem Activate_sound `{UUIDs} `{Ed25519} `{TokenJSON} s in_ w r w' :
  w_tx w = None -> Activate s in_ w = (Ok r, w') ->
  exists lic now issue,
    found (ai_LicenseKey in_) (w_db w) lic /\ in_scope (ai_ProductID in_) lic /\
    w_clock w <= now /\ assertUsable now lic = None /\
    device_active (w_db w') lic (ai_Identifier in_) /\
    issued s lic (ai_Identifier in_) issue (ar_Token r) /\ ar_LicenseID r = lic_ID lic /\
    contains (ar_Status r) ["activated"; "already_activated"] = true.
Proof.
  intros Hw Hv. unfold Activate in Hv.
  apply bind_readonly_Ok in Hv as ([] & w1 & _ & D1 & T1 & C1 & Hv); [|auto with licensehub|done]. cbv zeta in Hv.
  apply bind_readonly_Ok in Hv as (lic & w2 & Hf & D2 & T2 & C2 & Hv); [|auto with licensehub|done].
  apply bind_readonly_Ok in Hv as (u & w3 & Hu & D3 & T3 & C3 & Hv); [|auto with licensehub|done].
  apply find_scoped_Ok in Hf as [Hf Hscope]; [|done]. apply assert_usable_Ok in Hu as (now & Hnow & ->).
  destruct (assertUsable now lic) eqn:Eu; [inv_ok|].
  apply bind_readonly_Ok in Hv as (r1 & w4 & Ha & D4 & T4 & C4 & Hv);
    [|apply readonly_attempt, readonly_FindActivation|done].
  apply (proj1 (attempt_Ok _ _ _ _)) in Ha. rewrite D1 in Hf.
  enough (answered s lic (ai_Identifier in_) r w') as (Hdev & (issue & Hi) & Hid & Hst).
  { exists lic, now, issue. split; [done|]. split; [done|]. split; [lia|]. by repeat (split; [done|]). }
  destruct r1 as [existing|e].
  - apply FindActivation_Ok in Ha as (k & Hk & Hl & Hi). eapply already_activated_Ok; [|..|exact Hv]; [done|].
    rewrite D4. by exists k, existing.
  - apply bind_Ok in Hv as (r2 & w5 & Hact & Hv). apply (proj1 (attempt_Ok _ _ _ _)) in Hact.
    destruct r2 as [[]|err]; [|unfold activation_failed in Hv; destruct (streq (goerr_Error err) _); inv_ok].
    pose proof (ActivateWithinLimit_closed _ _ _ _ _ T4 Hact) as T5.
    apply ActivateWithinLimit_Ok in Hact as (k & a & Hk & Hl & Hi). eapply activated_Ok; [done|done| |exact Hv].
    by exists k, a.
Qed.

(** ** Instances *)

Module LicenseDemo.
#[local] Existing Instances Toy.json Toy.ed25519 Demo.uuids.

Definition seed : string := string_of_list_ascii (repeat "s"%char 32).
Definition service : LicenseService :=
  NewLicenseService (NewKeyFromSeed seed) "k1" ∅ 0
    (Some (BruteForceProtection demo_cfg)) true.
Definition untracked : LicenseService := NewLicenseService (NewKeyFromSeed seed) "k1" ∅ 0 None false.

Definition activate device := mkActivateInput "key-1" device "" "" "10.0.0.1" "prod-1".
Definition verify key device := mkVerifyInput key device "" "10.0.0.1".

(** The lease a run of [Verify] answers with. *)
Definition lease : string :=
  match fst (Verify service (verify "KEY-1" "laptop") Demo.world) with Ok r => vr_Token r | Err _ => "" end.
End LicenseDemo.

#[local] Existing Instances Toy.json Toy.ed25519 Demo.uuids.

Lemma demo_keyed : licenses_keyed (w_db Demo.world).
Proof.
  apply (map_Forall_to_list (fun k l => lic_ID l = k)). vm_compute. repeat constructor.
Qed.

Lemma Activate_respects_limit_witness :
  count (of_license "lic-1") (db_activations (w_db (snd
    (Activate LicenseDemo.service (LicenseDemo.activate "desktop") Demo.world)))) <= 2.
Proof.
  etransitivity; [eapply (Activate_respects_limit LicenseDemo.service (LicenseDemo.activate "desktop")
    Demo.world "lic-1"); [reflexivity|exact demo_keyed|vm_compute; reflexivity]|].
  vm_compute. congruence.
Defined.

Lemma Verify_sound_witness :
  exists r w' lic, Verify LicenseDemo.service (LicenseDemo.verify "KEY-1" "laptop") Demo.world = (Ok r, w') /\
    found "KEY-1" (w_db Demo.world) lic /\ device_active (w_db Demo.world) lic "laptop".
Proof.
  destruct (Verify LicenseDemo.service (LicenseDemo.verify "KEY-1" "laptop") Demo.world) as [[r|e] w'] eqn:E.
  - destruct (Verify_sound LicenseDemo.service _ Demo.world r w' eq_refl E) as
      (lic & now & issue & Hf & _ & _ & _ & Hd & _).
    exists r, w', lic. exact (conj eq_refl (conj Hf Hd)).
  - exfalso. vm_compute in E. discriminate E.
Defined.

Lemma Activate_sound_witness :
  exists r w' lic, Activate LicenseDemo.service (LicenseDemo.activate "desktop") Demo.world = (Ok r, w') /\
    found "key-1" (w_db Demo.world) lic /\ device_active (w_db w') lic "desktop".
Proof.
  destruct (Activate LicenseDemo.service (LicenseDemo.activate "desktop") Demo.world) as [[r|e] w'] eqn:E.
  - destruct (Activate_sound LicenseDemo.service _ Demo.world r w' eq_refl E) as
      (lic & now & issue & Hf & _ & _ & _ & Hd & _).
    exists r, w', lic. exact (conj eq_refl (conj Hf Hd)).
  - exfalso. vm_compute in E. discriminate E.
Defined.

Lemma RefreshLease_sound_witness :
  let in_ := mkLeaseInput LicenseDemo.lease "prod-1" "laptop" "" in
  exists lease w' t, RefreshLease LicenseDemo.service in_ Demo.world = (Ok lease, w') /\
    tk_Version t = 1 /\ tk_Identifier t = "laptop".
Proof.
  intros in_. destruct (RefreshLease LicenseDemo.service in_ Demo.world) as [[lease|e] w'] eqn:E.
  - destruct (RefreshLease_sound LicenseDemo.service in_ Demo.world lease w' eq_refl E) as
      (t & kid & pub & k & l & now & issue & _ & _ & Hv & _ & Hi & _).
    exists lease, w', t. exact (conj eq_refl (conj Hv Hi)).
  - exfalso. vm_compute in E. discriminate E.
Defined.

Lemma issued_lease_binding_witness :
  let lic := load_license Demo.db (Demo.license "lic-1" "prod-1" "plan-1" "KEY-1" StatusActive (Some (5000 * Second))) in
  let t := token_payload LicenseDemo.service lic "laptop" (1005 * Second) in
  match fst (verifyLeaseBinding LicenseDemo.service
      (mkLeaseInput (signed_text t (ls_signingKey LicenseDemo.service)) "prod-1" "phone" "") Demo.world) with
  | Ok _ => False
  | Err e => e = licenseNotFound
  end.
Proof.
  intros lic t.
  assert (issued LicenseDemo.service lic "laptop" (1005 * Second)
    (signed_text t (ls_signingKey LicenseDemo.service))) as Hi.
  { split; [vm_compute; reflexivity|]. exists t. split; [reflexivity|by left]. }
  pose proof (issued_lease_binding LicenseDemo.service lic "laptop" (1005 * Second) _ "prod-1" "phone" ""
    Demo.world Hi eq_refl) as Hb.
  specialize (Hb ltac:(discriminate) ltac:(vm_compute; reflexivity)). cbv zeta in Hb.
  destruct (fst (verifyLeaseBinding _ _ _)).
  - destruct Hb as (_ & _ & Hd & _). discriminate Hd.
  - apply Hb.
Defined.

Lemma Verify_opaque_witness :
  fst (Verify LicenseDemo.service (LicenseDemo.verify "KEY-1" "phone") Demo.world) = Err licenseNotFound.
Proof.
  destruct (Verify_opaque LicenseDemo.service (LicenseDemo.verify "KEY-1" "phone") Demo.world) as [H|[Hf _]];
    [reflexivity| |exact H|vm_compute in Hf; contradiction].
  intros lic (i & l & Hl & -> & Hkey). right. assert (lic_ProductID l = "prod-1") as Hp.
  { revert i l Hl Hkey.
    apply (map_Forall_to_list (fun k l => lic_KeyHash l = HashKey "KEY-1" \/ lic_LicenseKey l = "KEY-1" -> lic_ProductID l = "prod-1")).
    vm_compute. repeat constructor; intros [Hx|Hx]; discriminate Hx. }
  split.
  - change (lic_Product (load_license (w_db Demo.world) l)) with (db_products (w_db Demo.world) !! lic_ProductID l).
    rewrite Hp. vm_compute. reflexivity.
  - right. intros (k & act & Hk & _ & Hi). revert k act Hk Hi.
    apply (map_Forall_to_list (fun k act => act_Identifier act <> "phone")). vm_compute.
    repeat constructor. discriminate.
Defined.

Lemma Verify_reveals_saas_keys_witness :
  fst (Verify LicenseDemo.untracked (LicenseDemo.verify "KEY-2" "phone") Demo.world)
  = Err (AppErr (New 404 "FEATURE_NOT_AVAILABLE" "device verification is not available for saas products")).
Proof.
  assert (lookup_license Demo.db "KEY-2"
    = Some (load_license Demo.db (Demo.license "lic-2" "prod-2" "plan-2" "KEY-2" StatusActive None))) as Hl
    by (vm_compute; reflexivity).
  exact (proj1 (Verify_reveals_saas_keys LicenseDemo.untracked (LicenseDemo.verify "KEY-2" "phone") Demo.world
    _ Demo.saas (conj eq_refl eq_refl) eq_refl Hl eq_refl eq_refl eq_refl)).
Defined.
