(* ===== verification/GoTime.v ===== *)
(** * Calendar dates ([time] of Go's standard library, in UTC)

    Days, months and years of an instant in the proleptic Gregorian calendar,
    [time.Date] with its normalisation, and the two layouts the usage code
    prints.  Months are numbered [12 * year + (month - 1)]. *)

From S2P Require Import Prelude GoStrings Crypto.
From Stdlib Require Import Ascii String.

#[local] Open Scope string_scope.
#[local] Open Scope Z_scope.

Definition Day : Duration := 24 * Hour.

(** Days since the epoch. *)
Definition day_of (t : Time) : Z := t / Day.
Definition hour_of (t : Time) : Z := t / Hour.

(** ** Years and months counted from the first of March of year 0 *)

Definition epoch_shift : Z := 719468.

Definition march_year_start (y : Z) : Z := 365 * y + y / 4 - y / 100 + y / 400.

(** Cycles of 400, 100, 4 and 1 years; the last day of a cycle of 400 or of 4
    years has no cycle of 100 or of 1 of its own. *)
Definition march_year (z : Z) : Z :=
  let e := z / 146097 in
  let r := z - 146097 * e in
  let c := Z.min 3 (r / 36524) in
  let r := r - 36524 * c in
  let q := r / 1461 in
  let r := r - 1461 * q in
  400 * e + 100 * c + 4 * q + Z.min 3 (r / 365).

Definition march_month_start (n : Z) : Z := march_year_start (n / 12) + (153 * (n mod 12) + 2) / 5.

Definition month_of_day (d : Z) : Z :=
  let z := d + epoch_shift in
  let y := march_year z in
  12 * y + (5 * (z - march_year_start y) + 2) / 153 + 2.

Definition month_start (n : Z) : Z := march_month_start (n - 2) - epoch_shift.

Definition month_of (t : Time) : Z := month_of_day (day_of t).
Definition year_of (t : Time) : Z := month_of t / 12.
Definition day_of_month (t : Time) : Z := day_of t - month_start (month_of t) + 1.

(** [time.Date(year, month, day, 0, 0, 0, 0, time.UTC)]: months and days out
    of range carry over. *)
Definition Date (year month day : Z) : Time := (month_start (12 * year + (month - 1)) + (day - 1)) * Day.

(** [t.Truncate(time.Hour)]. *)
Definition TruncateHour (t : Time) : Time := hour_of t * Hour.

(** ** Layouts *)

Definition digit (n : Z) : string := String (chr (48 + n)) "".
Definition pad2 (n : Z) : string := digit (n / 10) +:+ digit (n mod 10).
(** Four digits at least. *)
Definition pad4 (n : Z) : string :=
  if n <? 10000 then pad2 (n / 100) +:+ pad2 (n mod 100) else pretty n.

Definition format_month (t : Time) : string := pad4 (year_of t) +:+ "-" +:+ pad2 (month_of t mod 12 + 1).
Definition format_day (t : Time) : string := format_month t +:+ "-" +:+ pad2 (day_of_month t).
Definition format_hour (t : Time) : string := format_day t +:+ "T" +:+ pad2 (hour_of t mod 24).

(** [time.RFC3339] of a UTC time. *)
Definition format_RFC3339 (t : Time) : string :=
  format_hour t +:+ ":" +:+ pad2 (t / Minute mod 60) +:+ ":" +:+ pad2 (t / Second mod 60) +:+ "Z".

(** ** Months and the days they start on *)

#[local] Ltac Zify.zify_post_hook ::= Z.to_euclidean_division_equations.

Lemma march_year_cycles z : exists e c q y r,
  march_year z = 400 * e + 100 * c + 4 * q + y /\
  z = 146097 * e + 36524 * c + 1461 * q + 365 * y + r /\
  0 <= c <= 3 /\ 0 <= q <= 24 /\ 0 <= y <= 3 /\ 0 <= r <= 365 /\ (y < 3 -> r < 365) /\
  (c < 3 -> 1461 * q + 365 * y + r < 36524).
Proof.
  unfold march_year. cbv zeta. set (e := z / 146097). set (r := z - 146097 * e).
  assert (0 <= r < 146097) as Hr by (subst r e; lia).
  set (c := Z.min 3 (r / 36524)). set (r1 := r - 36524 * c).
  assert (0 <= c <= 3 /\ 0 <= r1 <= 36524 /\ (c < 3 -> r1 < 36524)) as (Hc & Hr1 & Hr2) by (subst r1 c; lia).
  set (q := r1 / 1461). set (r2 := r1 - 1461 * q).
  assert (0 <= q <= 24 /\ 0 <= r2 < 1461) as [Hq Hq1] by (subst r2 q; lia).
  set (y := Z.min 3 (r2 / 365)).
  exists e, c, q, y, (r2 - 365 * y).
  assert (0 <= y <= 3 /\ 0 <= r2 - 365 * y <= 365 /\ (y < 3 -> r2 - 365 * y < 365))
    as (Hy & Hy1 & Hy2) by (subst y; lia).
  split; [done|]. subst r2 r1 r. lia.
Qed.

Lemma march_year_ok z : march_year_start (march_year z) <= z < march_year_start (march_year z + 1).
Proof.
  destruct (march_year_cycles z) as (e & c & q & y & r & -> & -> & Hc & Hq & Hy & Hr & Hy1 & Hc1).
  unfold march_year_start.
  replace ((400 * e + 100 * c + 4 * q + y) / 4) with (100 * e + 25 * c + q) by lia.
  replace ((400 * e + 100 * c + 4 * q + y) / 100) with (4 * e + c) by lia.
  replace ((400 * e + 100 * c + 4 * q + y) / 400) with e by lia.
  split; [lia|].
  destruct (Z.eq_dec y 3) as [->|]; [|lia].
  replace ((400 * e + 100 * c + 4 * q + 3 + 1) / 4) with (100 * e + 25 * c + q + 1) by lia.
  destruct (Z.eq_dec q 24) as [->|]; [|lia].
  replace ((400 * e + 100 * c + 4 * 24 + 3 + 1) / 100) with (4 * e + c + 1) by lia.
  destruct (Z.eq_dec c 3) as [->|]; lia.
Qed.

Lemma march_year_length y : 365 <= march_year_start (y + 1) - march_year_start y <= 366.
Proof. unfold march_year_start. lia. Qed.

Lemma march_month_start_eq y m : 0 <= m < 12 -> march_month_start (12 * y + m) = march_year_start y + (153 * m + 2) / 5.
Proof.
  intros Hm. unfold march_month_start. replace ((12 * y + m) / 12) with y by lia.
  by replace ((12 * y + m) mod 12) with m by lia.
Qed.

Lemma march_month_length n : 28 <= march_month_start (n + 1) - march_month_start n <= 31.
Proof.
  assert (n = 12 * (n / 12) + n mod 12) as En by lia. pose proof (Z.mod_pos_bound n 12 ltac:(lia)) as Hm.
  set (y := n / 12) in *. set (m := n mod 12) in *. clearbody y m. subst n.
  rewrite march_month_start_eq by done. destruct (Z.eq_dec m 11) as [->|].
  - replace (12 * y + 11 + 1) with (12 * (y + 1) + 0) by lia. rewrite march_month_start_eq by lia.
    pose proof (march_year_length y). lia.
  - replace (12 * y + m + 1) with (12 * y + (m + 1)) by lia. rewrite march_month_start_eq by lia. lia.
Qed.

Lemma month_length n : 28 <= month_start (n + 1) - month_start n <= 31.
Proof.
  unfold month_start. pose proof (march_month_length (n - 2)).
  replace (n + 1 - 2) with (n - 2 + 1) by lia. lia.
Qed.

Lemma month_start_step n : month_start n < month_start (n + 1).
Proof. pose proof (month_length n). lia. Qed.

Lemma month_start_mono n m : n <= m -> month_start n <= month_start m.
Proof.
  intros Hnm. pose proof (Z2Nat.id (m - n) ltac:(lia)) as Hk.
  replace m with (n + Z.of_nat (Z.to_nat (m - n))) by lia. clear Hk.
  induction (Z.to_nat (m - n)) as [|k IH]; [by rewrite Z.add_0_r|].
  pose proof (month_start_step (n + Z.of_nat k)).
  replace (n + Z.of_nat (S k)) with (n + Z.of_nat k + 1) by lia. lia.
Qed.

Lemma month_of_day_bounds d : month_start (month_of_day d) <= d < month_start (month_of_day d + 1).
Proof.
  unfold month_of_day, month_start. set (z := d + epoch_shift). cbv zeta.
  pose proof (march_year_ok z) as Hy. set (y := march_year z) in *.
  pose proof (march_year_length y) as Hl. set (doy := z - march_year_start y).
  set (m := (5 * doy + 2) / 153). assert (0 <= m < 12) as Hm by (subst m doy; lia).
  replace (12 * y + m + 2 - 2) with (12 * y + m) by lia. rewrite march_month_start_eq by done.
  assert ((153 * m + 2) / 5 <= doy) by (subst m doy; lia).
  split; [subst z; lia|]. destruct (Z.eq_dec m 11) as [Em|].
  - replace (12 * y + m + 2 + 1 - 2) with (12 * (y + 1) + 0) by lia. rewrite march_month_start_eq by lia. lia.
  - replace (12 * y + m + 2 + 1 - 2) with (12 * y + (m + 1)) by lia. rewrite march_month_start_eq by lia.
    assert (doy < (153 * (m + 1) + 2) / 5) by (subst m doy; lia). subst z. lia.
Qed.

(** A day is of the month whose first day it does not precede and whose
    successor's first day it precedes. *)
Lemma month_of_day_iff d n : month_of_day d = n <-> month_start n <= d < month_start (n + 1).
Proof.
  pose proof (month_of_day_bounds d) as Hb. split; [by intros <-|]. intros Hn.
  destruct (Z.lt_trichotomy (month_of_day d) n) as [H|[H|H]]; [|done|].
  - pose proof (month_start_mono (month_of_day d + 1) n ltac:(lia)). lia.
  - pose proof (month_start_mono (n + 1) (month_of_day d) ltac:(lia)). lia.
Qed.

Lemma day_of_month_range t : 1 <= day_of_month t <= 31.
Proof.
  unfold day_of_month, month_of. pose proof (month_of_day_bounds (day_of t)).
  pose proof (month_length (month_of_day (day_of t))). lia.
Qed.

(** ** What a layout determines *)

Lemma append_inv (a b c d : string) :
  String.length a = String.length c -> a +:+ b = c +:+ d -> a = c /\ b = d.
Proof.
  revert c. induction a as [|x a IH]; intros [|y c]; simpl; try done.
  intros [= El] [= -> E]. by destruct (IH c El E) as [-> ->].
Qed.

Lemma append_sep (sep a b c d : string) :
  String.length a = String.length c -> a +:+ sep +:+ b = c +:+ sep +:+ d -> a = c /\ b = d.
Proof. intros El [-> E]%append_inv; [|done]. by apply append_inv in E as [_ ->]. Qed.

Lemma pad2_length n : String.length (pad2 n) = 2%nat.
Proof. done. Qed.

Lemma pad2_value n : 0 <= n < 100 -> digits_value 0 (pad2 n) = Some n.
Proof.
  intros Hn. apply (bool_decide_eq_true (digits_value 0 (pad2 n) = Some n)). revert n Hn.
  apply (forall_range (fun n => bool_decide (digits_value 0 (pad2 n) = Some n)) 100). vm_compute. done.
Qed.

Lemma pad2_inj n m : 0 <= n < 100 -> 0 <= m < 100 -> pad2 n = pad2 m -> n = m.
Proof. intros Hn Hm E. apply pad2_value in Hn, Hm. rewrite E in Hn. congruence. Qed.

Lemma pad4_small n : 0 <= n < 10000 -> pad4 n = pad2 (n / 100) +:+ pad2 (n mod 100).
Proof. intros Hn. unfold pad4. by rewrite (proj2 (Z.ltb_lt _ _)) by lia. Qed.

Lemma pad4_inj n m : 0 <= n < 10000 -> 0 <= m < 10000 -> pad4 n = pad4 m -> n = m.
Proof.
  intros Hn Hm. rewrite !pad4_small by done. intros [E1 E2]%append_inv; [|done].
  apply pad2_inj in E1, E2; [|lia..]. lia.
Qed.

Lemma pad4_length n : 0 <= n < 10000 -> String.length (pad4 n) = 4%nat.
Proof. intros Hn. by rewrite pad4_small. Qed.

Example format_known : format_RFC3339 (1700000000 * Second) = "2023-11-14T22:13:20Z".
Proof. reflexivity. Qed.
Example format_leap_day : format_day (Date 2024 2 29) = "2024-02-29" /\ format_day (Date 2023 2 29) = "2023-03-01".
Proof. split; reflexivity. Qed.

(** ** Calendar units as intervals of instants *)

Lemma day_of_hour t : day_of t = hour_of t / 24.
Proof. unfold day_of, hour_of, Day. rewrite Z.div_div by done. by rewrite (Z.mul_comm Hour 24). Qed.

Lemma hour_of_lt t h : hour_of t < h <-> t < h * Hour.
Proof. unfold hour_of, Hour, Minute, Second. lia. Qed.

Lemma day_of_lt t d : day_of t < d <-> t < d * Day.
Proof. unfold day_of, Day, Hour, Minute, Second. lia. Qed.

Lemma month_of_lt t n : month_of t < n <-> t < month_start n * Day.
Proof.
  rewrite <- day_of_lt. unfold month_of. pose proof (month_of_day_bounds (day_of t)) as Hb. split; intros H.
  - pose proof (month_start_mono (month_of_day (day_of t) + 1) n ltac:(lia)). lia.
  - destruct (Z.lt_ge_cases (month_of_day (day_of t)) n) as [|Hge]; [done|].
    pose proof (month_start_mono n _ Hge). lia.
Qed.

Lemma year_of_lt t y : year_of t < y <-> t < month_start (12 * y) * Day.
Proof. rewrite <- month_of_lt. unfold year_of. lia. Qed.

Lemma hour_of_mono t u : t <= u -> hour_of t <= hour_of u.
Proof. intros. apply Z.div_le_mono; done. Qed.
Lemma day_of_mono t u : t <= u -> day_of t <= day_of u.
Proof. intros. apply Z.div_le_mono; done. Qed.
Lemma month_of_mono t u : t <= u -> month_of t <= month_of u.
Proof.
  intros Htu. apply Z.lt_succ_r. unfold Z.succ. apply month_of_lt.
  pose proof (proj1 (month_of_lt u (month_of u + 1)) ltac:(lia)). lia.
Qed.
Lemma year_of_mono t u : t <= u -> year_of t <= year_of u.
Proof. intros Htu. unfold year_of. apply Z.div_le_mono; [done|by apply month_of_mono]. Qed.

(** ** Equal layouts are equal units, in the years 0 to 9999 *)

Definition four_digit_year (t : Time) : Prop := 0 <= year_of t < 10000.

Lemma format_month_inj t u :
  four_digit_year t -> four_digit_year u -> format_month t = format_month u -> month_of t = month_of u.
Proof.
  intros Ht Hu. unfold format_month. intros [Ey Em]%append_sep; [|by rewrite !pad4_length].
  apply pad4_inj in Ey; [|done..]. apply pad2_inj in Em; [|lia..].
  unfold year_of in Ey. lia.
Qed.

Lemma format_month_length t : four_digit_year t -> String.length (format_month t) = 7%nat.
Proof. intros Ht. unfold format_month. rewrite length_append, pad4_length by done. done. Qed.

Lemma format_day_inj t u :
  four_digit_year t -> four_digit_year u -> format_day t = format_day u -> day_of t = day_of u.
Proof.
  intros Ht Hu. unfold format_day. intros [Em Ed]%append_sep; [|by rewrite !format_month_length].
  apply format_month_inj in Em; [|done..].
  pose proof (day_of_month_range t). pose proof (day_of_month_range u).
  apply pad2_inj in Ed; [|lia..]. unfold day_of_month in Ed. rewrite Em in Ed. lia.
Qed.

Lemma format_hour_inj t u :
  four_digit_year t -> four_digit_year u -> format_hour t = format_hour u -> hour_of t = hour_of u.
Proof.
  intros Ht Hu. unfold format_hour. intros [Ed Eh]%append_sep.
  2:{ unfold format_day. by rewrite !length_append, !format_month_length by done. }
  apply format_day_inj in Ed; [|done..]. rewrite !day_of_hour in Ed.
  apply pad2_inj in Eh; lia.
Qed.

Lemma format_month_ext t u : month_of t = month_of u -> format_month t = format_month u.
Proof. intros E. unfold format_month, year_of. by rewrite E. Qed.

Lemma month_of_ext t u : day_of t = day_of u -> month_of t = month_of u.
Proof. intros E. unfold month_of. by rewrite E. Qed.

Lemma format_day_ext t u : day_of t = day_of u -> format_day t = format_day u.
Proof.
  intros E. unfold format_day, day_of_month. by rewrite E, (month_of_ext t u E), (format_month_ext t u (month_of_ext t u E)).
Qed.

Lemma format_hour_ext t u : hour_of t = hour_of u -> format_hour t = format_hour u.
Proof.
  intros E. unfold format_hour. rewrite E. by rewrite (format_day_ext t u) by by rewrite !day_of_hour, E.
Qed.
