(* ===== verification/Usage.v ===== *)
(** * Usage quotas ([service/usage.go], [store/usage.go])

    Metered features of a plan: the counter of a period, incremented under its
    limit in one transaction, the period keys that separate the counters, and
    the two public operations [RecordUsage] and [GetQuotaStatus]. *)

From S2P Require Import Prelude GoStrings GoTime Errors Model Lockout World Tables Logic Token Usability Store.
From S2P Require Import Webhook LicenseService Lookup Demo.
From Stdlib Require Import Ascii String.
From Stdlib Require Import Floats.SpecFloat.

#[local] Open Scope string_scope.
#[local] Open Scope Z_scope.

(** ** Periods *)

Definition CurrentPeriodKey (period : string) (now : Time) : string :=
  if streq period "hourly" then format_hour now
  else if streq period "daily" then format_day now
  else if streq period "monthly" then format_month now
  else if streq period "yearly" then pretty (year_of now)
  else format_month now.

(** The instant [nextPeriodReset] prints. *)
Definition period_reset (period : string) (now : Time) : option Time :=
  let month := month_of now mod 12 + 1 in
  if streq period "hourly" then Some (Add (TruncateHour now) Hour)
  else if streq period "daily" then Some (Date (year_of now) month (day_of_month now + 1))
  else if streq period "monthly" then Some (Date (year_of now) (month + 1) 1)
  else if streq period "yearly" then Some (Date (year_of now + 1) 1 1)
  else None.

Definition nextPeriodReset (period : string) (now : Time) : string :=
  match period_reset period now with Some t => format_RFC3339 t | None => "" end.

(** ** Counters *)

Section store.
Context `{UUIDs}.

Definition RecordUsageEvent (e : UsageEvent) : M goerr unit :=
  id ← fresh_id (ue_ID e);
  now ← sql_now;
  sql_insert usage_events id (mkUsageEvent id (ue_LicenseID e) (ue_Feature e) (ue_Quantity e)
    (ue_Metadata e) (ue_IPAddress e) now).

Definition InsertMeteredEvent (licenseID feature periodKey : string) (quantity : Z) : M goerr unit :=
  id ← newID;
  now ← sql_now;
  sql_insert metered_billing id
    (mkMetered id licenseID feature quantity periodKey id false None "" 0 "" now).

Section counter.
Context (licenseID feature period periodKey : string).

Definition this_counter (c : UsageCounter) : bool := same_counter c licenseID feature period periodKey.

(** [INSERT ... ON CONFLICT (...) DO NOTHING]. *)
Definition insert_counter (id : string) (now : Time) : M goerr unit := stmt (fun db =>
  if row_exists this_counter (db_usage_counters db) then Ok (tt, db)
  else insert_row usage_counters id (mkUsageCounter id licenseID feature period periodKey 0 now) db).

(** [SELECT used ... FOR UPDATE]. *)
Definition select_used : M goerr Z := stmt (fun db =>
  match first_row (rows this_counter (db_usage_counters db)) with
  | Some c => Ok (uc_Used c, db)
  | None => Err ErrNoRows
  end).

Definition uc_add (quantity : Z) (now : Time) (c : UsageCounter) : UsageCounter :=
  mkUsageCounter (uc_ID c) (uc_LicenseID c) (uc_Feature c) (uc_Period c) (uc_PeriodKey c)
    (uc_Used c + quantity) now.

(** [UPDATE ... SET used = used + ? ... RETURNING *]: a BIGINT. *)
Definition add_used (quantity : Z) (now : Time) : M goerr UsageCounter := stmt (fun db =>
  let m := db_usage_counters db in
  if row_exists (fun c => this_counter c && negb (in_int64 (uc_Used c + quantity))) m
  then Err (ErrSQL NumericOutOfRange)
  else match first_row (rows this_counter m) with
       | None => Err ErrNoRows
       | Some c => Ok (uc_add quantity now c,
                       t_set usage_counters (update_rows this_counter (uc_add quantity now) m) db)
       end).

Definition IncrementUsageCounterWithLimit (quantity limit : Z) : M goerr (UsageCounter * bool) :=
  with_tx (
    id ← newID;
    now ← sql_now;
    insert_counter id now ;;
    currentUsed ← select_used;
    if (0 <? limit) && (limit <? go_add currentUsed quantity) then
      commit_tx ;;
      mret (mkUsageCounter "" licenseID feature period periodKey currentUsed 0, false)
    else
      c ← add_used quantity now;
      commit_tx ;;
      mret (c, true)).

Definition GetUsageCounter : M goerr UsageCounter := sql_select_one usage_counters this_counter.

Definition ResetUsageCounter : M goerr unit :=
  now ← sql_now;
  sql_update usage_counters this_counter (fun c =>
    mkUsageCounter (uc_ID c) (uc_LicenseID c) (uc_Feature c) (uc_Period c) (uc_PeriodKey c) 0 now) ;;
  mret tt.
End counter.
End store.

(** ** The service *)

(** [float64] arithmetic of the warning threshold. *)
Definition float64 (z : Z) : spec_float := binary_normalize 53 1024 z 0 false.
Definition float_int (f : spec_float) : Z :=
  match f with
  | S754_finite s m e =>
      let z := if 0 <=? e then Z.shiftl (Zpos m) e else Z.shiftr (Zpos m) (- e) in
      if s then - z else z
  | _ => 0
  end.

Record UsageService := mkUsageService {
  us_email : bool;               (* [s.email != nil && s.email.IsConfigured()] *)
  us_warningThreshold : spec_float
}.

Record RecordUsageInput := mkRecordUsageInput {
  ri_LicenseKey : string; ri_Feature : string; ri_Quantity : Z; ri_Metadata : gmap string any;
  ri_ProductID : string; ri_IPAddress : string }.

Record RecordUsageResult := mkRecordUsageResult {
  rr_Accepted : bool; rr_Used : Z; rr_Limit : Z; rr_Remaining : Z; rr_Period : string; rr_PeriodKey : string }.

Record QuotaStatus := mkQuotaStatus {
  qs_Feature : string; qs_Used : Z; qs_Limit : Z; qs_Remaining : Z; qs_Period : string; qs_PeriodKey : string }.

(** The quota entitlement of a feature: the first in the plan's list. *)
Definition find_quota (lic : License) (feature : string) : option Entitlement :=
  match lic_Plan lic with
  | None => None
  | Some plan =>
      head (List.filter (fun e => streq (ent_Feature e) feature && streq (ent_ValueType e) "quota")
              (plan_Entitlements plan))
  end.

Definition quota_period (period : string) : string := if streq period "" then "monthly" else period.

Definition remaining (limit used : Z) : Z := if limit =? 0 then -1 else go_sub limit used.

Section service.
Context `{UUIDs} (s : UsageService).

Definition quota_exceeded (lic : License) (feature period : string) (used limit : Z)
    : M error RecordUsageResult :=
  Dispatch (lic_ProductID lic) EventQuotaExceeded
    {["license_id" := AnyString (lic_ID lic); "feature" := AnyString feature; "used" := AnyInt used;
      "limit" := AnyInt limit]} ;;
  throw (AppErr (WithDetails (New 429 "QUOTA_EXCEEDED" ("usage quota exceeded for " +:+ feature))
    {["used" := AnyInt used; "limit" := AnyInt limit; "period" := AnyString period]})).

Definition crosses_threshold (newUsed quantity limit : Z) : bool :=
  let ratio := SFdiv 53 1024 (float64 newUsed) (float64 limit) in
  let prevRatio := SFdiv 53 1024 (float64 (go_sub newUsed quantity)) (float64 limit) in
  SFleb (us_warningThreshold s) ratio && SFltb prevRatio (us_warningThreshold s).

Definition warn_quota (lic : License) (feature : string) (newUsed quantity limit : Z) : M error unit :=
  if (0 <? limit) && SFltb (S754_zero false) (us_warningThreshold s) && crosses_threshold newUsed quantity limit
  then
    Dispatch (lic_ProductID lic) EventQuotaWarning
      {["license_id" := AnyString (lic_ID lic); "feature" := AnyString feature; "used" := AnyInt newUsed;
        "limit" := AnyInt limit; "threshold" := AnyFloat (us_warningThreshold s)]} ;;
    if us_email s && negb (streq (lic_Email lic) "") then
      let productName := match lic_Product lic with Some p => prod_Name p | None => "" end in
      let ratio := SFdiv 53 1024 (float64 newUsed) (float64 limit) in
      emit (EvEmail "quota_warning" (lic_Email lic)
        [productName; feature; pretty newUsed; pretty limit;
         pretty (float_int (SFmul 53 1024 ratio (float64 100)))])
    else mret tt
  else mret tt.

(** The best-effort records of an accepted increment. *)
Definition record_event (lic : License) (in_ : RecordUsageInput) (quantity : Z) : M error unit :=
  r ← attempt (RecordUsageEvent (mkUsageEvent "" (lic_ID lic) (ri_Feature in_) quantity (ri_Metadata in_)
                (ri_IPAddress in_) 0));
  match r with
  | Err _ => emit (EvWarn "failed to record usage event")
  | Ok _ => mret tt
  end.

Definition enqueue_metered (lic : License) (quota : Entitlement) (feature periodKey : string) (quantity : Z)
    : M error unit :=
  if negb (streq (ent_StripeMeterEventName quota) "") then
    r ← attempt (InsertMeteredEvent (lic_ID lic) feature periodKey quantity);
    match r with
    | Err _ => emit (EvWarn "metered enqueue failed")
    | Ok _ => mret tt
    end
  else mret tt.

Definition RecordUsage (in_ : RecordUsageInput) : M error RecordUsageResult :=
  let feature := ri_Feature in_ in
  let quantity := if ri_Quantity in_ <=? 0 then 1 else ri_Quantity in_ in
  lic ← loadLicenseForSDK (ri_LicenseKey in_) (ri_ProductID in_) "" true;
  match find_quota lic feature with
  | None => throw (AppErr (New 400 "NO_QUOTA" ("no quota entitlement found for feature: " +:+ feature)))
  | Some quota =>
      let limit := ParseInt (ent_Value quota) in
      let period := quota_period (ent_QuotaPeriod quota) in
      now ← time_Now;
      let periodKey := CurrentPeriodKey period now in
      r ← internal (IncrementUsageCounterWithLimit (lic_ID lic) feature period periodKey quantity limit);
      let '(updated, accepted) := r in
      if negb accepted then quota_exceeded lic feature period (uc_Used updated) limit
      else
        record_event lic in_ quantity ;;
        enqueue_metered lic quota feature periodKey quantity ;;
        warn_quota lic feature (uc_Used updated) quantity limit ;;
        mret (mkRecordUsageResult true (uc_Used updated) limit (remaining limit (uc_Used updated)) period periodKey)
  end.

Definition used_now (licenseID feature period periodKey : string) : M error Z :=
  r ← attempt (GetUsageCounter licenseID feature period periodKey);
  mret (match r with Ok c => uc_Used c | Err _ => 0 end).

Definition GetQuotaStatus (licenseKey feature productID : string) : M error QuotaStatus :=
  lic ← loadLicenseForSDK licenseKey productID "" true;
  match find_quota lic feature with
  | None => throw (AppErr (NotFound "QUOTA" feature))
  | Some quota =>
      let limit := ParseInt (ent_Value quota) in
      let period := quota_period (ent_QuotaPeriod quota) in
      now ← time_Now;
      let periodKey := CurrentPeriodKey period now in
      used ← used_now (lic_ID lic) feature period periodKey;
      mret (mkQuotaStatus feature used limit (remaining limit used) period periodKey)
  end.
End service.

(** ** Periods: the key changes at the reset, and not before *)

(** A key that names a unit of time whose end is [r]. *)
Lemma key_until {K} (key : Time -> K) (unit_of : Time -> Z) now u r :
  (key u = key now <-> unit_of u = unit_of now) ->
  (forall t v, t <= v -> unit_of t <= unit_of v) ->
  (forall t, unit_of t < unit_of now + 1 <-> t < r) ->
  now <= u -> now < r /\ (key u = key now <-> u < r).
Proof.
  intros Hkey Hmono Hr Hu. split; [apply Hr; lia|]. rewrite Hkey, <- Hr. specialize (Hmono now u Hu). lia.
Qed.

Lemma pretty_Z_eq (a b : Z) : pretty a = pretty b <-> a = b.
Proof. split; [apply (inj pretty)|by intros ->]. Qed.

(** C40. Period_reset: from an instant on, the key of the usage counter stays the
    same exactly until the reset [nextPeriodReset] announces, for every period
    with a reset (in the years 0 to 9999). *)
Theorem period_reset_exact period now r u :
  four_digit_year now -> four_digit_year u -> period_reset period now = Some r -> now <= u ->
  now < r /\ (CurrentPeriodKey period u = CurrentPeriodKey period now <-> u < r).
Proof.
  intros Hn Hu Hr Hle. unfold period_reset, CurrentPeriodKey in *.
  assert (12 * year_of now + (month_of now mod 12 + 1 - 1) = month_of now) as Em.
  { unfold year_of. pose proof (Z.div_mod (month_of now) 12). lia. }
  destruct (streq period "hourly"); [|destruct (streq period "daily");
    [|destruct (streq period "monthly"); [|destruct (streq period "yearly"); [|done]]]];
    injection Hr as <-.
  - apply (key_until format_hour hour_of); [|apply hour_of_mono| |done].
    + split; [by apply format_hour_inj|apply format_hour_ext].
    + intros t. rewrite hour_of_lt. unfold TruncateHour, Add. lia.
  - apply (key_until format_day day_of); [|apply day_of_mono| |done].
    + split; [by apply format_day_inj|apply format_day_ext].
    + intros t. rewrite day_of_lt. unfold Date, day_of_month. rewrite Em. f_equiv. lia.
  - apply (key_until format_month month_of); [|apply month_of_mono| |done].
    + split; [by apply format_month_inj|apply format_month_ext].
    + intros t. rewrite month_of_lt. unfold Date.
      replace (12 * year_of now + (month_of now mod 12 + 1 + 1 - 1)) with (month_of now + 1) by lia.
      by replace (month_start (month_of now + 1) + (1 - 1)) with (month_start (month_of now + 1)) by lia.
  - apply (key_until (fun t => pretty (year_of t)) year_of); [apply pretty_Z_eq|apply year_of_mono| |done].
    intros t. rewrite year_of_lt. unfold Date.
    replace (12 * (year_of now + 1) + (1 - 1)) with (12 * (year_of now + 1)) by lia.
    by replace (month_start (12 * (year_of now + 1)) + (1 - 1)) with (month_start (12 * (year_of now + 1))) by lia.
Qed.

Lemma period_reset_exact_witness :
  let now := 1706659200 * Second (* 2024-01-31 *) in
  CurrentPeriodKey "monthly" now = "2024-01" /\
  exists r, period_reset "monthly" now = Some r /\ now < r /\ format_RFC3339 r = "2024-02-01T00:00:00Z".
Proof.
  intros now. split; [reflexivity|].
  assert (period_reset "monthly" now = Some (1706745600 * Second)) as Hr by reflexivity.
  exists (1706745600 * Second). split; [exact Hr|]. split; [|reflexivity].
  assert (four_digit_year now) as Hy by (vm_compute; split; congruence).
  exact (proj1 (period_reset_exact "monthly" now _ now Hy Hy Hr (Z.le_refl now))).
Defined.

(** ** The quota holds under every failure *)

Lemma same_counter_true c l f p k :
  same_counter c l f p k = true <-> uc_LicenseID c = l /\ uc_Feature c = f /\ uc_Period c = p /\ uc_PeriodKey c = k.
Proof. unfold same_counter. rewrite !andb_true_iff, !streq_true. tauto. Qed.

Section quota.
Context `{UUIDs} (licenseID feature period periodKey : string) (bound : Z).
Let mine := this_counter licenseID feature period periodKey.

(** The counter of the period is unique and within [bound]. *)
Definition quota_kept (db : DB) : Prop :=
  forall k c, db_usage_counters db !! k = Some c -> mine c = true ->
    0 <= uc_Used c <= bound /\
    (forall k' c', db_usage_counters db !! k' = Some c' -> mine c' = true -> k' = k).

Lemma quota_kept_ignores {K R} `{Countable K} (T : Table K R) :
  (forall m db, db_usage_counters (t_set T m db) = db_usage_counters db) -> ignores_table quota_kept T.
Proof. intros E m db Hi k c. rewrite !E. apply Hi. Qed.

Context (lic' feature' period' periodKey' : string).
Let theirs := this_counter lic' feature' period' periodKey'.

Lemma mine_theirs c : mine c = true -> theirs c = true -> mine = theirs.
Proof.
  unfold mine, theirs, this_counter. rewrite !same_counter_true.
  intros (-> & -> & -> & ->) (-> & -> & -> & ->). done.
Qed.

Lemma insert_counter_keeps id now : 0 <= bound -> keeps quota_kept (insert_counter lic' feature' period' periodKey' id now).
Proof.
  intros Hb. apply keeps_stmt. intros db a db' Hi E. destruct (row_exists _ _) eqn:Ex; [by injection E as _ <-|].
  apply insert_row_Ok in E as (Hk & Hc & _ & ->). simpl in Hk, Hc.
  assert (forall k c, db_usage_counters db !! k = Some c -> theirs c = false) as Hnone
    by by apply row_exists_false.
  assert (forall i, theirs (mkUsageCounter i lic' feature' period' periodKey' 0 now) = true) as Hnew
    by (intros i; by apply same_counter_true).
  intros k c. simpl. intros [(-> & <-)|(Hne & Hlk)]%lookup_insert_Some Hm.
  - split; [simpl; lia|]. intros k' c' [(-> & _)|(_ & Hlk')]%lookup_insert_Some Hm'; [done|].
    pose proof (mine_theirs _ Hm (Hnew _)) as Emt. rewrite Emt in Hm'. by rewrite (Hnone _ _ Hlk') in Hm'.
  - destruct (Hi k c Hlk Hm) as [Hu Hun]. split; [done|].
    intros k' c' [(-> & <-)|(_ & Hlk')]%lookup_insert_Some Hm'; [|by apply (Hun k' c')].
    pose proof (mine_theirs _ Hm' (Hnew _)) as Emt. rewrite Emt in Hm. by rewrite (Hnone _ _ Hlk) in Hm.
Qed.

(** The row read under the lock. *)
Definition reads_used (u : Z) (db : DB) : Prop :=
  exists k c, db_usage_counters db !! k = Some c /\ theirs c = true /\ uc_Used c = u.

Lemma select_used_reads P :
  hoare quota_kept P (select_used lic' feature' period' periodKey')
    (fun r db => match r with Ok u => reads_used u db | Err _ => True end).
Proof.
  apply hoare_stmt. intros db Hi _. split; [done|].
  destruct (first_row _) as [c|] eqn:E; [|done]. apply first_row_rows in E as (k & Hk & Hp).
  split; [done|]. split; [|done]. by exists k, c.
Qed.

Lemma add_used_keeps quantity now u :
  0 < quantity -> (mine = theirs -> in_int64 (u + quantity) = true -> u + quantity <= bound) ->
  hoare quota_kept (reads_used u) (add_used lic' feature' period' periodKey' quantity now) (fun _ _ => True).
Proof.
  intros Hq Hb. apply hoare_stmt. intros db Hi (k0 & c0 & Hk0 & Ht0 & <-). split; [done|].
  cbv zeta. destruct (row_exists _ _) eqn:Er; [done|]. rewrite row_exists_false in Er.
  assert (forall k c, db_usage_counters db !! k = Some c -> theirs c = true ->
    in_int64 (uc_Used c + quantity) = true) as Hin.
  { intros k c Hk Ht. specialize (Er k c Hk). fold theirs in Er. rewrite Ht in Er. by apply negb_false_iff in Er. }
  destruct (first_row _); [|done]. split; [|done].
  assert (forall c, mine (if theirs c then uc_add quantity now c else c) = mine c) as Hsame
    by (intros c; by destruct (theirs c)).
  intros k c. simpl. rewrite lookup_update_rows. intros (c1 & Hc1 & ->)%fmap_Some Hm.
  rewrite Hsame in Hm. destruct (Hi k c1 Hc1 Hm) as [Hu Hun]. split.
  - fold theirs. destruct (theirs c1) eqn:Et; [|done]. simpl. pose proof (mine_theirs _ Hm Et) as Emt.
    assert (k0 = k) as -> by (apply (Hun k0 c0 Hk0); by rewrite Emt). assert (c0 = c1) as -> by congruence.
    specialize (Hb Emt (Hin _ _ Hc1 Et)). lia.
  - intros k' c'. rewrite lookup_update_rows. intros (c2 & Hc2 & ->)%fmap_Some Hm'. rewrite Hsame in Hm'.
    by apply (Hun k' c2).
Qed.

(** An increment under its limit, of this counter or of another. *)
Lemma Increment_keeps_quota quantity limit :
  0 <= bound <= int64_max -> 0 < quantity <= int64_max ->
  (mine = theirs -> 0 < limit <= bound) ->
  keeps quota_kept (IncrementUsageCounterWithLimit lic' feature' period' periodKey' quantity limit).
Proof.
  intros Hb Hq Hl. apply keeps_with_tx. apply keeps_bind; [auto with licensehub|]. intros id.
  apply keeps_bind; [auto with licensehub|]. intros now.
  apply keeps_bind; [apply insert_counter_keeps; lia|]. intros [].
  apply hoare_keeps. eapply hoare_bind; [apply select_used_reads| |done]. intros u. simpl.
  destruct (_ && _) eqn:Eg.
  - apply hoare_drop. keeps_go.
  - eapply hoare_bind; [apply add_used_keeps; [lia|]| |done].
    + intros Emt Hin. specialize (Hl Emt). apply andb_false_iff in Eg as [Eg|Eg]; bool_facts; [lia|].
      apply in_int64_iff in Hin. unfold go_add in Eg. rewrite wrap64_id in Eg by done. lia.
    + intros c. apply hoare_drop. keeps_go.
Qed.
End quota.


Section service_quota.
Context `{UUIDs} (s : UsageService) (licenseID feature period periodKey : string) (bound : Z).
Let I := quota_kept licenseID feature period periodKey bound.

Lemma keeps_record_event lic in_ q : keeps I (record_event lic in_ q).
Proof. unfold record_event, RecordUsageEvent, fresh_id. keeps_go. Qed.
Lemma keeps_enqueue_metered lic quota f k q : keeps I (enqueue_metered lic quota f k q).
Proof. unfold enqueue_metered, InsertMeteredEvent. keeps_go. Qed.
Lemma keeps_warn_quota lic f u q l : keeps I (warn_quota s lic f u q l).
Proof. unfold warn_quota. repeat (keeps_step || (apply keeps_Dispatch; intros ?? Hi; exact Hi)). Qed.
Lemma keeps_quota_exceeded lic f p u l : keeps I (quota_exceeded lic f p u l).
Proof. unfold quota_exceeded. keeps_go. apply keeps_Dispatch. intros ?? Hi; exact Hi. Qed.
End service_quota.
#[export] Hint Resolve keeps_record_event keeps_enqueue_metered keeps_warn_quota keeps_quota_exceeded : licensehub.

(** C4. Quota_limit: a quota of a plan is never exceeded: a call of [RecordUsage],
    for whatever key, feature and quantity (an [int64], however large), whatever
    fails and however time passes, leaves every counter of every licence within
    any bound it was within and that its own quota respects. *)
Theorem RecordUsage_respects_quota `{UUIDs} s in_ w k l feature quota period periodKey bound :
  w_tx w = None -> licenses_keyed (w_db w) -> ri_Quantity in_ <= int64_max ->
  db_licenses (w_db w) !! k = Some l ->
  find_quota (load_license (w_db w) l) feature = Some quota ->
  0 < ParseInt (ent_Value quota) <= bound -> bound <= int64_max ->
  quota_kept k feature period periodKey bound (w_db w) ->
  quota_kept k feature period periodKey bound (w_db (snd (RecordUsage s in_ w))).
Proof.
  intros Hw Hkey Hq Hk Hquota Hl Hb Hi.
  assert (safe (quota_kept k feature period periodKey bound) (snd (RecordUsage s in_ w))) as [Hd _]; [|done].
  unfold RecordUsage. apply bind_readonly_safe; [auto with licensehub|by apply safe_closed|done|].
  intros lic w1 Hf Edb Hw1 Hs. apply loadLicenseForSDK_Ok in Hf as [(k' & l' & Hk' & -> & _) _]; [|done].
  assert (lic_ID l' = k') as Hid by by apply Hkey.
  destruct (find_quota _ (ri_Feature in_)) as [quota'|] eqn:Eq'; [|done].
  revert w1 Edb Hw1 Hs. enough (forall m : M error RecordUsageResult, keeps (quota_kept k feature period periodKey bound) m ->
    forall w1, w_db w1 = w_db w -> w_tx w1 = None -> safe (quota_kept k feature period periodKey bound) w1 ->
    safe (quota_kept k feature period periodKey bound) (snd (m w1))) as Hgo; [|intros m Hm w1 _ _; apply Hm].
  apply Hgo. unfold internal. keeps_go. apply Increment_keeps_quota; [lia|..].
  - destruct (ri_Quantity in_ <=? 0) eqn:E; bool_facts; [unfold int64_max; lia|lia].
  - intros Emt.
    set (c := mkUsageCounter "" k feature period periodKey 0 0).
    assert (this_counter k feature period periodKey c = true) as Hc by by apply same_counter_true.
    rewrite Emt in Hc. apply same_counter_true in Hc as (Ek & Ef & _). simpl in Ek, Ef. change (lic_ID l' = k) with (lic_ID l' = k) in *.
    assert (k' = k) as -> by congruence. assert (l' = l) as -> by congruence. rewrite <- Ef in Eq'. congruence.
Qed.

(** ** What an increment does when nothing fails *)

Section increment.
Context `{UUIDs} (licenseID feature period periodKey : string).
Let mine := this_counter licenseID feature period periodKey.

(** What the counter reads: 0 when there is none yet. *)
Definition used_of (db : DB) : Z :=
  match first_row (rows mine (db_usage_counters db)) with Some c => uc_Used c | None => 0 end.

Definition single_counter (db : DB) : Prop :=
  forall k c k' c', db_usage_counters db !! k = Some c -> db_usage_counters db !! k' = Some c' ->
    mine c = true -> mine c' = true -> k = k'.

(** The row [insert_counter] makes sure of. *)
Lemma insert_counter_calm id now w :
  calm w -> single_counter (w_db w) -> db_usage_counters (w_db w) !! id = None ->
  present (db_licenses (w_db w) !! licenseID) = true ->
  exists k c db', insert_counter licenseID feature period periodKey id now w = (Ok tt, set_db db' w) /\
    db_usage_counters db' !! k = Some c /\ mine c = true /\ uc_Used c = used_of (w_db w) /\ single_counter db'.
Proof.
  intros Hc Hs Hid Hl. unfold insert_counter. rewrite stmt_calm by done. cbv zeta.
  destruct (row_exists _ _) eqn:Er.
  - apply row_exists_true in Er as (k & c & Hk & Hm). exists k, c, (w_db w). split; [done|].
    split; [done|]. split; [done|]. split; [|done]. unfold used_of.
    rewrite (first_row_unique mine _ k c Hk Hm); [done|]. intros k' c' Hk' Hm'. by apply (Hs k' c' k c).
  - rewrite row_exists_false in Er. set (new := mkUsageCounter id licenseID feature period periodKey 0 now).
    assert (mine new = true) as Hnew by by apply same_counter_true.
    unfold insert_row. cbn [t_get usage_counters]. rewrite Hid.
    rewrite (proj2 (row_exists_false _ _)) by (intros k c Hk; apply (Er k c Hk)).
    cbn [t_check usage_counters]. change (uc_LicenseID new) with licenseID. rewrite Hl. simpl fk. cbv iota.
    exists id, new, (t_set usage_counters (<[id:=new]> (db_usage_counters (w_db w))) (w_db w)).
    split; [done|]. split; [apply lookup_insert_eq|]. split; [done|]. split.
    + unfold used_of. by rewrite (proj2 (first_row_rows_None _ _)).
    + intros k c k' c'. simpl.
      intros [(-> & <-)|(_ & H1)]%lookup_insert_Some [(-> & <-)|(_ & H2)]%lookup_insert_Some M1 M2; try done; fold mine in Er;
        first [specialize (Er _ _ H1); congruence | specialize (Er _ _ H2); congruence].
Qed.

Lemma first_mine db k c :
  single_counter db -> db_usage_counters db !! k = Some c -> mine c = true ->
  first_row (rows mine (db_usage_counters db)) = Some c.
Proof. intros Hs Hk Hm. apply (first_row_unique mine _ k c Hk Hm). intros k' c' Hk' Hm'. by apply (Hs k' c' k c). Qed.

Lemma row_out_of_range db k c quantity :
  single_counter db -> db_usage_counters db !! k = Some c -> mine c = true ->
  row_exists (fun c => mine c && negb (in_int64 (uc_Used c + quantity))) (db_usage_counters db)
  = negb (in_int64 (uc_Used c + quantity)).
Proof.
  intros Hs Hk Hm. destruct (in_int64 (uc_Used c + quantity)) eqn:E; simpl.
  - apply row_exists_false. intros k' c' Hk'. destruct (mine c') eqn:Em; [|done].
    assert (k' = k) as -> by by apply (Hs k' c' k c). assert (c' = c) as -> by congruence. by rewrite E.
  - apply row_exists_true. exists k, c. by rewrite Hm, E.
Qed.

(** Increment_exact: when nothing fails, an increment is refused exactly when
    the limit is positive and the sum (of [int64]s) exceeds it, and then
    reports what is used; else the counter of the period, created if it was
    missing, is increased by exactly the quantity and returned; a sum beyond
    the range of the column fails and leaves the tables as they were. *)
Theorem IncrementUsageCounterWithLimit_spec quantity limit w :
  quiet w -> single_counter (w_db w) ->
  db_usage_counters (w_db w) !! uuid_nth (w_ids w) = None ->
  present (db_licenses (w_db w) !! licenseID) = true ->
  let used := used_of (w_db w) in
  match IncrementUsageCounterWithLimit licenseID feature period periodKey quantity limit w with
  | (Ok (c, false), w') => 0 < limit /\ limit < go_add used quantity /\ uc_Used c = used /\
                           used_of (w_db w') = used
  | (Ok (c, true), w') => ~ (0 < limit /\ limit < go_add used quantity) /\ in_int64 (used + quantity) = true /\
                          uc_Used c = used + quantity /\ used_of (w_db w') = used + quantity
  | (Err e, w') => ~ (0 < limit /\ limit < go_add used quantity) /\ in_int64 (used + quantity) = false /\
                   e = ErrSQL NumericOutOfRange /\ w_db w' = w_db w
  end.
Proof.
  intros [Hf Ht] Hs Hid Hl used. unfold IncrementUsageCounterWithLimit, with_tx, mbind, M_bind, defer_rollback.
  assert (calm w) as Hc by (unfold calm; by rewrite Hf, Ht).
  rewrite begin_calm by done. destruct (tick w) as [t ds]. unfold newID, sql_now.
  set (w1 := set_ids _ _). change (w_tx w1) with (Some (mkTx (w_db w) false t)). cbv beta iota. cbn [tx_now].
  change (w_ids (set_tx _ _)) with (w_ids w). assert (calm w1) as Hc1 by (split; [simpl; congruence|done]).
  destruct (insert_counter_calm (uuid_nth (w_ids w)) t w1 Hc1 Hs Hid Hl) as (k & c & db' & -> & Hk & Hm & Hu & Hs').
  change (used_of (w_db w1)) with used in Hu.
  unfold select_used, add_used. set (w2 := set_db db' w1). assert (calm w2) as Hc2 by (split; [simpl; congruence|done]).
  rewrite !(stmt_calm _ w2) by done. change (w_db w2) with db'. fold mine. rewrite (first_mine db' k c) by done.
  change (set_db db' w2) with w2. rewrite Hu.
  destruct ((0 <? limit) && (limit <? go_add used quantity)) eqn:Eg.
  - rewrite (commit_calm _ (mkTx (w_db w) false t)) by done. simpl. bool_facts. split; [done|]. split; [done|].
    split; [done|]. unfold used_of. simpl. by rewrite (first_mine db' k c).
  - assert (~ (0 < limit /\ limit < go_add used quantity)) as Hg by (intros [H1 H2]; rewrite (proj2 (Z.ltb_lt _ _) H1), (proj2 (Z.ltb_lt _ _) H2) in Eg; done).
    cbv zeta. rewrite (stmt_calm _ w2) by done. change (w_db w2) with db'. fold mine.
    rewrite (row_out_of_range db' k c) by done. rewrite (first_mine db' k c), Hu by done.
    destruct (in_int64 (used + quantity)) eqn:Ei; simpl negb; cbv iota.
    + rewrite (commit_calm _ (mkTx (w_db w) false t)) by done. simpl. split; [done|]. split; [done|].
      split; [lia|]. unfold used_of. simpl.
      rewrite (first_row_unique mine _ k (uc_add quantity t c)); [simpl; lia|rewrite lookup_update_rows, Hk; simpl; fold mine; by rewrite Hm|done|].
      intros k' c'. rewrite lookup_update_rows. intros (c1 & Hc1' & ->)%fmap_Some Hm'.
      apply (Hs' k' c1 k c); [done..| |done]. by destruct (mine c1) eqn:E1; [|rewrite E1 in Hm'].
    + simpl. done.
Qed.
End increment.

(** ** Instances *)

#[local] Existing Instance Demo.uuids.

Module UsageDemo.
Definition service : UsageService := mkUsageService true (SFdiv 53 1024 (float64 8) (float64 10)).
Definition input (quantity : Z) : RecordUsageInput :=
  mkRecordUsageInput "key-1" "export" quantity ∅ "" "10.0.0.1".
End UsageDemo.

Lemma demo_licenses_keyed : licenses_keyed Demo.db.
Proof. apply (map_Forall_to_list (fun k l => lic_ID l = k)). vm_compute. repeat constructor. Qed.

(** A quantity whose sum with the counter wraps around is refused by the
    column, and the quota of 10 still holds. *)
Lemma RecordUsage_respects_quota_witness :
  quota_kept "lic-1" "export" "monthly" "1970-01" 10
    (w_db (snd (RecordUsage UsageDemo.service (UsageDemo.input int64_max) Demo.world))).
Proof.
  refine (RecordUsage_respects_quota UsageDemo.service (UsageDemo.input int64_max) Demo.world "lic-1" _ "export"
    (Demo.entitlement "ent-1" "plan-1" "export" "quota" "10" "day") "monthly" "1970-01" 10
    eq_refl demo_licenses_keyed _ eq_refl _ _ _ _).
  - vm_compute. congruence.
  - vm_compute. reflexivity.
  - vm_compute. split; congruence.
  - vm_compute. congruence.
  - intros k c Hk. discriminate Hk.
Defined.

Lemma IncrementUsageCounterWithLimit_spec_witness :
  match IncrementUsageCounterWithLimit "lic-1" "export" "daily" "1970-01-01" 11 10 Demo.world with
  | (Ok (c, accepted), w') => accepted = false /\ used_of "lic-1" "export" "daily" "1970-01-01" (w_db w') = 0
  | (Err _, _) => False
  end.
Proof.
  assert (single_counter "lic-1" "export" "daily" "1970-01-01" (w_db Demo.world)) as Hs
    by (intros k c k' c' Hk; discriminate Hk).
  pose proof (IncrementUsageCounterWithLimit_spec "lic-1" "export" "daily" "1970-01-01" 11 10 Demo.world
    (conj eq_refl eq_refl) Hs eq_refl eq_refl) as Hspec.
  change (used_of "lic-1" "export" "daily" "1970-01-01" (w_db Demo.world)) with 0 in Hspec. cbv zeta in Hspec.
  destruct (IncrementUsageCounterWithLimit _ _ _ _ _ _ _) as [[[c []]|e] w'].
  - destruct Hspec as [Hno _]. exfalso. apply Hno. split; reflexivity.
  - split; [reflexivity|]. apply Hspec.
  - destruct Hspec as [Hno _]. exfalso. apply Hno. split; reflexivity.
Defined.
