(* ===== verification/Entitlement.v ===== *)
(** * Feature checks ([service/entitlement.go], [store/addons.go])

    The SDK's [Check]: the features of a licence's plan with the state of
    their quotas, extended and overridden by the enabled add-ons. *)

From S2P Require Import Prelude GoStrings GoTime Errors Model Lockout World Tables Logic Token Usability Store.
From S2P Require Import Webhook LicenseService Lookup Usage Demo.
From Stdlib Require Import Ascii String.

#[local] Open Scope string_scope.
#[local] Open Scope Z_scope.

Record CheckInput := mkCheckInput { ci_LicenseKey : string; ci_Feature : string; ci_ProductID : string }.

Record FeatureStatus := mkFeatureStatus {
  fs_Enabled : bool;
  fs_ValueType : string;
  fs_Value : string;
  fs_Used : option Z;
  fs_Limit : option Z;
  fs_Remaining : option Z;
  fs_Period : string;
  fs_ResetsAt : string
}.

Record CheckResult := mkCheckResult {
  cr_Licensed : bool;
  cr_Status : string;
  cr_PlanID : string;
  cr_PlanName : string;
  cr_Features : gmap string FeatureStatus
}.

Section store.
Context `{UUIDs}.

(** [INSERT ... ON CONFLICT (license_id, addon_id) DO UPDATE SET enabled = EXCLUDED.enabled]. *)
Definition AddLicenseAddon (la : LicenseAddon) : M goerr unit :=
  id ← fresh_id (la_ID la);
  stmt (fun db =>
    let same la' := streq (la_LicenseID la') (la_LicenseID la) && streq (la_AddonID la') (la_AddonID la) in
    if row_exists same (db_license_addons db) then
      Ok (tt, t_set license_addons (update_rows same
            (fun la' => mkLicenseAddon (la_ID la') (la_LicenseID la') (la_AddonID la') (la_Enabled la) None)
            (db_license_addons db)) db)
    else insert_row license_addons id
           (mkLicenseAddon id (la_LicenseID la) (la_AddonID la) (la_Enabled la) None) db).

Definition RemoveLicenseAddon (licenseID addonID : string) : M goerr unit :=
  sql_delete license_addons (fun la => streq (la_LicenseID la) licenseID && streq (la_AddonID la) addonID) ;;
  mret tt.

Definition ListLicenseAddons (licenseID : string) : M goerr (list LicenseAddon) := stmt (fun db =>
  Ok (load_addon db <$>
        (map_to_list (rows (fun la => streq (la_LicenseID la) licenseID && la_Enabled la)
                           (db_license_addons db))).*2, db)).
End store.

(** The status of one feature, of a plan or of an add-on. *)
Definition quota_status (licenseID feature valueType value quotaPeriod : string) : M error FeatureStatus :=
  let limit := ParseInt value in
  let period := quota_period quotaPeriod in
  now ← time_Now;
  used ← used_now licenseID feature period (CurrentPeriodKey period now);
  later ← time_Now;
  mret (mkFeatureStatus true valueType value (Some used) (Some limit) (Some (remaining limit used)) period
          (nextPeriodReset period later)).

Definition feature_status (licenseID feature valueType value quotaPeriod : string) : M error FeatureStatus :=
  if streq valueType "bool" then
    mret (mkFeatureStatus (streq value "true") valueType value None None None "" "")
  else if streq valueType "quota" then quota_status licenseID feature valueType value quotaPeriod
  else mret (mkFeatureStatus true valueType value None None None "" "").

(** A source of features: its name, value type, value and quota period. *)
Record Feature := mkFeature { f_name : string; f_type : string; f_value : string; f_period : string }.

Definition plan_features (lic : License) : list Feature :=
  match lic_Plan lic with
  | Some plan => (fun e => mkFeature (ent_Feature e) (ent_ValueType e) (ent_Value e) (ent_QuotaPeriod e))
                   <$> plan_Entitlements plan
  | None => []
  end.

(** An add-on row whose [Addon] did not load is skipped. *)
Definition addon_features (addons : list LicenseAddon) : list Feature :=
  omap (fun la => (fun a => mkFeature (addon_Feature a) (addon_ValueType a) (addon_Value a) (addon_QuotaPeriod a))
                    <$> la_Addon la) addons.

(** The loop over a source: features not asked for are skipped, a later
    feature of the same name replaces an earlier one. *)
Fixpoint merge_features (licenseID wanted : string) (l : list Feature) (features : gmap string FeatureStatus)
    : M error (gmap string FeatureStatus) :=
  match l with
  | [] => mret features
  | f :: l =>
      if negb (streq wanted "") && negb (streq (f_name f) wanted)
      then merge_features licenseID wanted l features
      else
        fs ← feature_status licenseID (f_name f) (f_type f) (f_value f) (f_period f);
        merge_features licenseID wanted l (<[f_name f := fs]> features)
  end.

Definition Check_ (in_ : CheckInput) : M error CheckResult :=
  lic ← loadLicenseForSDK (ci_LicenseKey in_) (ci_ProductID in_) "" true;
  let '(planID, planName) := match lic_Plan lic with Some p => (plan_ID p, plan_Name p) | None => ("", "") end in
  features ← merge_features (lic_ID lic) (ci_Feature in_) (plan_features lic) ∅;
  r ← attempt (ListLicenseAddons (lic_ID lic));
  let addons := match r with Ok l => l | Err _ => [] end in
  features ← merge_features (lic_ID lic) (ci_Feature in_) (addon_features addons) features;
  mret (mkCheckResult true (lic_Status lic) planID planName features).

(** ** Which feature wins *)

(** The last feature of a list with a name, among those asked for. *)
Fixpoint last_named (wanted f : string) (l : list Feature) : option Feature :=
  match l with
  | [] => None
  | x :: l =>
      match last_named wanted f l with
      | Some y => Some y
      | None => if streq (f_name x) f && (streq wanted "" || streq f wanted) then Some x else None
      end
  end.

(** A status reports a feature. *)
Definition reports (st : FeatureStatus) (f : Feature) : Prop :=
  fs_ValueType st = f_type f /\ fs_Value st = f_value f /\
  fs_Enabled st = (negb (streq (f_type f) "bool") || streq (f_value f) "true") /\
  (f_type f = "quota" -> exists used, fs_Used st = Some used /\ fs_Limit st = Some (ParseInt (f_value f)) /\
     fs_Remaining st = Some (remaining (ParseInt (f_value f)) used)).

Lemma feature_status_reports licenseID f w st w' :
  feature_status licenseID (f_name f) (f_type f) (f_value f) (f_period f) w = (Ok st, w') -> reports st f.
Proof.
  unfold feature_status, reports. intros Hr.
  destruct (streq (f_type f) "bool") eqn:Eb; [|destruct (streq (f_type f) "quota") eqn:Eq]; str_facts.
  - inv_ok. simpl. split; [done|]. split; [done|]. split; [done|]. congruence.
  - unfold quota_status in Hr. inv_ok. simpl. split; [done|]. split; [done|]. split; [done|]. eauto.
  - inv_ok. simpl. split; [done|]. split; [done|]. split; [done|]. congruence.
Qed.

Lemma merge_features_Ok licenseID wanted l features w features' w' :
  merge_features licenseID wanted l features w = (Ok features', w') ->
  forall f, match last_named wanted f l with
            | Some x => exists st, features' !! f = Some st /\ reports st x
            | None => features' !! f = features !! f
            end.
Proof.
  revert features w. induction l as [|x l IH]; intros features w Hr f; simpl in *; [by inv_ok|].
  destruct (negb _ && negb _) eqn:Eskip.
  - specialize (IH _ _ Hr f). destruct (last_named wanted f l); [done|].
    apply andb_true_iff in Eskip as [E1 E2]. apply negb_true_iff in E1, E2.
    destruct (streq (f_name x) f) eqn:E3; [|done]. str_facts. subst f. by rewrite (streq_neq _ _ E1), (streq_neq _ _ E2).
  - inv_ok. match goal with H : feature_status _ _ _ _ _ _ = _ |- _ => apply feature_status_reports in H; rename H into Hst end.
    specialize (IH _ _ Hr f). destruct (last_named wanted f l); [done|].
    destruct (streq (f_name x) f) eqn:E3; str_facts.
    + subst f. rewrite lookup_insert_eq in IH.
      assert (streq wanted "" || streq (f_name x) wanted = true) as ->; [|simpl; eauto].
      rewrite orb_true_iff. apply andb_false_iff in Eskip as [E|E]; apply negb_false_iff in E; auto.
    + simpl. by rewrite lookup_insert_ne in IH.
Qed.

Lemma last_named_app wanted f l1 l2 :
  last_named wanted f (l1 ++ l2) = match last_named wanted f l2 with Some x => Some x | None => last_named wanted f l1 end.
Proof. induction l1 as [|x l1 IH]; simpl; [by destruct (last_named wanted f l2)|]. rewrite IH. by destruct (last_named wanted f l2). Qed.

(** ** Properties *)

(** The enabled add-ons of a licence, as the tables have them. *)
Definition enabled_addons (db : DB) (licenseID : string) : list LicenseAddon :=
  load_addon db <$> (map_to_list (rows (fun la => streq (la_LicenseID la) licenseID && la_Enabled la)
                                       (db_license_addons db))).*2.

Lemma readonly_used_now l f p k : readonly (used_now l f p k).
Proof. unfold used_now, GetUsageCounter. readonly_go. Qed.
#[export] Hint Resolve readonly_used_now : licensehub.

Lemma readonly_merge_features licenseID wanted l features : readonly (merge_features licenseID wanted l features).
Proof.
  revert features. induction l as [|x l IH]; intros features; simpl; [readonly_go|].
  destruct (_ && _); [apply IH|]. apply readonly_bind; [|intros st; apply IH].
  unfold feature_status, quota_status. readonly_go.
Qed.

(** Check_features: a feature check that succeeds is of a usable licence with
    the given key, and reports exactly the features asked for of its plan and
    of its enabled add-ons, an add-on's value replacing the plan's (add-ons
    are left out when they cannot be read). *)
Theorem Check_features in_ w r w' :
  w_tx w = None -> Check_ in_ w = (Ok r, w') ->
  exists lic addons now,
    found (ci_LicenseKey in_) (w_db w) lic /\ w_clock w <= now /\ IsLicenseUsable now lic = true /\
    (addons = [] \/ addons = enabled_addons (w_db w) (lic_ID lic)) /\ cr_Status r = lic_Status lic /\
    forall f,
      match last_named (ci_Feature in_) f (plan_features lic ++ addon_features addons) with
      | Some x => exists st, cr_Features r !! f = Some st /\ reports st x
      | None => cr_Features r !! f = None
      end.
Proof.
  intros Hw Hc. unfold Check_ in Hc.
  apply bind_readonly_Ok in Hc as (lic & w1 & Hl & D1 & T1 & C1 & Hc); [|auto with licensehub|done].
  apply loadLicenseForSDK_Ok in Hl as (Hf & _ & _ & Hu); [|done]. destruct (Hu eq_refl) as (now & Hn & Hus).
  destruct (match lic_Plan lic with Some p => _ | None => _ end) as [planID planName].
  apply bind_readonly_Ok in Hc as (fs1 & w2 & Hm1 & D2 & T2 & C2 & Hc); [|apply readonly_merge_features|done].
  apply bind_Ok in Hc as (la & w3 & Hla & Hc). apply (proj1 (attempt_Ok _ _ _ _)) in Hla. cbv zeta in Hc. inv_ok.
  match goal with H : merge_features _ _ (addon_features ?a) _ _ = _ |- _ =>
    pose proof (merge_features_Ok _ _ _ _ _ _ _ H) as Hm2; exists lic, a, now end.
  pose proof (merge_features_Ok _ _ _ _ _ _ _ Hm1) as Hm1'. clear Hm1. rename Hm1' into Hm1. split; [done|]. split; [done|]. split; [done|]. split.
  - destruct la as [l|e]; [right|by left]. unfold ListLicenseAddons in Hla. apply stmt_Ok in Hla as (Hla & _).
    injection Hla as <- _. by rewrite D2, D1.
  - split; [done|]. intros f. simpl. rewrite last_named_app. specialize (Hm1 f). specialize (Hm2 f).
    destruct (last_named _ f (addon_features _)); [done|]. destruct (last_named _ f (plan_features lic)).
    + by rewrite Hm2.
    + by rewrite Hm2, Hm1.
Qed.

Lemma Check_features_witness :
  exists r w', Check_ (mkCheckInput "KEY-1" "sso" "") Demo.world = (Ok r, w') /\
    exists lic, found "KEY-1" Demo.db lic /\ cr_Status r = lic_Status lic.
Proof.
  destruct (Check_ (mkCheckInput "KEY-1" "sso" "") Demo.world) as [[r|e] w'] eqn:E.
  - destruct (Check_features (mkCheckInput "KEY-1" "sso" "") Demo.world r w' eq_refl E)
      as (lic & addons & now & Hf & _ & _ & _ & Hs & _).
    exists r, w'. split; [reflexivity|]. exists lic. exact (conj Hf Hs).
  - exfalso. vm_compute in E. discriminate E.
Defined.
