(* ===== verification/Seats.v ===== *)
(** * Team seats ([store/seats.go], [service/seats.go])

    Inviting to a seat under the plan's limit, in one transaction that also
    rotates pending invitations and restores removed seats; claiming an
    invitation by its token; removal, listing and the access check. *)

From S2P Require Import Prelude GoStrings Errors Model Crypto Lockout World Tables Logic Token Usability Store.
From S2P Require Import Webhook LicenseService Lookup Demo.
From Stdlib Require Import Ascii String.

#[local] Open Scope string_scope.
#[local] Open Scope Z_scope.

Definition SeatInviteTTL : Duration := 7 * 24 * Hour.

Definition HashSeatInviteToken (plain : string) : string := sha256_hex plain.

(** The plain token and its hash; empty when the random source fails. *)
Definition GenerateSeatInviteToken {E} : M E (string * string) :=
  b ← rand_Read 32;
  mret (match b with
        | None => ("", "")
        | Some b => let plain := hex_EncodeToString b in (plain, HashSeatInviteToken plain)
        end).

Inductive SeatAddOutcome := SeatCreated | SeatRestored | SeatExisted.
Definition outcome_string (o : SeatAddOutcome) : string :=
  match o with SeatCreated => "created" | SeatRestored => "restored" | SeatExisted => "existed" end.

(** ** Columns *)

Definition seat_new (id : string) (now : Time) (s : Seat) : Seat :=
  mkSeat id (seat_LicenseID s) (seat_UserID s) (seat_Email s) (seat_Role s) now (seat_AcceptedAt s)
    (seat_RemovedAt s) (seat_InviteTokenHash s) (seat_InviteExpiresAt s) now.

(** Role and invitation of [src] over a stored seat. *)
Definition seat_reinvite (src s : Seat) : Seat :=
  mkSeat (seat_ID s) (seat_LicenseID s) (seat_UserID s) (seat_Email s) (seat_Role src) (seat_InvitedAt s)
    (seat_AcceptedAt s) (seat_RemovedAt s) (seat_InviteTokenHash src) (seat_InviteExpiresAt src) (seat_CreatedAt s).

(** The same, with the removal, the user and the acceptance cleared. *)
Definition seat_restore (src s : Seat) : Seat :=
  mkSeat (seat_ID s) (seat_LicenseID s) "" (seat_Email s) (seat_Role src) (seat_InvitedAt s)
    None None (seat_InviteTokenHash src) (seat_InviteExpiresAt src) (seat_CreatedAt s).

Definition seat_accept (userID : string) (now : Time) (s : Seat) : Seat :=
  mkSeat (seat_ID s) (seat_LicenseID s) userID (seat_Email s) (seat_Role s) (seat_InvitedAt s)
    (Some now) (seat_RemovedAt s) "" None (seat_CreatedAt s).

Definition seat_unaccept (s : Seat) : Seat :=
  mkSeat (seat_ID s) (seat_LicenseID s) "" (seat_Email s) (seat_Role s) (seat_InvitedAt s)
    None (seat_RemovedAt s) (seat_InviteTokenHash s) (seat_InviteExpiresAt s) (seat_CreatedAt s).

Definition seat_remove (now : Time) (s : Seat) : Seat :=
  mkSeat (seat_ID s) (seat_LicenseID s) (seat_UserID s) (seat_Email s) (seat_Role s) (seat_InvitedAt s)
    (seat_AcceptedAt s) (Some now) (seat_InviteTokenHash s) (seat_InviteExpiresAt s) (seat_CreatedAt s).

(** ** Store *)

Definition live (s : Seat) : bool := negb (present (seat_RemovedAt s)).
Definition live_of (licenseID : string) (s : Seat) : bool := streq (seat_LicenseID s) licenseID && live s.

Definition FindSeatByID (id : string) : M goerr Seat := sql_select_one seats (fun s => streq (seat_ID s) id).

Definition FindSeatByEmail (licenseID email : string) : M goerr Seat :=
  sql_select_one seats (fun s => live_of licenseID s && streq (seat_Email s) email).

Definition ListSeats (licenseID : string) : M goerr (list Seat) := stmt (fun db =>
  Ok (sort_by seat_CreatedAt (map_to_list (rows (live_of licenseID) (db_seats db))).*2, db)).

Definition CountActiveSeats (licenseID : string) : M goerr Z := sql_count seats (live_of licenseID).

Definition RemoveSeat (id : string) : M goerr unit :=
  now ← time_Now;
  sql_update seats (fun s => streq (seat_ID s) id && live s) (seat_remove now) ;;
  mret tt.

Definition RollbackSeatAccept (seatID : string) : M goerr unit :=
  sql_update seats (fun s => streq (seat_ID s) seatID) seat_unaccept ;; mret tt.

Section store.
Context `{UUIDs}.

(** [NewInsert]: [invited_at] and [created_at] default to [now()]. *)
Definition insert_seat (s : Seat) : M goerr Seat :=
  now ← sql_now;
  sql_insert seats (seat_ID s) (seat_new (seat_ID s) now s) ;;
  mret (seat_new (seat_ID s) now s).

Definition CreateSeat (s : Seat) : M goerr Seat :=
  id ← fresh_id (seat_ID s);
  insert_seat (seat_new id 0 s).

(** A live seat already has this address. *)
Definition readd_live (existing seat : Seat) : M goerr (SeatAddOutcome * Seat) :=
  if present (seat_AcceptedAt existing) then commit_tx ;; mret (SeatExisted, existing)
  else
    sql_update_checked seats (seat_ID existing) (seat_reinvite seat) ;;
    commit_tx ;;
    mret (SeatRestored, seat_reinvite seat existing).

Definition check_capacity (licenseID : string) (maxSeats : Z) : M goerr unit :=
  if 0 <? maxSeats then
    count ← sql_count seats (live_of licenseID);
    if maxSeats <=? count then throw ErrSeatLimitReached else mret tt
  else mret tt.

(** [ORDER BY removed_at DESC LIMIT 1]. *)
Definition latest_removed (licenseID email : string) : M goerr Seat :=
  l ← sql_select_ordered seats
        (fun s => streq (seat_LicenseID s) licenseID && streq (seat_Email s) email && negb (live s))
        (fun s => - default 0 (seat_RemovedAt s)) 1;
  match l with s :: _ => mret s | [] => throw ErrNoRows end.

Definition restore_or_insert (seat : Seat) : M goerr (SeatAddOutcome * Seat) :=
  r ← attempt (latest_removed (seat_LicenseID seat) (seat_Email seat));
  match r with
  | Ok removed =>
      sql_update_checked seats (seat_ID removed) (seat_restore seat) ;;
      commit_tx ;;
      mret (SeatRestored, seat_restore seat removed)
  | Err e =>
      if negb (goerr_Is e ErrNoRows) then throw e
      else seat ← insert_seat seat; commit_tx ;; mret (SeatCreated, seat)
  end.

Definition AddSeatWithinLimit (seat : Seat) (maxSeats : Z) : M goerr (SeatAddOutcome * Seat) :=
  id ← fresh_id (seat_ID seat);
  let seat := seat_new id 0 seat in
  with_tx (
    sql_lock ;;
    r ← attempt (FindSeatByEmail (seat_LicenseID seat) (seat_Email seat));
    match r with
    | Ok existing => readd_live existing seat
    | Err e =>
        if negb (goerr_Is e ErrNoRows) then throw e
        else check_capacity (seat_LicenseID seat) maxSeats ;; restore_or_insert seat
    end).

(** The user of a seat's address: [LOWER(email) = ?], created if missing. *)
Definition find_or_create_user (email : string) : M goerr User :=
  r ← attempt (sql_select_one users (fun u => streq (ToLower (user_Email u)) email));
  match r with
  | Ok user => mret user
  | Err e =>
      if goerr_Is e ErrNoRows then
        id ← newID;
        now ← sql_now;
        let user := mkUser id email "" "" RoleUser 0 now now in
        sql_insert users id user ;;
        mret user
      else throw e
  end.

Definition claimable (now : Time) (hash : string) (seat : Seat) : bool :=
  streq (seat_InviteTokenHash seat) hash
  && live seat && negb (present (seat_AcceptedAt seat))
  && match seat_InviteExpiresAt seat with None => false | Some t => negb (Before t now) end.

Definition AcceptSeatInvite (plainToken : string) : M goerr (User * Seat) :=
  if streq plainToken "" then throw ErrSeatInviteInvalid
  else
    let hash := HashSeatInviteToken plainToken in
    with_tx (
      r ← attempt (sql_select_one seats (fun s => streq (seat_InviteTokenHash s) hash));
      match r with
      | Err e => if goerr_Is e ErrNoRows then throw ErrSeatInviteInvalid else throw e
      | Ok seat =>
          now ← time_Now;
          if negb (claimable now hash seat) then throw ErrSeatInviteInvalid
          else
            user ← find_or_create_user (seat_Email seat);
            accepted ← time_Now;
            sql_update_checked seats (seat_ID seat) (seat_accept (user_ID user) accepted) ;;
            commit_tx ;;
            mret (user, seat_accept (user_ID user) accepted seat)
      end).
End store.

(** ** Service *)

Record AddSeatInput := mkAddSeatInput {
  as_LicenseKey : string; as_Email : string; as_Role : string; as_ProductID : string; as_ActorUserID : string }.

Record AcceptSeatInviteResult := mkAcceptSeatInviteResult {
  asr_UserID : string; asr_Email : string; asr_LicenseID : string; asr_ProductName : string; asr_Role : string }.

Record SeatService := mkSeatService {
  ss_email : bool;                   (* [s.email != nil && s.email.IsConfigured()] *)
  ss_baseURL : string
}.

Definition NewSeatService (email : bool) (baseURL : string) : SeatService :=
  mkSeatService email (TrimRightByte "/" baseURL).

Definition seat_audit (action seatID actorID : string) (changes : gmap string any) : AuditLog :=
  mkAuditLog "" "seat" seatID action actorID "portal_user" changes "" 0.

Definition inviteInvalid : error :=
  AppErr (New 404 "SEAT_INVITE_INVALID" "this invitation is invalid or has expired").

Section service.
Context `{UUIDs} (mail_ParseAddress : string -> option string) (s : SeatService).

Definition inviteURL (plainToken : string) : string :=
  if streq (ss_baseURL s) "" then "/accept-invite?token=" +:+ plainToken
  else ss_baseURL s +:+ "/accept-invite?token=" +:+ plainToken.

Definition max_seats (lic : License) : Z := match lic_Plan lic with Some p => plan_MaxSeats p | None => 0 end.

Definition seat_limit_error (lic : License) (err : goerr) : M error Seat :=
  if goerr_Is err ErrSeatLimitReached then
    r ← attempt (CountActiveSeats (lic_ID lic));
    let current := match r with Ok n => n | Err _ => 0 end in
    throw (AppErr (WithDetails (Conflict "SEAT_LIMIT" "maximum seats reached")
      {["max" := AnyInt (max_seats lic); "current" := AnyInt current]}))
  else throw (AppErr (Internal err)).

(** Webhook and invitation, for a seat that became active. *)
Definition announce_seat (lic : License) (email role plainToken : string) (outcome : SeatAddOutcome) (seat : Seat)
    : M error unit :=
  match outcome with
  | SeatExisted => mret tt
  | _ =>
      Dispatch (lic_ProductID lic) EventSeatAdded
        {["license_id" := AnyString (lic_ID lic); "seat_id" := AnyString (seat_ID seat);
          "email" := AnyString email; "role" := AnyString role;
          "outcome" := AnyString (outcome_string outcome)]} ;;
      if ss_email s then
        let productName := match lic_Product lic with Some p => prod_Name p | None => "" end in
        emit (EvEmail "seat_invite" email [productName; lic_Email lic; inviteURL plainToken])
      else mret tt
  end.

Definition add_seat (lic : License) (email role actorID : string) : M error Seat :=
  t ← GenerateSeatInviteToken;
  let '(plainToken, tokenHash) := t in
  if streq plainToken "" then throw (AppErr (Internal (ErrText "invite token generation failed")))
  else
    now ← time_Now;
    let expiresAt := Add now SeatInviteTTL in
    r ← attempt (AddSeatWithinLimit
      (mkSeat "" (lic_ID lic) "" email role 0 None None tokenHash (Some expiresAt) 0) (max_seats lic));
    match r with
    | Err err => seat_limit_error lic err
    | Ok (outcome, seat) =>
        announce_seat lic email role plainToken outcome seat ;;
        Audit (seat_audit "seat_invited" (seat_ID seat) actorID
          {["license_id" := AnyString (lic_ID lic); "email" := AnyString email; "role" := AnyString role;
            "outcome" := AnyString (outcome_string outcome)]}) ;;
        mret seat
    end.

Definition AddSeat (in_ : AddSeatInput) : M error Seat :=
  let email := ToLower (TrimSpace (as_Email in_)) in
  match ValidateEmail mail_ParseAddress email with
  | Some e => throw (AppErr e)
  | None =>
      let role := if streq (as_Role in_) "" then "member" else as_Role in_ in
      if negb (streq role "admin") && negb (streq role "member") then
        throw (AppErr (BadRequest "role must be admin or member"))
      else
        lic ← loadLicenseForSDK (as_LicenseKey in_) (as_ProductID in_) CapSeats true;
        if EqualFold email (lic_Email lic) then
          throw (AppErr (BadRequest "cannot invite the license owner — they already have access"))
        else add_seat lic email role (as_ActorUserID in_)
  end.

Definition AcceptSeatInvite_service (plainToken : string) : M error AcceptSeatInviteResult :=
  r ← attempt (AcceptSeatInvite plainToken);
  match r with
  | Err err => if goerr_Is err ErrSeatInviteInvalid then throw inviteInvalid else throw (AppErr (Internal err))
  | Ok (user, seat) =>
      lic ← internal (FindLicenseByID (seat_LicenseID seat));
      if contains (lic_Status lic) ["suspended"; "revoked"; "canceled"; "expired"] then
        rb ← attempt (RollbackSeatAccept (seat_ID seat));
        match rb with Err _ => emit (EvWarn "seat accept rollback failed") | Ok _ => mret tt end ;;
        throw inviteInvalid
      else
        mret (mkAcceptSeatInviteResult (user_ID user) (user_Email user) (seat_LicenseID seat)
          (match lic_Product lic with Some p => prod_Name p | None => "" end) (seat_Role seat))
  end.

Definition RemoveSeat_service (licenseKey seatID productID actorUserID : string) : M error unit :=
  lic ← loadLicenseForSDK licenseKey productID CapSeats true;
  seat ← map_err (fun _ => AppErr (NotFound "SEAT" seatID)) (FindSeatByID seatID);
  if negb (streq (seat_LicenseID seat) (lic_ID lic)) then throw (AppErr (NotFound "SEAT" seatID))
  else
    internal (RemoveSeat seatID) ;;
    Dispatch (lic_ProductID lic) EventSeatRemoved
      {["license_id" := AnyString (lic_ID lic); "seat_id" := AnyString seatID; "email" := AnyString (seat_Email seat)]} ;;
    Audit (seat_audit "seat_removed" seatID actorUserID
      {["license_id" := AnyString (lic_ID lic); "email" := AnyString (seat_Email seat)]}).

Definition ListSeats_service (licenseKey productID : string) : M error (list Seat) :=
  lic ← loadLicenseForSDK licenseKey productID CapSeats true;
  internal (ListSeats (lic_ID lic)).

Definition CheckSeatAccess (licenseKey email productID : string) : M error bool :=
  r ← attempt (FindLicenseByKey licenseKey);
  match r with
  | Err _ => mret false
  | Ok lic =>
      if negb (streq productID "") && negb (streq (lic_ProductID lic) productID) then mret false
      else match lic_Plan lic with
      | None => mret true
      | Some p =>
          if plan_MaxSeats p =? 0 then mret true
          else
            r ← attempt (FindSeatByEmail (lic_ID lic) email);
            mret (match r with Ok _ => true | Err _ => false end)
      end
  end.
End service.

(** ** The seat limit, whatever fails *)

Section seat_limit.
Context `{UUIDs} (k : string) (bound : Z).

(** Seats are stored under their identifier, and the licence has at most
    [bound] live ones. *)
Definition seats_within (db : DB) : Prop :=
  (forall id s, db_seats db !! id = Some s -> seat_ID s = id) /\ count (live_of k) (db_seats db) <= bound.

(** There is room for one more seat of [licenseID]. *)
Definition room (licenseID : string) (db : DB) : Prop :=
  licenseID = k -> count (live_of k) (db_seats db) < bound.

Lemma seats_within_put id s0 s db :
  seats_within db -> db_seats db !! id = Some s0 -> seat_ID s = id ->
  (live_of k s = true -> live_of k s0 = true \/ count (live_of k) (db_seats db) < bound) ->
  seats_within (t_set seats (<[id := s]> (db_seats db)) db).
Proof.
  intros [Hkey Hc] Hid Es Hl. split.
  - simpl. intros id' s' [(-> & <-)|(_ & Hs')]%lookup_insert_Some; [done|by apply Hkey].
  - simpl. rewrite (count_insert _ _ _ _ s0) by done.
    destruct (live_of k s), (live_of k s0); simpl; lia.
Qed.

Lemma insert_seat_keeps s :
  hoare seats_within (room (seat_LicenseID s)) (insert_seat s) (fun _ _ => True).
Proof.
  apply hoare_bind_still; [auto with licensehub| |done]. intros now.
  eapply hoare_bind; [apply hoare_insert| |done].
  - intros db [Hkey Hc] Hr Hid _ _. split; simpl.
    + intros id' s' [(-> & <-)|(_ & Hs')]%lookup_insert_Some; [done|by apply Hkey].
    + rewrite count_insert_fresh by done. unfold live_of at 2. simpl.
      destruct (streq (seat_LicenseID s) k) eqn:E; simpl; [|lia]. str_facts. specialize (Hr E).
      destruct (live _); simpl; lia.
  - intros []. apply hoare_drop. keeps_go.
Qed.

Lemma readd_live_keeps e seat : keeps seats_within (readd_live e seat).
Proof.
  unfold readd_live. keeps_go. apply hoare_keeps, hoare_update_checked.
  intros db s0 Hi _ Hs _ _. apply (seats_within_put _ s0); [done..| |by left].
  simpl. by apply (proj1 Hi).
Qed.

Lemma check_capacity_room licenseID maxSeats :
  (licenseID = k -> 0 < maxSeats <= bound) ->
  hoare seats_within (fun _ => True) (check_capacity licenseID maxSeats)
    (fun r db => match r with Ok _ => room licenseID db | Err _ => True end).
Proof.
  intros Hm. unfold check_capacity. destruct (0 <? maxSeats) eqn:E0; bool_facts.
  - eapply hoare_bind; [apply hoare_count| |done]. intros n. simpl.
    destruct (maxSeats <=? n) eqn:E; bool_facts.
    + eapply hoare_weaken; [apply hoare_throw|intros db _ Hp; exact Hp|]. by intros [u|e] db _ [? _].
    + eapply hoare_weaken; [apply hoare_ret|intros db _ Hp; exact Hp|]. intros [u|e] db _ [_ [_ En]]; [|done].
      intros El. specialize (Hm El). subst licenseID. simpl in En. lia.
  - eapply hoare_weaken; [apply hoare_ret|intros db _ Hp; exact Hp|]. intros [u|e] db _ _; [|done].
    intros El. specialize (Hm El). lia.
Qed.

Lemma restore_or_insert_keeps seat :
  hoare seats_within (room (seat_LicenseID seat)) (restore_or_insert seat) (fun _ _ => True).
Proof.
  unfold restore_or_insert. eapply hoare_bind; [| |done].
  - apply hoare_attempt. unfold latest_removed. eapply hoare_bind; [apply hoare_select_ordered| |].
    + intros l. instantiate (1 := fun r db => room (seat_LicenseID seat) db /\
        match r with Ok s => exists id, db_seats db !! id = Some s /\ seat_LicenseID s = seat_LicenseID seat
                   | Err _ => True end).
      destruct l as [|s l].
      * eapply hoare_weaken; [apply hoare_throw|intros db _ Hp; exact Hp|]. by intros [u|e] db _ [? [? _]].
      * eapply hoare_weaken; [apply hoare_ret|intros db _ Hp; exact Hp|]. intros [u|e] db _ [Hu [Hr Hl]]; [|done].
        injection Hu as ->. split; [done|]. destruct (Hl s ltac:(by left)) as (id & Hid & Hp).
        exists id. split; [done|]. bool_facts. by str_facts.
    + simpl. by intros e db [Hr _].
  - intros [s|e]; simpl.
    + eapply hoare_bind; [apply hoare_update_checked| |done].
      * intros db s0 Hi (Hr & id & Hid & El) Hs _ _. assert (seat_ID s = id) as Eid by by apply (proj1 Hi).
        simpl in Hs. rewrite Eid in Hs |- *. assert (s0 = s) as -> by congruence.
        apply (seats_within_put id s); [done..|]. intros Hlv. right. apply Hr.
        unfold live_of in Hlv. simpl in Hlv. bool_facts. str_facts. congruence.
      * intros n. apply hoare_drop. keeps_go.
    + destruct (negb _); [apply hoare_drop; keeps_go|].
      eapply hoare_bind; [eapply hoare_weaken; [apply insert_seat_keeps| |done]| |done].
      * by intros db _ [Hr _].
      * intros s. apply hoare_drop. keeps_go.
Qed.

Lemma AddSeatWithinLimit_keeps seat maxSeats :
  (seat_LicenseID seat = k -> 0 < maxSeats <= bound) ->
  keeps seats_within (AddSeatWithinLimit seat maxSeats).
Proof.
  intros Hm. apply keeps_bind; [apply keeps_fresh_id|]. intros id. cbv zeta. apply keeps_with_tx.
  apply keeps_bind; [auto with licensehub|]. intros [].
  apply keeps_bind; [apply keeps_attempt; unfold FindSeatByEmail; keeps_go|]. intros [e|e]; [apply readd_live_keeps|].
  destruct (negb _); [keeps_go|]. apply hoare_keeps.
  eapply hoare_bind; [by apply check_capacity_room| |done]. intros []. apply restore_or_insert_keeps.
Qed.
End seat_limit.

(** ** Claiming an invitation *)

Section accept.
Context `{UUIDs}.

(** Seats are stored under their identifier; the partial unique index on
    the hash of an invitation. *)
Definition invites_unique (db : DB) : Prop :=
  (forall id s, db_seats db !! id = Some s -> seat_ID s = id) /\
  (forall id s id' s', db_seats db !! id = Some s -> db_seats db !! id' = Some s' ->
     seat_InviteTokenHash s <> "" -> seat_InviteTokenHash s' = seat_InviteTokenHash s -> id' = id).

Lemma find_or_create_user_Ok email w u w' :
  find_or_create_user email w = (Ok u, w') ->
  db_seats (w_db w') = db_seats (w_db w) /\ (ToLower (user_Email u) = email \/ user_Email u = email).
Proof.
  unfold find_or_create_user. intros Hr. inv_ok.
  match goal with H1 : sql_select_one _ _ _ = (?r, ?w1) |- _ =>
    rename H1 into Hs, r into r1, w1 into w1'; pose proof (select_one_db _ _ _ _ _ Hs) as [Ed _] end.
  destruct r1 as [u1|e].
  - inv_ok. apply select_one_Ok in Hs as (k & _ & Hp). str_facts. rewrite Ed. auto.
  - destruct (goerr_Is e ErrNoRows); [|inv_ok]. inv_ok.
    match goal with H1 : sql_insert _ _ _ _ = _ |- _ => unfold sql_insert in H1; apply stmt_Ok in H1 as (Hi & _);
      apply insert_row_Ok in Hi as (_ & _ & _ & Ei) end.
    split; [|by right]. rewrite Ei. simpl.
    match goal with H2 : sql_now ?wa = (_, ?wb) |- _ =>
      pose proof (proj1 (still_sql_now (E := goerr) wa)) as E2'; rewrite H2 in E2'; simpl in E2'; rewrite E2' end.
    match goal with H1 : newID ?wa = (_, ?wb) |- _ => injection H1 as _ <-; simpl end. by rewrite Ed.
Qed.

Lemma AcceptSeatInvite_Ok token w u s w' :
  invites_unique (w_db w) -> AcceptSeatInvite token w = (Ok (u, s), w') ->
  exists s0 now accepted,
    db_seats (w_db w) !! seat_ID s0 = Some s0 /\ w_clock w <= now /\
    claimable now (HashSeatInviteToken token) s0 = true /\ s = seat_accept (user_ID u) accepted s0 /\
    db_seats (w_db w') = <[seat_ID s0 := s]> (db_seats (w_db w)) /\
    (ToLower (user_Email u) = seat_Email s0 \/ user_Email u = seat_Email s0).
Proof.
  intros [Hkey _] Hr. unfold AcceptSeatInvite in Hr. destruct (streq token ""); [inv_ok|]. cbv zeta in Hr.
  apply with_tx_Ok in Hr as (w1 & wb & Hb & -> & D1 & C1).
  apply bind_Ok in Hb as (r & w2 & Hs & Hb). apply (proj1 (attempt_Ok _ _ _ _)) in Hs.
  pose proof (select_one_db _ _ _ _ _ Hs) as [D2 C2].
  destruct r as [s0|e]; [|destruct (goerr_Is e ErrNoRows); inv_ok].
  apply select_one_Ok in Hs as (id & Hid & _). simpl in Hid. rewrite D1 in Hid.
  pose proof (Hkey _ _ Hid) as Ek. rewrite <- Ek in Hid.
  apply bind_Ok in Hb as (now & w3 & Hn & Hb). pose proof (proj1 (still_time_Now (E := goerr) w2)) as D3.
  rewrite Hn in D3. apply time_Now_Ok in Hn as [Hn _]. simpl in D3.
  destruct (claimable now _ s0) eqn:Ec; simpl in Hb; [|inv_ok].
  apply bind_Ok in Hb as (user & w4 & Hu & Hb). apply find_or_create_user_Ok in Hu as [D4 He].
  apply bind_Ok in Hb as (accepted & w5 & Ha & Hb). pose proof (proj1 (still_time_Now (E := goerr) w4)) as D5.
  rewrite Ha in D5. simpl in D5. clear Ha. apply bind_Ok in Hb as (n & w6 & Hup & Hb).
  unfold sql_update_checked in Hup. apply stmt_Ok in Hup as (Hup & Htx & Hok & _).
  apply bind_Ok in Hb as ([] & w7 & Hc & Hb). inv_ok.
  apply commit_Ok in Hc; [|unfold tx_ok in *; by rewrite Htx].
  assert (db_seats (w_db w5) = db_seats (w_db w)) as D by congruence.
  simpl in Hup. rewrite D, Hid in Hup.
  destruct (row_exists _ _) in Hup; [done|]. destruct (and_then _ _) in Hup; [done|]. injection Hup as _ Hup.
  match goal with H1 : (user, _) = _ |- _ => injection H1 as <- <- end.
  exists s0, now, accepted. split; [done|]. split; [lia|]. split; [done|]. split; [done|].
  split; [|done]. by rewrite Hc, <- Hup.
Qed.

(** Invite_once: claiming an invitation succeeds only for a live seat that
    was invited with that very token, is not yet accepted and whose
    invitation has not expired; it binds the seat to a user with the seat's
    own address and leaves the other seats alone; and the token cannot be
    claimed a second time, nor by anyone else, whatever fails later. *)
Theorem AcceptSeatInvite_once token w u s w' :
  invites_unique (w_db w) -> AcceptSeatInvite token w = (Ok (u, s), w') ->
  (exists s0 expires, db_seats (w_db w) !! seat_ID s = Some s0 /\
     seat_InviteTokenHash s0 = HashSeatInviteToken token /\ seat_RemovedAt s0 = None /\ seat_AcceptedAt s0 = None /\
     seat_InviteExpiresAt s0 = Some expires /\ w_clock w <= expires /\
     (ToLower (user_Email u) = seat_Email s0 \/ user_Email u = seat_Email s0)) /\
  seat_UserID s = user_ID u /\ seat_AcceptedAt s <> None /\
  db_seats (w_db w') = <[seat_ID s := s]> (db_seats (w_db w)) /\
  (forall w2, db_seats (w_db w2) = db_seats (w_db w') ->
     forall r, fst (AcceptSeatInvite token w2) <> Ok r).
Proof.
  intros Hu Hr. destruct (AcceptSeatInvite_Ok _ _ _ _ _ Hu Hr) as (s0 & now & acc & Hid & Hn & Hc & -> & Hdb & He).
  unfold claimable, live in Hc. bool_facts. str_facts.
  destruct (seat_InviteExpiresAt s0) as [expires|] eqn:Eex; [|done].
  destruct (seat_RemovedAt s0) eqn:Erm; [done|]. destruct (seat_AcceptedAt s0) eqn:Eac; [done|].
  assert (HashSeatInviteToken token <> "") as Hne.
  { intros E. pose proof (length_sha256_hex token) as Hl. unfold HashSeatInviteToken in E. by rewrite E in Hl. }
  split. { exists s0, expires. unfold Before in *. bool_facts. repeat (split; [done|]). split; [lia|done]. }
  split; [done|]. split; [done|]. split; [done|].
  intros w2 D2 [u2 s2] E2. destruct (AcceptSeatInvite token w2) as [r w3] eqn:Er. simpl in E2. subst r.
  assert (invites_unique (w_db w2)) as Hu2.
  { destruct Hu as [Hkey Hun]. split; rewrite D2, Hdb.
    - intros id s [(<- & <-)|(_ & Hs)]%lookup_insert_Some; [done|by apply Hkey].
    - intros id s id' s' [(<- & <-)|(_ & Hl1)]%lookup_insert_Some; [done|].
      intros [(<- & <-)|(_ & Hl2)]%lookup_insert_Some Hn1 Eh; [by rewrite <- Eh in Hn1|by apply (Hun id s id' s')]. }
  destruct (AcceptSeatInvite_Ok _ _ _ _ _ Hu2 Er) as (s3 & now3 & acc3 & Hid3 & _ & Hc3 & _).
  unfold claimable in Hc3. bool_facts. str_facts. rewrite D2, Hdb in Hid3.
  apply lookup_insert_Some in Hid3 as [(_ & <-)|(Hne3 & Hid3)]; [done|].
  destruct Hu as [Hkey Hun]. apply Hne3. apply (Hun _ s3 _ s0 Hid3 Hid); congruence.
Qed.
End accept.


(** ** The service keeps the limit *)

Section service_limit.
Context `{UUIDs} (parse : string -> option string) (s : SeatService) (k : string) (bound : Z).
Let I := seats_within k bound.

Lemma keeps_seat_audit {E} log : keeps (E := E) I (Audit log).
Proof. unfold Audit, insert_audit, fresh_id. keeps_go. Qed.
Lemma keeps_announce lic email role plain o seat : keeps I (announce_seat s lic email role plain o seat).
Proof. unfold announce_seat. repeat (keeps_step || (apply keeps_Dispatch; intros ?? Hi; exact Hi)). Qed.
Lemma keeps_seat_limit_error lic err : keeps I (seat_limit_error lic err).
Proof. unfold seat_limit_error, CountActiveSeats. keeps_go. Qed.
Lemma keeps_GenerateSeatInviteToken {E} : keeps (E := E) I GenerateSeatInviteToken.
Proof. unfold GenerateSeatInviteToken. keeps_go. Qed.
End service_limit.
#[export] Hint Resolve keeps_seat_audit keeps_announce keeps_seat_limit_error keeps_GenerateSeatInviteToken : licensehub.

(** Seat_limit: whatever fails during an invitation, and for whatever licence
    key, no licence of a plan with a seat limit ends with more live seats than
    the larger of that limit and the number it had. *)
Theorem AddSeat_respects_limit `{UUIDs} parse s in_ w k l p :
  w_tx w = None -> licenses_keyed (w_db w) ->
  (forall id seat, db_seats (w_db w) !! id = Some seat -> seat_ID seat = id) ->
  db_licenses (w_db w) !! k = Some l -> db_plans (w_db w) !! lic_PlanID l = Some p -> 0 < plan_MaxSeats p ->
  count (live_of k) (db_seats (w_db (snd (AddSeat parse s in_ w))))
  <= Z.max (count (live_of k) (db_seats (w_db w))) (plan_MaxSeats p).
Proof.
  intros Hw Hkey Hseats Hk Hp Hm. set (bound := Z.max _ _).
  assert (safe (seats_within k bound) w) as Hs.
  { apply safe_closed; [|done]. split; [done|]. subst bound. lia. }
  assert (safe (seats_within k bound) (snd (AddSeat parse s in_ w))) as [[_ Hd] _]; [|done].
  unfold AddSeat. cbv zeta. destruct (ValidateEmail parse _); [done|]. destruct (_ && _); [done|].
  apply bind_readonly_safe; [auto with licensehub|done|done|].
  intros lic w1 Hf Edb Hw1 Hs1. apply loadLicenseForSDK_Ok in Hf as [(k' & l' & Hk' & -> & _) _]; [|done].
  assert (lic_ID l' = k') as Hid by by apply Hkey.
  destruct (EqualFold _ _); [done|]. revert w1 Edb Hw1 Hs1.
  enough (forall m : M error Seat, keeps (seats_within k bound) m ->
    forall w1, w_db w1 = w_db w -> w_tx w1 = None -> safe (seats_within k bound) w1 ->
    safe (seats_within k bound) (snd (m w1))) as Hgo; [|intros m Hm1 w1 _ _; apply Hm1].
  apply Hgo. unfold add_seat. keeps_go. apply AddSeatWithinLimit_keeps. simpl. intros El.
  assert (k' = k) as -> by congruence. assert (l' = l) as -> by congruence.
  unfold max_seats. simpl. unfold load_plan. rewrite Hp. simpl. subst bound. lia.
Qed.

(** ** Instances *)

#[local] Existing Instance Demo.uuids.

Module SeatsDemo.
Definition seat (id email : string) (accepted : option Time) (token : string) : Seat :=
  mkSeat id "lic-2" "" email "member" 0 accepted None
    (if streq token "" then "" else HashSeatInviteToken token) (Some (2000 * Second)) 0.
Definition db : DB := t_set seats {["seat-1" := seat "seat-1" "ann@example.com" None "t0ken"]} Demo.db.
Definition input := mkAddSeatInput "KEY-2" " Bob@Example.com " "" "" "".
Definition service := NewSeatService true "https://hub.example.com/".
End SeatsDemo.

Lemma AddSeat_respects_limit_witness :
  count (live_of "lic-2") (db_seats (w_db (snd
    (AddSeat Some SeatsDemo.service SeatsDemo.input (Demo.world_of SeatsDemo.db))))) <= 2.
Proof.
  refine (AddSeat_respects_limit Some SeatsDemo.service SeatsDemo.input (Demo.world_of SeatsDemo.db) "lic-2"
    (Demo.license "lic-2" "prod-2" "plan-2" "KEY-2" StatusActive None) (Demo.plan "plan-2" "prod-2" "standard")
    eq_refl _ _ eq_refl eq_refl _).
  - apply (map_Forall_to_list (fun k l => lic_ID l = k)). vm_compute. repeat constructor.
  - apply (map_Forall_to_list (fun k x => seat_ID x = k)). vm_compute. repeat constructor.
  - reflexivity.
Defined.

Lemma AcceptSeatInvite_once_witness :
  match AcceptSeatInvite "t0ken" (Demo.world_of SeatsDemo.db) with
  | (Ok (u, s), w') => seat_UserID s = user_ID u /\ forall r, fst (AcceptSeatInvite "t0ken" w') <> Ok r
  | (Err _, _) => False
  end.
Proof.
  assert (invites_unique (w_db (Demo.world_of SeatsDemo.db))) as Hu.
  { split.
    - apply (map_Forall_to_list (fun k x => seat_ID x = k)). vm_compute. repeat constructor.
    - change (db_seats (w_db (Demo.world_of SeatsDemo.db))) with
        ({["seat-1" := SeatsDemo.seat "seat-1" "ann@example.com" None "t0ken"]} : gmap string Seat).
      intros id s id' s' [<- _]%lookup_singleton_Some [<- _]%lookup_singleton_Some; done. }
  destruct (AcceptSeatInvite "t0ken" (Demo.world_of SeatsDemo.db)) as [[[u s]|e] w'] eqn:E.
  - destruct (AcceptSeatInvite_once "t0ken" (Demo.world_of SeatsDemo.db) u s w' Hu E) as (_ & Hs & _ & _ & Honce).
    exact (conj Hs (Honce w' eq_refl)).
  - vm_compute in E. discriminate E.
Defined.
