(* ===== verification/Floating.v ===== *)
(** * Floating sessions ([store/floating.go], [service/floating.go])

    A floating plan lends a limited number of sessions, each to one
    identifier until it expires: check-out under the limit, heartbeat,
    check-in and the periodic cleanup. *)

From S2P Require Import Prelude GoStrings Errors Model Lockout World Tables Logic Token Usability.
From S2P Require Import Store Webhook LicenseService Demo Lookup.
From Stdlib Require Import Ascii String.

#[local] Open Scope string_scope.
#[local] Open Scope Z_scope.

(** ** Store *)

Definition same_session (licenseID identifier : string) (s : FloatingSession) : bool :=
  streq (fs_LicenseID s) licenseID && streq (fs_Identifier s) identifier.
(** [expires_at > t]. *)
Definition unexpired (t : Time) (s : FloatingSession) : bool := t <? fs_ExpiresAt s.
Definition active_at (licenseID : string) (t : Time) (s : FloatingSession) : bool :=
  streq (fs_LicenseID s) licenseID && unexpired t s.

(** [SET heartbeat = now(), expires_at = ?, ip_address = ?, label = ?]. *)
Definition fs_refresh (src : FloatingSession) (now : Time) (s : FloatingSession) : FloatingSession :=
  mkFloatingSession (fs_ID s) (fs_LicenseID s) (fs_Identifier s) (fs_Label src) (fs_IPAddress src)
    (fs_CheckedOut s) (fs_ExpiresAt src) now.
(** [SET heartbeat = now(), expires_at = ?]. *)
Definition fs_beat (newExpiry now : Time) (s : FloatingSession) : FloatingSession :=
  mkFloatingSession (fs_ID s) (fs_LicenseID s) (fs_Identifier s) (fs_Label s) (fs_IPAddress s)
    (fs_CheckedOut s) newExpiry now.
(** [sess.ID = id]. *)
Definition fs_with_id (id : string) (s : FloatingSession) : FloatingSession :=
  mkFloatingSession id (fs_LicenseID s) (fs_Identifier s) (fs_Label s) (fs_IPAddress s)
    (fs_CheckedOut s) (fs_ExpiresAt s) (fs_Heartbeat s).
(** A new row: [checked_out] and [heartbeat] default to [now()]. *)
Definition fs_new (id : string) (now : Time) (s : FloatingSession) : FloatingSession :=
  mkFloatingSession id (fs_LicenseID s) (fs_Identifier s) (fs_Label s) (fs_IPAddress s)
    now (fs_ExpiresAt s) now.

Section store.
Context `{UUIDs}.

(** [INSERT ... ON CONFLICT (license_id, identifier) DO UPDATE]. *)
Definition CheckOutFloating (sess : FloatingSession) : M goerr unit :=
  id ← fresh_id (fs_ID sess);
  now ← sql_now;
  stmt (fun db =>
    let mine := same_session (fs_LicenseID sess) (fs_Identifier sess) in
    if row_exists mine (db_floating_sessions db)
    then Ok (tt, t_set floating_sessions (update_rows mine (fs_refresh sess now) (db_floating_sessions db)) db)
    else insert_row floating_sessions id (fs_new id now sess) db).

Definition refresh_session (sess : FloatingSession) (existingID : string) (now : Time)
    : M goerr (FloatingSession * bool) :=
  sql_update floating_sessions (fun s => streq (fs_ID s) existingID) (fs_refresh sess now) ;;
  commit_tx ;;
  mret (fs_with_id existingID sess, false).

Definition new_session (sess : FloatingSession) (maxSessions : Z) (now : Time)
    : M goerr (FloatingSession * bool) :=
  sql_lock ;;
  activeCount ← sql_count floating_sessions (active_at (fs_LicenseID sess) now);
  if maxSessions <=? activeCount then throw ErrFloatingLimitReached
  else
    sql_insert floating_sessions (fs_ID sess) (fs_new (fs_ID sess) now sess) ;;
    commit_tx ;;
    mret (fs_new (fs_ID sess) now sess, true).

(** [now()] is one instant of the transaction.  Any error of the first SELECT
    is dropped: the check-out goes on as if there were no session. *)
Definition checkout_at (sess : FloatingSession) (maxSessions : Z) (now : Time) : M goerr (FloatingSession * bool) :=
  r ← attempt (sql_select_one floating_sessions (fun s =>
    same_session (fs_LicenseID sess) (fs_Identifier sess) s && unexpired now s));
  match r with
  | Ok existing =>
      if negb (streq (fs_ID existing) "") then refresh_session sess (fs_ID existing) now
      else new_session sess maxSessions now
  | Err _ => new_session sess maxSessions now
  end.

Definition CheckOutFloatingWithLimit (sess : FloatingSession) (maxSessions : Z)
    : M goerr (FloatingSession * bool) :=
  id ← fresh_id (fs_ID sess);
  with_tx (now ← sql_now; checkout_at (fs_with_id id sess) maxSessions now).
End store.

Definition CheckInFloating (licenseID identifier : string) : M goerr unit :=
  sql_delete floating_sessions (same_session licenseID identifier) ;; mret tt.

(** The number of rows is not looked at. *)
Definition HeartbeatFloating (licenseID identifier : string) (newExpiry : Time) : M goerr unit :=
  now ← sql_now;
  sql_update floating_sessions (same_session licenseID identifier) (fs_beat newExpiry now) ;; mret tt.

Definition CountActiveFloating (licenseID : string) : M goerr Z :=
  now ← sql_now; sql_count floating_sessions (active_at licenseID now).

Definition FindFloatingSession (licenseID identifier : string) : M goerr FloatingSession :=
  now ← sql_now;
  sql_select_one floating_sessions (fun s => same_session licenseID identifier s && unexpired now s).

Definition ListFloatingSessions (licenseID : string) : M goerr (list FloatingSession) :=
  now ← sql_now;
  stmt (fun db => Ok (sort_by fs_CheckedOut
    (map_to_list (rows (active_at licenseID now) (db_floating_sessions db))).*2, db)).

Definition CleanExpiredFloating : M goerr Z :=
  now ← sql_now; sql_delete floating_sessions (fun s => negb (unexpired now s)).

(** ** Service *)

Record CheckOutInput := mkCheckOutInput {
  co_LicenseKey : string; co_Identifier : string; co_Label : string; co_ProductID : string; co_IPAddress : string }.

Record CheckOutResult := mkCheckOutResult {
  cor_SessionID : string; cor_ExpiresAt : Time; cor_Active : Z; cor_Max : Z }.

Definition active_or_zero {E} (licenseID : string) : M E Z :=
  r ← attempt (CountActiveFloating licenseID);
  mret (match r with Ok n => n | Err _ => 0 end).

Definition session_expiry (now : Time) (timeout : Z) : Time := Add now (go_mul timeout Minute).

Section service.
Context `{UUIDs}.

Definition check_out (lic : License) (plan : Plan) (in_ : CheckOutInput) : M error CheckOutResult :=
  let timeout := if plan_FloatingTimeout plan <=? 0 then 30 else plan_FloatingTimeout plan in
  let maxSessions := plan_MaxActivations plan in
  now ← time_Now;
  let expiresAt := session_expiry now timeout in
  r ← attempt (CheckOutFloatingWithLimit
    (mkFloatingSession "" (lic_ID lic) (co_Identifier in_) (co_Label in_) (co_IPAddress in_) 0 expiresAt 0)
    maxSessions);
  match r with
  | Err err =>
      if goerr_Is err ErrFloatingLimitReached then
        active ← active_or_zero (lic_ID lic);
        throw (AppErr (WithDetails (Conflict "FLOATING_LIMIT" "all floating sessions are in use")
          {["active" := AnyInt active; "max" := AnyInt maxSessions]}))
      else throw (AppErr (Internal err))
  | Ok (sess, _) =>
      active ← active_or_zero (lic_ID lic);
      mret (mkCheckOutResult (fs_ID sess) expiresAt active maxSessions)
  end.

Definition CheckOut (in_ : CheckOutInput) : M error CheckOutResult :=
  lic ← loadLicenseForSDK (co_LicenseKey in_) (co_ProductID in_) CapActivations true;
  match lic_Plan lic with
  | Some plan =>
      if streq (plan_LicenseModel plan) "floating" then check_out lic plan in_ else throw licenseNotFound
  | None => throw licenseNotFound
  end.
End service.

Definition CheckIn (licenseKey identifier productID : string) : M error unit :=
  lic ← loadLicenseForSDK licenseKey productID CapActivations true;
  internal (CheckInFloating (lic_ID lic) identifier).

Definition heartbeat_plan (lic : License) : Z * Z :=
  match lic_Plan lic with
  | Some p => (if 0 <? plan_FloatingTimeout p then plan_FloatingTimeout p else 30, plan_MaxActivations p)
  | None => (30, 3)
  end.

Definition Heartbeat (licenseKey identifier productID : string) : M error CheckOutResult :=
  lic ← loadLicenseForSDK licenseKey productID CapActivations true;
  let '(timeout, maxSessions) := heartbeat_plan lic in
  now ← time_Now;
  let newExpiry := session_expiry now timeout in
  map_err (fun _ => AppErr (NotFound "SESSION" identifier)) (HeartbeatFloating (lic_ID lic) identifier newExpiry) ;;
  active ← active_or_zero (lic_ID lic);
  mret (mkCheckOutResult "" newExpiry active maxSessions).

(** One pass of the cleanup loop. *)
Definition CleanExpired : M error unit :=
  r ← attempt CleanExpiredFloating;
  match r with
  | Err _ => emit (EvWarn "floating cleanup failed")
  | Ok _ => mret tt
  end.

(** ** The session limit, whatever fails *)

Section limit.
Context `{UUIDs} (k : string) (bound : Z) (now : Time).

(** Sessions are stored under their identifier, and the licence has at most
    [bound] active ones at [now]. *)
Definition sessions_within (db : DB) : Prop :=
  (forall id s, db_floating_sessions db !! id = Some s -> fs_ID s = id) /\
  count (active_at k now) (db_floating_sessions db) <= bound.

(** A refresh of an active session of the licence does not add one. *)
Lemma refresh_session_keeps sess id s0 :
  hoare sessions_within (fun db => db_floating_sessions db !! id = Some s0 /\ unexpired now s0 = true)
    (refresh_session sess id now) (fun _ _ => True).
Proof.
  unfold refresh_session. eapply hoare_bind; [| |done].
  - apply (hoare_stmt _ _ _ (fun _ _ => True)). simpl.
    intros db [Hkey Hc] [Hid Hun]. split; [done|]. split; [|done]. split; simpl.
    + intros id' s'. rewrite lookup_update_rows. intros (s & Hs & ->)%fmap_Some.
      apply Hkey in Hs. by destruct (streq _ _).
    + rewrite count_update_rows. etrans; [|exact Hc]. apply count_mono. intros id' s Hs.
      destruct (streq (fs_ID s) id) eqn:E; [|done]. str_facts. apply Hkey in Hs as Eid.
      assert (s = s0) as -> by congruence. unfold active_at. simpl. rewrite Hun, !andb_true_iff. tauto.
  - intros n. apply hoare_drop. keeps_go.
Qed.

Lemma new_session_keeps sess maxSessions :
  (fs_LicenseID sess = k -> maxSessions <= bound) -> keeps sessions_within (new_session sess maxSessions now).
Proof.
  intros Hm. apply hoare_keeps. unfold new_session.
  eapply hoare_bind; [apply hoare_lock| |done]. intros [].
  eapply hoare_bind; [apply hoare_count| |done]. intros n. simpl.
  destruct (maxSessions <=? n) eqn:E; bool_facts; [apply hoare_drop; keeps_go|].
  eapply hoare_bind; [apply hoare_insert| |done].
  - intros db [Hkey Hc] [_ En] Hid _ _. split; simpl.
    + intros id s [(<- & <-)|(_ & Hs)]%lookup_insert_Some; [done|by apply Hkey].
    + rewrite count_insert_fresh by done. unfold active_at at 2. simpl.
      destruct (streq (fs_LicenseID sess) k) eqn:El; simpl; [|lia]. str_facts.
      specialize (Hm El). simpl in En. rewrite El in En. destruct (unexpired now _); simpl; lia.
  - intros []. apply hoare_drop. keeps_go.
Qed.
End limit.

Definition sessions_keyed (db : DB) : Prop :=
  forall id s, db_floating_sessions db !! id = Some s -> fs_ID s = id.

(** Sessions only expire. *)
Lemma active_later k t u (m : gmap string FloatingSession) : t <= u -> count (active_at k u) m <= count (active_at k t) m.
Proof.
  intros Ht. apply count_mono. unfold active_at, unexpired. intros _ s _ Hs. bool_facts. str_facts.
  rewrite andb_true_iff, streq_true, Z.ltb_lt. split; [done|lia].
Qed.

Lemma CheckOutFloatingWithLimit_closed `{UUIDs} sess maxSessions w :
  w_tx w = None -> w_tx (snd (CheckOutFloatingWithLimit sess maxSessions w)) = None.
Proof.
  intros Hw. unfold CheckOutFloatingWithLimit, mbind at 1, M_bind at 1.
  destruct (fresh_id_run (E := goerr) (fs_ID sess) w) as (w1 & -> & _ & T1 & _).
  apply with_tx_closed. congruence.
Qed.

Section service_limit.
Context `{UUIDs} (k : string) (limit : Z).

(** At some instant of the run the licence is within the limit, or has no
    more sessions than at the start. *)
Definition within_limit (w w' : World) : Prop :=
  exists now, w_clock w <= now /\
    count (active_at k now) (db_floating_sessions (w_db w'))
    <= Z.max (count (active_at k now) (db_floating_sessions (w_db w))) limit.

Lemma within_limit_same w w' : w_db w' = w_db w -> within_limit w w'.
Proof. intros E. exists (w_clock w). rewrite E. lia. Qed.

Lemma CheckOutFloatingWithLimit_within sess maxSessions w :
  w_tx w = None -> sessions_keyed (w_db w) -> (fs_LicenseID sess = k -> maxSessions <= limit) ->
  within_limit w (snd (CheckOutFloatingWithLimit sess maxSessions w)).
Proof.
  intros Hw Hkey Hm. destruct (fresh_id_run (E := goerr) (fs_ID sess) w) as (w1 & Hf & D1 & T1 & _ & C1 & _).
  rewrite Hw in T1. set (id := stored_id (fs_ID sess) w) in Hf.
  replace (CheckOutFloatingWithLimit sess maxSessions w)
    with (with_tx (sql_now ≫= checkout_at (fs_with_id id sess) maxSessions) w1)
    by (unfold CheckOutFloatingWithLimit, mbind at 2, M_bind at 2; by rewrite Hf).
  destruct (with_tx_now (fun now => sessions_within k
    (Z.max (count (active_at k now) (db_floating_sessions (w_db w))) limit) now)
    (checkout_at (fs_with_id id sess) maxSessions) w1 T1) as (now & Hn & [_ Hl]).
  - intros now _. rewrite D1. split; [done|lia].
  - intros now _. apply hoare_keeps. unfold checkout_at.
    eapply hoare_bind; [apply hoare_attempt, hoare_select_one| |done].
    intros [s|e]; simpl; [destruct (negb (streq (fs_ID s) ""))|].
    + eapply hoare_weaken; [apply (refresh_session_keeps k _ now _ (fs_ID s) s)| |done].
      intros db [Hk _] (_ & i & Hid & Hs). bool_facts. apply Hk in Hid as Eid. by subst i.
    + apply hoare_drop, new_session_keeps. intros El. specialize (Hm El). lia.
    + apply hoare_drop, new_session_keeps. intros El. specialize (Hm El). lia.
  - exists now. split; [lia|done].
Qed.
End service_limit.

(** Session_limit: whatever fails during a check-out, there is an instant of
    it from which on no licence has more unexpired sessions than the larger of
    its plan's limit and what it had at that instant. *)
Theorem CheckOut_respects_limit `{UUIDs} in_ w k l p :
  w_tx w = None -> licenses_keyed (w_db w) -> sessions_keyed (w_db w) ->
  db_licenses (w_db w) !! k = Some l -> db_plans (w_db w) !! lic_PlanID l = Some p ->
  exists now, w_clock w <= now /\ forall t, now <= t ->
    count (active_at k t) (db_floating_sessions (w_db (snd (CheckOut in_ w))))
    <= Z.max (count (active_at k now) (db_floating_sessions (w_db w))) (plan_MaxActivations p).
Proof.
  intros Hw Hkey Hskey Hk Hp.
  enough (within_limit k (plan_MaxActivations p) w (snd (CheckOut in_ w))) as (now & Hn & Hl).
  { exists now. split; [done|]. intros t Ht. etrans; [by apply (active_later k now)|done]. }
  unfold CheckOut. apply bind_readonly_ind; [auto with licensehub|done|intros; by apply within_limit_same|].
  intros lic w1 Hf D1 T1 C1. apply loadLicenseForSDK_Ok in Hf as [(k' & l' & Hk' & -> & _) _]; [|done].
  destruct (lic_Plan _) as [plan|] eqn:Eplan; [|by apply within_limit_same].
  destruct (streq _ _); [|by apply within_limit_same]. unfold check_out. cbv zeta.
  apply bind_readonly_ind; [auto using readonly_still with licensehub|done|intros w2 D2 _; apply within_limit_same; congruence|].
  intros now w2 _ D2 T2 C2. cbv zeta.
  match goal with |- within_limit _ _ _ (snd ((attempt (CheckOutFloatingWithLimit ?sess ?max) ≫= ?tail) w2)) =>
    destruct (CheckOutFloatingWithLimit_within k (plan_MaxActivations p) sess max w2) as (n & Hn & Hl);
    [done|by rewrite D2, D1| |
     destruct (attempt_readonly_tail (E' := error) (CheckOutFloatingWithLimit sess max) tail w2) as [D3 _]]
  end.
  - simpl. intros El. assert (k' = k) as -> by (rewrite <- El; symmetry; by apply Hkey).
    assert (l' = l) as -> by congruence. simpl in Eplan. unfold load_plan in Eplan. rewrite Hp in Eplan.
    simpl in Eplan. by injection Eplan as <-.
  - intros r. unfold active_or_zero, CountActiveFloating. destruct r as [[s b]|e]; readonly_go.
  - by apply CheckOutFloatingWithLimit_closed.
  - exists n. split; [lia|]. rewrite D3. by rewrite D2, D1 in Hl.
Qed.

(** ** What a successful check-out leaves in the tables *)

Definition holds_session (sess : FloatingSession) (id : string) (db : DB) : Prop :=
  exists i s, db_floating_sessions db !! i = Some s /\ fs_ID s = id /\
    fs_LicenseID s = fs_LicenseID sess /\ fs_Identifier s = fs_Identifier sess /\
    fs_ExpiresAt s = fs_ExpiresAt sess.

Lemma refresh_session_Ok sess id now w s b w' i s0 :
  db_floating_sessions (w_db w) !! i = Some s0 -> fs_ID s0 = id ->
  same_session (fs_LicenseID sess) (fs_Identifier sess) s0 = true ->
  refresh_session sess id now w = (Ok (s, b), w') -> holds_session sess (fs_ID s) (w_db (rollback_w w')).
Proof.
  intros Hi Eid Hsame Hr. apply write_commit_Ok in Hr as (n & Hf & [= -> ->]). injection Hf as _ Hdb.
  exists i, (fs_refresh sess now s0). rewrite <- Hdb. simpl. rewrite lookup_update_rows, Hi. simpl.
  rewrite Eid, streq_refl. unfold same_session in Hsame. bool_facts. by str_facts.
Qed.

Lemma new_session_Ok `{UUIDs} sess max now w s b w' :
  new_session sess max now w = (Ok (s, b), w') -> holds_session sess (fs_ID s) (w_db (rollback_w w')).
Proof.
  intros Hr. unfold new_session in Hr. apply bind_Ok in Hr as ([] & w1 & _ & Hr).
  apply bind_Ok in Hr as (n & w2 & _ & Hr). destruct (max <=? n); [by apply throw_Ok in Hr|].
  apply (write_commit_Ok _ (fun _ => (fs_new (fs_ID sess) now sess, true))) in Hr as (u & Hf & [= -> ->]).
  apply insert_row_Ok in Hf as (_ & _ & _ & ->). exists (fs_ID sess), (fs_new (fs_ID sess) now sess).
  split; [apply lookup_insert_eq|done].
Qed.

Lemma CheckOutFloatingWithLimit_Ok `{UUIDs} sess max w s b w' :
  CheckOutFloatingWithLimit sess max w = (Ok (s, b), w') -> holds_session sess (fs_ID s) (w_db w').
Proof.
  intros Hr. unfold CheckOutFloatingWithLimit in Hr. apply bind_Ok in Hr as (id & w1 & _ & Hr).
  apply with_tx_Ok in Hr as (w2 & wb & Hb & -> & _). apply bind_Ok in Hb as (now & w3 & _ & Hb).
  unfold checkout_at in Hb. apply bind_Ok in Hb as (r & w4 & Hs & Hb). apply (proj1 (attempt_Ok _ _ _ _)) in Hs.
  destruct (select_one_db _ _ _ _ _ Hs) as [D4 _].
  destruct r as [s0|e]; [destruct (negb _); [|by apply new_session_Ok in Hb]|by apply new_session_Ok in Hb].
  apply select_one_Ok in Hs as (i & Hi & Hp). bool_facts. rewrite <- D4 in Hi.
  by eapply refresh_session_Ok in Hb; [..|reflexivity|].
Qed.

(** Session_sound: a check-out that succeeds, whatever failed on the way, is
    of a stored licence with the given key, usable, in scope and on a floating
    plan, and leaves the identifier with the session it was told, until the
    expiry it was told. *)
Theorem CheckOut_sound `{UUIDs} in_ w r w' :
  w_tx w = None -> CheckOut in_ w = (Ok r, w') ->
  exists lic plan used t,
    found (co_LicenseKey in_) (w_db w) lic /\
    (co_ProductID in_ = "" \/ lic_ProductID lic = co_ProductID in_) /\
    lic_Plan lic = Some plan /\ plan_LicenseModel plan = "floating" /\
    w_clock w <= used /\ IsLicenseUsable used lic = true /\ w_clock w <= t /\
    cor_ExpiresAt r = session_expiry t (if plan_FloatingTimeout plan <=? 0 then 30 else plan_FloatingTimeout plan) /\
    holds_session (mkFloatingSession "" (lic_ID lic) (co_Identifier in_) "" "" 0 (cor_ExpiresAt r) 0)
      (cor_SessionID r) (w_db w').
Proof.
  intros Hw Hr. unfold CheckOut in Hr.
  apply bind_readonly_Ok in Hr as (lic & w1 & Hl & D1 & T1 & C1 & Hr); [|auto with licensehub|done].
  apply loadLicenseForSDK_Ok in Hl as (Hfound & Hscope & _ & Huse); [|done].
  destruct (Huse eq_refl) as (used & Hu & Husable). clear Huse.
  destruct (lic_Plan lic) as [plan|] eqn:Ep; [|by apply throw_Ok in Hr].
  destruct (streq _ _) eqn:Em; [|by apply throw_Ok in Hr]. str_facts. unfold check_out in Hr.
  apply bind_readonly_Ok in Hr as (t & w2 & Ht & _ & T2 & _ & Hr); [|auto using readonly_still with licensehub|done].
  apply time_Now_Ok in Ht as [Ht _]. cbv zeta in Hr.
  apply bind_Ok in Hr as (c & w3 & Hc & Hr). apply (proj1 (attempt_Ok _ _ _ _)) in Hc.
  destruct c as [[s b]|e].
  2:{ destruct (goerr_Is _ _); [apply bind_Ok in Hr as (n & w4 & _ & Hr)|]; by apply throw_Ok in Hr. }
  assert (w_tx w3 = None) as T3 by (change w3 with (snd (Ok (E := goerr) (s, b), w3)); rewrite <- Hc;
    by apply CheckOutFloatingWithLimit_closed).
  assert (forall k, readonly (E := error) (active_or_zero k)) as Hro.
  { intros k. unfold active_or_zero, CountActiveFloating. readonly_go. }
  apply bind_readonly_Ok in Hr as (n & w4 & _ & D4 & _ & _ & Hr); [|apply Hro|done].
  apply mret_Ok in Hr as [<- <-]. exists lic, plan, used, t. simpl. rewrite D4.
  apply CheckOutFloatingWithLimit_Ok in Hc. repeat (split; [done|]). split; [lia|]. done.
Qed.

(** ** What a heartbeat and a check-out do when nothing fails *)

Lemma CountActiveFloating_quiet k w :
  quiet w -> exists now w', CountActiveFloating k w
    = (Ok (count (active_at k now) (db_floating_sessions (w_db w))), w') /\
    quiet w' /\ w_db w' = w_db w /\ w_clock w <= now.
Proof.
  intros Hq. unfold CountActiveFloating, mbind, M_bind, sql_now. rewrite (proj2 Hq).
  destruct (time_Now_quiet (E := goerr) w Hq) as (t & w1 & -> & Hq1 & D1 & C1 & _).
  exists t, w1. unfold sql_count. rewrite stmt_quiet by done. simpl. by rewrite set_db_same, D1.
Qed.

(** Heartbeat_unchecked: on a usable licence a heartbeat always succeeds: it
    gives the identifier's session, if any, a new expiry, even when it has
    expired and whatever the number of active sessions; an identifier without
    a session is told an expiry too. *)
Theorem Heartbeat_unchecked key identifier productID w lic w1 :
  quiet w -> loadLicenseForSDK key productID CapActivations true w = (Ok lic, w1) ->
  exists r w' t now, Heartbeat key identifier productID w = (Ok r, w') /\ w_clock w <= t /\
    cor_ExpiresAt r = session_expiry t (heartbeat_plan lic).1 /\
    db_floating_sessions (w_db w')
    = update_rows (same_session (lic_ID lic) identifier) (fs_beat (cor_ExpiresAt r) now)
        (db_floating_sessions (w_db w)).
Proof.
  intros Hq Hl. pose proof (loadLicenseForSDK_quiet _ _ _ _ _ _ _ Hq Hl) as (Hq1 & D1 & C1).
  unfold Heartbeat, mbind, M_bind. rewrite Hl. destruct (heartbeat_plan lic) as [timeout max].
  destruct (time_Now_quiet (E := error) w1 Hq1) as (t & w2 & -> & Hq2 & D2 & C2 & _).
  unfold map_err, HeartbeatFloating, mbind, M_bind, sql_now. rewrite (proj2 Hq2).
  destruct (time_Now_quiet (E := goerr) w2 Hq2) as (now & w3 & -> & Hq3 & D3 & _).
  unfold sql_update. rewrite stmt_quiet by done. simpl. set (w4 := set_db _ w3).
  unfold active_or_zero, mbind, M_bind, attempt.
  destruct (CountActiveFloating_quiet (lic_ID lic) w4) as (u & w5 & -> & _ & D5 & _); [by destruct Hq3|].
  eexists _, w5, t, now. split; [reflexivity|]. split; [lia|]. split; [done|]. rewrite D5. simpl. by rewrite D3, D2, D1.
Qed.

(** Expired_session: a session that has expired but was not yet cleaned up
    blocks its identifier: with capacity left, and nothing failing, the
    check-out is refused by the unique index instead of being granted. *)
Theorem CheckOut_blocked_by_expired `{UUIDs} sess max w id s0 :
  quiet w -> fs_ID sess <> "" -> db_floating_sessions (w_db w) !! id = Some s0 ->
  same_session (fs_LicenseID sess) (fs_Identifier sess) s0 = true ->
  (forall i s, db_floating_sessions (w_db w) !! i = Some s ->
     same_session (fs_LicenseID sess) (fs_Identifier sess) s = true -> fs_ExpiresAt s <= w_clock w) ->
  count (active_at (fs_LicenseID sess) (w_clock w)) (db_floating_sessions (w_db w)) < max ->
  exists w', CheckOutFloatingWithLimit sess max w = (Err (ErrSQL UniqueViolation), w') /\ w_db w' = w_db w.
Proof.
  intros [Hf Ht] Hid Hs0 Hsame Hexp Hcap. unfold CheckOutFloatingWithLimit, mbind at 1, M_bind at 1, fresh_id.
  rewrite bool_decide_false by done. cbv beta iota. unfold mret, M_ret, with_tx, mbind, M_bind, defer_rollback.
  assert (calm w) as Hc by (unfold calm; by rewrite Hf, Ht).
  rewrite begin_calm by done. destruct (tick w) as [t ds] eqn:Et. apply tick_later in Et.
  set (w1 := set_tx _ _). assert (calm w1) as Hc1 by (split; [simpl; congruence|done]).
  unfold sql_now. change (w_tx w1) with (Some (mkTx (w_db w) false t)). cbv beta iota. cbn [tx_now].
  unfold checkout_at, mbind, M_bind, attempt, sql_select_one. rewrite stmt_calm by done.
  change (w_db w1) with (w_db w). cbn [t_get floating_sessions].
  rewrite (proj2 (first_row_rows_None _ _)).
  2:{ intros i s Hs. simpl. destruct (same_session _ _ s) eqn:E; [|done]. simpl. unfold unexpired.
      apply Z.ltb_ge. specialize (Hexp i s Hs E). lia. }
  simpl. unfold new_session, mbind, M_bind, sql_lock, sql_count. rewrite stmt_calm by done.
  cbv beta iota. rewrite set_db_same, stmt_calm by done. cbv beta iota. rewrite set_db_same.
  change (w_db w1) with (w_db w). cbn [t_get floating_sessions].
  pose proof (active_later (fs_LicenseID sess) (w_clock w) t (db_floating_sessions (w_db w)) Et) as Hlater.
  change (fs_LicenseID (fs_with_id (fs_ID sess) sess)) with (fs_LicenseID sess).
  rewrite (proj2 (Z.leb_gt _ _)) by lia. unfold sql_insert. rewrite stmt_calm by done.
  change (w_db w1) with (w_db w). unfold insert_row. cbn [t_get floating_sessions t_conflict].
  assert (row_exists (fun r' => streq (fs_LicenseID r') (fs_LicenseID sess) &&
    streq (fs_Identifier r') (fs_Identifier sess)) (db_floating_sessions (w_db w)) = true) as Hex
    by (apply row_exists_true; exists id, s0; done).
  match goal with |- context [db_floating_sessions (w_db w) !! ?i] =>
    destruct (db_floating_sessions (w_db w) !! i); [|simpl; rewrite Hex] end;
  (eexists; split; [reflexivity|done]).
Qed.

(** ** Instances *)

#[local] Existing Instance Demo.uuids.

Module FloatingDemo.
Definition session (id identifier : string) (expires : Time) : FloatingSession :=
  mkFloatingSession id "lic-3" identifier "" "" 0 expires 0.
Definition sessions : gmap string FloatingSession :=
  {["fs-1" := session "fs-1" "desk" (2000 * Second); "fs-2" := session "fs-2" "old" (500 * Second)]}.
Definition db : DB := t_set floating_sessions sessions Demo.db.
Definition world : World := Demo.world_of db.
Definition asked_by (identifier : string) : CheckOutInput := mkCheckOutInput "KEY-3" identifier "" "prod-1" "".
Definition wanted : FloatingSession := mkFloatingSession "fs-3" "lic-3" "old" "" "" 0 (2800 * Second) 0.
End FloatingDemo.

Lemma demo_sessions_keyed : sessions_keyed FloatingDemo.db.
Proof. apply (map_Forall_to_list (fun k s => fs_ID s = k)). vm_compute. repeat constructor. Qed.

Lemma CheckOut_respects_limit_witness :
  exists now, 1000 * Second <= now /\
    count (active_at "lic-3" now) (db_floating_sessions (w_db (snd (CheckOut (FloatingDemo.asked_by "phone") FloatingDemo.world))))
    <= Z.max (count (active_at "lic-3" now) (db_floating_sessions FloatingDemo.db)) 2.
Proof.
  destruct (CheckOut_respects_limit (FloatingDemo.asked_by "phone") FloatingDemo.world "lic-3"
    (Demo.license "lic-3" "prod-1" "plan-3" "KEY-3" StatusActive None) (Demo.plan "plan-3" "prod-1" "floating"))
    as (now & Hn & Hl).
  - reflexivity.
  - apply (map_Forall_to_list (fun k l => lic_ID l = k)). vm_compute. repeat constructor.
  - exact demo_sessions_keyed.
  - reflexivity.
  - reflexivity.
  - exists now. exact (conj Hn (Hl now (Z.le_refl now))).
Defined.

Lemma CheckOut_sound_witness :
  match CheckOut (FloatingDemo.asked_by "phone") FloatingDemo.world with
  | (Ok r, w') => exists s, holds_session s (cor_SessionID r) (w_db w')
  | (Err _, _) => False
  end.
Proof.
  destruct (CheckOut (FloatingDemo.asked_by "phone") FloatingDemo.world) as [[r|e] w'] eqn:E.
  - destruct (CheckOut_sound (FloatingDemo.asked_by "phone") FloatingDemo.world r w' eq_refl E)
      as (lic & plan & used & t & _ & _ & _ & _ & _ & _ & _ & _ & Hs).
    exact (ex_intro (fun s => holds_session s (cor_SessionID r) (w_db w')) _ Hs).
  - exfalso. vm_compute in E. discriminate E.
Defined.

Lemma Heartbeat_unchecked_witness :
  exists r w', Heartbeat "KEY-3" "old" "prod-1" FloatingDemo.world = (Ok r, w').
Proof.
  destruct (loadLicenseForSDK "KEY-3" "prod-1" CapActivations true FloatingDemo.world) as [[lic|e] w1] eqn:E.
  - destruct (Heartbeat_unchecked "KEY-3" "old" "prod-1" FloatingDemo.world lic w1 (conj eq_refl eq_refl) E)
      as (r & w' & _ & _ & Hr & _). exact (ex_intro _ r (ex_intro _ w' Hr)).
  - exfalso. vm_compute in E. discriminate E.
Defined.

Lemma CheckOut_blocked_by_expired_witness :
  exists w', CheckOutFloatingWithLimit FloatingDemo.wanted 2 FloatingDemo.world = (Err (ErrSQL UniqueViolation), w') /\
    w_db w' = FloatingDemo.db.
Proof.
  apply (CheckOut_blocked_by_expired FloatingDemo.wanted 2 FloatingDemo.world "fs-2"
    (FloatingDemo.session "fs-2" "old" (500 * Second))).
  - split; reflexivity.
  - discriminate.
  - reflexivity.
  - reflexivity.
  - change (db_floating_sessions (w_db FloatingDemo.world)) with FloatingDemo.sessions.
    intros i s. unfold FloatingDemo.sessions. intros [[_ <-]|[_ [_ <-]%lookup_singleton_Some]]%lookup_insert_Some Hs; [discriminate Hs|].
    vm_compute. discriminate.
  - vm_compute. reflexivity.
Defined.
