(* ===== verification/Idempotency.v ===== *)
(** * Idempotent requests ([store/idempotency.go], [middleware/idempotency.go])

    A POST with an [Idempotency-Key] claims the slot (key, endpoint) before
    its handler runs; the answer is stored in the slot and replayed to later
    requests with the same key and body. *)

From S2P Require Import Prelude GoStrings Errors Model Crypto Lockout World Tables Logic.
From Stdlib Require Import Ascii String.

#[local] Open Scope string_scope.
#[local] Open Scope Z_scope.

(** ** Store *)

Definition slot_of (key endpoint : string) (r : IdempotencyKey) : bool :=
  streq (ik_Key r) key && streq (ik_Endpoint r) endpoint.

(** [INSERT ... ON CONFLICT (key, endpoint) DO NOTHING]: the number of rows. *)
Definition insert_slot (key endpoint bodyHash : string) (now : Time) : M goerr Z := stmt (fun db =>
  if row_exists (slot_of key endpoint) (db_idempotency_keys db) then Ok (0, db)
  else match insert_row idempotency_keys (key, endpoint)
               (mkIdemKey key endpoint bodyHash 0 "" false now (Add now (24 * Hour))) db with
       | Ok (_, db') => Ok (1, db')
       | Err e => Err e
       end).

Definition read_slot (key endpoint : string) : M goerr IdempotencyKey :=
  sql_select_one idempotency_keys (slot_of key endpoint).

Definition IdempotencyClaim (key endpoint bodyHash : string) : M goerr (option IdempotencyKey) :=
  now ← sql_now;
  rows ← insert_slot key endpoint bodyHash now;
  if rows =? 1 then mret None
  else
    r ← attempt (read_slot key endpoint);
    match r with
    | Err e => if goerr_Is e ErrNoRows then mret None else throw e
    | Ok row =>
        if negb (streq (ik_BodyHash row) bodyHash) then throw ErrIdempotencyBodyMismatch else mret (Some row)
    end.

Definition MaxStoredBody : Z := 65536.

Definition stored_body (body : string) : string :=
  if MaxStoredBody <? len body then stake (Z.to_nat MaxStoredBody) body else body.

Definition ik_complete (status : Z) (body : string) (r : IdempotencyKey) : IdempotencyKey :=
  mkIdemKey (ik_Key r) (ik_Endpoint r) (ik_BodyHash r) status body true (ik_CreatedAt r) (ik_ExpiresAt r).

Definition IdempotencyComplete (key endpoint : string) (status : Z) (body : string) : M goerr unit :=
  sql_update idempotency_keys (slot_of key endpoint) (ik_complete status (stored_body body)) ;; mret tt.

Definition IdempotencyAbandon {E} (key endpoint : string) : M E unit :=
  ignore (sql_delete idempotency_keys (fun r => slot_of key endpoint r && negb (ik_ResponseComplete r))).

Definition IdempotencyPruneExpired : M goerr Z :=
  now ← sql_now; sql_delete idempotency_keys (fun r => ik_ExpiresAt r <? now).

Definition ValidIdempotencyKey (s : string) : bool :=
  negb ((len s <? 1) || (256 <? len s))
  && sall (fun c => negb ((ord c =? 0) || (ord c =? 10) || (ord c =? 13))) s.

Definition SecondsUntil {E} (t : Time) : M E Z :=
  now ← time_Now;
  let d := Sub t now in
  mret (if d <? 0 then 0 else Z.quot d Second).

(** ** Middleware *)

(** What the handler left in the capturing writer: status 0 when it wrote
    nothing (a panic, or no answer). *)
Record Captured := mkCaptured { cap_status : Z; cap_body : string }.

Inductive Answer :=
  | Passed                                   (* no claim: the handler answers *)
  | Handled (c : Captured)
  | Replayed (status : Z) (body : string)
  | Aborted (status : Z) (code : string).

Definition maxBody : Z := 256 * 1024.

Section middleware.
Context {E : Type} (handler : World -> Captured * World).

Definition run_handler : M E Captured := fun w => let '(c, w') := handler w in (Ok c, w').

(** The deferred clean-up. *)
Definition settle (key endpoint : string) (c : Captured) : M E unit :=
  if cap_status c =? 0 then IdempotencyAbandon key endpoint
  else if 500 <=? cap_status c then IdempotencyAbandon key endpoint
  else ignore (IdempotencyComplete key endpoint (cap_status c) (cap_body c)).

Definition claimed_or_replayed (key endpoint : string) (existing : option IdempotencyKey) : M E Answer :=
  match existing with
  | Some row =>
      if ik_ResponseComplete row then mret (Replayed (ik_ResponseStatus row) (ik_ResponseBody row))
      else mret (Aborted 409 "IDEMPOTENCY_IN_FLIGHT")
  | None =>
      c ← run_handler;
      settle key endpoint c ;;
      mret (Handled c)
  end.

(** [body] is [None] when the request body cannot be read; [endpoint] is the
    route, or the path when there is none. *)
Definition Idempotency (method key : string) (body : option string) (endpoint : string) : M E Answer :=
  if negb (streq method "POST") then run_handler ;; mret Passed
  else if streq key "" then run_handler ;; mret Passed
  else if negb (ValidIdempotencyKey key) then mret (Aborted 400 "INVALID_IDEMPOTENCY_KEY")
  else match body with
  | None => mret (Aborted 400 "BAD_REQUEST")
  | Some body =>
      if maxBody <? len body then mret (Aborted 413 "BODY_TOO_LARGE")
      else
        r ← attempt (IdempotencyClaim key endpoint (sha256_hex body));
        match r with
        | Err e =>
            if goerr_Is e ErrIdempotencyBodyMismatch then mret (Aborted 422 "IDEMPOTENCY_KEY_CONFLICT")
            else mret (Aborted 500 "INTERNAL")
        | Ok existing => claimed_or_replayed key endpoint existing
        end
  end.
End middleware.

(** ** Slots *)

(** The primary key is the pair of columns. *)
Definition slots_keyed (db : DB) : Prop :=
  forall k r, db_idempotency_keys db !! k = Some r -> k = (ik_Key r, ik_Endpoint r).

Lemma slot_of_true key endpoint r : slot_of key endpoint r = true <-> (ik_Key r, ik_Endpoint r) = (key, endpoint).
Proof. unfold slot_of. rewrite andb_true_iff, !streq_true. split; [intros [-> ->]|intros [= -> ->]]; done. Qed.

Lemma first_slot key endpoint db :
  slots_keyed db -> first_row (rows (slot_of key endpoint) (db_idempotency_keys db))
                    = db_idempotency_keys db !! (key, endpoint).
Proof.
  intros Hk. destruct (db_idempotency_keys db !! (key, endpoint)) as [r|] eqn:E.
  - apply (first_row_unique _ _ _ _ E); [apply slot_of_true; symmetry; by apply Hk|].
    intros k' r' Hr' Hs. apply slot_of_true in Hs. rewrite <- Hs. by apply Hk.
  - apply first_row_rows_None. intros k r Hr. destruct (slot_of key endpoint r) eqn:Es; [|done].
    apply slot_of_true in Es. rewrite <- (Hk _ _ Hr) in Es. congruence.
Qed.

Lemma slot_taken key endpoint db :
  slots_keyed db -> row_exists (slot_of key endpoint) (db_idempotency_keys db)
                    = present (db_idempotency_keys db !! (key, endpoint)).
Proof. intros Hk. unfold row_exists. by rewrite first_slot. Qed.

(** No claim of a taken slot succeeds, whatever fails. *)
Lemma claim_taken key endpoint h w row :
  w_tx w = None -> slots_keyed (w_db w) -> db_idempotency_keys (w_db w) !! (key, endpoint) = Some row ->
  fst (IdempotencyClaim key endpoint h w) <> Ok None.
Proof.
  intros Hw Hk Hrow Hc. destruct (IdempotencyClaim key endpoint h w) as [r w'] eqn:E. simpl in Hc. subst r.
  unfold IdempotencyClaim in E. apply bind_Ok in E as (now & w1 & Hn & E).
  pose proof (still_sql_now (E := goerr) w) as (D1 & _). rewrite Hn in D1. simpl in D1.
  apply bind_Ok in E as (n & w2 & Hi & E). apply stmt_Ok in Hi as (Hi & _).
  rewrite D1, slot_taken, Hrow in Hi by done. simpl in Hi. injection Hi as <- D2. simpl in E.
  apply bind_Ok in E as (r & w3 & Hr & E). apply (proj1 (attempt_Ok _ _ _ _)) in Hr.
  destruct r as [row'|e].
  - destruct (negb _); [by apply throw_Ok in E|]. by apply mret_Ok in E as [? _].
  - destruct (goerr_Is e ErrNoRows) eqn:Ee; [|by apply throw_Ok in E].
    apply select_one_NoRows in Hr; [|done]. rewrite D2 in *. simpl in Hr.
    by rewrite first_slot, Hrow in Hr.
Qed.

(** C35. Slot_excludes: while a slot exists, finished or not, no request with its
    key runs its handler, whatever fails and whatever the size of the body: the
    answer and the whole world after it do not depend on the handler. *)
Theorem Idempotency_excludes {E} h1 h2 key body endpoint w row :
  w_tx w = None -> slots_keyed (w_db w) -> db_idempotency_keys (w_db w) !! (key, endpoint) = Some row ->
  key <> "" ->
  Idempotency (E := E) h1 "POST" key body endpoint w = Idempotency h2 "POST" key body endpoint w.
Proof.
  intros Hw Hk Hrow Hne. unfold Idempotency. simpl. rewrite (proj2 (streq_false _ _)) by done.
  destruct (negb _); [done|]. destruct body as [body|]; [|done]. destruct (_ <? _); [done|].
  unfold mbind, M_bind, attempt.
  pose proof (claim_taken key endpoint (sha256_hex body) w row Hw Hk Hrow) as Hc.
  destruct (IdempotencyClaim _ _ _ w) as [[[row'|]|e] w']; [|by destruct Hc|by destruct (goerr_Is _ _)].
  simpl. by destruct (ik_ResponseComplete row').
Qed.

(** ** A slot's life when nothing fails *)

Lemma hex_digit_stored n : 0 <= n < 16 -> sha256_hex_char (hex_digit n) = true.
Proof. revert n. apply (forall_range (fun n => sha256_hex_char (hex_digit n)) 16). vm_compute. done. Qed.

Lemma hex_stored s : sall sha256_hex_char (hex_EncodeToString s) = true.
Proof.
  induction s as [|c s IH]; [done|]. cbn [hex_EncodeToString sall]. rewrite IH.
  pose proof (ord_range c).
  rewrite (hex_digit_stored (_ / 16)) by (split; [apply Z.div_pos|apply Z.div_lt_upper_bound]; lia).
  by rewrite (hex_digit_stored (_ mod 16)) by (apply Z.mod_pos_bound; lia).
Qed.

Lemma slot_insert_ok key endpoint body now db :
  slots_keyed db -> db_idempotency_keys db !! (key, endpoint) = None ->
  ValidIdempotencyKey key = true -> 1 <= len endpoint <= 256 ->
  insert_row idempotency_keys (key, endpoint)
    (mkIdemKey key endpoint (sha256_hex body) 0 "" false now (Add now (24 * Hour))) db
  = Ok (tt, t_set idempotency_keys (<[(key, endpoint) :=
      mkIdemKey key endpoint (sha256_hex body) 0 "" false now (Add now (24 * Hour))]> (db_idempotency_keys db)) db).
Proof.
  intros Hk Hfree Hv He. unfold insert_row. cbn [t_get idempotency_keys]. rewrite Hfree.
  rewrite (proj2 (row_exists_false _ _)) by done.
  unfold ValidIdempotencyKey in Hv. bool_facts.
  assert (t_check idempotency_keys db (mkIdemKey key endpoint (sha256_hex body) 0 "" false now (Add now (24 * Hour)))
    = None) as ->; [|done]. cbn [t_check idempotency_keys ik_Key ik_Endpoint ik_BodyHash]. unfold check.
  unfold sha256_hex at 1. rewrite hex_stored. unfold len at 5. rewrite length_sha256_hex.
  rewrite !(proj2 (Z.leb_le _ _)) by lia. done.
Qed.

(** A handler that neither fails statements of its caller nor touches slots. *)
Definition leaves_slots (h : World -> Captured * World) : Prop :=
  forall w, quiet w -> quiet (snd (h w)) /\
    db_idempotency_keys (w_db (snd (h w))) = db_idempotency_keys (w_db w).

Definition cacheable (c : Captured) : bool := negb (cap_status c =? 0) && negb (500 <=? cap_status c).

Lemma settle_quiet {E} key endpoint c w row :
  quiet w -> slots_keyed (w_db w) -> db_idempotency_keys (w_db w) !! (key, endpoint) = Some row ->
  ik_ResponseComplete row = false ->
  exists w', settle (E := E) key endpoint c w = (Ok tt, w') /\
    db_idempotency_keys (w_db w') !! (key, endpoint)
    = if cacheable c then Some (ik_complete (cap_status c) (stored_body (cap_body c)) row) else None.
Proof.
  intros Hq Hk Hrow Hc. assert (slot_of key endpoint row = true) as Hslot by (apply slot_of_true; symmetry; by apply Hk).
  unfold settle, cacheable, IdempotencyAbandon, IdempotencyComplete, ignore, mbind, M_bind, sql_delete, sql_update.
  destruct (_ =? 0); simpl; [|destruct (500 <=? _); simpl];
    rewrite stmt_quiet by done; eexists; (split; [reflexivity|]); simpl.
  1,2: apply eq_None_not_Some; intros [r Hr]; apply lookup_delete_rows in Hr as [Hr Hp];
    rewrite Hrow in Hr; injection Hr as <-; by rewrite Hslot, Hc in Hp.
  rewrite lookup_update_rows, Hrow. simpl. by rewrite Hslot.
Qed.

Definition fresh_slot (key endpoint body : string) (now : Time) : IdempotencyKey :=
  mkIdemKey key endpoint (sha256_hex body) 0 "" false now (Add now (24 * Hour)).

Lemma claim_free key endpoint body w :
  quiet w -> slots_keyed (w_db w) -> db_idempotency_keys (w_db w) !! (key, endpoint) = None ->
  ValidIdempotencyKey key = true -> 1 <= len endpoint <= 256 ->
  exists now w1, IdempotencyClaim key endpoint (sha256_hex body) w = (Ok None, w1) /\ quiet w1 /\
    w_clock w <= now /\ slots_keyed (w_db w1) /\
    db_idempotency_keys (w_db w1) !! (key, endpoint) = Some (fresh_slot key endpoint body now).
Proof.
  intros Hq Hk Hfree Hv He. unfold IdempotencyClaim, mbind, M_bind, sql_now. rewrite (proj2 Hq).
  destruct (time_Now_quiet (E := goerr) w Hq) as (now & w1 & -> & Hq1 & D1 & C1 & _).
  unfold insert_slot. rewrite stmt_quiet by done. rewrite D1, slot_taken, Hfree by done. simpl present. cbv iota.
  rewrite slot_insert_ok by done. simpl. eexists now, _. split; [reflexivity|].
  split; [by destruct Hq1|]. split; [done|]. split; [|apply lookup_insert_eq].
  intros k r. simpl. intros [(<- & <-)|(_ & Hr)]%lookup_insert_Some; [done|by apply Hk].
Qed.

Lemma claim_row key endpoint bodyHash w row :
  quiet w -> slots_keyed (w_db w) -> db_idempotency_keys (w_db w) !! (key, endpoint) = Some row ->
  exists w1, IdempotencyClaim key endpoint bodyHash w
    = (if streq (ik_BodyHash row) bodyHash then Ok (Some row) else Err ErrIdempotencyBodyMismatch, w1) /\
    w_db w1 = w_db w.
Proof.
  intros Hq Hk Hrow. unfold IdempotencyClaim, mbind, M_bind, sql_now. rewrite (proj2 Hq).
  destruct (time_Now_quiet (E := goerr) w Hq) as (now & w1 & -> & Hq1 & D1 & C1 & _).
  unfold insert_slot. rewrite stmt_quiet by done. rewrite D1, slot_taken, Hrow by done. simpl present. cbv iota.
  rewrite <- D1, set_db_same. simpl. unfold attempt, read_slot. rewrite select_one_quiet by done. cbn [t_get idempotency_keys].
  rewrite D1, first_slot, Hrow by done. destruct (streq _ _); simpl; by eexists.
Qed.

(** A well-formed request is decided by its claim. *)
Lemma Idempotency_claim {E} h key body endpoint w :
  ValidIdempotencyKey key = true -> key <> "" -> len body <= maxBody ->
  Idempotency (E := E) h "POST" key (Some body) endpoint w
  = match IdempotencyClaim key endpoint (sha256_hex body) w with
    | (Ok existing, w') => claimed_or_replayed h key endpoint existing w'
    | (Err e, w') => (Ok (if goerr_Is e ErrIdempotencyBodyMismatch
                          then Aborted 422 "IDEMPOTENCY_KEY_CONFLICT" else Aborted 500 "INTERNAL"), w')
    end.
Proof.
  intros Hv Hne Hb. unfold Idempotency. simpl. rewrite (proj2 (streq_false _ _)), Hv by done.
  rewrite (proj2 (Z.ltb_ge _ _)) by done. simpl. unfold mbind, M_bind, attempt.
  destruct (IdempotencyClaim _ _ _ w) as [[existing|e] w']; [done|]. by destruct (goerr_Is _ _).
Qed.

(** Slot_life: when nothing fails, the first request with a key runs its
    handler once on a claimed slot; an answer below 500 stays in the slot, an
    answer of 500 or more, or no answer, frees it; and from then on, as long
    as the slot is there, a request with the same key is answered from the
    slot if its body is the same and refused if it is not, without its handler
    being run. *)
Theorem Idempotency_replay {E} h key body endpoint w :
  quiet w -> slots_keyed (w_db w) -> leaves_slots h ->
  db_idempotency_keys (w_db w) !! (key, endpoint) = None ->
  ValidIdempotencyKey key = true -> key <> "" -> len body <= maxBody -> 1 <= len endpoint <= 256 ->
  exists c w' now, Idempotency (E := E) h "POST" key (Some body) endpoint w = (Ok (Handled c), w') /\
    w_clock w <= now /\
    db_idempotency_keys (w_db w') !! (key, endpoint)
    = (if cacheable c then
         Some (mkIdemKey key endpoint (sha256_hex body) (cap_status c) (stored_body (cap_body c)) true now
                 (Add now (24 * Hour)))
       else None) /\
    (cacheable c = true -> forall w2 h2 body2,
       quiet w2 -> slots_keyed (w_db w2) -> len body2 <= maxBody ->
       db_idempotency_keys (w_db w2) !! (key, endpoint) = db_idempotency_keys (w_db w') !! (key, endpoint) ->
       fst (Idempotency (E := E) h2 "POST" key (Some body2) endpoint w2)
       = Ok (if streq (sha256_hex body) (sha256_hex body2)
             then Replayed (cap_status c) (stored_body (cap_body c))
             else Aborted 422 "IDEMPOTENCY_KEY_CONFLICT") /\
       w_db (snd (Idempotency (E := E) h2 "POST" key (Some body2) endpoint w2)) = w_db w2).
Proof.
  intros Hq Hk Hh Hfree Hv Hne Hb He.
  destruct (claim_free key endpoint body w Hq Hk Hfree Hv He) as (now & w1 & Ec & Hq1 & Hn & Hk1 & Hrow).
  rewrite Idempotency_claim, Ec by done. cbn [claimed_or_replayed].
  unfold mbind, M_bind, run_handler. destruct (Hh w1 Hq1) as [Hq2 D2]. destruct (h w1) as [c w2]. simpl in Hq2, D2.
  destruct (settle_quiet (E := E) key endpoint c w2 (fresh_slot key endpoint body now)) as (w3 & -> & Hslot);
    [done|by unfold slots_keyed; rewrite D2|by rewrite D2|done|].
  exists c, w3, now. split; [done|]. split; [done|]. split; [exact Hslot|].
  intros Hc w4 h2 body2 Hq4 Hk4 Hb2 Hsame. rewrite Hslot, Hc in Hsame. rewrite Idempotency_claim by done.
  destruct (claim_row key endpoint (sha256_hex body2) w4 _ Hq4 Hk4 Hsame) as (w5 & -> & D5).
  simpl. by destruct (streq _ _).
Qed.

(** ** Instances *)

Module IdempotencyDemo.
Definition handler (w : World) : Captured * World := (mkCaptured 201 "created", w).
Definition world : World := mkWorld (mkDB ∅ ∅ ∅ ∅ ∅ ∅ ∅ ∅ ∅ ∅ ∅ ∅ ∅ ∅ ∅ ∅ ∅ ∅ ∅ ∅ ∅ ∅ ∅ ∅ ∅ ∅ ∅ ∅ ∅ ∅ ∅ ∅)
  None (1000 * Second) [] [] false 0 [] ∅ [].
Definition taken : World := set_db (t_set idempotency_keys
  {[("k1", "/api/v1/usage") := mkIdemKey "k1" "/api/v1/usage" "" 0 "" false 0 0]} (w_db world)) world.
End IdempotencyDemo.

Lemma Idempotency_excludes_witness :
  fst (Idempotency (E := error) IdempotencyDemo.handler "POST" "k1" (Some "{}") "/api/v1/usage" IdempotencyDemo.taken)
  = fst (Idempotency (fun w => (mkCaptured 0 "", set_db (w_db IdempotencyDemo.world) w)) "POST" "k1" (Some "{}")
      "/api/v1/usage" IdempotencyDemo.taken).
Proof.
  rewrite (Idempotency_excludes IdempotencyDemo.handler (fun w => (mkCaptured 0 "", set_db (w_db IdempotencyDemo.world) w))
    "k1" (Some "{}") "/api/v1/usage" IdempotencyDemo.taken
    (mkIdemKey "k1" "/api/v1/usage" "" 0 "" false 0 0)).
  - reflexivity.
  - reflexivity.
  - apply (map_Forall_to_list (fun k r => k = (ik_Key r, ik_Endpoint r))). vm_compute. repeat constructor.
  - reflexivity.
  - discriminate.
Defined.

Lemma Idempotency_replay_witness :
  exists c w' now, Idempotency (E := error) IdempotencyDemo.handler "POST" "k1" (Some "{}") "/api/v1/usage"
      IdempotencyDemo.world = (Ok (Handled c), w') /\ 1000 * Second <= now.
Proof.
  destruct (Idempotency_replay (E := error) IdempotencyDemo.handler "k1" "{}" "/api/v1/usage" IdempotencyDemo.world)
    as (c & w' & now & Hr & Hn & _).
  - split; reflexivity.
  - intros k r Hr. discriminate Hr.
  - intros w Hq. exact (conj Hq eq_refl).
  - reflexivity.
  - reflexivity.
  - discriminate.
  - discriminate.
  - split; discriminate.
  - exact (ex_intro _ c (ex_intro _ w' (ex_intro _ now (conj Hr Hn)))).
Defined.
