(* ===== verification/Sessions.v ===== *)
(** * Accounts and sessions ([store/store.go], [handler/otp.go],
    [handler/oauth.go], [middleware/auth.go])

    One-time login codes, refresh tokens with rotation and reuse detection,
    session versions, roles and the guard of the last owner.  The JWT library
    is an argument: signing, and parsing with the checks of signature and
    expiry. *)

From S2P Require Import Prelude GoStrings Errors Model Crypto Lockout World Tables Logic Token Usability Store.
From S2P Require Import Webhook LicenseService Demo.
From Stdlib Require Import Ascii String.

#[local] Open Scope string_scope.
#[local] Open Scope Z_scope.

(** ** Refresh tokens *)

Definition rt_revoke (now : Time) (t : RefreshToken) : RefreshToken :=
  mkRefreshToken (rt_ID t) (rt_UserID t) (rt_TokenHash t) (rt_ExpiresAt t) (rt_CreatedAt t) (Some now).

(** [token_hash = ? AND expires_at > now()]. *)
Definition live_token (tokenHash : string) (now : Time) (t : RefreshToken) : bool :=
  streq (rt_TokenHash t) tokenHash && (now <? rt_ExpiresAt t).

Definition CreateRefreshToken `{UUIDs} (userID tokenHash : string) (expiresAt : Time) : M goerr unit :=
  id ← newID;
  now ← sql_now;
  sql_insert refresh_tokens id (mkRefreshToken id userID tokenHash expiresAt now None).

Definition FindRefreshToken (tokenHash : string) : M goerr RefreshToken :=
  now ← sql_now;
  sql_select_one refresh_tokens (fun t => live_token tokenHash now t && negb (present (rt_RevokedAt t))).

(** The two answers with a row: revoked now, or found already revoked
    ([ErrRefreshTokenReused]). *)
Inductive Rotation := Rotated (t : RefreshToken) | Reused (t : RefreshToken).

Definition RotateRefreshToken (tokenHash : string) : M goerr Rotation :=
  with_tx (
    tnow ← sql_now;
    rt ← sql_select_one refresh_tokens (live_token tokenHash tnow);
    if present (rt_RevokedAt rt) then
      ignore commit_tx ;;
      mret (Reused rt)
    else
      now ← time_Now;
      sql_update refresh_tokens (fun t => streq (rt_ID t) (rt_ID rt)) (rt_revoke now) ;;
      commit_tx ;;
      mret (Rotated (rt_revoke now rt))).

Definition DeleteRefreshToken {E} (tokenHash : string) : M E unit :=
  ignore (sql_delete refresh_tokens (fun t => streq (rt_TokenHash t) tokenHash)).
Definition DeleteUserRefreshTokens {E} (userID : string) : M E unit :=
  ignore (sql_delete refresh_tokens (fun t => streq (rt_UserID t) userID)).
Definition CleanExpiredRefreshTokens {E} : M E unit :=
  now ← sql_now; ignore (sql_delete refresh_tokens (fun t => rt_ExpiresAt t <? now)).

(** ** One-time codes *)

Definition maxOTPAttempts : Z := 5.

Definition otp_new (id : string) (now : Time) (o : OTPCode) : OTPCode :=
  mkOTP id (otp_Email o) (otp_CodeHash o) (otp_Attempts o) (otp_ExpiresAt o) (otp_Used o) now.
Definition otp_attempt (matched : bool) (o : OTPCode) : OTPCode :=
  mkOTP (otp_ID o) (otp_Email o) (otp_CodeHash o) (otp_Attempts o + 1) (otp_ExpiresAt o)
    (matched || otp_Used o) (otp_CreatedAt o).
Definition otp_use (o : OTPCode) : OTPCode :=
  mkOTP (otp_ID o) (otp_Email o) (otp_CodeHash o) (otp_Attempts o) (otp_ExpiresAt o) true (otp_CreatedAt o).

Definition CreateOTPCode `{UUIDs} (otp : OTPCode) : M goerr OTPCode :=
  id ← fresh_id (otp_ID otp);
  now ← sql_now;
  sql_insert otp_codes id (otp_new id now otp) ;;
  mret (otp_new id now otp).

Definition CountRecentOTPCodes (email : string) : M goerr Z :=
  now ← sql_now;
  sql_count otp_codes (fun o => streq (otp_Email o) email && (Add now (-10 * Minute) <? otp_CreatedAt o)).

Definition valid_otp (email : string) (now : Time) (o : OTPCode) : bool :=
  streq (otp_Email o) email && negb (otp_Used o) && (now <? otp_ExpiresAt o)
  && (otp_Attempts o <? maxOTPAttempts).

(** [ORDER BY created_at DESC LIMIT 1]. *)
Definition select_otp (email : string) (now : Time) : M goerr OTPCode :=
  l ← sql_select_ordered otp_codes (valid_otp email now) (fun o => - otp_CreatedAt o) 1;
  match l with o :: _ => mret o | [] => throw ErrNoRows end.

Definition FindLatestValidOTPCode (email : string) : M goerr OTPCode :=
  now ← sql_now; select_otp email now.

(** The guarded UPDATE: [used = false AND attempts < 5] is checked again. *)
Definition count_attempt (id : string) (matched : bool) : M goerr Z :=
  sql_update otp_codes
    (fun o => streq (otp_ID o) id && negb (otp_Used o) && (otp_Attempts o <? maxOTPAttempts)) (otp_attempt matched).

Definition ConsumeOTPCode (email presentedHash : string) : M goerr (option OTPCode * bool) :=
  with_tx (
    now ← sql_now;
    r ← attempt (select_otp email now);
    match r with
    | Err e => if goerr_Is e ErrNoRows then mret (None, false) else throw e
    | Ok otp =>
        let matched := streq (otp_CodeHash otp) presentedHash in
        n ← count_attempt (otp_ID otp) matched;
        if negb (n =? 1) then mret (None, false)
        else
          commit_tx ;;
          mret (Some (otp_attempt matched otp), matched)
    end).

Definition IncrementOTPAttempts (id : string) : M goerr unit :=
  sql_update otp_codes (fun o => streq (otp_ID o) id) (otp_attempt false) ;; mret tt.
Definition MarkOTPUsed (id : string) : M goerr unit :=
  sql_update otp_codes (fun o => streq (otp_ID o) id) otp_use ;; mret tt.
Definition CleanExpiredOTPs {E} : M E unit :=
  now ← sql_now; ignore (sql_delete otp_codes (fun o => otp_ExpiresAt o <? now)).

(** ** Accounts *)

Definition user_set_role (role : string) (now : Time) (u : User) : User :=
  mkUser (user_ID u) (user_Email u) (user_Name u) (user_AvatarURL u) role (user_SessionVersion u)
    (user_CreatedAt u) now.
Definition user_revoke (now : Time) (u : User) : User :=
  mkUser (user_ID u) (user_Email u) (user_Name u) (user_AvatarURL u) (user_Role u) (user_SessionVersion u + 1)
    (user_CreatedAt u) now.
Definition user_profile (name avatarURL : string) (now : Time) (u : User) : User :=
  mkUser (user_ID u) (user_Email u) name avatarURL (user_Role u) (user_SessionVersion u) (user_CreatedAt u) now.
Definition is_user (id : string) (u : User) : bool := streq (user_ID u) id.
Definition is_owner (u : User) : bool := streq (user_Role u) RoleOwner.

Definition FindUserByEmail (email : string) : M goerr User := sql_select_one users (fun u => streq (user_Email u) email).
Definition FindUserByID (id : string) : M goerr User := sql_select_one users (is_user id).

(** The role column defaults to [user]. *)
Definition default_role (role : string) : string := if streq role "" then RoleUser else role.

(** [INSERT ... ON CONFLICT (email) DO UPDATE]. *)
Definition UpsertUser `{UUIDs} (u : User) : M goerr unit :=
  id ← fresh_id (user_ID u);
  now ← sql_now;
  stmt (fun db =>
    let same u' := streq (user_Email u') (user_Email u) in
    if row_exists same (db_users db)
    then Ok (tt, t_set users (update_rows same (user_profile (user_Name u) (user_AvatarURL u) now) (db_users db)) db)
    else insert_row users id (mkUser id (user_Email u) (user_Name u) (user_AvatarURL u) (default_role (user_Role u))
           (user_SessionVersion u) now now) db).

(** [INSERT ... ON CONFLICT (email) DO NOTHING]. *)
Definition CreatePlaceholderUser `{UUIDs} (email role : string) : M goerr unit :=
  id ← newID;
  now ← sql_now;
  stmt (fun db =>
    if row_exists (fun u => streq (user_Email u) email) (db_users db) then Ok (tt, db)
    else insert_row users id (mkUser id email "" "" (default_role role) 0 now now) db).

Definition UpdateUserProfile (userID name : string) : M goerr unit :=
  now ← sql_now;
  sql_update users (is_user userID) (fun u => user_profile name (user_AvatarURL u) now u) ;; mret tt.

(** The first configured address becomes the owner when there is none; any
    error is dropped. *)
Definition SyncAdminEmails (adminEmails : list string) : M goerr unit :=
  match adminEmails with
  | [] => mret tt
  | _ =>
      r ← attempt (stmt (fun db => Ok (row_exists is_owner (db_users db), db)));
      let ownerExists := match r with Ok b => b | Err _ => false end in
      for_each (imap pair adminEmails) (fun '(i, email) =>
        let role := if (i =? 0)%nat && negb ownerExists then RoleOwner else RoleAdmin in
        now ← sql_now;
        ignore (sql_update users (fun u => streq (user_Email u) email && streq (user_Role u) RoleUser)
                  (user_set_role role now)))
  end.

Definition admin_role (role : string) : bool := streq role RoleOwner || streq role RoleAdmin.

Definition FindUserIsAdmin {E} (userID : string) : M E bool :=
  r ← attempt (FindUserByID userID);
  mret (match r with Ok u => admin_role (user_Role u) | Err _ => false end).

(** [(isAdmin, valid)]. *)
Definition FindUserSessionState {E} (userID : string) (tokenVersion : Z) : M E (bool * bool) :=
  r ← attempt (FindUserByID userID);
  mret (match r with
        | Err _ => (false, false)
        | Ok u => if negb (user_SessionVersion u =? tokenVersion) then (false, false)
                  else (admin_role (user_Role u), true)
        end).

Definition SetUserRole (userID role : string) : M goerr unit :=
  if negb (streq role RoleOwner) && negb (streq role RoleAdmin) && negb (streq role RoleUser)
  then throw (ErrText ("invalid role: " +:+ role))
  else
    now ← sql_now;
    sql_update users (is_user userID) (user_set_role role now) ;; mret tt.

Definition CountOwners : M goerr Z := sql_count users is_owner.

(** The advisory lock is taken, and released, outside the transaction. *)
Definition DemoteOwnerAtomic (targetID : string) : M goerr unit :=
  sql_lock ;;
  r ← attempt (with_tx (
    ownerCount ← CountOwners;
    target ← FindUserByID targetID;
    if streq (user_Role target) RoleOwner && (ownerCount <=? 1) then throw ErrLastOwner
    else
      now ← sql_now;
      sql_update users (is_user targetID) (user_set_role RoleUser now) ;;
      commit_tx));
  ignore sql_lock ;;
  match r with Ok _ => mret tt | Err e => throw e end.

Definition RevokeUserSessionsWithAudit `{UUIDs} (userID ip : string) : M goerr unit :=
  RunAuditedMutation
    (Some (mkAuditLog "" "session" userID "logout" userID "user" ∅ ip 0))
    (sql_delete refresh_tokens (fun t => streq (rt_UserID t) userID) ;;
     now ← sql_now;
     n ← sql_update users (is_user userID) (user_revoke now);
     must_affect n (fun n => n =? 1) ErrNoRows).

(** ** Sessions *)

Record Claims := mkClaims {
  cl_UserID : string; cl_Email : string; cl_Name : string; cl_IsAdmin : bool; cl_SessionVersion : Z;
  cl_AuthMethod : string; cl_ExpiresAt : Time; cl_IssuedAt : Time; cl_ID : string }.

(** What the browser is left with. *)
Inductive Response :=
  | OK (status : string) (cookies : option (string * string))   (* session and refresh tokens *)
  | Failed (status : Z) (code : string).

Definition hashToken (raw : string) : string := sha256_hex raw.

(** [rand.Read]'s error is dropped: the buffer then stays zero. *)
Definition randomHex {E} (n : nat) : M E string :=
  b ← rand_Read n;
  mret (hex_EncodeToString (match b with Some s => s | None => string_of_list_ascii (repeat Ascii.zero n) end)).

Section sessions.
Context `{UUIDs} (jwt_sign : string -> Claims -> option string)
  (jwt_parse : string -> string -> Time -> option Claims) (secret : string).

Definition IssueJWTWithSession (userID email name : string) (isAdmin : bool) (ttl : Duration)
    (sessionVersion : Z) (authMethod : string) : M goerr string :=
  t1 ← time_Now;
  t2 ← time_Now;
  id ← newID;
  match jwt_sign secret (mkClaims userID email name isAdmin sessionVersion authMethod (Add t1 ttl) t2 id) with
  | Some token => mret token
  | None => throw (ErrText "jwt")
  end.

Definition issueSession (user : User) (authMethod : string) : M goerr (string * string) :=
  token ← IssueJWTWithSession (user_ID user) (user_Email user) (user_Name user) (IsAdmin user) (24 * Hour)
            (user_SessionVersion user) authMethod;
  rawRefresh ← randomHex 32;
  now ← time_Now;
  CreateRefreshToken (user_ID user) (hashToken rawRefresh) (Add now (30 * 24 * Hour)) ;;
  mret (token, rawRefresh).

Definition respond (r : result goerr (string * string)) (status : string) : Response :=
  match r with Ok c => OK status (Some c) | Err _ => Failed 500 "INTERNAL" end.

Definition Refresh {E} (cookie : option string) : M E Response :=
  match cookie with
  | None => mret (Failed 401 "no refresh token")
  | Some raw =>
      if streq raw "" then mret (Failed 401 "no refresh token")
      else
        r ← attempt (RotateRefreshToken (hashToken raw));
        match r with
        | Ok (Reused rt) =>
            DeleteUserRefreshTokens (rt_UserID rt) ;;
            emit (EvWarn "refresh token reuse detected — revoking all user tokens") ;;
            mret (Failed 401 "refresh token reuse detected")
        | Err _ => mret (Failed 401 "invalid refresh token")
        | Ok (Rotated rt) =>
            u ← attempt (FindUserByID (rt_UserID rt));
            match u with
            | Err _ => mret (Failed 401 "user not found")
            | Ok user => s ← attempt (issueSession user "refresh"); mret (respond s "refreshed")
            end
        end
  end.

Definition Logout {E} (userID ip : string) : M E Response :=
  if negb (streq userID "") then
    r ← attempt (RevokeUserSessionsWithAudit userID ip);
    match r with Err _ => mret (Failed 500 "INTERNAL") | Ok _ => mret (OK "logged_out" None) end
  else mret (OK "logged_out" None).

(** [SessionAuthWithState]: the identity a request runs under. *)
Record Identity := mkIdentity { id_user : string; id_email : string; id_admin : bool; id_method : string }.

Definition sessionAuth {E} (raw : string) : M E (Identity + Response) :=
  if streq raw "" then mret (inr (Failed 401 "unauthorized"))
  else
    now ← time_Now;
    match jwt_parse secret raw now with
    | None => mret (inr (Failed 401 "invalid or expired token"))
    | Some claims =>
        if streq (cl_UserID claims) "" || streq (cl_ID claims) ""
        then mret (inr (Failed 401 "invalid or expired token"))
        else
          state ← FindUserSessionState (cl_UserID claims) (cl_SessionVersion claims);
          let '(isAdmin, valid) := state in
          if negb valid then mret (inr (Failed 401 "SESSION_REVOKED"))
          else mret (inl (mkIdentity (cl_UserID claims) (cl_Email claims) isAdmin (cl_AuthMethod claims)))
    end.

(** ** One-time codes *)

Definition hashOTPCode (code : string) : string :=
  hex_EncodeToString (hmac_sha256 secret ("licensehub:otp:v1" +:+ String Ascii.zero code)).

(** [fmt.Sprintf "%06d"] of the number drawn by [rand.Int]. *)
Definition pad6 (n : Z) : string :=
  let s := pretty n in
  string_of_list_ascii (repeat "0"%char (6 - String.length s)) +:+ s.

(** [n] is the number drawn below a million; [send] whether the message could
    be handed to the mail server. *)
Definition OTPSend {E} (mail_ready : bool) (n : Z) (sent : bool) (rawEmail : string) : M E Response :=
  let email := ToLower (TrimSpace rawEmail) in
  if negb mail_ready then mret (Failed 503 "SMTP_UNAVAILABLE")
  else
    c ← attempt (CountRecentOTPCodes email);
    match c with
    | Err _ => mret (Failed 500 "INTERNAL")
    | Ok count =>
        if 3 <=? count then mret (Failed 429 "RATE_LIMITED")
        else
          now ← time_Now;
          r ← attempt (CreateOTPCode (mkOTP "" email (hashOTPCode (pad6 n)) 0 (Add now (10 * Minute)) false 0));
          match r with
          | Err _ => mret (Failed 500 "INTERNAL")
          | Ok otp =>
              if sent then emit (EvEmail "otp" email [pad6 n]) ;; mret (OK "sent" None)
              else ignore (MarkOTPUsed (otp_ID otp)) ;; mret (Failed 503 "SMTP_UNAVAILABLE")
          end
    end.

Definition welcome (mail_ready : bool) (user : User) : M error unit :=
  now ← time_Now;
  if mail_ready && (Sub now (user_CreatedAt user) <? Minute)
  then emit (EvEmail "welcome" (user_Email user) [user_Name user]) else mret tt.

(** The account of a verified address, promoted when it is configured as an
    administrator's. *)
Definition login_user (adminEmails : list string) (email : string) : M goerr User :=
  UpsertUser (mkUser "" email "" "" "" 0 0 0) ;;
  user ← FindUserByEmail email;
  if existsb (fun e => EqualFold e (user_Email user)) adminEmails && streq (user_Role user) RoleUser then
    ignore (SetUserRole (user_ID user) RoleAdmin) ;;
    mret (user_set_role RoleAdmin (user_UpdatedAt user) user)
  else mret user.

(** The lockout of the route, when it has one. *)
Definition track (tracker : option FailureTracker) (f : FailureTracker -> M error unit) : M error unit :=
  match tracker with None => mret tt | Some ft => f ft end.

Definition OTPVerify (mail_ready : bool) (adminEmails : list string) (tracker : option FailureTracker)
    (rawEmail rawCode ip : string) : M error Response :=
  let email := ToLower (TrimSpace rawEmail) in
  let code := TrimSpace rawCode in
  r ← attempt (ConsumeOTPCode email (hashOTPCode code));
  match r with
  | Ok (Some otp, true) =>
      track tracker (fun ft => ft_RecordSuccess ft ("ip:" +:+ ip)) ;;
      r ← attempt (login_user adminEmails email);
      match r with
      | Err _ => mret (Failed 500 "INTERNAL")
      | Ok user =>
          welcome mail_ready user ;;
          s ← attempt (issueSession user "otp");
          match s with
          | Err _ => mret (Failed 500 "INTERNAL")
          | Ok cookies =>
              Audit (mkAuditLog "" "session" (user_ID user) "login" (user_ID user) "otp"
                {["email" := AnyString (user_Email user)]} ip 0) ;;
              mret (OK "ok" (Some cookies))
          end
      end
  | Ok (otp, _) =>
      track tracker (fun ft => ft_RecordFailure ft ("ip:" +:+ ip)) ;;
      let remaining := match otp with Some o => 5 - otp_Attempts o | None => 0 end in
      mret (Failed 401 (if remaining <=? 0 then "too many attempts, request a new code" else "invalid or expired code"))
  | Err _ => mret (Failed 500 "INTERNAL")
  end.
End sessions.

(** ** A refresh token is rotated once *)

Lemma still_randomHex {E} n : still (randomHex (E := E) n).
Proof. apply still_bind; [apply still_rand_Read|]. intros. apply still_ret. Qed.

Definition tokens_keyed (db : DB) : Prop :=
  (forall k t, db_refresh_tokens db !! k = Some t -> rt_ID t = k) /\
  (forall k t k' t', db_refresh_tokens db !! k = Some t -> db_refresh_tokens db !! k' = Some t' ->
     rt_TokenHash t' = rt_TokenHash t -> k' = k).

Lemma RotateRefreshToken_Ok h w t w' :
  RotateRefreshToken h w = (Ok (Rotated t), w') ->
  exists k t0 now revoked, db_refresh_tokens (w_db w) !! k = Some t0 /\ rt_TokenHash t0 = h /\
    rt_RevokedAt t0 = None /\ now < rt_ExpiresAt t0 /\ t = rt_revoke revoked t0 /\
    db_refresh_tokens (w_db w')
    = update_rows (fun t => streq (rt_ID t) (rt_ID t0)) (rt_revoke revoked) (db_refresh_tokens (w_db w)).
Proof.
  intros Hr. unfold RotateRefreshToken in Hr. apply with_tx_Ok in Hr as (w1 & wb & Hb & -> & D1 & _).
  apply bind_Ok in Hb as (tnow & w2 & Hn & Hb). pose proof (proj1 (still_sql_now (E := goerr) w1)) as D2.
  rewrite Hn in D2. simpl in D2. apply bind_Ok in Hb as (t0 & w3 & Hs & Hb).
  pose proof (proj1 (select_one_db _ _ _ _ _ Hs)) as D3. apply select_one_Ok in Hs as (k & Hk & Hl).
  unfold live_token in Hl. bool_facts. str_facts.
  destruct (rt_RevokedAt t0) as [r|] eqn:Er; simpl in Hb.
  - apply bind_Ok in Hb as ([] & w4 & _ & Hb). by apply mret_Ok in Hb as [? _].
  - apply bind_Ok in Hb as (now & w4 & Hn' & Hb). pose proof (proj1 (still_time_Now (E := goerr) w3)) as D4.
    rewrite Hn' in D4. simpl in D4. clear Hn'.
    apply (write_commit_Ok _ (fun _ => Rotated (rt_revoke now t0))) in Hb as (n & Hf & [= ->]).
    simpl in Hf. injection Hf as _ Hdb. exists k, t0, tnow, now. rewrite <- Hdb. simpl.
    simpl in Hk. assert (w_db w4 = w_db w) as -> by congruence. rewrite D2, D1 in Hk. done.
Qed.

(** Rotation_once: a rotation that succeeds, whatever failed around it, is of
    a stored, unrevoked token with that hash; it revokes that token and
    changes no other; and as long as the tokens stay so, presenting the hash
    again never rotates: a refresh token buys one session. *)
Theorem RotateRefreshToken_once h w t w' :
  tokens_keyed (w_db w) -> RotateRefreshToken h w = (Ok (Rotated t), w') ->
  exists k t0 revoked, db_refresh_tokens (w_db w) !! k = Some t0 /\ rt_TokenHash t0 = h /\ rt_RevokedAt t0 = None /\
    t = rt_revoke revoked t0 /\ db_refresh_tokens (w_db w') = <[k := t]> (db_refresh_tokens (w_db w)) /\
    (forall w2 t2, db_refresh_tokens (w_db w2) = db_refresh_tokens (w_db w') ->
       fst (RotateRefreshToken h w2) <> Ok (Rotated t2)).
Proof.
  intros [Hkey Hun] Hr. apply RotateRefreshToken_Ok in Hr as (k & t0 & now & revoked & Hk & Hh & Hrv & _ & -> & Hdb).
  assert (db_refresh_tokens (w_db w') = <[k := rt_revoke revoked t0]> (db_refresh_tokens (w_db w))) as Hdb'.
  { rewrite Hdb. apply map_eq. intros j. rewrite lookup_update_rows.
    destruct (decide (j = k)) as [->|Hj].
    - rewrite lookup_insert_eq, Hk. simpl. by rewrite streq_refl.
    - rewrite lookup_insert_ne by done. destruct (db_refresh_tokens (w_db w) !! j) as [tj|] eqn:Ej; [|done].
      simpl. destruct (streq (rt_ID tj) (rt_ID t0)) eqn:E; [|done]. str_facts.
      apply Hkey in Ej, Hk. congruence. }
  exists k, t0, revoked. repeat (split; [done|]). intros w2 t2 D2 E2.
  destruct (RotateRefreshToken h w2) as [r w3] eqn:Er. simpl in E2. subst r.
  apply RotateRefreshToken_Ok in Er as (k2 & t1 & _ & _ & Hk2 & Hh2 & Hrv2 & _). rewrite D2, Hdb' in Hk2.
  apply lookup_insert_Some in Hk2 as [(_ & <-)|(Hne & Hk2)]; [done|].
  apply Hne. apply (Hun k2 t1 k t0 Hk2 Hk). congruence.
Qed.

(** ** A one-time code takes five guesses *)

Section guesses.
Context (id : string).

Definition otps_keyed (db : DB) : Prop := forall k o, db_otp_codes db !! k = Some o -> otp_ID o = k.

(** The guesses the code has left. *)
Definition guesses_left (db : DB) : Z :=
  match db_otp_codes db !! id with
  | Some o => if otp_Used o then 0 else Z.max 0 (maxOTPAttempts - otp_Attempts o)
  | None => 0
  end.

Lemma guesses_left_nonneg db : 0 <= guesses_left db.
Proof. unfold guesses_left. destruct (_ !! _) as [o|]; [destruct (otp_Used o)|]; lia. Qed.

(** Whether a call told the caller about the code. *)
Definition told (r : result goerr (option OTPCode * bool)) : bool :=
  match r with Ok (Some otp, _) => streq (otp_ID otp) id | _ => false end.

Fixpoint times_told (calls : list (string * string)) (w : World) : Z :=
  match calls with
  | [] => 0
  | (email, presentedHash) :: calls =>
      let '(r, w) := ConsumeOTPCode email presentedHash w in
      b2z (told r) + times_told calls w
  end.

Definition guesses_within (b : Z) (db : DB) : Prop := otps_keyed db /\ guesses_left db <= b.

Lemma guesses_left_attempt P m db :
  guesses_left (t_set otp_codes (update_rows P (otp_attempt m) (db_otp_codes db)) db) <= guesses_left db.
Proof.
  unfold guesses_left. simpl. rewrite lookup_update_rows. destruct (db_otp_codes db !! id) as [o|]; simpl; [|lia].
  destruct (P o); simpl; [|lia]. destruct m, (otp_Used o); simpl; lia.
Qed.

Lemma otps_keyed_attempt P m db :
  otps_keyed db -> otps_keyed (t_set otp_codes (update_rows P (otp_attempt m) (db_otp_codes db)) db).
Proof.
  intros Hk k o. simpl. rewrite lookup_update_rows. intros (o0 & Ho & ->)%fmap_Some. apply Hk in Ho.
  by destruct (P o0).
Qed.

Lemma keeps_count_attempt b i m : keeps (guesses_within b) (count_attempt i m).
Proof.
  apply hoare_keeps, hoare_stmt. simpl. intros db [Hk Hb] _. split; [done|]. split; [|done].
  split; [by apply otps_keyed_attempt|]. etrans; [apply guesses_left_attempt|done].
Qed.

Lemma keeps_select_otp I email now : keeps I (select_otp email now).
Proof.
  apply keeps_bind; [apply keeps_read; by intros db a db' [= _ <-]|]. intros [|o l]; keeps_go.
Qed.

Lemma keeps_ConsumeOTPCode b email h : keeps (guesses_within b) (ConsumeOTPCode email h).
Proof.
  apply keeps_with_tx. apply keeps_bind; [auto with licensehub|]. intros now.
  apply keeps_bind; [apply keeps_attempt, keeps_select_otp|].
  intros [otp|e]; [|keeps_go]. cbv zeta. apply keeps_bind; [apply keeps_count_attempt|]. intros n. keeps_go.
Qed.

Lemma select_otp_Ok email now w o w' :
  select_otp email now w = (Ok o, w') ->
  w_db w' = w_db w /\ exists k, db_otp_codes (w_db w) !! k = Some o /\ valid_otp email now o = true.
Proof.
  intros Hr. unfold select_otp, sql_select_ordered in Hr. apply bind_Ok in Hr as (l & w1 & Hs & Hr).
  apply stmt_Ok in Hs as (Hs & _). injection Hs as Hl D. destruct l as [|o' l]; [by apply throw_Ok in Hr|].
  apply mret_Ok in Hr as [-> <-]. split; [done|]. apply elem_of_rows. rewrite <- (sort_by_perm (fun o => - otp_CreatedAt o)).
  apply (subseteq_take 1). rewrite Hl. by left.
Qed.

(** A call that tells about a code is of a valid one, and uses a guess. *)
Lemma ConsumeOTPCode_Ok email h w otp m w' :
  ConsumeOTPCode email h w = (Ok (Some otp, m), w') ->
  exists k o0 now, db_otp_codes (w_db w) !! k = Some o0 /\ valid_otp email now o0 = true /\
    m = streq (otp_CodeHash o0) h /\ otp = otp_attempt m o0 /\
    w_db w' = t_set otp_codes (update_rows (fun o => streq (otp_ID o) (otp_ID o0) && negb (otp_Used o)
                                  && (otp_Attempts o <? maxOTPAttempts)) (otp_attempt m) (db_otp_codes (w_db w))) (w_db w).
Proof.
  intros Hr. unfold ConsumeOTPCode in Hr. apply with_tx_Ok in Hr as (w1 & wb & Hb & -> & D1 & _).
  apply bind_Ok in Hb as (now & w2 & Hn & Hb). pose proof (proj1 (still_sql_now (E := goerr) w1)) as D2.
  rewrite Hn in D2. simpl in D2. apply bind_Ok in Hb as (r & w3 & Hs & Hb). apply (proj1 (attempt_Ok _ _ _ _)) in Hs.
  destruct r as [o0|e].
  2:{ destruct (goerr_Is _ _); [by apply mret_Ok in Hb as [? _]|by apply throw_Ok in Hb]. }
  apply select_otp_Ok in Hs as (D3 & k & Hk & Hv). cbv zeta in Hb.
  apply bind_Ok in Hb as (n & w4 & Hu & Hb). destruct (n =? 1); simpl in Hb; [|by apply mret_Ok in Hb as [? _]].
  apply bind_Ok in Hb as ([] & w5 & Hc & Hb). apply mret_Ok in Hb as [[= <- <-] <-].
  unfold count_attempt, sql_update in Hu. apply stmt_Ok in Hu as (Hu & Htx & Hok & _).
  apply commit_Ok in Hc; [|unfold tx_ok in *; by rewrite Htx]. simpl in Hu. injection Hu as _ Hu.
  assert (w_db w3 = w_db w) as D by congruence. rewrite D in Hu. rewrite D2, D1 in Hk.
  exists k, o0, now. rewrite Hc, <- Hu. done.
Qed.

Lemma ConsumeOTPCode_closed email h w : w_tx w = None -> w_tx (snd (ConsumeOTPCode email h w)) = None.
Proof. apply with_tx_closed. Qed.

Lemma told_uses_guess email h w r w' :
  otps_keyed (w_db w) -> ConsumeOTPCode email h w = (r, w') -> told r = true ->
  guesses_left (w_db w') + 1 <= guesses_left (w_db w).
Proof.
  intros Hk Hr Ht. destruct r as [[[otp|] m]|e]; [|done..]. simpl in Ht. str_facts.
  apply ConsumeOTPCode_Ok in Hr as (k & o0 & now & Ho & Hv & -> & -> & ->). simpl in Ht.
  apply Hk in Ho as Eid. assert (k = id) as -> by congruence. unfold valid_otp in Hv. bool_facts. clear Eid.
  unfold guesses_left. cbn [t_set otp_codes db_otp_codes]. rewrite lookup_update_rows, Ho. cbn [fmap option_fmap option_map].
  rewrite streq_refl. match goal with H1 : otp_Used o0 = false |- _ => rewrite H1 end.
  rewrite (proj2 (Z.ltb_lt _ _)) by done. unfold maxOTPAttempts in *.
  cbn [andb negb otp_attempt otp_Used otp_Attempts].
  match goal with H1 : otp_Used o0 = false |- _ => rewrite H1, orb_false_r end. destruct (streq (otp_CodeHash o0) h); lia.
Qed.

(** C38. Guess_limit: whatever fails, and whoever asks for which address, the calls
    together tell about one code at most as many times as it had guesses left:
    five for a new one, and none once a guess was right. *)
Theorem otp_guesses_bounded calls w :
  w_tx w = None -> otps_keyed (w_db w) -> times_told calls w <= guesses_left (w_db w).
Proof.
  revert w. induction calls as [|[email h] calls IH]; intros w Hw Hk.
  - apply guesses_left_nonneg.
  - cbn [times_told]. destruct (ConsumeOTPCode email h w) as [r w'] eqn:Er.
    assert (safe (guesses_within (guesses_left (w_db w))) w') as [[Hk' Hb] _].
    { pose proof (keeps_ConsumeOTPCode (guesses_left (w_db w)) email h w) as Hs. rewrite Er in Hs. apply Hs.
      apply safe_closed; [|done]. split; [done|lia]. }
    assert (w_tx w' = None) as Hw' by (pose proof (ConsumeOTPCode_closed email h w Hw) as E; by rewrite Er in E).
    specialize (IH w' Hw' Hk'). destruct (told r) eqn:Et; cbn [b2z]; [|lia].
    pose proof (told_uses_guess email h w r w' Hk Er Et). lia.
Qed.
End guesses.

(** ** The last owner *)

Definition users_keyed (db : DB) : Prop := forall k u, db_users db !! k = Some u -> user_ID u = k.
Definition has_owner (db : DB) : Prop := users_keyed db /\ 1 <= count is_owner (db_users db).

Lemma hoare_pure {E A} (I P : DB -> Prop) (R : Prop) (m : M E A) Q :
  (R -> hoare I P m Q) -> hoare I (fun db => R /\ P db) m Q.
Proof. intros Hm w Hs [Hr Hp]. by apply Hm. Qed.

Lemma keeps_Demote target : keeps has_owner (DemoteOwnerAtomic target).
Proof.
  apply keeps_bind; [auto with licensehub|]. intros []. apply keeps_bind; [|intros r; destruct r; keeps_go].
  apply keeps_attempt, keeps_with_tx, hoare_keeps.
  eapply hoare_bind; [apply hoare_count| |done]. intros n. simpl.
  eapply hoare_bind; [apply hoare_select_one| |done]. intros u. simpl.
  destruct (streq (user_Role u) RoleOwner && (n <=? 1)) eqn:Eg; [apply hoare_drop; keeps_go|].
  apply hoare_bind_still; [auto with licensehub| |done]. intros now.
  eapply hoare_bind; [|intros m; apply hoare_drop; keeps_go|done].
  apply (hoare_stmt _ _ _ (fun _ _ => True)). simpl. intros db [Hkey Hown] [[_ En] (k & Hu & Hid)].
  split; [done|]. split; [|done]. split; simpl.
  - intros i u'. simpl. rewrite lookup_update_rows. intros (u0 & Hu0 & ->)%fmap_Some. apply Hkey in Hu0. by destruct (is_user target u0).
  - replace (update_rows _ _ _) with (<[k := user_set_role RoleUser now u]> (db_users db)).
    + rewrite (count_insert _ _ _ _ u Hu). unfold is_owner at 2 3. simpl.
      destruct (streq (user_Role u) RoleOwner) eqn:Er; simpl in *; [bool_facts|]; subst n; lia.
    + symmetry. apply map_eq. intros j. rewrite lookup_update_rows. destruct (decide (j = k)) as [->|Hj].
      * rewrite lookup_insert_eq, Hu. simpl. by rewrite Hid.
      * rewrite lookup_insert_ne by done. destruct (db_users db !! j) as [uj|] eqn:Ej; [|done]. simpl.
        destruct (is_user target uj) eqn:E; [|done]. unfold is_user in *. str_facts.
        apply Hkey in Ej, Hu. congruence.
Qed.

(** Owner_kept: whatever fails during a demotion, an organisation that has an
    owner still has one. *)
Theorem DemoteOwnerAtomic_keeps_owner target w :
  w_tx w = None -> users_keyed (w_db w) -> 1 <= count is_owner (db_users (w_db w)) ->
  1 <= count is_owner (db_users (w_db (snd (DemoteOwnerAtomic target w)))).
Proof.
  intros Hw Hk Hc.
  apply (keeps_Demote target w), safe_closed; [by split|done].
Qed.

(** ** Logging out *)

Lemma insert_audit_Ok log w w' :
  insert_audit log w = (Ok tt, w') ->
  db_users (w_db w') = db_users (w_db w) /\ db_refresh_tokens (w_db w') = db_refresh_tokens (w_db w) /\
  w_tx w' = w_tx w /\ tx_ok w'.
Proof.
  intros Hr. unfold insert_audit in Hr. apply bind_Ok in Hr as (now & w1 & Hn & Hr).
  destruct (still_sql_now (E := goerr) w) as (D1 & T1 & _). rewrite Hn in D1, T1. simpl in D1, T1.
  unfold sql_insert in Hr. apply stmt_Ok in Hr as (Hf & Htx & Hok & _).
  apply insert_row_Ok in Hf as (_ & _ & _ & ->). unfold tx_ok in *. rewrite Htx, <- D1, <- T1. done.
Qed.

Lemma RevokeUserSessions_Ok `{UUIDs} userID ip w w' :
  RevokeUserSessionsWithAudit userID ip w = (Ok tt, w') ->
  exists now, count (is_user userID) (db_users (w_db w)) = 1 /\
    db_users (w_db w') = update_rows (is_user userID) (user_revoke now) (db_users (w_db w)) /\
    db_refresh_tokens (w_db w') = delete_rows (fun t => streq (rt_UserID t) userID) (db_refresh_tokens (w_db w)).
Proof.
  intros Hr. unfold RevokeUserSessionsWithAudit, RunAuditedMutation in Hr. apply bind_Ok in Hr as (id & w0 & Hi & Hr).
  assert (w_db w0 = w_db w) as D0.
  { destruct (fresh_id_run (E := goerr) "" w) as (w00 & E0 & D & _). simpl in Hi. congruence. }
  apply with_tx_Ok in Hr as (w1 & wb & Hb & -> & D1 & _).
  apply bind_Ok in Hb as ([] & w2 & Hm & Hb). apply bind_Ok in Hb as ([] & w3 & Ha & Hc).
  apply map_err_Ok, insert_audit_Ok in Ha as (Du & Dt & _ & Hok). apply commit_Ok in Hc; [|done].
  rewrite Hc, Du, Dt. clear Hc Du Dt Hok w3.
  apply bind_Ok in Hm as (nd & w4 & Hd & Hm). unfold sql_delete in Hd. apply stmt_Ok in Hd as (Hd & _).
  simpl in Hd. injection Hd as _ Hd. apply bind_Ok in Hm as (now & w5 & Hn & Hm).
  destruct (still_sql_now (E := goerr) w4) as (D5 & _). rewrite Hn in D5. simpl in D5.
  apply bind_Ok in Hm as (n & w6 & Hu & Hm). unfold sql_update in Hu. apply stmt_Ok in Hu as (Hu & _).
  simpl in Hu. injection Hu as Hn1 Hu. unfold must_affect in Hm. destruct (n =? 1) eqn:E1; [|by apply throw_Ok in Hm].
  apply mret_Ok in Hm as [_ <-]. bool_facts. exists now. rewrite <- Hu. simpl.
  rewrite D5, <- Hd in *. simpl in *. rewrite D1, D0 in *. split; [lia|done].
Qed.

Section revoked.
Context `{UUIDs} (jwt_parse : string -> string -> Time -> option Claims) (secret : string).

(** Logout_revokes: after a logout that succeeds no refresh token of the user
    is left, and no request is authenticated as the user by a token issued at
    or before the version the user had, however long that token was to live. *)
Theorem Logout_revokes userID ip w w' :
  users_keyed (w_db w) -> RevokeUserSessionsWithAudit userID ip w = (Ok tt, w') ->
  exists u, db_users (w_db w) !! userID = Some u /\
    (forall k t, db_refresh_tokens (w_db w') !! k = Some t -> rt_UserID t <> userID) /\
    (forall raw w2 who, db_users (w_db w2) = db_users (w_db w') ->
       (forall now claims, jwt_parse secret raw now = Some claims -> cl_UserID claims = userID ->
          cl_SessionVersion claims <= user_SessionVersion u) ->
       fst (sessionAuth (E := error) jwt_parse secret raw w2) = Ok (inl who) -> id_user who <> userID).
Proof.
  intros Hk Hr. apply RevokeUserSessions_Ok in Hr as (now & Hc & Hdu & Hdt).
  destruct (row_exists (is_user userID) (db_users (w_db w))) eqn:Ex.
  2:{ rewrite count_zero in Hc by (by apply row_exists_false). lia. }
  apply row_exists_true in Ex as (k & u & Hu & Hid).
  unfold is_user in Hid. str_facts. pose proof (Hk _ _ Hu) as Ek. assert (k = userID) as -> by congruence.
  exists u. split; [done|]. split.
  { intros k t Ht. rewrite Hdt in Ht. apply lookup_delete_rows in Ht as [_ Ht]. by apply streq_false in Ht. }
  intros raw w2 who D2 Hver Hauth Ewho.
  destruct (sessionAuth jwt_parse secret raw w2) as [r w3] eqn:Es. simpl in Hauth. subst r.
  unfold sessionAuth in Es. destruct (streq raw ""); [by apply mret_Ok in Es as [? _]|].
  apply bind_Ok in Es as (t & w4 & Ht & Es). pose proof (proj1 (still_time_Now (E := error) w2)) as D4.
  rewrite Ht in D4. simpl in D4. destruct (jwt_parse secret raw t) as [claims|] eqn:Ep; [|by apply mret_Ok in Es as [? _]].
  destruct (_ || _); [by apply mret_Ok in Es as [? _]|].
  apply bind_Ok in Es as ([adm valid] & w5 & Hs & Es). destruct valid; simpl in Es; [|by apply mret_Ok in Es as [? _]].
  apply mret_Ok in Es as [[= <-] _]. simpl in Ewho. unfold FindUserSessionState in Hs.
  apply bind_Ok in Hs as (r & w6 & Hf & Hs). apply (proj1 (attempt_Ok _ _ _ _)) in Hf. apply mret_Ok in Hs as [Hs _].
  destruct r as [u2|e]; [|done]. apply select_one_Ok in Hf as (k2 & Hk2 & Hid2). simpl in Hk2.
  rewrite D4, D2, Hdu, lookup_update_rows in Hk2. apply fmap_Some in Hk2 as (u3 & Hu3 & ->).
  specialize (Hver t claims Ep Ewho). rewrite Ewho in *. pose proof (Hk _ _ Hu3) as Ek3.
  assert (is_user userID u3 = true) as Eu3 
    by (unfold is_user in *; destruct (streq (user_ID u3) userID) eqn:E3; congruence).
  rewrite Eu3 in *. unfold is_user in Eu3. str_facts. assert (u3 = u) as -> by congruence. simpl in Hs.
  rewrite (proj2 (Z.eqb_neq _ _)) in Hs by lia. done.
Qed.
End revoked.

(** ** Instances *)

#[local] Existing Instance Demo.uuids.

Module SessionsDemo.
Definition user (id role : string) : User := mkUser id (id +:+ "@example.com") "" "" role 3 0 0.
Definition code : OTPCode := mkOTP "otp-1" "ann@example.com" "hash" 3 (2000 * Second) false 0.
Definition token : RefreshToken := mkRefreshToken "rt-1" "ann" "h1" (2000 * Second) 0 None.
Definition db : DB :=
  t_set users {["ann" := user "ann" RoleOwner; "bob" := user "bob" RoleOwner]}
    (t_set otp_codes {["otp-1" := code]} (t_set refresh_tokens {["rt-1" := token]} Demo.db)).
Definition world : World := Demo.world_of db.
Definition claims : Claims := mkClaims "ann" "ann@example.com" "" true 3 "otp" (9000 * Second) 0 "jti".
Definition parse (secret raw : string) (now : Time) : option Claims := if streq raw "tok" then Some claims else None.
Definition guesses : list (string * string) := repeat ("ann@example.com", "wrong") 6.
End SessionsDemo.

Lemma demo_users_keyed : users_keyed SessionsDemo.db.
Proof. apply (map_Forall_to_list (fun k u => user_ID u = k)). vm_compute. repeat constructor. Qed.

Lemma demo_tokens_keyed : tokens_keyed SessionsDemo.db.
Proof.
  split.
  - apply (map_Forall_to_list (fun k t => rt_ID t = k)). vm_compute. repeat constructor.
  - change (db_refresh_tokens SessionsDemo.db) with ({["rt-1" := SessionsDemo.token]} : gmap string RefreshToken).
    intros k t k' t' [<- _]%lookup_singleton_Some [<- _]%lookup_singleton_Some; done.
Qed.

Lemma RotateRefreshToken_once_witness :
  match RotateRefreshToken "h1" SessionsDemo.world with
  | (Ok (Rotated t), w') => forall t2, fst (RotateRefreshToken "h1" w') <> Ok (Rotated t2)
  | _ => False
  end.
Proof.
  destruct (RotateRefreshToken "h1" SessionsDemo.world) as [[[t|t]|e] w'] eqn:E.
  - destruct (RotateRefreshToken_once "h1" SessionsDemo.world t w' demo_tokens_keyed E)
      as (k & t0 & r & _ & _ & _ & _ & _ & Honce).
    intros t2. exact (Honce w' t2 eq_refl).
  - exfalso. vm_compute in E. discriminate E.
  - exfalso. vm_compute in E. discriminate E.
Defined.

Lemma otp_guesses_bounded_witness :
  times_told "otp-1" SessionsDemo.guesses SessionsDemo.world = 2 /\
  times_told "otp-1" SessionsDemo.guesses SessionsDemo.world <= 2.
Proof.
  split.
  - vm_compute. reflexivity.
  - apply (otp_guesses_bounded "otp-1" SessionsDemo.guesses SessionsDemo.world); [reflexivity|].
    apply (map_Forall_to_list (fun k o => otp_ID o = k)). vm_compute. repeat constructor.
Defined.

Lemma DemoteOwnerAtomic_keeps_owner_witness :
  1 <= count is_owner (db_users (w_db (snd (DemoteOwnerAtomic "ann" SessionsDemo.world)))).
Proof.
  apply (DemoteOwnerAtomic_keeps_owner "ann" SessionsDemo.world).
  - reflexivity.
  - exact demo_users_keyed.
  - vm_compute. discriminate.
Defined.

Lemma Logout_revokes_witness :
  match RevokeUserSessionsWithAudit "ann" "" SessionsDemo.world with
  | (Ok tt, w') => forall who, fst (sessionAuth (E := error) SessionsDemo.parse "s" "tok" w') = Ok (inl who) ->
                     id_user who <> "ann"
  | _ => False
  end.
Proof.
  destruct (RevokeUserSessionsWithAudit "ann" "" SessionsDemo.world) as [[[]|e] w'] eqn:E.
  - destruct (Logout_revokes SessionsDemo.parse "s" "ann" "" SessionsDemo.world w' demo_users_keyed E)
      as (u & Hu & _ & Hauth).
    intros who. apply (Hauth "tok" w' who eq_refl). intros now claims Hc _. injection Hc as <-.
    injection Hu as <-. vm_compute. discriminate.
  - exfalso. vm_compute in E. discriminate E.
Defined.
