(* ===== verification/Concurrency.v ===== *)
(** * Interleaved requests: the count-then-insert transactions

    [ActivateWithinLimit] and the check-out of a new floating session lock the
    licence's row, count the rows of the licence, insert one more below the
    limit, and commit.  The rest of the development runs such a transaction
    without interruption.  Here the statements of any number of transactions
    interleave, under PostgreSQL's READ COMMITTED rules: a statement reads the
    committed rows, a written row is visible to others at COMMIT, an INSERT
    waits for an uncommitted row it conflicts with, a row lock is held to the
    end of the transaction, and a lock on a row that does not exist locks
    nothing.  Connections may be lost at any point, and other requests delete
    rows at any time.  Every interleaving has the rows and the answers of the
    transactions run one after the other, in the order they end. *)

From S2P Require Import Prelude GoStrings Errors Model World Tables Logic Store Demo.
From S2P Require Import Floating Sessions.
From Stdlib Require Import Ascii String.
From stdpp Require Import relations.

#[local] Open Scope string_scope.
#[local] Open Scope Z_scope.

(** ** Tables whose rows belong to a licence *)

Class Owned {R} (T : Table string R) (owner : R -> string) := mkOwned {
  own_set_set m m' db : t_set T m (t_set T m' db) = t_set T m db;
  own_licenses m db : db_licenses (t_set T m db) = db_licenses db;
  own_check_set m db r : t_check T (t_set T m db) r = t_check T db r;
  own_check db r : t_check T db r = None -> present (db_licenses db !! owner r) = true;
  own_sym r r' : t_conflict T r r' = t_conflict T r' r
}.

Lemma streq_sym s t : streq s t = streq t s.
Proof. destruct (streq s t) eqn:E, (streq t s) eqn:E'; rewrite ?streq_true, ?streq_false in *; congruence. Qed.

Lemma fk_None b : fk b = None -> b = true.
Proof. by destruct b. Qed.

Lemma and_then_None a b : and_then a b = None -> a = None /\ b = None.
Proof. by destruct a. Qed.

#[export] Instance activations_owned : Owned activations act_LicenseID.
Proof.
  split; try done; simpl.
  - intros db r [H _]%and_then_None. by apply fk_None.
  - intros r r'. by rewrite (streq_sym (act_LicenseID r)), (streq_sym (act_Identifier r)).
Qed.

#[export] Instance floating_owned : Owned floating_sessions fs_LicenseID.
Proof.
  split; try done; simpl.
  - intros db r H. by apply fk_None.
  - intros r r'. by rewrite (streq_sym (fs_LicenseID r)), (streq_sym (fs_Identifier r)).
Qed.

Section protocol.
Context {R : Type} (T : Table string R) (owner : R -> string) `{!Owned T owner}.

(** ** The transaction *)

(** The columns [now()] fills, and the rows a limit counts, depend on the
    instant the transaction began. *)
Record Request := mkRequest {
  rq_license : string; rq_counted : Time -> R -> bool; rq_max : Z; rq_refusal : goerr;
  rq_id : string; rq_row : Time -> R }.

Definition locked_insert (q : Request) : M goerr unit :=
  with_tx (
    now ← sql_now;
    sql_lock ;;
    n ← sql_count T (rq_counted q now);
    if rq_max q <=? n then throw (rq_refusal q)
    else sql_insert T (rq_id q) (rq_row q now) ;; commit_tx).

(** A request counts and adds rows of its own licence only. *)
Definition request_ok (q : Request) : Prop :=
  (forall now, owner (rq_row q now) = rq_license q) /\
  (forall now r, rq_counted q now r = true -> owner r = rq_license q).

(** The transaction run alone at instant [t], with a script of faults. *)
Definition run_at (faults : list fault) (t : Time) (q : Request) (db : DB) : result goerr unit * DB :=
  let '(r, w) := locked_insert q (mkWorld db None t [] faults false 0 [] ∅ []) in (r, w_db w).

(** ** The interleaved machine *)

Inductive phase :=
  | Begin                                   (* before BEGIN *)
  | Started (now : Time)                    (* before SELECT ... FOR UPDATE *)
  | Locked (now : Time)                     (* before SELECT count *)
  | Counted (now : Time)                    (* before INSERT *)
  | Inserted (now : Time)                   (* before COMMIT *)
  | Ended (r : result goerr unit).

Record Conc := mkConc {
  c_db : DB;                                (* what is committed *)
  c_locks : gmap string nat;                (* licence, the transaction that locks its row *)
  c_phases : gmap nat phase }.

Variable request : nat -> Request.

Definition licence_of (i : nat) : string := rq_license (request i).
Definition row_of (i : nat) (now : Time) : R := rq_row (request i) now.
Definition committed (i : nat) (now : Time) (db : DB) : DB :=
  t_set T (<[rq_id (request i) := row_of i now]> (t_get T db)) db.
Definition counts (i : nat) (now : Time) (db : DB) : Z := count (rq_counted (request i) now) (t_get T db).

Definition release (i : nat) (locks : gmap string nat) : gmap string nat :=
  if bool_decide (locks !! licence_of i = Some i) then delete (licence_of i) locks else locks.

Definition goto (i : nat) (p : phase) (s : Conc) : Conc := mkConc (c_db s) (c_locks s) (<[i := p]> (c_phases s)).
(** The transaction ends, with the committed rows as [db]. *)
Definition finish (i : nat) (r : result goerr unit) (db : DB) (s : Conc) : Conc :=
  mkConc db (release i (c_locks s)) (<[i := Ended r]> (c_phases s)).

(** Two rows that a unique index does not allow together. *)
Definition clash (i : nat) (t : Time) (j : nat) (u : Time) : bool :=
  streq (rq_id (request i)) (rq_id (request j)) || t_conflict T (row_of i t) (row_of j u).

(** An INSERT of [i] does not wait. *)
Definition unblocked (i : nat) (t : Time) (s : Conc) : Prop :=
  forall j u, c_phases s !! j = Some (Inserted u) -> j <> i -> clash j u i t = false.

(** A transaction executes its next statement. *)
Inductive proceed (s : Conc) : Conc -> Prop :=
  | p_begin i now : c_phases s !! i = Some Begin -> proceed s (goto i (Started now) s)
  | p_lock i now : c_phases s !! i = Some (Started now) ->
      present (db_licenses (c_db s) !! licence_of i) = true -> c_locks s !! licence_of i = None ->
      proceed s (mkConc (c_db s) (<[licence_of i := i]> (c_locks s)) (<[i := Locked now]> (c_phases s)))
  | p_lock_nothing i now : c_phases s !! i = Some (Started now) ->
      present (db_licenses (c_db s) !! licence_of i) = false -> proceed s (goto i (Locked now) s)
  | p_count i now : c_phases s !! i = Some (Locked now) ->
      counts i now (c_db s) < rq_max (request i) -> proceed s (goto i (Counted now) s)
  | p_refuse i now : c_phases s !! i = Some (Locked now) ->
      rq_max (request i) <= counts i now (c_db s) ->
      proceed s (finish i (Err (rq_refusal (request i))) (c_db s) s)
  | p_insert i now db' : c_phases s !! i = Some (Counted now) -> unblocked i now s ->
      insert_row T (rq_id (request i)) (row_of i now) (c_db s) = Ok (tt, db') ->
      proceed s (goto i (Inserted now) s)
  | p_violate i now e : c_phases s !! i = Some (Counted now) -> unblocked i now s ->
      insert_row T (rq_id (request i)) (row_of i now) (c_db s) = Err e ->
      proceed s (finish i (Err e) (c_db s) s)
  | p_commit i now : c_phases s !! i = Some (Inserted now) ->
      proceed s (finish i (Ok tt) (committed i now (c_db s)) s).

Definition lost : result goerr unit := Err (ErrSQL ConnectionFailure).
Definition is_ended (p : phase) : bool := match p with Ended _ => true | _ => false end.

(** What the environment does: a lost connection rolls its transaction back,
    or loses the answer of a COMMIT; another request deletes rows. *)
Inductive interfere (s : Conc) : Conc -> Prop :=
  | i_lost i p : c_phases s !! i = Some p -> is_ended p = false -> interfere s (finish i lost (c_db s) s)
  | i_lost_answer i now : c_phases s !! i = Some (Inserted now) ->
      interfere s (finish i lost (committed i now (c_db s)) s)
  | i_delete P : interfere s
      (mkConc (t_set T (delete_rows P (t_get T (c_db s))) (c_db s)) (c_locks s) (c_phases s)).

Definition step (s s' : Conc) : Prop := proceed s s' \/ interfere s s'.

Definition initial (db : DB) (procs : gset nat) : Conc := mkConc db ∅ (gset_to_gmap Begin procs).

(** ** The specification: one transaction after the other *)

Record Spec := mkSpec { s_db : DB; s_answers : gmap nat (result goerr unit) }.

Inductive spec_step (a : Spec) : Spec -> Prop :=
  | sp_run i faults t r db' : s_answers a !! i = None -> run_at faults t (request i) (s_db a) = (r, db') ->
      spec_step a (mkSpec db' (<[i := r]> (s_answers a)))
  | sp_delete P : spec_step a (mkSpec (t_set T (delete_rows P (t_get T (s_db a))) (s_db a)) (s_answers a)).

Definition answer (p : phase) : option (result goerr unit) := match p with Ended r => Some r | _ => None end.
Definition abstract (s : Conc) : Spec := mkSpec (c_db s) (omap answer (c_phases s)).

(** ** Running one transaction alone *)

#[local] Ltac run_alone :=
  cbv [run_at locked_insert with_tx begin_tx defer_rollback sql_now sql_lock sql_count sql_insert commit_tx stmt
    mbind M_bind throw next_fault tick set_faults set_clock set_tx set_db fail_tx rollback_w w_db w_tx w_clock
    w_ticks w_faults w_commit_reports w_ids w_rand w_attempts w_events tx_now tx_failed tx_snapshot andb negb].

Lemma run_quiet q t db :
  run_at [] t q db
  = if rq_max q <=? count (rq_counted q t) (t_get T db) then (Err (rq_refusal q), db)
    else match insert_row T (rq_id q) (rq_row q t) db with
         | Ok (_, db') => (Ok tt, db')
         | Err e => (Err e, db)
         end.
Proof.
  run_alone. destruct (_ <=? _); [done|]. destruct (insert_row _ _ _ _) as [[[] db']|e]; [done|].
  by destruct (refuses e).
Qed.

Lemma run_lost q t db : run_at [Lost false] t q db = (lost, db).
Proof. by run_alone. Qed.

Lemma run_lost_answer q t db db' :
  count (rq_counted q t) (t_get T db) < rq_max q -> insert_row T (rq_id q) (rq_row q t) db = Ok (tt, db') ->
  run_at [NoFault; NoFault; NoFault; NoFault; Lost true] t q db = (lost, db').
Proof.
  intros Hn Hi. run_alone. by rewrite (proj2 (Z.leb_gt _ _) Hn), Hi.
Qed.

(** ** The invariant of the interleaved machine *)

Definition exists_licence (i : nat) (db : DB) : Prop := present (db_licenses db !! licence_of i) = true.
Definition holds (i : nat) (s : Conc) : Prop := c_locks s !! licence_of i = Some i.
Definition has_room (i : nat) (t : Time) (db : DB) : Prop := counts i t db < rq_max (request i).
Definition insertable (i : nat) (t : Time) (db : DB) : Prop :=
  t_get T db !! rq_id (request i) = None /\
  (forall k r, t_get T db !! k = Some r -> t_conflict T r (row_of i t) = false) /\
  t_check T db (row_of i t) = None.

Definition phase_inv (s : Conc) (i : nat) (p : phase) : Prop :=
  match p with
  | Locked t => exists_licence i (c_db s) -> holds i s
  | Counted t => (exists_licence i (c_db s) -> holds i s) /\ has_room i t (c_db s)
  | Inserted t => holds i s /\ has_room i t (c_db s) /\ insertable i t (c_db s) /\
      forall j u, c_phases s !! j = Some (Inserted u) -> j <> i -> clash j u i t = false
  | _ => True
  end.

Definition working (p : phase) : bool := match p with Locked _ | Counted _ | Inserted _ => true | _ => false end.

Record Inv (s : Conc) : Prop := mkInv {
  inv_phase i p : c_phases s !! i = Some p -> phase_inv s i p;
  inv_locks l i : c_locks s !! l = Some i ->
    l = licence_of i /\ exists p, c_phases s !! i = Some p /\ working p = true }.

Context (request_ok_all : forall i, request_ok (request i)).
Implicit Types (s : Conc) (db : DB).

Lemma clash_sym i t j u : clash i t j u = clash j u i t.
Proof. unfold clash. by rewrite streq_sym, (own_sym (T := T)). Qed.

Lemma insert_insertable i t db db' :
  insert_row T (rq_id (request i)) (row_of i t) db = Ok (tt, db') <->
  insertable i t db /\ db' = committed i t db.
Proof.
  split.
  - intros (? & ? & ? & ->)%insert_row_Ok. done.
  - intros [(H1 & H2 & H3) ->]. unfold insert_row. rewrite H1.
    rewrite (proj2 (row_exists_false _ _)) by done. by rewrite H3.
Qed.

Lemma insertable_licence i t db : insertable i t db -> exists_licence i db.
Proof.
  intros (_ & _ & H). unfold exists_licence, licence_of.
  rewrite <- (proj1 (request_ok_all i) t). by apply (own_check (T := T)).
Qed.

Lemma exists_committed i j t db : exists_licence i (committed j t db) <-> exists_licence i db.
Proof. unfold exists_licence, committed. by rewrite (own_licenses (T := T) (owner := owner)). Qed.

(** A commit under another lock does not change what [i] counts. *)
Lemma room_committed i t j u db :
  licence_of j <> licence_of i -> insertable j u db -> has_room i t db -> has_room i t (committed j u db).
Proof.
  intros Hl (Hk & _) Hr. unfold has_room, counts, committed in *. rewrite t_get_set, count_insert_fresh by done.
  destruct (rq_counted (request i) t (row_of j u)) eqn:E; simpl; [|lia].
  apply (proj2 (request_ok_all i)) in E. unfold row_of in E. by rewrite (proj1 (request_ok_all j)) in E.
Qed.

Lemma insertable_committed i t j u db :
  clash j u i t = false -> insertable i t db -> insertable i t (committed j u db).
Proof.
  unfold clash. intros [Hid Hc]%orb_false_iff (H1 & H2 & H3). rewrite streq_false in Hid.
  unfold insertable, committed. rewrite t_get_set, (own_check_set (T := T) (owner := owner)).
  split_and!; [by rewrite lookup_insert_ne| |done].
  intros k r [[<- <-]|[_ Hk]]%lookup_insert_Some; eauto.
Qed.

Lemma room_deleted i t P db : has_room i t db -> has_room i t (t_set T (delete_rows P (t_get T db)) db).
Proof.
  unfold has_room, counts. rewrite t_get_set.
  pose proof (count_delete_rows (rq_counted (request i) t) P (t_get T db)). lia.
Qed.

Lemma insertable_deleted i t P db :
  insertable i t db -> insertable i t (t_set T (delete_rows P (t_get T db)) db).
Proof.
  intros (H1 & H2 & H3). unfold insertable. rewrite t_get_set, (own_check_set (T := T) (owner := owner)).
  split_and!; [|intros k r [Hk _]%lookup_delete_rows; eauto|done].
  destruct (delete_rows _ _ !! _) as [r|] eqn:E; [|done]. apply lookup_delete_rows in E as [E _]. congruence.
Qed.

(** ** The invariant is kept *)

Lemma release_other i j l locks : j <> i -> release i locks !! l = Some j <-> locks !! l = Some j.
Proof.
  intros Hj. unfold release. case_bool_decide as E; [|done]. rewrite lookup_delete_Some.
  split; [tauto|]. intros H. split; [|done]. intros <-. congruence.
Qed.

Lemma release_self i l s : Inv s -> release i (c_locks s) !! l <> Some i.
Proof.
  intros HI. unfold release. case_bool_decide as E.
  - intros [Hne Hl]%lookup_delete_Some. destruct (inv_locks _ HI _ _ Hl) as [-> _]. done.
  - intros Hl. destruct (inv_locks _ HI _ _ Hl) as [-> _]. done.
Qed.

(** Only [i] moves: what the others know is still so. *)
Lemma others_keep i p s s' :
  c_phases s' = <[i := p]> (c_phases s) ->
  (forall j, exists_licence j (c_db s') <-> exists_licence j (c_db s)) ->
  (forall j, j <> i -> holds j s -> holds j s') ->
  (forall j t, j <> i -> (exists_licence j (c_db s) -> holds j s) -> has_room j t (c_db s) -> has_room j t (c_db s')) ->
  (forall j t, j <> i -> c_phases s !! j = Some (Inserted t) ->
    insertable j t (c_db s) -> insertable j t (c_db s')) ->
  (forall u j t, p = Inserted u -> j <> i -> c_phases s !! j = Some (Inserted t) -> clash i u j t = false) ->
  forall j q, j <> i -> c_phases s !! j = Some q -> phase_inv s j q -> phase_inv s' j q.
Proof.
  intros Hp He Hh Hr Hn Hc j q Hj Hq. destruct q; simpl; try rewrite He; try tauto.
  - intros H Hx. specialize (H Hx). auto.
  - intros [H1 H2]. split; [auto|by apply Hr].
  - intros (H1 & H2 & H3 & H4). split_and!; [by apply Hh|by apply Hr|by apply Hn|].
    intros k u Hk Hkj. rewrite Hp in Hk. apply lookup_insert_Some in Hk as [[<- Hu]|[_ Hk]]; eauto.
Qed.

Lemma inv_initial db procs : Inv (initial db procs).
Proof.
  split; simpl.
  - intros i p Hp. apply lookup_gset_to_gmap_Some in Hp as [_ <-]. done.
  - done.
Qed.

(** A transaction moves on without touching rows or locks. *)
Lemma inv_goto i p q s :
  Inv s -> c_phases s !! i = Some p -> (working p = true -> working q = true) ->
  phase_inv (goto i q s) i q ->
  (forall u j t, q = Inserted u -> j <> i -> c_phases s !! j = Some (Inserted t) -> clash i u j t = false) ->
  Inv (goto i q s).
Proof.
  intros HI Hi Hw Hq Hc. split; simpl.
  - intros j q' [[<- <-]|[Hj Hq']]%lookup_insert_Some; [done|].
    eapply (others_keep i q s); eauto. by eapply inv_phase.
  - intros l j Hl. destruct (inv_locks _ HI _ _ Hl) as (-> & p' & Hp' & Hwp). split; [done|]. simpl.
    destruct (decide (i = j)) as [<-|Hj].
    + exists q. rewrite lookup_insert_eq. naive_solver.
    + exists p'. by rewrite lookup_insert_ne.
Qed.

Lemma inv_lock i now s :
  Inv s -> c_locks s !! licence_of i = None ->
  Inv (mkConc (c_db s) (<[licence_of i := i]> (c_locks s)) (<[i := Locked now]> (c_phases s))).
Proof.
  intros HI Hf. split; simpl.
  - intros j q [[<- <-]|[Hj Hq]]%lookup_insert_Some; [intros _; unfold holds; simpl; by rewrite lookup_insert_eq|].
    eapply (others_keep i (Locked now) s); try done; [|by eapply inv_phase].
    intros k Hk. unfold holds. simpl. destruct (decide (licence_of i = licence_of k)) as [E|E]; [congruence|].
    by rewrite lookup_insert_ne.
  - intros l j [[<- <-]|[Hl Hj]]%lookup_insert_Some.
    + split; [done|]. exists (Locked now). by rewrite lookup_insert_eq.
    + destruct (inv_locks _ HI _ _ Hj) as (-> & p & Hp & Hw). split; [done|].
      destruct (decide (i = j)) as [<-|Hne]; [done|]. exists p. by rewrite lookup_insert_ne.
Qed.

(** A transaction ends, with rows [db'] committed. *)
Lemma inv_finish i r db' s :
  Inv s ->
  (forall j, exists_licence j db' <-> exists_licence j (c_db s)) ->
  (forall j t, j <> i -> (exists_licence j (c_db s) -> holds j s) -> has_room j t (c_db s) -> has_room j t db') ->
  (forall j t, j <> i -> c_phases s !! j = Some (Inserted t) -> insertable j t (c_db s) -> insertable j t db') ->
  Inv (finish i r db' s).
Proof.
  intros HI He Hr Hn. split; simpl.
  - intros j q [[<- <-]|[Hj Hq]]%lookup_insert_Some; [done|].
    eapply (others_keep i (Ended r) s); eauto; [|done|by eapply inv_phase].
    intros k Hk. unfold holds. simpl. by rewrite release_other.
  - intros l j Hl. destruct (decide (j = i)) as [->|Hj]; [by apply release_self in Hl|].
    apply release_other in Hl; [|done]. destruct (inv_locks _ HI _ _ Hl) as (-> & p & Hp & Hw).
    split; [done|]. exists p. by rewrite lookup_insert_ne.
Qed.

Lemma inv_rollback i r s : Inv s -> Inv (finish i r (c_db s) s).
Proof. intros HI. by apply inv_finish. Qed.

Lemma inv_commit i now r s :
  Inv s -> c_phases s !! i = Some (Inserted now) -> Inv (finish i r (committed i now (c_db s)) s).
Proof.
  intros HI Hi. pose proof (inv_phase _ HI _ _ Hi) as (Hh & Hr & Hn & Hc). apply inv_finish; [done| | |].
  - intros j. apply exists_committed.
  - intros j t Hj Hhj. apply room_committed; [|done]. intros E. apply insertable_licence in Hn.
    unfold holds, exists_licence in *. rewrite <- E in Hhj. specialize (Hhj Hn). congruence.
  - intros j t Hj Hpj. apply insertable_committed. pose proof (inv_phase _ HI _ _ Hpj) as (_ & _ & _ & Hcj). eauto.
Qed.

Lemma inv_delete P s :
  Inv s -> Inv (mkConc (t_set T (delete_rows P (t_get T (c_db s))) (c_db s)) (c_locks s) (c_phases s)).
Proof.
  intros HI. split; [|apply (inv_locks _ HI)]. simpl. intros i p Hp. pose proof (inv_phase _ HI _ _ Hp) as H.
  destruct p; simpl in *; unfold exists_licence in *; rewrite ?(own_licenses (T := T) (owner := owner)); try done.
  - destruct H. split; [done|by apply room_deleted].
  - destruct H as (? & ? & ? & ?). split_and!; [done|by apply room_deleted|by apply insertable_deleted|done].
Qed.

Lemma inv_proceed s s' : Inv s -> proceed s s' -> Inv s'.
Proof.
  intros HI Hs. destruct Hs as [i now Hi|i now Hi Hx Hf|i now Hi Hx|i now Hi Hn|i now Hi Hn|i now db' Hi Hu Hins
    |i now e Hi Hu Hins|i now Hi].
  - by eapply inv_goto.
  - by apply inv_lock.
  - eapply inv_goto; try done. simpl. unfold exists_licence. congruence.
  - eapply inv_goto; try done. simpl. split; [|done]. exact (inv_phase _ HI _ _ Hi).
  - by apply inv_rollback.
  - apply insert_insertable in Hins as [Hins _].
    destruct (inv_phase _ HI _ _ Hi) as [Hh Hr]. specialize (Hh (insertable_licence _ _ _ Hins)).
    eapply inv_goto; try done.
    + simpl. split_and!; try done. intros j u Hj Hne. simpl in Hj. rewrite lookup_insert_ne in Hj by done.
      by apply Hu.
    + intros u j t [= <-] Hj Hjt. rewrite clash_sym. by apply Hu.
  - by apply inv_rollback.
  - by apply inv_commit.
Qed.

Lemma inv_step s s' : Inv s -> step s s' -> Inv s'.
Proof.
  intros HI [Hs|Hs]; [by eapply inv_proceed|]. destruct Hs; [by apply inv_rollback|by apply inv_commit|by apply inv_delete].
Qed.

Lemma reachable_inv db procs s : rtc step (initial db procs) s -> Inv s.
Proof.
  intros Hs. assert (Inv (initial db procs)) as HI by apply inv_initial. revert HI.
  induction Hs; eauto using inv_step.
Qed.

(** ** Refinement *)

Lemma unanswered i p s : c_phases s !! i = Some p -> is_ended p = false -> omap answer (c_phases s) !! i = None.
Proof. intros Hi Hp. rewrite lookup_omap, Hi. by destruct p. Qed.

Lemma answers_goto i p q s :
  c_phases s !! i = Some p -> is_ended p = false -> is_ended q = false -> abstract (goto i q s) = abstract s.
Proof.
  intros Hi Hp Hq. unfold abstract, goto. simpl. f_equal. rewrite omap_insert.
  destruct q; try done; simpl; apply delete_id; eauto using unanswered.
Qed.

Lemma answers_finish i r db s :
  abstract (finish i r db s) = mkSpec db (<[i := r]> (omap answer (c_phases s))).
Proof. unfold abstract, finish. simpl. by rewrite omap_insert. Qed.

(** The end of a transaction is a run of it alone. *)
Lemma finish_runs i p r db s faults t :
  c_phases s !! i = Some p -> is_ended p = false ->
  run_at faults t (request i) (c_db s) = (r, db) -> spec_step (abstract s) (abstract (finish i r db s)).
Proof.
  intros Hi Hp Hr. rewrite answers_finish. by apply (sp_run (abstract s) i faults t); [eapply unanswered|].
Qed.

Lemma run_commits i now s :
  Inv s -> c_phases s !! i = Some (Inserted now) ->
  counts i now (c_db s) < rq_max (request i) /\
  insert_row T (rq_id (request i)) (row_of i now) (c_db s) = Ok (tt, committed i now (c_db s)).
Proof.
  intros HI Hi. destruct (inv_phase _ HI _ _ Hi) as (_ & Hr & Hn & _). split; [done|].
  by apply insert_insertable.
Qed.

Lemma simulate_proceed s s' :
  Inv s -> proceed s s' -> abstract s' = abstract s \/ spec_step (abstract s) (abstract s').
Proof.
  intros HI Hs. destruct Hs as [i now Hi|i now Hi Hx Hf|i now Hi Hx|i now Hi Hn|i now Hi Hn|i now db' Hi Hu Hins
    |i now e Hi Hu Hins|i now Hi].
  - left. by eapply answers_goto.
  - left. by eapply (answers_goto i _ (Locked now)).
  - left. by eapply answers_goto.
  - left. by eapply answers_goto.
  - right. apply (finish_runs i (Locked now) _ _ s [] now); try done. rewrite run_quiet.
    unfold counts in Hn. by rewrite (proj2 (Z.leb_le _ _) Hn).
  - left. by eapply answers_goto.
  - right. apply (finish_runs i (Counted now) _ _ s [] now); try done. rewrite run_quiet.
    destruct (inv_phase _ HI _ _ Hi) as [_ Hr]. unfold has_room, counts in Hr.
    rewrite (proj2 (Z.leb_gt _ _) Hr). unfold row_of in Hins. by rewrite Hins.
  - right. destruct (run_commits i now s HI Hi) as [Hr Hins]. unfold row_of, counts in *.
    apply (finish_runs i (Inserted now) _ _ s [] now); try done. rewrite run_quiet.
    by rewrite (proj2 (Z.leb_gt _ _) Hr), Hins.
Qed.

Lemma simulate_step s s' :
  Inv s -> step s s' -> abstract s' = abstract s \/ spec_step (abstract s) (abstract s').
Proof.
  intros HI [Hs|Hs]; [by apply simulate_proceed|]. right. destruct Hs as [i p Hi Hp|i now Hi|P].
  - by apply (finish_runs i p _ _ s [Lost false] 0).
  - destruct (run_commits i now s HI Hi) as [Hr Hins].
    apply (finish_runs i (Inserted now) _ _ s [NoFault; NoFault; NoFault; NoFault; Lost true] now); try done.
    by apply run_lost_answer.
  - apply (sp_delete (abstract s)).
Qed.

Lemma answers_initial db procs : abstract (initial db procs) = mkSpec db ∅.
Proof.
  unfold abstract, initial. simpl. f_equal. apply map_empty. intros i. rewrite lookup_omap.
  destruct (gset_to_gmap Begin procs !! i) as [p|] eqn:E; [|done].
  apply lookup_gset_to_gmap_Some in E as [_ <-]. done.
Qed.

(** C7. Refinement: whatever the interleaving of their statements, the losses of
    connections and the deletions by other requests, the committed rows and the
    answers of the transactions are those of running each transaction alone and
    without interruption, one after the other. *)
Theorem interleaving_refines_atomic db procs s :
  rtc step (initial db procs) s -> rtc spec_step (mkSpec db ∅) (abstract s).
Proof.
  intros Hs. rewrite <- (answers_initial db procs).
  assert (Inv (initial db procs)) as HI by apply inv_initial. revert HI.
  induction Hs as [|s s1 s2 H1 _ IH]; intros HI; [done|].
  specialize (IH (inv_step _ _ HI H1)). destruct (simulate_step _ _ HI H1) as [E|Hstep].
  - by rewrite <- E.
  - by eapply rtc_l.
Qed.

(** ** Every transaction ends *)

Definition remaining (p : phase) : nat :=
  match p with Begin => 5 | Started _ => 4 | Locked _ => 3 | Counted _ => 2 | Inserted _ => 1 | Ended _ => 0 end.
Definition work (m : gmap nat phase) : nat := map_fold (fun _ p n => remaining p + n)%nat 0%nat m.

Lemma work_insert i p m : m !! i = None -> work (<[i := p]> m) = (remaining p + work m)%nat.
Proof. intros Hi. unfold work. rewrite map_fold_insert_L; [done|intros; lia|done]. Qed.

Lemma work_goto i p q m :
  m !! i = Some p -> (remaining q < remaining p)%nat -> (work (<[i := q]> m) < work m)%nat.
Proof.
  intros Hi Hq. rewrite <- (insert_delete_id m i p) at 2 by done. rewrite <- (insert_delete_eq m).
  rewrite !work_insert by apply lookup_delete_eq. lia.
Qed.

Lemma proceed_decreases s s' : proceed s s' -> (work (c_phases s') < work (c_phases s))%nat.
Proof. intros Hs. destruct Hs; simpl; (eapply work_goto; [done|simpl; lia]). Qed.

(** Whoever another transaction waits for can go on. *)
Lemma inserted_proceeds i now s : c_phases s !! i = Some (Inserted now) -> exists s', proceed s s'.
Proof. intros Hi. eexists. by eapply p_commit. Qed.

Definition blocks (i : nat) (t : Time) (j : nat) (q : phase) : bool :=
  match q with Inserted u => bool_decide (j <> i) && clash j u i t | _ => false end.

Lemma unblocked_iff i t s : unblocked i t s <-> map_Forall (fun j q => blocks i t j q = false) (c_phases s).
Proof.
  split.
  - intros Hu j [|u|u|u|u|r] Hj; try done. simpl. case_bool_decide as E; [|done]. by apply (Hu j u).
  - intros Hf j u Hj Hne. specialize (Hf j (Inserted u) Hj). simpl in Hf. by rewrite bool_decide_true in Hf.
Qed.

Lemma working_proceeds i p s : c_phases s !! i = Some p -> working p = true -> exists s', proceed s s'.
Proof.
  intros Hi Hp. destruct p as [|now|now|now|now|r]; try done.
  - destruct (Z.lt_ge_cases (counts i now (c_db s)) (rq_max (request i))); eexists.
    + by eapply p_count.
    + by eapply p_refuse.
  - destruct (decide (map_Forall (fun j q => blocks i now j q = false) (c_phases s))) as [Hu|Hu].
    + apply unblocked_iff in Hu.
      destruct (insert_row T (rq_id (request i)) (row_of i now) (c_db s)) as [[[] db']|e] eqn:E; eexists.
      * by eapply p_insert.
      * by eapply p_violate.
    + apply map_not_Forall in Hu as (j & q & Hj & Hq); [|apply _]. destruct q; try done.
      by eapply inserted_proceeds.
  - by eapply inserted_proceeds.
Qed.

Lemma unended_proceeds i p s : Inv s -> c_phases s !! i = Some p -> is_ended p = false -> exists s', proceed s s'.
Proof.
  intros HI Hi Hp. destruct p as [|now|now|now|now|r]; try done; try (by eapply working_proceeds).
  - eexists. by eapply (p_begin _ _ 0).
  - destruct (present (db_licenses (c_db s) !! licence_of i)) eqn:Hx; [|eexists; by eapply p_lock_nothing].
    destruct (c_locks s !! licence_of i) as [j|] eqn:Hl; [|eexists; by eapply p_lock].
    destruct (inv_locks _ HI _ _ Hl) as (_ & q & Hj & Hq). by eapply working_proceeds.
Qed.

Definition all_ended (s : Conc) : Prop := map_Forall (fun _ p => is_ended p = true) (c_phases s).

(** Liveness: the lock protocol does not deadlock, and every transaction comes
    to an end: from any point of any interleaving, the transactions under way
    can go on, and when they do, they have all answered after a number of
    steps bounded by the statements they have left. *)
Theorem transactions_end db procs s :
  rtc step (initial db procs) s ->
  (forall s1, rtc proceed s s1 -> all_ended s1 \/ exists s2, proceed s1 s2) /\
  (forall n s1, nsteps proceed n s s1 -> (n <= work (c_phases s))%nat) /\
  exists s1, rtc proceed s s1 /\ all_ended s1.
Proof.
  intros Hs. apply reachable_inv in Hs as HI. clear Hs.
  assert (forall s1, Inv s1 -> all_ended s1 \/ exists s2, proceed s1 s2) as Hgo.
  { intros s1 HI1. destruct (decide (all_ended s1)) as [|Hn]; [by left|right].
    apply map_not_Forall in Hn as (i & p & Hi & Hp); [|apply _].
    eapply unended_proceeds; [done..|]. by apply not_true_is_false. }
  assert (forall s1, rtc proceed s s1 -> Inv s1) as Hinv.
  { intros s1 Hr. revert HI. induction Hr; eauto using inv_proceed. }
  split_and!; [by eauto| |].
  - intros n s1 Hn. clear -Hn. induction Hn as [|n s s1 s2 H1 _ IH]; [lia|]. apply proceed_decreases in H1. lia.
  - clear Hinv. induction (Nat.lt_wf_0_projected (fun s => work (c_phases s)) s) as [s _ IH].
    destruct (Hgo s HI) as [Hall|[s2 H2]]; [by exists s|].
    destruct (IH s2 (proceed_decreases _ _ H2) (inv_proceed _ _ HI H2)) as (s1 & Hr & Hall).
    exists s1. split; [by eapply rtc_l|done].
Qed.
End protocol.

Arguments mkRequest {R}.
Arguments rq_row {R}.
Arguments request_ok {R}.

(** ** The transactions of the store are of this form *)

Lemma stmt_tx_now {A} (f : DB -> result goerr (A * DB)) w :
  tx_now <$> w_tx (snd (stmt f w)) = tx_now <$> w_tx w.
Proof.
  unfold stmt. pose proof (next_fault_frame w) as (_ & Etx & _). destruct (next_fault w) as [flt w1]. simpl in Etx.
  rewrite <- Etx. unfold fail_tx, set_db. clear.
  destruct (w_tx w1) as [[s [] n]|] eqn:E, flt as [|[]]; try (destruct (f (w_db w1)) as [[a db']|e]); simpl;
    try destruct (refuses e); simpl; rewrite ?E; done.
Qed.

Lemma sql_now_run {E} w t : tx_now <$> w_tx w = Some t -> sql_now (E := E) w = (Ok t, w).
Proof. unfold sql_now. destruct (w_tx w); simpl; congruence. Qed.

Lemma with_tx_ext {A} (m1 m2 : M goerr A) w :
  (forall w1 t, tx_now <$> w_tx w1 = Some t -> m1 w1 = m2 w1) -> with_tx m1 w = with_tx m2 w.
Proof.
  intros E. unfold with_tx, mbind, M_bind, begin_tx. destruct (next_fault w) as [[|b] w1]; [|done].
  destruct (tick w1) as [t ds]. unfold defer_rollback. by rewrite (E _ t).
Qed.

Definition activation_request (act : Activation) (maxActivations : Z) : Request :=
  mkRequest (act_LicenseID act) (fun _ => of_license (act_LicenseID act)) maxActivations
    (ErrText "activation limit reached") (act_ID act) (fun now => act_with (act_ID act) now act).

Lemma activation_request_ok act max : request_ok act_LicenseID (activation_request act max).
Proof. split; simpl; [done|]. intros _ r. unfold of_license. by rewrite streq_true. Qed.

Lemma ActivateWithinLimit_locked `{UUIDs} act max w :
  ActivateWithinLimit act max w
  = (id ← fresh_id (act_ID act); locked_insert activations (activation_request (act_with id 0 act) max)) w.
Proof.
  unfold ActivateWithinLimit, mbind, M_bind. destruct (fresh_id (act_ID act) w) as [[id|e] w1]; [|done].
  apply with_tx_ext. intros w2 t Ht. unfold mbind, M_bind, sql_lock, sql_count. rewrite (sql_now_run w2 t) by done. simpl.
  pose proof (stmt_tx_now (fun db => Ok (tt, db)) w2) as E3. destruct (stmt _ w2) as [[[]|e] w3]; [|done]. simpl in E3.
  pose proof (stmt_tx_now (fun db => Ok (count (of_license (act_LicenseID act)) (db_activations db), db)) w3) as E4.
  destruct (stmt _ w3) as [[n|e] w4]; [|done]. simpl in E4. destruct (max <=? n); [done|].
  unfold insert_activation, mbind, M_bind. rewrite (sql_now_run w4 t) by congruence. done.
Qed.

Definition session_request (sess : FloatingSession) (maxSessions : Z) : Request :=
  mkRequest (fs_LicenseID sess) (active_at (fs_LicenseID sess)) maxSessions ErrFloatingLimitReached (fs_ID sess)
    (fun now => fs_new (fs_ID sess) now sess).

Lemma session_request_ok sess max : request_ok fs_LicenseID (session_request sess max).
Proof. split; simpl; [done|]. intros now r. unfold active_at. rewrite andb_true_iff, streq_true. tauto. Qed.

(** [new_session] is the same transaction; its answer is the session. *)
Lemma new_session_locked sess max w :
  ((fun _ => tt) <$> with_tx (now ← sql_now; new_session sess max now)) w
  = locked_insert floating_sessions (session_request sess max) w.
Proof.
  unfold fmap, M_fmap, locked_insert, with_tx, mbind, M_bind. destruct (begin_tx w) as [[[]|e] w1]; [|done].
  unfold defer_rollback, new_session, mbind, M_bind. simpl.
  destruct (sql_now w1) as [[t|e] w2]; [|done]. destruct (sql_lock w2) as [[[]|e] w3]; [|done].
  destruct (sql_count _ _ w3) as [[n|e] w4]; [|done]. destruct (max <=? n); [done|].
  destruct (sql_insert _ _ _ w4) as [[[]|e] w5]; [|done]. by destruct (commit_tx w5) as [[[]|e] w6].
Qed.

(** ** The limit under interleaving *)

Section activations.
Context (acts : nat -> Activation) (maxs : nat -> Z).
Context (stored : forall i, act_ID (acts i) <> "").

Definition activation_requests (i : nat) : Request := activation_request (acts i) (maxs i).

Lemma locked_insert_keeps l bound i :
  (act_LicenseID (acts i) = l -> maxs i <= bound) ->
  keeps (activations_within l bound) (locked_insert activations (activation_requests i)).
Proof.
  intros Hb w Hw. pose proof (ActivateWithinLimit_locked (H := fun _ => "") (acts i) (maxs i) w) as E.
  assert (fresh_id (E := goerr) (H := fun _ => "") (act_ID (acts i)) w = (Ok (act_ID (acts i)), w)) as Ef.
  { unfold fresh_id. by rewrite bool_decide_false. }
  unfold mbind, M_bind in E. rewrite Ef in E. unfold activation_requests.
  change (locked_insert activations (activation_request (acts i) (maxs i)) w)
    with (locked_insert activations (activation_request (act_with (act_ID (acts i)) 0 (acts i)) (maxs i)) w).
  rewrite <- E. by apply ActivateWithinLimit_keeps.
Qed.
End activations.

(** Bounds: whatever the interleaving of the activations' statements, with
    losses of connections and concurrent deletions, the committed activations
    of a licence never exceed a bound that no activation of the licence asks
    to exceed. *)
Theorem interleaved_activations_within acts maxs l bound db procs s :
  (forall i, act_ID (acts i) <> "") ->
  (forall i, act_LicenseID (acts i) = l -> maxs i <= bound) ->
  activations_within l bound db ->
  rtc (step activations (activation_requests acts maxs)) (initial db procs) s ->
  activations_within l bound (c_db s).
Proof.
  intros Hid Hmax Hdb Hs.
  apply (interleaving_refines_atomic activations act_LicenseID) in Hs; [|intros i; apply activation_request_ok].
  assert (forall a a', spec_step activations (activation_requests acts maxs) a a' ->
    activations_within l bound (s_db a) -> activations_within l bound (s_db a')) as Hkeep.
  { intros a a' [i faults t r db' _ Hrun|P] Ha; simpl.
    - unfold run_at in Hrun. destruct (locked_insert _ _ _) as [r' w'] eqn:E. injection Hrun as _ <-.
      pose proof (locked_insert_keeps acts maxs Hid l bound i (Hmax i)) as Hk.
      match type of E with locked_insert _ _ ?w = _ => specialize (Hk w) end.
      unfold activation_requests in *. rewrite E in Hk. by apply Hk, safe_closed.
    - unfold activations_within. simpl.
      pose proof (count_delete_rows (of_license l) P (db_activations (s_db a))) as Hd.
      unfold activations_within in Ha. lia. }
  change (c_db s) with (s_db (abstract s)). change (activations_within l bound (s_db (mkSpec db ∅))) in Hdb.
  revert Hdb. induction Hs; eauto.
Qed.

(** ** Why the lock: counting and inserting without it

    [OTPSend] limits the codes sent to an address by counting, and inserts the
    new code in a second statement. *)

Example otp_codes_overshoot :
  let code i := mkOTP i "ann@example.com" "hash" 0 (2000 * Second) false 0 in
  let w := Demo.world_of (t_set otp_codes {["a" := otp_new "a" (999 * Second) (code "a");
                                           "b" := otp_new "b" (999 * Second) (code "b")]} Demo.db) in
  let ids : UUIDs := fun _ => "" in
  fst ((first ← CountRecentOTPCodes "ann@example.com";
        second ← CountRecentOTPCodes "ann@example.com";
        CreateOTPCode (code "c") ;;
        CreateOTPCode (code "d") ;;
        total ← CountRecentOTPCodes "ann@example.com";
        mret (first, second, total)) w) = Ok (2, 2, 4).
Proof. vm_compute. reflexivity. Qed.

(** ** Two activations for the last place *)

Module Race.
Definition acts (i : nat) : Activation :=
  if decide (i = 0%nat) then Demo.activation "act-2" "lic-1" "phone" else Demo.activation "act-3" "lic-1" "tablet".
Definition requests : nat -> Request := activation_requests acts (fun _ => 2).

Ltac by_compute := vm_compute; reflexivity.
Ltac go c := eapply rtc_l; [left; c; by_compute|].

Lemma requests_ok i : request_ok act_LicenseID (requests i).
Proof. apply activation_request_ok. Qed.

(** Transaction 1 begins first; 0 takes the lock, 1 waits for it, and finds the
    licence full. *)
Lemma race : exists s, rtc (step activations requests) (initial Demo.db {[0%nat; 1%nat]}) s /\
  c_phases s !! 0%nat = Some (Ended (Ok tt)) /\
  c_phases s !! 1%nat = Some (Ended (Err (ErrText "activation limit reached"))).
Proof.
  eexists. split.
  - go ltac:(eapply (p_begin _ _ _ 1%nat 7)).
    go ltac:(eapply (p_begin _ _ _ 0%nat 8)).
    go ltac:(eapply (p_lock _ _ _ 0%nat 8)).
    go ltac:(eapply (p_count _ _ _ 0%nat 8)).
    eapply rtc_l; [left; eapply (p_insert _ _ _ 0%nat 8); [by_compute| |by_compute]|].
    { apply unblocked_iff, (bool_decide_unpack _). vm_compute. exact I. }
    go ltac:(eapply (p_commit _ _ _ 0%nat 8)).
    go ltac:(eapply (p_lock _ _ _ 1%nat 7)).
    eapply rtc_l; [left; eapply (p_refuse _ _ _ 1%nat 7); [by_compute|]|].
    { apply Z.leb_le. by_compute. }
    apply rtc_refl.
  - split; by_compute.
Qed.
End Race.

Lemma interleaving_refines_atomic_witness :
  exists s, rtc (step activations Race.requests) (initial Demo.db {[0%nat; 1%nat]}) s /\
    c_phases s !! 1%nat = Some (Ended (Err (ErrText "activation limit reached"))) /\
    rtc (spec_step activations Race.requests) (mkSpec Demo.db ∅) (abstract s).
Proof.
  destruct Race.race as (s & Hs & _ & H1). exists s. split; [exact Hs|]. split; [exact H1|].
  exact (interleaving_refines_atomic activations act_LicenseID Race.requests Race.requests_ok _ _ _ Hs).
Defined.

Lemma transactions_end_witness :
  exists s, rtc (step activations Race.requests) (initial Demo.db {[0%nat; 1%nat]}) s /\
    exists s1, rtc (proceed activations Race.requests) s s1 /\ all_ended s1.
Proof.
  destruct Race.race as (s & Hs & _). exists s. split; [exact Hs|].
  exact (proj2 (proj2 (transactions_end activations act_LicenseID Race.requests Race.requests_ok _ _ _ Hs))).
Defined.

Lemma interleaved_activations_within_witness :
  exists s, c_phases s !! 0%nat = Some (Ended (Ok tt)) /\ activations_within "lic-1" 2 (c_db s).
Proof.
  destruct Race.race as (s & Hs & H0 & _). exists s. split; [exact H0|].
  refine (interleaved_activations_within Race.acts (fun _ => 2) "lic-1" 2 Demo.db _ s _ _ _ Hs).
  - intros i. unfold Race.acts. destruct (decide _); vm_compute; discriminate.
  - intros i _. lia.
  - apply Z.leb_le. vm_compute. reflexivity.
Defined.
