(* ===== verification/Metered.v ===== *)
(** * Metered billing ([store/metered.go], [service/metered_sync.go])

    Usage of metered features is queued as rows; a periodic pass pushes the
    unsynced ones to Stripe, oldest first.  A push that fails is counted, and
    the row is given up after eight failures.  What Stripe answers is an
    argument: it may depend on everything that happened before. *)

From S2P Require Import Prelude GoStrings Errors Model World Tables Logic Progress Usability Store Usage Demo.
From Stdlib Require Import Ascii String.

#[local] Open Scope string_scope.
#[local] Open Scope Z_scope.

(** ** Store *)

Definition mb_set_synced (now : Time) (externalID : string) (m : MeteredBilling) : MeteredBilling :=
  mkMetered (mb_ID m) (mb_LicenseID m) (mb_Feature m) (mb_Quantity m) (mb_PeriodKey m) (mb_Identifier m)
    true (Some now) externalID (mb_Attempts m) "" (mb_CreatedAt m).
Definition mb_fail (reason : string) (m : MeteredBilling) : MeteredBilling :=
  mkMetered (mb_ID m) (mb_LicenseID m) (mb_Feature m) (mb_Quantity m) (mb_PeriodKey m) (mb_Identifier m)
    (mb_Synced m) (mb_SyncedAt m) (mb_ExternalID m) (mb_Attempts m + 1) reason (mb_CreatedAt m).
Definition mb_attempt (m : MeteredBilling) : MeteredBilling := mb_fail (mb_LastError m) m.

Definition is_row (id : string) (m : MeteredBilling) : bool := streq (mb_ID m) id.
Definition unsynced (m : MeteredBilling) : bool := negb (mb_Synced m).

Definition ListUnsyncedMetered (limit : Z) : M goerr (list MeteredBilling) :=
  sql_select_ordered metered_billing unsynced mb_CreatedAt (Z.to_nat limit).

Definition MarkMeteredSynced (id externalID : string) : M goerr unit :=
  now ← time_Now;
  sql_update metered_billing (is_row id) (mb_set_synced now externalID) ;; mret tt.

Definition maxLastErr : Z := 512.

(** [reason[:512]] counts bytes. *)
Definition RecordMeteredSyncFailure (id reason : string) : M goerr unit :=
  let reason := if maxLastErr <? len reason then stake (Z.to_nat maxLastErr) reason else reason in
  sql_update metered_billing (is_row id) (mb_fail reason) ;; mret tt.

Definition MarkMeteredAttempted (id : string) : M goerr unit :=
  sql_update metered_billing (is_row id) mb_attempt ;; mret tt.

(** [ORDER BY created_at DESC]. *)
Definition ListMeteredBilling (licenseID : string) : M goerr (list MeteredBilling) := stmt (fun db =>
  Ok (sort_by (fun m => - mb_CreatedAt m)
    (map_to_list (rows (fun m => streq (mb_LicenseID m) licenseID) (db_metered_billing db))).*2, db)).

(** ** The pass *)

Record stripeMeterEvent := mkMeterEvent {
  me_EventName : string; me_CustomerID : string; me_Quantity : Z; me_Identifier : string; me_Timestamp : Time }.

Definition defaultMeteredMaxAttempts : Z := 8.

(** The parameters of the request, as strings. *)
Definition meter_params (e : stripeMeterEvent) : list string :=
  [me_EventName e; me_Identifier e; pretty (Unix (me_Timestamp e)); me_CustomerID e; pretty (me_Quantity e)].

(** [msg[:strings.IndexByte(msg, '\n')]]. *)
Fixpoint first_line (s : string) : string :=
  match s with
  | EmptyString => EmptyString
  | String c s' => if Ascii.eqb c (chr 10) then EmptyString else String c (first_line s')
  end.
Definition classifyStripeError (err : goerr) : goerr := ErrText ("stripe: " +:+ first_line (goerr_Error err)).

Section sync.
Context (dispatch : list Event -> stripeMeterEvent -> result goerr string) (maxAttempts : Z).

(** The call of Stripe: the identifier it answers, or an error. *)
Definition call_dispatch (e : stripeMeterEvent) : M goerr string := fun w =>
  (dispatch (w_events w) e, set_events (app (w_events w) [EvStripe "meter_event" (meter_params e)]) w).

(** The first entitlement of the feature with a meter name. *)
Definition eventName (lic : License) (feature : string) : string :=
  match lic_Plan lic with
  | None => ""
  | Some plan =>
      match head (filter (fun e => streq (ent_Feature e) feature && negb (streq (ent_StripeMeterEventName e) ""))
                    (plan_Entitlements plan)) with
      | Some e => ent_StripeMeterEventName e
      | None => ""
      end
  end.

Definition syncOne (row : MeteredBilling) : M goerr bool :=
  if streq (mb_Identifier row) "" then
    map_err (ErrWrap "legacy skip mark") (MarkMeteredSynced (mb_ID row) "legacy_no_identifier") ;; mret false
  else
    lic ← map_err (ErrWrap "license lookup") (FindLicenseByID (mb_LicenseID row));
    if streq (lic_StripeCustomerID lic) "" then MarkMeteredSynced (mb_ID row) "no_stripe_customer" ;; mret false
    else
      let name := eventName lic (mb_Feature row) in
      if streq name "" then MarkMeteredSynced (mb_ID row) "no_event_name" ;; mret false
      else
        externalID ← map_err classifyStripeError (call_dispatch
          (mkMeterEvent name (lic_StripeCustomerID lic) (mb_Quantity row) (mb_Identifier row) (mb_CreatedAt row)));
        MarkMeteredSynced (mb_ID row) (if streq externalID "" then mb_Identifier row else externalID) ;;
        mret true.

(** One iteration: whether the row was pushed. *)
Definition sync_row {E} (row : MeteredBilling) : M E bool :=
  if maxAttempts <=? mb_Attempts row then mret false
  else
    r ← attempt (syncOne row);
    match r with
    | Err err => emit (EvWarn "metered: push failed") ;; ignore (RecordMeteredSyncFailure (mb_ID row) (goerr_Error err)) ;; mret false
    | Ok sent => mret sent
    end.

Fixpoint sync_rows {E} (rows : list MeteredBilling) (pushed : Z) : M E Z :=
  match rows with
  | [] => mret pushed
  | row :: rows => sent ← sync_row row; sync_rows rows (if (sent : bool) then pushed + 1 else pushed)
  end.

Definition batch (limit : Z) : Z := if limit <=? 0 then 100 else limit.

Definition RunOnce {E} (limit : Z) : M E Z :=
  r ← attempt (ListUnsyncedMetered (batch limit));
  match r with
  | Err _ => emit (EvWarn "metered: list unsynced failed") ;; mret 0
  | Ok rows => sync_rows rows 0
  end.

(** [n] passes of the loop. *)
Fixpoint passes {E} (n : nat) (limit : Z) : M E unit :=
  match n with O => mret tt | S n => RunOnce limit ;; passes n limit end.
End sync.

(** ** Every row is pushed or given up *)

Section keeps.
Context (dispatch : list Event -> stripeMeterEvent -> result goerr string) (maxAttempts : Z).

Lemma still_call_dispatch e : still (call_dispatch dispatch e).
Proof. by intros w. Qed.

Lemma keeps_sync_row {E} I row :
  (forall id now ext, keeps I (sql_update metered_billing (is_row id) (mb_set_synced now ext))) ->
  (forall id reason, keeps I (sql_update metered_billing (is_row id) (mb_fail reason))) ->
  keeps (E := E) I (sync_row dispatch maxAttempts row).
Proof.
  intros Hs Hf. unfold sync_row, syncOne, MarkMeteredSynced, RecordMeteredSyncFailure, FindLicenseByID, select_license.
  repeat first [apply Hs|apply Hf|apply keeps_still, still_call_dispatch|keeps_step].
  apply keeps_read. intros db l db'. destruct (first_row _); by intros [= _ <-].
Qed.

Lemma tame_sync_row {E} row : tame (E := E) (sync_row dispatch maxAttempts row).
Proof.
  unfold sync_row, syncOne, MarkMeteredSynced, RecordMeteredSyncFailure, FindLicenseByID, select_license.
  repeat first [apply tame_still, still_call_dispatch|tame_step_go].
Qed.

(** The loop leaves the world its iterations leave. *)
Lemma sync_rows_world rows pushed w :
  snd (sync_rows (E := Empty_set) dispatch maxAttempts rows pushed w)
  = snd (for_each (E := Empty_set) rows (fun row => sync_row dispatch maxAttempts row ;; mret tt) w).
Proof.
  revert pushed w. induction rows as [|row rows IH]; intros pushed w; [done|]. simpl. unfold mbind, M_bind in *.
  destruct (sync_row dispatch maxAttempts row w) as [[sent|[]] w1]. apply IH.
Qed.
End keeps.

(** A row that is pushed, or given up, after at most [n] more passes. *)
Definition settled (n : Z) (m : MeteredBilling) : Prop :=
  mb_Synced m = true \/ defaultMeteredMaxAttempts <= mb_Attempts m + n.

Definition metered_keyed (db : DB) : Prop := forall k m, db_metered_billing db !! k = Some m -> mb_ID m = k.
(** At most a batch of rows is waiting. *)
Definition queue_within (limit : Z) (db : DB) : Prop := count unsynced (db_metered_billing db) <= batch limit.
Definition row_is (k : string) (P : MeteredBilling -> Prop) (db : DB) : Prop :=
  exists m, db_metered_billing db !! k = Some m /\ P m.

Section settle.
Context (dispatch : list Event -> stripeMeterEvent -> result goerr string) (limit : Z) (k : string).

(** What the two updates of a row keep. *)
Record row_stable (I : DB -> Prop) : Prop := mkRowStable {
  rs_synced id now ext : keeps I (sql_update metered_billing (is_row id) (mb_set_synced now ext));
  rs_fail id reason : keeps I (sql_update metered_billing (is_row id) (mb_fail reason)) }.

Definition set_rows (P : MeteredBilling -> bool) (f : MeteredBilling -> MeteredBilling) (db : DB) : DB :=
  t_set metered_billing (update_rows P f (db_metered_billing db)) db.

Lemma set_rows_rows P f db : db_metered_billing (set_rows P f db) = update_rows P f (db_metered_billing db).
Proof. done. Qed.

Lemma update_keeps (I : DB -> Prop) P f : (forall db, I db -> I (set_rows P f db)) -> keeps I (sql_update metered_billing P f).
Proof. intros HI. apply keeps_stmt. intros db a db' Hdb [= _ <-]. by apply HI. Qed.

Lemma stable_row (Q : MeteredBilling -> Prop) :
  (forall now ext m, Q m -> Q (mb_set_synced now ext m)) -> (forall reason m, Q m -> Q (mb_fail reason m)) ->
  row_stable (row_is k Q).
Proof.
  intros H1 H2. split; intros; apply update_keeps; intros db (m & Hm & HQ); unfold row_is;
    rewrite set_rows_rows, lookup_update_rows, Hm; (eexists; split; [done|]); destruct (is_row id m); auto.
Qed.

Lemma stable_keyed : row_stable metered_keyed.
Proof.
  split; intros; apply update_keeps; intros db Hk k' m'; rewrite set_rows_rows, lookup_update_rows;
    intros (m & Hm & ->)%fmap_Some; rewrite <- (Hk _ _ Hm); by destruct (is_row id m).
Qed.

Lemma stable_queue : row_stable (queue_within limit).
Proof.
  split; intros; apply update_keeps; intros db Hk; unfold queue_within in *; rewrite set_rows_rows, count_update_rows;
    (etrans; [|exact Hk]); apply count_mono; intros k' m' _; by destruct (is_row id m').
Qed.

Lemma stable_and I J : row_stable I -> row_stable J -> row_stable (fun db => I db /\ J db).
Proof. intros [] []. split; intros; by apply keeps_and. Qed.

Lemma settled_synced n now ext m : settled n m -> settled n (mb_set_synced now ext m).
Proof. intros _. by left. Qed.
Lemma settled_fail n reason m : settled n m -> settled n (mb_fail reason m).
Proof. unfold settled. simpl. intros [?|?]; [by left|right; lia]. Qed.

Definition ready (n : Z) : DB -> Prop := fun db => metered_keyed db /\ queue_within limit db /\ row_is k (settled n) db.

Lemma stable_ready n : row_stable (ready n).
Proof.
  apply stable_and; [apply stable_keyed|]. apply stable_and; [apply stable_queue|].
  apply stable_row; auto using settled_synced, settled_fail.
Qed.

Lemma update_quiet P f w :
  quiet w -> exists n, sql_update metered_billing P f w = (Ok n, set_db (set_rows P f (w_db w)) w).
Proof. intros Hq. unfold sql_update. rewrite stmt_quiet by done. by eexists. Qed.

Lemma MarkMeteredSynced_quiet id ext w :
  quiet w -> exists w' now, MarkMeteredSynced id ext w = (Ok tt, w') /\
    w_db w' = set_rows (is_row id) (mb_set_synced now ext) (w_db w).
Proof.
  intros Hq. unfold MarkMeteredSynced, mbind, M_bind.
  destruct (time_Now_quiet (E := goerr) w Hq) as (now & w1 & -> & Hq1 & Edb & _).
  destruct (update_quiet (is_row id) (mb_set_synced now ext) w1 Hq1) as [n ->].
  eexists _, now. split; [done|]. simpl. by rewrite Edb.
Qed.

Lemma RecordMeteredSyncFailure_quiet id reason w :
  quiet w -> exists w' reason', RecordMeteredSyncFailure id reason w = (Ok tt, w') /\
    w_db w' = set_rows (is_row id) (mb_fail reason') (w_db w).
Proof.
  intros Hq. unfold RecordMeteredSyncFailure, mbind, M_bind.
  destruct (update_quiet (is_row id) (mb_fail (if maxLastErr <? len reason then stake (Z.to_nat maxLastErr) reason else reason))
    w Hq) as [n ->]. by eexists _, _.
Qed.

(** In a quiet world the row is marked, or nothing is written. *)
Definition marked_or_not (row : MeteredBilling) (db : DB) (r : result goerr bool * World) : Prop :=
  match r with
  | (Ok _, w') => exists now ext, w_db w' = set_rows (is_row (mb_ID row)) (mb_set_synced now ext) db
  | (Err _, w') => quiet w' /\ w_db w' = db
  end.

Lemma mark_marks row ext sent w db :
  quiet w -> w_db w = db -> marked_or_not row db ((MarkMeteredSynced (mb_ID row) ext ;; mret sent : M goerr bool) w).
Proof.
  intros Hq <-. destruct (MarkMeteredSynced_quiet (mb_ID row) ext w Hq) as (w' & now & E1 & E2).
  unfold mbind, M_bind. rewrite E1. by exists now, ext.
Qed.

Lemma syncOne_quiet row w : quiet w -> marked_or_not row (w_db w) (syncOne dispatch row w).
Proof.
  intros Hq. unfold syncOne. destruct (streq (mb_Identifier row) "").
  { pose proof (mark_marks row "legacy_no_identifier" false w _ Hq eq_refl) as Hm. revert Hm.
    unfold map_err, mbind, M_bind. by destruct (MarkMeteredSynced _ _ w) as [[[]|e] w2]. }
  unfold map_err, FindLicenseByID, select_license. unfold mbind at 1, M_bind at 1. rewrite stmt_quiet by done.
  destruct (first_row _) as [l|]; [|done]. rewrite set_db_same. cbv beta iota.
  destruct (streq (lic_StripeCustomerID _) ""); [by apply mark_marks|]. cbv zeta.
  destruct (streq (eventName _ _) ""); [by apply mark_marks|].
  unfold mbind at 1, M_bind at 1, call_dispatch. destruct (dispatch _ _) as [ext|e]; cbv beta iota; [by apply mark_marks|done].
Qed.

(** The row itself comes to its turn. *)
Lemma sync_row_settles {E} row n w :
  quiet w -> row_is k (fun m => mb_Attempts row <= mb_Attempts m) (w_db w) -> mb_ID row = k -> metered_keyed (w_db w) ->
  settled (n + 1) row -> 0 <= n ->
  row_is k (settled n) (w_db (snd (sync_row (E := E) dispatch defaultMeteredMaxAttempts row w))) \/ mb_Synced row = true.
Proof.
  intros Hq (m & Hm & Hle) Hid Hk [Hs|Hset] Hn; [by right|left]. unfold sync_row.
  destruct (_ <=? _) eqn:Emax; bool_facts; [exists m; split; [done|right; lia]|].
  assert (is_row (mb_ID row) m = true) as Hrow by (unfold is_row; rewrite streq_true, Hid; by apply Hk).
  assert (forall f, db_metered_billing (set_rows (is_row (mb_ID row)) f (w_db w)) !! k = Some (f m)) as Hf.
  { intros f. by rewrite set_rows_rows, lookup_update_rows, Hm; simpl; rewrite Hrow. }
  unfold mbind, M_bind, attempt.
  pose proof (syncOne_quiet row w Hq) as Hm'. destruct (syncOne dispatch row w) as [[sent|e] w1]; simpl in *.
  - destruct Hm' as (now & ext & E2). rewrite E2. eexists. split; [apply Hf|by left].
  - destruct Hm' as [Hq1 E2]. unfold ignore. simpl. match goal with |- context [RecordMeteredSyncFailure ?i ?r ?w2] =>
      destruct (RecordMeteredSyncFailure_quiet i r w2) as (w' & reason' & -> & E3); [done|] end.
    simpl in *. rewrite E3, E2. eexists. split; [apply Hf|right; simpl; lia].
Qed.

(** Every row waiting is in the batch. *)
Lemma waiting_listed db m :
  queue_within limit db -> db_metered_billing db !! k = Some m -> mb_Synced m = false ->
  m ∈ take (Z.to_nat (batch limit)) (sort_by mb_CreatedAt (map_to_list (rows unsynced (db_metered_billing db))).*2).
Proof.
  intros Hq Hm Hs. rewrite take_ge.
  - rewrite sort_by_perm. apply elem_of_rows. exists k. unfold unsynced. by rewrite Hs.
  - rewrite sort_by_perm, length_fmap, length_map_to_list. unfold queue_within, count in Hq. lia.
Qed.

Definition sync_body (row : MeteredBilling) : M Empty_set unit :=
  sync_row dispatch defaultMeteredMaxAttempts row ;; mret tt.

Lemma sync_body_step I row w :
  row_stable I -> quiet w -> I (w_db w) -> quiet (snd (sync_body row w)) /\ I (w_db (snd (sync_body row w))).
Proof.
  intros [Hs Hf] Hq HI. split.
  - apply tame_quiet; [|done]. apply tame_bind; [apply tame_sync_row|intros; apply tame_ret].
  - apply keeps_closed; [|apply Hq|done]. apply keeps_bind; [by apply keeps_sync_row|intros; apply keeps_ret].
Qed.

Lemma sync_body_run row w : snd (sync_body row w) = snd (sync_row (E := Empty_set) dispatch defaultMeteredMaxAttempts row w).
Proof. unfold sync_body, mbind, M_bind. by destruct (sync_row _ _ row w) as [[sent|[]] w1]. Qed.

Definition waits (m : MeteredBilling) : DB -> Prop := fun db =>
  metered_keyed db /\ queue_within limit db /\ row_is k (fun m1 => mb_Attempts m <= mb_Attempts m1) db.

Lemma stable_waits m : row_stable (waits m).
Proof.
  apply stable_and; [apply stable_keyed|]. apply stable_and; [apply stable_queue|].
  apply stable_row; simpl; intros; lia.
Qed.

(** One pass takes the row one step nearer. *)
Lemma RunOnce_ready n w :
  quiet w -> 0 <= n -> ready (n + 1) (w_db w) ->
  let w' := snd (RunOnce (E := Empty_set) dispatch defaultMeteredMaxAttempts limit w) in quiet w' /\ ready n (w_db w').
Proof.
  intros Hq Hn (Hk & Hw & (m & Hm & Hset)). unfold RunOnce, ListUnsyncedMetered, sql_select_ordered, mbind, M_bind, attempt.
  rewrite stmt_quiet, set_db_same by done. cbv beta iota zeta. rewrite sync_rows_world. fold sync_body.
  destruct (mb_Synced m) eqn:Hsy.
  { apply (for_each_inv (fun w1 => quiet w1 /\ ready n (w_db w1))).
    - intros x w1 _ [Hq1 HI]. by apply sync_body_step; [apply stable_ready| |].
    - split; [done|]. split_and!; [done..|]. exists m. split; [done|by left]. }
  apply (for_each_reach (fun w1 => quiet w1 /\ waits m (w_db w1)) (fun w1 => quiet w1 /\ ready n (w_db w1)) _ _ m).
  - intros x w1 [Hq1 HI]. by apply sync_body_step; [apply stable_waits| |].
  - intros x w1 _ [Hq1 HI]. by apply sync_body_step; [apply stable_ready| |].
  - intros w1 [Hq1 HI]. destruct (sync_body_step (waits m) m w1 (stable_waits m) Hq1 HI) as [Hq2 (H1 & H2 & _)].
    split; [done|]. split_and!; [done..|]. rewrite sync_body_run. destruct HI as (H3 & _ & H4).
    by destruct (sync_row_settles (E := Empty_set) m n w1 Hq1 H4 (Hk _ _ Hm) H3 Hset Hn) as [|Hs]; [|congruence].
  - by apply waiting_listed.
  - split; [done|]. split_and!; [done..|]. exists m. split; [done|lia].
Qed.
End settle.

(** Liveness: when no statement fails and the rows waiting fit in a batch,
    every queued row is pushed, or given up after eight failures, within as
    many passes as it has attempts left — whatever Stripe answers to each
    call. *)
Theorem metered_rows_settle dispatch limit n w k m :
  quiet w -> metered_keyed (w_db w) -> queue_within limit (w_db w) ->
  db_metered_billing (w_db w) !! k = Some m -> defaultMeteredMaxAttempts - mb_Attempts m <= Z.of_nat n ->
  exists m', db_metered_billing (w_db (snd (passes (E := Empty_set) dispatch defaultMeteredMaxAttempts n limit w))) !! k = Some m' /\
    (mb_Synced m' = true \/ defaultMeteredMaxAttempts <= mb_Attempts m').
Proof.
  intros Hq Hk Hw Hm Hn.
  assert (ready limit k (Z.of_nat n) (w_db w)) as Hr.
  { split_and!; [done..|]. exists m. split; [done|]. right. lia. }
  clear Hk Hw Hm Hn. revert w Hq Hr. induction n as [|n IH]; intros w Hq Hr.
  - destruct Hr as (_ & _ & m' & Hm' & [Hs|Ha]); exists m'; (split; [done|]); [by left|right; lia].
  - simpl. unfold mbind, M_bind. replace (Z.of_nat (S n)) with (Z.of_nat n + 1) in Hr by lia.
    pose proof (RunOnce_ready dispatch limit k (Z.of_nat n) w Hq ltac:(lia) Hr) as [Hq1 Hr1].
    destruct (RunOnce dispatch _ limit w) as [[pushed|[]] w1]. by apply IH.
Qed.

(** Error: rows that were given up keep their place in the queue.  When the
    oldest rows waiting fill a batch and are all given up, a pass pushes
    nothing, whatever else is waiting. *)
Theorem given_up_rows_block dispatch limit w :
  quiet w ->
  Forall (fun m => defaultMeteredMaxAttempts <= mb_Attempts m)
    (take (Z.to_nat (batch limit)) (sort_by mb_CreatedAt (map_to_list (rows unsynced (db_metered_billing (w_db w)))).*2)) ->
  RunOnce (E := Empty_set) dispatch defaultMeteredMaxAttempts limit w = (Ok 0, w).
Proof.
  intros Hq Hall. unfold RunOnce, ListUnsyncedMetered, sql_select_ordered, mbind, M_bind, attempt.
  rewrite stmt_quiet, set_db_same by done. cbv beta iota zeta.
  change (t_get metered_billing (w_db w)) with (db_metered_billing (w_db w)).
  induction Hall as [|m ms Hm _ IH]; [done|]. simpl. unfold sync_row at 1. rewrite (proj2 (Z.leb_le _ _) Hm). exact IH.
Qed.

(** ** Examples *)

#[local] Existing Instance Demo.uuids.

Module Queue.
(** Stripe refuses one customer for good and accepts everything else. *)
Definition stripe (_ : list Event) (e : stripeMeterEvent) : result goerr string :=
  if streq (me_CustomerID e) "cus_bad" then Err (ErrText "no such customer") else Ok (me_Identifier e).
Definition meter (id : string) (attempts created : Z) : MeteredBilling :=
  mkMetered id "lic-1" "export" 3 "2026-01" id false None "" attempts "" created.
Definition db (attempts : Z) : DB :=
  t_set metered_billing {["m1" := meter "m1" attempts 1; "m2" := meter "m2" 0 2]} Demo.db.
Definition world (attempts : Z) : World := Demo.world_of (db attempts).
End Queue.

Lemma metered_rows_settle_witness :
  exists m', db_metered_billing (w_db (snd (passes (E := Empty_set) Queue.stripe defaultMeteredMaxAttempts 3 100 (Queue.world 5)))) !! "m1"
    = Some m' /\ (mb_Synced m' = true \/ defaultMeteredMaxAttempts <= mb_Attempts m').
Proof.
  apply (metered_rows_settle Queue.stripe 100 3 (Queue.world 5) "m1" (Queue.meter "m1" 5 1)).
  - split; reflexivity.
  - intros k m Hm. revert k m Hm. change (db_metered_billing _) with (db_metered_billing (Queue.db 5)).
    apply (map_Forall_to_list (fun k x => mb_ID x = k)). vm_compute. repeat constructor.
  - apply Z.leb_le. vm_compute. reflexivity.
  - vm_compute. reflexivity.
  - vm_compute. discriminate.
Defined.

Lemma given_up_rows_block_witness :
  RunOnce (E := Empty_set) Queue.stripe defaultMeteredMaxAttempts 1 (Queue.world 8) = (Ok 0, Queue.world 8).
Proof.
  apply (given_up_rows_block Queue.stripe 1 (Queue.world 8)).
  - split; reflexivity.
  - vm_compute. repeat constructor. discriminate.
Defined.
