(* ===== verification/Expiry.v ===== *)
(** * The lifecycle job ([service/expiry.go])

    Every hour: licences whose grace has ended, trials and long-standing
    payment failures expire; reminders and dunning messages are sent, each
    deduplicated by a tag in the notifications table; activations of dead
    licences are removed and subscriptions synchronised. *)

From S2P Require Import Prelude GoStrings Errors Model World Tables Logic Progress GoTime Crypto AesGcm.
From S2P Require Import Usability Store Webhook Usage Demo.
From Stdlib Require Import Ascii String.
From Stdlib Require Import SpecFloat.

#[local] Open Scope string_scope.
#[local] Open Scope Z_scope.

(** ** Queries of the store *)

Definition with_product_and_plan (db : DB) (l : License) : License :=
  lic_with_relations l (db_products db !! lic_ProductID l) (db_plans db !! lic_PlanID l).
Definition with_product (db : DB) (l : License) : License :=
  lic_with_relations l (db_products db !! lic_ProductID l) None.

Definition select_licenses (load : DB -> License -> License) (P : License -> bool) : M goerr (list License) :=
  stmt (fun db => Ok (load db <$> (map_to_list (rows P (db_licenses db))).*2, db)).

(** [valid_until IS NOT NULL AND valid_until < ?]. *)
Definition ended_before (t : Time) (l : License) : bool :=
  match lic_ValidUntil l with Some until => until <? t | None => false end.

Definition FindLicensesForGraceExpiry : M goerr (list License) :=
  now ← time_Now;
  select_licenses with_product_and_plan (fun l =>
    contains (lic_Status l) [StatusActive; StatusPastDue] && ended_before now l).

Definition FindExpiredTrials : M goerr (list License) :=
  now ← time_Now;
  select_licenses with_product_and_plan (fun l => streq (lic_Status l) StatusTrialing && ended_before now l).

(** [COALESCE(past_due_at, updated_at)]. *)
Definition dunning_clock (l : License) : Time := default (lic_UpdatedAt l) (lic_PastDueAt l).

Definition FindStalePastDueLicenses (before : Time) : M goerr (list License) :=
  select_licenses (fun _ l => l) (fun l => streq (lic_Status l) StatusPastDue && (dunning_clock l <? before)).

Definition FindExpiringLicenses (from to : Time) : M goerr (list License) :=
  stmt (fun db =>
    let expiring l := contains (lic_Status l) [StatusActive; StatusTrialing]
      && match lic_ValidUntil l with Some until => (from <=? until) && (until <=? to) | None => false end in
    Ok (with_product_and_plan db <$>
          sort_by (fun l => default 0 (lic_ValidUntil l)) (map_to_list (rows expiring (db_licenses db))).*2, db)).

(** The query [SendPaymentFailureReminders] runs itself. *)
Definition find_past_due : M goerr (list License) :=
  select_licenses with_product (fun l => streq (lic_Status l) StatusPastDue && present (lic_PastDueAt l)).

(** An error of the query counts as: not sent yet. *)
Definition HasNotification {E} (licenseID tag : string) : M E bool :=
  r ← attempt (stmt (fun db => Ok (bool_decide ((licenseID, tag) ∈ db_notifications db), db)));
  mret (match r with Ok exists_ => exists_ | Err _ => false end).

Definition add_notification (licenseID tag : string) (db : DB) : DB :=
  mkDB (db_users db) (db_products db) (db_plans db) (db_entitlements db) (db_licenses db)
    (db_activations db) (db_audit_logs db) (db_seats db) (db_usage_events db) (db_usage_counters db)
    (db_webhooks db) (db_webhook_deliveries db) (db_subscriptions db) (db_floating_sessions db)
    (db_addons db) (db_license_addons db) (db_metered_billing db) (db_idempotency_keys db)
    ({[(licenseID, tag)]} ∪ db_notifications db) (db_refresh_tokens db) (db_otp_codes db)
    (db_releases db) (db_release_artifacts db) (db_signing_keys db)
    (db_processed_events db) (db_email_queue db)
    (db_api_keys db)
    (db_passkeys db) (db_webauthn_sessions db) (db_recovery_codes db) (db_audit_outbox db) (db_settings db).

Section job.
Context `{UUIDs} `{GCM} (LicenseKeyAEAD : option AESGCM).

(** [INSERT ... ON CONFLICT (license_id, tag) DO NOTHING]; the error is dropped. *)
Definition RecordNotification {E} (licenseID tag : string) : M E unit :=
  newID ;;
  ignore (stmt (fun db =>
    if present (db_licenses db !! licenseID) then Ok (tt, add_notification licenseID tag db)
    else Err (ErrSQL ForeignKeyViolation))).

(** ** The passes *)

Definition product_name (l : License) : string := match lic_Product l with Some p => prod_Name p | None => "" end.

(** [lic.Status = StatusExpired; UpdateLicenseAndSubscription(ctx, lic, "status")]. *)
Definition expire (lic : License) : M goerr unit :=
  UpdateLicenseAndSubscription (lic_set_status StatusExpired (lic_UpdatedAt lic) lic) [ColStatus].

Definition expired_audit (lic : License) (reason : string) : AuditLog :=
  mkAuditLog "" "license" (lic_ID lic) "expired" "" "system" {["reason" := AnyString reason]} "" 0.

Definition expire_and_tell {E} (lic : License) (reason failure template : string) : M E unit :=
  r ← attempt (expire lic);
  match r with
  | Err _ => emit (EvWarn failure)
  | Ok _ =>
      Audit (expired_audit lic reason) ;;
      Dispatch (lic_ProductID lic) "license.expired"
        {["license_id" := AnyString (lic_ID lic); "email" := AnyString (lic_Email lic);
          "reason" := AnyString reason]} ;;
      emit (EvEmail template (lic_Email lic) [product_name lic])
  end.

(** The row is one of a query that asks for [valid_until IS NOT NULL]. *)
Definition graceEnd (lic : License) : Time := Add (default 0 (lic_ValidUntil lic)) (grace (graceDays lic)).

Definition expire_after_grace {E} (lic : License) : M E unit :=
  now ← time_Now;
  if After now (graceEnd lic)
  then expire_and_tell lic "grace_period_ended" "expire license failed" "license_expired"
  else mret tt.

Definition ExpireGracePeriodLicenses {E} : M E unit :=
  r ← attempt FindLicensesForGraceExpiry;
  match r with
  | Err _ => emit (EvWarn "grace expiry check failed")
  | Ok licenses => for_each licenses expire_after_grace
  end.

Definition ExpireTrials {E} : M E unit :=
  r ← attempt FindExpiredTrials;
  match r with
  | Err _ => emit (EvWarn "trial expiry check failed")
  | Ok licenses => for_each licenses (fun lic => expire_and_tell lic "trial_ended" "expire trial failed" "trial_expired")
  end.

Definition expire_past_due {E} (lic : License) : M E unit :=
  r ← attempt (expire lic);
  match r with Err _ => mret tt | Ok _ => Audit (expired_audit lic "past_due_timeout") end.

Definition MarkPastDueAsExpired {E} : M E unit :=
  now ← time_Now;
  r ← attempt (FindStalePastDueLicenses (Add now (-30 * 24 * Hour)));
  match r with
  | Err _ => emit (EvWarn "past_due expiry check failed")
  | Ok licenses => for_each licenses expire_past_due
  end.

(** [ValidUntil.Format("2006-01-02")], in UTC. *)
Definition until_day (lic : License) : string := match lic_ValidUntil lic with Some t => format_day t | None => "" end.

Definition remind_expiry {E} (tag : string) (lic : License) : M E unit :=
  sent ← HasNotification (lic_ID lic) tag;
  if (sent : bool) then mret tt
  else
    key ← DecryptLicenseKey LicenseKeyAEAD (Some lic);
    emit (EvEmail "license_expiring" (lic_Email lic) [product_name lic; key; until_day lic]) ;;
    RecordNotification (lic_ID lic) tag.

Definition reminders : list (Z * string) := [(7, "expiry_7d"); (3, "expiry_3d"); (1, "expiry_1d")].

Definition SendExpiryReminders {E} : M E unit :=
  for_each reminders (fun '(days, tag) =>
    from ← time_Now;
    r ← attempt (FindExpiringLicenses from (Add from (go_mul (go_mul days 24) Hour)));
    match r with
    | Err _ => emit (EvWarn "expiry reminder check failed")
    | Ok licenses => for_each licenses (remind_expiry tag)
    end).

Definition CleanupExpiredActivations {E} : M E unit :=
  r ← attempt DeleteExpiredActivations;
  match r with Err _ => emit (EvWarn "cleanup activations failed") | Ok _ => mret tt end.

(** [int(d.Hours() / 24)], in [float64] as Go computes it. *)
Definition Hours (d : Duration) : spec_float :=
  SFadd 53 1024 (float64 (Z.quot d Hour)) (SFdiv 53 1024 (float64 (Z.rem d Hour)) (float64 Hour)).
Definition whole_days (d : Duration) : Z := float_int (SFdiv 53 1024 (Hours d) (float64 24)).

Record DunningStep := mkDunningStep { ds_minDays : Z; ds_tag : string; ds_template : string }.
Definition dunning_steps : list DunningStep :=
  [mkDunningStep 14 "dunning_final" "dunning_final"; mkDunningStep 7 "dunning_second" "dunning_second";
   mkDunningStep 1 "dunning_first" "payment_failed"].

(** The loop over the steps stops at the first one reached. *)
Definition step_reached (daysPastDue : Z) : option DunningStep :=
  head (filter (fun s => ds_minDays s <= daysPastDue) dunning_steps).

Definition dunning_tag (s : DunningStep) (pastDueAt : Time) : string := ds_tag s +:+ ":" +:+ pretty (Unix pastDueAt).

Definition dun {E} (now : Time) (lic : License) : M E unit :=
  match lic_PastDueAt lic with
  | None => mret tt
  | Some pastDueAt =>
      match step_reached (whole_days (Sub now pastDueAt)) with
      | None => mret tt
      | Some step =>
          let tag := dunning_tag step pastDueAt in
          sent ← HasNotification (lic_ID lic) tag;
          if (sent : bool) then mret tt
          else
            emit (EvEmail (ds_template step) (lic_Email lic) [product_name lic]) ;;
            RecordNotification (lic_ID lic) tag
      end
  end.

Definition SendPaymentFailureReminders {E} : M E unit :=
  r ← attempt find_past_due;
  match r with
  | Err _ | Ok [] => mret tt
  | Ok licenses => now ← time_Now; for_each licenses (dun now)
  end.

Definition remind_renewal {E} (lic : License) : M E unit :=
  if negb (streq (lic_Status lic) StatusActive) then mret tt
  else match lic_Plan lic with
  | Some plan =>
      if negb (streq (plan_LicenseType plan) "subscription") then mret tt
      else
        sent ← HasNotification (lic_ID lic) "renewal_24h";
        if (sent : bool) then mret tt
        else
          emit (EvEmail "renewal_reminder" (lic_Email lic) [product_name lic; until_day lic]) ;;
          RecordNotification (lic_ID lic) "renewal_24h"
  | None => mret tt
  end.

Definition SendRenewalReminders {E} : M E unit :=
  from ← time_Now;
  now ← time_Now;
  r ← attempt (FindExpiringLicenses from (Add now (25 * Hour)));
  match r with
  | Err _ => mret tt
  | Ok licenses => for_each licenses remind_renewal
  end.

Definition SyncSubscriptionStates {E} : M E unit :=
  r ← attempt SyncSubscriptionStatuses;
  match r with Err _ => emit (EvWarn "subscription sync failed") | Ok _ => mret tt end.

Definition RunAll {E} : M E unit :=
  ExpireGracePeriodLicenses ;;
  ExpireTrials ;;
  MarkPastDueAsExpired ;;
  SendExpiryReminders ;;
  SendRenewalReminders ;;
  SendPaymentFailureReminders ;;
  CleanupExpiredActivations ;;
  SyncSubscriptionStates.
End job.
