(* ===== verification/ExpiryProps.v ===== *)
(** * Properties of the lifecycle job

    Whatever fails, the job keeps the tables well formed and expires only
    licences that are due; when nothing fails, every licence that is due is
    expired when it ends, and every dunning message is paid for by a record of
    its own. *)

From S2P Require Import Prelude GoStrings Errors Model World Tables Logic Progress GoTime Crypto AesGcm.
From S2P Require Import KeyGen Usability Store Webhook Usage Expiry Demo.
From Stdlib Require Import Ascii String.
From Stdlib Require Import SpecFloat.

#[local] Open Scope string_scope.
#[local] Open Scope Z_scope.

(** ** What an invariant must allow for the job to keep it *)

Section keeps.
Context `{UUIDs} `{GCM} (aead : option AESGCM) (I : DB -> Prop).
Context (ig_audit : ignores_table I audit_logs) (ig_deliveries : ignores_table I webhook_deliveries)
  (ig_activations : ignores_table I activations)
  (ig_notifications : forall licenseID tag db, I db -> I (add_notification licenseID tag db))
  (keeps_sync : keeps I SyncSubscriptionStatuses).

Lemma keeps_audit_log {E} log : keeps (E := E) I (Audit log).
Proof.
  unfold Audit, insert_audit, fresh_id. repeat first [apply keeps_insert_ignored, ig_audit | keeps_step].
Qed.

Lemma keeps_expire_and_tell {E} lic reason failure template :
  keeps I (expire lic) -> keeps (E := E) I (expire_and_tell lic reason failure template).
Proof.
  intros He. unfold expire_and_tell.
  repeat first [exact He | apply keeps_audit_log | by apply keeps_Dispatch | keeps_step].
Qed.

Lemma keeps_expire_past_due {E} lic : keeps I (expire lic) -> keeps (E := E) I (expire_past_due lic).
Proof. intros He. unfold expire_past_due. repeat first [exact He | apply keeps_audit_log | keeps_step]. Qed.

Lemma keeps_HasNotification {E} l tag : keeps (E := E) I (HasNotification l tag).
Proof. unfold HasNotification. keeps_go. apply keeps_read. intros. by simplify_eq. Qed.

Lemma keeps_RecordNotification {E} l tag : keeps (E := E) I (RecordNotification l tag).
Proof.
  unfold RecordNotification. keeps_go. apply keeps_stmt. intros db u db' Hi.
  destruct (present _); intros; simplify_eq. auto.
Qed.

Lemma keeps_DecryptLicenseKey {E} l : keeps (E := E) I (DecryptLicenseKey aead l).
Proof. unfold DecryptLicenseKey. keeps_go. Qed.

Lemma keeps_FindExpiringLicenses from to : keeps I (FindExpiringLicenses from to).
Proof. apply keeps_read. intros db l db' [= _ <-]. done. Qed.

Lemma keeps_select_licenses load P : keeps I (select_licenses load P).
Proof. apply keeps_read. intros db l db' [= _ <-]. done. Qed.

Hint Resolve keeps_HasNotification keeps_RecordNotification keeps_DecryptLicenseKey
  keeps_FindExpiringLicenses keeps_select_licenses : licensehub.

Lemma keeps_SendExpiryReminders {E} : keeps (E := E) I (SendExpiryReminders aead).
Proof. unfold SendExpiryReminders, remind_expiry. keeps_go. Qed.

Lemma keeps_SendRenewalReminders {E} : keeps (E := E) I SendRenewalReminders.
Proof. unfold SendRenewalReminders, remind_renewal. keeps_go. Qed.

Lemma keeps_SendPaymentFailureReminders {E} : keeps (E := E) I SendPaymentFailureReminders.
Proof. unfold SendPaymentFailureReminders, find_past_due, dun. keeps_go. Qed.

Lemma keeps_CleanupExpiredActivations {E} : keeps (E := E) I CleanupExpiredActivations.
Proof.
  unfold CleanupExpiredActivations. keeps_go. apply keeps_stmt. intros db a db' Hi [= <- <-].
  by apply ig_activations.
Qed.

Lemma keeps_SyncSubscriptionStates {E} : keeps (E := E) I SyncSubscriptionStates.
Proof. unfold SyncSubscriptionStates. repeat first [apply keeps_sync | keeps_step]. Qed.

(** The passes after the three that expire. *)
Lemma keeps_rest {E} : keeps (E := E) I (
  SendExpiryReminders aead ;; SendRenewalReminders ;; SendPaymentFailureReminders ;;
  CleanupExpiredActivations ;; SyncSubscriptionStates).
Proof.
  repeat first [apply keeps_SendExpiryReminders | apply keeps_SendRenewalReminders
    | apply keeps_SendPaymentFailureReminders | apply keeps_CleanupExpiredActivations
    | apply keeps_SyncSubscriptionStates | keeps_step].
Qed.
End keeps.

(** The row [expire] writes. *)
Lemma expired_row lic t now r :
  lic_assign_cols (lic_set_UpdatedAt now (lic_set_status StatusExpired t lic)) (app [ColStatus] [ColUpdatedAt]) r
  = lic_set_status StatusExpired now r.
Proof. done. Qed.

Lemma expire_keeps `{UUIDs} I lic :
  (forall db r now, I db -> db_licenses db !! lic_ID lic = Some r ->
    t_check licenses db (lic_set_status StatusExpired now r) = None ->
    I (t_set licenses (<[lic_ID lic := lic_set_status StatusExpired now r]> (db_licenses db)) db)) ->
  (forall P t, keeps I (sql_update_c subscriptions P (sub_set_Status StatusExpired t))) ->
  keeps I (expire lic).
Proof.
  intros Hupd Hsub. unfold expire, UpdateLicenseAndSubscription. apply keeps_with_tx.
  repeat first [apply Hsub | keeps_step].
  apply hoare_keeps, hoare_update_checked. intros db r Hdb _ Hr _ Hc.
  rewrite expired_row in *. by apply Hupd.
Qed.

(** ** Well-formed tables *)

Definition licenses_ok (db : DB) : Prop :=
  forall k l, db_licenses db !! k = Some l -> lic_ID l = k /\ t_check licenses db l = None.
Definition subscriptions_ok (db : DB) : Prop :=
  forall k s, db_subscriptions db !! k = Some s -> t_check subscriptions db s = None.
(** No unique index of the licences is violated. *)
Definition licenses_unique (db : DB) : Prop :=
  forall k k' l l', db_licenses db !! k = Some l -> db_licenses db !! k' = Some l' -> k <> k' ->
    t_conflict licenses l' l = false.

Definition well_formed (db : DB) : Prop := licenses_ok db /\ licenses_unique db /\ subscriptions_ok db.

Lemma insert_present {A} (m : gmap string A) k x k' :
  present (m !! k') = true -> present (<[k := x]> m !! k') = true.
Proof. intros Hp. destruct (decide (k = k')) as [->|Hk]; [by rewrite lookup_insert_eq|by rewrite lookup_insert_ne]. Qed.

Lemma and_then_intro a b : a = None -> b = None -> and_then a b = None.
Proof. by intros -> ->. Qed.
Lemma and_then_inv a b : and_then a b = None -> a = None /\ b = None.
Proof. by destruct a. Qed.
Lemma fk_inv b : fk b = None -> b = true.
Proof. by destruct b. Qed.
Lemma fk_intro b : b = true -> fk b = None.
Proof. by intros ->. Qed.

Lemma wf_expire db k r now :
  well_formed db -> db_licenses db !! k = Some r ->
  well_formed (t_set licenses (<[k := lic_set_status StatusExpired now r]> (db_licenses db)) db).
Proof.
  intros (Hl & Hu & Hs) Hr. unfold well_formed, licenses_ok, licenses_unique.
  change (db_licenses (t_set licenses ?m db)) with m. split_and!.
  - intros k' l [[<- <-]|[_ Hl']]%lookup_insert_Some; [|by apply Hl]. destruct (Hl _ _ Hr) as [Hid Hc].
    split; [done|]. simpl in *. apply and_then_inv in Hc as [Hp [Hpl _]%and_then_inv]. by rewrite Hp, Hpl.
  - intros k1 k2 l1 l2 [[<- <-]|[_ H1]]%lookup_insert_Some [[<- <-]|[_ H2]]%lookup_insert_Some Hne; try done.
    + exact (Hu k k2 r l2 Hr H2 Hne).
    + exact (Hu k1 k l1 r H1 Hr Hne).
    + exact (Hu k1 k2 l1 l2 H1 H2 Hne).
  - intros k' s Hk'. specialize (Hs _ _ Hk'). simpl in *. apply and_then_inv in Hs as [Hf Hrest].
    apply and_then_intro; [|done]. apply fk_intro, insert_present. by apply fk_inv.
Qed.

Lemma check_subscription db s st t :
  t_check subscriptions db s = None -> contains st [StatusExpired; StatusCanceled; StatusRevoked] = true ->
  t_check subscriptions db (sub_set_Status st t s) = None.
Proof.
  simpl. intros [Hl [Hp _]%and_then_inv]%and_then_inv Hst. rewrite Hl, Hp. simpl. unfold check.
  rewrite contains_true in Hst. rewrite (proj2 (contains_true _ _)); [done|]. revert Hst. set_solver.
Qed.

Lemma wf_subscriptions db P f :
  well_formed db ->
  (forall k s, db_subscriptions db !! k = Some s -> P s = true -> t_check subscriptions db (f s) = None) ->
  well_formed (t_set subscriptions (update_rows P f (db_subscriptions db)) db).
Proof.
  intros (Hl & Hu & Hs) Hf. split_and!; [done..|]. intros k s Hk.
  change (update_rows P f (db_subscriptions db) !! k = Some s) in Hk. enough (t_check subscriptions db s = None) by done.
  rewrite lookup_update_rows in Hk. apply fmap_Some in Hk as (s0 & Hs0 & ->). destruct (P s0) eqn:HP; eauto.
Qed.

Lemma wf_update_subscriptions P f : keeps well_formed (sql_update_c subscriptions P f).
Proof.
  apply keeps_stmt. intros db a db' Hwf. cbv zeta. destruct (head _) as [e|] eqn:E; [done|]. intros [= _ <-].
  apply wf_subscriptions; [done|]. intros k s Hk HP.
  destruct (t_check subscriptions db (f s)) as [e|] eqn:Hc; [|done]. exfalso.
  assert (s ∈ (map_to_list (rows P (db_subscriptions db))).*2) as Hin by (apply elem_of_rows; eauto).
  apply head_None in E. assert (e ∈ omap (fun r => t_check subscriptions db (f r))
    (map_to_list (rows P (db_subscriptions db))).*2) as He by (apply list_elem_of_omap; eauto).
  simpl in E, He. rewrite E in He. by apply not_elem_of_nil in He.
Qed.

Lemma wf_sync : keeps well_formed SyncSubscriptionStatuses.
Proof.
  unfold SyncSubscriptionStatuses. apply keeps_bind; [apply keeps_sql_now|]. intros t.
  apply keeps_stmt. intros db a db' Hwf. cbv zeta. intros [= _ <-]. apply wf_subscriptions; [done|].
  intros k s Hk. destruct Hwf as (_ & _ & Hs). specialize (Hs _ _ Hk).
  destruct (db_licenses db !! sub_LicenseID s) as [l|]; [|done]. intros [_ Hst]%andb_true_iff.
  by apply check_subscription.
Qed.

Section job.
Context `{UUIDs} `{GCM} (aead : option AESGCM).

Lemma wf_expires lic : keeps well_formed (expire lic).
Proof. apply expire_keeps; [intros; by apply wf_expire|intros; apply wf_update_subscriptions]. Qed.

Lemma keeps_RunAll {E} I :
  ignores_table I audit_logs -> ignores_table I webhook_deliveries -> ignores_table I activations ->
  (forall licenseID tag db, I db -> I (add_notification licenseID tag db)) ->
  keeps I SyncSubscriptionStatuses -> (forall lic, keeps I (expire lic)) -> keeps (E := E) I (RunAll aead).
Proof.
  intros. unfold RunAll, ExpireGracePeriodLicenses, FindLicensesForGraceExpiry, expire_after_grace, ExpireTrials,
    FindExpiredTrials, MarkPastDueAsExpired, FindStalePastDueLicenses.
  repeat first [by apply keeps_rest | by apply keeps_expire_and_tell | by apply keeps_expire_past_due
    | apply keeps_select_licenses | keeps_step].
Qed.

(** C37. Type: the lifecycle job keeps the tables well formed — every licence under
    its own identifier, with an allowed status and an existing product and
    plan, no two licences sharing a key, a key hash or a subscription, and every
    subscription of an existing licence and plan with an allowed status —
    whatever statements fail while it runs. *)
Theorem RunAll_well_formed w :
  well_formed (w_db w) -> w_tx w = None -> well_formed (w_db (snd (RunAll (E := Empty_set) aead w))).
Proof.
  intros Hwf Hw. assert (keeps (E := Empty_set) well_formed (RunAll aead)) as Hk.
  { apply keeps_RunAll; [by intros ??..|by intros ???|apply wf_sync|apply wf_expires]. }
  apply Hk. by apply safe_closed.
Qed.
End job.

(** ** The job ends, and leaves no transaction open *)

Section tame.
Context `{UUIDs} `{GCM} (aead : option AESGCM).

Lemma tame_Audit {E} log : tame (E := E) (Audit log).
Proof. unfold Audit, insert_audit, fresh_id. tame_go. Qed.

Lemma tame_Dispatch {E} productID event data : tame (E := E) (Dispatch productID event data).
Proof.
  unfold Dispatch, DispatchWithLog, FindWebhooksForEvent, start_delivery, CreateWebhookDelivery, fresh_id. tame_go.
Qed.

Lemma tame_expire lic : tame (expire lic).
Proof. unfold expire, UpdateLicenseAndSubscription, sql_update_c. tame_go. Qed.

Lemma tame_HasNotification {E} l tag : tame (E := E) (HasNotification l tag).
Proof. unfold HasNotification. tame_go. Qed.

Lemma tame_RecordNotification {E} l tag : tame (E := E) (RecordNotification l tag).
Proof. unfold RecordNotification. tame_go. Qed.

Lemma tame_DecryptLicenseKey {E} l : tame (E := E) (DecryptLicenseKey aead l).
Proof. unfold DecryptLicenseKey. tame_go. Qed.

Lemma tame_select_licenses load P : tame (select_licenses load P).
Proof. apply tame_stmt. Qed.

Lemma tame_FindExpiringLicenses from to : tame (FindExpiringLicenses from to).
Proof. apply tame_stmt. Qed.

Hint Resolve tame_Audit tame_Dispatch tame_expire tame_HasNotification tame_RecordNotification
  tame_DecryptLicenseKey tame_select_licenses tame_FindExpiringLicenses : licensehub.

Lemma tame_expire_and_tell {E} lic reason failure template : tame (E := E) (expire_and_tell lic reason failure template).
Proof. unfold expire_and_tell. tame_go. Qed.

Lemma tame_expire_past_due {E} lic : tame (E := E) (expire_past_due lic).
Proof. unfold expire_past_due. tame_go. Qed.

Lemma tame_expire_after_grace {E} lic : tame (E := E) (expire_after_grace lic).
Proof. unfold expire_after_grace. pose proof @tame_expire_and_tell. tame_go. Qed.

Lemma tame_rest {E} : tame (E := E) (
  SendExpiryReminders aead ;; SendRenewalReminders ;; SendPaymentFailureReminders ;;
  CleanupExpiredActivations ;; SyncSubscriptionStates).
Proof.
  unfold SendExpiryReminders, remind_expiry, SendRenewalReminders, remind_renewal, SendPaymentFailureReminders,
    find_past_due, dun, CleanupExpiredActivations, DeleteExpiredActivations, SyncSubscriptionStates,
    SyncSubscriptionStatuses. tame_go.
Qed.
End tame.

(** ** Only licences that are due expire *)

(** [plan_grace db l]: the days of grace of the licence's plan. *)
Definition grace_over (db : DB) (u : Time) (l : License) : bool :=
  contains (lic_Status l) [StatusActive; StatusPastDue] && ended_before u l
  && After u (graceEnd (with_product_and_plan db l)).
Definition trial_over (u : Time) (l : License) : bool := streq (lic_Status l) StatusTrialing && ended_before u l.
Definition dunning_over (u : Time) (l : License) : bool :=
  streq (lic_Status l) StatusPastDue && (dunning_clock l <? Add u (-30 * 24 * Hour)).
Definition due (db : DB) (u : Time) (l : License) : bool := grace_over db u l || trial_over u l || dunning_over u l.

Lemma ended_before_mono t u l : t <= u -> ended_before t l = true -> ended_before u l = true.
Proof. unfold ended_before. destruct (lic_ValidUntil l); intros; bool_facts; [|done]. apply Z.ltb_lt. lia. Qed.

Lemma due_mono db t u l : t <= u -> due db t l = true -> due db u l = true.
Proof.
  unfold due, grace_over, trial_over, dunning_over, After, Add. intros Htu.
  rewrite !orb_true_iff, !andb_true_iff, !Z.ltb_lt.
  intros [[((? & ?) & ?)|[? ?]]|[? ?]]; [left; left|left; right|right];
    split_and!; eauto using ended_before_mono; lia.
Qed.

Lemma due_alive db u l : due db u l = true -> lic_Status l <> StatusExpired.
Proof.
  unfold due, grace_over, trial_over, dunning_over. intros Hd E. rewrite E in Hd. done.
Qed.

Section soundness.
Context `{UUIDs} `{GCM} (aead : option AESGCM) (db0 : DB) (t0 : Time).
Context (wf0 : well_formed db0).

(** A row between the start of the job and instant [t]. *)
Definition aged (t : Time) (l l' : License) : Prop :=
  l' = l \/ exists u v, l' = lic_set_status StatusExpired v l /\ t0 <= u <= t /\ due db0 u l = true.

Definition job_inv (t : Time) (db : DB) : Prop :=
  t0 <= t /\ db_plans db = db_plans db0 /\ forall k, option_Forall2 (aged t) (db_licenses db0 !! k) (db_licenses db !! k).

Lemma job_later t u db : t <= u -> job_inv t db -> job_inv u db.
Proof.
  intros Htu (H1 & H2 & H3). split_and!; [lia|done|]. intros k. destruct (H3 k) as [l l' Ha|]; constructor.
  destruct Ha as [->|(x & v & -> & ? & ?)]; [by left|right]. exists x, v. split_and!; [done|lia..|done].
Qed.

Lemma job_row t db k x :
  job_inv t db -> db_licenses db !! k = Some x -> exists l, db_licenses db0 !! k = Some l /\ aged t l x /\ lic_ID l = k.
Proof.
  intros (_ & _ & H3) Hx. specialize (H3 k). rewrite Hx in H3. inversion H3 as [l ? Ha E|]; subst.
  exists l. split_and!; [done..|]. by apply wf0.
Qed.

(** A row the queries select has not been touched by the job. *)
Lemma job_fresh t db k x :
  job_inv t db -> db_licenses db !! k = Some x -> lic_Status x <> StatusExpired ->
  db_licenses db0 !! k = Some x /\ lic_ID x = k.
Proof.
  intros HJ Hx Hs. destruct (job_row _ _ _ _ HJ Hx) as (l & Hl & [->|(u & v & -> & _)] & Hid); done.
Qed.

Lemma job_expire lic u t :
  db_licenses db0 !! lic_ID lic = Some lic -> due db0 u lic = true -> t0 <= u <= t ->
  forall lic', lic_ID lic' = lic_ID lic -> keeps (job_inv t) (expire lic').
Proof.
  intros Hl Hd Hu lic' Hid. apply expire_keeps.
  - intros db r now (H1 & H2 & H3) Hr _. rewrite Hid in *. split_and!; [done..|]. intros k.
    change (db_licenses (t_set licenses ?m db)) with m.
    destruct (decide (k = lic_ID lic)) as [->|Hk]; [|by rewrite lookup_insert_ne].
    specialize (H3 (lic_ID lic)). rewrite Hl, Hr in H3. inversion H3 as [? ? Ha|]; subst.
    rewrite Hl, lookup_insert_eq. constructor. right. exists u, now.
    split; [by destruct Ha as [->|(? & ? & -> & _)]|done].
  - intros P s. apply keeps_stmt. intros db a db' HJ. cbv zeta. destruct (head _); [done|]. by intros [= _ <-].
Qed.

(** What the job may know beside the tables: an instant that has passed. *)
Lemma keeps_under {E A} (I : DB -> Prop) (P : Prop) (m : M E A) : (P -> keeps I m) -> keeps (fun db => I db /\ P) m.
Proof.
  intros Hk w [[HI HP] Htx]. assert (safe I w) as Hs by (split; [done|]; intros tx Et; by apply Htx).
  destruct (Hk HP w Hs) as [H1 H2]. split; [done|]. intros tx Et. split; [by apply H2|done].
Qed.

Definition job_inv_from (u t : Time) (db : DB) : Prop := job_inv t db /\ u <= t.

Lemma from_later u t v db : t <= v -> job_inv_from u t db -> job_inv_from u v db.
Proof. intros Htv [H1 H2]. split; [by eapply job_later|lia]. Qed.

Lemma ahead_from {E A} u (m : M E A) : (forall t, u <= t -> keeps (job_inv t) m) -> tame m -> ahead (job_inv_from u) m.
Proof.
  intros Hk Hm. apply ahead_keeps; [intros; by eapply from_later| |done].
  intros t. by apply keeps_under, Hk.
Qed.

Lemma job_ignores t :
  ignores_table (job_inv t) audit_logs /\ ignores_table (job_inv t) webhook_deliveries /\
  ignores_table (job_inv t) activations /\ (forall licenseID tag db, job_inv t db -> job_inv t (add_notification licenseID tag db)) /\
  keeps (job_inv t) SyncSubscriptionStatuses.
Proof.
  split_and!; [by intros ??..|by intros ???|]. unfold SyncSubscriptionStatuses. apply keeps_bind; [apply keeps_sql_now|].
  intros s. apply keeps_stmt. intros db a db' HJ. cbv zeta. by intros [= _ <-].
Qed.

Lemma job_keeps_tell {E} lic reason failure template t :
  keeps (job_inv t) (expire lic) -> keeps (E := E) (job_inv t) (expire_and_tell lic reason failure template).
Proof. destruct (job_ignores t) as (? & ? & _). by apply keeps_expire_and_tell. Qed.

(** A licence a query of the job returned, due at [u]. *)
Lemma ahead_tell {E} lic lic' u reason failure template :
  db_licenses db0 !! lic_ID lic = Some lic -> due db0 u lic = true -> t0 <= u -> lic_ID lic' = lic_ID lic ->
  ahead (E := E) (job_inv_from u) (expire_and_tell lic' reason failure template).
Proof.
  intros Hl Hd Hu Hid. apply ahead_from; [|apply tame_expire_and_tell].
  intros t Ht. apply job_keeps_tell. by eapply (job_expire lic u).
Qed.

(** Rows of a query made after instant [now]. *)
Lemma selected_fresh (load : DB -> License -> License) P u t db (lic : License) :
  job_inv_from u t db -> lic ∈ (load db <$> (map_to_list (rows P (db_licenses db))).*2) ->
  (forall l, P l = true -> lic_Status l <> StatusExpired) ->
  exists l, lic = load db l /\ P l = true /\ db_licenses db0 !! lic_ID l = Some l.
Proof.
  intros [HJ _] (l & -> & (k & Hk & HP)%elem_of_rows)%list_elem_of_fmap Hs. exists l. split_and!; [done..|].
  destruct (job_fresh _ _ _ _ HJ Hk (Hs l HP)) as [Hl Hid]. by rewrite Hid.
Qed.

Lemma same_graceEnd t db l :
  job_inv t db -> graceEnd (with_product_and_plan db l) = graceEnd (with_product_and_plan db0 l).
Proof.
  intros (_ & Hp & _). unfold graceEnd, graceDays, with_product_and_plan, lic_with_relations. simpl. by rewrite Hp.
Qed.

Lemma ahead_ExpireTrials {E} : ahead (E := E) job_inv ExpireTrials.
Proof.
  unfold ExpireTrials, FindExpiredTrials. eapply ahead_ext; [intros w; apply attempt_time_Now|].
  apply ahead_time_Now; [apply job_later|]. intros now [db1 (Hnow & _)].
  apply (ahead_query (job_inv_from now)); [apply (from_later now)|by intros ??? [= _ <-]| |].
  - intros t db ls HJ [= <-]. apply ahead_for_each. intros lic Hlic.
    eapply selected_fresh in Hlic as (l & -> & HP & Hl); [|done|].
    + bool_facts. eapply (ahead_tell l); [done| |done|done]. unfold due, trial_over.
      match goal with H : streq _ _ = true, H' : ended_before _ _ = true |- _ => rewrite H, H' end.
      by rewrite orb_true_r.
    + intros l' [Hs _]%andb_true_iff E'. rewrite E' in Hs. done.
  - intros e. apply ahead_from; [intros; apply keeps_emit|apply tame_emit].
Qed.

Lemma ahead_ExpireGrace {E} : ahead (E := E) job_inv ExpireGracePeriodLicenses.
Proof.
  unfold ExpireGracePeriodLicenses, FindLicensesForGraceExpiry. eapply ahead_ext; [intros w; apply attempt_time_Now|].
  apply ahead_time_Now; [apply job_later|]. intros now [db1 (Hnow & _)].
  apply (ahead_query (job_inv_from now)); [apply (from_later now)|by intros ??? [= _ <-]| |].
  - intros t db ls HJ [= <-]. apply ahead_for_each. intros lic Hlic.
    eapply selected_fresh in Hlic as (l & -> & [Hst Hend]%andb_true_iff & Hl); [|done|].
    + apply ahead_time_Now; [apply (from_later now)|]. intros now2 [db2 [_ Hnow2]].
      destruct (After now2 _) eqn:Ha; [|by intros w].
      apply ahead_keeps; [|intros t'; apply keeps_under; intros Ht'; apply keeps_under; intros _|apply tame_expire_and_tell].
      * intros t' u db' Hu [H1 H2]. split; [by eapply from_later|lia].
      * apply job_keeps_tell, (job_expire l now2); [done| |lia|done]. unfold due, grace_over.
        rewrite Hst, (ended_before_mono now now2 l Hnow2 Hend). rewrite (same_graceEnd _ _ _ (proj1 HJ)) in Ha. by rewrite Ha.
    + intros l' [Hs _]%andb_true_iff E'. rewrite E' in Hs. done.
  - intros e. apply ahead_from; [intros; apply keeps_emit|apply tame_emit].
Qed.

Lemma ahead_MarkPastDue {E} : ahead (E := E) job_inv MarkPastDueAsExpired.
Proof.
  unfold MarkPastDueAsExpired, FindStalePastDueLicenses.
  apply ahead_time_Now; [apply job_later|]. intros now [db1 (Hnow & _)].
  apply (ahead_query (job_inv_from now)); [apply (from_later now)|by intros ??? [= _ <-]| |].
  - intros t db ls HJ [= <-]. apply ahead_for_each. intros lic Hlic.
    apply (selected_fresh (fun _ l => l) _ now t db) in Hlic as (l & -> & HP & Hl); [|done|].
    + apply ahead_from; [|apply tame_expire_past_due]. intros t' Ht'. destruct (job_ignores t') as (? & _).
      apply keeps_expire_past_due; [done|]. apply (job_expire l now); [done| |lia|done].
      unfold due, dunning_over. by rewrite HP, orb_true_r.
    + intros l' [Hs _]%andb_true_iff E'. rewrite E' in Hs. done.
  - intros e. apply ahead_from; [intros; apply keeps_emit|apply tame_emit].
Qed.

Lemma ahead_RunAll {E} : ahead (E := E) job_inv (RunAll aead).
Proof.
  unfold RunAll. repeat (apply ahead_bind; [first [apply ahead_ExpireGrace|apply ahead_ExpireTrials|apply ahead_MarkPastDue]|intros _]).
  apply ahead_keeps; [apply job_later| |apply tame_rest]. intros t.
  destruct (job_ignores t) as (? & ? & ? & ? & ?). by apply keeps_rest.
Qed.
End soundness.

Lemma job_inv_start w : job_inv (w_db w) (w_clock w) (w_clock w) (w_db w).
Proof. split_and!; [lia|done|]. intros k. destruct (db_licenses (w_db w) !! k); constructor. by left. Qed.

(** C8. Safety: the lifecycle job changes a licence only by setting its status to
    expired, and only when it is due at an instant of the run: active or past
    due with its grace over, trialing with its end passed, or past due for more
    than thirty days.  So it is whatever statements fail; no licence appears or
    disappears. *)
Theorem RunAll_expires_only_due `{UUIDs} `{GCM} aead w k :
  well_formed (w_db w) -> w_tx w = None ->
  let w' := snd (RunAll (E := Empty_set) aead w) in
  match db_licenses (w_db w) !! k, db_licenses (w_db w') !! k with
  | Some l, Some l' => l' = l \/ exists u v, l' = lic_set_status StatusExpired v l /\
      w_clock w <= u <= w_clock w' /\ due (w_db w) u l = true
  | None, None => True
  | _, _ => False
  end.
Proof.
  intros Hwf Hw w'. pose proof (ahead_RunAll (E := Empty_set) aead (w_db w) (w_clock w) Hwf w) as Hr.
  destruct Hr as [(_ & _ & Hk) _]; [apply safe_closed; [apply job_inv_start|done]|].
  specialize (Hk k). fold w' in Hk. by inversion Hk.
Qed.

(** ** Every licence that is due expires, when nothing fails *)

Section completeness.
Context `{UUIDs} `{GCM} (aead : option AESGCM).

Lemma update_checked_calm (T : Table string License) k f w r :
  calm w -> t_get T (w_db w) !! k = Some r ->
  row_exists (fun r0 => t_conflict T r0 (f r)) (delete k (t_get T (w_db w))) = false ->
  t_check T (w_db w) (f r) = None ->
  sql_update_checked T k f w = (Ok 1, set_db (t_set T (<[k := f r]> (t_get T (w_db w))) (w_db w)) w).
Proof. intros Hc Hr Hx Hk. unfold sql_update_checked. rewrite stmt_calm by done. by rewrite Hr, Hx, Hk. Qed.

Lemma update_c_calm (T : Table string Subscription) P f w :
  calm w -> head (omap (fun r => t_check T (w_db w) (f r)) (map_to_list (rows P (t_get T (w_db w)))).*2) = None ->
  sql_update_c T P f w = (Ok (count P (t_get T (w_db w))), set_db (t_set T (update_rows P f (t_get T (w_db w))) (w_db w)) w).
Proof. intros Hc Hh. unfold sql_update_c. rewrite stmt_calm by done. by rewrite Hh. Qed.

Lemma update_expired db k r now :
  well_formed db -> db_licenses db !! k = Some r ->
  row_exists (fun r0 => t_conflict licenses r0 (lic_set_status StatusExpired now r)) (delete k (db_licenses db)) = false /\
  t_check licenses db (lic_set_status StatusExpired now r) = None.
Proof.
  intros Hwf Hr. split.
  - apply row_exists_false. intros k' r' [Hne Hr']%lookup_delete_Some. destruct Hwf as (_ & Hu & _).
    exact (Hu k k' r r' Hr Hr' Hne).
  - destruct Hwf as (Hl & _). destruct (Hl _ _ Hr) as [_ Hc]. simpl in *.
    apply and_then_inv in Hc as [Hp [Hpl _]%and_then_inv]. by rewrite Hp, Hpl.
Qed.

Lemma no_failed_check db P t :
  subscriptions_ok db ->
  head (omap (fun r => t_check subscriptions db (sub_set_Status StatusExpired t r))
    (map_to_list (rows P (db_subscriptions db))).*2) = None.
Proof.
  intros Hs. apply head_None. assert (forall e, e ∉ omap (fun r => t_check subscriptions db (sub_set_Status StatusExpired t r))
    (map_to_list (rows P (db_subscriptions db))).*2) as Hno; [|by apply list_nil_subseteq; intros e He; edestruct Hno].
  intros e (s & (k & Hk & _)%elem_of_rows & Hc)%list_elem_of_omap.
  rewrite check_subscription in Hc; [done|by eapply Hs|done].
Qed.

Lemma expire_quiet lic r w :
  quiet w -> well_formed (w_db w) -> db_licenses (w_db w) !! lic_ID lic = Some r ->
  exists w' now, expire lic w = (Ok tt, w') /\
    db_licenses (w_db w') = <[lic_ID lic := lic_set_status StatusExpired now r]> (db_licenses (w_db w)).
Proof.
  intros Hq Hwf Hr. unfold expire, UpdateLicenseAndSubscription, with_tx, mbind, M_bind, defer_rollback.
  rewrite begin_calm by by apply quiet_calm. destruct (tick w) as [t0 ds]. unfold time_Now.
  destruct (tick _) as [now ds'] eqn:Et. destruct Hq as [Hf Htx].
  destruct (update_expired (w_db w) (lic_ID lic) r now Hwf Hr) as [Hc Hk].
  erewrite (update_checked_calm licenses _ _ _ r); [|by split|exact Hr|exact Hc|exact Hk].
  unfold sql_now, attempt. simpl w_tx. cbv beta iota.
  erewrite update_c_calm; [|by split|].
  2: { apply no_failed_check. apply (wf_expire (w_db w) (lic_ID lic) r now Hwf Hr). }
  unfold mret, M_ret. erewrite commit_calm; [|by split|reflexivity].
  eexists _, now. split; reflexivity.
Qed.

Context (db0 : DB) (k : string) (l : License) (t : Time).

(** The row of the licence: as it was, or expired. *)
Definition row_known (db : DB) : Prop :=
  exists l', db_licenses db !! k = Some l' /\ (l' = l \/ lic_Status l' = StatusExpired).
Definition row_expired (db : DB) : Prop := exists l', db_licenses db !! k = Some l' /\ lic_Status l' = StatusExpired.

Lemma row_keeps_expire (P : License -> Prop) lic :
  (forall now r, P r -> P (lic_set_status StatusExpired now r)) ->
  keeps (fun db => exists l', db_licenses db !! k = Some l' /\ P l') (expire lic).
Proof.
  intros HP. apply expire_keeps.
  - intros db r now (l' & Hl' & Hst) Hr _. change (db_licenses (t_set licenses ?m db)) with m.
    destruct (decide (lic_ID lic = k)) as [<-|Hne]; [rewrite lookup_insert_eq|rewrite lookup_insert_ne by done; by exists l'].
    eexists. split; [done|]. apply HP. congruence.
  - intros Q s. apply keeps_stmt. intros db a db' HI. cbv zeta. destruct (head _); [done|]. by intros [= _ <-].
Qed.

(** What both facts of a row allow the job to do. *)
Record allows (I : DB -> Prop) : Prop := mkAllows {
  al_audit : ignores_table I audit_logs; al_deliveries : ignores_table I webhook_deliveries;
  al_activations : ignores_table I activations;
  al_notifications licenseID tag db : I db -> I (add_notification licenseID tag db);
  al_sync : keeps I SyncSubscriptionStatuses; al_expire lic : keeps I (expire lic) }.

Lemma allows_row (P : License -> Prop) :
  (forall now r, P r -> P (lic_set_status StatusExpired now r)) ->
  allows (fun db => exists l', db_licenses db !! k = Some l' /\ P l').
Proof.
  intros HP. split; try by intros ??.
  - unfold SyncSubscriptionStatuses. apply keeps_bind; [apply keeps_sql_now|]. intros s.
    apply keeps_stmt. intros db a db' HJ. cbv zeta. by intros [= _ <-].
  - intros lic. by apply row_keeps_expire.
Qed.

Lemma allows_and I J : allows I -> allows J -> allows (fun db => I db /\ J db).
Proof.
  intros HI HJ. split; try (intros m db []; split; [by apply HI|by apply HJ]).
  - intros a b db []. split; [by apply HI|by apply HJ].
  - apply keeps_and; [apply HI|apply HJ].
  - intros lic. apply keeps_and; [apply HI|apply HJ].
Qed.

Lemma allows_wf : allows well_formed.
Proof. split; try (by intros ??); [apply wf_sync|apply wf_expires]. Qed.

Definition same_plans (db : DB) : Prop := db_plans db = db_plans db0.

Lemma allows_plans : allows same_plans.
Proof.
  split; try (by intros ??).
  - unfold SyncSubscriptionStatuses. apply keeps_bind; [apply keeps_sql_now|]. intros s.
    apply keeps_stmt. intros db a db' HJ. cbv zeta. by intros [= _ <-].
  - intros lic. apply expire_keeps; [by intros|]. intros Q s. apply keeps_stmt. intros db a db' HI. cbv zeta.
    destruct (head _); [done|]. by intros [= _ <-].
Qed.

Definition known : DB -> Prop := fun db => (well_formed db /\ same_plans db) /\ row_known db.

Lemma allows_known : allows known.
Proof.
  apply allows_and; [apply (allows_and well_formed); [apply allows_wf|apply allows_plans]|]. apply allows_row. auto.
Qed.
Lemma allows_expired : allows row_expired.
Proof. apply allows_row. auto. Qed.

(** The state between two iterations of a pass. *)
Definition Between (w : World) : Prop := quiet w /\ t <= w_clock w /\ known (w_db w).
Definition Reached (w : World) : Prop := quiet w /\ row_expired (w_db w).

Lemma Between_step {E A} (m : M E A) w : keeps known m -> tame m -> Between w -> Between (snd (m w)).
Proof.
  intros Hk Hm (Hq & Hc & HI). split; [by apply tame_quiet|]. pose proof (tm_clock _ _ (Hm w)).
  split; [lia|]. apply keeps_closed; [done|apply Hq|done].
Qed.

Lemma Reached_step {E A} (m : M E A) w : keeps row_expired m -> tame m -> Reached w -> Reached (snd (m w)).
Proof. intros Hk Hm (Hq & HI). split; [by apply tame_quiet|]. apply keeps_closed; [done|apply Hq|done]. Qed.

Lemma keeps_tell_of {E} I lic reason failure template :
  allows I -> keeps (E := E) I (expire_and_tell lic reason failure template).
Proof. intros HI. apply keeps_expire_and_tell; apply HI. Qed.

Lemma keeps_past_due_of {E} I lic : allows I -> keeps (E := E) I (expire_past_due lic).
Proof. intros HI. apply keeps_expire_past_due; apply HI. Qed.

Lemma keeps_grace_of {E} I lic : allows I -> keeps (E := E) I (expire_after_grace lic).
Proof. intros HI. unfold expire_after_grace. repeat first [by apply keeps_tell_of|keeps_step]. Qed.

(** [expire] with any continuation that allows for it. *)
Lemma expire_reaches {E} lic (g : result goerr unit -> M E unit) w :
  Between w -> lic_ID lic = k -> keeps row_expired (g (Ok tt)) -> tame (g (Ok tt)) ->
  Reached (snd ((attempt (E' := E) (expire lic) ≫= g) w)).
Proof.
  intros (Hq & _ & [Hwf _] & l' & Hl' & _) Hid Hg Ht. rewrite <- Hid in Hl'.
  destruct (expire_quiet lic l' w Hq Hwf Hl') as (w1 & now & E1 & E2).
  pose proof (tame_quiet (expire lic) w (tame_expire lic) Hq) as Hq1. rewrite E1 in Hq1.
  unfold mbind, M_bind, attempt. rewrite E1. apply Reached_step; [done..|]. split; [done|].
  exists (lic_set_status StatusExpired now l'). rewrite E2, <- Hid, lookup_insert_eq. done.
Qed.

Lemma pass_reaches (sel : Time -> DB -> list License) (failure : goerr -> M Empty_set unit)
    (body : License -> M Empty_set unit) (x0 : DB -> License) w :
  (forall x I, allows I -> keeps I (body x)) -> (forall x, tame (body x)) ->
  (forall now db, t <= now -> known db -> db_licenses db !! k = Some l ->
    x0 db ∈ sel now db /\ forall w1, Between w1 -> Reached (snd (body (x0 db) w1))) ->
  Between w ->
  Reached (snd ((now ← time_Now; attempt (stmt (fun db => Ok (sel now db, db))) ≫= fun r =>
    match r with Err e => failure e | Ok ls => for_each ls body end) w)).
Proof.
  intros Hk Ht Hsel Hb. unfold mbind, M_bind, attempt.
  pose proof (Between_step (E := Empty_set) time_Now w (keeps_time_Now _) tame_time_Now Hb) as Hb1.
  destruct Hb as (_ & Hc & _). unfold time_Now in *. destruct (tick w) as [now ds] eqn:Et. apply tick_later in Et.
  simpl snd in Hb1. set (w1 := set_clock now ds w) in *. destruct Hb1 as (Hq1 & Hc1 & Hk1).
  rewrite stmt_quiet, set_db_same by done. destruct Hk1 as [Hwf (l' & Hl' & Hrow)].
  assert (known (w_db w1)) as Hk1 by (split; [done|by exists l']).
  destruct Hrow as [->|Hst].
  - destruct (Hsel now (w_db w1)) as [Hin Hreach]; [lia|done|done|].
    apply (for_each_reach Between Reached body _ (x0 (w_db w1))); try done.
    + intros x w2. apply Between_step; [apply Hk, allows_known|apply Ht].
    + intros x w2 _. apply Reached_step; [apply Hk, allows_expired|apply Ht].
  - apply Reached_step; [apply keeps_for_each; intros; apply Hk, allows_expired|apply tame_for_each, Ht|].
    split; [done|by exists l'].
Qed.

Lemma selected (load : DB -> License -> License) P db :
  db_licenses db !! k = Some l -> P l = true -> load db l ∈ (load db <$> (map_to_list (rows P (db_licenses db))).*2).
Proof. intros Hl HP. apply list_elem_of_fmap. exists l. split; [done|]. apply elem_of_rows. by exists k. Qed.

Lemma known_id db : known db -> db_licenses db !! k = Some l -> lic_ID l = k.
Proof. intros [[(Hl & _) _] _] Hk. by apply Hl. Qed.

Lemma tell_reaches {E} lic reason failure template w :
  Between w -> lic_ID lic = k -> Reached (snd (expire_and_tell (E := E) lic reason failure template w)).
Proof.
  intros Hb Hid. unfold expire_and_tell. apply expire_reaches; [done..| |].
  - repeat first [apply (keeps_audit_log row_expired), allows_expired|apply keeps_Dispatch, allows_expired|keeps_step].
  - pose proof @tame_Audit. pose proof @tame_Dispatch. tame_go.
Qed.

Lemma past_due_reaches {E} lic w :
  Between w -> lic_ID lic = k -> Reached (snd (expire_past_due (E := E) lic w)).
Proof.
  intros Hb Hid. unfold expire_past_due. apply expire_reaches; [done..| |apply tame_Audit].
  apply (keeps_audit_log row_expired), allows_expired.
Qed.

Lemma grace_reaches w :
  grace_over db0 t l = true -> Between w -> Reached (snd (ExpireGracePeriodLicenses (E := Empty_set) w)).
Proof.
  intros Hover Hb. unfold ExpireGracePeriodLicenses, FindLicensesForGraceExpiry. rewrite attempt_time_Now.
  apply (pass_reaches (fun now db => with_product_and_plan db <$> _) _ _ (fun db => with_product_and_plan db l));
    [intros; by apply keeps_grace_of|intros; apply tame_expire_after_grace| |done].
  intros now db Hnow Hkn Hl. unfold grace_over in Hover. bool_facts. split.
  - apply selected; [done|]. apply andb_true_iff. split; [done|by eapply ended_before_mono].
  - intros w1 Hb1. unfold expire_after_grace, mbind, M_bind.
    pose proof (Between_step (E := Empty_set) time_Now w1 (keeps_time_Now _) tame_time_Now Hb1) as Hb2.
    destruct Hb1 as (_ & Hc & _). unfold time_Now in *. destruct (tick w1) as [now2 ds] eqn:Et. apply tick_later in Et.
    simpl snd in Hb2. replace (After now2 _) with true; [apply tell_reaches; [done|by eapply (known_id db)]|].
    symmetry. unfold After in *. apply Z.ltb_lt. destruct Hkn as [[_ Hp] _].
    replace (graceEnd (with_product_and_plan db l)) with (graceEnd (with_product_and_plan db0 l)); [bool_facts; lia|].
    unfold graceEnd, graceDays, with_product_and_plan, lic_with_relations. simpl. by rewrite Hp.
Qed.

Lemma trial_reaches w : trial_over t l = true -> Between w -> Reached (snd (ExpireTrials (E := Empty_set) w)).
Proof.
  intros Hover Hb. unfold ExpireTrials, FindExpiredTrials. rewrite attempt_time_Now.
  apply (pass_reaches (fun now db => with_product_and_plan db <$> _) _ _ (fun db => with_product_and_plan db l));
    [intros; by apply keeps_tell_of|intros; apply tame_expire_and_tell| |done].
  intros now db Hnow Hkn Hl. unfold trial_over in Hover. bool_facts. split.
  - apply selected; [done|]. apply andb_true_iff. split; [done|by eapply ended_before_mono].
  - intros w1 Hb1. apply tell_reaches; [done|by eapply (known_id db)].
Qed.

Lemma dunning_reaches w : dunning_over t l = true -> Between w -> Reached (snd (MarkPastDueAsExpired (E := Empty_set) w)).
Proof.
  intros Hover Hb. unfold MarkPastDueAsExpired, FindStalePastDueLicenses.
  apply (pass_reaches (fun now db => (fun l => l) <$> _) _ _ (fun _ => l));
    [intros; by apply keeps_past_due_of|intros; apply tame_expire_past_due| |done].
  intros now db Hnow Hkn Hl. unfold dunning_over, Add in Hover. bool_facts. split.
  - apply (selected (fun _ l => l)); [done|]. apply andb_true_iff. split; [done|]. unfold Add. apply Z.ltb_lt. lia.
  - intros w1 Hb1. apply past_due_reaches; [done|by eapply (known_id db)].
Qed.
End completeness.

Section passes.
Context `{UUIDs} `{GCM} (aead : option AESGCM).

Lemma allows_grace {E} I : allows I -> keeps (E := E) I ExpireGracePeriodLicenses.
Proof.
  intros HI. unfold ExpireGracePeriodLicenses, FindLicensesForGraceExpiry.
  repeat first [by apply keeps_grace_of|apply keeps_select_licenses|keeps_step].
Qed.
Lemma allows_trials {E} I : allows I -> keeps (E := E) I ExpireTrials.
Proof.
  intros HI. unfold ExpireTrials, FindExpiredTrials.
  repeat first [by apply keeps_tell_of|apply keeps_select_licenses|keeps_step].
Qed.
Lemma allows_dunning {E} I : allows I -> keeps (E := E) I MarkPastDueAsExpired.
Proof.
  intros HI. unfold MarkPastDueAsExpired, FindStalePastDueLicenses.
  repeat first [by apply keeps_past_due_of|apply keeps_select_licenses|keeps_step].
Qed.

Lemma tame_grace {E} : tame (E := E) ExpireGracePeriodLicenses.
Proof.
  unfold ExpireGracePeriodLicenses, FindLicensesForGraceExpiry.
  repeat first [apply tame_expire_after_grace|apply tame_select_licenses|tame_step_go].
Qed.
Lemma tame_trials {E} : tame (E := E) ExpireTrials.
Proof.
  unfold ExpireTrials, FindExpiredTrials.
  repeat first [apply tame_expire_and_tell|apply tame_select_licenses|tame_step_go].
Qed.
Lemma tame_dunning {E} : tame (E := E) MarkPastDueAsExpired.
Proof.
  unfold MarkPastDueAsExpired, FindStalePastDueLicenses.
  repeat first [apply tame_expire_past_due|apply tame_select_licenses|tame_step_go].
Qed.
End passes.

(** C9. Functional: when no statement fails, every licence that is due when the
    lifecycle job starts — grace over, trial ended, or past due for more than
    thirty days — is expired when it ends. *)
Theorem RunAll_expires_all_due `{UUIDs} `{GCM} aead w k l :
  quiet w -> well_formed (w_db w) -> db_licenses (w_db w) !! k = Some l -> due (w_db w) (w_clock w) l = true ->
  exists l', db_licenses (w_db (snd (RunAll (E := Empty_set) aead w))) !! k = Some l' /\ lic_Status l' = StatusExpired.
Proof.
  intros Hq Hwf Hl Hdue.
  set (B := Between (w_db w) k l (w_clock w)). set (G := Reached k).
  assert (B w) as Hb by (split_and!; [done|lia|split; [done|exists l; auto]]).
  assert (forall m : M Empty_set unit, (forall I, allows I -> keeps I m) -> tame m ->
    (forall w1, B w1 -> B (snd (m w1))) /\ (forall w1, G w1 -> G (snd (m w1)))) as Hstep.
  { intros m Hk Hm. split; intros w1; [apply Between_step|apply Reached_step]; auto using allows_known, allows_expired. }
  destruct (Hstep _ (@allows_grace _ _) tame_grace) as [B1 G1].
  destruct (Hstep _ (@allows_trials _ _) tame_trials) as [B2 G2].
  destruct (Hstep _ (@allows_dunning _ _) tame_dunning) as [_ G3].
  enough (G (snd (MarkPastDueAsExpired (E := Empty_set) (snd (ExpireTrials (E := Empty_set)
    (snd (ExpireGracePeriodLicenses (E := Empty_set) w))))))) as Hg.
  { unfold RunAll. rewrite !run_seq.
    assert (keeps (row_expired k) (SendExpiryReminders (E := Empty_set) aead ;; SendRenewalReminders ;;
      SendPaymentFailureReminders ;; CleanupExpiredActivations ;; SyncSubscriptionStates)) as Hk
      by (apply keeps_rest; apply allows_expired).
    pose proof (Reached_step k _ _ Hk (tame_rest aead) Hg) as [_ Hr].
    rewrite !run_seq in Hr. exact Hr. }
  unfold due in Hdue. apply orb_true_iff in Hdue as [[Hd|Hd]%orb_true_iff|Hd].
  - by eapply G3, G2, grace_reaches.
  - by eapply G3, trial_reaches, B1.
  - by eapply dunning_reaches, B2, B1.
Qed.

(** ** Dunning messages *)

(** A record of a dunning message: the licence is past due since [pastDueAt]
    and has reached the step at instant [now]. *)
Definition dunning_record (db : DB) (now : Time) (x : string * string) : Prop :=
  exists l pastDueAt step, db_licenses db !! x.1 = Some l /\ lic_Status l = StatusPastDue /\
    lic_PastDueAt l = Some pastDueAt /\ step_reached (whole_days (Sub now pastDueAt)) = Some step /\
    x.2 = dunning_tag step pastDueAt.

Section dunning.
Context `{UUIDs} (w0 : World) (now : Time).
Context (rows_ok : forall k l, db_licenses (w_db w0) !! k = Some l -> lic_ID l = k).

Record Dunned (w : World) : Prop := mkDunned {
  du_quiet : quiet w;
  du_licenses : db_licenses (w_db w) = db_licenses (w_db w0);
  du_kept : db_notifications (w_db w0) ⊆ db_notifications (w_db w);
  du_records x : x ∈ db_notifications (w_db w) -> x ∈ db_notifications (w_db w0) \/ dunning_record (w_db w0) now x;
  du_paid : exists mails, w_events w = app (w_events w0) mails /\
    size (db_notifications (w_db w)) = (size (db_notifications (w_db w0)) + List.length mails)%nat }.

Lemma HasNotification_quiet {E} id tag w :
  quiet w -> HasNotification (E := E) id tag w = (Ok (bool_decide ((id, tag) ∈ db_notifications (w_db w))), w).
Proof.
  intros Hq. unfold HasNotification, mbind, M_bind, attempt. rewrite stmt_quiet by done. by rewrite set_db_same.
Qed.

Lemma RecordNotification_quiet {E} id tag w :
  quiet w -> present (db_licenses (w_db w) !! id) = true ->
  RecordNotification (E := E) id tag w
  = (Ok tt, set_db (add_notification id tag (w_db w)) (set_ids (S (w_ids w)) w)).
Proof.
  intros Hq Hp. unfold RecordNotification, mbind, M_bind, newID, ignore.
  rewrite stmt_quiet by done. simpl. by rewrite Hp.
Qed.

Lemma dun_step db k l w :
  db_licenses (w_db w0) !! k = Some l -> lic_Status l = StatusPastDue -> Dunned w ->
  Dunned (snd (dun (E := Empty_set) now (with_product db l) w)).
Proof.
  intros Hl Hst HD. pose proof HD as [Hq HL Hkept Hrec (mails & Hev & Hsize)].
  unfold dun. change (lic_PastDueAt (with_product db l)) with (lic_PastDueAt l).
  change (lic_ID (with_product db l)) with (lic_ID l).
  destruct (lic_PastDueAt l) as [p|] eqn:Hp; [|exact HD]. destruct (step_reached _) as [step|] eqn:Hstep; [|exact HD].
  cbv zeta. unfold mbind, M_bind. rewrite HasNotification_quiet by done.
  case_bool_decide as Hn; [exact HD|]. unfold emit, modify. rewrite (rows_ok _ _ Hl) in *.
  rewrite RecordNotification_quiet; [|done|by simpl; rewrite HL, Hl].
  split; simpl; [done|done|set_solver| |].
  - intros x [->%elem_of_singleton|Hx]%elem_of_union; [right|by apply Hrec]. by exists l, p, step.
  - exists (app mails [EvEmail (ds_template step) (lic_Email l) [product_name (with_product db l)]]).
    rewrite Hev, <- app_assoc. split; [done|]. rewrite length_app. simpl.
    rewrite size_union, size_singleton by set_solver. lia.
Qed.
End dunning.

(** Safety: a pass of the dunning ladder, when nothing fails, sends exactly as
    many messages as it adds records (licence, step and start of the episode),
    forgets no record, and records only a step that a past-due licence has
    reached.  So over any number of passes no message of a step is sent twice
    for one episode. *)
Theorem dunning_messages_recorded `{UUIDs} w :
  quiet w -> licenses_ok (w_db w) ->
  let w' := snd (SendPaymentFailureReminders (E := Empty_set) w) in
  db_notifications (w_db w) ⊆ db_notifications (w_db w') /\
  (exists mails, w_events w' = app (w_events w) mails /\
    size (db_notifications (w_db w')) = (size (db_notifications (w_db w)) + List.length mails)%nat) /\
  exists now, w_clock w <= now /\
    forall x, x ∈ db_notifications (w_db w') -> x ∈ db_notifications (w_db w) \/ dunning_record (w_db w) now x.
Proof.
  intros Hq Hok. unfold SendPaymentFailureReminders, find_past_due, mbind, M_bind, attempt, select_licenses.
  rewrite stmt_quiet, set_db_same by done.
  destruct (with_product (w_db w) <$> _) as [|lic ls] eqn:Els.
  { split_and!; [done|exists []; rewrite app_nil_r; split; [done|simpl; lia]|exists (w_clock w); split; [lia|auto]]. }
  destruct (time_Now_quiet (E := Empty_set) w Hq) as (now & w1 & -> & Hq1 & Edb & Hc & _ & Eev & _).
  assert (Dunned w now (snd (for_each (lic :: ls) (dun (E := Empty_set) now) w1))) as [_ _ H1 H2 H3].
  { apply for_each_inv.
    - intros x w2 Hx HD. rewrite <- Els in Hx. apply list_elem_of_fmap in Hx as (l & -> & (k & Hl & HP)%elem_of_rows).
      bool_facts. rewrite streq_true in *. apply (dun_step w now) with (k := k); try done. intros k' l' Hk'. by apply Hok.
    - split; rewrite ?Edb, ?Eev; try done; [auto|]. exists []. rewrite app_nil_r. split; [done|simpl; lia]. }
  split_and!; [done|done|]. exists now. split; [done|exact H2].
Qed.

(** ** Examples *)

(** [well_formed] is decidable. *)
Definition well_formed_check (db : DB) : bool :=
  bool_decide (map_Forall (fun k l => lic_ID l = k /\ t_check licenses db l = None) (db_licenses db)) &&
  bool_decide (map_Forall (fun k l => map_Forall (fun k' l' => k = k' \/ t_conflict licenses l' l = false)
    (db_licenses db)) (db_licenses db)) &&
  bool_decide (map_Forall (fun _ s => t_check subscriptions db s = None) (db_subscriptions db)).

Lemma well_formed_checked db : well_formed_check db = true -> well_formed db.
Proof.
  unfold well_formed_check. intros H. apply andb_true_iff in H as [[H1 H2]%andb_true_iff H3].
  apply bool_decide_eq_true in H1, H2, H3. split_and!.
  - intros k l Hk. by apply (H1 k l).
  - intros k k' l l' Hl Hl' Hne. by destruct (H2 k l Hl k' l' Hl').
  - intros k s Hk. by apply (H3 k s).
Qed.

#[local] Existing Instance ToyGCM.gcm.
#[local] Existing Instance Demo.uuids.

Module Overdue.
Definition lic (id key status : string) (until past_due : option Time) : License :=
  mkLicense id "prod-1" "plan-1" "" (id +:+ "@example.com") key (HashKey key) "" "stripe" "" "" status 0
    until None None past_due "" "" "" "" 0 0 None None.
Definition licences : gmap string License :=
  {["a" := lic "a" "K-A" StatusActive (Some (2 * Day)) None;
    "b" := lic "b" "K-B" StatusPastDue (Some (20 * Day)) (Some (2 * Day));
    "c" := lic "c" "K-C" StatusTrialing (Some (9 * Day)) None;
    "d" := lic "d" "K-D" StatusActive (Some (8 * Day)) None]}.
Definition db : DB := t_set licenses licences Demo.db.
Definition world (faults : list fault) : World := mkWorld db None (10 * Day) [5%N; 3%N] faults false 0 [] ∅ [].
End Overdue.

Lemma RunAll_well_formed_witness :
  well_formed Overdue.db /\ well_formed (w_db (snd (RunAll (E := Empty_set) None (Overdue.world [NoFault; NoFault; Lost true])))).
Proof.
  assert (well_formed Overdue.db) as Hwf by (apply well_formed_checked; vm_compute; reflexivity).
  split; [exact Hwf|]. exact (RunAll_well_formed None (Overdue.world [NoFault; NoFault; Lost true]) Hwf eq_refl).
Defined.

Lemma RunAll_expires_only_due_witness :
  exists u, 10 * Day <= u <= 10 * Day + 8 /\
    due Overdue.db u (Overdue.lic "c" "K-C" StatusTrialing (Some (9 * Day)) None) = true.
Proof.
  assert (well_formed Overdue.db) as Hwf by (apply well_formed_checked; vm_compute; reflexivity).
  pose proof (RunAll_expires_only_due None (Overdue.world []) "c" Hwf eq_refl) as H. cbv zeta in H.
  assert (w_clock (snd (RunAll (E := Empty_set) None (Overdue.world []))) = 10 * Day + 8) as Hc by (vm_compute; reflexivity).
  destruct (db_licenses (w_db (snd (RunAll (E := Empty_set) None (Overdue.world [])))) !! "c") as [l'|] eqn:E;
    [|exfalso; vm_compute in E; discriminate E].
  destruct H as [H|(u & v & _ & Hu & Hd)].
  - exfalso. rewrite H in E. vm_compute in E. discriminate E.
  - exists u. rewrite Hc in Hu. split; [exact Hu|exact Hd].
Defined.

Lemma RunAll_expires_all_due_witness :
  exists l', db_licenses (w_db (snd (RunAll (E := Empty_set) None (Overdue.world [])))) !! "a" = Some l' /\
    lic_Status l' = StatusExpired.
Proof.
  refine (RunAll_expires_all_due None (Overdue.world []) "a" (Overdue.lic "a" "K-A" StatusActive (Some (2 * Day)) None) _ _ _ _).
  - split; reflexivity.
  - apply well_formed_checked. vm_compute. reflexivity.
  - vm_compute. reflexivity.
  - vm_compute. reflexivity.
Defined.

Lemma dunning_messages_recorded_witness :
  let w' := snd (SendPaymentFailureReminders (E := Empty_set) (Overdue.world [])) in
  w_events w' = [EvEmail "dunning_second" "b@example.com" ["Editor"]] /\
  exists mails, w_events w' = app (w_events (Overdue.world [])) mails /\
    size (db_notifications (w_db w')) = (size (db_notifications Overdue.db) + List.length mails)%nat.
Proof.
  split; [vm_compute; reflexivity|].
  refine (proj1 (proj2 (dunning_messages_recorded (Overdue.world []) _ _))).
  - split; reflexivity.
  - assert (well_formed Overdue.db) as Hwf by (apply well_formed_checked; vm_compute; reflexivity). apply Hwf.
Defined.
