(* ===== verification/EmailQueue.v ===== *)
(** * The message queue ([store/store.go], [service/email.go])

    Messages that carry a licence key are queued as rows and sent by a
    periodic pass, oldest first.  A message that cannot be sent waits twice as
    long each time and fails after its last attempt.  What the SMTP server
    answers is an argument that may depend on everything before it. *)

From S2P Require Import Prelude GoStrings Errors Model World Tables Logic Progress Store.
From Stdlib Require Import Ascii String.

#[local] Open Scope string_scope.
#[local] Open Scope Z_scope.

Definition qe_sent (now : Time) (e : QueuedEmail) : QueuedEmail :=
  mkQueuedEmail (qe_ID e) (qe_ToAddr e) (qe_Subject e) (qe_Body e) (qe_Attempts e + 1) (qe_MaxAttempts e)
    "sent" (qe_NextRetry e) (qe_Error e) (qe_CreatedAt e) (Some now).

(** [now() + (interval '1 minute' * power(2, attempts))]. *)
Definition qe_failed (errMsg : string) (now : Time) (e : QueuedEmail) : QueuedEmail :=
  mkQueuedEmail (qe_ID e) (qe_ToAddr e) (qe_Subject e) (qe_Body e) (qe_Attempts e + 1) (qe_MaxAttempts e)
    (if qe_MaxAttempts e <=? qe_Attempts e + 1 then "failed" else "pending")
    (if qe_Attempts e + 1 <? qe_MaxAttempts e then Some (now + Minute * 2 ^ qe_Attempts e) else None)
    errMsg (qe_CreatedAt e) (qe_SentAt e).

Definition is_email (id : string) (e : QueuedEmail) : bool := streq (qe_ID e) id.

Section store.
Context `{UUIDs}.

Definition EnqueueEmail (to subject body : string) : M goerr unit :=
  id ← newID;
  now ← sql_now;
  sql_insert email_queue id (mkQueuedEmail id to subject body 0 5 "pending" None "" now None).

(** [next_retry IS NULL OR next_retry <= now()]. *)
Definition due_email (now : Time) (e : QueuedEmail) : bool :=
  streq (qe_Status e) "pending" && match qe_NextRetry e with None => true | Some t => t <=? now end.

Definition ListPendingEmails (limit : Z) : M goerr (list QueuedEmail) :=
  now ← sql_now;
  sql_select_ordered email_queue (due_email now) qe_CreatedAt (Z.to_nat limit).

Definition MarkEmailSent {E} (id : string) : M E unit :=
  now ← sql_now; ignore (sql_update email_queue (is_email id) (qe_sent now)).

Definition MarkEmailFailed {E} (id errMsg : string) : M E unit :=
  now ← sql_now; ignore (sql_update email_queue (is_email id) (qe_failed errMsg now)).
End store.

(** ** The pass *)

Section pass.
Context (enabled : bool) (smtp : list Event -> QueuedEmail -> option goerr).

(** [s.Send]: a service that is not configured answers [nil]. *)
Definition Send {E} (e : QueuedEmail) : M E (option goerr) := fun w =>
  if enabled
  then (Ok (smtp (w_events w) e), set_events (app (w_events w) [EvEmail "queued" (qe_ToAddr e) [qe_Subject e; qe_Body e]]) w)
  else (Ok None, w).

Definition send_queued {E} (e : QueuedEmail) : M E unit :=
  r ← Send e;
  match r with
  | Some err => MarkEmailFailed (qe_ID e) (goerr_Error err)
  | None => MarkEmailSent (qe_ID e)
  end.

Definition processQueue {E} : M E unit :=
  r ← attempt (ListPendingEmails 20);
  match r with
  | Err _ => mret tt
  | Ok emails => for_each emails send_queued
  end.
End pass.
