(* ===== verification/Base64.v ===== *)
(** * [base64.StdEncoding]

    The padded standard alphabet, as [encoding/base64] encodes and decodes it,
    with its round trip.  Signatures and public keys of releases travel in
    it. *)

From S2P Require Import Prelude GoStrings Crypto.
From Stdlib Require Import Ascii String.

#[local] Open Scope string_scope.
#[local] Open Scope Z_scope.

Module Std.
Definition char_of (n : Z) : ascii :=
  chr (if n <? 26 then 65 + n else if n <? 52 then 71 + n else if n <? 62 then n - 4
       else if n =? 62 then 43 else 47).

Definition value_of (c : ascii) : option Z :=
  if is_upper c then Some (ord c - 65)
  else if is_lower c then Some (ord c - 71)
  else if is_digit c then Some (ord c + 4)
  else if Ascii.eqb c "+" then Some 62
  else if Ascii.eqb c "/" then Some 63
  else None.

Fixpoint EncodeToString (s : string) : string :=
  match s with
  | "" => ""
  | String a "" =>
      String (char_of (ord a / 4)) (String (char_of (ord a mod 4 * 16)) "==")
  | String a (String b "") =>
      String (char_of (ord a / 4)) (String (char_of (ord a mod 4 * 16 + ord b / 16))
        (String (char_of (ord b mod 16 * 4)) "="))
  | String a (String b (String c s')) =>
      String (char_of (ord a / 4)) (String (char_of (ord a mod 4 * 16 + ord b / 16))
        (String (char_of (ord b mod 16 * 4 + ord c / 64))
          (String (char_of (ord c mod 64)) (EncodeToString s'))))
  end.

(** Quanta of four characters; padding only closes the text.  The unused low
    bits before the padding are not checked. *)
Fixpoint quanta (s : string) : option string :=
  match s with
  | "" => Some ""
  | String p (String q (String r (String t s'))) =>
      p ← value_of p; q ← value_of q;
      if Ascii.eqb r "=" then
        if Ascii.eqb t "=" && bool_decide (s' = "")
        then Some (String (chr (p * 4 + q / 16)) "") else None
      else
        r ← value_of r;
        if Ascii.eqb t "=" then
          if bool_decide (s' = "")
          then Some (String (chr (p * 4 + q / 16)) (String (chr (q mod 16 * 16 + r / 4)) "")) else None
        else
          t ← value_of t; rest ← quanta s';
          Some (String (chr (p * 4 + q / 16)) (String (chr (q mod 16 * 16 + r / 4))
            (String (chr (r mod 4 * 64 + t)) rest)))
  | _ => None
  end.

(** Line breaks are skipped. *)
Definition DecodeString (s : string) : option string :=
  quanta (sfilter (fun c => negb (is_newline c)) s).

(** ** Round trip *)

Definition sextet_char (n : Z) : bool :=
  bool_decide (value_of (char_of n) = Some n) && negb (is_newline (char_of n))
  && negb (Ascii.eqb (char_of n) "=").

Lemma sextet_chars n : 0 <= n < 64 ->
  value_of (char_of n) = Some n /\ negb (is_newline (char_of n)) = true
  /\ Ascii.eqb (char_of n) "=" = false.
Proof.
  intros Hn. assert (sextet_char n = true) as H.
  { revert n Hn. apply (forall_range sextet_char 64). vm_compute. done. }
  unfold sextet_char in H. bool_facts. by rewrite H, H1.
Qed.

Lemma value_char n : 0 <= n < 64 -> value_of (char_of n) = Some n.
Proof. apply sextet_chars. Qed.
Lemma no_pad n : 0 <= n < 64 -> Ascii.eqb (char_of n) "=" = false.
Proof. apply sextet_chars. Qed.
Lemma no_break n : 0 <= n < 64 -> negb (is_newline (char_of n)) = true.
Proof. apply sextet_chars. Qed.

Lemma Encode_no_break s : sall (fun c => negb (is_newline c)) (EncodeToString s) = true.
Proof.
  induction s as [|a|a b|a b c s IH] using string_ind3; cbn [EncodeToString sall]; [done|..];
    rewrite !no_break by sextets; done.
Qed.

Ltac same_byte :=
  match goal with |- chr ?z = ?c => transitivity (chr (ord c)); [f_equal; sextets|apply chr_ord] end.

Lemma quanta_Encode s : quanta (EncodeToString s) = Some s.
Proof.
  induction s as [|a|a b|a b c s IH] using string_ind3; [done|..];
    cbn [EncodeToString quanta]; rewrite !value_char by sextets; cbn [mbind option_bind];
    rewrite ?no_pad, ?value_char by sextets; cbn [mbind option_bind];
    rewrite ?no_pad, ?value_char by sextets; cbn [mbind option_bind]; simpl;
    try (rewrite IH; simpl); repeat f_equal; same_byte.
Qed.

Lemma Decode_Encode s : DecodeString (EncodeToString s) = Some s.
Proof.
  unfold DecodeString. rewrite sfilter_all by apply Encode_no_break. apply quanta_Encode.
Qed.

Lemma len_Encode s : len (EncodeToString s) = (len s + 2) / 3 * 4.
Proof.
  induction s as [|a|a b|a b c s IH] using string_ind3; [done..|].
  unfold len in *. cbn [EncodeToString String.length]. Z.to_euclidean_division_equations; lia.
Qed.

Lemma Encode_nonempty s : s <> "" -> EncodeToString s <> "".
Proof. destruct s as [|a [|b [|c s]]]; cbn; congruence. Qed.

Lemma char_of_range n : 0 <= n < 64 ->
  (fun c => is_upper c || is_lower c || is_digit c || Ascii.eqb c "+" || Ascii.eqb c "/") (char_of n) = true.
Proof.
  intros Hn. revert n Hn.
  apply (forall_range (fun n => is_upper (char_of n) || is_lower (char_of n) || is_digit (char_of n)
    || Ascii.eqb (char_of n) "+" || Ascii.eqb (char_of n) "/") 64). vm_compute. done.
Qed.
End Std.

Example std_padding :
  Std.EncodeToString "light work." = "bGlnaHQgd29yay4=" /\ Std.EncodeToString "ab?>" = "YWI/Pg=="
  /\ Std.DecodeString "YWI/Pg" = None /\ Std.DecodeString "YW=/" = None.
Proof. vm_compute. done. Qed.
