(* ===== verification/ReleaseStore.v ===== *)
(** * Releases, artifacts and signing keys in the store
      ([store/release.go], [store/release_signing.go])

    A release goes from draft to published, and between published and yanked;
    its artifacts, one per platform, can only change while it is a draft.
    Each statement below is the SQL of the source; the transactions that lock
    the parent release run alone ([World.v]). *)

From S2P Require Import Prelude GoStrings Errors Model Crypto World Tables Logic Store.
From Stdlib Require Import Ascii String.

#[local] Open Scope string_scope.
#[local] Open Scope Z_scope.

(** ** Error values: distinct texts stand for the distinct [errors.New] values *)

Definition ErrReleaseNotFound := ErrText "release not found".
Definition ErrReleaseAlreadyExists := ErrText "release with same product/version already exists".
Definition ErrReleaseNotPublishable := ErrText "release is not in a publishable state".
Definition ErrReleaseNotYankable := ErrText "release is not in a yankable state".
Definition ErrReleaseNotDeletable := ErrText "only draft releases can be deleted".
Definition ErrReleaseNoArtifacts := ErrText "release has no artifacts".
Definition ErrReleaseArtifactsNotReady := ErrText "one or more artifacts have not finished uploading".
Definition ErrReleaseArtifactsNotSigned := ErrText "one or more artifacts are missing required signatures".
Definition ErrArtifactNotFound := ErrText "release artifact not found".
Definition ErrArtifactAlreadyExists := ErrText "release already has an artifact for this platform".
Definition ErrSigningKeyNotFound := ErrText "release signing key not found".
Definition ErrActiveSigningKeyMissing := ErrText "no active signing key for product".
Definition ErrSigningKeyAlreadyActive :=
  ErrText "product already has an active signing key; rotate instead of create".

(** [if errors.Is(err, sql.ErrNoRows) { return sentinel }]. *)
Definition no_rows (sentinel e : goerr) : goerr := if goerr_Is e ErrNoRows then sentinel else e.
(** [if isUniqueViolation(err) { return sentinel }]. *)
Definition on_unique (sentinel e : goerr) : goerr := if isUniqueViolation (Some e) then sentinel else e.

(** ** Rows *)

Definition owned (releaseID : string) (a : ReleaseArtifact) : bool := streq (art_ReleaseID a) releaseID.

(** [Relation("Artifacts")], in the order the server answers. *)
Definition artifacts_of (releaseID : string) (db : DB) : list ReleaseArtifact :=
  (map_to_list (rows (owned releaseID) (db_release_artifacts db))).*2.

Definition rel_with_relations (r : Release) (p : option Product) (arts : list ReleaseArtifact) : Release :=
  mkRelease (rel_ID r) (rel_ProductID r) (rel_Version r) (rel_Channel r) (rel_Name r) (rel_ReleaseNotes r)
    (rel_Status r) (rel_YankedReason r) (rel_PublishedAt r) (rel_YankedAt r) (rel_CreatedAt r)
    (rel_UpdatedAt r) p arts.

Definition with_artifacts (db : DB) (r : Release) : Release :=
  rel_with_relations r None (artifacts_of (rel_ID r) db).
Definition with_product_artifacts (db : DB) (r : Release) : Release :=
  rel_with_relations r (db_products db !! rel_ProductID r) (artifacts_of (rel_ID r) db).

Definition rel_set_status (status reason : string) (published yanked : option Time) (now : Time) (r : Release) :
    Release :=
  mkRelease (rel_ID r) (rel_ProductID r) (rel_Version r) (rel_Channel r) (rel_Name r) (rel_ReleaseNotes r)
    status reason published yanked (rel_CreatedAt r) now None [].

Definition art_set_file (fileKey : string) (size : Z) (sha256 contentType : string) (now : Time)
    (a : ReleaseArtifact) : ReleaseArtifact :=
  mkArtifact (art_ID a) (art_ReleaseID a) (art_Platform a) fileKey size sha256 "" contentType None
    (art_CreatedAt a) now.

Definition art_set_signature (sig : string) (keyID : string) (now : Time) (a : ReleaseArtifact) :
    ReleaseArtifact :=
  mkArtifact (art_ID a) (art_ReleaseID a) (art_Platform a) (art_FileKey a) (art_FileSize a) (art_SHA256 a)
    sig (art_ContentType a) (Some keyID) (art_CreatedAt a) now.

Definition sk_retire (note : string) (now : Time) (k : ReleaseSigningKey) : ReleaseSigningKey :=
  mkSigningKey (sk_ID k) (sk_ProductID k) (sk_PublicKey k) (sk_PrivateKeyEncrypted k) false note
    (sk_CreatedAt k) (Some now).

(** A column default for the zero value ([nullzero]). *)
Definition or_default (d s : string) : string := if streq s "" then d else s.

(** ** Releases *)

Record ReleaseFilter := mkReleaseFilter {
  f_ProductID : string; f_Channel : string; f_Status : string; f_Limit : Z; f_Offset : Z
}.

Definition MaxFeedListLimit : Z := 5000.

Section store.
Context `{UUIDs}.

Definition CreateRelease (r : Release) : M goerr Release :=
  id ← fresh_id (rel_ID r);
  now ← sql_now;
  let row := mkRelease id (rel_ProductID r) (rel_Version r) (or_default ReleaseChannelStable (rel_Channel r))
    (rel_Name r) (rel_ReleaseNotes r) (or_default ReleaseStatusDraft (rel_Status r)) (rel_YankedReason r)
    (rel_PublishedAt r) (rel_YankedAt r) now now None [] in
  map_err (on_unique ErrReleaseAlreadyExists) (sql_insert releases id row) ;;
  mret row.

Definition GetReleaseProductID (id : string) : M goerr string :=
  r ← sql_select_one releases (fun r => streq (rel_ID r) id); mret (rel_ProductID r).

Definition select_release (load : DB -> Release -> Release) (P : Release -> bool) : M goerr Release :=
  map_err (no_rows ErrReleaseNotFound) (stmt (fun db =>
    match first_row (rows P (db_releases db)) with
    | Some r => Ok (load db r, db)
    | None => Err ErrNoRows
    end)).

Definition FindReleaseByID (id : string) : M goerr Release :=
  select_release with_product_artifacts (fun r => streq (rel_ID r) id).

Definition FindReleaseByVersion (productID version : string) : M goerr Release :=
  select_release with_artifacts (fun r => streq (rel_ProductID r) productID && streq (rel_Version r) version).

Definition release_matches (f : ReleaseFilter) (r : Release) : bool :=
  (streq (f_ProductID f) "" || streq (rel_ProductID r) (f_ProductID f))
  && (streq (f_Channel f) "" || streq (rel_Channel r) (f_Channel f))
  && (streq (f_Status f) "" || streq (rel_Status r) (f_Status f)).

(** [ORDER BY key DESC, id DESC]; identifiers compare bytewise, and a NULL key
    comes first. *)
Definition newest_first (key : Release -> option Time) (r r' : Release) : bool :=
  match key r, key r' with
  | None, Some _ => true
  | Some _, None => false
  | Some t, Some t' => (t' <? t) || ((t =? t') && String.leb (rel_ID r') (rel_ID r))
  | None, None => String.leb (rel_ID r') (rel_ID r)
  end.

Definition ListReleases (f : ReleaseFilter) : M goerr (list Release) :=
  let limit := if (f_Limit f <=? 0) || (200 <? f_Limit f) then 50 else f_Limit f in
  let offset := Z.max (f_Offset f) 0 in
  stmt (fun db =>
    let sorted := sort_le (newest_first (fun r => Some (rel_CreatedAt r)))
                    (map_to_list (rows (release_matches f) (db_releases db))).*2 in
    Ok (with_product_artifacts db <$> take (Z.to_nat limit) (drop (Z.to_nat offset) sorted), db)).

Definition CountReleases (f : ReleaseFilter) : M goerr Z := sql_count releases (release_matches f).

(** *** The publish gate *)

Definition unfinished (a : ReleaseArtifact) : bool :=
  streq (art_FileKey a) "" || streq (art_SHA256 a) "".
Definition unsigned (a : ReleaseArtifact) : bool :=
  streq (art_Ed25519Sig a) "" || negb (present (art_SigningKeyID a)).

Definition publish_gate (requireSignatures : bool) (db : DB) (r : Release) : bool :=
  let some P := row_exists (fun a => owned (rel_ID r) a && P a) (db_release_artifacts db) in
  streq (rel_Status r) ReleaseStatusDraft
  && some (fun _ => true)
  && negb (some unfinished)
  && (negb requireSignatures || negb (some unsigned)).

Definition publish_row (now : Time) (r : Release) : Release :=
  rel_set_status ReleaseStatusPublished (rel_YankedReason r) (Some now) (rel_YankedAt r) now r.

Definition publish_update (id : string) (requireSignatures : bool) (now : Time) (db : DB) :
    result goerr (Z * DB) :=
  let hit r := streq (rel_ID r) id && publish_gate requireSignatures db r in
  Ok (count hit (db_releases db), t_set releases (update_rows hit (publish_row now) (db_releases db)) db).

Definition diagnoseUnpublishable {A} (id : string) (requireSignatures : bool) : M goerr A :=
  r ← map_err (no_rows ErrReleaseNotFound) (sql_select_one releases (fun r => streq (rel_ID r) id));
  if negb (streq (rel_Status r) ReleaseStatusDraft) then throw ErrReleaseNotPublishable
  else
    total ← sql_count release_artifacts (owned id);
    if total =? 0 then throw ErrReleaseNoArtifacts
    else
      unfinished ← sql_count release_artifacts (fun a => owned id a && unfinished a);
      if 0 <? unfinished then throw ErrReleaseArtifactsNotReady
      else if requireSignatures then
        unsigned ← sql_count release_artifacts (fun a => owned id a && unsigned a);
        if 0 <? unsigned then throw ErrReleaseArtifactsNotSigned else throw ErrReleaseNotPublishable
      else throw ErrReleaseNotPublishable.

Definition PublishRelease (id : string) (requireSignatures : bool) : M goerr unit :=
  now ← sql_now;
  n ← stmt (publish_update id requireSignatures now);
  if n =? 0 then diagnoseUnpublishable id requireSignatures else mret tt.

(** *** Yank and unyank *)

Definition classifyReleaseUpdateMiss {A} (id : string) (defaultErr : goerr) : M goerr A :=
  r ← attempt (sql_select_one releases (fun r => streq (rel_ID r) id));
  match r with
  | Err e => throw (no_rows ErrReleaseNotFound e)
  | Ok _ => throw defaultErr
  end.

Definition in_status (id status : string) (r : Release) : bool :=
  streq (rel_ID r) id && streq (rel_Status r) status.

Definition YankRelease (id reason : string) : M goerr unit :=
  now ← sql_now;
  n ← sql_update_where releases (in_status id ReleaseStatusPublished)
        (fun r => rel_set_status ReleaseStatusYanked reason (rel_PublishedAt r) (Some now) now r);
  if n =? 0 then classifyReleaseUpdateMiss id ErrReleaseNotYankable else mret tt.

Definition UnyankRelease (id : string) : M goerr unit :=
  now ← sql_now;
  n ← sql_update_where releases (in_status id ReleaseStatusYanked)
        (fun r => rel_set_status ReleaseStatusPublished "" (rel_PublishedAt r) None now r);
  if n =? 0 then classifyReleaseUpdateMiss id ErrReleaseNotYankable else mret tt.

Definition UpdateReleaseNotes (id name notes : string) : M goerr unit :=
  now ← sql_now;
  n ← sql_update_where releases (fun r => streq (rel_ID r) id)
        (fun r => mkRelease (rel_ID r) (rel_ProductID r) (rel_Version r) (rel_Channel r) name notes
           (rel_Status r) (rel_YankedReason r) (rel_PublishedAt r) (rel_YankedAt r) (rel_CreatedAt r) now None []);
  if n =? 0 then throw ErrReleaseNotFound else mret tt.

(** *** Deletion of a draft: [ON DELETE CASCADE] takes its artifacts *)

Definition delete_draft (id : string) (db : DB) : result goerr (unit * DB) :=
  let hit := in_status id ReleaseStatusDraft in
  let db' := t_set releases (delete_rows hit (db_releases db)) db in
  Ok (tt, if row_exists hit (db_releases db)
          then t_set release_artifacts (delete_rows (owned id) (db_release_artifacts db)) db' else db').

Definition DeleteRelease (id : string) : M goerr (list string) := with_tx (
  r ← map_err (no_rows ErrReleaseNotFound) (sql_select_one releases (fun r => streq (rel_ID r) id));
  if negb (streq (rel_Status r) ReleaseStatusDraft) then throw ErrReleaseNotDeletable
  else
    keys ← sql_select release_artifacts (fun a => owned id a && negb (streq (art_FileKey a) ""));
    stmt (delete_draft id) ;;
    commit_tx ;;
    mret (art_FileKey <$> keys)).

(** *** Feeds *)

Definition feed_row (productID channel platform : string) (db : DB) (r : Release) : bool :=
  streq (rel_ProductID r) productID && streq (rel_Channel r) channel
  && streq (rel_Status r) ReleaseStatusPublished
  && (streq platform ""
      || row_exists (fun a => owned (rel_ID r) a && streq (art_Platform a) platform
                              && negb (streq (art_FileKey a) "") && negb (streq (art_SHA256 a) ""))
           (db_release_artifacts db)).

Definition ListPublishedReleasesForFeed (productID channel platform : string) (limit : Z) :
    M goerr (list Release) :=
  let limit := if limit <=? 0 then 20 else limit in
  let limit := if MaxFeedListLimit <? limit then MaxFeedListLimit else limit in
  stmt (fun db =>
    let sorted := sort_le (newest_first rel_PublishedAt)
                    (map_to_list (rows (feed_row productID channel platform db) (db_releases db))).*2 in
    Ok (with_artifacts db <$> take (Z.to_nat limit) sorted, db)).

(** ** Artifacts *)

(** [SELECT status FROM releases WHERE id = ? FOR UPDATE], the status tested. *)
Definition lock_draft (releaseID : string) : M goerr unit :=
  r ← map_err (no_rows ErrReleaseNotFound) (sql_select_one releases (fun r => streq (rel_ID r) releaseID));
  if negb (streq (rel_Status r) ReleaseStatusDraft) then throw ErrReleaseNotPublishable else mret tt.

Definition CreateArtifact (a : ReleaseArtifact) : M goerr ReleaseArtifact :=
  id ← fresh_id (art_ID a);
  with_tx (
    lock_draft (art_ReleaseID a) ;;
    now ← sql_now;
    let row := mkArtifact id (art_ReleaseID a) (art_Platform a) (art_FileKey a) (art_FileSize a) (art_SHA256 a)
      (art_Ed25519Sig a) (or_default "application/octet-stream" (art_ContentType a)) (art_SigningKeyID a)
      now now in
    map_err (on_unique ErrArtifactAlreadyExists) (sql_insert release_artifacts id row) ;;
    commit_tx ;;
    mret row).

Definition FindArtifact (id : string) : M goerr ReleaseArtifact :=
  map_err (no_rows ErrArtifactNotFound) (sql_select_one release_artifacts (fun a => streq (art_ID a) id)).

Definition FindArtifactByPlatform (releaseID platform : string) : M goerr ReleaseArtifact :=
  map_err (no_rows ErrArtifactNotFound)
    (sql_select_one release_artifacts (fun a => owned releaseID a && streq (art_Platform a) platform)).

(** [release_artifacts ra JOIN releases r ON r.id = ra.release_id WHERE ra.id = ?]. *)
Definition join_release (id : string) (db : DB) : result goerr ((Release * ReleaseArtifact) * DB) :=
  match (a ← first_row (rows (fun a => streq (art_ID a) id) (db_release_artifacts db));
         r ← first_row (rows (fun r => streq (rel_ID r) (art_ReleaseID a)) (db_releases db));
         Some (r, a)) with
  | Some ra => Ok (ra, db)
  | None => Err ErrNoRows
  end.

(** The same with [FOR UPDATE], the release's status tested. *)
Definition lock_parent_draft (id : string) : M goerr ReleaseArtifact :=
  ra ← map_err (no_rows ErrArtifactNotFound) (stmt (join_release id));
  let '(r, a) := (ra : Release * ReleaseArtifact) in
  if negb (streq (rel_Status r) ReleaseStatusDraft) then throw ErrReleaseNotPublishable else mret a.

Definition UpdateArtifactFile (id fileKey : string) (size : Z) (sha256 contentType : string) : M goerr unit :=
  with_tx (
    lock_parent_draft id ;;
    now ← sql_now;
    sql_update_where release_artifacts (fun a => streq (art_ID a) id)
      (art_set_file fileKey size sha256 contentType now) ;;
    commit_tx).

Definition UpdateArtifactSignature (id sig signingKeyID : string) : M goerr unit :=
  now ← sql_now;
  n ← sql_update_where release_artifacts (fun a => streq (art_ID a) id)
        (art_set_signature sig signingKeyID now);
  if n =? 0 then throw ErrArtifactNotFound else mret tt.

Definition DeleteArtifact (id : string) : M goerr string := with_tx (
  a ← lock_parent_draft id;
  sql_delete release_artifacts (fun a => streq (art_ID a) id) ;;
  commit_tx ;;
  mret (art_FileKey a)).

(** ** Signing keys *)

Definition key_row (id : string) (now : Time) (k : ReleaseSigningKey) : ReleaseSigningKey :=
  mkSigningKey id (sk_ProductID k) (sk_PublicKey k) (sk_PrivateKeyEncrypted k) (sk_Active k) (sk_Note k)
    now (sk_RotatedAt k).

Definition CreateSigningKey (k : ReleaseSigningKey) : M goerr ReleaseSigningKey :=
  id ← fresh_id (sk_ID k);
  now ← sql_now;
  map_err (on_unique ErrSigningKeyAlreadyActive) (sql_insert signing_keys id (key_row id now k)) ;;
  mret (key_row id now k).

Definition active_key (productID : string) (k : ReleaseSigningKey) : bool :=
  streq (sk_ProductID k) productID && sk_Active k.

Definition FindActiveSigningKey (productID : string) : M goerr ReleaseSigningKey :=
  map_err (no_rows ErrActiveSigningKeyMissing) (sql_select_one signing_keys (active_key productID)).

Definition FindSigningKeyByID (id : string) : M goerr ReleaseSigningKey :=
  map_err (no_rows ErrSigningKeyNotFound) (sql_select_one signing_keys (fun k => streq (sk_ID k) id)).

(** [ORDER BY active DESC, created_at DESC]. *)
Definition active_newest_first (k k' : ReleaseSigningKey) : bool :=
  match sk_Active k, sk_Active k' with
  | true, false => true
  | false, true => false
  | _, _ => sk_CreatedAt k' <=? sk_CreatedAt k
  end.

Definition ListSigningKeys (productID : string) : M goerr (list ReleaseSigningKey) := stmt (fun db =>
  Ok (take 200 (sort_le active_newest_first
    (map_to_list (rows (fun k => streq (sk_ProductID k) productID) (db_signing_keys db))).*2), db)).

Definition RotateSigningKey (newKey : ReleaseSigningKey) (note : string) : M goerr ReleaseSigningKey :=
  id ← fresh_id (sk_ID newKey);
  with_tx (
    map_err (ErrWrap "acquire rotate lock") sql_lock ;;
    now ← time_Now;
    sql_update_where signing_keys (active_key (sk_ProductID newKey)) (sk_retire note now) ;;
    created ← sql_now;
    let row := mkSigningKey id (sk_ProductID newKey) (sk_PublicKey newKey) (sk_PrivateKeyEncrypted newKey)
      true (sk_Note newKey) created (sk_RotatedAt newKey) in
    map_err (on_unique ErrSigningKeyAlreadyActive) (sql_insert signing_keys id row) ;;
    commit_tx ;;
    mret row).

Definition DeactivateSigningKey (id note : string) : M goerr unit :=
  now ← sql_now;
  n ← sql_update_where signing_keys (fun k => streq (sk_ID k) id && sk_Active k) (sk_retire note now);
  if n =? 0 then
    FindSigningKeyByID id ;;
    throw (ErrText "signing key is already inactive")
  else mret tt.

(** [FindProductByID] and [FindProductBySlug] of [store/admin.go]. *)
Definition FindProductByID (id : string) : M goerr Product := stmt (fun db =>
  match first_row (rows (fun p => streq (prod_ID p) id) (db_products db)) with
  | Some p => Ok (p, db)
  | None => Err ErrNoRows
  end).

Definition FindProductBySlug (slug : string) : M goerr Product := stmt (fun db =>
  match first_row (rows (fun p => streq (prod_Slug p) slug) (db_products db)) with
  | Some p => Ok (p, db)
  | None => Err ErrNoRows
  end).
End store.
