(* ===== verification/Release.v ===== *)
(** * Release publishing ([service/release.go], [service/release_signing.go])

    The release service over [ReleaseStore.v], with the per-product Ed25519
    signing keys kept encrypted at rest.  The object storage is the interface
    [Storage]: its answers are arbitrary and may change from one call to the
    next (they are indexed by the calls made so far).  golang.org/x/mod/semver
    is the interface [Semver] with its documented order. *)

From S2P Require Import Prelude GoStrings Errors Model Crypto Base64 World Tables Logic Usability AesGcm Store.
From S2P Require Import Webhook LicenseService ReleaseStore.
From Stdlib Require Import Ascii String.

#[local] Open Scope string_scope.
#[local] Open Scope Z_scope.

(** ** Interfaces *)

Class Semver := {
  semver_IsValid : string -> bool;
  semver_Compare : string -> string -> Z;
  semver_Compare_sym v w : semver_Compare v w = - semver_Compare w v;
  semver_Compare_trans u v w :
    0 <= semver_Compare u v -> 0 <= semver_Compare v w -> 0 <= semver_Compare u w
}.

Record ObjectInfo := mkObjectInfo { oi_Size : Z; oi_ContentType : string }.

Definition ErrObjectNotFound := ErrText "storage: object not found".
Definition ErrStorageDisabled := ErrText "storage: subsystem not configured".

(** The first argument is the number of effects that came before the call.
    [Get] answers the bytes the body yields and the error that ends it. *)
Class Storage := {
  st_PresignedPut : nat -> string -> string -> Z -> Duration -> result goerr string;
  st_PresignedGet : nat -> string -> string -> Duration -> result goerr string;
  st_Head : nat -> string -> result goerr ObjectInfo;
  st_Exists : nat -> string -> result goerr bool;
  st_Get : nat -> string -> result goerr (string * option goerr);
  st_Delete : nat -> string -> result goerr unit
}.

Definition storage_call {A} (op key : string) (answer : nat -> result goerr A) : M goerr A := fun w =>
  (answer (List.length (w_events w)), set_events (w_events w ++ [EvStorage op key]) w).

(** [storage.Disabled]. *)
Definition Disabled : Storage := {|
  st_PresignedPut _ _ _ _ _ := Err ErrStorageDisabled;
  st_PresignedGet _ _ _ _ := Err ErrStorageDisabled;
  st_Head _ _ := Err ErrStorageDisabled;
  st_Exists _ _ := Err ErrStorageDisabled;
  st_Get _ _ := Err ErrStorageDisabled;
  st_Delete _ _ := Err ErrStorageDisabled
|}.

(** [io.LimitReader(body, limit)] read to its end: past [limit] bytes the rest
    of the body, and its error, are not seen. *)
Definition limited (limit : Z) (body : string * option goerr) : string * option goerr :=
  let '(bytes, err) := body in
  if limit <=? len bytes then (stake (Z.to_nat limit) bytes, None) else (bytes, err).

(** [fmt]'s [%q] of a plain identifier. *)
Definition quoted (s : string) : string := String (chr 34) s +:+ String (chr 34) "".

(** ** Names *)

Definition allowedPlatforms : list string :=
  ["darwin-arm64"; "darwin-x64"; "windows-arm64"; "windows-x64"; "linux-arm64"; "linux-x64"; "linux-armhf"].

Definition IsValidPlatform (p : string) : bool := bool_decide (p ∈ allowedPlatforms).

Definition invalidPlatformError : string :=
  "invalid platform (allowed: " +:+ String.concat ", " allowedPlatforms +:+ ")".

Definition validatePlatform (p : string) : option string :=
  if IsValidPlatform p then None else Some invalidPlatformError.

Definition HasSuffix (s suffix : string) : bool := HasPrefix (srev s) (srev suffix).

(** [path.Ext]: from the last dot of the last path element. *)
Definition path_Ext (p : string) : string :=
  let element := match split_last "/" p with Some (_, e) => e | None => p end in
  match split_last "." element with Some (_, e) => String "." e | None => "" end.

Definition normalizeExt (filename : string) : string :=
  let lower := ToLower filename in
  match filter (fun ext => HasSuffix lower ext = true) [".tar.gz"; ".tar.xz"; ".tar.bz2"; ".tar.zst"] with
  | ext :: _ => ext
  | [] => ToLower (path_Ext filename)
  end.

Definition validExtension (ext : string) : bool :=
  bool_decide (ext ∈ [".dmg"; ".pkg"; ".zip"; ".tar.gz"; ".tar.xz"; ".tar.bz2"; ".tar.zst";
    ".tgz"; ".tar"; ".gz"; ".xz"; ".exe"; ".msi"; ".nupkg";
    ".appimage"; ".deb"; ".rpm"; ".snap"; ".flatpak"; ".bin"; ".app"; ".7z"]).

Definition key_char (c : ascii) : bool :=
  is_upper c || is_lower c || is_digit c || Ascii.eqb c "." || Ascii.eqb c "_" || Ascii.eqb c "-".

(** Runs of other characters become one underscore. *)
Fixpoint replace_runs (in_run : bool) (s : string) : string :=
  match s with
  | "" => ""
  | String c s' =>
      if key_char c then String c (replace_runs false s')
      else if in_run then replace_runs true s' else String "_" (replace_runs true s')
  end.

Definition safeKeyComponent (s : string) : string := replace_runs false s.

Definition buildFileKey (productSlug platform version originalFilename : string) : string :=
  let ext := normalizeExt originalFilename in
  let ext := if validExtension ext then ext else "" in
  "releases/" +:+ safeKeyComponent productSlug +:+ "/" +:+ safeKeyComponent version +:+ "/"
  +:+ safeKeyComponent platform +:+ ext.

Definition DownloadFilename (rel : Release) (a : ReleaseArtifact) : string :=
  let prefix := if streq (rel_Name rel) "" then "release" else rel_Name rel in
  safeKeyComponent prefix +:+ "-" +:+ safeKeyComponent (rel_Version rel) +:+ "-"
  +:+ safeKeyComponent (art_Platform a) +:+ normalizeExt (art_FileKey a).

(** [^[a-f0-9]{64}$]. *)
Definition sha256Pattern (s : string) : bool := sall sha256_hex_char s && (len s =? 64).

(** ** Signing *)

Definition ErrSigningDisabled :=
  ErrText "release signing is not configured (RELEASE_KEY_ENCRYPTION_KEY missing)".
Definition ErrArtifactTooLargeToSign := ErrText "artifact exceeds the configured signing size limit".
Definition ErrSigningKeyMissing := ErrText "product has no active signing key — generate one before signing".
Definition ErrArtifactNotInStorage := ErrText "artifact bytes not found in storage; upload may not be finalized".

Record Signer := mkSigner { sg_aead : option AESGCM; sg_maxSignSize : Z }.

Definition NewReleaseSigningService (aead : option AESGCM) (maxSignSize : Z) : Signer :=
  mkSigner aead (if maxSignSize <=? 0 then 500 * 1024 * 1024 else maxSignSize).

Record SignResult := mkSignResult { sr_Signature : string; sr_SigningKeyID : string }.

Section signing.
Context `{UUIDs} `{GCM} `{Ed25519} `{Storage}.

(** [ed25519.GenerateKey(rand.Reader)], the seed of the new key encrypted under
    the product's identifier; the row it becomes. *)
Definition new_signing_key (aead : AESGCM) (productID : string) : M goerr ReleaseSigningKey :=
  seed ← rand_Read 32;
  match seed with
  | None => throw (ErrText "ed25519 generate")
  | Some seed =>
      let pub := PublicKey (NewKeyFromSeed seed) in
      encrypted ← map_err (ErrWrap "encrypt private key") (Encrypt aead seed productID);
      mret (mkSigningKey "" productID (Std.EncodeToString pub) encrypted true "" 0 None)
  end.

Definition GenerateForProduct (s : option Signer) (productID : string) : M goerr ReleaseSigningKey :=
  match (s ≫= sg_aead) with
  | None => throw ErrSigningDisabled
  | Some aead =>
      if streq productID "" then throw (ErrText "product_id is required")
      else key ← new_signing_key aead productID; CreateSigningKey key
  end.

Definition RotateForProduct (s : option Signer) (productID note : string) : M goerr ReleaseSigningKey :=
  match (s ≫= sg_aead) with
  | None => throw ErrSigningDisabled
  | Some aead =>
      if streq productID "" then throw (ErrText "product_id is required")
      else key ← new_signing_key aead productID; RotateSigningKey key note
  end.

Definition active_missing (e : goerr) : goerr :=
  if goerr_Is e ErrActiveSigningKeyMissing then ErrSigningKeyMissing else e.

Definition GetActivePublicKey (s : option Signer) (productID : string) : M goerr string :=
  match s with
  | None => throw ErrSigningDisabled
  | Some _ => k ← map_err active_missing (FindActiveSigningKey productID); mret (sk_PublicKey k)
  end.

(** The bytes of an artifact, all of them in memory. *)
Definition read_artifact (maxSignSize : Z) (fileKey : string) : M goerr string :=
  body ← map_err (fun e => if goerr_Is e ErrObjectNotFound then ErrArtifactNotInStorage
                           else ErrWrap "storage get" e)
           (storage_call "get" fileKey (fun n => st_Get n fileKey));
  let '(buf, err) := limited (maxSignSize + 1) body in
  match err with
  | Some e => throw (ErrWrap "read artifact" e)
  | None => mret buf
  end.

Definition SignArtifact (s : option Signer) (rel : Release) (a : ReleaseArtifact) : M goerr SignResult :=
  match s with
  | Some (mkSigner (Some aead) maxSignSize) =>
      if streq (art_FileKey a) "" then throw ErrArtifactNotInStorage
      else if maxSignSize <? art_FileSize a then
        throw (ErrWrapAfter ErrArtifactTooLargeToSign
                 ("(size=" +:+ pretty (art_FileSize a) +:+ ", limit=" +:+ pretty maxSignSize +:+ ")"))
      else
        keyRow ← map_err active_missing (FindActiveSigningKey (rel_ProductID rel));
        match Decrypt aead (sk_PrivateKeyEncrypted keyRow) (rel_ProductID rel) with
        | Err e => throw (ErrWrap "decrypt private key" e)
        | Ok seed =>
            if negb (len seed =? 32)
            then throw (ErrText ("decrypted seed has wrong length: " +:+ pretty (len seed)))
            else
              buf ← read_artifact maxSignSize (art_FileKey a);
              if maxSignSize <? len buf then
                throw (ErrWrapAfter ErrArtifactTooLargeToSign
                         ("(read=" +:+ pretty (len buf) +:+ ", limit=" +:+ pretty maxSignSize +:+ ")"))
              else
                mret (mkSignResult (Std.EncodeToString (ed_Sign (NewKeyFromSeed seed) buf)) (sk_ID keyRow))
        end
  | _ => throw ErrSigningDisabled
  end.

Definition VerifySignature (publicKeyBase64 message signatureBase64 : string) : option goerr :=
  match Std.DecodeString publicKeyBase64 with
  | None => Some (ErrText "decode public key")
  | Some pub =>
      if negb (len pub =? 32) then Some (ErrText ("public key has wrong length: " +:+ pretty (len pub)))
      else match Std.DecodeString signatureBase64 with
           | None => Some (ErrText "decode signature")
           | Some sig => if ed_Verify pub message sig then None else Some (ErrText "signature verification failed")
           end
  end.
End signing.

(** ** The service *)

Definition maxFinalizeReadSize : Z := Z.shiftl 8 30.
Definition latestComputeWindow : Z := 1000.

Record ReleaseService := mkReleaseService {
  rs_signer : option Signer;
  rs_webhook : bool;
  rs_uploadTTL : Duration;
  rs_downloadTTL : Duration
}.

Definition NewReleaseService (signer : option Signer) (webhook : bool) (uploadTTL downloadTTL : Duration) :
    ReleaseService :=
  mkReleaseService signer webhook (if uploadTTL <=? 0 then Hour else uploadTTL)
    (if downloadTTL <=? 0 then 10 * Minute else downloadTTL).

Record CreateReleaseInput := mkCreateRelease {
  cri_ProductID : string; cri_Version : string; cri_Channel : string; cri_Name : string;
  cri_ReleaseNotes : string
}.
Record AddArtifactInput := mkAddArtifact {
  aai_ReleaseID : string; aai_Platform : string; aai_ContentType : string; aai_ExpectedSize : Z;
  aai_Filename : string
}.
Record AddArtifactResult := mkAddArtifactResult {
  aar_Artifact : ReleaseArtifact; aar_UploadURL : string; aar_ExpiresAt : Time
}.
Record DownloadInput := mkDownload {
  di_LicenseKey : string; di_ProductID : string; di_Version : string; di_Platform : string;
  di_Channel : string
}.
Record DownloadResult := mkDownloadResult {
  dr_URL : string; dr_ExpiresAt : Time; dr_Version : string; dr_Platform : string; dr_SHA256 : string;
  dr_FileSize : Z
}.

Definition ErrReleaseInvalidVersion := "invalid version (must be semver: 1.2.3 or 1.2.3-beta.1)".
Definition ErrReleaseInvalidChannel := ErrText "invalid channel (allowed: stable, beta, alpha, dev)".
Definition ErrReleaseNoneAvailable := ErrText "no published release matches the request".
Definition ErrReleaseYanked := ErrText "requested release version was yanked".

Definition app (status : Z) (code message : string) : error := AppErr (New status code message).

(** [switch { case errors.Is(err, sentinel): return answer ... default: Internal }]. *)
Fixpoint by_sentinel (table : list (goerr * error)) (e : goerr) : error :=
  match table with
  | [] => AppErr (Internal e)
  | (sentinel, answer) :: rest => if goerr_Is e sentinel then answer else by_sentinel rest e
  end.

Definition release_not_found : error := app 404 "RELEASE_NOT_FOUND" "release not found".
Definition artifact_not_found : error := app 404 "ARTIFACT_NOT_FOUND" "artifact not found".
Definition upload_incomplete : error :=
  app 409 "UPLOAD_INCOMPLETE" "artifact upload not yet completed in storage".

(** *** Channels and versions *)

Definition channelFallbackChain (c : string) : list string :=
  if streq c ReleaseChannelDev
  then [ReleaseChannelDev; ReleaseChannelAlpha; ReleaseChannelBeta; ReleaseChannelStable]
  else if streq c ReleaseChannelAlpha then [ReleaseChannelAlpha; ReleaseChannelBeta; ReleaseChannelStable]
  else if streq c ReleaseChannelBeta then [ReleaseChannelBeta; ReleaseChannelStable]
  else [ReleaseChannelStable].

Section semver.
Context `{Semver}.

Definition validateVersion (v : string) : option string :=
  if negb (semverShape v) then Some ErrReleaseInvalidVersion
  else if negb (semver_IsValid ("v" +:+ v)) then Some ErrReleaseInvalidVersion
  else None.

Definition semverNormalize (v : string) : string :=
  match v with
  | "" => ""
  | String c _ =>
      let v := if negb (Ascii.eqb c "v") then "v" +:+ v else v in
      if negb (semver_IsValid v) then "" else v
  end.

(** The [less] of [sort.SliceStable]. *)
Definition semver_before (r r' : Release) : bool :=
  let vi := semverNormalize (rel_Version r) in
  let vj := semverNormalize (rel_Version r') in
  if streq vi "" && streq vj "" then false
  else if streq vi "" then false
  else if streq vj "" then true
  else 0 <? semver_Compare vi vj.

Definition sortBySemverDesc (rels : list Release) : list Release :=
  sort_le (fun r r' => negb (semver_before r' r)) rels.
End semver.

Section service.
Context `{UUIDs} `{GCM} `{Ed25519} `{Storage} `{Semver} (s : ReleaseService).

Definition dispatchWebhook {E} (rel : Release) (event : string) : M E unit :=
  if rs_webhook s then
    Dispatch (rel_ProductID rel) event
      {["release_id" := AnyString (rel_ID rel); "version" := AnyString (rel_Version rel);
        "channel" := AnyString (rel_Channel rel);
        "platforms" := AnyStrings (art_Platform <$> rel_Artifacts rel)]}
  else mret tt.

(** *** CreateRelease *)

Definition CreateRelease (in_ : CreateReleaseInput) : M error Release :=
  match validateVersion (cri_Version in_) with
  | Some msg => throw (app 400 "INVALID_VERSION" msg)
  | None =>
      let channel := or_default ReleaseChannelStable (cri_Channel in_) in
      if negb (IsValidReleaseChannel channel)
      then throw (app 400 "INVALID_CHANNEL" (goerr_Error ErrReleaseInvalidChannel))
      else if streq (cri_ProductID in_) "" then throw (app 400 "MISSING_PRODUCT" "product_id is required")
      else if 256 <? len (cri_Name in_) then throw (app 400 "NAME_TOO_LONG" "name too long")
      else if 65536 <? len (cri_ReleaseNotes in_)
      then throw (app 400 "NOTES_TOO_LONG" "release notes too long")
      else
        map_err (by_sentinel [(ErrReleaseAlreadyExists,
                   app 409 "RELEASE_EXISTS" "a release for this product/version already exists")])
          (ReleaseStore.CreateRelease
             (mkRelease "" (cri_ProductID in_) (cri_Version in_) channel (cri_Name in_) (cri_ReleaseNotes in_)
                ReleaseStatusDraft "" None None 0 0 None []))
  end.

(** *** AddArtifact *)

Definition create_artifact_error : goerr -> error := by_sentinel
  [(ErrArtifactAlreadyExists, app 409 "ARTIFACT_EXISTS"
      "this release already has an artifact for this platform; delete it first");
   (ErrReleaseNotFound, release_not_found);
   (ErrReleaseNotPublishable, app 409 "RELEASE_NOT_DRAFT" "artifacts can only be added to draft releases")].

Definition AddArtifact (in_ : AddArtifactInput) : M error AddArtifactResult :=
  match validatePlatform (aai_Platform in_) with
  | Some msg => throw (app 400 "INVALID_PLATFORM" msg)
  | None =>
      let contentType := or_default "application/octet-stream" (aai_ContentType in_) in
      rel ← map_err (by_sentinel [(ErrReleaseNotFound, release_not_found)]) (FindReleaseByID (aai_ReleaseID in_));
      if negb (streq (rel_Status rel) ReleaseStatusDraft)
      then throw (app 409 "RELEASE_NOT_DRAFT" "artifacts can only be added to draft releases")
      else
        prod ← internal (FindProductByID (rel_ProductID rel));
        let slug := or_default (prod_ID prod) (prod_Slug prod) in
        let fileKey := buildFileKey slug (aai_Platform in_) (rel_Version rel) (aai_Filename in_) in
        artifact ← map_err create_artifact_error (CreateArtifact
          (mkArtifact "" (aai_ReleaseID in_) (aai_Platform in_) fileKey 0 "" "" contentType None 0 0));
        r ← attempt (storage_call "put" fileKey
          (fun n => st_PresignedPut n fileKey contentType (aai_ExpectedSize in_) (rs_uploadTTL s)));
        match r with
        | Err e =>
            del ← attempt (ReleaseStore.DeleteArtifact (art_ID artifact));
            match del with
            | Err _ => emit (EvWarn "artifact rollback failed")
            | Ok _ => mret tt
            end ;;
            throw (by_sentinel [(ErrStorageDisabled,
              app 503 "STORAGE_DISABLED" "release storage is not configured on this server")] e)
        | Ok url =>
            now ← time_Now;
            mret (mkAddArtifactResult artifact url (Add now (rs_uploadTTL s)))
        end
  end.

(** *** FinalizeArtifact *)

Definition computeArtifactSHA256 (key : string) (expectedSize : Z) : M goerr string :=
  body ← storage_call "get" key (fun n => st_Get n key);
  let '(bytes, err) := limited (maxFinalizeReadSize + 1) body in
  match err with
  | Some e => throw (ErrWrap "read artifact" e)
  | None =>
      if maxFinalizeReadSize <? len bytes then
        throw (ErrText ("artifact exceeded finalize size cap (" +:+ pretty (len bytes) +:+ " > "
                        +:+ pretty maxFinalizeReadSize +:+ ")"))
      else if negb (len bytes =? expectedSize) then
        throw (ErrText ("artifact size mismatch: head=" +:+ pretty expectedSize +:+ " body="
                        +:+ pretty (len bytes)))
      else mret (hex_EncodeToString (Sum256 bytes))
  end.

Definition FinalizeArtifact (artifactID expectedSHA256 : string) : M error ReleaseArtifact :=
  if negb (streq expectedSHA256 "") && negb (sha256Pattern expectedSHA256)
  then throw (app 400 "INVALID_SHA256" "expected_sha256 must be 64 lowercase hex characters")
  else
    a ← map_err (by_sentinel [(ErrArtifactNotFound, artifact_not_found)]) (FindArtifact artifactID);
    let key := art_FileKey a in
    info ← map_err (by_sentinel [(ErrObjectNotFound, upload_incomplete)])
             (storage_call "head" key (fun n => st_Head n key));
    if maxFinalizeReadSize <? oi_Size info then
      throw (app 413 "ARTIFACT_TOO_LARGE" ("artifact size " +:+ pretty (oi_Size info)
        +:+ " exceeds finalize limit " +:+ pretty maxFinalizeReadSize))
    else
      computed ← map_err (by_sentinel [(ErrObjectNotFound, upload_incomplete)])
                   (computeArtifactSHA256 key (oi_Size info));
      if negb (streq expectedSHA256 "") && negb (streq expectedSHA256 computed) then
        throw (app 409 "SHA256_MISMATCH" ("uploaded bytes hash to " +:+ computed +:+ "; client expected "
          +:+ expectedSHA256))
      else
        let contentType := or_default (art_ContentType a) (oi_ContentType info) in
        map_err (by_sentinel
            [(ErrReleaseNotPublishable, app 409 "RELEASE_NOT_DRAFT" "artifact's release is no longer draft");
             (ErrArtifactNotFound, artifact_not_found)])
          (UpdateArtifactFile (art_ID a) key (oi_Size info) computed contentType) ;;
        internal (FindArtifact (art_ID a)).

(** *** Deletion *)

Definition storage_cleanup {E} (msg key : string) : M E unit :=
  r ← attempt (storage_call "delete" key (fun n => st_Delete n key));
  match r with
  | Err _ => emit (EvWarn msg)
  | Ok _ => mret tt
  end.

Definition DeleteArtifact (artifactID : string) : M error unit :=
  fileKey ← map_err (by_sentinel
      [(ErrArtifactNotFound, artifact_not_found);
       (ErrReleaseNotPublishable, app 409 "RELEASE_NOT_DRAFT"
          "artifacts of published / yanked releases cannot be deleted")])
    (ReleaseStore.DeleteArtifact artifactID);
  if negb (streq fileKey "") then storage_cleanup "artifact storage cleanup failed" fileKey else mret tt.

Definition DeleteDraft (releaseID : string) : M error unit :=
  fileKeys ← map_err (by_sentinel
      [(ErrReleaseNotFound, release_not_found);
       (ErrReleaseNotDeletable, app 409 "NOT_DELETABLE"
          "only draft releases can be hard-deleted; yank instead")])
    (DeleteRelease releaseID);
  for_each fileKeys (storage_cleanup "draft delete: storage cleanup failed").

(** *** Publish *)

Definition artifact_error (code platform rest : string) (status : Z) : error :=
  app status code ("artifact for platform " +:+ quoted platform +:+ rest).

Definition check_uploaded (a : ReleaseArtifact) : M error unit :=
  if negb (IsUploaded a)
  then throw (artifact_error "ARTIFACTS_NOT_READY" (art_Platform a) " has not finished uploading" 409)
  else mret tt.

Definition check_stored (a : ReleaseArtifact) : M error unit :=
  let key := art_FileKey a in
  r ← attempt (storage_call "exists" key (fun n => st_Exists n key));
  match r with
  | Err e => if goerr_Is e ErrStorageDisabled then mret tt else throw (AppErr (Internal e))
  | Ok false => throw (artifact_error "ARTIFACT_MISSING" (art_Platform a) " is missing in storage" 409)
  | Ok true => mret tt
  end.

(** Whether the product has an active signing key. *)
Definition decide_signing (productID : string) : M error bool :=
  match rs_signer s with
  | None => mret false
  | Some _ =>
      r ← attempt (GetActivePublicKey (rs_signer s) productID);
      match r with
      | Ok _ => mret true
      | Err e =>
          if goerr_Is e ErrSigningKeyMissing || goerr_Is e ErrSigningDisabled then mret false
          else throw (AppErr (Internal e))
      end
  end.

Definition sign_error (platform : string) (e : goerr) : M error unit :=
  if goerr_Is e ErrSigningKeyMissing
  then throw (app 409 "SIGNING_KEY_MISSING" "active signing key disappeared during publish; retry")
  else if goerr_Is e ErrArtifactTooLargeToSign
  then throw (artifact_error "ARTIFACT_TOO_LARGE" platform " exceeds the configured signing size limit" 413)
  else if goerr_Is e ErrArtifactNotInStorage
  then throw (artifact_error "ARTIFACT_MISSING" platform " is missing in storage" 409)
  else emit (EvWarn "publish: sign failed") ;; throw (AppErr (Internal e)).

Definition sign_one (rel : Release) (a : ReleaseArtifact) : M error unit :=
  r ← attempt (SignArtifact (rs_signer s) rel a);
  match r with
  | Err e => sign_error (art_Platform a) e
  | Ok result =>
      u ← attempt (UpdateArtifactSignature (art_ID a) (sr_Signature result) (sr_SigningKeyID result));
      match u with
      | Err e => emit (EvWarn "publish: store artifact signature failed") ;; throw (AppErr (Internal e))
      | Ok _ => mret tt
      end
  end.

Definition publish_error : goerr -> error := by_sentinel
  [(ErrReleaseNotFound, release_not_found);
   (ErrReleaseNoArtifacts, app 409 "NO_ARTIFACTS" "release has no artifacts");
   (ErrReleaseArtifactsNotReady, app 409 "ARTIFACTS_NOT_READY"
      "one or more artifacts have not finished uploading");
   (ErrReleaseArtifactsNotSigned, app 409 "ARTIFACTS_NOT_SIGNED"
      "a concurrent upload cleared one or more signatures; retry publish");
   (ErrReleaseNotPublishable, app 409 "NOT_PUBLISHABLE" "release must be a draft")].

Definition Publish (releaseID : string) : M error Release :=
  rel ← map_err (by_sentinel [(ErrReleaseNotFound, release_not_found)]) (FindReleaseByID releaseID);
  if bool_decide (rel_Artifacts rel = []) then throw (app 409 "NO_ARTIFACTS" "release has no artifacts")
  else
    for_each (rel_Artifacts rel) check_uploaded ;;
    for_each (rel_Artifacts rel) check_stored ;;
    prod ← internal (FindProductByID (rel_ProductID rel));
    signRelease ← decide_signing (rel_ProductID rel);
    if negb signRelease && prod_RequireSigning prod then
      throw (app 409 "SIGNING_NOT_CONFIGURED"
        ("this product requires release signing — generate a signing key, "
         +:+ "or set require_signing=false to ship unsigned releases"))
    else
      (if (signRelease : bool) then for_each (rel_Artifacts rel) (sign_one rel) else mret tt) ;;
      map_err publish_error (PublishRelease releaseID signRelease) ;;
      out ← internal (FindReleaseByID releaseID);
      dispatchWebhook out EventReleasePublished ;;
      mret out.

(** *** Yank and unyank *)

Definition Yank (releaseID reason : string) : M error Release :=
  map_err (by_sentinel [(ErrReleaseNotFound, release_not_found);
      (ErrReleaseNotYankable, app 409 "NOT_YANKABLE" "only published releases can be yanked")])
    (YankRelease releaseID reason) ;;
  rel ← internal (FindReleaseByID releaseID);
  dispatchWebhook rel EventReleaseYanked ;;
  mret rel.

Definition Unyank (releaseID : string) : M error Release :=
  map_err (by_sentinel [(ErrReleaseNotFound, release_not_found);
      (ErrReleaseNotYankable, app 409 "NOT_UNYANKABLE" "only yanked releases can be unyanked")])
    (UnyankRelease releaseID) ;;
  rel ← internal (FindReleaseByID releaseID);
  dispatchWebhook rel EventReleaseUnyanked ;;
  mret rel.

(** *** Feeds and downloads *)

Fixpoint collect {A} (chain : list string) (batch : string -> M goerr (list A)) (warning : string) :
    M goerr (list A) :=
  match chain with
  | [] => mret []
  | ch :: rest =>
      found ← batch ch;
      (if Z.of_nat (List.length found) =? latestComputeWindow then emit (EvWarn warning) else mret tt) ;;
      pool ← collect rest batch warning;
      mret (found ++ pool)%list
  end.

Definition findLatestPublished (productID channel platform : string) : M goerr Release :=
  pool ← collect (channelFallbackChain channel)
    (fun ch => ListPublishedReleasesForFeed productID ch platform latestComputeWindow)
    "release: feed window saturated; semver max may be missed";
  match sortBySemverDesc pool with
  | [] => throw ErrReleaseNoneAvailable
  | r :: _ => mret r
  end.

Definition findVersionWithFallback (productID version channel : string) : M goerr Release :=
  rel ← FindReleaseByVersion productID version;
  if streq (rel_Status rel) ReleaseStatusYanked then throw ErrReleaseYanked
  else if negb (streq (rel_Status rel) ReleaseStatusPublished) then throw ErrReleaseNoneAvailable
  else if negb (bool_decide (rel_Channel rel ∈ channelFallbackChain channel)) then throw ErrReleaseNoneAvailable
  else mret rel.

Definition ListForFeed (productID channel platform : string) (limit : Z) : M goerr (list Release) :=
  if negb (IsValidReleaseChannel channel) then throw ErrReleaseInvalidChannel
  else
    let limit := if (limit <=? 0) || (100 <? limit) then 20 else limit in
    pool ← collect (channelFallbackChain channel)
      (fun ch => ListPublishedReleasesForFeed productID ch platform latestComputeWindow)
      "release: feed window saturated; older releases may be hidden";
    mret (take (Z.to_nat limit) (sortBySemverDesc pool)).

Definition pick_artifact (platform : string) (arts : list ReleaseArtifact) : option ReleaseArtifact :=
  head (filter (fun a => streq (art_Platform a) platform && IsUploaded a = true) arts).

Definition download_error : goerr -> error := by_sentinel
  [(ErrReleaseYanked, app 410 "RELEASE_YANKED" "this release was yanked; pick a different version");
   (ErrReleaseNotFound, app 404 "RELEASE_NOT_FOUND" (goerr_Error ErrReleaseNoneAvailable));
   (ErrReleaseNoneAvailable, app 404 "RELEASE_NOT_FOUND" (goerr_Error ErrReleaseNoneAvailable))].

Definition GenerateDownload (in_ : DownloadInput) : M error DownloadResult :=
  match validatePlatform (di_Platform in_) with
  | Some msg => throw (app 400 "INVALID_PLATFORM" msg)
  | None =>
      let channel := or_default ReleaseChannelStable (di_Channel in_) in
      if negb (IsValidReleaseChannel channel)
      then throw (app 400 "INVALID_CHANNEL" (goerr_Error ErrReleaseInvalidChannel))
      else
        lic ← loadLicenseForSDK (di_LicenseKey in_) (di_ProductID in_) CapReleases true;
        rel ← map_err download_error
          (if negb (streq (di_Version in_) "")
           then findVersionWithFallback (lic_ProductID lic) (di_Version in_) channel
           else findLatestPublished (lic_ProductID lic) channel (di_Platform in_));
        match pick_artifact (di_Platform in_) (rel_Artifacts rel) with
        | None => throw (app 404 "PLATFORM_NOT_AVAILABLE" ("release " +:+ rel_Version rel
                    +:+ " has no artifact for platform " +:+ quoted (di_Platform in_)))
        | Some artifact =>
            let key := art_FileKey artifact in
            url ← map_err (by_sentinel [(ErrStorageDisabled,
                app 503 "STORAGE_DISABLED" "release storage is not configured")])
              (storage_call "get-url" key
                 (fun n => st_PresignedGet n key (DownloadFilename rel artifact) (rs_downloadTTL s)));
            now ← time_Now;
            mret (mkDownloadResult url (Add now (rs_downloadTTL s)) (rel_Version rel) (art_Platform artifact)
                    (art_SHA256 artifact) (art_FileSize artifact))
        end
  end.
End service.
