(* ===== verification/ReleaseInv.v ===== *)
(** * The life of a release: invariants of the release tables

    Whatever fails and whatever the storage answers, a release that left the
    draft state has an uploaded artifact and only uploaded artifacts, never
    becomes a draft again, and keeps its identity and the files of its
    artifacts; a product has at most one active signing key. *)

From S2P Require Import Prelude GoStrings Errors Model Crypto Base64 World Tables Logic Usability AesGcm Store.
From S2P Require Import Webhook LicenseService Lookup ReleaseStore Release.
From Stdlib Require Import Ascii String.

#[local] Open Scope string_scope.
#[local] Open Scope Z_scope.

(** ** The invariant *)

Definition is_draft (r : Release) : Prop := rel_Status r = ReleaseStatusDraft.

Definition published_ok (db : DB) (r : Release) : Prop :=
  rel_PublishedAt r <> None /\
  (exists k a, db_release_artifacts db !! k = Some a /\ art_ReleaseID a = rel_ID r) /\
  (forall k a, db_release_artifacts db !! k = Some a -> art_ReleaseID a = rel_ID r -> IsUploaded a = true).

Definition keyed_releases (db : DB) : Prop := forall k r, db_releases db !! k = Some r -> rel_ID r = k.
Definition keyed_artifacts (db : DB) : Prop := forall k a, db_release_artifacts db !! k = Some a -> art_ID a = k.
Definition one_active_key (db : DB) : Prop := forall k1 k2 a1 a2,
  db_signing_keys db !! k1 = Some a1 -> db_signing_keys db !! k2 = Some a2 ->
  sk_Active a1 = true -> sk_Active a2 = true -> sk_ProductID a1 = sk_ProductID a2 -> k1 = k2.

Definition releases_wf (db : DB) : Prop :=
  keyed_releases db /\ keyed_artifacts db /\
  (forall k a, db_release_artifacts db !! k = Some a -> exists r, db_releases db !! art_ReleaseID a = Some r) /\
  (forall k r, db_releases db !! k = Some r -> ~ is_draft r -> published_ok db r) /\
  one_active_key db.

(** What clients of a published release rely on. *)
Definition header (r : Release) : string * string * string := (rel_ProductID r, rel_Version r, rel_Channel r).
Definition file_of (a : ReleaseArtifact) : string * string * Z * string :=
  (art_Platform a, art_FileKey a, art_FileSize a, art_SHA256 a).
Definition files (rid : string) (db : DB) : gmap string (string * string * Z * string) :=
  file_of <$> rows (owned rid) (db_release_artifacts db).

Definition contract : Type := (string * string * string) * gmap string (string * string * Z * string).

Definition frozen (rid : string) (c : contract) (db : DB) : Prop :=
  exists r, db_releases db !! rid = Some r /\ ~ is_draft r /\ header r = c.1 /\ files rid db = c.2.

(** Well-formed tables in which, when asked for, one release is frozen. *)
Definition inv (o : option (string * contract)) (db : DB) : Prop :=
  releases_wf db /\ match o with Some (rid, c) => frozen rid c db | None => True end.

(** ** Changes of the tables that keep it *)

Section changes.
Context (o : option (string * contract)).
Implicit Types db : DB.

Lemma inv_update_releases db (P : Release -> bool) (f : Release -> Release) :
  inv o db ->
  (forall r, rel_ID (f r) = rel_ID r /\ header (f r) = header r) ->
  (forall k r, db_releases db !! k = Some r -> P r = true -> ~ is_draft (f r) /\ published_ok db (f r)
    \/ is_draft r /\ is_draft (f r)) ->
  inv o (t_set releases (update_rows P f (db_releases db)) db).
Proof.
  intros [(Hr & Ha & Ho & Hp & Hk) Hfz] Hf HP.
  assert (forall k r', update_rows P f (db_releases db) !! k = Some r' ->
    exists r, db_releases db !! k = Some r /\ r' = if P r then f r else r) as Hup.
  { intros k r'. rewrite lookup_update_rows. intros (r & ? & ->)%fmap_Some. eauto. }
  split.
  - split_and!; [| exact Ha | | | exact Hk].
    + intros k r' (r & Hkr & ->)%Hup. apply Hr in Hkr as <-. destruct (P r); [apply Hf|done].
    + intros k a (r & Hkr)%Ho. exists (if P r then f r else r).
      change (update_rows P f (db_releases db) !! art_ReleaseID a = Some (if P r then f r else r)).
      by rewrite lookup_update_rows, Hkr.
    + intros k r' (r & Hkr & ->)%Hup Hnd. destruct (P r) eqn:Epr; [|by apply (Hp k)].
      destruct (HP k r Hkr Epr) as [[_ ?]|[_ ?]]; done.
  - destruct o as [[rid c]|]; [|done]. destruct Hfz as (r & Hkr & Hnd & Hh & Hfs).
    exists (if P r then f r else r). split_and!; [| |destruct (P r); [by destruct (Hf r) as [_ ->]|done]|done].
    + change (update_rows P f (db_releases db) !! rid = Some (if P r then f r else r)).
      by rewrite lookup_update_rows, Hkr.
    + destruct (P r) eqn:Epr; [|done]. destruct (HP rid r Hkr Epr) as [[? _]|[? _]]; done.
Qed.

(** Every artifact the change touches, before or after, belongs to a draft. *)
Definition of_draft db (a : ReleaseArtifact) : Prop :=
  exists r, db_releases db !! art_ReleaseID a = Some r /\ is_draft r.

Definition drafts_only db (m : gmap string ReleaseArtifact) : Prop := forall k,
  m !! k = db_release_artifacts db !! k \/
  ((forall a, db_release_artifacts db !! k = Some a -> of_draft db a) /\
   (forall a, m !! k = Some a -> of_draft db a /\ art_ID a = k)).

Lemma drafts_only_rows db m rid r :
  drafts_only db m -> db_releases db !! rid = Some r -> ~ is_draft r ->
  rows (owned rid) m = rows (owned rid) (db_release_artifacts db).
Proof.
  intros Hd Hr Hnd. assert (forall a, of_draft db a -> owned rid a = false) as Hno.
  { intros a (r' & Hr' & Hdr). unfold owned, streq. apply bool_decide_eq_false. intros E.
    rewrite E, Hr in Hr'. by simplify_eq. }
  apply map_eq. intros k. apply option_eq. intros a. rewrite !lookup_rows.
  destruct (Hd k) as [->|[Hold Hnew]]; [done|]. split.
  - intros [Hk Ho]. apply Hnew in Hk as [Hk _]. by rewrite (Hno a Hk) in Ho.
  - intros [Hk Ho]. apply Hold in Hk. by rewrite (Hno a Hk) in Ho.
Qed.

Lemma published_ok_rows db m r :
  rows (owned (rel_ID r)) m = rows (owned (rel_ID r)) (db_release_artifacts db) ->
  published_ok db r -> published_ok (t_set release_artifacts m db) r.
Proof.
  intros E (Hpub & (k0 & a0 & Hk0 & Ho0) & Hall).
  assert (forall k a, m !! k = Some a /\ art_ReleaseID a = rel_ID r <->
    db_release_artifacts db !! k = Some a /\ art_ReleaseID a = rel_ID r) as Hsame.
  { intros k a. pose proof (f_equal (lookup k) E) as Ek. rewrite <- !(bool_decide_eq_true (art_ReleaseID a = rel_ID r)).
    change (bool_decide (art_ReleaseID a = rel_ID r)) with (owned (rel_ID r) a).
    rewrite <- !(lookup_rows (owned (rel_ID r))). by rewrite E. }
  split_and!; [done| |].
  - exists k0, a0. by apply Hsame.
  - intros k a Hk Ho. apply (Hall k a); [|done]. by apply Hsame.
Qed.

Lemma inv_set_artifacts db m : inv o db -> drafts_only db m -> inv o (t_set release_artifacts m db).
Proof.
  intros [(Hr & Ha & Ho & Hp & Hk) Hfz] Hd. split.
  - split_and!; [exact Hr| | | |exact Hk].
    + intros k a Hka. change (m !! k = Some a) in Hka. destruct (Hd k) as [E|[_ Hnew]]; [|by apply Hnew].
      apply Ha. by rewrite <- E.
    + intros k a Hka. change (m !! k = Some a) in Hka. destruct (Hd k) as [E|[_ Hnew]].
      * apply (Ho k). by rewrite <- E.
      * apply Hnew in Hka as [(r & Hrr & _) _]. by exists r.
    + intros k r Hkr Hnd. apply published_ok_rows; [|by apply (Hp k)]. change (db_releases db !! k = Some r) in Hkr.
      pose proof (Hr _ _ Hkr) as E. rewrite E. by apply (drafts_only_rows db m k r).
  - destruct o as [[rid c]|]; [|done]. destruct Hfz as (r & Hkr & Hnd & Hh & Hfs). exists r.
    split_and!; [done..|]. rewrite <- Hfs. unfold files.
    change (file_of <$> rows (owned rid) m = file_of <$> rows (owned rid) (db_release_artifacts db)).
    by rewrite (drafts_only_rows db m rid r).
Qed.

Lemma inv_same_files db (P : ReleaseArtifact -> bool) (f : ReleaseArtifact -> ReleaseArtifact) :
  inv o db ->
  (forall a, art_ID (f a) = art_ID a /\ art_ReleaseID (f a) = art_ReleaseID a /\ file_of (f a) = file_of a) ->
  inv o (t_set release_artifacts (update_rows P f (db_release_artifacts db)) db).
Proof.
  intros [(Hr & Ha & Ho & Hp & Hk) Hfz] Hf. set (g a := if P a then f a else a).
  assert (forall a, art_ID (g a) = art_ID a /\ art_ReleaseID (g a) = art_ReleaseID a /\ file_of (g a) = file_of a)
    as Hg by (intros a; unfold g; destruct (P a); auto).
  change (update_rows P f (db_release_artifacts db)) with (g <$> db_release_artifacts db).
  assert (forall a, IsUploaded (g a) = IsUploaded a) as Hup.
  { intros a. destruct (Hg a) as (_ & _ & E). injection E as _ Ek _ Es. unfold IsUploaded. by rewrite Ek, Es. }
  split.
  - split_and!; [exact Hr| | | |exact Hk].
    + intros k a' (a & <- & Hka)%lookup_fmap_Some. destruct (Hg a) as (-> & _). by apply Ha.
    + intros k a' (a & <- & Hka)%lookup_fmap_Some. destruct (Hg a) as (_ & -> & _). by apply (Ho k).
    + intros k r Hkr Hnd. destruct (Hp k r Hkr Hnd) as (Hpub & (k0 & a0 & Hk0 & Ho0) & Hall). split_and!; [done| |].
      * exists k0, (g a0). split; [|by destruct (Hg a0) as (_ & -> & _)]. apply lookup_fmap_Some. eauto.
      * intros k1 a' (a & <- & Hka)%lookup_fmap_Some. destruct (Hg a) as (_ & -> & _). rewrite Hup. by apply (Hall k1).
  - destruct o as [[rid c]|]; [|done]. destruct Hfz as (r & Hkr & Hnd & Hh & Hfs). exists r.
    split_and!; [done..|]. rewrite <- Hfs. unfold files. apply map_eq. intros k.
    change (db_release_artifacts (t_set release_artifacts ?m db)) with m. rewrite !lookup_fmap.
    apply option_eq. intros x. rewrite !fmap_Some. split.
    + intros (a' & [(a & <- & Hka)%lookup_fmap_Some Hoa]%lookup_rows & ->). destruct (Hg a) as (_ & Er & Ef).
      exists a. rewrite lookup_rows. unfold owned in *. rewrite Er in Hoa. done.
    + intros (a & [Hka Hoa]%lookup_rows & ->). destruct (Hg a) as (_ & Er & Ef).
      exists (g a). rewrite lookup_rows. unfold owned in *. rewrite Er. split; [|done]. split; [|done].
      apply lookup_fmap_Some. eauto.
Qed.

Lemma inv_insert_draft db k r :
  inv o db -> db_releases db !! k = None -> rel_ID r = k -> is_draft r ->
  inv o (t_set releases (<[k := r]> (db_releases db)) db).
Proof.
  intros [(Hr & Ha & Ho & Hp & Hk) Hfz] Hfree Hid Hdr.
  assert (forall k', db_releases db !! k' <> None -> <[k := r]> (db_releases db) !! k' = db_releases db !! k') as Hold.
  { intros k' Hk'. apply lookup_insert_ne. congruence. }
  split.
  - split_and!; [|exact Ha| | |exact Hk].
    + intros k' r'. change (db_releases (t_set releases ?m db)) with m.
      intros [[<- <-]|[_ Hk']]%lookup_insert_Some; [done|by apply Hr].
    + intros k' a (r' & Hr')%Ho. exists r'. change (<[k := r]> (db_releases db) !! art_ReleaseID a = Some r').
      rewrite Hold; congruence.
    + intros k' r'. change (db_releases (t_set releases ?m db)) with m.
      intros [[<- <-]|[_ Hk']]%lookup_insert_Some Hnd; [done|by apply (Hp k')].
  - destruct o as [[rid c]|]; [|done]. destruct Hfz as (r' & Hkr & Hfz). exists r'. split; [|exact Hfz].
    change (<[k := r]> (db_releases db) !! rid = Some r'). rewrite Hold; congruence.
Qed.

Lemma draft_hit db id k r :
  keyed_releases db -> db_releases db !! k = Some r -> in_status id ReleaseStatusDraft r = true -> k = id /\ is_draft r.
Proof.
  intros Hr Hk Hs. unfold in_status, streq in Hs. bool_facts. apply Hr in Hk. split; [congruence|done].
Qed.

Lemma inv_delete_draft db id : inv o db -> forall a db', delete_draft id db = Ok (a, db') -> inv o db'.
Proof.
  intros Hi a db' [= _ <-]. pose proof Hi as [(Hr & _) _].
  destruct (row_exists _ _) eqn:Ex.
  - apply row_exists_true in Ex as (k0 & r0 & Hk0 & Hs0). destruct (draft_hit db id k0 r0 Hr Hk0 Hs0) as [-> Hdr].
    assert (inv o (t_set release_artifacts (delete_rows (owned id) (db_release_artifacts db)) db)) as Hi'.
    { apply inv_set_artifacts; [done|]. intros k. destruct (db_release_artifacts db !! k) as [a0|] eqn:Ea.
      - destruct (owned id a0) eqn:Eo.
        + right. split.
          * intros ? [= <-]. exists r0. split; [|done]. unfold owned in Eo. str_facts. congruence.
          * intros a1 [Hk1 Ho1]%lookup_delete_rows. congruence.
        + left. by apply lookup_delete_rows.
      - left. destruct (delete_rows _ _ !! k) as [a1|] eqn:E1; [|done]. apply lookup_delete_rows in E1 as [E1 _]. congruence. }
    destruct Hi' as [(Hr' & Ha' & Ho' & Hp' & Hk') Hfz']. split.
    + split_and!; [|exact Ha'| | |exact Hk'].
      * intros k r [Hk _]%lookup_delete_rows. by apply Hr'.
      * intros k a0 Hka. apply lookup_delete_rows in Hka as Hown. destruct (Ho' k a0 Hka) as (r & Hk). exists r.
        apply lookup_delete_rows. split; [done|]. destruct (in_status _ _ r) eqn:Es; [|done].
        destruct (draft_hit db id (art_ReleaseID a0) r Hr Hk Es) as [E _].
        destruct Hown as [_ Hown]. unfold owned, streq in Hown. by rewrite E, bool_decide_true in Hown.
      * intros k r [Hk _]%lookup_delete_rows Hnd. by apply (Hp' k).
    + destruct o as [[rid c]|]; [|done]. destruct Hfz' as (r & Hkr & Hnd & Hfz'). exists r.
      split; [|by split]. apply lookup_delete_rows. split; [done|].
      destruct (in_status _ _ r) eqn:Es; [|done]. by destruct (draft_hit db id rid r Hr Hkr Es).
  - rewrite row_exists_false in Ex. replace (delete_rows _ _) with (db_releases db); [exact Hi|].
    symmetry. apply map_eq. intros k. apply option_eq. intros r. rewrite lookup_delete_rows.
    split; [by intros []|]. intros Hk. split; [done|]. by apply (Ex k).
Qed.

Lemma inv_set_keys db m :
  inv o db -> one_active_key (t_set signing_keys m db) -> inv o (t_set signing_keys m db).
Proof. intros [(Hr & Ha & Ho & Hp & Hk) Hfz] Hm. split; [split_and!; [exact Hr|exact Ha|exact Ho|exact Hp|exact Hm]|exact Hfz]. Qed.

Lemma inv_retire_keys db (P : ReleaseSigningKey -> bool) note now :
  inv o db -> inv o (t_set signing_keys (update_rows P (sk_retire note now) (db_signing_keys db)) db).
Proof.
  intros Hi. apply inv_set_keys; [done|]. destruct Hi as [(_ & _ & _ & _ & Hk) _].
  intros k1 k2 a1 a2. change (db_signing_keys (t_set signing_keys ?m db)) with m. rewrite !lookup_update_rows.
  intros (b1 & Hb1 & ->)%fmap_Some (b2 & Hb2 & ->)%fmap_Some.
  destruct (P b1); [done|]. destruct (P b2); [done|]. by apply Hk.
Qed.

Lemma inv_insert_key db k r :
  inv o db -> (forall k' r', db_signing_keys db !! k' = Some r' -> t_conflict signing_keys r' r = false) ->
  inv o (t_set signing_keys (<[k := r]> (db_signing_keys db)) db).
Proof.
  intros Hi Hc. apply inv_set_keys; [done|]. destruct Hi as [(_ & _ & _ & _ & Hk) _].
  assert (forall k' r', db_signing_keys db !! k' = Some r' -> sk_Active r' = true -> sk_Active r = true ->
    sk_ProductID r' = sk_ProductID r -> False) as Hno.
  { intros k' r' Hk' H1 H2 E. specialize (Hc k' r' Hk'). cbn [t_conflict signing_keys] in Hc.
    unfold streq in Hc. by rewrite H1, H2, E, bool_decide_true in Hc. }
  intros k1 k2 a1 a2. change (db_signing_keys (t_set signing_keys ?m db)) with m.
  intros [[<- <-]|[_ H1]]%lookup_insert_Some [[<- <-]|[_ H2]]%lookup_insert_Some A1 A2 E; [done| | |].
  - exfalso. by eapply Hno.
  - exfalso. by eapply Hno.
  - by apply (Hk k1 k2 a1 a2).
Qed.
End changes.

(** ** Every operation keeps it *)

Section operations.
Context `{UUIDs} `{GCM} `{Ed25519} `{Storage} `{Semver} (o : option (string * contract)).

Lemma keeps_storage_call {A} I op key (answer : nat -> result goerr A) : keeps I (storage_call op key answer).
Proof. apply keeps_still. by intros w. Qed.

Lemma keeps_select_release I load P : keeps I (select_release load P).
Proof. apply keeps_map_err, keeps_read. intros db a db'. destruct (first_row _); intros; by simplify_eq. Qed.

Lemma keeps_FindReleaseByID I id : keeps I (FindReleaseByID id).
Proof. apply keeps_select_release. Qed.
Lemma keeps_FindReleaseByVersion I productID version : keeps I (FindReleaseByVersion productID version).
Proof. apply keeps_select_release. Qed.
Lemma keeps_FindArtifact I id : keeps I (FindArtifact id).
Proof. apply keeps_map_err, keeps_select_one. Qed.

Lemma keeps_join_release I id : keeps I (stmt (join_release id)).
Proof. apply keeps_read. intros db a db'. unfold join_release. destruct (_ ≫= _); intros; by simplify_eq. Qed.

Lemma keeps_FindProductByID I id : keeps I (FindProductByID id).
Proof. apply keeps_read. intros db a db'. destruct (first_row _); intros; by simplify_eq. Qed.

Lemma keeps_feed I productID channel platform limit :
  keeps I (ListPublishedReleasesForFeed productID channel platform limit).
Proof. apply keeps_read. intros db a db'. by intros [= _ <-]. Qed.

#[local] Hint Resolve keeps_storage_call keeps_FindReleaseByID keeps_FindReleaseByVersion
  keeps_FindArtifact keeps_join_release keeps_FindProductByID
  keeps_feed : licensehub.

Lemma ignores_deliveries : ignores_table (inv o) webhook_deliveries.
Proof. intros m db Hi. exact Hi. Qed.

Lemma keeps_dispatch (s : ReleaseService) {E} rel event : keeps (E := E) (inv o) (dispatchWebhook s rel event).
Proof. unfold dispatchWebhook. destruct (rs_webhook s); [apply keeps_Dispatch, ignores_deliveries|keeps_go]. Qed.

(** *** Statements *)

Lemma keeps_insert_draft k r : rel_ID r = k -> is_draft r -> keeps (inv o) (sql_insert releases k r).
Proof.
  intros Hid Hd. apply keeps_stmt. intros db u db' Hi E. apply insert_row_Ok in E as (Hfree & _ & _ & ->).
  by apply inv_insert_draft.
Qed.

Lemma hoare_lock_draft rid :
  hoare (inv o) (fun _ => True) (lock_draft rid)
    (fun r db => match r with Ok _ => exists x, db_releases db !! rid = Some x /\ is_draft x | Err _ => True end).
Proof.
  unfold lock_draft. eapply hoare_bind; [apply hoare_map_err_Ok, hoare_select_one| |done]. intros r. simpl.
  destruct (streq (rel_Status r) ReleaseStatusDraft) eqn:Es; simpl.
  - eapply hoare_weaken; [apply hoare_ret|intros db _ Hp; exact Hp|]. intros [u|e] db [(Hr & _) _] [_ Hk]; [|done].
    destruct Hk as [_ (k & Hk & Hid)]. str_facts. exists r. split; [|done]. simpl in Hk. apply Hr in Hk as E. congruence.
  - eapply hoare_weaken; [apply hoare_throw|intros db _ Hp; exact Hp|]. by intros [u|e] db _ [? _].
Qed.

Lemma hoare_lock_parent_draft id :
  hoare (inv o) (fun _ => True) (lock_parent_draft id)
    (fun r db => match r with
                 | Ok a => db_release_artifacts db !! id = Some a /\ of_draft db a
                 | Err _ => True
                 end).
Proof.
  unfold lock_parent_draft. eapply hoare_bind; [apply hoare_map_err_Ok, hoare_read| |done].
  { intros db a db'. unfold join_release. destruct (_ ≫= _); intros; by simplify_eq. }
  intros [r a]. simpl. destruct (streq (rel_Status r) ReleaseStatusDraft) eqn:Es; simpl.
  - eapply hoare_weaken; [apply hoare_ret|intros db _ Hp; exact Hp|]. intros [u|e] db [(Hr & Ha & _) _] [[= ->] [_ Hj]].
    unfold join_release in Hj. destruct (first_row (rows _ (db_release_artifacts db))) as [a1|] eqn:E1; [|done]. simpl in Hj.
    destruct (first_row (rows _ (db_releases db))) as [r1|] eqn:E2; [|done]. injection Hj as -> ->.
    apply first_row_rows in E1 as (ka & Hka & Hida), E2 as (kr & Hkr & Hidr). str_facts.
    assert (ka = id) as -> by (apply Ha in Hka; congruence). split; [done|].
    exists r. split; [|done]. apply Hr in Hkr as E. congruence.
  - eapply hoare_weaken; [apply hoare_throw|intros db _ Hp; exact Hp|]. by intros [u|e] db _ [? _].
Qed.

(** Rewriting or removing an artifact whose release was found to be a draft. *)
Lemma drafts_only_one db id a (m : gmap string ReleaseArtifact) :
  db_release_artifacts db !! id = Some a -> of_draft db a ->
  (forall k, k <> id -> m !! k = db_release_artifacts db !! k) ->
  (forall a', m !! id = Some a' -> art_ID a' = id /\ art_ReleaseID a' = art_ReleaseID a) ->
  drafts_only db m.
Proof.
  intros Ha Hd Hother Hid k. destruct (decide (k = id)) as [->|Hk]; [|left; by apply Hother].
  right. split; [by intros ? [= <-]%(eq_trans (eq_sym Ha))|]. intros a' Ha'. destruct (Hid a' Ha') as [? E].
  split; [|done]. unfold of_draft. by rewrite E.
Qed.

Lemma not_this_artifact db k id a :
  keyed_artifacts db -> k <> id -> db_release_artifacts db !! k = Some a -> streq (art_ID a) id = false.
Proof. intros Ha Hk E. apply Ha in E. unfold streq. apply bool_decide_eq_false. congruence. Qed.

Lemma keeps_CreateArtifact a : keeps (inv o) (CreateArtifact a).
Proof.
  unfold CreateArtifact, fresh_id. apply keeps_bind; [destruct (bool_decide _); keeps_go|]. intros id.
  apply keeps_with_tx, hoare_keeps. eapply hoare_bind; [apply hoare_lock_draft| |done]. intros [].
  apply hoare_bind_still; [auto with licensehub| |done]. intros now.
  eapply hoare_bind; [apply hoare_map_err_Ok, hoare_insert| |done].
  - intros db Hi (r & Hr & Hd) Hfree _ _. apply inv_set_artifacts; [done|]. intros k.
    destruct (decide (k = id)) as [->|Hk]; [right|left; by apply lookup_insert_ne].
    split; [intros a0 Ha0; simpl in Hfree; congruence|]. intros a0. simpl. rewrite lookup_insert_eq. intros [= <-].
    split; [|done]. by exists r.
  - intros []. apply hoare_drop. keeps_go.
Qed.

Lemma keeps_UpdateArtifactFile id fileKey size sha ct : keeps (inv o) (UpdateArtifactFile id fileKey size sha ct).
Proof.
  unfold UpdateArtifactFile. apply keeps_with_tx, hoare_keeps.
  eapply hoare_bind; [apply hoare_lock_parent_draft| |done]. intros a.
  apply hoare_bind_still; [auto with licensehub| |done]. intros now.
  eapply hoare_bind; [apply hoare_update_where| |done].
  - intros db Hi [Hka Hd]. apply inv_set_artifacts; [done|]. destruct Hi as [(_ & Ha & _) _].
    apply (drafts_only_one db id a); [done..| |].
    + intros k Hk. cbn [t_get release_artifacts]. rewrite lookup_update_rows.
      destruct (db_release_artifacts db !! k) as [ak|] eqn:Ek; [|done].
      simpl. by rewrite (not_this_artifact db k id ak).
    + intros a'. cbn [t_get release_artifacts]. rewrite lookup_update_rows, Hka. intros [= <-].
      apply Ha in Hka as Eid. by rewrite Eid, streq_refl.
  - intros n. apply hoare_drop. keeps_go.
Qed.

Lemma keeps_store_DeleteArtifact id : keeps (inv o) (ReleaseStore.DeleteArtifact id).
Proof.
  unfold ReleaseStore.DeleteArtifact. apply keeps_with_tx, hoare_keeps.
  eapply hoare_bind; [apply hoare_lock_parent_draft| |done]. intros a.
  eapply hoare_bind; [apply hoare_delete| |done].
  - intros db Hi [Hka Hd]. apply inv_set_artifacts; [done|]. destruct Hi as [(_ & Ha & _) _].
    apply (drafts_only_one db id a); [done..| |].
    + intros k Hk. apply option_eq. intros ak. rewrite lookup_delete_rows. split; [by intros []|].
      intros Ek. split; [done|]. by apply (not_this_artifact db k id).
    + intros a' [Hk' E]%lookup_delete_rows. simpl in Hk'. apply Ha in Hk'. by rewrite Hk', streq_refl in E.
  - intros n. apply hoare_drop. keeps_go.
Qed.

Lemma keeps_UpdateArtifactSignature id sig key : keeps (inv o) (UpdateArtifactSignature id sig key).
Proof.
  unfold UpdateArtifactSignature. keeps_go. apply keeps_update_where. intros db Hi _.
  by apply inv_same_files.
Qed.

(** Another status for releases that were published: their artifacts stay. *)
Lemma keeps_restatus id from (f : Time -> Release -> Release) (now : Time) :
  from <> ReleaseStatusDraft ->
  (forall r, rel_ID (f now r) = rel_ID r /\ header (f now r) = header r /\ ~ is_draft (f now r)
     /\ rel_PublishedAt (f now r) = rel_PublishedAt r) ->
  keeps (inv o) (sql_update_where releases (in_status id from) (f now)).
Proof.
  intros Hfrom Hf. apply keeps_update_where. intros db Hi _. apply inv_update_releases; [done| |].
  - intros r. destruct (Hf r) as (? & ? & _). done.
  - intros k r Hk Hs. left. destruct (Hf r) as (Eid & _ & Hnd & Epub). split; [done|].
    destruct Hi as [(_ & _ & _ & Hp & _) _]. unfold in_status, streq in Hs. bool_facts.
    unfold published_ok. rewrite Eid, Epub. apply (Hp k r Hk). unfold is_draft. congruence.
Qed.

Lemma publish_gate_true req db r :
  publish_gate req db r = true ->
  is_draft r /\
  (exists k a, db_release_artifacts db !! k = Some a /\ art_ReleaseID a = rel_ID r) /\
  (forall k a, db_release_artifacts db !! k = Some a -> art_ReleaseID a = rel_ID r -> IsUploaded a = true) /\
  (req = true -> forall k a, db_release_artifacts db !! k = Some a -> art_ReleaseID a = rel_ID r ->
     unsigned a = false).
Proof.
  unfold publish_gate. intros Hg. apply andb_true_iff in Hg as [Hg Hsig]. apply andb_true_iff in Hg as [Hg Hun].
  apply andb_true_iff in Hg as [Hd Hsome]. str_facts. apply negb_true_iff in Hun.
  split_and!; [done| | |].
  - apply row_exists_true in Hsome as (k & a & Hk & Ho). unfold owned in Ho. bool_facts. str_facts. eauto.
  - intros k a Hk Ho. pose proof (proj1 (row_exists_false _ _) Hun k a Hk) as E. unfold owned in E. simpl in E.
    rewrite Ho, streq_refl in E. apply orb_false_iff in E as [E1 E2]. unfold IsUploaded.
    unfold streq in E1, E2. by rewrite E1, E2.
  - intros -> k a Hk Ho. apply negb_true_iff in Hsig.
    pose proof (proj1 (row_exists_false _ _) Hsig k a Hk) as E. unfold owned in E. simpl in E.
    by rewrite Ho, streq_refl in E.
Qed.

Lemma keeps_PublishRelease id req : keeps (inv o) (PublishRelease id req).
Proof.
  unfold PublishRelease, diagnoseUnpublishable. keeps_go. apply keeps_stmt. intros db n db' Hi [= _ <-].
  apply inv_update_releases; [done|done|]. intros k r Hk Hhit. left. split; [by intros E|].
  apply andb_true_iff in Hhit as [_ Hgate]. apply publish_gate_true in Hgate as (_ & Hsome & Hall & _).
  split_and!; [done|exact Hsome|exact Hall].
Qed.

Lemma keeps_classify {A} id e : keeps (inv o) (classifyReleaseUpdateMiss (A := A) id e).
Proof. unfold classifyReleaseUpdateMiss. keeps_go. Qed.

#[local] Hint Resolve keeps_classify keeps_UpdateArtifactSignature keeps_PublishRelease keeps_CreateArtifact
  keeps_UpdateArtifactFile keeps_store_DeleteArtifact keeps_dispatch : licensehub.

Lemma keeps_YankRelease id reason : keeps (inv o) (YankRelease id reason).
Proof.
  unfold YankRelease. keeps_go. apply (keeps_restatus id ReleaseStatusPublished
    (fun now r => rel_set_status ReleaseStatusYanked reason (rel_PublishedAt r) (Some now) now r)); [done|].
  intros r. by split_and!.
Qed.

Lemma keeps_UnyankRelease id : keeps (inv o) (UnyankRelease id).
Proof.
  unfold UnyankRelease. keeps_go. apply (keeps_restatus id ReleaseStatusYanked
    (fun now r => rel_set_status ReleaseStatusPublished "" (rel_PublishedAt r) None now r)); [done|].
  intros r. by split_and!.
Qed.

Lemma keeps_UpdateReleaseNotes id name notes : keeps (inv o) (UpdateReleaseNotes id name notes).
Proof.
  unfold UpdateReleaseNotes. keeps_go. apply keeps_update_where. intros db Hi _.
  apply inv_update_releases; [done|done|]. intros k r Hk _.
  destruct (decide (is_draft r)); [by right|left]. split; [done|]. destruct Hi as [(_ & _ & _ & Hp & _) _].
  by apply (Hp k r Hk).
Qed.

Lemma keeps_DeleteRelease id : keeps (inv o) (DeleteRelease id).
Proof. unfold DeleteRelease. keeps_go. apply keeps_stmt. intros db u db' Hi. by apply inv_delete_draft. Qed.

Lemma keeps_insert_key k r : keeps (inv o) (sql_insert signing_keys k r).
Proof.
  apply keeps_stmt. intros db u db' Hi E. apply insert_row_Ok in E as (_ & Hc & _ & ->). by apply inv_insert_key.
Qed.

Lemma keeps_retire P note now : keeps (inv o) (sql_update_where signing_keys P (sk_retire note now)).
Proof. apply keeps_update_where. intros db Hi _. by apply inv_retire_keys. Qed.

#[local] Hint Resolve keeps_YankRelease keeps_UnyankRelease keeps_UpdateReleaseNotes keeps_DeleteRelease
  keeps_insert_key keeps_retire : licensehub.

(** *** The service *)

Lemma keeps_rotate s productID note : keeps (inv o) (RotateForProduct s productID note).
Proof.
  unfold RotateForProduct, new_signing_key, RotateSigningKey, Encrypt, fresh_id. keeps_go.
Qed.

Lemma keeps_generate s productID : keeps (inv o) (GenerateForProduct s productID).
Proof. unfold GenerateForProduct, new_signing_key, CreateSigningKey, Encrypt, fresh_id. keeps_go. Qed.

Lemma keeps_deactivate id note : keeps (inv o) (DeactivateSigningKey id note).
Proof. unfold DeactivateSigningKey, FindSigningKeyByID. keeps_go. Qed.

Lemma keeps_CreateRelease in_ : keeps (inv o) (CreateRelease in_).
Proof.
  unfold CreateRelease, ReleaseStore.CreateRelease, fresh_id. keeps_go. by apply keeps_insert_draft.
Qed.

Lemma keeps_AddArtifact s in_ : keeps (inv o) (AddArtifact s in_).
Proof. unfold AddArtifact, internal. keeps_go. Qed.

Lemma keeps_FinalizeArtifact id sha : keeps (inv o) (FinalizeArtifact id sha).
Proof. unfold FinalizeArtifact, computeArtifactSHA256, FindArtifact, internal. keeps_go. Qed.

Lemma keeps_DeleteArtifact id : keeps (inv o) (DeleteArtifact id).
Proof. unfold DeleteArtifact, storage_cleanup. keeps_go. Qed.

Lemma keeps_DeleteDraft id : keeps (inv o) (DeleteDraft id).
Proof. unfold DeleteDraft, storage_cleanup. keeps_go. Qed.

Lemma keeps_SignArtifact s rel a : keeps (inv o) (SignArtifact s rel a).
Proof. unfold SignArtifact, FindActiveSigningKey, read_artifact. keeps_go. Qed.

#[local] Hint Resolve keeps_SignArtifact : licensehub.

Lemma keeps_Publish s id : keeps (inv o) (Publish s id).
Proof.
  unfold Publish, check_uploaded, check_stored, decide_signing, GetActivePublicKey, FindActiveSigningKey,
    sign_one, sign_error, internal. keeps_go.
Qed.

Lemma keeps_Yank s id reason : keeps (inv o) (Yank s id reason).
Proof. unfold Yank, internal. keeps_go. Qed.

Lemma keeps_Unyank s id : keeps (inv o) (Unyank s id).
Proof. unfold Unyank, internal. keeps_go. Qed.

Lemma keeps_loadLicense I key productID capability usable :
  keeps I (loadLicenseForSDK key productID capability usable).
Proof.
  unfold loadLicenseForSDK, FindLicenseByKey, select_license. keeps_go; apply keeps_read;
    intros db x db'; destruct (first_row _); intros; by simplify_eq.
Qed.

Lemma keeps_collect {A} I chain (batch : string -> M goerr (list A)) warning :
  (forall ch, keeps I (batch ch)) -> keeps I (collect chain batch warning).
Proof. intros Hb. induction chain as [|ch chain IH]; simpl; keeps_go; done. Qed.

Lemma keeps_GenerateDownload I s in_ : keeps I (GenerateDownload s in_).
Proof.
  unfold GenerateDownload. repeat (keeps_step || apply keeps_loadLicense).
  - unfold findVersionWithFallback. keeps_go.
  - unfold findLatestPublished. repeat (keeps_step || apply keeps_collect).
Qed.
End operations.

(** ** Sequences of requests *)

Inductive release_request :=
  | RCreate (in_ : CreateReleaseInput)
  | RNotes (releaseID name notes : string)
  | RAddArtifact (in_ : AddArtifactInput)
  | RFinalize (artifactID expectedSHA256 : string)
  | RDeleteArtifact (artifactID : string)
  | RDeleteDraft (releaseID : string)
  | RPublish (releaseID : string)
  | RYank (releaseID reason : string)
  | RUnyank (releaseID : string)
  | RDownload (in_ : DownloadInput)
  | RGenerateKey (productID : string)
  | RRotateKey (productID note : string)
  | RDeactivateKey (keyID note : string).

Section requests.
Context `{UUIDs} `{GCM} `{Ed25519} `{Storage} `{Semver} (s : ReleaseService).

Definition serve (q : release_request) : M Empty_set unit :=
  match q with
  | RCreate in_ => ignore (CreateRelease in_)
  | RNotes id name notes => ignore (UpdateReleaseNotes id name notes)
  | RAddArtifact in_ => ignore (AddArtifact s in_)
  | RFinalize id sha => ignore (FinalizeArtifact id sha)
  | RDeleteArtifact id => ignore (DeleteArtifact id)
  | RDeleteDraft id => ignore (DeleteDraft id)
  | RPublish id => ignore (Publish s id)
  | RYank id reason => ignore (Yank s id reason)
  | RUnyank id => ignore (Unyank s id)
  | RDownload in_ => ignore (GenerateDownload s in_)
  | RGenerateKey p => ignore (GenerateForProduct (rs_signer s) p)
  | RRotateKey p note => ignore (RotateForProduct (rs_signer s) p note)
  | RDeactivateKey id note => ignore (DeactivateSigningKey id note)
  end.

Definition serve_all (qs : list release_request) : M Empty_set unit := for_each qs serve.

Lemma keeps_serve_all o qs : keeps (inv o) (serve_all qs).
Proof.
  apply keeps_for_each. intros q _. destruct q; apply keeps_ignore.
  - apply keeps_CreateRelease.
  - apply keeps_UpdateReleaseNotes.
  - apply keeps_AddArtifact.
  - apply keeps_FinalizeArtifact.
  - apply keeps_DeleteArtifact.
  - apply keeps_DeleteDraft.
  - apply keeps_Publish.
  - apply keeps_Yank.
  - apply keeps_Unyank.
  - apply keeps_GenerateDownload.
  - apply keeps_generate.
  - apply keeps_rotate.
  - apply keeps_deactivate.
Qed.

(** C28. Release_invariant: whatever requests are served, whatever fails and
    whatever the storage answers, a release that is not a draft has a
    publication date, at least one artifact and only uploaded ones; artifacts
    have a release, and a product at most one active signing key. *)
Theorem releases_stay_well_formed qs w :
  w_tx w = None -> releases_wf (w_db w) -> releases_wf (w_db (snd (serve_all qs w))).
Proof.
  intros Hw Hwf. apply (keeps_serve_all None qs w). by apply safe_closed.
Qed.

(** Published_is_final: a release that left the draft state is never deleted
    nor a draft again; its product, version and channel, the set of its
    artifacts, and the storage key, size and SHA-256 of each stay what they
    were. *)
Theorem published_files_frozen qs w rid r :
  w_tx w = None -> releases_wf (w_db w) -> db_releases (w_db w) !! rid = Some r -> ~ is_draft r ->
  exists r', db_releases (w_db (snd (serve_all qs w))) !! rid = Some r' /\ ~ is_draft r' /\
    header r' = header r /\ files rid (w_db (snd (serve_all qs w))) = files rid (w_db w).
Proof.
  intros Hw Hwf Hr Hnd. set (c := (header r, files rid (w_db w))).
  assert (inv (Some (rid, c)) (w_db w)) as Hi by (split; [done|]; by exists r).
  destruct (keeps_serve_all (Some (rid, c)) qs w (safe_closed _ w Hi Hw)) as [[_ Hfz] _]. exact Hfz.
Qed.
End requests.
