(* ===== verification/ReleaseProps.v ===== *)
(** * What publishing and downloading a release promise

    [Publish] answers only with a published, complete and, where the product
    asks for it, signed release; "latest" is the greatest version the client
    can install; a download is granted only for it, or for the pinned version,
    to a usable licence; a signature made at publishing verifies under the
    product's public key. *)

From S2P Require Import Prelude GoStrings Errors Model Crypto Base64 World Tables Logic Progress Usability AesGcm Store.
From S2P Require Import Webhook LicenseService Lookup ReleaseStore Release ReleaseInv Demo.
From Stdlib Require Import Ascii String.

#[local] Open Scope string_scope.
#[local] Open Scope Z_scope.

(** ** The greatest version *)

Section latest.
Context `{Semver}.

Definition norm (r : Release) : string := semverNormalize (rel_Version r).

(** [r] is at least as new as [r']: unparsable versions come last. *)
Definition at_least (r r' : Release) : Prop :=
  norm r' <> "" -> norm r <> "" /\ 0 <= semver_Compare (norm r) (norm r').

Lemma not_before r r' : negb (semver_before r' r) = true <-> at_least r r'.
Proof.
  unfold semver_before, at_least. fold (norm r) (norm r'). rewrite negb_true_iff.
  destruct (streq (norm r') "") eqn:E', (streq (norm r) "") eqn:E; str_facts; simpl.
  - done.
  - done.
  - split; [done|]. intros Hr. by destruct (Hr E').
  - rewrite Z.ltb_ge, (semver_Compare_sym (norm r') (norm r)). split; [intros ? _; split; [done|lia]|].
    intros Hr. destruct (Hr E'). lia.
Qed.

Lemma at_least_total r r' : at_least r r' \/ at_least r' r.
Proof.
  unfold at_least. destruct (decide (norm r = "")) as [->|Hr]; [by right|].
  destruct (decide (norm r' = "")) as [->|Hr']; [by left|].
  pose proof (semver_Compare_sym (norm r) (norm r')).
  destruct (decide (0 <= semver_Compare (norm r) (norm r'))); [left|right]; intros _; split; (done || lia).
Qed.

Lemma at_least_trans r1 r2 r3 : at_least r1 r2 -> at_least r2 r3 -> at_least r1 r3.
Proof.
  unfold at_least. intros H12 H23 H3. destruct (H23 H3) as [H2 C23]. destruct (H12 H2) as [H1 C12].
  split; [done|]. by eapply semver_Compare_trans.
Qed.

Lemma sorted_head pool r rest r' : sortBySemverDesc pool = r :: rest -> r' ∈ pool -> at_least r r'.
Proof.
  intros Hs Hin. apply not_before.
  apply (sort_le_head (fun r r' => negb (semver_before r' r))) with (l := pool) (l' := rest); [| |done..].
  - intros x y. rewrite !not_before. apply at_least_total.
  - intros x y z. rewrite !not_before. apply at_least_trans.
Qed.

Lemma elem_of_sorted pool r : r ∈ sortBySemverDesc pool <-> r ∈ pool.
Proof. unfold sortBySemverDesc. by rewrite sort_le_perm. Qed.

(** ** The pool of candidates *)

(** The releases a feed shows, among those of one channel. *)
Definition candidates (productID ch platform : string) (db : DB) : list Release :=
  (map_to_list (rows (feed_row productID ch platform db) (db_releases db))).*2.

Lemma feed_Ok productID ch platform limit w batch w' :
  ListPublishedReleasesForFeed productID ch platform limit w = (Ok batch, w') -> 0 < limit <= MaxFeedListLimit ->
  batch = with_artifacts (w_db w) <$> take (Z.to_nat limit)
            (sort_le (newest_first rel_PublishedAt) (candidates productID ch platform (w_db w)))
  /\ w_db w' = w_db w.
Proof.
  unfold ListPublishedReleasesForFeed. intros Hs Hl. apply stmt_Ok in Hs as (Hs & _).
  rewrite (proj2 (Z.leb_gt _ _)), (proj2 (Z.ltb_ge _ _)) in Hs by lia. by injection Hs as <- <-.
Qed.

Lemma collect_Ok {A} (batch : string -> M goerr (list A)) (f : string -> DB -> list A) warning chain w pool w' :
  (forall ch w l w', batch ch w = (Ok l, w') -> l = f ch (w_db w) /\ w_db w' = w_db w) ->
  collect chain batch warning w = (Ok pool, w') ->
  pool = List.concat (map (fun ch => f ch (w_db w)) chain) /\ w_db w' = w_db w.
Proof.
  intros Hb. revert w pool. induction chain as [|ch chain IH]; intros w pool Hc; simpl in Hc.
  - apply mret_Ok in Hc as [<- <-]. done.
  - apply bind_Ok in Hc as (l & w1 & Hl & Hc). apply bind_Ok in Hc as ([] & w2 & Hw & Hc).
    apply bind_Ok in Hc as (rest & w3 & Hrest & Hc). apply mret_Ok in Hc as [<- <-].
    apply Hb in Hl as [-> E1]. assert (w_db w2 = w_db w1) as E2.
    { destruct (_ =? _); [by injection Hw as <-|by apply mret_Ok in Hw as [_ <-]]. }
    apply IH in Hrest as [-> E3]. simpl. rewrite E2, E1 in *. done.
Qed.

Definition window : nat := Z.to_nat latestComputeWindow.

(** Fewer releases than the window in every channel shown. *)
Definition within_window (productID channel platform : string) (db : DB) : Prop :=
  forall ch, ch ∈ channelFallbackChain channel -> count (feed_row productID ch platform db) (db_releases db) <= latestComputeWindow.

Lemma pool_elem productID channel platform db r :
  r ∈ List.concat (map (fun ch => with_artifacts db <$> take window
        (sort_le (newest_first rel_PublishedAt) (candidates productID ch platform db))) (channelFallbackChain channel)) ->
  exists ch k r0, ch ∈ channelFallbackChain channel /\ db_releases db !! k = Some r0 /\
    feed_row productID ch platform db r0 = true /\ r = with_artifacts db r0.
Proof.
  intros Hr. apply list_elem_of_In, in_concat in Hr as (l & Hl & Hr). apply in_map_iff in Hl as (ch & <- & Hch).
  apply list_elem_of_In, list_elem_of_fmap in Hr as (r0 & -> & Hr0). apply (subseteq_take window) in Hr0.
  rewrite sort_le_perm in Hr0. apply elem_of_rows in Hr0 as (k & Hk & Hf).
  exists ch, k, r0. split_and!; [by apply list_elem_of_In|done..].
Qed.

Lemma elem_pool productID channel platform db ch k r0 :
  within_window productID channel platform db -> ch ∈ channelFallbackChain channel ->
  db_releases db !! k = Some r0 -> feed_row productID ch platform db r0 = true ->
  with_artifacts db r0 ∈ List.concat (map (fun ch => with_artifacts db <$> take window
        (sort_le (newest_first rel_PublishedAt) (candidates productID ch platform db))) (channelFallbackChain channel)).
Proof.
  intros Hwin Hch Hk Hf. apply list_elem_of_In, in_concat. eexists. split; [apply in_map_iff; exists ch; split; [done|by apply list_elem_of_In]|].
  apply list_elem_of_In, list_elem_of_fmap_2. rewrite take_ge.
  - rewrite sort_le_perm. apply elem_of_rows. eauto.
  - rewrite (Permutation_length (sort_le_perm _ _)). unfold candidates. rewrite length_fmap, length_map_to_list.
    specialize (Hwin ch Hch). unfold count in Hwin. unfold window. lia.
Qed.

(** Latest_is_greatest: a release found as the latest is published, of the
    product, in a channel the caller's channel sees, and has an uploaded
    artifact for the platform; as long as no channel holds more releases than
    the window, it is at least as new, in semver order, as every such
    release. *)
Theorem findLatestPublished_greatest productID channel platform w r w' :
  findLatestPublished productID channel platform w = (Ok r, w') ->
  (exists ch k r0, ch ∈ channelFallbackChain channel /\ db_releases (w_db w) !! k = Some r0 /\
     feed_row productID ch platform (w_db w) r0 = true /\ r = with_artifacts (w_db w) r0) /\
  (within_window productID channel platform (w_db w) ->
   forall ch k r', ch ∈ channelFallbackChain channel -> db_releases (w_db w) !! k = Some r' ->
     feed_row productID ch platform (w_db w) r' = true -> at_least r r').
Proof.
  unfold findLatestPublished. intros Hr. apply bind_Ok in Hr as (pool & w1 & Hc & Hr).
  apply (collect_Ok _ (fun ch db => with_artifacts db <$> take window
    (sort_le (newest_first rel_PublishedAt) (candidates productID ch platform db)))) in Hc as [Ep E1].
  2:{ intros ch w0 l w0' Hl. by apply feed_Ok in Hl. }
  destruct (sortBySemverDesc pool) as [|r1 rest] eqn:Es; [by apply throw_Ok in Hr|]. apply mret_Ok in Hr as [-> _].
  subst pool. split.
  - apply pool_elem, elem_of_sorted. rewrite Es. by left.
  - intros Hwin ch k r' Hch Hk Hf. pose proof (elem_pool _ _ _ _ ch k r' Hwin Hch Hk Hf) as Hin.
    exact (sorted_head _ _ _ _ Es Hin).
Qed.
End latest.

(** ** Reading releases *)

Lemma select_release_Ok load P w r w' :
  select_release load P w = (Ok r, w') ->
  exists k r0, db_releases (w_db w) !! k = Some r0 /\ P r0 = true /\ r = load (w_db w) r0 /\ w_db w' = w_db w.
Proof.
  unfold select_release. intros Hr. apply map_err_Ok, stmt_Ok in Hr as (Hr & _).
  destruct (first_row _) as [r0|] eqn:E; [|done]. injection Hr as <- <-.
  apply first_row_rows in E as (k & Hk & HP). exists k, r0. done.
Qed.

Lemma elem_of_artifacts rid db a :
  a ∈ artifacts_of rid db <-> exists k, db_release_artifacts db !! k = Some a /\ art_ReleaseID a = rid.
Proof.
  unfold artifacts_of. rewrite elem_of_rows. unfold owned, streq. by setoid_rewrite bool_decide_eq_true.
Qed.

Lemma pick_artifact_Some platform arts a :
  pick_artifact platform arts = Some a -> a ∈ arts /\ art_Platform a = platform /\ IsUploaded a = true.
Proof.
  unfold pick_artifact. intros Hh. apply head_Some_elem_of, list_elem_of_filter in Hh as [Hp Ha].
  bool_facts. str_facts. done.
Qed.

Section downloads.
Context `{UUIDs} `{Storage} `{Semver} (s : ReleaseService).

(** A release a licence's owner may fetch: published, of its product, in a
    channel the given one sees. *)
Definition offered (lic : License) (channel : string) (r : Release) : Prop :=
  rel_ProductID r = lic_ProductID lic /\ rel_Status r = ReleaseStatusPublished /\
  rel_Channel r ∈ channelFallbackChain channel.

Lemma feed_row_offered lic ch channel platform db r :
  ch ∈ channelFallbackChain channel -> feed_row (lic_ProductID lic) ch platform db r = true -> offered lic channel r.
Proof. intros Hch Hf. unfold feed_row in Hf. bool_facts. str_facts. subst ch. by split_and!. Qed.

Lemma findVersion_Ok productID version channel w r w' :
  findVersionWithFallback productID version channel w = (Ok r, w') ->
  exists k r0, db_releases (w_db w) !! k = Some r0 /\ r = with_artifacts (w_db w) r0 /\
    rel_ProductID r0 = productID /\ rel_Version r0 = version /\ rel_Status r0 = ReleaseStatusPublished /\
    rel_Channel r0 ∈ channelFallbackChain channel.
Proof.
  unfold findVersionWithFallback. intros Hr. apply bind_Ok in Hr as (r1 & w1 & Hf & Hr).
  apply select_release_Ok in Hf as (k & r0 & Hk & HP & -> & _). bool_facts. str_facts.
  destruct (streq _ ReleaseStatusYanked); [by apply throw_Ok in Hr|].
  destruct (streq _ ReleaseStatusPublished) eqn:Es; [|by apply throw_Ok in Hr]. str_facts.
  destruct (bool_decide _) eqn:Ec; [|by apply throw_Ok in Hr]. bool_facts.
  apply mret_Ok in Hr as [<- _]. exists k, r0. by split_and!.
Qed.

(** C29. Download_sound: a granted download is for a stored, usable licence of the
    asked product, which has the release capability; the release is published,
    of that product and in a visible channel; it is the pinned version, or
    else, as long as none of the channels looked at has more than 1000 published
    releases for the platform (the window the query reads), at least as new as
    every release those channels offer the platform; size and digest are those of its uploaded artifact for the platform, and
    the URL is the storage's for its key. *)
Theorem GenerateDownload_sound in_ w res w' :
  w_tx w = None -> GenerateDownload s in_ w = (Ok res, w') ->
  let db := w_db w in
  let channel := or_default ReleaseChannelStable (di_Channel in_) in
  exists lic used k r ka a n,
    found (di_LicenseKey in_) db lic /\ (di_ProductID in_ = "" \/ lic_ProductID lic = di_ProductID in_) /\
    (exists p, lic_Product lic = Some p /\ ProductSupports (prod_Type p) CapReleases = true) /\
    w_clock w <= used /\ IsLicenseUsable used lic = true /\
    db_releases db !! k = Some r /\ offered lic channel r /\
    (if streq (di_Version in_) ""
     then within_window (lic_ProductID lic) channel (di_Platform in_) db ->
          forall ch k' r', ch ∈ channelFallbackChain channel -> db_releases db !! k' = Some r' ->
            feed_row (lic_ProductID lic) ch (di_Platform in_) db r' = true -> at_least r r'
     else rel_Version r = di_Version in_) /\
    db_release_artifacts db !! ka = Some a /\ art_ReleaseID a = rel_ID r /\
    art_Platform a = di_Platform in_ /\ IsUploaded a = true /\
    (dr_Version res, dr_Platform res, dr_SHA256 res, dr_FileSize res)
      = (rel_Version r, art_Platform a, art_SHA256 a, art_FileSize a) /\
    st_PresignedGet n (art_FileKey a) (DownloadFilename (with_artifacts db r) a) (rs_downloadTTL s) = Ok (dr_URL res).
Proof.
  intros Hw Hr db channel. unfold GenerateDownload in Hr. destruct (validatePlatform _); [by apply throw_Ok in Hr|].
  fold channel in Hr. destruct (IsValidReleaseChannel channel); [|by apply throw_Ok in Hr]. simpl in Hr.
  apply bind_readonly_Ok in Hr as (lic & w1 & Hl & D1 & T1 & C1 & Hr); [|auto with licensehub|done].
  apply loadLicenseForSDK_Ok in Hl as (Hfound & Hscope & Hcap & Huse); [|done].
  destruct Hcap as [Hcap|Hcap]; [done|]. destruct (Huse eq_refl) as (used & Hu & Husable).
  apply bind_Ok in Hr as (rel & w2 & Hrel & Hr). apply (proj1 (map_err_Ok _ _ _ _ _)) in Hrel.
  assert (exists k r, db_releases db !! k = Some r /\ rel = with_artifacts db r /\ offered lic channel r /\
    if streq (di_Version in_) ""
    then within_window (lic_ProductID lic) channel (di_Platform in_) db ->
         forall ch k' r', ch ∈ channelFallbackChain channel -> db_releases db !! k' = Some r' ->
           feed_row (lic_ProductID lic) ch (di_Platform in_) db r' = true -> at_least r r'
    else rel_Version r = di_Version in_) as (k & r & Hk & -> & Hoff & Hver).
  { destruct (streq (di_Version in_) ""); simpl in Hrel.
    - apply findLatestPublished_greatest in Hrel as [(ch & k & r & Hch & Hk & Hf & ->) Hmax]. rewrite D1 in *.
      exists k, r. split_and!; [done..|by eapply feed_row_offered|exact Hmax].
    - apply findVersion_Ok in Hrel as (k & r & Hk & -> & Hp & Hv & Hst & Hch). rewrite D1 in *.
      exists k, r. by split_and!. }
  destruct (pick_artifact _ _) as [a|] eqn:Ea; [|by apply throw_Ok in Hr].
  apply pick_artifact_Some in Ea as (Ha & Hpl & Hup). apply elem_of_artifacts in Ha as (ka & Hka & Hown).
  apply bind_Ok in Hr as (url & w3 & Hurl & Hr). apply (proj1 (map_err_Ok _ _ _ _ _)) in Hurl.
  injection Hurl as Hurl <-. apply bind_Ok in Hr as (now & w4 & _ & Hr). apply mret_Ok in Hr as [<- _].
  exists lic, used, k, r, ka, a, (List.length (w_events w2)). by split_and!.
Qed.
End downloads.

(** ** Publishing *)

Section publishing.
Context `{UUIDs} `{GCM} `{Ed25519} `{Storage} `{Semver} (s : ReleaseService).

(** What publishing does not change of a release and of the catalogue. *)
Definition steady (products : gmap string Product) (id productID : string) (db : DB) : Prop :=
  db_products db = products /\ exists r, db_releases db !! id = Some r /\ rel_ProductID r = productID.

Lemma keeps_steady_signature products rid pid id sig key :
  keeps (steady products rid pid) (UpdateArtifactSignature id sig key).
Proof. unfold UpdateArtifactSignature. keeps_go. Qed.

Lemma keeps_steady_Dispatch {E} products rid pid rel event :
  keeps (E := E) (steady products rid pid) (dispatchWebhook s rel event).
Proof. unfold dispatchWebhook. destruct (rs_webhook s); [apply keeps_Dispatch; by intros m db|keeps_go]. Qed.

Lemma keeps_sign_one I rel a :
  (forall id sig key, keeps I (UpdateArtifactSignature id sig key)) -> keeps I (sign_one s rel a).
Proof.
  intros Hu. unfold sign_one, sign_error, SignArtifact, FindActiveSigningKey, read_artifact.
  repeat (keeps_step || apply Hu || apply keeps_storage_call).
Qed.

(** The transaction stays closed. *)
Lemma closes_storage_call {A} op key (answer : nat -> result goerr A) : closes (storage_call op key answer).
Proof. by intros w. Qed.
Lemma closes_select_release load P : closes (select_release load P).
Proof. apply closes_map_err, closes_stmt. Qed.
Lemma closes_FindReleaseByID id : closes (FindReleaseByID id).
Proof. apply closes_select_release. Qed.
#[local] Hint Resolve closes_storage_call closes_FindReleaseByID : licensehub.

Lemma closes_sign_one rel a : closes (sign_one s rel a).
Proof.
  unfold sign_one, sign_error, SignArtifact, FindActiveSigningKey, read_artifact, UpdateArtifactSignature. closes_go.
Qed.

Lemma closes_PublishRelease id req : closes (PublishRelease id req).
Proof. unfold PublishRelease, diagnoseUnpublishable. closes_go. Qed.

(** A publication that is answered went through the gate. *)
Lemma diagnose_Err {A} id req w (a : A) w' : diagnoseUnpublishable id req w <> (Ok a, w').
Proof.
  unfold diagnoseUnpublishable. intros E. apply bind_Ok in E as (r & w1 & _ & E).
  destruct (negb _); [by apply throw_Ok in E|]. apply bind_Ok in E as (n & w2 & _ & E).
  destruct (n =? 0); [by apply throw_Ok in E|]. apply bind_Ok in E as (m & w3 & _ & E).
  destruct (0 <? m); [by apply throw_Ok in E|]. destruct req; [|by apply throw_Ok in E].
  apply bind_Ok in E as (u & w4 & _ & E). destruct (0 <? u); by apply throw_Ok in E.
Qed.

Definition all_signed (rid : string) (db : DB) : Prop :=
  forall k a, db_release_artifacts db !! k = Some a -> art_ReleaseID a = rid -> unsigned a = false.

Lemma PublishRelease_Ok id req w w' :
  keyed_releases (w_db w) -> PublishRelease id req w = (Ok tt, w') ->
  exists r now m, db_releases (w_db w) !! id = Some r /\ publish_gate req (w_db w) r = true /\
    w_db w' = t_set releases m (w_db w) /\ m !! id = Some (publish_row now r).
Proof.
  intros Hkey. unfold PublishRelease. intros Hr. apply bind_Ok in Hr as (now & w1 & Hn & Hr).
  assert (w_db w1 = w_db w) as E1 by (pose proof (still_sql_now (E := goerr) w) as Hs; rewrite Hn in Hs; apply Hs).
  apply bind_Ok in Hr as (n & w2 & Hu & Hr). destruct (n =? 0) eqn:En; [by apply diagnose_Err in Hr|].
  apply mret_Ok in Hr as [_ <-]. apply stmt_Ok in Hu as (Hu & _). rewrite E1 in Hu.
  injection Hu as Hn' <-. bool_facts. subst n.
  set (hit r := streq (rel_ID r) id && publish_gate req (w_db w) r) in *.
  destruct (row_exists hit (db_releases (w_db w))) eqn:Ex.
  2:{ exfalso. apply En, count_zero. by apply row_exists_false. }
  apply row_exists_true in Ex as (k & r & Hk & Hhit). pose proof Hhit as Hhit'. unfold hit in Hhit'.
  apply andb_true_iff in Hhit' as [Hid Hg]. str_facts. apply Hkey in Hk as Ek. assert (k = id) as -> by congruence.
  exists r, now, (update_rows hit (publish_row now) (db_releases (w_db w))). split_and!; [done..|].
  rewrite lookup_update_rows, Hk. simpl. by rewrite Hhit.
Qed.

Lemma decide_signing_db pid w b w' : decide_signing s pid w = (Ok b, w') -> w_tx w = None ->
  w_db w' = w_db w /\ w_tx w' = None.
Proof.
  intros Hd Hw. assert (readonly (decide_signing s pid)) as Hro.
  { unfold decide_signing, GetActivePublicKey, FindActiveSigningKey. readonly_go. }
  destruct (readonly_run _ _ _ _ Hro Hd Hw) as (? & ? & _). done.
Qed.

Lemma readonly_checks rel :
  readonly (for_each rel check_uploaded) /\ readonly (for_each rel check_stored).
Proof.
  split; (induction rel as [|a rel IH]; simpl; [apply readonly_ret|]; apply readonly_bind; [|done]).
  - unfold check_uploaded. readonly_go.
  - unfold check_stored. apply readonly_bind; [apply readonly_attempt; by intros w|readonly_go].
Qed.

Lemma readonly_FindProductByID id : readonly (FindProductByID id).
Proof. apply readonly_stmt. intros db a db'. destruct (first_row _); intros; by simplify_eq. Qed.

Lemma sign_loop (b : bool) rel o products pid id w w' :
  (if b then for_each (rel_Artifacts rel) (sign_one s rel) else mret tt) w = (Ok tt, w') ->
  w_tx w = None -> inv o (w_db w) -> steady products id pid (w_db w) ->
  inv o (w_db w') /\ steady products id pid (w_db w') /\ w_tx w' = None.
Proof.
  intros Hr Hw Hi Hst. set (m := if b then _ else _) in Hr.
  assert (keeps (inv o) m /\ keeps (steady products id pid) m /\ closes m) as (Hk & Hs & Hc).
  { unfold m. destruct b; [|split_and!; auto with licensehub]. split_and!.
    - apply keeps_for_each. intros a _. apply keeps_sign_one. intros. apply keeps_UpdateArtifactSignature.
    - apply keeps_for_each. intros a _. apply keeps_sign_one. intros. apply keeps_steady_signature.
    - apply closes_for_each. intros a. apply closes_sign_one. }
  pose proof (Hk w (safe_closed _ _ Hi Hw)) as [Hi' _]. pose proof (Hs w (safe_closed _ _ Hst Hw)) as [Hst' _].
  pose proof (Hc w Hw) as Hw'. rewrite Hr in Hi', Hst', Hw'. done.
Qed.

(** What [Publish] has found before it signs. *)
Lemma publish_checks id w rel w1 w2 w3 w4 p b w5 :
  w_tx w = None -> keyed_releases (w_db w) ->
  FindReleaseByID id w = (Ok rel, w1) ->
  for_each (rel_Artifacts rel) check_uploaded w1 = (Ok tt, w2) ->
  for_each (rel_Artifacts rel) check_stored w2 = (Ok tt, w3) ->
  FindProductByID (rel_ProductID rel) w3 = (Ok p, w4) -> decide_signing s (rel_ProductID rel) w4 = (Ok b, w5) ->
  w_db w5 = w_db w /\ w_tx w5 = None /\
  (exists r, db_releases (w_db w) !! id = Some r /\ rel_ProductID r = rel_ProductID rel) /\
  exists kp, db_products (w_db w) !! kp = Some p /\ prod_ID p = rel_ProductID rel.
Proof.
  intros Hw Hkey Hf Hu He Hp Hd. destruct (readonly_checks (rel_Artifacts rel)) as [Ru Re].
  pose proof (closes_FindReleaseByID id w Hw) as T1. rewrite Hf in T1. simpl in T1.
  apply select_release_Ok in Hf as (k & r0 & Hk & Hid & -> & D1). str_facts.
  assert (k = id) as -> by (apply Hkey in Hk; congruence).
  destruct (readonly_run _ _ _ _ Ru Hu T1) as (D2 & T2 & _).
  destruct (readonly_run _ _ _ _ Re He T2) as (D3 & T3 & _).
  destruct (readonly_run _ _ _ _ (readonly_FindProductByID _) Hp T3) as (D4 & T4 & _).
  destruct (decide_signing_db _ _ _ _ Hd T4) as (D5 & T5).
  apply stmt_Ok in Hp as (Hp & _). destruct (first_row _) as [p0|] eqn:Ep; [|done]. injection Hp as -> _.
  apply first_row_rows in Ep as (kp & Hkp & Hpid). str_facts.
  assert (w_db w3 = w_db w) as D by congruence. rewrite D in Hkp. split_and!; [congruence|done| |].
  - by exists r0.
  - by exists kp.
Qed.

(** The webhooks touch nothing but their deliveries. *)
Lemma after_dispatch rel event w w' :
  dispatchWebhook (E := error) s rel event w = (Ok tt, w') -> w_tx w = None ->
  db_releases (w_db w') = db_releases (w_db w) /\
  db_release_artifacts (w_db w') = db_release_artifacts (w_db w) /\
  db_products (w_db w') = db_products (w_db w).
Proof.
  intros Hd Hw. set (I db := db_releases db = db_releases (w_db w)
    /\ db_release_artifacts db = db_release_artifacts (w_db w) /\ db_products db = db_products (w_db w)).
  assert (keeps (E := error) I (dispatchWebhook s rel event)) as Hk.
  { unfold dispatchWebhook. destruct (rs_webhook s); [apply keeps_Dispatch; by intros m db|keeps_go]. }
  destruct (Hk w (safe_closed I w ltac:(by split_and!) Hw)) as [Hi _]. by rewrite Hd in Hi.
Qed.

(** From the gate to the answer. *)
Lemma published_end id b w6 w7 out w8 w9 :
  w_tx w6 = None -> releases_wf (w_db w6) -> PublishRelease id b w6 = (Ok tt, w7) ->
  FindReleaseByID id w7 = (Ok out, w8) ->
  dispatchWebhook (E := error) s out EventReleasePublished w8 = (Ok tt, w9) ->
  exists r now, db_releases (w_db w6) !! id = Some r /\ is_draft r /\
    db_releases (w_db w9) !! id = Some (publish_row now r) /\ published_ok (w_db w9) (publish_row now r) /\
    out = with_product_artifacts (w_db w9) (publish_row now r) /\
    db_products (w_db w9) = db_products (w_db w6) /\ (b = true -> all_signed id (w_db w9)).
Proof.
  intros T6 Hwf6 Hpub Hf Hdis.
  destruct (PublishRelease_Ok id b w6 w7 (proj1 Hwf6) Hpub) as (r & now & m & Hr6 & Hgate & D7 & Hr7).
  apply publish_gate_true in Hgate as (Hdraft & _ & _ & Hsig).
  pose proof (keeps_PublishRelease None id b w6 (safe_closed (inv None) w6 (conj Hwf6 I) T6)) as [[Hwf7 _] _].
  pose proof (closes_PublishRelease id b w6 T6) as T7. rewrite Hpub in Hwf7, T7. simpl in Hwf7, T7.
  pose proof (closes_FindReleaseByID id w7 T7) as T8. rewrite Hf in T8. simpl in T8.
  apply select_release_Ok in Hf as (k & r8 & Hk & Hid & -> & D8). str_facts.
  assert (k = id) as -> by (apply (proj1 Hwf7) in Hk; congruence).
  assert (db_releases (w_db w7) !! id = Some (publish_row now r)) as Hr7' by (by rewrite D7).
  assert (r8 = publish_row now r) as -> by congruence.
  pose proof (after_dispatch _ _ _ _ Hdis T8) as (Er & Ea & Ep). rewrite D8 in Er, Ea, Ep.
  exists r, now. rewrite Er, Ep. split_and!; [done|done|done| | |by rewrite D7|].
  - unfold published_ok. rewrite Ea. apply (proj1 (proj2 (proj2 (proj2 Hwf7))) id _ Hr7'). by intros E.
  - unfold with_product_artifacts, artifacts_of. by rewrite Ea, Ep.
  - intros Hb. unfold all_signed. rewrite Ea, D7. intros ka a Hka Hown. apply (Hsig Hb ka a Hka).
    apply (proj1 Hwf6) in Hr6. congruence.
Qed.

(** Publish_sound: a publication that is answered was of a draft; the release
    is then published, has artifacts, all uploaded, is answered as it is
    stored, and when its product requires signing every artifact carries a
    signature and the key it was made with. *)
Theorem Publish_sound id w out w' :
  w_tx w = None -> releases_wf (w_db w) -> Publish s id w = (Ok out, w') ->
  (exists r, db_releases (w_db w) !! id = Some r /\ is_draft r) /\
  exists r kp p, db_releases (w_db w') !! id = Some r /\ rel_Status r = ReleaseStatusPublished /\
    published_ok (w_db w') r /\ out = with_product_artifacts (w_db w') r /\
    db_products (w_db w') !! kp = Some p /\ prod_ID p = rel_ProductID r /\
    (prod_RequireSigning p = true -> all_signed id (w_db w')).
Proof.
  intros Hw Hwf Hr. unfold Publish in Hr. apply bind_Ok in Hr as (rel & w1 & Hf & Hr).
  apply (proj1 (map_err_Ok _ _ _ _ _)) in Hf. destruct (bool_decide _); [by apply throw_Ok in Hr|].
  apply bind_Ok in Hr as ([] & w2 & Hu & Hr). apply bind_Ok in Hr as ([] & w3 & He & Hr).
  apply bind_Ok in Hr as (p & w4 & Hp & Hr). apply (proj1 (map_err_Ok _ _ _ _ _)) in Hp.
  apply bind_Ok in Hr as (b & w5 & Hd & Hr). destruct (negb b && _) eqn:Ereq; [by apply throw_Ok in Hr|].
  apply bind_Ok in Hr as ([] & w6 & Hsign & Hr). apply bind_Ok in Hr as ([] & w7 & Hpub & Hr).
  apply (proj1 (map_err_Ok _ _ _ _ _)) in Hpub. apply bind_Ok in Hr as (rel' & w8 & Hf' & Hr).
  apply (proj1 (map_err_Ok _ _ _ _ _)) in Hf'. apply bind_Ok in Hr as ([] & w9 & Hdis & Hr).
  apply mret_Ok in Hr as [<- <-].
  destruct (publish_checks id w rel w1 w2 w3 w4 p b w5 Hw (proj1 Hwf) Hf Hu He Hp Hd)
    as (D5 & T5 & (r0 & Hr0 & Hpid) & kp & Hkp & Hpp).
  set (c := (header r0, files id (w_db w))).
  assert (steady (db_products (w_db w)) id (rel_ProductID rel) (w_db w5)) as Hst by (rewrite D5; split; eauto).
  assert (inv None (w_db w5)) as Hi by (by rewrite D5).
  destruct (sign_loop _ _ None _ _ _ _ _ Hsign T5 Hi Hst) as ([Hwf6 _] & [Hprod6 (r6 & Hr6 & Hpid6)] & T6).
  destruct (published_end id b w6 w7 rel' w8 w9 T6 Hwf6 Hpub Hf' Hdis)
    as (r6' & now & Hr6' & Hdraft & Hr9 & Hok & Hout & Hprod9 & Hsig).
  assert (r6' = r6) as -> by congruence. split.
  - exists r0. split; [done|]. destruct (decide (is_draft r0)) as [|Hnd]; [done|]. exfalso.
    assert (inv (Some (id, c)) (w_db w5)) as Hi' by (rewrite D5; split; [done|]; by exists r0).
    destruct (sign_loop _ _ (Some (id, c)) _ _ _ _ _ Hsign T5 Hi' Hst) as ([_ (r6' & Hr6'' & Hnd' & _)] & _).
    congruence.
  - exists (publish_row now r6), kp, p. rewrite Hprod9, Hprod6. split_and!; [done..| |].
    + change (prod_ID p = rel_ProductID r6). congruence.
    + intros Hreq. apply Hsig. rewrite Hreq, andb_true_r in Ereq. by apply negb_false_iff in Ereq.
Qed.
End publishing.
