(* ===== verification/ReleaseSigning.v ===== *)
(** * The signing keys of a product and the signatures made with them

    A signature made at publishing verifies, under the public key of the row
    it names, over the very bytes the storage served; a rotation leaves exactly
    one active key and retires the others with its note.  The last section is
    what the unguarded signature update allows. *)

From S2P Require Import Prelude GoStrings Errors Model Crypto Base64 World Tables Logic Progress Usability AesGcm Store.
From S2P Require Import Webhook LicenseService Token ReleaseStore Release ReleaseInv ReleaseProps Demo.
From Stdlib Require Import Ascii String.

#[local] Open Scope string_scope.
#[local] Open Scope Z_scope.

(** ** Rotation *)

Section rotation.
Context `{UUIDs}.

Lemma update_where_Ok {K R} `{Countable K} (T : Table K R) P f w n w' :
  sql_update_where T P f w = (Ok n, w') ->
  n = count P (t_get T (w_db w)) /\ w_db w' = t_set T (update_rows P f (t_get T (w_db w))) (w_db w) /\
  w_tx w' = w_tx w /\ tx_ok w.
Proof.
  intros Hs. apply stmt_Ok in Hs as (Hs & Htx & Hok & _). cbv zeta in Hs.
  destruct (head _); [done|]. by injection Hs as -> <-.
Qed.

Lemma insert_Ok {K R} `{Countable K} (T : Table K R) k r w w' :
  sql_insert T k r w = (Ok tt, w') ->
  t_get T (w_db w) !! k = None /\ w_db w' = t_set T (<[k := r]> (t_get T (w_db w))) (w_db w) /\
  w_tx w' = w_tx w /\ tx_ok w.
Proof.
  intros Hs. apply stmt_Ok in Hs as (Hs & Htx & Hok & _). apply insert_row_Ok in Hs as (Hk & _ & _ & ->). done.
Qed.

(** Rotation_exact: a rotation that is answered stored the new key, active, and
    every key that was active for the product is kept, inactive, with the
    rotation's note; no other key changed. *)
Theorem RotateSigningKey_exact newKey note w row w' :
  RotateSigningKey newKey note w = (Ok row, w') ->
  sk_Active row = true /\ sk_ProductID row = sk_ProductID newKey /\
  sk_PublicKey row = sk_PublicKey newKey /\ sk_PrivateKeyEncrypted row = sk_PrivateKeyEncrypted newKey /\
  exists id now, db_signing_keys (w_db w) !! id = None /\
    db_signing_keys (w_db w') = <[id := row]> ((fun k => if active_key (sk_ProductID newKey) k then sk_retire note now k else k)
                                         <$> db_signing_keys (w_db w)).
Proof.
  unfold RotateSigningKey. intros Hr. apply bind_Ok in Hr as (id & w1 & Hid & Hr).
  assert (w_db w1 = w_db w) as D1.
  { unfold fresh_id in Hid. destruct (bool_decide _); [by injection Hid as _ <-|by apply mret_Ok in Hid as [_ <-]]. }
  apply with_tx_Ok in Hr as (w2 & wb & Hb & -> & D2 & _). apply bind_Ok in Hb as ([] & w3 & Hl & Hb).
  apply (proj1 (map_err_Ok _ _ _ _ _)) in Hl. apply stmt_Ok in Hl as ([= D3] & _).
  apply bind_Ok in Hb as (now & w4 & Hn & Hb). pose proof (still_time_Now (E := goerr) w3) as Hst.
  rewrite Hn in Hst. destruct Hst as (D4 & _). simpl in D4.
  apply bind_Ok in Hb as (n & w5 & Hu & Hb). apply update_where_Ok in Hu as (_ & D5 & T5 & Ok5).
  apply bind_Ok in Hb as (created & w6 & Hc & Hb). pose proof (still_sql_now (E := goerr) w5) as Hst.
  rewrite Hc in Hst. destruct Hst as (D6 & T6 & _). simpl in D6, T6.
  apply bind_Ok in Hb as ([] & w7 & Hi & Hb). apply (proj1 (map_err_Ok _ _ _ _ _)) in Hi.
  apply insert_Ok in Hi as (Hfree & D7 & T7 & Ok7). apply bind_Ok in Hb as ([] & w8 & Hcm & Hb).
  apply mret_Ok in Hb as [<- <-]. apply commit_Ok in Hcm; [|unfold tx_ok in *; by rewrite T7].
  split_and!; [done..|]. exists id, now. rewrite Hcm, D7, D6, D5. cbn [t_get signing_keys] in *.
  assert (w_db w4 = w_db w) as D by congruence. rewrite D. split; [|done].
  rewrite D6, D5, D in Hfree. cbn in Hfree. rewrite lookup_update_rows in Hfree.
  by destruct (db_signing_keys (w_db w) !! id).
Qed.
End rotation.

(** ** Signatures *)

Section signing.
Context `{UUIDs} `{GCM} `{Ed25519} `{Storage}.

Lemma new_signing_key_Ok aead pid w k w' :
  new_signing_key aead pid w = (Ok k, w') ->
  exists seed, len seed = 32 /\ sk_PublicKey k = Std.EncodeToString (PublicKey (NewKeyFromSeed seed)) /\
    Decrypt aead (sk_PrivateKeyEncrypted k) pid = Ok seed /\ sk_ProductID k = pid /\ sk_Active k = true.
Proof.
  unfold new_signing_key. intros Hr. apply bind_Ok in Hr as ([seed|] & w1 & Hs & Hr); [|by apply throw_Ok in Hr].
  apply rand_Read_Ok in Hs. apply bind_Ok in Hr as (enc & w2 & He & Hr).
  apply (proj1 (map_err_Ok _ _ _ _ _)) in He. apply Decrypt_Encrypt in He as [He _].
  apply mret_Ok in Hr as [<- _]. exists seed. unfold len. rewrite Hs. by split_and!.
Qed.

Lemma GenerateForProduct_Ok aead max pid w k w' :
  GenerateForProduct (Some (mkSigner (Some aead) max)) pid w = (Ok k, w') ->
  exists seed, len seed = 32 /\ sk_PublicKey k = Std.EncodeToString (PublicKey (NewKeyFromSeed seed)) /\
    Decrypt aead (sk_PrivateKeyEncrypted k) pid = Ok seed.
Proof.
  unfold GenerateForProduct. simpl. destruct (streq pid ""); [intros Hr; by apply throw_Ok in Hr|]. intros Hr.
  apply bind_Ok in Hr as (k0 & w1 & Hk & Hr). apply new_signing_key_Ok in Hk as (seed & Hl & Hp & Hd & _).
  unfold CreateSigningKey in Hr. apply bind_Ok in Hr as (id & w2 & _ & Hr).
  apply bind_Ok in Hr as (now & w3 & _ & Hr). apply bind_Ok in Hr as ([] & w4 & _ & Hr).
  apply mret_Ok in Hr as [<- _]. by exists seed.
Qed.

Lemma RotateForProduct_Ok aead max pid note w k w' :
  RotateForProduct (Some (mkSigner (Some aead) max)) pid note w = (Ok k, w') ->
  exists seed, len seed = 32 /\ sk_PublicKey k = Std.EncodeToString (PublicKey (NewKeyFromSeed seed)) /\
    Decrypt aead (sk_PrivateKeyEncrypted k) pid = Ok seed.
Proof.
  unfold RotateForProduct. simpl. destruct (streq pid ""); [intros Hr; by apply throw_Ok in Hr|]. intros Hr.
  apply bind_Ok in Hr as (k0 & w1 & Hk & Hr). apply new_signing_key_Ok in Hk as (seed & Hl & Hp & Hd & _).
  apply RotateSigningKey_exact in Hr as (_ & _ & Ep & Ee & _). exists seed. by rewrite Ep, Ee.
Qed.

(** [k] is a row that the signer made for the product, its first key or a
    rotation's. *)
Definition made_key (s : option Signer) (pid : string) (k : ReleaseSigningKey) : Prop :=
  exists w w', GenerateForProduct s pid w = (Ok k, w') \/ exists note, RotateForProduct s pid note w = (Ok k, w').

Lemma made_key_seed aead max pid k :
  made_key (Some (mkSigner (Some aead) max)) pid k ->
  exists seed, len seed = 32 /\ sk_PublicKey k = Std.EncodeToString (PublicKey (NewKeyFromSeed seed)) /\
    Decrypt aead (sk_PrivateKeyEncrypted k) pid = Ok seed.
Proof. intros (w & w' & [Hk|[note Hk]]); [by eapply GenerateForProduct_Ok|by eapply RotateForProduct_Ok]. Qed.

(** All the bytes of the body, when fewer than the limit came. *)
Lemma limited_all limit body buf : limited (limit + 1) body = (buf, None) -> len buf <= limit -> 0 <= limit -> body = (buf, None).
Proof.
  destruct body as [bytes err]. unfold limited. destruct (limit + 1 <=? len bytes) eqn:E; [|by intros ->].
  intros [= <-] Hl Hpos. bool_facts. exfalso. unfold len in *. rewrite Toy.length_stake in Hl; lia.
Qed.

Lemma read_artifact_Ok max key w buf w' :
  read_artifact max key w = (Ok buf, w') -> len buf <= max -> 0 <= max -> exists n, st_Get n key = Ok (buf, None).
Proof.
  unfold read_artifact. intros Hr Hl Hpos. apply bind_Ok in Hr as (body & w1 & Hg & Hr).
  apply (proj1 (map_err_Ok _ _ _ _ _)) in Hg. injection Hg as Hg _.
  destruct (limited (max + 1) body) as [b [e|]] eqn:El; [by apply throw_Ok in Hr|].
  apply mret_Ok in Hr as [-> _]. apply limited_all in El as ->; [|done..]. eauto.
Qed.

(** A key pair made for a product and found active when one of its
    artifacts is signed gives a signature that names that key, over exactly the
    bytes the storage served. *)
Lemma SignArtifact_Ok aead max pid k rel a w2 res w3 :
  made_key (Some (mkSigner (Some aead) max)) pid k -> 0 <= max ->
  rel_ProductID rel = pid -> first_row (rows (active_key pid) (db_signing_keys (w_db w2))) = Some k ->
  SignArtifact (Some (mkSigner (Some aead) max)) rel a w2 = (Ok res, w3) ->
  exists n bytes pub sig, st_Get n (art_FileKey a) = Ok (bytes, None) /\ len bytes <= max /\
    sr_SigningKeyID res = sk_ID k /\ sk_PublicKey k = Std.EncodeToString pub /\ len pub = 32 /\
    sr_Signature res = Std.EncodeToString sig /\ len sig = 64 /\ ed_Verify pub bytes sig = true.
Proof.
  intros Hgen Hpos Hpid Hactive Hs. apply made_key_seed in Hgen as (seed & Hl & Hpub & Hdec).
  unfold SignArtifact in Hs. destruct (streq (art_FileKey a) ""); [by apply throw_Ok in Hs|].
  destruct (max <? art_FileSize a); [by apply throw_Ok in Hs|].
  apply bind_Ok in Hs as (k' & w4 & Hk & Hs). apply (proj1 (map_err_Ok _ _ _ _ _)) in Hk.
  apply (proj1 (map_err_Ok _ _ _ _ _)) in Hk. apply stmt_Ok in Hk as (Hk & _).
  cbn [t_get signing_keys] in Hk. rewrite Hpid, Hactive in Hk. injection Hk as <- _.
  rewrite Hpid, Hdec, Hl in Hs. simpl in Hs. apply bind_Ok in Hs as (buf & w5 & Hb & Hs).
  destruct (max <? len buf) eqn:Eb; [by apply throw_Ok in Hs|]. bool_facts. apply mret_Ok in Hs as [<- _].
  apply read_artifact_Ok in Hb as (n & Hn); [|done..].
  pose proof (len_NewKeyFromSeed seed Hl) as Hk64.
  exists n, buf, (PublicKey (NewKeyFromSeed seed)), (ed_Sign (NewKeyFromSeed seed) buf).
  split_and!; try done; [by apply len_PublicKey|by apply len_Sign|by apply ed_Verify_Sign].
Qed.
End signing.
