(* ===== verification/ReleaseFeed.v ===== *)
(** * Update feeds ([service/release_feed.go], [handler/release_public.go])

    What auto-update clients fetch: the Sparkle items, the Velopack array and
    the Tauri manifest of a product's published releases, with the signature
    in the form each client verifies.  The layout of [encoding/xml] around the
    items is not modelled, its CDATA sections are. *)

From S2P Require Import Prelude GoStrings Errors Model Crypto Base64 GoTime World Tables Logic Usability AesGcm Token Store.
From S2P Require Import Webhook LicenseService Lookup ReleaseStore Release ReleaseInv ReleaseProps ReleaseSigning.
From Stdlib Require Import Ascii String.

#[local] Open Scope string_scope.
#[local] Open Scope Z_scope.

(** ** Data *)

Definition FeedFormatSparkle := "sparkle".
Definition FeedFormatVelopack := "velopack".
Definition FeedFormatTauri := "tauri".
Definition FeedFormatJSON := "json".

Definition IsValidFeedFormat (f : string) : bool :=
  bool_decide (f ∈ [FeedFormatSparkle; FeedFormatVelopack; FeedFormatTauri; FeedFormatJSON]).

Record FeedRelease := mkFeedRelease {
  fdr_Release : Release; fdr_Artifact : ReleaseArtifact; fdr_DownloadURL : string; fdr_SigningPublicKey : string
}.

Record FeedInput := mkFeedInput {
  fi_ProductID : string; fi_ProductName : string; fi_BaseURL : string; fi_Releases : list FeedRelease;
  fi_MinimumSupportedVersion : string; fi_MinimumSupportedMessage : string
}.

Definition feedContentType (ct : string) : string := or_default "application/octet-stream" ct.

(** ** Sparkle *)

(** [sparkleSigPattern]: 86 to 88 base64 characters and at most two pads. *)
Definition b64_std_char (c : ascii) : bool :=
  is_upper c || is_lower c || is_digit c || Ascii.eqb c "+" || Ascii.eqb c "/".

Definition sparkleSigPattern (s : string) : bool :=
  let '(body, pads) := span b64_std_char s in
  (86 <=? len body) && (len body <=? 88) && bool_decide (pads ∈ [""; "="; "=="]).

(** [strings.ReplaceAll] of the marker []]>], from the left. *)
Definition is_marker (a b c : ascii) : bool := Ascii.eqb a "]" && Ascii.eqb b "]" && Ascii.eqb c ">".

Fixpoint splice (replacement s : string) : string :=
  match s with
  | String a ((String b (String c s')) as s1) =>
      if is_marker a b c then replacement +:+ splice replacement s' else String a (splice replacement s1)
  | String a s1 => String a (splice replacement s1)
  | "" => ""
  end.

Definition sanitizeCDATA (s : string) : string := splice "]]]]><![CDATA[>" s.

(** [encoding/xml]'s [emitCDATA]: it splits the end marker itself. *)
Definition emitCDATA (s : string) : string :=
  if streq s "" then "" else "<![CDATA[" +:+ splice "]]]]><![CDATA[>" s +:+ "]]>".

(** Weekday and month names of [time.RFC1123Z]. *)
Definition weekday (t : Time) : string :=
  default "" (["Sun"; "Mon"; "Tue"; "Wed"; "Thu"; "Fri"; "Sat"] !! Z.to_nat ((day_of t + 4) mod 7)).
Definition month_name (t : Time) : string :=
  default "" (["Jan"; "Feb"; "Mar"; "Apr"; "May"; "Jun"; "Jul"; "Aug"; "Sep"; "Oct"; "Nov"; "Dec"]
                !! Z.to_nat (month_of t mod 12)).
Definition format_RFC1123Z (t : Time) : string :=
  weekday t +:+ ", " +:+ pad2 (day_of_month t) +:+ " " +:+ month_name t +:+ " " +:+ pad4 (year_of t) +:+ " "
  +:+ pad2 (hour_of t mod 24) +:+ ":" +:+ pad2 (t / Minute mod 60) +:+ ":" +:+ pad2 (t / Second mod 60)
  +:+ " +0000".

Definition pub_date (format : Time -> string) (rel : Release) : string :=
  match rel_PublishedAt rel with Some t => format t | None => "" end.

Record sparkleItem := mkSparkleItem {
  spk_Title : string; spk_PubDate : string; spk_SparkleVersion : string; spk_SparkleShortVer : string;
  spk_Description : string; spk_URL : string; spk_Length : Z; spk_Type : string; spk_SparkleEDSig : string
}.

(** The items of [RenderSparkle]. *)
Definition sparkle_item (r : FeedRelease) : sparkleItem :=
  let rel := fdr_Release r in
  let a := fdr_Artifact r in
  let sig := if sparkleSigPattern (art_Ed25519Sig a) then art_Ed25519Sig a else "" in
  mkSparkleItem (rel_Version rel) (pub_date format_RFC1123Z rel) (rel_Version rel) (rel_Version rel)
    (sanitizeCDATA (rel_ReleaseNotes rel)) (fdr_DownloadURL r) (art_FileSize a)
    (feedContentType (art_ContentType a)) sig.

Definition RenderSparkle_items (in_ : FeedInput) : list sparkleItem := sparkle_item <$> fi_Releases in_.

(** ** Velopack *)

Record VelopackEntry := mkVelopackEntry {
  vpk_ID : string; vpk_Type : string; vpk_Filename : string; vpk_Size : Z; vpk_SHA256 : string;
  vpk_URL : string; vpk_Notes : string; vpk_PublishedAt : string
}.

Definition velopackFilename (rel : Release) (a : ReleaseArtifact) : string :=
  let name := safeKeyComponent (or_default (art_Platform a) (rel_Name rel)) in
  let ext := or_default ".zip" (normalizeExt (art_FileKey a)) in
  name +:+ "-" +:+ rel_Version rel +:+ "-full" +:+ ext.

Definition BuildVelopack (in_ : FeedInput) : list VelopackEntry :=
  (fun r => let rel := fdr_Release r in let a := fdr_Artifact r in
     mkVelopackEntry ("v" +:+ rel_Version rel) "Full" (velopackFilename rel a) (art_FileSize a)
       (ToLower (art_SHA256 a)) (fdr_DownloadURL r) (rel_ReleaseNotes rel) (pub_date format_RFC3339 rel))
  <$> fi_Releases in_.

(** ** Tauri *)

Definition tauriKeyID (rawPub : string) : string := stake 8 (Sum256 rawPub).

Definition TauriSignatureEnvelope (rawSigB64 rawPubKeyB64 : string) : string :=
  if streq rawSigB64 "" || streq rawPubKeyB64 "" then ""
  else match Std.DecodeString rawSigB64 with
  | None => ""
  | Some rawSig =>
      if negb (len rawSig =? 64) then ""
      else match Std.DecodeString rawPubKeyB64 with
      | None => ""
      | Some rawPub =>
          if negb (len rawPub =? 32) then ""
          else "untrusted comment: signature from keygate" +:+ String (chr 10)
                 (Std.EncodeToString ("Ed" +:+ tauriKeyID rawPub +:+ rawSig))
      end
  end.

Definition TauriPublicKey (rawPubKeyB64 : string) : string :=
  if streq rawPubKeyB64 "" then ""
  else match Std.DecodeString rawPubKeyB64 with
  | None => ""
  | Some rawPub =>
      if negb (len rawPub =? 32) then ""
      else Std.EncodeToString ("Ed" +:+ tauriKeyID rawPub +:+ rawPub)
  end.

Record TauriManifest := mkTauriManifest {
  tm_Version : string; tm_PubDate : string; tm_URL : string; tm_Signature : string; tm_Notes : string;
  tm_MinimumSupportedVersion : string; tm_MinimumSupportedMessage : string
}.

Definition BuildTauri (in_ : FeedInput) : TauriManifest :=
  match fi_Releases in_ with
  | [] => mkTauriManifest "" "" "" "" "" "" ""
  | r :: _ =>
      let rel := fdr_Release r in let a := fdr_Artifact r in
      mkTauriManifest (rel_Version rel) (pub_date format_RFC3339 rel) (fdr_DownloadURL r)
        (TauriSignatureEnvelope (art_Ed25519Sig a) (fdr_SigningPublicKey r)) (rel_ReleaseNotes rel)
        (fi_MinimumSupportedVersion in_) (fi_MinimumSupportedMessage in_)
  end.

(** ** The handlers *)

Section handlers.
Context `{UUIDs} `{Storage} `{Semver} (baseURL : string) (downloadTTL : Duration).

Record feedRequest := mkFeedRequest {
  fq_product : Product; fq_platform : string; fq_channel : string; fq_limit : Z
}.

Definition bad_request (msg : string) : error := app 400 "BAD_REQUEST" msg.
Definition product_missing : error := app 404 "NOT_FOUND" "product not found".

(** An absent [channel] parameter is [None]. *)
Definition parseFeedRequest (slug platform : string) (channel : option string) (limit : string) :
    M error feedRequest :=
  let slug := ToLower (TrimSpace slug) in
  if streq slug "" then throw (bad_request "product_slug is required in the URL path")
  else
    prod ← map_err (fun _ => product_missing) (FindProductBySlug slug);
    if negb (ProductSupports (prod_Type prod) CapReleases) then throw product_missing
    else if streq platform "" then throw (bad_request "platform is required")
    else if negb (IsValidPlatform platform)
    then throw (bad_request ("platform must be one of: " +:+ String.concat ", " allowedPlatforms))
    else
      let channel := default ReleaseChannelStable channel in
      if negb (IsValidReleaseChannel channel)
      then throw (bad_request "channel must be stable, beta, alpha, or dev")
      else if streq limit "" then mret (mkFeedRequest prod platform channel 20)
      else
        let n := ParseInt limit in
        if (n <=? 0) || (100 <? n) then throw (bad_request "limit must be an integer between 1 and 100")
        else mret (mkFeedRequest prod platform channel n).

(** The public key of an artifact's signing key, looked up once per key. *)
Definition signing_public_key (keyID : option string) (cache : gmap string string) :
    M error (string * gmap string string) :=
  match keyID with
  | None => mret ("", cache)
  | Some id =>
      match cache !! id with
      | Some cached => mret (cached, cache)
      | None =>
          r ← attempt (FindSigningKeyByID id);
          let pub := match r with Ok k => sk_PublicKey k | Err _ => "" end in
          mret (pub, <[id := pub]> cache)
      end
  end.

Fixpoint feed_releases (platform : string) (releases : list Release) (cache : gmap string string) :
    M error (list FeedRelease) :=
  match releases with
  | [] => mret []
  | rel :: rest =>
      match pick_artifact platform (rel_Artifacts rel) with
      | None => feed_releases platform rest cache
      | Some a =>
          let key := art_FileKey a in
          r ← attempt (storage_call "get-url" key
                (fun n => st_PresignedGet n key (DownloadFilename rel a) downloadTTL));
          match r with
          | Err e =>
              if goerr_Is e ErrStorageDisabled
              then throw (app 503 "STORAGE_DISABLED" "release storage is not configured")
              else emit (EvWarn "feed: presign failed") ;; feed_releases platform rest cache
          | Ok url =>
              pc ← signing_public_key (art_SigningKeyID a) cache;
              let '(pub, cache) := (pc : string * gmap string string) in
              out ← feed_releases platform rest cache;
              mret (mkFeedRelease rel a url pub :: out)
          end
      end
  end.

Definition fetchPublishedFeedReleases (req : feedRequest) : M error (list FeedRelease) :=
  releases ← map_err GoError (ListForFeed (prod_ID (fq_product req)) (fq_channel req) (fq_platform req) (fq_limit req));
  feed_releases (fq_platform req) releases ∅.

Definition feedInput (req : feedRequest) (releases : list FeedRelease) : FeedInput :=
  let p := fq_product req in
  mkFeedInput (prod_ID p) (prod_Name p) baseURL releases (prod_MinimumSupportedVersion p)
    (prod_MinimumSupportedMessage p).

Definition FeedSparkle (slug platform : string) (channel : option string) (limit : string) :
    M error (list sparkleItem) :=
  req ← parseFeedRequest slug platform channel limit;
  rs ← fetchPublishedFeedReleases req;
  mret (RenderSparkle_items (feedInput req rs)).

Definition FeedVelopack (slug platform : string) (channel : option string) (limit : string) :
    M error (list VelopackEntry) :=
  req ← parseFeedRequest slug platform channel limit;
  rs ← fetchPublishedFeedReleases req;
  mret (BuildVelopack (feedInput req rs)).

(** 204, the policy alone, or the manifest. *)
Inductive tauri_answer :=
  | NoUpdate
  | PolicyOnly (minimumVersion minimumMessage : string)
  | Manifest (m : TauriManifest).

Definition FeedTauri (slug platform : string) (channel : option string) (limit : string) : M error tauri_answer :=
  req ← parseFeedRequest slug platform channel limit;
  let req := mkFeedRequest (fq_product req) (fq_platform req) (fq_channel req) 1 in
  rs ← fetchPublishedFeedReleases req;
  let manifest := BuildTauri (feedInput req rs) in
  let p := fq_product req in
  if streq (tm_Version manifest) "" then
    if negb (streq (prod_MinimumSupportedVersion p) "")
    then mret (PolicyOnly (prod_MinimumSupportedVersion p) (prod_MinimumSupportedMessage p))
    else mret NoUpdate
  else mret (Manifest manifest).
End handlers.

(** ** What clients read *)

(** The second line of a text. *)
Fixpoint second_line (s : string) : option string :=
  match s with
  | "" => None
  | String c s' => if Ascii.eqb c (chr 10) then Some s' else second_line s'
  end.

Lemma key_id_length pub : String.length (tauriKeyID pub) = 8%nat.
Proof. unfold tauriKeyID. rewrite Toy.length_stake; [done|]. rewrite length_Sum256. lia. Qed.

Lemma second_line_app s t :
  sall (fun c => negb (Ascii.eqb c (chr 10))) s = true -> second_line (s +:+ String (chr 10) t) = Some t.
Proof.
  induction s as [|c s IH]; [done|]. cbn [sall]. intros [Hc Hs]%andb_true_iff.
  rewrite append_cons. cbn [second_line]. apply negb_true_iff in Hc. rewrite Hc. by apply IH.
Qed.

(** What the published key and the envelope decode to. *)
Lemma tauri_forms pub sig :
  len pub = 32 -> len sig = 64 ->
  Std.DecodeString (TauriPublicKey (Std.EncodeToString pub)) = Some ("Ed" +:+ tauriKeyID pub +:+ pub) /\
  second_line (TauriSignatureEnvelope (Std.EncodeToString sig) (Std.EncodeToString pub)) ≫= Std.DecodeString
    = Some ("Ed" +:+ tauriKeyID pub +:+ sig).
Proof.
  intros Hp Hs. assert (streq (Std.EncodeToString pub) "" = false /\ streq (Std.EncodeToString sig) "" = false) as [Ep Es].
  { split; apply streq_false, Std.Encode_nonempty; intros ->; done. }
  unfold TauriPublicKey, TauriSignatureEnvelope. rewrite Ep, Es, !Std.Decode_Encode, Hp, Hs.
  cbn [orb negb Z.eqb Pos.eqb]. rewrite Std.Decode_Encode, second_line_app by done. cbn [mbind option_bind].
  by rewrite Std.Decode_Encode.
Qed.

(** *** Sparkle signatures *)

Lemma Std_char_class n : 0 <= n < 64 -> b64_std_char (Std.char_of n) = true.
Proof. apply Std.char_of_range. Qed.

Lemma span_app p s t c :
  sall p s = true -> p c = false -> span p (s +:+ String c t) = (s, String c t).
Proof.
  induction s as [|d s IH]; simpl; [by intros _ ->|]. intros [-> Hs]%andb_true_iff Hc. by rewrite IH.
Qed.

(** One byte more than whole triples: two pads. *)
Lemma Encode_two_pads s : len s mod 3 = 1 ->
  exists body, Std.EncodeToString s = body +:+ "==" /\ sall b64_std_char body = true /\ len body = len s / 3 * 4 + 2.
Proof.
  induction s as [|a|a b|a b c s IH] using string_ind3; intros Hm; [done| |done|].
  - exists (String (Std.char_of (ord a / 4)) (String (Std.char_of (ord a mod 4 * 16)) "")).
    split; [done|]. cbn [sall]. rewrite !Std_char_class by sextets. done.
  - destruct IH as (body & E & Hb & Hl).
    { unfold len in *. cbn [String.length] in Hm. Z.to_euclidean_division_equations; lia. }
    cbn [Std.EncodeToString]. rewrite E. eexists. split; [by rewrite <- !append_cons|].
    cbn [sall]. rewrite !Std_char_class by sextets. split; [done|].
    unfold len in *. cbn [String.length]. Z.to_euclidean_division_equations; lia.
Qed.

Lemma sparkle_accepts sig : len sig = 64 -> sparkleSigPattern (Std.EncodeToString sig) = true.
Proof.
  intros Hl. destruct (Encode_two_pads sig) as (body & -> & Hb & Hlen); [by rewrite Hl|].
  unfold sparkleSigPattern. rewrite span_app by done. rewrite Hlen, Hl. done.
Qed.

(** C30. Signatures_reach_clients: a signature made when publishing an artifact,
    under a key the signer generated or rotated in for the product and that is
    its active one, is over
    exactly the bytes the storage served; the server's own verifier accepts it
    for them under the published key. What the Tauri feed says decodes to the
    signature, and the key exported for Tauri to the public key, both under the
    same identifier of eight bytes; the Sparkle feed emits the signature
    unchanged. *)
Theorem signatures_reach_clients `{UUIDs} `{GCM} `{Ed25519} `{Storage} aead max pid k rel a w2 res w3 :
  made_key (Some (mkSigner (Some aead) max)) pid k -> 0 <= max ->
  rel_ProductID rel = pid -> first_row (rows (active_key pid) (db_signing_keys (w_db w2))) = Some k ->
  SignArtifact (Some (mkSigner (Some aead) max)) rel a w2 = (Ok res, w3) ->
  exists n bytes pub sig id, st_Get n (art_FileKey a) = Ok (bytes, None) /\ len bytes <= max /\
    sr_SigningKeyID res = sk_ID k /\ sk_PublicKey k = Std.EncodeToString pub /\ sr_Signature res = Std.EncodeToString sig /\
    len pub = 32 /\ len sig = 64 /\ len id = 8 /\
    ed_Verify pub bytes sig = true /\ VerifySignature (sk_PublicKey k) bytes (sr_Signature res) = None /\
    Std.DecodeString (TauriPublicKey (sk_PublicKey k)) = Some ("Ed" +:+ id +:+ pub) /\
    (forall now url productName base minimum message,
       let item := mkFeedRelease rel (art_set_signature (sr_Signature res) (sr_SigningKeyID res) now a) url (sk_PublicKey k) in
       let manifest := BuildTauri (mkFeedInput pid productName base [item] minimum message) in
       second_line (tm_Signature manifest) ≫= Std.DecodeString = Some ("Ed" +:+ id +:+ sig) /\
       spk_SparkleEDSig (sparkle_item item) = sr_Signature res).
Proof.
  intros Hmade Hpos Hpid Hactive Hs.
  destruct (SignArtifact_Ok aead max pid k rel a w2 res w3 Hmade Hpos Hpid Hactive Hs)
    as (n & bytes & pub & sig & Hget & Hlen & Hid & Hpub & Hp & Hsig & Hl & Hv).
  destruct (tauri_forms pub sig Hp Hl) as [Hk Hm].
  exists n, bytes, pub, sig, (tauriKeyID pub). rewrite Hpub, Hsig. split_and!; try done.
  - unfold len. by rewrite key_id_length.
  - unfold VerifySignature. rewrite !Std.Decode_Encode, Hp. simpl. by rewrite Hv.
  - intros now url productName base minimum message. cbv zeta. split; [exact Hm|].
    unfold sparkle_item. cbn [spk_SparkleEDSig fdr_Artifact art_set_signature art_Ed25519Sig]. by rewrite sparkle_accepts.
Qed.

(** ** Release notes in CDATA

    [read_cdata] is how an XML parser reads character data made of CDATA
    sections: the text up to the first end marker of each, joined. *)

Definition cdata_open : string := "<![CDATA[".

Fixpoint read_cdata (opening : option string) (s : string) : option string :=
  match opening with
  | Some "" | None =>
      match s with
      | String a ((String b (String c s')) as s1) =>
          if is_marker a b c then
            match s' with "" => Some "" | _ => read_cdata (Some cdata_open) s' end
          else String a <$> read_cdata None s1
      | _ => None
      end
  | Some (String e rest) =>
      match s with
      | String c s1 => if Ascii.eqb c e then read_cdata (Some rest) s1 else None
      | "" => None
      end
  end.

(** What a client makes of a description. *)
Definition description_read (s : string) : option string :=
  match emitCDATA s with "" => Some "" | t => read_cdata (Some cdata_open) t end.

Example cdata_examples :
  description_read "a]]>b" = Some "a]]>b" /\ description_read "]]]>]]" = Some "]]]>]]" /\
  description_read (sanitizeCDATA "a]]>b") = Some "a]]]]><![CDATA[>b".
Proof. vm_compute. done. Qed.

Definition cdata_escape : string := "]]]]><![CDATA[>".
Definition closed_text (s : string) : string := splice cdata_escape s +:+ "]]>".

Lemma is_marker_true a b c : is_marker a b c = true <-> a = "]"%char /\ b = "]"%char /\ c = ">"%char.
Proof. unfold is_marker. rewrite !andb_true_iff, !Ascii.eqb_eq. tauto. Qed.

Lemma closed_text_step a s :
  closed_text (String a s) =
    match s with
    | String b (String c s') =>
        if is_marker a b c then cdata_escape +:+ closed_text s' else String a (closed_text s)
    | _ => String a (closed_text s)
    end.
Proof.
  unfold closed_text. destruct s as [|b [|c s]]; [done..|]. cbn [splice].
  destruct (is_marker a b c); [by rewrite <- append_assoc|done].
Qed.

(** Splicing keeps the first character. *)
Lemma closed_text_cons c s : exists x, closed_text (String c s) = String c x.
Proof.
  rewrite closed_text_step. destruct s as [|b [|d s']]; try (eexists; reflexivity).
  destruct (is_marker c b d) eqn:E; [|eexists; reflexivity].
  apply is_marker_true in E as (-> & _ & _). eexists. reflexivity.
Qed.

(** Where no marker begins, none is made. *)
Lemma closed_text_head a s :
  match s with String b (String c _) => is_marker a b c = false | _ => True end ->
  exists b c x, closed_text s = String b (String c x) /\ is_marker a b c = false.
Proof.
  destruct s as [|b s]; intros Hs.
  { do 3 eexists. split; [reflexivity|]. unfold is_marker. cbn. by rewrite andb_false_r. }
  rewrite closed_text_step. destruct s as [|c s].
  { do 3 eexists. split; [reflexivity|]. unfold is_marker. cbn. by rewrite andb_false_r. }
  destruct (closed_text_cons c s) as [y ->].
  destruct s as [|d s]; [by do 3 eexists|]. destruct (is_marker b c d) eqn:E; [|by do 3 eexists].
  do 3 eexists. split; [reflexivity|]. unfold is_marker. cbn. by rewrite andb_false_r.
Qed.

(** A character that does not begin a marker is read as it is. *)
Lemma read_plain a s :
  match s with String b (String c _) => is_marker a b c = false | _ => True end ->
  read_cdata None (String a (closed_text s)) = String a <$> read_cdata None (closed_text s).
Proof. intros Hs. destruct (closed_text_head a s Hs) as (b & c & x & -> & E). cbn [read_cdata]. by rewrite E. Qed.

Lemma read_escape x :
  read_cdata None (cdata_escape +:+ x) = String "]" <$> (String "]" <$> read_cdata None (String ">" x)).
Proof. reflexivity. Qed.

Lemma read_closed_text n s : (String.length s <= n)%nat -> read_cdata None (closed_text s) = Some s.
Proof.
  revert s. induction n as [|n IH]; intros [|a s] Hn; simpl in Hn; try lia; [done..|].
  rewrite closed_text_step.
  assert (match s with String b (String c _) => is_marker a b c = false | _ => True end ->
    read_cdata None (String a (closed_text s)) = Some (String a s)) as Hplain.
  { intros Hs. by rewrite read_plain, IH by (done || lia). }
  destruct s as [|b [|c s]]; [by apply Hplain..|]. destruct (is_marker a b c) eqn:E; [|by apply Hplain].
  apply is_marker_true in E as (-> & -> & ->).
  rewrite read_escape, read_plain, IH by (destruct s as [|? [|]]; done || simpl in *; lia). done.
Qed.

Lemma description_read_back s : description_read s = Some s.
Proof.
  unfold description_read, emitCDATA. destruct (streq s "") eqn:E; [by str_facts; subst s|].
  change (read_cdata (Some "") (closed_text s) = Some s).
  replace (read_cdata (Some "") (closed_text s)) with (read_cdata None (closed_text s))
    by (by destruct (closed_text s)).
  by apply (read_closed_text (String.length s)).
Qed.

Fixpoint has_marker (s : string) : bool :=
  match s with
  | String a ((String b (String c _)) as s1) => is_marker a b c || has_marker s1
  | _ => false
  end.

Lemma splice_length s :
  (String.length s <= String.length (splice cdata_escape s))%nat /\
  (has_marker s = true -> String.length s < String.length (splice cdata_escape s))%nat /\
  (has_marker s = false -> splice cdata_escape s = s).
Proof.
  assert (forall n s, (String.length s <= n)%nat ->
    (String.length s <= String.length (splice cdata_escape s))%nat /\
    (has_marker s = true -> String.length s < String.length (splice cdata_escape s))%nat /\
    (has_marker s = false -> splice cdata_escape s = s)) as H; [|by apply (H (String.length s))].
  clear s. induction n as [|n IH]; intros [|a s] Hn; simpl in Hn; try lia; [done..|].
  destruct s as [|b [|c s]]; [done|done|]. cbn [splice has_marker]. destruct (is_marker a b c); cbn [orb].
  - destruct (IH s) as (Hl & _); [simpl in Hn; lia|]. rewrite length_append. simpl in *. split_and!; [lia|lia|done].
  - destruct (IH (String b (String c s))) as (Hl & Hs & He); [simpl in *; lia|]. simpl in *.
    split_and!; [lia|intros ?; specialize (Hs ltac:(done)); lia|intros ?; by rewrite He].
Qed.

(** Notes_read_back: what a Sparkle client reads as the description of a
    release is the notes with the end marker already replaced: the notes
    themselves exactly when they contain no end marker.  ([encoding/xml]
    escapes the marker itself, so the notes alone would be read back as they
    are.) *)
Theorem sparkle_notes_read r :
  let notes := rel_ReleaseNotes (fdr_Release r) in
  description_read (spk_Description (sparkle_item r)) = Some (sanitizeCDATA notes) /\
  (sanitizeCDATA notes = notes <-> has_marker notes = false) /\
  description_read notes = Some notes.
Proof.
  intros notes. destruct (splice_length notes) as (_ & Hlt & Heq).
  split_and!; [apply description_read_back| |apply description_read_back].
  change (sanitizeCDATA notes) with (splice cdata_escape notes). split; [|done].
  intros E. destruct (has_marker notes); [|done]. specialize (Hlt eq_refl). rewrite E in Hlt. lia.
Qed.

(** ** The Tauri endpoint *)

Section tauri_endpoint.
Context `{UUIDs} `{Storage} `{Semver} (baseURL : string) (downloadTTL : Duration).

Lemma parseFeedRequest_Ok slug platform channel limit w req w' :
  parseFeedRequest slug platform channel limit w = (Ok req, w') ->
  (exists kp, db_products (w_db w) !! kp = Some (fq_product req)) /\
  prod_Slug (fq_product req) = ToLower (TrimSpace slug) /\
  ProductSupports (prod_Type (fq_product req)) CapReleases = true /\
  fq_platform req = platform /\ fq_channel req = default ReleaseChannelStable channel /\ w_db w' = w_db w.
Proof.
  unfold parseFeedRequest. cbv zeta. intros Hr. destruct (streq _ "") eqn:Es; [by apply throw_Ok in Hr|].
  apply bind_Ok in Hr as (p & w1 & Hp & Hr). apply (proj1 (map_err_Ok _ _ _ _ _)) in Hp.
  apply stmt_Ok in Hp as (Hp & _). destruct (first_row _) as [p0|] eqn:Ep; [|done]. injection Hp as -> D.
  apply first_row_rows in Ep as (kp & Hkp & Hslug). str_facts.
  destruct (ProductSupports _ _) eqn:Ec; [|by apply throw_Ok in Hr]. cbn [negb] in Hr.
  destruct (streq platform ""); [by apply throw_Ok in Hr|].
  destruct (negb (IsValidPlatform platform)); [by apply throw_Ok in Hr|].
  destruct (negb (IsValidReleaseChannel _)); [by apply throw_Ok in Hr|].
  destruct (streq limit ""); [apply mret_Ok in Hr as [<- <-]; by split_and!; [exists kp|..]|].
  destruct (_ || _); [by apply throw_Ok in Hr|]. apply mret_Ok in Hr as [<- <-]. by split_and!; [exists kp|..].
Qed.

(** The one release a feed of length one shows. *)
Lemma ListForFeed_one productID channel platform w rels w' :
  ListForFeed productID channel platform 1 w = (Ok rels, w') ->
  w_db w' = w_db w /\
  forall r, r ∈ rels -> rels = [r] /\
    (exists ch k r0, ch ∈ channelFallbackChain channel /\ db_releases (w_db w) !! k = Some r0 /\
       feed_row productID ch platform (w_db w) r0 = true /\ r = with_artifacts (w_db w) r0) /\
    (within_window productID channel platform (w_db w) ->
     forall ch k r', ch ∈ channelFallbackChain channel -> db_releases (w_db w) !! k = Some r' ->
       feed_row productID ch platform (w_db w) r' = true -> at_least r r').
Proof.
  unfold ListForFeed. destruct (negb _); [intros Hr; by apply throw_Ok in Hr|]. cbn [orb Z.leb Z.ltb Z.compare].
  intros Hr. apply bind_Ok in Hr as (pool & w1 & Hc & Hr).
  apply (collect_Ok _ (fun ch db => with_artifacts db <$> take window
    (sort_le (newest_first rel_PublishedAt) (candidates productID ch platform db)))) in Hc as [Ep E1].
  2:{ intros ch w0 l w0' Hl. by apply feed_Ok in Hl. }
  apply mret_Ok in Hr as [<- <-]. split; [done|]. intros r Hr.
  destruct (sortBySemverDesc pool) as [|r1 rest] eqn:Es; [by apply elem_of_nil in Hr|].
  change (r ∈ [r1]) in Hr. apply list_elem_of_singleton in Hr as ->. split; [done|]. subst pool. split.
  - apply pool_elem, elem_of_sorted. rewrite Es. by left.
  - intros Hwin ch k r' Hch Hk Hf. pose proof (elem_pool _ _ _ _ ch k r' Hwin Hch Hk Hf) as Hin.
    exact (sorted_head _ _ _ _ Es Hin).
Qed.

Lemma signing_public_key_Ok keyID w pub c w' :
  signing_public_key keyID ∅ w = (Ok (pub, c), w') ->
  pub = "" \/ exists kk sk, db_signing_keys (w_db w) !! kk = Some sk /\ keyID = Some (sk_ID sk) /\ pub = sk_PublicKey sk.
Proof.
  unfold signing_public_key. destruct keyID as [id|]; [|intros Hr; apply mret_Ok in Hr as [[= <- _] _]; by left].
  rewrite lookup_empty. intros Hr. apply bind_Ok in Hr as (r & w1 & Hk & Hr).
  apply (proj1 (attempt_Ok _ _ _ _)) in Hk. apply mret_Ok in Hr as [[= <- _] _]. destruct r as [sk|e]; [right|by left].
  apply (proj1 (map_err_Ok _ _ _ _ _)), select_one_Ok in Hk as (kk & Hkk & Hid). str_facts. exists kk, sk. by subst id.
Qed.

Lemma feed_releases_one platform r w rs w' :
  feed_releases downloadTTL platform [r] ∅ w = (Ok rs, w') -> rs <> [] ->
  exists a url pub n, rs = [mkFeedRelease r a url pub] /\ pick_artifact platform (rel_Artifacts r) = Some a /\
    st_PresignedGet n (art_FileKey a) (DownloadFilename r a) downloadTTL = Ok url /\
    (pub = "" \/ exists kk sk, db_signing_keys (w_db w) !! kk = Some sk /\ art_SigningKeyID a = Some (sk_ID sk)
       /\ pub = sk_PublicKey sk).
Proof.
  cbn [feed_releases]. destruct (pick_artifact _ _) as [a|] eqn:Ea; [|intros Hr; by apply mret_Ok in Hr as [<- _]].
  intros Hr Hne. apply bind_Ok in Hr as (u & w1 & Hu & Hr). apply (proj1 (attempt_Ok _ _ _ _)) in Hu.
  injection Hu as Hu Hw1. destruct u as [url|e].
  - apply bind_Ok in Hr as ([pub c] & w2 & Hp & Hr). apply bind_Ok in Hr as (out & w3 & Ho & Hr).
    apply mret_Ok in Ho as [<- _]. apply mret_Ok in Hr as [<- _]. exists a, url, pub, (List.length (w_events w)).
    split_and!; [done..|]. apply signing_public_key_Ok in Hp. by rewrite <- Hw1 in Hp.
  - destruct (goerr_Is _ _); [by apply throw_Ok in Hr|]. apply bind_Ok in Hr as ([] & w2 & _ & Hr).
    by apply mret_Ok in Hr as [<- _].
Qed.

(** Tauri_manifest_sound: a manifest is for a stored product of that slug which
    ships releases; its version is a published release in a visible channel
    with an uploaded artifact for the platform, at least as new as every other
    such release; its URL is the storage's for that artifact, and its signature
    the artifact's in Tauri's envelope, under the public key of the very key
    that made it or else empty. *)
Theorem FeedTauri_sound slug platform channel limit w m w' :
  FeedTauri baseURL downloadTTL slug platform channel limit w = (Ok (Manifest m), w') ->
  let db := w_db w in
  let ch0 := default ReleaseChannelStable channel in
  exists kp p ch k r ka a n,
    db_products db !! kp = Some p /\ prod_Slug p = ToLower (TrimSpace slug) /\
    ProductSupports (prod_Type p) CapReleases = true /\
    ch ∈ channelFallbackChain ch0 /\ db_releases db !! k = Some r /\
    feed_row (prod_ID p) ch platform db r = true /\
    (within_window (prod_ID p) ch0 platform db ->
     forall ch k' r', ch ∈ channelFallbackChain ch0 -> db_releases db !! k' = Some r' ->
       feed_row (prod_ID p) ch platform db r' = true -> at_least r r') /\
    db_release_artifacts db !! ka = Some a /\ art_ReleaseID a = rel_ID r /\ art_Platform a = platform /\
    IsUploaded a = true /\
    tm_Version m = rel_Version r /\
    st_PresignedGet n (art_FileKey a) (DownloadFilename (with_artifacts db r) a) downloadTTL = Ok (tm_URL m) /\
    (tm_Signature m = "" \/ exists kk sk, db_signing_keys db !! kk = Some sk /\
       art_SigningKeyID a = Some (sk_ID sk) /\
       tm_Signature m = TauriSignatureEnvelope (art_Ed25519Sig a) (sk_PublicKey sk)).
Proof.
  intros Hr db ch0. unfold FeedTauri in Hr. apply bind_Ok in Hr as (req & w1 & Hq & Hr).
  apply parseFeedRequest_Ok in Hq as ([kp Hkp] & Hslug & Hcap & Hpl & Hch & D1).
  apply bind_Ok in Hr as (rs & w2 & Hf & Hr). unfold fetchPublishedFeedReleases in Hf.
  apply bind_Ok in Hf as (rels & w3 & Hl & Hf). apply (proj1 (map_err_Ok _ _ _ _ _)) in Hl.
  cbn [fq_product fq_channel fq_platform fq_limit] in Hl, Hf. rewrite Hch, Hpl in Hl. rewrite Hpl in Hf.
  apply ListForFeed_one in Hl as [D3 Hone]. rewrite D1 in *.
  assert (rs <> []) as Hne.
  { intros ->. cbn in Hr. by destruct (negb _). }
  destruct rels as [|r rest]; [cbn in Hf; by apply mret_Ok in Hf as [<- _]|].
  destruct (Hone r) as ([= ->] & (ch & k & r0 & Hc & Hk & Hrow & ->) & Hmax); [by left|].
  apply feed_releases_one in Hf as (a & url & pub & n & -> & Hpick & Hurl & Hpub); [|done]. rewrite D3 in Hpub.
  apply pick_artifact_Some in Hpick as (Ha & Hplat & Hup). apply elem_of_artifacts in Ha as (ka & Hka & Hown).
  destruct (streq _ "") in Hr; [destruct (negb _) in Hr; by apply mret_Ok in Hr as [? _]|].
  apply mret_Ok in Hr as [[= <-] _].
  exists kp, (fq_product req), ch, k, r0, ka, a, n. split_and!; try done.
  destruct Hpub as [->|(kk & sk & Hkk & Hid & ->)]; [left|right; by exists kk, sk].
  cbn. unfold TauriSignatureEnvelope. by rewrite orb_true_r.
Qed.
End tauri_endpoint.
