(* ===== verification/ReleaseDemo.v ===== *)
(** * The release theorems on a concrete catalogue

    A product with a published release, a beta and a complete draft; a storage
    that serves the same six bytes under every key; a small [semver].  Then
    what happens to signatures the store does not guard. *)

From S2P Require Import Prelude GoStrings Errors Model Crypto Base64 World Tables Logic Usability AesGcm Token.
From S2P Require Import Store Webhook LicenseService Lookup ReleaseStore Release ReleaseInv ReleaseProps ReleaseSigning ReleaseFeed Demo.
From Stdlib Require Import Ascii String.

#[local] Open Scope string_scope.
#[local] Open Scope Z_scope.

#[local] Existing Instances Demo.uuids ToyGCM.gcm Toy.ed25519.

Module ReleaseDemo.
(** Numeric components compared in turn; pre-releases are not told apart. *)
Fixpoint version_number (acc cur : Z) (s : string) : Z :=
  match s with
  | "" => acc * 10000 + cur
  | String c s' =>
      if is_digit c then version_number acc (cur * 10 + (ord c - 48)) s'
      else if Ascii.eqb c "." then version_number (acc * 10000 + cur) 0 s'
      else version_number acc cur s'
  end.
Definition compare (v w : string) : Z := Z.sgn (version_number 0 0 v - version_number 0 0 w).

Lemma compare_sym v w : compare v w = - compare w v.
Proof. unfold compare. rewrite <- Z.sgn_opp. f_equal. lia. Qed.
Lemma compare_trans u v w : 0 <= compare u v -> 0 <= compare v w -> 0 <= compare u w.
Proof. unfold compare. rewrite !Z.sgn_nonneg. lia. Qed.

#[export] Instance semver : Semver := {|
  semver_IsValid v := HasPrefix v "v" && semverShape (sdrop 1 v);
  semver_Compare := compare;
  semver_Compare_sym := compare_sym;
  semver_Compare_trans := compare_trans
|}.

Definition bytes : string := "binary".
#[export] Instance storage : Storage := {|
  st_PresignedPut _ key _ _ _ := Ok ("put:" +:+ key);
  st_PresignedGet _ key _ _ := Ok ("get:" +:+ key);
  st_Head _ _ := Ok (mkObjectInfo 6 "application/zip");
  st_Exists _ _ := Ok true;
  st_Get _ _ := Ok (bytes, None);
  st_Delete _ _ := Ok tt
|}.

Definition digest : string := Eval vm_compute in sha256_hex bytes.

Definition release (id version channel status : string) (published : option Time) : Release :=
  mkRelease id "prod-1" version channel "Editor" "" status "" published None 0 0 None [].
Definition artifact (id releaseID platform version : string) : ReleaseArtifact :=
  mkArtifact id releaseID platform ("releases/editor/" +:+ version +:+ "/" +:+ platform +:+ ".zip") 6 digest ""
    "application/zip" None 0 0.

Definition product : Product := mkProduct "prod-1" "Editor" "editor" ProductTypeHybrid "" "" true 0.

Definition db : DB :=
  t_set releases {[
      "rel-1" := release "rel-1" "1.2.0" "stable" ReleaseStatusPublished (Some 10);
      "rel-2" := release "rel-2" "1.10.0" "stable" ReleaseStatusDraft None;
      "rel-3" := release "rel-3" "1.3.0" "beta" ReleaseStatusPublished (Some 20)]}
  (t_set release_artifacts {[
      "art-1" := artifact "art-1" "rel-1" "linux-x64" "1.2.0";
      "art-2" := artifact "art-2" "rel-2" "linux-x64" "1.10.0";
      "art-3" := artifact "art-3" "rel-3" "linux-x64" "1.3.0"]}
  (mkDB (db_users Demo.db) {["prod-1" := product; "prod-2" := Demo.saas]} (db_plans Demo.db)
    (db_entitlements Demo.db) (db_licenses Demo.db) ∅ ∅ ∅ ∅ ∅ ∅ ∅ ∅ ∅ ∅ ∅ ∅ ∅ ∅ ∅ ∅ ∅ ∅ ∅ ∅ ∅ ∅ ∅ ∅ ∅ ∅ ∅)).

Definition world : World :=
  mkWorld db None (1000 * Second) [5%N] [] false 0 (repeat "r"%char 200) ∅ [].
Definition signer : option Signer := Some (mkSigner (Some (mkAESGCM "k")) 1000).
Definition service : ReleaseService := mkReleaseService signer true Hour (10 * Minute).
Definition keyed_world : World := snd (GenerateForProduct signer "prod-1" world).
Definition download (version channel : string) : DownloadInput :=
  mkDownload "KEY-1" "prod-1" version "linux-x64" channel.
End ReleaseDemo.

Export (hints) ReleaseDemo.

(** ** Deciding well-formedness *)

Definition releases_wf_b (db : DB) : bool :=
  let arts := db_release_artifacts db in
  bool_decide (map_Forall (fun k r => rel_ID r = k) (db_releases db))
  && bool_decide (map_Forall (fun k a => art_ID a = k /\ is_Some (db_releases db !! art_ReleaseID a)) arts)
  && bool_decide (map_Forall (fun _ r => rel_Status r = ReleaseStatusDraft \/
       is_Some (rel_PublishedAt r) /\ row_exists (owned (rel_ID r)) arts = true
       /\ row_exists (fun a => owned (rel_ID r) a && negb (IsUploaded a)) arts = false) (db_releases db))
  && bool_decide (map_Forall (fun k1 a1 => map_Forall (fun k2 a2 =>
       k1 = k2 \/ sk_Active a1 = false \/ sk_Active a2 = false \/ sk_ProductID a1 <> sk_ProductID a2)
       (db_signing_keys db)) (db_signing_keys db)).

Lemma releases_wf_b_sound db : releases_wf_b db = true -> releases_wf db.
Proof.
  unfold releases_wf_b. intros Hb. bool_facts.
  match goal with H1 : map_Forall _ (db_releases db), H2 : map_Forall _ (db_release_artifacts db),
    H3 : map_Forall _ (db_releases db), H4 : map_Forall _ (db_signing_keys db) |- _ =>
    rename H1 into Hr, H2 into Ha, H3 into Hp, H4 into Hk end.
  split_and!.
  - intros k r Hkr. by apply Hr.
  - intros k a Hka. by apply (Ha k a).
  - intros k a Hka. destruct (Ha k a Hka) as [_ [r ?]]. by exists r.
  - intros k r Hkr Hnd. destruct (Hp k r Hkr) as [|(Hpub & Hsome & Hall)]; [done|]. split_and!.
    + by destruct (rel_PublishedAt r), Hpub.
    + apply row_exists_true in Hsome as (ka & a & Hka & Ho). unfold owned in Ho. str_facts. eauto.
    + intros ka a Hka Ho. pose proof (proj1 (row_exists_false _ _) Hall ka a Hka) as E. simpl in E.
      unfold owned in E. rewrite Ho, streq_refl in E. by apply negb_false_iff in E.
  - intros k1 k2 a1 a2 H1 H2 A1 A2 E. destruct (Hk k1 a1 H1 k2 a2 H2) as [|[|[|]]]; congruence.
Qed.

Lemma demo_releases_wf : releases_wf ReleaseDemo.db.
Proof. apply releases_wf_b_sound. vm_compute. reflexivity. Qed.

(** ** Witnesses *)

(** What a run on the catalogue answers, read off it by evaluation. *)
Definition observe {E A B} (f : A -> World -> B) (d : B) (r : result E A * World) : B :=
  match r with (Ok a, w) => f a w | (Err _, _) => d end.

Ltac must_succeed E :=
  exfalso; match type of E with
  | ?run = _ =>
      let H := fresh in
      assert (observe (fun _ _ => true) false run = true) as H by (vm_compute; reflexivity);
      rewrite E in H; discriminate H
  end.

Definition demo_requests : list release_request :=
  [RGenerateKey "prod-1"; RPublish "rel-2"; RYank "rel-1" "bad build"; RDeleteDraft "rel-1"; RDeleteArtifact "art-1"].

Lemma releases_stay_well_formed_witness :
  releases_wf (w_db (snd (serve_all ReleaseDemo.service demo_requests ReleaseDemo.world))).
Proof.
  apply (releases_stay_well_formed ReleaseDemo.service demo_requests ReleaseDemo.world);
    [reflexivity|exact demo_releases_wf].
Defined.

Lemma published_files_frozen_witness :
  let w' := snd (serve_all ReleaseDemo.service demo_requests ReleaseDemo.world) in
  exists r', db_releases (w_db w') !! "rel-1" = Some r' /\ ~ is_draft r' /\
    files "rel-1" (w_db w') = files "rel-1" ReleaseDemo.db.
Proof.
  destruct (published_files_frozen ReleaseDemo.service demo_requests ReleaseDemo.world "rel-1"
    (ReleaseDemo.release "rel-1" "1.2.0" "stable" ReleaseStatusPublished (Some 10)))
    as (r' & Hr & Hd & _ & Hf); [reflexivity|exact demo_releases_wf|reflexivity|discriminate|].
  exists r'. split; [exact Hr|]. split; [exact Hd|exact Hf].
Defined.

Lemma findLatestPublished_greatest_witness :
  match findLatestPublished "prod-1" "beta" "linux-x64" ReleaseDemo.world with
  | (Ok r, _) => rel_Version r = "1.3.0" /\
      at_least r (ReleaseDemo.release "rel-1" "1.2.0" "stable" ReleaseStatusPublished (Some 10))
  | _ => False
  end.
Proof.
  destruct (findLatestPublished "prod-1" "beta" "linux-x64" ReleaseDemo.world) as [[r|e] w'] eqn:E.
  - split.
    + assert (observe (fun r _ => rel_Version r) "" (findLatestPublished "prod-1" "beta" "linux-x64" ReleaseDemo.world)
        = "1.3.0") as Hv by (vm_compute; reflexivity). rewrite E in Hv. exact Hv.
    + apply (proj2 (findLatestPublished_greatest "prod-1" "beta" "linux-x64" ReleaseDemo.world r w' E))
        with (ch := "stable") (k := "rel-1"); [|by right; left|reflexivity|vm_compute; reflexivity].
      refine (proj1 (Forall_forall (fun ch => count (feed_row "prod-1" ch "linux-x64" ReleaseDemo.db)
        (db_releases ReleaseDemo.db) <= latestComputeWindow) _) _). repeat constructor; vm_compute; discriminate.
  - must_succeed E.
Defined.

Lemma GenerateDownload_sound_witness :
  match GenerateDownload ReleaseDemo.service (ReleaseDemo.download "1.2.0" "stable") ReleaseDemo.world with
  | (Ok res, _) => exists lic used, found "KEY-1" ReleaseDemo.db lic /\ IsLicenseUsable used lic = true
      /\ dr_Version res = "1.2.0"
  | _ => False
  end.
Proof.
  destruct (GenerateDownload ReleaseDemo.service (ReleaseDemo.download "1.2.0" "stable") ReleaseDemo.world)
    as [[res|e] w'] eqn:E.
  - destruct (GenerateDownload_sound ReleaseDemo.service (ReleaseDemo.download "1.2.0" "stable") ReleaseDemo.world
      res w' eq_refl E) as (lic & used & k & r & ka & a & n & Hf & _ & _ & _ & Hu & _ & _ & Hv & _ & _ & _ & _ & Hres & _).
    exists lic, used. split; [exact Hf|]. split; [exact Hu|]. simpl in Hv. injection Hres as Hres _ _ _. congruence.
  - must_succeed E.
Defined.

Lemma Publish_sound_witness :
  match Publish ReleaseDemo.service "rel-2" ReleaseDemo.keyed_world with
  | (Ok out, w') => rel_Status out = ReleaseStatusPublished /\ all_signed "rel-2" (w_db w')
  | _ => False
  end.
Proof.
  assert (releases_wf (w_db ReleaseDemo.keyed_world)) as Hwf
    by (apply releases_wf_b_sound; vm_compute; reflexivity).
  destruct (Publish ReleaseDemo.service "rel-2" ReleaseDemo.keyed_world) as [[out|e] w'] eqn:E.
  - destruct (Publish_sound ReleaseDemo.service "rel-2" ReleaseDemo.keyed_world out w' eq_refl Hwf E)
      as (_ & r & kp & p & _ & Hst & _ & Hout & Hp & Hid & Hsig).
    split; [rewrite Hout; exact Hst|]. apply Hsig.
    assert (rel_ProductID r = "prod-1") as Hpid.
    { change (rel_ProductID r) with (rel_ProductID (with_product_artifacts (w_db w') r)). rewrite <- Hout.
      assert (observe (fun out _ => rel_ProductID out) ""
        (Publish ReleaseDemo.service "rel-2" ReleaseDemo.keyed_world) = "prod-1") as Ho by (vm_compute; reflexivity).
      rewrite E in Ho. exact Ho. }
    assert (observe (fun _ w => bool_decide (map_Forall (fun _ p => prod_ID p = "prod-1" -> prod_RequireSigning p = true)
      (db_products (w_db w)))) false (Publish ReleaseDemo.service "rel-2" ReleaseDemo.keyed_world) = true) as Hreq
      by (vm_compute; reflexivity).
    rewrite E in Hreq. apply bool_decide_eq_true in Hreq. apply (Hreq kp p Hp). congruence.
  - must_succeed E.
Defined.

#[local] Instance signing_key_eq_dec : EqDecision ReleaseSigningKey.
Proof. solve_decision. Defined.

(** The key is rotated after it was made: the signature is under the new one. *)
Lemma demo_rotated_key k w1 :
  RotateForProduct ReleaseDemo.signer "prod-1" "leaked" ReleaseDemo.keyed_world = (Ok k, w1) ->
  first_row (rows (active_key "prod-1") (db_signing_keys (w_db w1))) = Some k.
Proof.
  intros Ek. apply (bool_decide_eq_true_1 (first_row (rows (active_key "prod-1") (db_signing_keys (w_db w1))) = Some k)).
  assert (observe (fun k w => bool_decide (first_row (rows (active_key "prod-1") (db_signing_keys (w_db w))) = Some k))
    false (RotateForProduct ReleaseDemo.signer "prod-1" "leaked" ReleaseDemo.keyed_world) = true) as Ho by (vm_compute; reflexivity).
  by rewrite Ek in Ho.
Qed.

Lemma signatures_reach_clients_witness :
  match RotateForProduct ReleaseDemo.signer "prod-1" "leaked" ReleaseDemo.keyed_world with
  | (Ok k, w1) =>
      match SignArtifact ReleaseDemo.signer (ReleaseDemo.release "rel-2" "1.10.0" "stable" "draft" None)
              (ReleaseDemo.artifact "art-2" "rel-2" "linux-x64" "1.10.0") w1 with
      | (Ok res, _) => VerifySignature (sk_PublicKey k) ReleaseDemo.bytes (sr_Signature res) = None
      | _ => False
      end
  | _ => False
  end.
Proof.
  destruct (RotateForProduct ReleaseDemo.signer "prod-1" "leaked" ReleaseDemo.keyed_world) as [[k|e] w1] eqn:Ek;
    [|must_succeed Ek].
  destruct (SignArtifact _ _ _ w1) as [[res|e] w3] eqn:Es.
  - destruct (signatures_reach_clients (mkAESGCM "k") 1000 "prod-1" k
      (ReleaseDemo.release "rel-2" "1.10.0" "stable" "draft" None)
      (ReleaseDemo.artifact "art-2" "rel-2" "linux-x64" "1.10.0") w1 res w3
      (ex_intro _ ReleaseDemo.keyed_world (ex_intro _ w1 (or_intror (ex_intro _ "leaked" Ek)))) ltac:(lia) eq_refl
      (demo_rotated_key k w1 Ek) Es) as (n & bytes & pub & sig & id & Hb & _ & _ & _ & _ & _ & _ & _ & _ & Hv & _).
    injection Hb as <-. exact Hv.
  - exfalso. assert (match RotateForProduct ReleaseDemo.signer "prod-1" "leaked" ReleaseDemo.keyed_world with
      | (Ok _, w1) => observe (fun _ _ => true) false (SignArtifact ReleaseDemo.signer
          (ReleaseDemo.release "rel-2" "1.10.0" "stable" "draft" None)
          (ReleaseDemo.artifact "art-2" "rel-2" "linux-x64" "1.10.0") w1)
      | _ => true end = true) as Ho by (vm_compute; reflexivity).
    rewrite Ek, Es in Ho. discriminate Ho.
Defined.

Lemma FeedTauri_sound_witness :
  match FeedTauri "https://licensehub.app" (10 * Minute) " Editor" "linux-x64" (Some "beta") "" ReleaseDemo.world with
  | (Ok (Manifest m), _) => exists k r, db_releases ReleaseDemo.db !! k = Some r /\ tm_Version m = rel_Version r
  | _ => False
  end.
Proof.
  destruct (FeedTauri _ _ " Editor" _ _ _ _) as [[[| |m]|e] w'] eqn:E.
  1,2,4: exfalso; assert (observe (fun t _ => match t with Manifest _ => true | _ => false end) false
    (FeedTauri "https://licensehub.app" (10 * Minute) " Editor" "linux-x64" (Some "beta") "" ReleaseDemo.world) = true)
    as Ho by (vm_compute; reflexivity); rewrite E in Ho; discriminate Ho.
  destruct (FeedTauri_sound "https://licensehub.app" (10 * Minute) " Editor" "linux-x64" (Some "beta") ""
    ReleaseDemo.world m w' E) as (kp & p & ch & k & r & ka & a & n & _ & _ & _ & _ & Hk & _ & _ & _ & _ & _ & _ & Hv & _).
  exists k, r. split; [exact Hk|exact Hv].
Defined.

Lemma RotateSigningKey_exact_witness :
  let k := mkSigningKey "" "prod-1" "0123456789012345678901234567890123456789" (String.concat "" (repeat "abc" 20))
             true "" 0 None in
  match RotateSigningKey k "leaked" ReleaseDemo.keyed_world with
  | (Ok row, w') => sk_Active row = true /\ sk_PublicKey row = "0123456789012345678901234567890123456789"
  | _ => False
  end.
Proof.
  cbv zeta. set (k := mkSigningKey _ _ _ _ _ _ _ _).
  destruct (RotateSigningKey k "leaked" ReleaseDemo.keyed_world) as [[row|e] w'] eqn:E.
  - destruct (RotateSigningKey_exact k "leaked" ReleaseDemo.keyed_world row w' E) as (Ha & _ & Hp & _).
    split; [exact Ha|exact Hp].
  - must_succeed E.
Defined.

(** ** What the unguarded signature update allows *)

(** Republish_resigns: asking to publish a release that is already published is
    refused with 409 NOT_PUBLISHABLE, but only after its artifact was signed
    again: the signature clients were given is replaced by one of the key that
    is active now. *)
Example republish_resigns :
  let w := snd (Publish ReleaseDemo.service "rel-2" ReleaseDemo.keyed_world) in
  let w := snd (RotateForProduct ReleaseDemo.signer "prod-1" "rotated" w) in
  let '(r, w') := Publish ReleaseDemo.service "rel-2" w in
  let key_of w := db_release_artifacts (w_db w) !! "art-2" ≫= art_SigningKeyID in
  (match r with Err (AppErr e) => Code e | _ => "" end) = "NOT_PUBLISHABLE" /\
  key_of w = Some "id-0" /\ key_of w' = Some "id-1".
Proof. vm_compute. done. Qed.

(** Stale_signature_published: an upload finalised again between the signing of
    an artifact and the write of its signature clears nothing the gate looks
    for: the release is published with the digest of the new bytes and a
    signature of the old ones. *)
Example stale_signature_published :
  let art := ReleaseDemo.artifact "art-2" "rel-2" "linux-x64" "1.10.0" in
  let w := ReleaseDemo.keyed_world in
  let '(signed, w) := SignArtifact ReleaseDemo.signer (ReleaseDemo.release "rel-2" "1.10.0" "stable" "draft" None) art w in
  let w := snd (UpdateArtifactFile "art-2" (art_FileKey art) 5 (sha256_hex "other") "application/zip" w) in
  match signed with
  | Ok res =>
      let w := snd (UpdateArtifactSignature "art-2" (sr_Signature res) (sr_SigningKeyID res) w) in
      let '(published, w) := PublishRelease "rel-2" true w in
      let pub := default "" (sk_PublicKey <$> db_signing_keys (w_db w) !! "id-0") in
      published = Ok tt /\
      (art_SHA256 <$> db_release_artifacts (w_db w) !! "art-2") = Some (sha256_hex "other") /\
      (art_Ed25519Sig <$> db_release_artifacts (w_db w) !! "art-2") = Some (sr_Signature res) /\
      VerifySignature pub "binary" (sr_Signature res) = None /\
      VerifySignature pub "other" (sr_Signature res) <> None
  | Err _ => False
  end.
Proof. vm_compute. done. Qed.
