(* ===== verification/Payments.v ===== *)
(** * Stripe payments ([payment/stripe.go])

    The webhook with its replay protection and the handler of each event, the
    fulfilment of a checkout by its three callers, and the customer's own
    requests.  Stripe's API and its signature check are the class [Stripe];
    each answer may differ from call to call (it is indexed by the effects
    that came before).  The structs the handlers decode with [encoding/json]
    are the class [StripeJSON], one function per struct. *)

From S2P Require Import Prelude GoStrings Errors Model World Tables Logic Crypto KeyGen GoTime AesGcm Store Webhook.
From S2P Require Import Sessions Expiry EmailQueue ReleaseStore.
From Stdlib Require Import Ascii String.

#[local] Open Scope string_scope.
#[local] Open Scope Z_scope.

(** ** Interfaces *)

Record StripeEvent := mkEvent { ev_ID : string; ev_Type : string; ev_Livemode : bool; ev_Raw : string }.

Record CheckoutSession := mkSession {
  cs_ID : string; cs_PaymentStatus : string; cs_CustomerEmail : string; cs_Customer : option string;
  cs_Subscription : option string; cs_Metadata : gmap string string
}.

Record CheckoutParams := mkCheckoutParams {
  cp_Mode : string; cp_Price : string; cp_SuccessURL : string; cp_CancelURL : string;
  cp_Metadata : gmap string string; cp_CustomerEmail : option string
}.

Class Stripe := {
  (** [webhook.ConstructEvent(body, signature, secret)] *)
  ConstructEvent : string -> string -> string -> option StripeEvent;
  (** the customer's e-mail address *)
  st_customer : nat -> string -> result goerr string;
  (** the items of a subscription: identifier and price *)
  st_subscription : nat -> string -> result goerr (list (string * string));
  st_session : nat -> string -> result goerr CheckoutSession;
  (** the completed sessions created since, and the error that ends the list *)
  st_sessions : nat -> Z -> list CheckoutSession * option goerr;
  st_new_session : nat -> CheckoutParams -> result goerr (string * string);
  st_price_type : nat -> string -> result goerr string;
  st_cancel : nat -> string -> result goerr unit;
  (** [cancel_at] of the updated subscription *)
  st_cancel_at_period_end : nat -> string -> result goerr Z;
  st_change_price : nat -> string -> string -> string -> string -> result goerr unit;
  st_portal : nat -> string -> string -> result goerr string
}.

(** A call of the API, recorded with its arguments. *)
Definition stripe_call {E A} (name : string) (args : list string) (answer : nat -> A) : M E A := fun w =>
  (Ok (answer (List.length (w_events w))), set_events (app (w_events w) [EvStripe name args]) w).

Lemma still_stripe_call {E A} name args (answer : nat -> A) : still (stripe_call (E := E) name args answer).
Proof. by intros w. Qed.

(** The decoded structs, the fields that are read. *)
Record CheckoutData := mkCheckoutData {
  cd_ID : string; cd_CustomerEmail : string; cd_Customer : string; cd_Subscription : string;
  cd_Metadata : gmap string string
}.
Record SubscriptionData := mkSubscriptionData { sd_ID : string; sd_Status : string; sd_CurrentPeriodEnd : Z }.
Record ChargeData := mkChargeData {
  ch_ID : string; ch_Customer : string; ch_AmountRefunded : Z; ch_Refunded : bool
}.
Record DisputeData := mkDisputeData {
  dd_ID : string; dd_Charge : string; dd_Reason : string; dd_Status : string; dd_Amount : Z
}.

Class StripeJSON := {
  un_checkout : string -> option CheckoutData;
  un_invoice_paid : string -> option (string * Z);           (* subscription, period_end *)
  un_subscription : string -> option SubscriptionData;
  un_id : string -> option string;                           (* struct { ID } *)
  un_invoice : string -> option string;                      (* struct { Subscription } *)
  un_charge : string -> option ChargeData;
  un_dispute : string -> option DisputeData;
  un_dispute_closed : string -> option (string * string * string);  (* id, status, reason *)
  un_action_required : string -> option (string * string);   (* subscription, hosted_invoice_url *)
  un_trial : string -> option (string * Z);                  (* id, trial_end *)
  un_upcoming : string -> option (string * Z * string);      (* subscription, amount_due, currency *)
  un_customer : string -> option (string * string)           (* id, email *)
}.

(** What a handler answers. *)
Inductive Reply :=
  | Success (data : gmap string any)
  | Failure (status : Z) (code message : string)
  | Redirect (url : string).

Definition BadRequest (message : string) : Reply := Failure 400 "BAD_REQUEST" message.
Definition InternalError : Reply := Failure 500 "INTERNAL_ERROR" "an internal error occurred".

(** ** Store *)

(** An instant given in seconds, [time.Unix(s, 0)]. *)
Definition unix (s : Z) : Time := s * Second.

Section store.
Context `{UUIDs}.

(** [INSERT ... ON CONFLICT (provider, event_id) DO NOTHING RETURNING id]: no
    row comes back from a conflict, and any error counts as seen before. *)
Definition record_event (provider eventID id : string) (db : DB) : result goerr (string * DB) :=
  if bool_decide ((provider, eventID) ∈ db_processed_events db) then Err ErrNoRows
  else Ok (id, add_processed_event provider eventID db).

Definition TryRecordProcessedEvent {E} (provider eventID : string) : M E bool :=
  id ← newID;
  r ← attempt (stmt (record_event provider eventID id));
  mret (match r with Ok id => negb (streq id "") | Err _ => false end).

Definition select_plan (P : Plan -> bool) : M goerr Plan := stmt (fun db =>
  match first_row (rows P (db_plans db)) with
  | Some p => Ok (with_entitlements db p, db)
  | None => Err ErrNoRows
  end).

Definition FindPlanByStripePrice (priceID : string) : M goerr Plan :=
  select_plan (fun p => streq (plan_StripePriceID p) priceID).
Definition FindPlanByCheckoutID (checkoutID : string) : M goerr Plan :=
  select_plan (fun p => streq (plan_CheckoutID p) checkoutID).
Definition FindPlanByID (id : string) : M goerr Plan := select_plan (fun p => streq (plan_ID p) id).

Definition live_for (email productID : string) (l : License) : bool :=
  streq (lic_Email l) email && streq (lic_ProductID l) productID
  && contains (lic_Status l) [StatusActive; StatusTrialing].

Definition FindActiveLicenseByEmailAndProduct {E} (email productID : string) : M E (option License) :=
  r ← attempt (sql_select_one licenses (live_for email productID));
  mret (match r with Ok l => Some l | Err _ => None end).

(** A missing subscription is NULL, which equals nothing. *)
Definition billed_by (subID : string) (l : License) : bool :=
  negb (streq subID "") && streq (lic_StripeSubscriptionID l) subID.

Definition FindLicenseByStripeSubscription (subID : string) : M goerr License :=
  sql_select_one licenses (billed_by subID).

(** [ORDER BY created_at DESC LIMIT 1].  A missing customer is the empty text. *)
Definition newest (l : list License) : option License := head (sort_by (fun l => - lic_CreatedAt l) l).

Definition FindLicenseByStripeCustomer (customerID : string) : M goerr License := stmt (fun db =>
  match newest (map_to_list (rows (fun l => streq (lic_StripeCustomerID l) customerID) (db_licenses db))).*2 with
  | Some l => Ok (with_product_and_plan db l, db)
  | None => Err ErrNoRows
  end).

Definition lic_set_email (email : string) (now : Time) (l : License) : License :=
  mkLicense (lic_ID l) (lic_ProductID l) (lic_PlanID l) (lic_UserID l) email
    (lic_LicenseKey l) (lic_KeyHash l) (lic_LicenseKeyEncrypted l) (lic_PaymentProvider l)
    (lic_StripeCustomerID l) (lic_StripeSubscriptionID l) (lic_Status l) (lic_ValidFrom l)
    (lic_ValidUntil l) (lic_CanceledAt l) (lic_SuspendedAt l) (lic_PastDueAt l) (lic_Notes l)
    (lic_OrgName l) (lic_ExternalCustomerID l) (lic_ExternalWorkspaceID l) (lic_CreatedAt l)
    now (lic_Product l) (lic_Plan l).

Definition UpdateLicenseEmailByStripeCustomer {E} (customerID email : string) : M E unit :=
  now ← sql_now;
  ignore (sql_update licenses (fun l => streq (lic_StripeCustomerID l) customerID) (lic_set_email email now)).

(** [ORDER BY created_at DESC LIMIT 1]. *)
Definition FindSubscriptionByLicense (licenseID : string) : M goerr Subscription := stmt (fun db =>
  match head (sort_by (fun r => - sub_CreatedAt r)
          (map_to_list (rows (fun r => streq (sub_LicenseID r) licenseID) (db_subscriptions db))).*2) with
  | Some r => Ok (r, db)
  | None => Err ErrNoRows
  end).

(** [UpdateSubscription(ctx, sub, "plan_id")]. *)
Definition UpdateSubscriptionPlan (sub : Subscription) : M goerr unit :=
  now ← time_Now;
  sql_update_checked subscriptions (sub_ID sub) (fun r =>
    mkSubscription (sub_ID r) (sub_LicenseID r) (sub_PlanID sub) (sub_Status r) (sub_TrialStart r)
      (sub_TrialEnd r) (sub_CreatedAt r) now) ;;
  mret tt.
End store.

(** A licence in memory, the columns of its billing state assigned. *)
Definition lic_billing (status : string) (until canceled suspended pastDue : option Time) (l : License) : License :=
  mkLicense (lic_ID l) (lic_ProductID l) (lic_PlanID l) (lic_UserID l) (lic_Email l)
    (lic_LicenseKey l) (lic_KeyHash l) (lic_LicenseKeyEncrypted l) (lic_PaymentProvider l)
    (lic_StripeCustomerID l) (lic_StripeSubscriptionID l) status (lic_ValidFrom l)
    until canceled suspended pastDue (lic_Notes l)
    (lic_OrgName l) (lic_ExternalCustomerID l) (lic_ExternalWorkspaceID l) (lic_CreatedAt l)
    (lic_UpdatedAt l) (lic_Product l) (lic_Plan l).

Definition lic_set_plan (planID : string) (l : License) : License :=
  mkLicense (lic_ID l) (lic_ProductID l) planID (lic_UserID l) (lic_Email l)
    (lic_LicenseKey l) (lic_KeyHash l) (lic_LicenseKeyEncrypted l) (lic_PaymentProvider l)
    (lic_StripeCustomerID l) (lic_StripeSubscriptionID l) (lic_Status l) (lic_ValidFrom l)
    (lic_ValidUntil l) (lic_CanceledAt l) (lic_SuspendedAt l) (lic_PastDueAt l) (lic_Notes l)
    (lic_OrgName l) (lic_ExternalCustomerID l) (lic_ExternalWorkspaceID l) (lic_CreatedAt l)
    (lic_UpdatedAt l) (lic_Product l) (lic_Plan l).

(** ** The handler *)

Record StripeHandler := mkStripe {
  sh_secret : string;
  sh_BaseURL : string;
  sh_Email : bool;          (* Email != nil *)
  sh_WebhookSvc : bool;     (* WebhookSvc != nil *)
  sh_Livemode : bool;
  sh_AEAD : option AESGCM   (* the store's licence key cipher *)
}.

(** The message with the licence key; [~] stands for a double quote. *)
Definition license_body (productName planName displayKey : string) : string :=
  smap (fun c => if Ascii.eqb c "~" then chr 34 else c)
"<!DOCTYPE html>
<html><body style=~font-family: -apple-system, sans-serif; max-width: 600px; margin: 0 auto; padding: 20px;~>
<h2 style=~color: #111;~>Your " +:+ productName +:+ smap (fun c => if Ascii.eqb c "~" then chr 34 else c)
" License</h2>
<p>Your <strong>" +:+ planName +:+ smap (fun c => if Ascii.eqb c "~" then chr 34 else c)
"</strong> license is ready.</p>
<div style=~background: #f4f4f5; border-radius: 8px; padding: 16px; margin: 16px 0; font-family: monospace; font-size: 18px; text-align: center; letter-spacing: 2px;~>"
+:+ displayKey +:+ smap (fun c => if Ascii.eqb c "~" then chr 34 else c)
"</div>
<p style=~color: #666; font-size: 14px;~>Keep this key safe. You'll need it to activate your software.</p>
</body></html>".

(** The zero [model.Plan] a query that finds nothing leaves behind. *)
Definition zero_plan : Plan := mkPlan "" "" "" "" "" "" "" 0 0 0 "" "" 0 0 false 0 0 [].

(** [license.GenerateKey]: it panics when the random source fails. *)
Definition generate_key (prefix : string) : M goerr string := fun w =>
  match GenerateKey prefix (w_rand w) with
  | Some (key, rest) => (Ok key, set_rand rest w)
  | None => (Err (ErrText "panic: crypto/rand"), w)
  end.

Section handler.
Context `{UUIDs} `{GCM} `{Stripe} `{StripeJSON} (h : StripeHandler).

Definition dispatch {E} (lic : License) (event : string) (data : gmap string any) : M E unit :=
  if sh_WebhookSvc h then Dispatch (lic_ProductID lic) event data else mret tt.

Definition send {E} (template to : string) (args : list string) : M E unit :=
  if sh_Email h then emit (EvEmail template to args) else mret tt.

Definition webhook_audit {E} (entity id action : string) (changes : gmap string any) : M E unit :=
  Audit (mkAuditLog "" entity id action "" "webhook" changes "" 0).

Definition of_license (lic : License) : gmap string any :=
  {["license_id" := AnyString (lic_ID lic); "email" := AnyString (lic_Email lic)]}.

Definition productName {E} (productID : string) : M E string :=
  r ← attempt (FindProductByID productID);
  match r with
  | Ok p => if streq (prod_Name p) "" then emit (EvWarn "product name not found, using fallback") ;; mret "Your Software"
            else mret (prod_Name p)
  | Err _ => emit (EvWarn "product name not found, using fallback") ;; mret "Your Software"
  end.

Definition resolvePlan {E} (subID : string) : M E (option Plan) :=
  sub ← stripe_call "subscription.Get" [subID] (fun n => st_subscription n subID);
  match sub with
  | Ok ((_, price) :: _) =>
      r ← attempt (FindPlanByStripePrice price);
      mret (match r with Ok p => Some p | Err _ => None end)
  | _ => mret None
  end.

(** *** Fulfilment of a checkout *)

(** The plan of the subscription, else the one the metadata names; a plan
    that is not found there is the zero plan, not [nil]. *)
Definition checkout_plan {E} (subscriptionID : string) (metadata : gmap string string) : M E (option Plan) :=
  plan ← (if negb (streq subscriptionID "") then resolvePlan subscriptionID else mret None);
  let planID := default "" (metadata !! "plan_id") in
  match plan with
  | Some p => mret (Some p)
  | None =>
      if negb (streq planID "")
      then r ← attempt (FindPlanByID planID); mret (Some (match r with Ok p => p | Err _ => zero_plan end))
      else mret None
  end.

(** The address Stripe knows for the customer, else the session's. *)
Definition checkout_email {E} (email customerID : string) : M E string :=
  if negb (streq customerID "") then
    r ← stripe_call "customer.Get" [customerID] (fun n => st_customer n customerID);
    mret (match r with Ok e => if streq e "" then email else e | Err _ => email end)
  else mret email.

Definition checkout_status (plan : Plan) : string :=
  if streq (plan_LicenseType plan) "trial" then StatusTrialing else StatusActive.

Definition trial_until {E} (plan : Plan) : M E (option Time) :=
  if streq (plan_LicenseType plan) "trial" && (0 <? plan_TrialDays plan) then
    now ← time_Now; mret (Some (Add now (go_mul (go_mul (plan_TrialDays plan) 24) Hour)))
  else mret None.

Definition checkout_license (plan : Plan) (email customerID subscriptionID key : string) (until : option Time)
    : License :=
  mkLicense "" (plan_ProductID plan) (plan_ID plan) "" email key "" "" "stripe" customerID subscriptionID
    (checkout_status plan) 0 until None None None "" "" "" "" 0 0 None None.

(** What follows the creation of the licence. *)
Definition announce (lic : License) (plan : Plan) (source : string) : M goerr unit :=
  let email := lic_Email lic in
  u ← attempt (FindUserByEmail email);
  match u with
  | Ok u => ignore (UpdateLicenseUser (lic_ID lic) (user_ID u))
  | Err _ => mret tt
  end ;;
  name ← productName (plan_ProductID plan);
  displayKey ← DecryptLicenseKey (sh_AEAD h) (Some lic);
  ignore (EnqueueEmail email ("Your license for " +:+ name) (license_body name (plan_Name plan) displayKey)) ;;
  Audit (mkAuditLog "" "license" (lic_ID lic) "created" "" source
    {["provider" := AnyString "stripe"; "email" := AnyString email; "plan" := AnyString (plan_Name plan)]} "" 0) ;;
  dispatch lic "license.created" (<["plan_id" := AnyString (lic_PlanID lic)]> (of_license lic)).

Definition create_from_checkout (plan : Plan) (email customerID subscriptionID source : string) : M goerr unit :=
  key ← generate_key "";
  until ← trial_until plan;
  ignore (UpsertUser (mkUser "" email "" "" "" 0 0 0)) ;;
  r ← attempt (CreateLicenseWithSubscription (sh_AEAD h)
        (checkout_license plan email customerID subscriptionID key until) (Some plan));
  match r with
  | Err _ => emit (EvWarn "stripe checkout: failed to create license")
  | Ok lic => announce lic plan source
  end.

(** One session is fulfilled at most once, an address holds at most one
    licence of a product this way. *)
Definition fulfillCheckout (email customerID subscriptionID : string) (metadata : gmap string string)
    (source : string) : M goerr unit :=
  let session := default "" (metadata !! "session_id") in
  first ← (if negb (streq session "") then TryRecordProcessedEvent "stripe_fulfill" session else mret true);
  if negb first then mret tt
  else
    plan ← checkout_plan subscriptionID metadata;
    match plan with
    | None => emit (EvWarn "stripe checkout: could not resolve plan")
    | Some plan =>
        email ← checkout_email email customerID;
        if streq email "" then emit (EvWarn "stripe checkout: no customer email, skipping")
        else
          existing ← FindActiveLicenseByEmailAndProduct email (plan_ProductID plan);
          match existing with
          | Some _ => mret tt
          | None => create_from_checkout plan email customerID subscriptionID source
          end
    end.

Definition onCheckoutCompleted (raw : string) : M goerr unit :=
  match un_checkout raw with
  | None => mret tt
  | Some d => fulfillCheckout (cd_CustomerEmail d) (cd_Customer d) (cd_Subscription d)
                (<["session_id" := cd_ID d]> (cd_Metadata d)) "webhook"
  end.

Definition paid (s : CheckoutSession) : bool :=
  streq (cs_PaymentStatus s) "paid" || streq (cs_PaymentStatus s) "no_payment_required".

Definition fulfill_session (source : string) (s : CheckoutSession) : M goerr unit :=
  fulfillCheckout (cs_CustomerEmail s) (default "" (cs_Customer s)) (default "" (cs_Subscription s))
    (<["session_id" := cs_ID s]> (cs_Metadata s)) source.

Definition VerifyCheckoutSession (sessionID : string) : M goerr Reply :=
  if streq sessionID "" then mret (BadRequest "session_id is required")
  else
    r ← stripe_call "session.Get" [sessionID] (fun n => st_session n sessionID);
    match r with
    | Err _ => mret (BadRequest "invalid session")
    | Ok s =>
        if negb (paid s) then mret (Success {["status" := AnyString "pending"]})
        else
          fulfill_session "verify" s ;;
          mret (Success {["status" := AnyString "ok"; "email" := AnyString (cs_CustomerEmail s)]})
    end.

Definition SyncRecentCheckouts : M goerr unit :=
  now ← time_Now;
  let cutoff := Unix (Add now (- (10 * Minute))) in
  r ← stripe_call "session.List" [pretty cutoff] (fun n => st_sessions n cutoff);
  let '(sessions, err) := (r : list CheckoutSession * option goerr) in
  for_each sessions (fun s => if paid s then fulfill_session "sync" s else mret tt) ;;
  match err with Some _ => emit (EvWarn "stripe sync: failed to list sessions") | None => mret tt end.

(** *** Subscriptions *)

(** [lic, err := FindLicense...; if err != nil { return }]. *)
Definition with_license {E} (find : M goerr License) (k : License -> M E unit) : M E unit :=
  r ← attempt find;
  match r with Err _ => mret tt | Ok lic => k lic end.

Definition save {E} (lic : License) (cols : list LicCol) : M E unit :=
  ignore (UpdateLicenseAndSubscription lic cols).

Definition episode_of (lic : License) : Z :=
  match lic_PastDueAt lic with Some t => Unix t | None => 0 end.

Definition recovered_tag (episode : Z) : string :=
  if 0 <? episode then "payment_recovered:" +:+ pretty episode else "payment_recovered".

Definition notifyPaymentRecovered {E} (lic : License) (episode : Z) : M E unit :=
  let tag := recovered_tag episode in
  p ← attempt (FindProductByID (lic_ProductID lic));
  let name := match p with Ok p => prod_Name p | Err _ => "" end in
  sent ← HasNotification (lic_ID lic) tag;
  if (sent : bool) then mret tt
  else
    send "payment_recovered" (lic_Email lic) [name] ;;
    RecordNotification (lic_ID lic) tag ;;
    dispatch lic "license.payment_recovered" (of_license lic).

Definition onInvoicePaid {E} (raw : string) : M E unit :=
  match un_invoice_paid raw with
  | None => mret tt
  | Some (subscription, period_end) =>
      if streq subscription "" then mret tt
      else with_license (FindLicenseByStripeSubscription subscription) (fun lic =>
        let lic' := lic_billing StatusActive (Some (unix period_end)) (lic_CanceledAt lic) (lic_SuspendedAt lic)
                      None lic in
        save lic' [ColValidUntil; ColStatus; ColPastDueAt] ;;
        if streq (lic_Status lic) StatusPastDue then notifyPaymentRecovered lic' (episode_of lic) else mret tt)
  end.

(** The billing state a subscription's status gives a licence. *)
Definition subscription_state {E} (status : string) (until : Time) (lic : License) : M E License :=
  let until := Some until in
  let canceled := lic_CanceledAt lic in
  let suspended := lic_SuspendedAt lic in
  if streq status "active" then mret (lic_billing StatusActive until canceled suspended None lic)
  else if streq status "past_due" then
    match lic_PastDueAt lic with
    | Some t => mret (lic_billing StatusPastDue until canceled suspended (Some t) lic)
    | None => now ← time_Now; mret (lic_billing StatusPastDue until canceled suspended (Some now) lic)
    end
  else if streq status "trialing" then
    mret (lic_billing StatusTrialing until canceled suspended (lic_PastDueAt lic) lic)
  else if streq status "canceled" || streq status "unpaid" then
    now ← time_Now; mret (lic_billing StatusCanceled until (Some now) suspended None lic)
  else mret (lic_billing (lic_Status lic) until canceled suspended (lic_PastDueAt lic) lic).

Definition onSubscriptionUpdated {E} (raw : string) : M E unit :=
  match un_subscription raw with
  | None => mret tt
  | Some d =>
      with_license (FindLicenseByStripeSubscription (sd_ID d)) (fun lic =>
        lic' ← subscription_state (sd_Status d) (unix (sd_CurrentPeriodEnd d)) lic;
        save lic' [ColStatus; ColValidUntil; ColCanceledAt; ColPastDueAt] ;;
        if streq (lic_Status lic) StatusPastDue && streq (lic_Status lic') StatusActive
        then notifyPaymentRecovered lic' (episode_of lic) else mret tt)
  end.

Definition onSubscriptionDeleted {E} (raw : string) : M E unit :=
  match un_id raw with
  | None => mret tt
  | Some id =>
      with_license (FindLicenseByStripeSubscription id) (fun lic =>
        now ← time_Now;
        let lic' := lic_billing StatusCanceled (lic_ValidUntil lic) (Some now) (lic_SuspendedAt lic) None lic in
        save lic' [ColStatus; ColCanceledAt; ColPastDueAt] ;;
        webhook_audit "license" (lic_ID lic) "canceled" {["provider" := AnyString "stripe"]} ;;
        dispatch lic "license.canceled" (<["reason" := AnyString "subscription_deleted"]> (of_license lic)))
  end.

Definition onPaymentFailed {E} (raw : string) : M E unit :=
  match un_invoice raw with
  | None => mret tt
  | Some subscription =>
      if streq subscription "" then mret tt
      else with_license (FindLicenseByStripeSubscription subscription) (fun lic =>
        if streq (lic_Status lic) StatusActive then
          now ← time_Now;
          let lic' := lic_billing StatusPastDue (lic_ValidUntil lic) (lic_CanceledAt lic) (lic_SuspendedAt lic)
                        (Some now) lic in
          save lic' [ColStatus; ColPastDueAt] ;;
          webhook_audit "license" (lic_ID lic) "payment_failed" {["provider" := AnyString "stripe"]} ;;
          dispatch lic "license.payment_failed" (of_license lic)
        else mret tt)
  end.

Definition onSubscriptionPaused {E} (raw : string) : M E unit :=
  match un_id raw with
  | None => mret tt
  | Some id =>
      with_license (FindLicenseByStripeSubscription id) (fun lic =>
        now ← time_Now;
        let lic' := lic_billing StatusSuspended (lic_ValidUntil lic) (lic_CanceledAt lic) (Some now)
                      (lic_PastDueAt lic) lic in
        save lic' [ColStatus; ColSuspendedAt] ;;
        webhook_audit "license" (lic_ID lic) "suspended"
          {["reason" := AnyString "subscription_paused"; "provider" := AnyString "stripe"]} ;;
        dispatch lic "license.suspended" (<["reason" := AnyString "subscription_paused"]> (of_license lic)))
  end.

Definition onSubscriptionResumed {E} (raw : string) : M E unit :=
  match un_id raw with
  | None => mret tt
  | Some id =>
      with_license (FindLicenseByStripeSubscription id) (fun lic =>
        let lic' := lic_billing StatusActive (lic_ValidUntil lic) (lic_CanceledAt lic) None
                      (lic_PastDueAt lic) lic in
        save lic' [ColStatus; ColSuspendedAt] ;;
        webhook_audit "license" (lic_ID lic) "reinstated"
          {["reason" := AnyString "subscription_resumed"; "provider" := AnyString "stripe"]} ;;
        dispatch lic "license.reinstated" (of_license lic))
  end.

(** *** Refunds, disputes and notices *)

Definition onChargeRefunded {E} (raw : string) : M E unit :=
  match un_charge raw with
  | None => mret tt
  | Some d =>
      with_license (FindLicenseByStripeCustomer (ch_Customer d)) (fun lic =>
        if ch_Refunded d then
          let lic' := lic_billing StatusRevoked (lic_ValidUntil lic) (lic_CanceledAt lic) (lic_SuspendedAt lic)
                        (lic_PastDueAt lic) lic in
          save lic' [ColStatus] ;;
          webhook_audit "license" (lic_ID lic) "revoked"
            {["reason" := AnyString "full_refund"; "provider" := AnyString "stripe"; "charge_id" := AnyString (ch_ID d)]}
        else if 0 <? ch_AmountRefunded d then
          webhook_audit "license" (lic_ID lic) "partial_refund"
            {["amount_refunded" := AnyInt (ch_AmountRefunded d); "provider" := AnyString "stripe"]}
        else mret tt)
  end.

Definition onDisputeCreated {E} (raw : string) : M E unit :=
  match un_dispute raw with
  | None => mret tt
  | Some d => webhook_audit "dispute" (dd_ID d) "created"
      {["charge_id" := AnyString (dd_Charge d); "reason" := AnyString (dd_Reason d);
        "amount" := AnyInt (dd_Amount d); "status" := AnyString (dd_Status d)]}
  end.

Definition onDisputeClosed {E} (raw : string) : M E unit :=
  match un_dispute_closed raw with
  | None => mret tt
  | Some (id, status, reason) =>
      webhook_audit "dispute" id "closed" {["status" := AnyString status; "reason" := AnyString reason]}
  end.

Definition onPaymentActionRequired {E} (raw : string) : M E unit :=
  match un_action_required raw with
  | None => mret tt
  | Some (subscription, url) =>
      if streq subscription "" then mret tt
      else with_license (FindLicenseByStripeSubscription subscription) (fun lic =>
        name ← productName (lic_ProductID lic);
        send "payment_action_required" (lic_Email lic) [name; url] ;;
        webhook_audit "license" (lic_ID lic) "payment_action_required" {["provider" := AnyString "stripe"]})
  end.

(** The day in the server's zone, here UTC. *)
Definition onTrialWillEnd {E} (raw : string) : M E unit :=
  match un_trial raw with
  | None => mret tt
  | Some (id, trial_end) =>
      with_license (FindLicenseByStripeSubscription id) (fun lic =>
        name ← productName (lic_ProductID lic);
        send "trial_ending" (lic_Email lic) [name; format_day (unix trial_end)])
  end.

Definition onInvoiceUpcoming {E} (raw : string) : M E unit :=
  match un_upcoming raw with
  | None => mret tt
  | Some (subscription, amount_due, currency) =>
      if streq subscription "" then mret tt
      else with_license (FindLicenseByStripeSubscription subscription) (fun lic =>
        webhook_audit "license" (lic_ID lic) "invoice_upcoming"
          {["amount_due" := AnyInt amount_due; "currency" := AnyString currency]})
  end.

Definition onCustomerUpdated {E} (raw : string) : M E unit :=
  match un_customer raw with
  | None => mret tt
  | Some (id, email) =>
      if streq id "" then mret tt
      else if negb (streq email "") then UpdateLicenseEmailByStripeCustomer id email
      else mret tt
  end.

(** *** The webhook *)

Definition handle_event (type raw : string) : M goerr unit :=
  if streq type "checkout.session.completed" then onCheckoutCompleted raw
  else if streq type "invoice.paid" then onInvoicePaid raw
  else if streq type "customer.subscription.updated" then onSubscriptionUpdated raw
  else if streq type "customer.subscription.deleted" then onSubscriptionDeleted raw
  else if streq type "invoice.payment_failed" then onPaymentFailed raw
  else if streq type "charge.refunded" then onChargeRefunded raw
  else if streq type "charge.dispute.created" then onDisputeCreated raw
  else if streq type "charge.dispute.closed" then onDisputeClosed raw
  else if streq type "invoice.payment_action_required" then onPaymentActionRequired raw
  else if streq type "customer.subscription.paused" then onSubscriptionPaused raw
  else if streq type "customer.subscription.resumed" then onSubscriptionResumed raw
  else if streq type "customer.subscription.trial_will_end" then onTrialWillEnd raw
  else if streq type "invoice.upcoming" then onInvoiceUpcoming raw
  else if streq type "customer.updated" then onCustomerUpdated raw
  else emit (EvWarn "stripe webhook: unhandled event type").

Definition received : Reply := Success {["received" := AnyBool true]}.
Definition skipped : Reply := Success {["received" := AnyBool true; "skipped" := AnyBool true]}.

(** [body] is [None] when it cannot be read. *)
Definition Webhook (body : option string) (signature : string) : M goerr Reply :=
  match body with
  | None => mret (BadRequest "read failed")
  | Some body =>
      if streq (sh_secret h) "" then
        emit (EvWarn "stripe webhook received but no signing secret configured") ;;
        mret (BadRequest "webhook not configured")
      else match ConstructEvent body signature (sh_secret h) with
      | None => emit (EvWarn "stripe webhook verification failed") ;; mret (BadRequest "invalid signature")
      | Some event =>
          if negb (Bool.eqb (ev_Livemode event) (sh_Livemode h)) then
            emit (EvWarn "stripe webhook livemode mismatch") ;; mret (BadRequest "livemode mismatch")
          else
            first ← TryRecordProcessedEvent "stripe" (ev_ID event);
            if negb first then mret skipped
            else handle_event (ev_Type event) (ev_Raw event) ;; mret received
      end
  end.
End handler.

(** ** The customer's requests *)

Record CancelRequest := mkCancelRequest { cr_LicenseID : string; cr_Immediate : bool }.
Record ChangePlanRequest := mkChangePlanRequest {
  cpr_LicenseID : string; cpr_NewPriceID : string; cpr_Prorate : option bool
}.
Record CheckoutRequest := mkCheckoutRequest {
  cor_PriceID : string; cor_Email : string; cor_SuccessURL : string; cor_CancelURL : string
}.

(** [net/url]: scheme, host, whether there is userinfo. *)
Class URLs := url_Parse : string -> option (string * string * bool).

Section requests.
Context `{UUIDs} `{GCM} `{Stripe} `{URLs} (h : StripeHandler).

Definition isSameOrigin (raw : string) : bool :=
  match url_Parse (sh_BaseURL h), url_Parse raw with
  | Some (scheme, host, _), Some (scheme', host', user) => streq scheme' scheme && streq host' host && negb user
  | _, _ => false
  end.

Definition default_success : string := sh_BaseURL h +:+ "/checkout/success?session_id={CHECKOUT_SESSION_ID}".
Definition default_cancel : string := sh_BaseURL h +:+ "/pricing".

Definition same_origin_or (url fallback : string) : string :=
  if negb (streq url "") && isSameOrigin url then url else fallback.

Definition plan_metadata (plan : Plan) : gmap string string :=
  {["plan_id" := plan_ID plan; "product_id" := plan_ProductID plan]}.

(** A request whose body does not bind is [None]. *)
Definition CreateCheckoutSession (req : option CheckoutRequest) : M goerr Reply :=
  match req with
  | None => mret (BadRequest "price_id is required")
  | Some req =>
      r ← attempt (FindPlanByStripePrice (cor_PriceID req));
      match r with
      | Err _ => mret (BadRequest "invalid price_id")
      | Ok plan =>
          let params := mkCheckoutParams
            (if streq (plan_LicenseType plan) "perpetual" then "payment" else "subscription") (cor_PriceID req)
            (same_origin_or (cor_SuccessURL req) default_success) (same_origin_or (cor_CancelURL req) default_cancel)
            (plan_metadata plan) (if streq (cor_Email req) "" then None else Some (cor_Email req)) in
          s ← stripe_call "session.New" [cp_Price params; cp_SuccessURL params; cp_CancelURL params]
                (fun n => st_new_session n params);
          match s with
          | Err _ => mret InternalError
          | Ok (url, id) => mret (Success {["url" := AnyString url; "session_id" := AnyString id]})
          end
      end
  end.

Definition CheckoutByPlan (checkoutID : string) : M goerr Reply :=
  if negb (len checkoutID =? 8) then mret (Failure 400 "" "invalid checkout id")
  else
    r ← attempt (FindPlanByCheckoutID checkoutID);
    match r with
    | Err _ => mret (Failure 404 "" "plan not found")
    | Ok plan =>
        if negb (plan_Active plan) then mret (Failure 410 "" "this plan is no longer available")
        else if streq (plan_StripePriceID plan) "" then mret (Failure 503 "" "payment not configured for this plan")
        else
          t ← stripe_call "price.Get" [plan_StripePriceID plan] (fun n => st_price_type n (plan_StripePriceID plan));
          match t with
          | Err _ => emit (EvWarn "stripe: failed to fetch price") ;;
              mret (Failure 503 "" "payment configuration error")
          | Ok type =>
              let params := mkCheckoutParams (if streq type "one_time" then "payment" else "subscription")
                (plan_StripePriceID plan) default_success default_cancel (plan_metadata plan) None in
              s ← stripe_call "session.New" [cp_Price params; cp_SuccessURL params; cp_CancelURL params]
                    (fun n => st_new_session n params);
              match s with
              | Err _ => mret (Failure 500 "" "checkout unavailable")
              | Ok (url, _) => mret (Redirect url)
              end
          end
    end.

(** The licence of a request of the signed-in [email]. *)
Definition own_license (email : option string) (licenseID : string) (k : License -> M goerr Reply) : M goerr Reply :=
  r ← attempt (FindLicenseByID licenseID);
  match r with
  | Err _ => mret (Failure 404 "NOT_FOUND" "license not found")
  | Ok lic =>
      match email with
      | Some e => if streq (lic_Email lic) e then k lic else mret (Failure 403 "FORBIDDEN" "not your license")
      | None => mret (Failure 403 "FORBIDDEN" "not your license")
      end
  end.

Definition user_audit (lic : License) (action : string) (changes : gmap string any) : M goerr unit :=
  Audit (mkAuditLog "" "license" (lic_ID lic) action "" "user" changes "" 0).

(** Stripe is told first; the licence follows when it agreed. *)
Definition cancel_at_stripe (immediate : bool) (lic : License) : M goerr (option unit) :=
  let sub := lic_StripeSubscriptionID lic in
  if immediate then
    r ← stripe_call "subscription.Cancel" [sub] (fun n => st_cancel n sub);
    match r with
    | Err _ => mret None
    | Ok _ =>
        now ← time_Now;
        ignore (UpdateLicense (lic_billing StatusCanceled (Some now) (Some now) (lic_SuspendedAt lic)
                  (lic_PastDueAt lic) lic) [ColStatus; ColCanceledAt; ColValidUntil]) ;;
        mret (Some tt)
    end
  else
    r ← stripe_call "subscription.Update" [sub; "cancel_at_period_end"] (fun n => st_cancel_at_period_end n sub);
    match r with
    | Err _ => mret None
    | Ok cancelAt =>
        ignore (UpdateLicense (lic_billing (lic_Status lic) (Some (unix cancelAt)) (lic_CanceledAt lic)
                  (lic_SuspendedAt lic) (lic_PastDueAt lic) lic) [ColValidUntil]) ;;
        mret (Some tt)
    end.

Definition CancelSubscription (email : option string) (req : option CancelRequest) : M goerr Reply :=
  match req with
  | None => mret (BadRequest "license_id is required")
  | Some req => own_license email (cr_LicenseID req) (fun lic =>
      if streq (lic_StripeSubscriptionID lic) "" then mret (BadRequest "no active subscription")
      else
        done_ ← cancel_at_stripe (cr_Immediate req) lic;
        match done_ with
        | None => mret InternalError
        | Some _ =>
            user_audit lic "cancel_requested" {["immediate" := AnyBool (cr_Immediate req)]} ;;
            name ← match lic_Product lic with
                   | Some p => mret (prod_Name p)
                   | None => r ← attempt (FindProductByID (lic_ProductID lic));
                             mret (match r with Ok p => prod_Name p | Err _ => "" end)
                   end;
            send h "subscription_canceled" (lic_Email lic) [name; if cr_Immediate req then "true" else "false"] ;;
            mret (Success {["status" := AnyString "canceled"; "immediate" := AnyBool (cr_Immediate req)]})
        end)
  end.

(** [ChangePlan] past its guards. *)
Definition change_plan (lic : License) (newPlan : Plan) (priceID proration : string) : M goerr Reply :=
  let subID := lic_StripeSubscriptionID lic in
  sub ← stripe_call "subscription.Get" [subID] (fun n => st_subscription n subID);
  match sub with
  | Ok ((item, _) :: _) =>
      r ← stripe_call "subscription.Update" [subID; item; priceID; proration]
            (fun n => st_change_price n subID item priceID proration);
      match r with
      | Err _ => mret InternalError
      | Ok _ =>
          ignore (UpdateLicense (lic_set_plan (plan_ID newPlan) lic) [ColPlanID]) ;;
          s ← attempt (FindSubscriptionByLicense (lic_ID lic));
          match s with
          | Ok r => ignore (UpdateSubscriptionPlan (mkSubscription (sub_ID r) (sub_LicenseID r) (plan_ID newPlan)
                      (sub_Status r) (sub_TrialStart r) (sub_TrialEnd r) (sub_CreatedAt r) (sub_UpdatedAt r)))
          | Err _ => mret tt
          end ;;
          user_audit lic "plan_changed"
            {["old_plan_id" := AnyString (lic_PlanID lic); "new_plan_id" := AnyString (plan_ID newPlan);
              "proration" := AnyString proration]} ;;
          mret (Success {["status" := AnyString "plan_changed"; "new_plan_id" := AnyString (plan_ID newPlan);
                          "new_plan_name" := AnyString (plan_Name newPlan); "proration" := AnyString proration]})
      end
  | _ => mret InternalError
  end.

Definition ChangePlan (email : option string) (req : option ChangePlanRequest) : M goerr Reply :=
  match req with
  | None => mret (BadRequest "license_id and new_price_id are required")
  | Some req => own_license email (cpr_LicenseID req) (fun lic =>
      r ← attempt (FindPlanByStripePrice (cpr_NewPriceID req));
      match r with
      | Err _ => mret (BadRequest "invalid new_price_id")
      | Ok newPlan =>
          if streq (lic_StripeSubscriptionID lic) "" then mret (BadRequest "license has no Stripe subscription")
          else if negb (streq (plan_ProductID newPlan) (lic_ProductID lic))
          then mret (BadRequest "new plan must belong to the same product")
          else if negb (plan_Active newPlan)
          then mret (Failure 400 "PLAN_INACTIVE" "target plan is no longer available")
          else if negb (streq (plan_LicenseType newPlan) "subscription")
          then mret (Failure 400 "NOT_SUBSCRIPTION_PLAN" "change-plan only accepts subscription plans")
          else change_plan lic newPlan (cpr_NewPriceID req)
                 (match cpr_Prorate req with Some false => "none" | _ => "create_prorations" end)
      end)
  end.

Definition CreatePortalSession (email : option string) (req : option (string * string)) : M goerr Reply :=
  match req with
  | None => mret (BadRequest "license_id is required")
  | Some (licenseID, returnURL) => own_license email licenseID (fun lic =>
      if streq (lic_StripeCustomerID lic) "" then mret (BadRequest "no Stripe customer associated")
      else
        let returnURL := if streq returnURL "" then sh_BaseURL h +:+ "/portal" else returnURL in
        s ← stripe_call "portalsession.New" [lic_StripeCustomerID lic; returnURL]
              (fun n => st_portal n (lic_StripeCustomerID lic) returnURL);
        match s with
        | Err _ => mret InternalError
        | Ok url => mret (Success {["url" := AnyString url]})
        end)
  end.
End requests.
