(* ===== verification/PaymentProps.v ===== *)
(** * What the payment webhook does to licences

    An abstract billing state machine, the next state of a licence on an
    event, and the proof that the webhook refines it whatever fails; that it
    takes the step when nothing fails; that a checkout is fulfilled once, and
    grants a licence; and that a customer's requests reach only their own
    licence. *)

From S2P Require Import Prelude GoStrings Errors Model World Tables Logic Progress Crypto KeyGen GoTime AesGcm Store.
From S2P Require Import Usability Webhook Sessions Expiry ExpiryProps EmailQueue ReleaseStore Payments.
From Stdlib Require Import Ascii String.

#[local] Open Scope string_scope.
#[local] Open Scope Z_scope.

(** ** The abstract machine *)

(** The licence status a subscription status stands for; others change
    nothing. *)
Definition status_of (subscription current : string) : string :=
  if contains subscription ["active"; "past_due"; "trialing"] then subscription
  else if contains subscription ["canceled"; "unpaid"] then StatusCanceled else current.

(** The dunning clock: started by the first failure, kept by the next ones,
    cleared by payment and cancellation. *)
Definition dunning_of (subscription : string) (now : Time) (clock : option Time) : option Time :=
  if streq subscription "past_due" then Some (default now clock)
  else if contains subscription ["active"; "canceled"; "unpaid"] then None else clock.

Definition subscription_next (d : SubscriptionData) (now : Time) (l : License) : License :=
  lic_billing (status_of (sd_Status d) (lic_Status l)) (Some (unix (sd_CurrentPeriodEnd d)))
    (if contains (sd_Status d) ["canceled"; "unpaid"] then Some now else lic_CanceledAt l)
    (lic_SuspendedAt l) (dunning_of (sd_Status d) now (lic_PastDueAt l)) l.

(** The licence of a subscription or of a customer. *)
Definition for_subscription (id : string) (l l' : License) : option License :=
  if billed_by id l then Some l' else None.
Definition for_customer (id : string) (l l' : License) : option License :=
  if streq (lic_StripeCustomerID l) id then Some l' else None.

Section spec.
Context `{StripeJSON}.

(** The state an event of the given type and payload puts a licence in. *)
Definition billing_next (type raw : string) (now : Time) (l : License) : option License :=
  let u := lic_ValidUntil l in
  let c := lic_CanceledAt l in
  let s := lic_SuspendedAt l in
  let p := lic_PastDueAt l in
  if streq type "invoice.paid" then
    d ← un_invoice_paid raw; for_subscription d.1 l (lic_billing StatusActive (Some (unix d.2)) c s None l)
  else if streq type "customer.subscription.updated" then
    d ← un_subscription raw; for_subscription (sd_ID d) l (subscription_next d now l)
  else if streq type "customer.subscription.deleted" then
    id ← un_id raw; for_subscription id l (lic_billing StatusCanceled u (Some now) s None l)
  else if streq type "invoice.payment_failed" then
    id ← un_invoice raw;
    if streq (lic_Status l) StatusActive
    then for_subscription id l (lic_billing StatusPastDue u c s (Some now) l) else None
  else if streq type "customer.subscription.paused" then
    id ← un_id raw; for_subscription id l (lic_billing StatusSuspended u c (Some now) p l)
  else if streq type "customer.subscription.resumed" then
    id ← un_id raw; for_subscription id l (lic_billing StatusActive u c None p l)
  else if streq type "charge.refunded" then
    d ← un_charge raw;
    if ch_Refunded d then for_customer (ch_Customer d) l (lic_billing StatusRevoked u c s p l) else None
  else None.

(** The columns the handler of the type writes. *)
Definition billing_cols (type : string) : list LicCol :=
  if streq type "invoice.paid" then [ColValidUntil; ColStatus; ColPastDueAt]
  else if streq type "customer.subscription.updated" then [ColStatus; ColValidUntil; ColCanceledAt; ColPastDueAt]
  else if streq type "customer.subscription.deleted" then [ColStatus; ColCanceledAt; ColPastDueAt]
  else if streq type "invoice.payment_failed" then [ColStatus; ColPastDueAt]
  else if streq type "customer.subscription.paused" then [ColStatus; ColSuspendedAt]
  else if streq type "customer.subscription.resumed" then [ColStatus; ColSuspendedAt]
  else [ColStatus].

(** What may happen to a licence: the state of the event, or the customer's
    new address. *)
Inductive billing_step (type raw : string) (l : License) : License -> Prop :=
  | bs_state now t l' : billing_next type raw now l = Some l' -> billing_step type raw l (lic_set_UpdatedAt t l')
  | bs_email id email t :
      type = "customer.updated" -> un_customer raw = Some (id, email) -> id <> "" -> email <> "" ->
      lic_StripeCustomerID l = id -> billing_step type raw l (lic_set_email email t l).
End spec.

(** A licence with other relations loaded is the same row. *)
Definition same_row (l lic : License) : Prop := exists p q, lic = lic_with_relations l p q.

Lemma same_row_refl l : same_row l l.
Proof. exists (lic_Product l), (lic_Plan l). by destruct l. Qed.

(** Writing the columns of an event gives the licence's next state. *)
Lemma billing_row `{StripeJSON} type raw now t l lic lic' :
  same_row l lic -> billing_next type raw now lic = Some lic' ->
  exists l', billing_next type raw now l = Some l' /\
    lic_assign_cols (lic_set_UpdatedAt t lic') (app (billing_cols type) [ColUpdatedAt]) l = lic_set_UpdatedAt t l' /\
    lic_Status lic' = lic_Status l'.
Proof.
  intros (p & q & ->). unfold billing_next, billing_cols, for_subscription, for_customer, billed_by.
  cbn [lic_StripeSubscriptionID lic_StripeCustomerID lic_Status lic_ValidUntil lic_CanceledAt lic_SuspendedAt
    lic_PastDueAt lic_with_relations].
  repeat match goal with
  | |- (if ?b then _ else _) = Some _ -> _ => destruct b
  | |- (?o ≫= _) = Some _ -> _ => destruct o; cbn [mbind option_bind]
  end; try done; intros [= <-]; eexists; (split_and!; [reflexivity|by destruct l|reflexivity]).
Qed.

Lemma contains_cons s x l : contains s (x :: l) = streq s x || contains s l.
Proof. unfold contains, streq. apply eq_bool_prop_intro. rewrite orb_True, !bool_decide_spec. set_solver. Qed.
Lemma contains_nil s : contains s [] = false.
Proof. apply bool_decide_eq_false. set_solver. Qed.

(** ** What an invariant must allow for the webhook to keep it

    [P] holds until the licence is written; [I] holds throughout. *)

Record tolerant (I : DB -> Prop) : Prop := mkTolerant {
  tol_audit : ignores_table I audit_logs;
  tol_deliveries : ignores_table I webhook_deliveries;
  tol_users : ignores_table I users;
  tol_emails : ignores_table I email_queue;
  tol_notifications licenseID tag db : I db -> I (add_notification licenseID tag db);
  tol_processed provider id db : I db -> I (add_processed_event provider id db)
}.

Section traversal.
Context `{UUIDs} `{GCM} `{Stripe} `{StripeJSON} (h : StripeHandler) (I P : DB -> Prop).
Context (tol : tolerant I) (P_processed : forall provider id db, P db -> P (add_processed_event provider id db)).

(** The first licence [find] may answer. *)
Definition finds (find : M goerr License) (Q : License -> Prop) : Prop :=
  hoare I P find (fun r db => P db /\ match r with
    | Ok lic => exists k l, db_licenses db !! k = Some l /\ same_row l lic /\ Q l
    | Err _ => True end).

(** The event, and the write of the state it gives. *)
Context (type0 raw0 : string).
Context (Hsave : forall E now k l lic lic' db, I db -> P db -> db_licenses db !! k = Some l -> same_row l lic ->
  billing_next type0 raw0 now lic = Some lic' -> hoare (E := E) I P (save lic' (billing_cols type0)) (fun _ _ => True)).

Lemma keeps_webhook_audit {E} entity id action changes : keeps (E := E) I (webhook_audit entity id action changes).
Proof. apply keeps_audit_log, tol. Qed.
Lemma payment_keeps_dispatch {E} lic event data : keeps (E := E) I (dispatch h lic event data).
Proof. unfold dispatch. destruct (sh_WebhookSvc h); [apply keeps_Dispatch, tol|apply keeps_ret]. Qed.
Lemma keeps_send {E} template to args : keeps (E := E) I (send h template to args).
Proof. unfold send. destruct (sh_Email h); [apply keeps_emit|apply keeps_ret]. Qed.
Lemma payment_keeps_FindProductByID id : keeps I (FindProductByID id).
Proof. apply keeps_read. intros db p db'. destruct (first_row _); by intros [= _ <-]. Qed.
Lemma keeps_productName {E} id : keeps (E := E) I (productName id).
Proof. unfold productName. pose proof payment_keeps_FindProductByID. repeat first [done|keeps_step]. Qed.
Lemma keeps_notify {E} lic episode : keeps (E := E) I (notifyPaymentRecovered h lic episode).
Proof.
  unfold notifyPaymentRecovered.
  repeat first [apply payment_keeps_FindProductByID|apply keeps_HasNotification|apply keeps_RecordNotification, tol
    |apply keeps_send|apply payment_keeps_dispatch|keeps_step].
Qed.

Lemma finds_subscription id : finds (FindLicenseByStripeSubscription id) (fun l => billed_by id l = true).
Proof.
  eapply hoare_weaken; [apply (hoare_select_one licenses)|done|]. intros r db _ [Hp Hr]. split; [done|].
  destruct r as [l|]; [|done]. destruct Hr as (k & Hk & Hb). exists k, l. by split_and!; [|apply same_row_refl|].
Qed.

Lemma newest_elem ls l : newest ls = Some l -> l ∈ ls.
Proof.
  unfold newest. intros Hl. rewrite <- (sort_by_perm (fun l => - lic_CreatedAt l)).
  destruct (sort_by _ ls); [done|]. injection Hl as ->. by left.
Qed.

Lemma finds_customer id : finds (FindLicenseByStripeCustomer id) (fun l => lic_StripeCustomerID l = id).
Proof.
  eapply hoare_weaken; [apply hoare_read|done|].
  { intros db l db'. destruct (newest _); by intros [= _ <-]. }
  intros r db _ [Hp Hr]. split; [done|]. destruct r as [lic|]; [|done].
  destruct (newest _) as [l|] eqn:El; [|done]. injection Hr as <-.
  apply newest_elem, elem_of_rows in El as (k & Hk & Hc). str_facts. exists k, l. split_and!; [done| |done].
  by eexists _, _.
Qed.

(** A handler: find, write the next state, then what does not matter. *)
Lemma hoare_with_license {E} find Q (k : License -> M E unit) :
  finds find Q ->
  (forall key l lic db, I db -> P db -> db_licenses db !! key = Some l -> same_row l lic -> Q l ->
     hoare I P (k lic) (fun _ _ => True)) ->
  hoare I P (with_license find k) (fun _ _ => True).
Proof.
  intros Hf Hk. unfold with_license. eapply hoare_bind; [apply hoare_attempt, Hf| |done].
  intros [lic|e]; [|eapply hoare_weaken; [apply hoare_ret|by intros ?? []|done]].
  intros w Hs (Hp & key & l & Hl & Hsame & HQ). destruct Hs as [HI Hs].
  by apply (Hk key l lic (w_db w)).
Qed.

(** The next state is written, the rest keeps the invariant. *)
Lemma hoare_saved {E} type now key l lic lic' db (rest : M E unit) :
  type0 = type -> I db -> P db -> db_licenses db !! key = Some l -> same_row l lic -> billing_next type raw0 now lic = Some lic' ->
  keeps I rest -> hoare I P (save lic' (billing_cols type) ;; rest) (fun _ _ => True).
Proof.
  intros <- HI HP Hl Hs Hn Hr. eapply hoare_bind; [by eapply Hsave| |done].
  intros ?. eapply hoare_weaken; [apply hoare_drop, Hr|done|done].
Qed.


Hint Resolve keeps_webhook_audit payment_keeps_dispatch keeps_send keeps_productName keeps_notify : licensehub.

(** [lic'] is the next state of [lic]: by the decoded payload and the query. *)
Local Ltac next_state :=
  match goal with Hs : same_row ?l ?lic |- _ => destruct Hs as (? & ? & ->) end;
  unfold billing_next, for_subscription, for_customer, billed_by in *;
  repeat match goal with
  | H : ?x = Some _ |- _ => rewrite H; clear H
  | H : lic_StripeCustomerID _ = _ |- _ => cbn in *; rewrite H, streq_refl; clear H
  | H : ?b = true |- _ => cbn in *; rewrite H; clear H
  end; cbn; repeat rewrite streq_refl; reflexivity.

(** The licence found, the rest of the handler is reached. *)
Local Ltac handler finds :=
  repeat match goal with
  | |- hoare _ _ (match ?x with _ => _ end) _ => destruct x eqn:?; try (apply hoare_drop; by keeps_go)
  | |- hoare _ _ (let '(_, _) := ?x in _) _ => destruct x eqn:?
  | |- hoare _ _ (if ?b then _ else _) _ => destruct b eqn:?; try (apply hoare_drop; by keeps_go)
  end;
  eapply hoare_with_license; [apply finds|]; intros key l lic db HI HP Hl Hs Hb; cbv zeta.

Local Ltac at_now := apply hoare_bind_still; [apply still_time_Now| |done]; intros now; cbv zeta.

Local Ltac saved type now :=
  eapply (hoare_saved type now); [done|done|done|done|done|next_state|keeps_go].

Lemma hoare_onInvoicePaid {E} :
  type0 = "invoice.paid" -> hoare (E := E) I P (onInvoicePaid h raw0) (fun _ _ => True).
Proof. intros Ht. unfold onInvoicePaid. handler finds_subscription. saved "invoice.paid" 0. Qed.

Lemma hoare_onSubscriptionDeleted {E} :
  type0 = "customer.subscription.deleted" -> hoare (E := E) I P (onSubscriptionDeleted h raw0) (fun _ _ => True).
Proof. intros Ht. unfold onSubscriptionDeleted. handler finds_subscription. at_now. saved "customer.subscription.deleted" now. Qed.

Lemma hoare_onSubscriptionPaused {E} :
  type0 = "customer.subscription.paused" -> hoare (E := E) I P (onSubscriptionPaused h raw0) (fun _ _ => True).
Proof. intros Ht. unfold onSubscriptionPaused. handler finds_subscription. at_now. saved "customer.subscription.paused" now. Qed.

Lemma hoare_onSubscriptionResumed {E} :
  type0 = "customer.subscription.resumed" -> hoare (E := E) I P (onSubscriptionResumed h raw0) (fun _ _ => True).
Proof. intros Ht. unfold onSubscriptionResumed. handler finds_subscription. saved "customer.subscription.resumed" 0. Qed.

Lemma hoare_onPaymentFailed {E} :
  type0 = "invoice.payment_failed" -> hoare (E := E) I P (onPaymentFailed h raw0) (fun _ _ => True).
Proof. intros Ht.
  unfold onPaymentFailed. handler finds_subscription.
  destruct (streq (lic_Status lic) StatusActive) eqn:Ha; [|apply hoare_drop, keeps_ret].
  at_now. saved "invoice.payment_failed" now.
Qed.

Lemma hoare_onChargeRefunded {E} :
  type0 = "charge.refunded" -> hoare (E := E) I P (onChargeRefunded raw0) (fun _ _ => True).
Proof. intros Ht.
  unfold onChargeRefunded. handler finds_customer. destruct (ch_Refunded _) eqn:Hr.
  - saved "charge.refunded" 0.
  - apply hoare_drop. keeps_go.
Qed.

(** The code's cases are the abstract machine's table. *)
Lemma subscription_state_next {E} d lic :
  hoare (E := E) I P (subscription_state (sd_Status d) (unix (sd_CurrentPeriodEnd d)) lic)
    (fun r db => P db /\ match r with Ok lic' => exists now, lic' = subscription_next d now lic | Err _ => True end).
Proof.
  assert (forall lic' now, lic' = subscription_next d now lic -> hoare (E := E) I P (mret lic')
    (fun r db => P db /\ match r with Ok lic' => exists now, lic' = subscription_next d now lic | Err _ => True end)) as Hret.
  { intros lic' now E1. eapply hoare_weaken; [apply hoare_ret|done|]. intros r db _ [-> Hp]. by split; [|exists now]. }
  unfold subscription_state, subscription_next, status_of, dunning_of in *. rewrite !contains_cons, !contains_nil in *.
  destruct (streq (sd_Status d) "active") eqn:E1; [str_facts; rewrite E1 in *; by apply (Hret _ 0)|].
  destruct (streq (sd_Status d) "past_due") eqn:E2.
  { str_facts. rewrite E2 in *. destruct (lic_PastDueAt lic); [by apply (Hret _ 0)|].
    apply hoare_bind_still; [apply still_time_Now|intros now; by apply (Hret _ now)|done]. }
  destruct (streq (sd_Status d) "trialing") eqn:E3; [str_facts; rewrite E3 in *; by apply (Hret _ 0)|].
  destruct (streq (sd_Status d) "canceled") eqn:E4;
    [|destruct (streq (sd_Status d) "unpaid") eqn:E5; [|cbn [orb]; by apply (Hret _ 0)]]; cbn [orb];
    (apply hoare_bind_still; [apply still_time_Now|intros now; by apply (Hret _ now)|done]).
Qed.

Lemma hoare_onSubscriptionUpdated {E} :
  type0 = "customer.subscription.updated" -> hoare (E := E) I P (onSubscriptionUpdated h raw0) (fun _ _ => True).
Proof. intros Ht.
  unfold onSubscriptionUpdated. handler finds_subscription.
  eapply hoare_bind_fact; [apply subscription_state_next| |done]. intros lic' [now ->].
  saved "customer.subscription.updated" now.
Qed.

(** Notices: nothing is written but messages and the audit trail. *)
Lemma keeps_FindLicenseByStripeSubscription id : keeps I (FindLicenseByStripeSubscription id).
Proof. apply keeps_select_one. Qed.
Hint Resolve keeps_FindLicenseByStripeSubscription : licensehub.

Lemma keeps_notices raw :
  keeps (E := goerr) I (onDisputeCreated raw) /\ keeps (E := goerr) I (onDisputeClosed raw) /\
  keeps (E := goerr) I (onPaymentActionRequired h raw) /\ keeps (E := goerr) I (onTrialWillEnd h raw) /\
  keeps (E := goerr) I (onInvoiceUpcoming raw).
Proof.
  unfold onDisputeCreated, onDisputeClosed, onPaymentActionRequired, onTrialWillEnd, onInvoiceUpcoming, with_license.
  split_and!; keeps_go.
Qed.

(** *** Checkout *)

Context (F : License -> Prop)
  (Hnew : forall l plan, type0 = "checkout.session.completed" -> hoare I (fun _ => True) (CreateLicenseWithSubscription (sh_AEAD h) l (Some plan))
     (fun r _ => True /\ match r with Ok lic => F lic | Err _ => True end))
  (Huser : forall lic userID, F lic -> keeps I (UpdateLicenseUser (lic_ID lic) userID)).

Lemma still_generate_key prefix : still (generate_key prefix).
Proof. intros w. unfold generate_key. by destruct (GenerateKey _ _) as [[]|]. Qed.

Lemma payment_keeps_record_event provider eventID id : keeps I (stmt (record_event provider eventID id)).
Proof.
  apply keeps_stmt. intros db1 a db2 HI. unfold record_event. destruct (bool_decide _); [done|]. intros [= _ <-].
  by apply tol.
Qed.
Lemma keeps_TryRecord {E} provider id : keeps (E := E) I (TryRecordProcessedEvent provider id).
Proof. unfold TryRecordProcessedEvent. pose proof payment_keeps_record_event. keeps_go; auto. Qed.

Lemma keeps_select_plan Q : keeps I (select_plan Q).
Proof. apply keeps_read. intros db1 p db2. destruct (first_row _); by intros [= _ <-]. Qed.

Lemma keeps_EnqueueEmail to subject body : keeps I (EnqueueEmail to subject body).
Proof. unfold EnqueueEmail. repeat first [apply keeps_insert_ignored, tol|keeps_step]. Qed.

Lemma keeps_UpsertUser u : keeps I (UpsertUser u).
Proof.
  unfold UpsertUser, fresh_id. keeps_go. apply keeps_stmt. intros db1 x db2 HI. cbv zeta.
  destruct (row_exists _ _); [intros [= _ <-]; by apply tol|]. intros Hr. apply insert_row_Ok in Hr as (_ & _ & _ & ->).
  by apply tol.
Qed.

Hint Resolve keeps_TryRecord keeps_select_plan keeps_EnqueueEmail keeps_UpsertUser : licensehub.

Lemma payment_keeps_announce lic plan source : F lic -> keeps I (announce h lic plan source).
Proof.
  intros Hf. unfold announce, FindUserByEmail.
  repeat first [by apply Huser|apply keeps_DecryptLicenseKey|apply keeps_audit_log, tol|keeps_step].
Qed.

Lemma keeps_create plan email customerID subscriptionID source :
  type0 = "checkout.session.completed" -> keeps I (create_from_checkout h plan email customerID subscriptionID source).
Proof.
  intros Ht. unfold create_from_checkout, trial_until. apply keeps_bind; [apply keeps_still, still_generate_key|]. intros key.
  apply keeps_bind; [keeps_go|]. intros ends. apply keeps_bind; [keeps_go|]. intros _.
  apply hoare_keeps. eapply hoare_bind_fact; [| |done].
  - eapply hoare_weaken; [by apply hoare_attempt, Hnew|done|]. intros r db1 _ Hr. split; [done|].
    instantiate (1 := fun r => match r with Ok lic => F lic | Err _ => True end). destruct r; [apply Hr|done].
  - intros [lic|e] Hf; apply hoare_keeps; [by apply payment_keeps_announce|keeps_go].
Qed.

Lemma keeps_fulfill email customerID subscriptionID metadata source :
  type0 = "checkout.session.completed" -> keeps I (fulfillCheckout h email customerID subscriptionID metadata source).
Proof.
  intros Ht. unfold fulfillCheckout, checkout_plan, resolvePlan, checkout_email, FindActiveLicenseByEmailAndProduct, FindPlanByID,
    FindPlanByStripePrice. cbv zeta.
  repeat first [by apply keeps_create|apply keeps_still, still_stripe_call|keeps_step].
Qed.

Lemma keeps_onCheckoutCompleted raw :
  type0 = "checkout.session.completed" -> keeps I (onCheckoutCompleted h raw).
Proof. intros Ht. unfold onCheckoutCompleted. pose proof keeps_fulfill. keeps_go; auto. Qed.

(** *** The event *)

Context (Hemail : forall E id email, type0 = "customer.updated" -> un_customer raw0 = Some (id, email) -> id <> "" ->
  email <> "" -> hoare (E := E) I P (UpdateLicenseEmailByStripeCustomer id email) (fun _ _ => True)).

Lemma hoare_onCustomerUpdated {E} :
  type0 = "customer.updated" -> hoare (E := E) I P (onCustomerUpdated raw0) (fun _ _ => True).
Proof.
  intros Ht. unfold onCustomerUpdated. destruct (un_customer raw0) as [[id email]|] eqn:Eu; [|apply hoare_drop, keeps_ret].
  destruct (streq id "") eqn:E1; [apply hoare_drop, keeps_ret|].
  destruct (streq email "") eqn:E2; [apply hoare_drop, keeps_ret|]. str_facts. by apply Hemail.
Qed.

Lemma hoare_if {E A} (b : bool) (m m' : M E A) R :
  (b = true -> hoare I P m R) -> hoare I P m' R -> hoare I P (if b then m else m') R.
Proof. destruct b; auto. Qed.

Lemma hoare_handle_event : hoare I P (handle_event h type0 raw0) (fun _ _ => True).
Proof.
  destruct (keeps_notices raw0) as (N1 & N2 & N3 & N4 & N5). unfold handle_event.
  apply hoare_if; [intros Ht%streq_true; by apply hoare_drop, keeps_onCheckoutCompleted|].
  apply hoare_if; [intros Ht%streq_true; by apply hoare_onInvoicePaid|].
  apply hoare_if; [intros Ht%streq_true; by apply hoare_onSubscriptionUpdated|].
  apply hoare_if; [intros Ht%streq_true; by apply hoare_onSubscriptionDeleted|].
  apply hoare_if; [intros Ht%streq_true; by apply hoare_onPaymentFailed|].
  apply hoare_if; [intros Ht%streq_true; by apply hoare_onChargeRefunded|].
  do 3 (apply hoare_if; [intros _; by apply hoare_drop|]).
  apply hoare_if; [intros Ht%streq_true; by apply hoare_onSubscriptionPaused|].
  apply hoare_if; [intros Ht%streq_true; by apply hoare_onSubscriptionResumed|].
  do 2 (apply hoare_if; [intros _; by apply hoare_drop|]).
  apply hoare_if; [intros Ht%streq_true; by apply hoare_onCustomerUpdated|].
  apply hoare_drop, keeps_emit.
Qed.
End traversal.

(** ** Writing a licence *)

Lemma hoare_save {E} I P lic cols :
  (forall db r now, I db -> P db -> db_licenses db !! lic_ID lic = Some r ->
    let r' := lic_assign_cols (lic_set_UpdatedAt now lic) (app cols [ColUpdatedAt]) r in
    (forall k' l, delete (lic_ID lic) (db_licenses db) !! k' = Some l -> t_conflict licenses l r' = false) ->
    t_check licenses db r' = None -> I (t_set licenses (<[lic_ID lic := r']> (db_licenses db)) db)) ->
  (forall Q f, keeps I (sql_update_c subscriptions Q f)) ->
  hoare (E := E) I P (save lic cols) (fun _ _ => True).
Proof.
  intros Hupd Hsub. assert (hoare I P (UpdateLicenseAndSubscription lic cols) (fun _ _ => True)) as Hu.
  { unfold UpdateLicenseAndSubscription. apply (hoare_with_tx _ _ _ (fun _ _ => True)).
    apply hoare_bind_still; [apply still_time_Now| |done]. intros now. cbv zeta.
    eapply hoare_bind; [apply hoare_update_checked; intros; by apply Hupd| |done]. intros n.
    apply hoare_of_keeps. repeat first [apply Hsub|keeps_step]. }
  intros w Hs Hp. split; [|done]. unfold save, ignore. simpl. by apply Hu.
Qed.

Lemma license_conflict_sym l l' : t_conflict licenses l l' = t_conflict licenses l' l.
Proof.
  assert (forall a b, streq a b = streq b a) as Hs by (intros; unfold streq; by apply bool_decide_ext).
  assert (forall a b, negb (streq b "") && streq a b = negb (streq a "") && streq b a) as Hn.
  { intros a b. rewrite (Hs a b). destruct (streq b a) eqn:E; [|by rewrite !andb_false_r]. apply streq_true in E as ->. done. }
  simpl. f_equal; [f_equal; [apply Hs|apply Hn]|apply Hn].
Qed.

(** A row replaced or added, checked as the table checks it. *)
Lemma wf_put_license db k r' :
  well_formed db -> lic_ID r' = k ->
  (forall k' l, delete k (db_licenses db) !! k' = Some l -> t_conflict licenses l r' = false) ->
  t_check licenses db r' = None -> well_formed (t_set licenses (<[k := r']> (db_licenses db)) db).
Proof.
  intros (Hl & Hu & Hs) Hid Hcf Hck. unfold well_formed, licenses_ok, licenses_unique.
  change (db_licenses (t_set licenses ?m db)) with m. split_and!.
  - intros k' l [[<- <-]|[_ Hl']]%lookup_insert_Some; [by split|by apply Hl].
  - intros k1 k2 l1 l2 H1 H2 Hne. rewrite lookup_insert_Some in H1. rewrite lookup_insert_Some in H2.
    destruct H1 as [[<- <-]|[N1 H1]], H2 as [[<- <-]|[N2 H2]].
    + done.
    + apply (Hcf k2). by rewrite lookup_delete_ne.
    + rewrite license_conflict_sym. apply (Hcf k1). by rewrite lookup_delete_ne.
    + exact (Hu k1 k2 l1 l2 H1 H2 Hne).
  - intros k' s Hk'. specialize (Hs _ _ Hk'). simpl in *. apply and_then_inv in Hs as [Hf Hrest].
    apply and_then_intro; [|done]. apply fk_intro, insert_present. by apply fk_inv.
Qed.

(** A fact of the answer alone outlives the transaction. *)
Lemma hoare_with_tx_fact {A} I P (body : M goerr A) (G : result goerr A -> Prop) :
  (forall e, G (Err e)) -> hoare I P body (fun r _ => G r) -> hoare I P (with_tx body) (fun r _ => G r).
Proof.
  intros HG Hb. unfold with_tx. eapply hoare_bind; [apply hoare_begin| |intros; apply HG].
  intros u w Hs Hp. unfold defer_rollback. destruct (Hb w Hs Hp) as [Hs' Hr]. destruct (body w) as [r w']; simpl in *.
  split; [by apply safe_rollback|done].
Qed.

Lemma hoare_keeps_fact {E A} I (P : DB -> Prop) (m : M E A) (G : result E A -> Prop) :
  keeps I m -> (forall r, G r) -> hoare I P m (fun r _ => G r).
Proof. intros Hm HG w Hs _. split; [by apply Hm|done]. Qed.

(** A licence is created at an identifier that was free. *)
Lemma hoare_create `{UUIDs} `{GCM} aead I (m0 : gmap string License) l plan :
  (forall db k, I db -> db_licenses db !! k = None -> m0 !! k = None) ->
  (forall l, keeps I (insert_license l)) -> (forall k s, keeps I (sql_insert subscriptions k s)) ->
  hoare I (fun _ => True) (CreateLicenseWithSubscription aead l (Some plan))
    (fun r _ => True /\ match r with Ok lic => m0 !! lic_ID lic = None | Err _ => True end).
Proof.
  intros Hfree Hins Hsub. unfold CreateLicenseWithSubscription. eapply hoare_bind; [apply hoare_of_keeps| |done].
  { unfold prepareLicenseForInsert, Encrypt, fresh_id. keeps_go. }
  intros l1. eapply (hoare_bind _ _ _ _ (fun r _ => match r with Ok _ => m0 !! lic_ID l1 = None | Err _ => True end)); [| |done].
  - apply hoare_with_tx_fact; [done|].
    eapply (hoare_bind _ _ _ _ (fun r _ => match r with Ok _ => m0 !! lic_ID l1 = None | Err _ => True end)); [| |done].
    + intros w Hs _. split; [by apply Hins|]. unfold insert_license, mbind, M_bind.
      destruct (sql_now w) as [[t|e] w1] eqn:Et; [|done].
      pose proof (still_sql_now (E := goerr) w) as (Edb & _). rewrite Et in Edb. simpl in Edb.
      destruct (sql_insert _ _ _ w1) as [[[]|e] w2] eqn:Ei; [|done]. simpl.
      apply stmt_Ok in Ei as (Ei & _). apply insert_row_Ok in Ei as (Hk & _). apply (Hfree (w_db w1)); [|done].
      rewrite Edb. apply Hs.
    + intros []. intros w Hs Hfact. split; [|by destruct (fst _)]. match goal with
      | |- safe I (?m w).2 => enough (keeps I m) as Hk by by apply Hk
      end. repeat first [apply Hsub|keeps_step].
  - intros [] w Hs Hfact. by split.
Qed.

(** ** The webhook refines the machine *)

Lemma wf_insert_license l : keeps well_formed (insert_license l).
Proof.
  unfold insert_license. apply keeps_bind; [apply keeps_sql_now|]. intros t. apply hoare_keeps, hoare_insert.
  intros db Hwf _ Hk Hcf Hck. apply wf_put_license; [done|done| |done].
  intros k' r' [_ Hr']%lookup_delete_Some. by apply (Hcf k').
Qed.

Lemma wf_insert_subscription k s : keeps well_formed (sql_insert subscriptions k s).
Proof.
  apply hoare_keeps, hoare_insert. intros db (Hl & Hu & Hs) _ _ _ Hck. split_and!; [done..|].
  intros k' s' Hk'. change (<[k:=s]> (db_subscriptions db) !! k' = Some s') in Hk'.
  apply lookup_insert_Some in Hk' as [[<- <-]|[_ Hs']]; [done|by apply (Hs k')].
Qed.

(** Rows changed in columns no constraint mentions. *)
Lemma wf_update_licenses db p f :
  well_formed db ->
  (forall l, lic_ID (f l) = lic_ID l /\ (forall db, t_check licenses db (f l) = t_check licenses db l) /\
     forall l', t_conflict licenses l' (f l) = t_conflict licenses l' l) ->
  well_formed (t_set licenses (update_rows p f (db_licenses db)) db).
Proof.
  intros (Hl & Hq & Hss) Hf. unfold well_formed, licenses_ok, licenses_unique.
  change (db_licenses (t_set licenses ?m db)) with m.
  assert (forall k l, update_rows p f (db_licenses db) !! k = Some l ->
    exists l0, db_licenses db !! k = Some l0 /\ (l = l0 \/ l = f l0)) as Hrow.
  { intros k l. rewrite lookup_update_rows. intros (l0 & Hl0 & ->)%fmap_Some. exists l0. split; [done|].
    destruct (p l0); auto. }
  split_and!.
  - intros k l (l0 & Hl0 & Hc)%Hrow. destruct (Hl _ _ Hl0) as [Hid Hck], (Hf l0) as (E1 & E2 & _).
    by destruct Hc as [->| ->]; [|rewrite E1, E2].
  - intros k k' l l' (l0 & Hl0 & Hc)%Hrow (l1 & Hl1 & Hc')%Hrow Hne. pose proof (Hq k k' l0 l1 Hl0 Hl1 Hne) as Hcf.
    assert (t_conflict licenses l1 l = false) as Hcl by (destruct Hc as [->| ->]; [done|by rewrite (proj2 (proj2 (Hf l0)))]).
    destruct Hc' as [->| ->]; [done|]. by rewrite license_conflict_sym, (proj2 (proj2 (Hf l1))), license_conflict_sym.
  - intros k s Hk. specialize (Hss _ _ Hk). simpl in *. apply and_then_inv in Hss as [Hp Hrest].
    apply and_then_intro; [|done]. apply fk_inv in Hp. apply fk_intro. rewrite lookup_update_rows.
    by destruct (db_licenses db !! sub_LicenseID s).
Qed.

Lemma wf_tolerant : tolerant well_formed.
Proof. split; by intros ??. Qed.

Lemma tolerant_and I J : tolerant I -> tolerant J -> tolerant (fun db => I db /\ J db).
Proof.
  intros HI HJ. split; first [intros a b db [H1 H2]|intros m db [H1 H2]]; split; first [by apply HI|by apply HJ].
Qed.

Lemma billing_next_id `{StripeJSON} type raw now l l' :
  billing_next type raw now l = Some l' -> lic_ID l' = lic_ID l.
Proof.
  unfold billing_next, for_subscription, for_customer.
  repeat match goal with
  | |- (if ?b then _ else _) = Some _ -> _ => destruct b
  | |- (?o ≫= _) = Some _ -> _ => destruct o; cbn [mbind option_bind]
  end; try done; by intros [= <-].
Qed.

Section refinement.
Context `{UUIDs} `{GCM} `{Stripe} `{JS : StripeJSON} (h : StripeHandler) (type raw : string) (db0 : DB)
  (wf0 : well_formed db0).

(** Every licence is as it was or one step on; new ones come from checkouts. *)
Definition stepped (db : DB) : Prop :=
  (forall k l, db_licenses db0 !! k = Some l ->
     exists l', db_licenses db !! k = Some l' /\ (l' = l \/ billing_step type raw l l')) /\
  (forall k l', db_licenses db !! k = Some l' -> db_licenses db0 !! k = None -> type = "checkout.session.completed").

Definition untouched (db : DB) : Prop := db_licenses db = db_licenses db0.
Definition running (db : DB) : Prop := well_formed db /\ stepped db.

Lemma stepped_start db : untouched db -> stepped db.
Proof. unfold untouched, stepped. intros ->. split; [eauto|]. intros k l' E1 E2. by rewrite E1 in E2. Qed.

Lemma stepped_put db k l r' :
  untouched db -> db_licenses db0 !! k = Some l -> r' = l \/ billing_step type raw l r' ->
  stepped (t_set licenses (<[k := r']> (db_licenses db)) db).
Proof.
  intros Hu Hl Hr. unfold untouched in Hu. split; change (db_licenses (t_set licenses ?m db)) with m; rewrite Hu.
  - intros k1 l1 Hk1. destruct (decide (k = k1)) as [<-|Hne].
    + rewrite lookup_insert_eq. exists r'. split; [done|]. congruence.
    + rewrite lookup_insert_ne by done. eauto.
  - intros k1 l1 Hk1 Hn. apply lookup_insert_Some in Hk1 as [[<- _]|[_ Hk1]]; congruence.
Qed.

Lemma running_tolerant : tolerant running.
Proof. apply tolerant_and; [apply wf_tolerant|split; by intros ??]. Qed.

Lemma running_subscriptions P f : keeps running (sql_update_c subscriptions P f).
Proof.
  apply keeps_and; [apply wf_update_subscriptions|]. apply keeps_stmt. intros db a db' Hs. cbv zeta.
  destruct (head _); [done|]. by intros [= _ <-].
Qed.

Lemma running_save {E} now k l lic lic' db :
  untouched db -> db_licenses db !! k = Some l -> same_row l lic -> billing_next type raw now lic = Some lic' ->
  hoare (E := E) running untouched (save lic' (billing_cols type)) (fun _ _ => True).
Proof.
  intros Hu Hl Hs Hn. rewrite Hu in Hl. destruct (wf0) as (Hok & _). destruct (Hok _ _ Hl) as [Hid _].
  assert (lic_ID lic' = k) as Hk.
  { rewrite (billing_next_id _ _ _ _ _ Hn). destruct Hs as (? & ? & ->). done. }
  apply hoare_save; [|apply running_subscriptions]. intros db1 r t [Hwf _] Hu1 Hr r' Hcf Hck.
  pose proof Hr as Hr0. rewrite Hu1, Hk in Hr0. assert (r = l) as -> by congruence.
  destruct (billing_row type raw now t l lic lic' Hs Hn) as (l' & Hl' & E' & _). fold r' in E'.
  split.
  - apply wf_put_license; [done| |done|done]. rewrite E', Hk, <- Hid. exact (billing_next_id _ _ _ _ _ Hl').
  - eapply stepped_put; [done|by rewrite Hk|]. right. rewrite E'. by eapply bs_state.
Qed.

Lemma running_email {E} id email :
  type = "customer.updated" -> un_customer raw = Some (id, email) -> id <> "" -> email <> "" ->
  hoare (E := E) running untouched (UpdateLicenseEmailByStripeCustomer id email) (fun _ _ => True).
Proof.
  intros Ht Hu Hi He. unfold UpdateLicenseEmailByStripeCustomer.
  apply hoare_bind_still; [apply still_sql_now| |done]. intros now w Hs Hp. split; [|done].
  unfold ignore. simpl. apply (hoare_stmt running untouched) with (Q := fun _ _ => True); [|done..].
  intros db [Hwf Hst] Hun. split; [done|]. split; [|done]. set (p := fun l => streq _ id).
  change (t_get licenses db) with (db_licenses db). split.
  - by apply wf_update_licenses.
  - unfold untouched in Hun. unfold stepped. change (db_licenses (t_set licenses ?m db)) with m. rewrite Hun. split.
    + intros k l Hk. rewrite lookup_update_rows, Hk. eexists. split; [reflexivity|].
      destruct (p l) eqn:Ep; [|by left]. right. apply streq_true in Ep. by eapply bs_email.
    + intros k l'. rewrite lookup_update_rows. intros (l0 & Hl0 & _)%fmap_Some Hno. congruence.
Qed.

Lemma running_new l plan :
  type = "checkout.session.completed" ->
  hoare running (fun _ => True) (CreateLicenseWithSubscription (sh_AEAD h) l (Some plan))
    (fun r _ => True /\ match r with Ok lic => db_licenses db0 !! lic_ID lic = None | Err _ => True end).
Proof.
  intros Ht. apply hoare_create.
  - intros db k (_ & Hst & _) Hk. destruct (db_licenses db0 !! k) as [l0|] eqn:E; [|done].
    destruct (Hst _ _ E) as (l' & Hl' & _). congruence.
  - intros l1. apply keeps_and; [apply wf_insert_license|]. unfold insert_license.
    apply keeps_bind; [apply keeps_sql_now|]. intros t. apply hoare_keeps, hoare_insert.
    intros db [Hst _] _ Hk _ _. split; change (db_licenses (t_set licenses ?m db)) with m; [|by intros].
    intros k l0 Hl0. destruct (Hst _ _ Hl0) as (l' & Hl' & Hr). exists l'. split; [|done].
    rewrite lookup_insert_ne; [done|]. intros <-. change (db_licenses db !! lic_ID l1 = None) in Hk. congruence.
  - intros k s. apply keeps_and; [apply wf_insert_subscription|]. apply keeps_insert_ignored. by intros ??.
Qed.

Lemma running_user lic userID :
  db_licenses db0 !! lic_ID lic = None -> keeps running (UpdateLicenseUser (lic_ID lic) userID).
Proof.
  intros Hno. unfold UpdateLicenseUser. apply keeps_bind; [|intros; apply keeps_ret]. apply keeps_stmt.
  intros db n db' [Hwf [Hst Hnew]]. cbv zeta.
  intros [= _ <-]. split; [by apply wf_update_licenses|].
  split; cbn [db_licenses].
  - intros k l Hk. destruct (Hst _ _ Hk) as (l' & Hl' & Hr). exists l'. split; [|done].
    rewrite lookup_update_rows, Hl'. cbn [fmap option_fmap option_map].
    destruct (streq _ _) eqn:Ep; [|done]. apply streq_true in Ep. destruct Hwf as (Hl & _). destruct (Hl _ _ Hl') as [Hid _].
    congruence.
  - intros k l'. rewrite lookup_update_rows.
    intros (l0 & Hl0 & _)%fmap_Some. by apply (Hnew k l0).
Qed.

Lemma event_refines w :
  w_tx w = None -> untouched (w_db w) -> well_formed (w_db w) ->
  let db' := w_db (snd (handle_event h type raw w)) in well_formed db' /\ stepped db'.
Proof.
  intros Hw Hu Hwf. apply (hoare_handle_event h running untouched running_tolerant type raw
    (fun E now k l lic lic' db _ => running_save now k l lic lic' db)
    (fun lic => db_licenses db0 !! lic_ID lic = None) running_new running_user (fun E => running_email)).
  - apply safe_closed; [|done]. split; [done|]. by apply stepped_start.
  - done.
Qed.
End refinement.

(** ** The webhook: the gate, then the event *)

Section webhook.
Context `{UUIDs} `{GCM} `{Stripe} `{StripeJSON} (h : StripeHandler).

(** A delivery whose signature and mode are right. *)
Definition accepted (body : option string) (signature : string) (ev : StripeEvent) : Prop :=
  exists b, body = Some b /\ sh_secret h <> "" /\ ConstructEvent b signature (sh_secret h) = Some ev /\
    ev_Livemode ev = sh_Livemode h.

(** Past the gate. *)
Definition process (ev : StripeEvent) : M goerr Reply :=
  first ← TryRecordProcessedEvent "stripe" (ev_ID ev);
  if negb first then mret skipped else (handle_event h (ev_Type ev) (ev_Raw ev) ;; mret received).

(** A delivery is refused, was seen before, or is handled. *)
Lemma Webhook_cases body signature w :
  (w_db (snd (Webhook h body signature w)) = w_db w /\ w_tx (snd (Webhook h body signature w)) = w_tx w /\
   fst (Webhook h body signature w) <> Ok received /\ forall ev, ~ accepted body signature ev) \/
  exists ev, accepted body signature ev /\
    Webhook h body signature w = process ev w.
Proof.
  unfold Webhook, accepted. destruct body as [b|]; [|left; split_and!; [done..|naive_solver]].
  destruct (streq (sh_secret h) "") eqn:Es.
  { left. apply streq_true in Es. split_and!; [done..|naive_solver]. }
  apply streq_false in Es. destruct (ConstructEvent _ _ _) as [ev|] eqn:Ec; [|left; split_and!; [done..|naive_solver]].
  destruct (Bool.eqb _ _) eqn:El; cbn [negb]; [|left; split_and!; [done..|]].
  - right. exists ev. split; [|done]. exists b. apply eqb_prop in El. done.
  - intros ev' (b' & [= <-] & _ & Hc & Hl). rewrite Ec in Hc. injection Hc as <-. rewrite Hl in El.
    by rewrite eqb_reflx in El.
Qed.

(** What recording an event does: the first time it is marked, and only then
    is the answer yes. *)
Lemma TryRecord_marks {E} provider id w w1 (b : bool) :
  TryRecordProcessedEvent (E := E) provider id w = (Ok b, w1) ->
  w_events w1 = w_events w /\
  (w_db w1 = w_db w \/ w_db w1 = add_processed_event provider id (w_db w)) /\
  (b = true -> ~ (provider, id) ∈ db_processed_events (w_db w) /\ w_db w1 = add_processed_event provider id (w_db w)) /\
  ((provider, id) ∈ db_processed_events (w_db w) -> w_db w1 = w_db w).
Proof.
  unfold TryRecordProcessedEvent, newID, mbind, M_bind, attempt.
  pose proof (stmt_outcomes (record_event provider id (uuid_nth (w_ids w))) (set_ids (S (w_ids w)) w)) as Ho.
  destruct (stmt _ _) as [r w2]. simpl in Ho. unfold mret, M_ret. intros [= <- <-].
  assert (w_events w2 = w_events w) as He by (by inversion Ho as [? ? ? ? ? Fr|? ? ? ? Fr|? ? ? ? Fr|? ? ? ? ? Fr];
    subst; rewrite (fr_events _ _ Fr)).
  split; [done|].
  assert (forall x db', record_event provider id (uuid_nth (w_ids w)) (w_db w) = Ok (x, db') ->
    ~ (provider, id) ∈ db_processed_events (w_db w) /\ db' = add_processed_event provider id (w_db w)) as Hok.
  { unfold record_event. intros x db'. case_bool_decide; [done|]. by intros [= _ <-]. }
  inversion Ho as [x db' ? Hr|? ? Hr|? ? ? Hr|x db' ? Hr]; simplify_eq; simpl in *;
    try (apply Hok in Hr as [Hni ->]); split_and!; auto; done.
Qed.

Lemma tame_stripe_call {E A} name args (answer : nat -> A) : tame (stripe_call (E := E) name args answer).
Proof. apply tame_still. by intros w. Qed.
Lemma tame_generate_key prefix : tame (generate_key prefix).
Proof. apply tame_still, still_generate_key. Qed.
Lemma tame_rand_Read {E} n : tame (rand_Read (E := E) n).
Proof. intros w. unfold rand_Read. by case_bool_decide. Qed.
Lemma tame_TryRecord {E} provider id : tame (TryRecordProcessedEvent (E := E) provider id).
Proof. unfold TryRecordProcessedEvent. tame_go. Qed.

Hint Resolve tame_Audit tame_Dispatch tame_HasNotification tame_RecordNotification tame_DecryptLicenseKey
  tame_stripe_call tame_generate_key tame_rand_Read tame_TryRecord : licensehub.

Lemma tame_notify {E} lic episode : tame (E := E) (notifyPaymentRecovered h lic episode).
Proof. unfold notifyPaymentRecovered, FindProductByID, send, dispatch. cbv zeta. tame_go. Qed.

Lemma tame_productName {E} id : tame (E := E) (productName id).
Proof. unfold productName, FindProductByID. tame_go. Qed.

Hint Resolve tame_notify tame_productName : licensehub.

Lemma tame_create plan email customerID subscriptionID source :
  tame (create_from_checkout h plan email customerID subscriptionID source).
Proof.
  unfold create_from_checkout, trial_until, UpsertUser, CreateLicenseWithSubscription, prepareLicenseForInsert, Encrypt,
    insert_license, announce, FindUserByEmail, UpdateLicenseUser, EnqueueEmail, dispatch, fresh_id. cbv zeta. tame_go.
Qed.

Lemma tame_fulfill email customerID subscriptionID metadata source :
  tame (fulfillCheckout h email customerID subscriptionID metadata source).
Proof.
  pose proof tame_create.
  unfold fulfillCheckout, checkout_plan, resolvePlan, checkout_email, FindActiveLicenseByEmailAndProduct, FindPlanByID,
    FindPlanByStripePrice, select_plan. cbv zeta. tame_go; auto.
Qed.

Lemma tame_save {E} lic cols : tame (E := E) (save lic cols).
Proof. unfold save, UpdateLicenseAndSubscription, sql_update_c. tame_go. Qed.

Hint Resolve tame_fulfill tame_save : licensehub.

Lemma tame_handle_event type raw : tame (handle_event h type raw).
Proof.
  unfold handle_event, onCheckoutCompleted, onInvoicePaid, onSubscriptionUpdated, subscription_state,
    onSubscriptionDeleted, onPaymentFailed, onChargeRefunded, onDisputeCreated, onDisputeClosed, onPaymentActionRequired,
    onSubscriptionPaused, onSubscriptionResumed, onTrialWillEnd, onInvoiceUpcoming, onCustomerUpdated, with_license,
    FindLicenseByStripeSubscription, FindLicenseByStripeCustomer, UpdateLicenseEmailByStripeCustomer, webhook_audit,
    send, dispatch. cbv zeta. tame_go.
Qed.

Lemma tame_Webhook body signature : tame (Webhook h body signature).
Proof. unfold Webhook. pose proof tame_handle_event. tame_go; auto. Qed.

(** What the webhook does to the licences: nothing, or the accepted event's
    step. *)
Lemma Webhook_steps body signature w :
  well_formed (w_db w) -> w_tx w = None ->
  let db' := w_db (snd (Webhook h body signature w)) in
  (db' = w_db w /\ forall ev, ~ accepted body signature ev) \/
  exists ev, accepted body signature ev /\ well_formed db' /\ stepped (ev_Type ev) (ev_Raw ev) (w_db w) db'.
Proof.
  intros Hwf Hw. destruct (Webhook_cases body signature w) as [(E1 & _ & _ & E2)|(ev & Ha & ->)]; [by left|right].
  exists ev. split; [done|]. unfold process, mbind, M_bind.
  pose proof (tame_TryRecord (E := goerr) "stripe" (ev_ID ev) w) as [_ _ Htx].
  destruct (TryRecordProcessedEvent _ _ w) as [[b|e] w1] eqn:Et.
  2:{ exfalso. revert Et. unfold TryRecordProcessedEvent, newID, mbind, M_bind, attempt. by destruct (stmt _ _). }
  apply TryRecord_marks in Et as (_ & Hdb & _). specialize (Htx Hw). simpl in Htx.
  assert (untouched (w_db w) (w_db w1)) as Hu by (destruct Hdb as [->| ->]; done).
  assert (well_formed (w_db w1)) as Hwf1 by (destruct Hdb as [->| ->]; [done|exact Hwf]).
  destruct b; cbn [negb]; [|split; [done|by apply stepped_start]].
  pose proof (event_refines h (ev_Type ev) (ev_Raw ev) (w_db w) Hwf w1 Htx Hu Hwf1) as Hr.
  by destruct (handle_event _ _ _ w1) as [[]].
Qed.

(** C10. Billing_refinement: whatever a delivery contains and whatever statement
    fails while it is handled, the tables stay well formed, every licence is as
    it was or took the one step of the accepted event in the abstract billing
    machine, and a licence that is new came from a completed checkout. *)
Theorem Webhook_refines_billing body signature w :
  well_formed (w_db w) -> w_tx w = None ->
  let db' := w_db (snd (Webhook h body signature w)) in
  well_formed db' /\
  (forall k l, db_licenses (w_db w) !! k = Some l -> exists l', db_licenses db' !! k = Some l' /\
     (l' = l \/ exists ev, accepted body signature ev /\ billing_step (ev_Type ev) (ev_Raw ev) l l')) /\
  (forall k l', db_licenses db' !! k = Some l' -> db_licenses (w_db w) !! k = None ->
     exists ev, accepted body signature ev /\ ev_Type ev = "checkout.session.completed").
Proof.
  intros Hwf Hw db'. destruct (Webhook_steps body signature w Hwf Hw) as [[E1 _]|(ev & Ha & Hwf' & Hst & Hnew)].
  - subst db'. rewrite E1. split_and!; [done|eauto|]. intros k l' E2 E3. congruence.
  - split_and!; [done| |].
    + intros k l Hl. destruct (Hst k l Hl) as (l' & Hl' & [->|Hs]); eauto 7.
    + intros k l' Hl' Hn. exists ev. split; [done|]. by eapply Hnew.
Qed.

(** *** The dunning clock *)

Lemma billing_clock type raw now t l l' :
  billing_next type raw now l = Some l' -> lic_Status l = StatusPastDue -> lic_PastDueAt l = Some t ->
  lic_Status l' = StatusPastDue -> lic_PastDueAt l' = Some t.
Proof.
  intros Hn Hs Hp. revert Hn. unfold billing_next, for_subscription, for_customer. rewrite Hs, Hp.
  destruct (streq type "customer.subscription.updated").
  - destruct (streq type "invoice.paid"); [destruct (un_invoice_paid raw); cbn [mbind option_bind];
      [destruct (billed_by _ _); by intros [= <-]|done]|].
    destruct (un_subscription raw) as [d|]; cbn [mbind option_bind]; [|done].
    destruct (billed_by _ _); [|done]. intros [= <-]. cbn. unfold status_of, dunning_of.
    rewrite !contains_cons, !contains_nil, Hs, Hp. intros Hst.
    destruct (streq (sd_Status d) "past_due") eqn:E1; [done|].
    destruct (streq (sd_Status d) "active") eqn:E2; [apply streq_true in E2; rewrite E2 in Hst; done|].
    destruct (streq (sd_Status d) "trialing") eqn:E3; [apply streq_true in E3; rewrite E3 in Hst; done|].
    by destruct (streq (sd_Status d) "canceled"), (streq (sd_Status d) "unpaid").
  - change (streq StatusPastDue StatusActive) with false. repeat match goal with
    | |- (if ?b then _ else _) = Some _ -> _ => destruct b
    | |- (?o ≫= _) = Some _ -> _ => destruct o; cbn [mbind option_bind]
    end; try done; intros [= <-]; by rewrite ?Hs, ?Hp.
Qed.

(** Dunning_clock: no delivery moves the dunning clock of a licence that was
    past due before and after it; so repeated payment failures do not push the
    reminders and the expiry of the lifecycle job away. *)
Theorem dunning_clock_kept body signature w k l l' t :
  well_formed (w_db w) -> w_tx w = None ->
  db_licenses (w_db w) !! k = Some l -> lic_Status l = StatusPastDue -> lic_PastDueAt l = Some t ->
  db_licenses (w_db (snd (Webhook h body signature w))) !! k = Some l' -> lic_Status l' = StatusPastDue ->
  lic_PastDueAt l' = Some t.
Proof.
  intros Hwf Hw Hl Hs Hp Hl' Hs'. destruct (Webhook_steps body signature w Hwf Hw) as [[E1 _]|(ev & _ & _ & Hst & _)].
  - rewrite E1 in Hl'. congruence.
  - destruct (Hst k l Hl) as (l1 & Hl1 & Hc). assert (l1 = l') as -> by congruence. clear Hl' Hl1. revert Hs'.
    destruct Hc as [->|[now u l2 Hn|id email u _ _ _ _ _]]; intros Hs'; [done| |done].
    exact (billing_clock _ _ now t l l2 Hn Hs Hp Hs').
Qed.
End webhook.

(** ** Once *)

Section once.
Context `{UUIDs} `{GCM} `{Stripe} `{StripeJSON} (h : StripeHandler).

(** An invariant that looks at neither licences nor subscriptions. *)
Section indifferent.
Context (I : DB -> Prop) (tol : tolerant I) (ig_licenses : ignores_table I licenses)
  (ig_subscriptions : ignores_table I subscriptions).

Lemma indifferent_update_c Q f : keeps I (sql_update_c subscriptions Q f).
Proof.
  apply keeps_stmt. intros db a db' HI. cbv zeta. destruct (head _); [done|]. intros [= _ <-]. by apply ig_subscriptions.
Qed.

Lemma indifferent_insert l : keeps I (insert_license l).
Proof. unfold insert_license. apply keeps_bind; [apply keeps_sql_now|]. intros. by apply keeps_insert_ignored. Qed.

Lemma indifferent_new l plan :
  hoare I (fun _ => True) (CreateLicenseWithSubscription (sh_AEAD h) l (Some plan))
    (fun r _ => True /\ match r with Ok lic => True | Err _ => True end).
Proof.
  eapply hoare_weaken; [apply (hoare_create _ _ (∅ : gmap string License))|done|].
  - intros. apply lookup_empty.
  - apply indifferent_insert.
  - intros. by apply keeps_insert_ignored.
  - intros [] ? _ _; done.
Qed.

Lemma indifferent_user lic userID : True -> keeps I (UpdateLicenseUser (lic_ID lic) userID).
Proof.
  intros _. unfold UpdateLicenseUser. apply keeps_bind; [by apply keeps_update_ignored|intros; apply keeps_ret].
Qed.

Lemma indifferent_fulfill email customerID subscriptionID metadata source :
  keeps I (fulfillCheckout h email customerID subscriptionID metadata source).
Proof.
  by apply (keeps_fulfill h I tol "checkout.session.completed" (fun _ => True)
    (fun l plan _ => indifferent_new l plan) indifferent_user).
Qed.

Lemma indifferent_event type raw : keeps I (handle_event h type raw).
Proof.
  apply hoare_keeps. apply (hoare_handle_event h I (fun _ => True) tol type raw) with (F := fun _ => True).
  - intros. apply hoare_save; [intros; by apply ig_licenses|apply indifferent_update_c].
  - intros l plan _. apply indifferent_new.
  - apply indifferent_user.
  - intros. unfold UpdateLicenseEmailByStripeCustomer. apply hoare_of_keeps.
    apply keeps_bind; [apply keeps_sql_now|]. intros. by apply keeps_ignore, keeps_update_ignored.
Qed.
End indifferent.

(** A recorded event stays recorded. *)
Definition recorded (provider id : string) (db : DB) : Prop := (provider, id) ∈ db_processed_events db.

Lemma recorded_tolerant provider id : tolerant (recorded provider id).
Proof. split; try by intros ??. intros p i db Hr. unfold recorded in *. simpl. set_solver. Qed.

Lemma recorded_Webhook provider id body signature : keeps (recorded provider id) (Webhook h body signature).
Proof.
  unfold Webhook. repeat first [apply keeps_TryRecord, recorded_tolerant
    |apply indifferent_event; [apply recorded_tolerant|by intros ??..]|keeps_step].
Qed.

Lemma TryRecord_total {E} provider id w :
  exists b w1, TryRecordProcessedEvent (E := E) provider id w = (Ok b, w1).
Proof. unfold TryRecordProcessedEvent, newID, mbind, M_bind, attempt. destruct (stmt _ _). by eexists _, _. Qed.

(** A recorded event is skipped, and nothing happens. *)
Lemma process_recorded ev w :
  recorded "stripe" (ev_ID ev) (w_db w) ->
  fst (process h ev w) = Ok skipped /\ w_db (snd (process h ev w)) = w_db w /\ w_events (snd (process h ev w)) = w_events w.
Proof.
  intros Hr. unfold process, mbind, M_bind. destruct (TryRecord_total (E := goerr) "stripe" (ev_ID ev) w) as (b & w1 & Et).
  rewrite Et. apply TryRecord_marks in Et as (He & _ & Hb & Hs). specialize (Hs Hr).
  destruct b; cbn [negb]; [by destruct (Hb eq_refl)|]. done.
Qed.

Lemma process_marks ev w :
  w_tx w = None -> fst (process h ev w) = Ok received -> recorded "stripe" (ev_ID ev) (w_db (snd (process h ev w))).
Proof.
  intros Hw. unfold process, mbind, M_bind. destruct (TryRecord_total (E := goerr) "stripe" (ev_ID ev) w) as (b & w1 & Et).
  pose proof (tame_TryRecord (E := goerr) "stripe" (ev_ID ev) w) as [_ _ Htx]. rewrite Et in *. specialize (Htx Hw).
  apply TryRecord_marks in Et as (_ & _ & Hb & _). destruct b; cbn [negb]; [|done]. destruct (Hb eq_refl) as [_ Hdb].
  intros _. assert (recorded "stripe" (ev_ID ev) (w_db (snd (handle_event h (ev_Type ev) (ev_Raw ev) w1)))) as Hrec.
  - apply keeps_closed; [apply indifferent_event; [apply recorded_tolerant|by intros ??..]|done|].
    rewrite Hdb. unfold recorded. simpl. set_solver.
  - by destruct (handle_event _ _ _ w1) as [[]].
Qed.

(** Deliveries one after the other, and their answers. *)
Fixpoint deliver_all (ds : list (option string * string)) (w : World) : list (result goerr Reply) :=
  match ds with
  | [] => []
  | (body, signature) :: ds => let '(r, w') := Webhook h body signature w in r :: deliver_all ds w'
  end.

Definition handled (id : string) (d : option string * string) (r : result goerr Reply) : Prop :=
  r = Ok received /\ exists ev, accepted h d.1 d.2 ev /\ ev_ID ev = id.

Lemma accepted_unique body signature ev ev' :
  accepted h body signature ev -> accepted h body signature ev' -> ev = ev'.
Proof. intros (b & -> & _ & E1 & _) (b' & [= <-] & _ & E2 & _). congruence. Qed.

Lemma recorded_not_handled id ds w j d r :
  recorded "stripe" id (w_db w) -> w_tx w = None ->
  ds !! j = Some d -> deliver_all ds w !! j = Some r -> ~ handled id d r.
Proof.
  revert w j. induction ds as [|[body signature] ds IH]; intros w j Hr Hw Hd Hj; [done|]. simpl in Hj.
  pose proof (recorded_Webhook "stripe" id body signature) as Hk.
  pose proof (keeps_closed _ _ w Hk Hw Hr) as Hr1. pose proof (tm_tx _ _ (tame_Webhook h body signature w) Hw) as Hw1.
  destruct j as [|j]; simpl in Hd, Hj.
  - injection Hd as <-. intros (-> & ev & Ha & Hid). simpl in Ha.
    destruct (Webhook_cases h body signature w) as [(_ & _ & _ & Hn)|(ev' & Ha' & Ew)]; [by destruct (Hn ev)|].
    pose proof (accepted_unique _ _ _ _ Ha Ha') as <-. rewrite <- Hid in Hr.
    destruct (process_recorded ev w Hr) as (Hp & _). rewrite Ew in Hj. destruct (process h ev w) as [r' w'].
    simpl in Hp, Hj. by simplify_eq.
  - destruct (Webhook h body signature w) as [r1 w1]. by apply (IH w1 j).
Qed.

Lemma handled_later ds w i j d d' r r' id :
  w_tx w = None -> (i < j)%nat ->
  ds !! i = Some d -> deliver_all ds w !! i = Some r -> handled id d r ->
  ds !! j = Some d' -> deliver_all ds w !! j = Some r' -> ~ handled id d' r'.
Proof.
  revert w i j. induction ds as [|[body signature] ds IH]; intros w i j Hw Hij Hd Hr Hh Hd' Hr' Hh'; [done|].
  simpl in Hr, Hr'. pose proof (tm_tx _ _ (tame_Webhook h body signature w) Hw) as Hw1.
  destruct j as [|j]; [lia|]. simpl in Hd', Hr'. destruct i as [|i]; simpl in Hd, Hr.
  - injection Hd as <-. destruct Hh as (-> & ev & Ha & Hid). simpl in Ha.
    destruct (Webhook_cases h body signature w) as [(_ & _ & _ & Hn)|(ev' & Ha' & Ew)]; [by destruct (Hn ev)|].
    pose proof (accepted_unique _ _ _ _ Ha Ha') as <-. pose proof (process_marks ev w Hw) as Hm. rewrite <- Ew in Hm.
    destruct (Webhook h body signature w) as [r1 w1]. simpl in Hr, Hm, Hw1, Hr'. injection Hr as ->.
    rewrite Hid in Hm. by apply (recorded_not_handled id ds w1 j d' r' (Hm eq_refl) Hw1 Hd' Hr').
  - destruct (Webhook h body signature w) as [r1 w1]. apply (IH w1 i j); try done. lia.
Qed.

(** Handled_once: of any deliveries, in any order and whatever fails, at most
    one is handled for each event; a replay is answered as skipped. *)
Theorem event_handled_once ds w i j d d' r r' id :
  w_tx w = None ->
  ds !! i = Some d -> deliver_all ds w !! i = Some r -> handled id d r ->
  ds !! j = Some d' -> deliver_all ds w !! j = Some r' -> handled id d' r' -> i = j.
Proof.
  intros Hw Hd Hr Hh Hd' Hr' Hh'. destruct (Nat.lt_trichotomy i j) as [Hij|[Hij|Hij]]; [exfalso|done|exfalso].
  - by eapply (handled_later ds w i j).
  - by eapply (handled_later ds w j i).
Qed.

(** After its record, a checkout is fulfilled as one without a session is. *)
Lemma fulfill_session_rest email customerID subscriptionID metadata source session w :
  metadata !! "session_id" = Some session -> session <> "" ->
  fulfillCheckout h email customerID subscriptionID metadata source w
  = (first ← TryRecordProcessedEvent "stripe_fulfill" session;
     if negb first then mret tt
     else fulfillCheckout h email customerID subscriptionID (delete "session_id" metadata) source) w.
Proof.
  intros Hm Hs. unfold fulfillCheckout, checkout_plan. cbv zeta.
  rewrite lookup_delete_eq, lookup_delete_ne by done. rewrite Hm.
  change (default "" (Some session)) with session. rewrite (proj2 (streq_false _ _) Hs). done.
Qed.

(** Session_once: when fulfilling a checkout session changed the licences, no
    later attempt for it, from a replayed delivery, the success page or the
    periodic scan, changes anything or sends a message. *)
Theorem session_fulfilled_once email customerID subscriptionID metadata source
    email' customerID' subscriptionID' metadata' source' session w w2 :
  metadata !! "session_id" = Some session -> metadata' !! "session_id" = Some session -> session <> "" ->
  w_tx w = None ->
  let w1 := snd (fulfillCheckout h email customerID subscriptionID metadata source w) in
  db_licenses (w_db w1) <> db_licenses (w_db w) ->
  db_processed_events (w_db w1) ⊆ db_processed_events (w_db w2) ->
  let '(r, w3) := fulfillCheckout h email' customerID' subscriptionID' metadata' source' w2 in
  r = Ok tt /\ w_db w3 = w_db w2 /\ w_events w3 = w_events w2.
Proof.
  intros Hm Hm' Hs Hw w1 Hch Hsub. assert (recorded "stripe_fulfill" session (w_db w2)) as Hrec.
  - apply Hsub. revert Hch. subst w1. rewrite (fulfill_session_rest _ _ _ _ _ session) by done. unfold mbind, M_bind.
    pose proof (tame_TryRecord (E := goerr) "stripe_fulfill" session w) as [_ _ Htx].
    destruct (TryRecord_total (E := goerr) "stripe_fulfill" session w) as (b & wa & Et). rewrite Et in *. specialize (Htx Hw).
    apply TryRecord_marks in Et as (_ & Hdb & Hb & _). destruct b; cbn [negb].
    + destruct (Hb eq_refl) as [_ Hdb1]. intros _. apply (keeps_closed (recorded "stripe_fulfill" session)); [|done|].
      * apply indifferent_fulfill; [apply recorded_tolerant|by intros ??..].
      * rewrite Hdb1. unfold recorded. simpl. set_solver.
    + simpl. by destruct Hdb as [->| ->].
  - rewrite (fulfill_session_rest _ _ _ _ _ session) by done.
    unfold mbind, M_bind. destruct (TryRecord_total (E := goerr) "stripe_fulfill" session w2) as (b & w3 & Et).
    rewrite Et. apply TryRecord_marks in Et as (He & _ & Hb & Hsame). specialize (Hsame Hrec).
    destruct b; cbn [negb]; [by destruct (Hb eq_refl)|]. done.
Qed.
End once.
