(* ===== verification/PaymentRun.v ===== *)
(** * Payments when nothing fails, and the customer's requests

    The webhook takes the step of the abstract billing machine; a paid
    checkout grants a licence; a request reaches only the caller's own
    licence. *)

From S2P Require Import Prelude GoStrings Errors Model World Tables Logic Progress Crypto KeyGen GoTime AesGcm Store.
From S2P Require Import Usability Webhook Sessions Expiry ExpiryProps EmailQueue ReleaseStore Payments PaymentProps.
From Stdlib Require Import Ascii String.

#[local] Open Scope string_scope.
#[local] Open Scope Z_scope.

(** ** The step is taken *)

Definition license_statuses : list string :=
  [StatusActive; StatusTrialing; StatusPastDue; StatusCanceled; StatusExpired; StatusSuspended; StatusRevoked].

Lemma check_license db l :
  t_check licenses db l = None <->
  present (db_products db !! lic_ProductID l) = true /\ present (db_plans db !! lic_PlanID l) = true /\
  contains (lic_Status l) license_statuses = true.
Proof.
  change (t_check licenses db l) with (and_then (fk (present (db_products db !! lic_ProductID l)))
    (and_then (fk (present (db_plans db !! lic_PlanID l))) (check (contains (lic_Status l) license_statuses)))).
  destruct (present (db_products db !! _)), (present (db_plans db !! _)), (contains _ _); naive_solver.
Qed.

Lemma status_of_allowed subscription current :
  contains current license_statuses = true -> contains (status_of subscription current) license_statuses = true.
Proof.
  unfold status_of. destruct (contains subscription _) eqn:E1; [|destruct (contains subscription ["canceled"; "unpaid"]); done].
  intros _. apply contains_true in E1. apply contains_true.
  change license_statuses with ["active"; "trialing"; "past_due"; "canceled"; "expired"; "suspended"; "revoked"].
  set_solver.
Qed.

(** The step leaves alone what the constraints of the table look at, and gives
    an allowed status. *)
Lemma billing_next_row `{StripeJSON} type raw now l l' :
  billing_next type raw now l = Some l' ->
  lic_ProductID l' = lic_ProductID l /\ lic_PlanID l' = lic_PlanID l /\
  (forall x, t_conflict licenses x l' = t_conflict licenses x l) /\
  (contains (lic_Status l) license_statuses = true -> contains (lic_Status l') license_statuses = true).
Proof.
  unfold billing_next, for_subscription, for_customer.
  repeat match goal with
  | |- (if ?b then _ else _) = Some _ -> _ => destruct b
  | |- (?o ≫= _) = Some _ -> _ => destruct o; cbn [mbind option_bind]
  end; try done; intros [= <-]; split_and!; try done. apply status_of_allowed.
Qed.

Definition subscription_statuses : list string :=
  ["active"; "trialing"; "past_due"; "canceled"; "expired"; "paused"; "suspended"; "revoked"].

Lemma check_subscription_iff db s :
  t_check subscriptions db s = None <->
  present (db_licenses db !! sub_LicenseID s) = true /\ present (db_plans db !! sub_PlanID s) = true /\
  contains (sub_Status s) subscription_statuses = true.
Proof.
  change (t_check subscriptions db s) with (and_then (fk (present (db_licenses db !! sub_LicenseID s)))
    (and_then (fk (present (db_plans db !! sub_PlanID s))) (check (contains (sub_Status s) subscription_statuses)))).
  destruct (present (db_licenses db !! _)), (present (db_plans db !! _)), (contains _ _); naive_solver.
Qed.

Lemma license_status_subscription st :
  contains st license_statuses = true -> contains st subscription_statuses = true.
Proof.
  rewrite !contains_true.
  change license_statuses with ["active"; "trialing"; "past_due"; "canceled"; "expired"; "suspended"; "revoked"].
  unfold subscription_statuses. set_solver.
Qed.

Lemma no_failed_status db P st t :
  subscriptions_ok db -> contains st license_statuses = true ->
  head (omap (fun r => t_check subscriptions db (sub_set_Status st t r))
    (map_to_list (rows P (db_subscriptions db))).*2) = None.
Proof.
  intros Hs Hst. apply head_None.
  assert (forall e, e ∉ omap (fun r => t_check subscriptions db (sub_set_Status st t r))
    (map_to_list (rows P (db_subscriptions db))).*2) as Hno; [|by apply list_nil_subseteq; intros e He; edestruct Hno].
  intros e (s & (k & Hk & _)%elem_of_rows & Hc)%list_elem_of_omap. specialize (Hs _ _ Hk).
  apply check_subscription_iff in Hs as (Ha & Hb & _). enough (t_check subscriptions db (sub_set_Status st t s) = None); [congruence|].
  apply check_subscription_iff. split_and!; [done..|]. by apply license_status_subscription.
Qed.

Section quiet.
Context `{UUIDs} `{GCM} `{Stripe} `{StripeJSON} (h : StripeHandler).

(** The statement takes effect. *)
Lemma save_runs {E} type raw now k l lic lic' w :
  quiet w -> well_formed (w_db w) -> db_licenses (w_db w) !! k = Some l -> same_row l lic ->
  billing_next type raw now lic = Some lic' ->
  exists w' t l', save (E := E) lic' (billing_cols type) w = (Ok tt, w') /\ billing_next type raw now l = Some l' /\
    db_licenses (w_db w') = <[k := lic_set_UpdatedAt t l']> (db_licenses (w_db w)).
Proof.
  intros Hq Hwf Hl Hs Hn. pose proof Hwf as (Hok & Hun & Hss). destruct (Hok _ _ Hl) as [Hid Hck].
  assert (lic_ID lic' = k) as Hk.
  { rewrite (billing_next_id _ _ _ _ _ Hn). destruct Hs as (? & ? & ->). done. }
  unfold save, ignore, UpdateLicenseAndSubscription, with_tx, mbind, M_bind, defer_rollback.
  rewrite begin_calm by by apply quiet_calm. destruct (tick w) as [t0 ds]. unfold time_Now.
  destruct (tick _) as [t ds'] eqn:Et. destruct Hq as [Hf Htx].
  destruct (billing_row type raw now t l lic lic' Hs Hn) as (l' & Hl' & Erow & Est).
  destruct (billing_next_row _ _ _ _ _ Hl') as (E1 & E2 & E3 & E4). apply check_license in Hck as (C1 & C2 & C3).
  change (lic_ID (lic_set_UpdatedAt t lic')) with (lic_ID lic'). rewrite Hk.
  assert (t_check licenses (w_db w) (lic_set_UpdatedAt t l') = None) as Hck'.
  { apply check_license. change (lic_ProductID (lic_set_UpdatedAt t l')) with (lic_ProductID l').
    change (lic_PlanID (lic_set_UpdatedAt t l')) with (lic_PlanID l'). rewrite E1, E2. split_and!; [done..|by apply E4]. }
  assert (forall k' x, delete k (db_licenses (w_db w)) !! k' = Some x -> t_conflict licenses x (lic_set_UpdatedAt t l') = false)
    as Hcf.
  { intros k' x [Hne Hx]%lookup_delete_Some. change (t_conflict licenses x l' = false). rewrite E3. by apply (Hun k k' l x). }
  erewrite (update_checked_calm licenses _ _ _ l); [|by split|exact Hl|rewrite Erow; by apply row_exists_false|by rewrite Erow].
  rewrite Erow. unfold sql_now, attempt. simpl w_tx. cbv beta iota.
  erewrite update_c_calm; [|by split|].
  2:{ change (lic_Status (lic_set_UpdatedAt t lic')) with (lic_Status lic'). rewrite Est.
      apply no_failed_status; [|by apply E4].
      apply (wf_put_license (w_db w) k (lic_set_UpdatedAt t l')); [done| |done|done].
      change (lic_ID l' = k). rewrite <- Hid. by eapply billing_next_id. }
  unfold mret, M_ret. erewrite commit_calm; [|by split|reflexivity].
  eexists _, t, l'. split_and!; reflexivity || done.
Qed.
End quiet.

Section takes.
Context `{UUIDs} `{GCM} `{Stripe} `{StripeJSON} (h : StripeHandler) (raw : string).

(** [m] puts licence [k], now [l], in the state of the event. *)
Definition takes {E} (type : string) (k : string) (l : License) (w : World) (m : M E unit) : Prop :=
  exists now t l', billing_next type raw now l = Some l' /\
    db_licenses (w_db (snd (m w))) !! k = Some (lic_set_UpdatedAt t l').

(** Nothing in the way of the handler: no fault, good tables, the licence. *)
Definition ready (k : string) (l : License) (w : World) : Prop :=
  quiet w /\ well_formed (w_db w) /\ db_licenses (w_db w) !! k = Some l.

(** After the write, what keeps the row of the licence. *)
Lemma takes_saved {E} type now k l lic lic' w (rest : M E unit) :
  ready k l w -> same_row l lic -> billing_next type raw now lic = Some lic' ->
  (forall x, keeps (fun db => db_licenses db !! k = Some x) rest) ->
  takes type k l w (save lic' (billing_cols type) ;; rest).
Proof.
  intros (Hq & Hwf & Hl) Hs Hn Hrest.
  assert (tame (save (E := E) lic' (billing_cols type))) as Htame by apply tame_save.
  destruct (save_runs (E := E) type raw now k l lic lic' w Hq Hwf Hl Hs Hn) as (w' & t & l' & Er & Hl' & Edb).
  pose proof (tame_quiet _ w Htame Hq) as Hq'. exists now, t, l'. split; [done|].
  unfold mbind, M_bind. rewrite Er in *. apply (keeps_closed _ _ w' (Hrest _)); [apply Hq'|]. rewrite Edb. apply lookup_insert_eq.
Qed.

Lemma takes_now {E} type k l w (m : Time -> M E unit) :
  ready k l w -> (forall now w1, ready k l w1 -> takes type k l w1 (m now)) -> takes type k l w (time_Now ≫= m).
Proof.
  intros (Hq & Hr) Hm. pose proof (quiet_still (time_Now (E := E)) w still_time_Now Hq) as Hq1.
  unfold takes, mbind, M_bind, time_Now in *. destruct (tick w) as [now ds].
  exact (Hm now (set_clock now ds w) (conj Hq1 Hr)).
Qed.

(** The licence of the subscription is found: no other has it. *)
Lemma takes_subscription {E} type id k l w (m : License -> M E unit) :
  ready k l w -> billed_by id l = true -> (forall w1, ready k l w1 -> takes type k l w1 (m l)) ->
  takes type k l w (with_license (FindLicenseByStripeSubscription id) m).
Proof.
  intros Hready Hb Hm. pose proof Hready as (Hq & (Hok & Hun & Hss) & Hl).
  assert (first_row (rows (billed_by id) (db_licenses (w_db w))) = Some l) as Ef.
  { apply (first_row_unique _ _ k l); [done..|]. intros k' l' Hl' Hb'. destruct (decide (k' = k)) as [->|Hne]; [done|exfalso].
    pose proof (Hun _ _ _ _ Hl Hl' (not_eq_sym Hne)) as Hc. simpl in Hc. unfold billed_by in Hb, Hb'.
    apply andb_true_iff in Hb as [Hb1 Hb%streq_true], Hb' as [_ Hb'%streq_true].
    rewrite Hb, Hb', Hb1, streq_refl in Hc. by destruct (streq _ _ || _). }
  unfold with_license, FindLicenseByStripeSubscription, takes, mbind, M_bind, attempt.
  rewrite select_one_quiet by done. simpl. rewrite Ef. by apply Hm.
Qed.

(** The first row in an order is before the others. *)
Lemma sort_by_head {R} (key : R -> Z) l x : head (sort_by key l) = Some x -> forall y, y ∈ l -> key x <= key y.
Proof.
  revert x. induction l as [|r l IH]; intros x; [done|]. simpl.
  destruct (sort_by key l) as [|r' l'] eqn:El; simpl.
  - intros [= <-] y [->|Hy]%elem_of_cons; [done|]. apply (f_equal List.length) in El. rewrite sort_by_perm in El.
    apply nil_length_inv in El as ->. by apply not_elem_of_nil in Hy.
  - specialize (IH r' eq_refl). destruct (Z.leb_spec (key r) (key r')); intros [= <-] y [->|Hy]%elem_of_cons; try lia; specialize (IH _ Hy); lia.
Qed.

(** The licence a refund is for: the one of its customer created last. *)
Definition latest_of_customer (k : string) (l : License) (db : DB) : Prop :=
  forall k' l', db_licenses db !! k' = Some l' -> lic_StripeCustomerID l' = lic_StripeCustomerID l ->
    k' = k \/ lic_CreatedAt l' < lic_CreatedAt l.

(** The customer's latest licence is found. *)
Lemma takes_customer {E} type id k l w (m : License -> M E unit) :
  ready k l w -> lic_StripeCustomerID l = id ->
  latest_of_customer k l (w_db w) ->
  (forall lic w1, ready k l w1 -> same_row l lic -> takes type k l w1 (m lic)) ->
  takes type k l w (with_license (FindLicenseByStripeCustomer id) m).
Proof.
  intros Hready Hid Hone Hm. pose proof Hready as (Hq & _ & Hl).
  unfold with_license, FindLicenseByStripeCustomer, takes, mbind, M_bind, attempt. rewrite stmt_quiet by done.
  assert (l ∈ (map_to_list (rows (fun l => streq (lic_StripeCustomerID l) id) (db_licenses (w_db w)))).*2) as Hin.
  { apply elem_of_rows. exists k. split; [done|]. by apply streq_true. }
  destruct (newest _) as [x|] eqn:En.
  - pose proof (sort_by_head _ _ _ En _ Hin) as Hlast. cbv beta in Hlast.
    apply newest_elem, elem_of_rows in En as (k' & Hk' & Hc%streq_true).
    destruct (Hone k' x Hk' (eq_trans Hc (eq_sym Hid))) as [->|Hlt]; [|lia].
    assert (x = l) as -> by congruence. rewrite set_db_same. apply Hm; [done|]. by eexists _, _.
  - exfalso. revert En. unfold newest. rewrite <- (sort_by_perm (fun l => - lic_CreatedAt l)) in Hin.
    destruct (sort_by _ _); [by apply not_elem_of_nil in Hin|done].
Qed.

(** *** Each handler takes the step *)

Lemma row_tolerant k x : tolerant (fun db => db_licenses db !! k = Some x).
Proof. split; by intros ??. Qed.

Local Ltac rest_keeps :=
  intros; repeat first [apply keeps_webhook_audit, row_tolerant|apply payment_keeps_dispatch, row_tolerant
    |apply keeps_notify, row_tolerant|keeps_step].

Lemma billed_nonempty id l : billed_by id l = true -> streq id "" = false.
Proof. unfold billed_by. by destruct (streq id ""). Qed.

Lemma concerned_by type now0 l l0 :
  billing_next type raw now0 l = Some l0 ->
  (type = "invoice.paid" /\ exists d, un_invoice_paid raw = Some d /\ billed_by d.1 l = true) \/
  (type = "customer.subscription.updated" /\ exists d, un_subscription raw = Some d /\ billed_by (sd_ID d) l = true) \/
  (type = "customer.subscription.deleted" /\ exists id, un_id raw = Some id /\ billed_by id l = true) \/
  (type = "invoice.payment_failed" /\ lic_Status l = StatusActive /\ exists id, un_invoice raw = Some id /\ billed_by id l = true) \/
  (type = "customer.subscription.paused" /\ exists id, un_id raw = Some id /\ billed_by id l = true) \/
  (type = "customer.subscription.resumed" /\ exists id, un_id raw = Some id /\ billed_by id l = true) \/
  (type = "charge.refunded" /\ exists d, un_charge raw = Some d /\ ch_Refunded d = true /\ lic_StripeCustomerID l = ch_Customer d).
Proof.
  unfold billing_next, for_subscription, for_customer.
  repeat match goal with
  | |- (if streq ?t ?x then _ else None) = Some _ -> _ =>
      let E := fresh in destruct (streq t x) eqn:E; [apply streq_true in E|done]
  | |- (if streq ?t ?x then _ else _) = Some _ -> _ =>
      let E := fresh in destruct (streq t x) eqn:E; [apply streq_true in E|clear E]
  | |- (?o ≫= _) = Some _ -> _ => destruct o as [d|] eqn:?; cbn [mbind option_bind]; [|done]
  | |- (if ?b then _ else _) = Some _ -> _ => destruct b eqn:?; [|done]
  end; intros _; eauto 15.
Qed.

(** Comparisons of literals, evaluated. *)
Local Ltac literals := repeat match goal with
  | |- context [streq ?a ?b] => let v := eval vm_compute in (streq a b) in
      match v with true => change (streq a b) with true | false => change (streq a b) with false end
  end; cbv beta iota.

Local Ltac next_is := unfold billing_next, for_subscription, for_customer; literals;
  repeat match goal with
  | H : _ = Some _ |- _ => rewrite H; clear H; cbn [mbind option_bind fst snd]
  | H : billed_by _ _ = true |- _ => rewrite H; clear H
  end; reflexivity.

(** The handler reaches [save] with the licence of the subscription. *)
Local Ltac found := eapply takes_subscription; [done|done|]; intros ? ?; cbv zeta.
Local Ltac step type now :=
  eapply (takes_saved type now); [done|apply same_row_refl|next_is|rest_keeps].

Lemma takes_invoice_paid {E} d k l w :
  un_invoice_paid raw = Some d -> billed_by d.1 l = true -> ready k l w ->
  takes (E := E) "invoice.paid" k l w (onInvoicePaid h raw).
Proof.
  intros Hd Hb Hw. unfold onInvoicePaid. rewrite Hd. destruct d as [id until0]. cbn [fst] in Hb. rewrite (billed_nonempty _ _ Hb).
  found. step "invoice.paid" 0.
Qed.

Lemma takes_deleted {E} id k l w :
  un_id raw = Some id -> billed_by id l = true -> ready k l w ->
  takes (E := E) "customer.subscription.deleted" k l w (onSubscriptionDeleted h raw).
Proof.
  intros Hd Hb Hw. unfold onSubscriptionDeleted. rewrite Hd. found. apply takes_now; [done|]. intros now w2 Hw2. cbv zeta.
  step "customer.subscription.deleted" now.
Qed.

Lemma takes_failed {E} id k l w :
  un_invoice raw = Some id -> billed_by id l = true -> lic_Status l = StatusActive -> ready k l w ->
  takes (E := E) "invoice.payment_failed" k l w (onPaymentFailed h raw).
Proof.
  intros Hd Hb Hs Hw. unfold onPaymentFailed. rewrite Hd, (billed_nonempty _ _ Hb). found.
  rewrite (proj2 (streq_true _ _) Hs). apply takes_now; [done|]. intros now w2 Hw2. cbv zeta.
  eapply (takes_saved "invoice.payment_failed" now); [done|apply same_row_refl| |rest_keeps].
  unfold billing_next, for_subscription. literals. rewrite Hd. cbn [mbind option_bind]. by rewrite (proj2 (streq_true _ _) Hs), Hb.
Qed.

Lemma takes_paused {E} id k l w :
  un_id raw = Some id -> billed_by id l = true -> ready k l w ->
  takes (E := E) "customer.subscription.paused" k l w (onSubscriptionPaused h raw).
Proof.
  intros Hd Hb Hw. unfold onSubscriptionPaused. rewrite Hd. found. apply takes_now; [done|]. intros now w2 Hw2. cbv zeta.
  step "customer.subscription.paused" now.
Qed.

Lemma takes_resumed {E} id k l w :
  un_id raw = Some id -> billed_by id l = true -> ready k l w ->
  takes (E := E) "customer.subscription.resumed" k l w (onSubscriptionResumed h raw).
Proof. intros Hd Hb Hw. unfold onSubscriptionResumed. rewrite Hd. found. step "customer.subscription.resumed" 0. Qed.

Lemma takes_updated {E} d k l w :
  un_subscription raw = Some d -> billed_by (sd_ID d) l = true -> ready k l w ->
  takes (E := E) "customer.subscription.updated" k l w (onSubscriptionUpdated h raw).
Proof.
  intros Hd Hb Hw. unfold onSubscriptionUpdated. rewrite Hd. found.
  assert (exists now w2, subscription_state (E := E) (sd_Status d) (unix (sd_CurrentPeriodEnd d)) l w1
    = (Ok (subscription_next d now l), w2) /\ ready k l w2) as (now & w2 & Er & Hw2).
  { assert (forall w2, ready k l w2 -> exists now w3, time_Now (E := E) w2 = (Ok now, w3) /\ ready k l w3) as Hnow.
    { intros w2 (Hq & Hr). pose proof (quiet_still (time_Now (E := E)) w2 still_time_Now Hq) as Hq1.
      unfold time_Now in *. destruct (tick w2) as [now ds]. by exists now, (set_clock now ds w2). }
    unfold subscription_state, subscription_next, status_of, dunning_of. rewrite !contains_cons, !contains_nil.
    destruct (streq (sd_Status d) "active") eqn:E1; [apply streq_true in E1; rewrite E1; by exists 0, w1|].
    destruct (streq (sd_Status d) "past_due") eqn:E2.
    { apply streq_true in E2. rewrite E2. destruct (lic_PastDueAt l); [by exists 0, w1|]. unfold mbind, M_bind.
      destruct (Hnow w1) as (now & w3 & Et & Hw3); [done|]. rewrite Et. by exists now, w3. }
    destruct (streq (sd_Status d) "trialing") eqn:E3; [apply streq_true in E3; rewrite E3; by exists 0, w1|].
    unfold mbind, M_bind. destruct (Hnow w1) as (now & w3 & Et & Hw3); [done|].
    destruct (streq (sd_Status d) "canceled"); [cbn [orb]; rewrite Et; by exists now, w3|].
    destruct (streq (sd_Status d) "unpaid"); [cbn [orb]; rewrite Et; by exists now, w3|]. cbn [orb]. by exists 0, w1. }
  unfold takes, mbind at 1, M_bind at 1. rewrite Er.
  change (takes (E := E) "customer.subscription.updated" k l w2
    (save (subscription_next d now l) (billing_cols "customer.subscription.updated") ;;
     if streq (lic_Status l) StatusPastDue && streq (lic_Status (subscription_next d now l)) StatusActive
     then notifyPaymentRecovered h (subscription_next d now l) (episode_of l) else mret tt)).
  step "customer.subscription.updated" now.
Qed.

Lemma takes_refunded {E} d k l w :
  un_charge raw = Some d -> ch_Refunded d = true -> lic_StripeCustomerID l = ch_Customer d -> ready k l w ->
  latest_of_customer k l (w_db w) ->
  takes (E := E) "charge.refunded" k l w (onChargeRefunded raw).
Proof.
  intros Hd Hr Hc Hw Hone. unfold onChargeRefunded. rewrite Hd. eapply takes_customer; [done|done|done|].
  intros lic w1 Hw1 Hs. cbv zeta. rewrite Hr. eapply (takes_saved "charge.refunded" 0); [done|done| |rest_keeps].
  destruct Hs as (p & q & ->). unfold billing_next, for_customer. literals. rewrite Hd. cbn [mbind option_bind].
  change (lic_StripeCustomerID (lic_with_relations l p q)) with (lic_StripeCustomerID l).
  by rewrite Hr, (proj2 (streq_true _ _) Hc).
Qed.

Lemma takes_event type now0 k l l0 w :
  ready k l w -> billing_next type raw now0 l = Some l0 ->
  (type = "charge.refunded" -> latest_of_customer k l (w_db w)) ->
  takes type k l w (handle_event h type raw).
Proof.
  intros Hw Hn Hone. apply concerned_by in Hn as [[-> Hn]|[[-> Hn]|[[-> Hn]|[[-> Hn]|[[-> Hn]|[[-> Hn]|[-> Hn]]]]]]];
    unfold handle_event; literals.
  - destruct Hn as (d & Hd & Hb). by apply (takes_invoice_paid d).
  - destruct Hn as (d & Hd & Hb). by apply (takes_updated d).
  - destruct Hn as (id & Hd & Hb). by apply (takes_deleted id).
  - destruct Hn as (Hs & id & Hd & Hb). by apply (takes_failed id).
  - destruct Hn as (id & Hd & Hb). by apply (takes_paused id).
  - destruct Hn as (id & Hd & Hb). by apply (takes_resumed id).
  - destruct Hn as (d & Hd & Hr & Hc). apply (takes_refunded d); [done..|]. by apply Hone.
Qed.
End takes.

(** ** Deliveries in a quiet world *)

Section quiet_webhook.
Context `{UUIDs} `{GCM} `{Stripe} `{StripeJSON} (h : StripeHandler).
(** [uuid.NewString] never answers the empty text. *)
Context (uuid_nonempty : forall n, uuid_nth n <> "").

(** An event that is not recorded is, and the answer is yes. *)
Lemma TryRecord_first {E} provider id w :
  quiet w -> ~ recorded provider id (w_db w) ->
  exists w', TryRecordProcessedEvent (E := E) provider id w = (Ok true, w') /\ quiet w' /\
    w_db w' = add_processed_event provider id (w_db w) /\ w_rand w' = w_rand w /\ w_events w' = w_events w.
Proof.
  intros Hq Hr. unfold TryRecordProcessedEvent, newID, mbind, M_bind, attempt. rewrite stmt_quiet by done.
  unfold record_event. simpl w_db. rewrite bool_decide_eq_false_2 by done.
  rewrite (proj2 (streq_false _ _) (uuid_nonempty _)). eexists. split; [reflexivity|]. split_and!; done.
Qed.

(** C11. Event_takes_step: from well-formed tables and when no statement fails, the
    first accepted delivery of an event puts the licence it concerns in the
    state the abstract billing machine gives, whatever else the handler does. A
    refund concerns the licence of its customer created last, whichever licence
    was paid back. *)
Theorem Webhook_takes_step body signature w ev k l now0 l0 :
  quiet w -> well_formed (w_db w) -> db_licenses (w_db w) !! k = Some l ->
  accepted h body signature ev -> ~ recorded "stripe" (ev_ID ev) (w_db w) ->
  billing_next (ev_Type ev) (ev_Raw ev) now0 l = Some l0 ->
  (ev_Type ev = "charge.refunded" -> latest_of_customer k l (w_db w)) ->
  exists now t l', billing_next (ev_Type ev) (ev_Raw ev) now l = Some l' /\
    db_licenses (w_db (snd (Webhook h body signature w))) !! k = Some (lic_set_UpdatedAt t l').
Proof.
  intros Hq Hwf Hl Ha Hr Hn Hone.
  destruct (Webhook_cases h body signature w) as [(_ & _ & _ & Hno)|(ev' & Ha' & ->)]; [by destruct (Hno ev)|].
  pose proof (accepted_unique h _ _ _ _ Ha Ha') as <-. unfold process, mbind, M_bind.
  destruct (TryRecord_first (E := goerr) "stripe" (ev_ID ev) w Hq Hr) as (w1 & -> & Hq1 & Edb & _). cbn [negb].
  assert (ready k l w1) as Hw1 by by (unfold ready; rewrite Edb).
  destruct (takes_event h (ev_Raw ev) (ev_Type ev) now0 k l l0 w1 Hw1 Hn) as (now & t & l' & Hl' & Hdb).
  { intros Ht. unfold latest_of_customer. rewrite Edb. by apply Hone. }
  exists now, t, l'. split; [done|]. by destruct (handle_event _ _ _ w1) as [[[]|e] w2].
Qed.
End quiet_webhook.
