(* ===== verification/PaymentGrant.v ===== *)
(** * A paid checkout grants a licence

    When no statement fails, the first attempt to fulfil a session leaves a
    live licence of the plan's product with the customer's address, whatever
    becomes of the notices that follow. *)

From S2P Require Import Prelude GoStrings Errors Model World Tables Logic Progress Crypto KeyGen GoTime AesGcm Store.
From S2P Require Import Usability Webhook Sessions Expiry ExpiryProps EmailQueue ReleaseStore Payments PaymentProps PaymentRun.
From Stdlib Require Import Ascii String.

#[local] Open Scope string_scope.
#[local] Open Scope Z_scope.

(** What the steps before the licence is written leave alone. *)
Record intact (w w' : World) : Prop := mkIntact {
  in_quiet : quiet w -> quiet w';
  in_rand : w_rand w' = w_rand w;
  in_licenses : db_licenses (w_db w') = db_licenses (w_db w);
  in_subscriptions : db_subscriptions (w_db w') = db_subscriptions (w_db w);
  in_products : db_products (w_db w') = db_products (w_db w);
  in_plans : db_plans (w_db w') = db_plans (w_db w)
}.

#[export] Instance intact_preorder : PreOrder intact.
Proof. split; [by intros w|]. intros w1 w2 w3 [] []. split; [auto|congruence..]. Qed.

(** [m] answers [a] and leaves the world intact. *)
Definition answers {E A} (m : M E A) (a : A) (w : World) : Prop :=
  exists w', m w = (Ok a, w') /\ intact w w'.

Lemma answers_bind {E A B} (m : M E A) (k : A -> M E B) a w (R : result E B * World -> Prop) :
  answers m a w -> (forall w', intact w w' -> R (k a w')) -> R ((m ≫= k) w).
Proof. intros (w' & Em & Hi) Hk. unfold mbind, M_bind. rewrite Em. by apply Hk. Qed.

Lemma answers_ret {E A} (a : A) w : answers (E := E) (mret a) a w.
Proof. by exists w. Qed.

Lemma answers_stripe {E A} name args (answer : nat -> A) w :
  exists n, answers (E := E) (stripe_call name args answer) (answer n) w.
Proof. by eexists _, _. Qed.

Lemma answers_now {E} w : exists t, answers (E := E) time_Now t w.
Proof. unfold answers, time_Now. destruct (tick w) as [t ds]. by exists t, (set_clock t ds w). Qed.


Section grant.
Context `{UUIDs} `{GCM} `{Stripe} `{StripeJSON} (h : StripeHandler).
Context (uuid_nonempty : forall n, uuid_nth n <> "").

Lemma answers_TryRecord {E} provider id w :
  quiet w -> ~ recorded provider id (w_db w) -> answers (E := E) (TryRecordProcessedEvent provider id) true w.
Proof.
  intros Hq Hr. destruct (TryRecord_first (E := E) uuid_nonempty provider id w Hq Hr) as (w' & Er & Hq' & Edb & Erand & _).
  exists w'. split; [done|]. by split; rewrite ?Edb.
Qed.

Lemma answers_select_plan {E} P p w :
  quiet w -> first_row (rows P (db_plans (w_db w))) = Some p ->
  answers (E := E) (attempt (select_plan P)) (Ok (with_entitlements (w_db w) p)) w.
Proof.
  intros Hq Hp. exists w. split; [|done]. unfold attempt, select_plan. rewrite stmt_quiet by done. rewrite Hp.
  by rewrite set_db_same.
Qed.

Lemma answers_fresh {E} x w : exists id, answers (E := E) (fresh_id x) id w /\ (x = "" -> exists n, id = uuid_nth n).
Proof.
  unfold fresh_id. case_bool_decide; [|exists x; split; [apply answers_ret|done]].
  exists (uuid_nth (w_ids w)). split; [|by eexists]. by eexists.
Qed.

Lemma answers_sql_now {E} w : quiet w -> exists t, answers (E := E) sql_now t w.
Proof. intros [_ Htx]. unfold sql_now, answers. rewrite Htx. apply answers_now. Qed.

Lemma answers_UpsertUser {E} u w : quiet w -> exists r, answers (E := E) (attempt (UpsertUser u)) r w.
Proof.
  intros Hq. destruct (answers_fresh (E := goerr) (user_ID u) w) as (id & (w1 & E1 & I1) & _).
  pose proof (in_quiet _ _ I1 Hq) as Hq1. destruct (answers_sql_now (E := goerr) w1 Hq1) as (t & w2 & E2 & I2).
  unfold answers, attempt, UpsertUser, mbind, M_bind. rewrite E1, E2. cbv zeta.
  pose proof (in_quiet _ _ I2 Hq1) as Hq2. rewrite stmt_quiet by done.
  assert (forall m, intact w (set_db (t_set users m (w_db w2)) w2)) as Hset.
  { intros m. etrans; [exact I1|]. etrans; [exact I2|]. by split. }
  destruct (row_exists _ _); [by eexists _, _; split; [reflexivity|]|].
  destruct (insert_row users _ _ _) as [[[] db']|e] eqn:Ei.
  - apply insert_row_Ok in Ei as (_ & _ & _ & ->). by eexists _, _; split; [reflexivity|].
  - eexists _, _; split; [reflexivity|]. by etrans.
Qed.

(** *** The plan and the address *)

(** The plan a checkout is for: by the price of its subscription, else by the
    identifier in its metadata. *)
Inductive checkout_for (db : DB) (subscriptionID : string) (metadata : gmap string string) (p : Plan) : Prop :=
  | cf_price item price rest :
      subscriptionID <> "" -> (forall n, st_subscription n subscriptionID = Ok ((item, price) :: rest)) ->
      first_row (rows (fun p => streq (plan_StripePriceID p) price) (db_plans db)) = Some p ->
      checkout_for db subscriptionID metadata p
  | cf_metadata id :
      subscriptionID = "" -> metadata !! "plan_id" = Some id -> id <> "" ->
      first_row (rows (fun p => streq (plan_ID p) id) (db_plans db)) = Some p ->
      checkout_for db subscriptionID metadata p.

Lemma answers_checkout_plan {E} w subscriptionID metadata p :
  quiet w -> checkout_for (w_db w) subscriptionID metadata p ->
  exists p', answers (E := E) (checkout_plan subscriptionID metadata) (Some p') w /\ exists db, p' = with_entitlements db p.
Proof.
  intros Hq [item price rest Hs Hst Hp|id -> Hm Hid Hp]; unfold checkout_plan.
  - rewrite (proj2 (streq_false _ _) Hs). cbn [negb]. unfold resolvePlan.
    unfold answers, stripe_call, mbind, M_bind. rewrite Hst.
    match goal with |- context [attempt _ ?w1] =>
      destruct (answers_select_plan (E := E) (fun p => streq (plan_StripePriceID p) price) p w1) as (w' & Ea & Hi); [done|done|];
      unfold FindPlanByStripePrice; rewrite Ea; assert (intact w w1) as H01 by done end.
    eexists. split; [eexists; split; [reflexivity|by etrans]|by eexists].
  - rewrite streq_refl. cbn [negb]. rewrite Hm. change (default "" (Some id)) with id. unfold answers, mbind, M_bind, mret, M_ret.
    rewrite (proj2 (streq_false _ _) Hid). cbn [negb]. unfold FindPlanByID.
    destruct (answers_select_plan (E := E) (fun p => streq (plan_ID p) id) p w Hq Hp) as (w' & Ea & Hi).
    rewrite Ea. eexists. split; [eexists; split; [reflexivity|done]|by eexists].
Qed.

(** The address known for the customer. *)
Definition address_of (email customerID address : string) : Prop :=
  address <> "" /\ ((customerID = "" /\ email = address) \/ (customerID <> "" /\ forall n, st_customer n customerID = Ok address)).

Lemma answers_checkout_email {E} w email customerID address :
  address_of email customerID address -> answers (E := E) (checkout_email email customerID) address w.
Proof.
  intros [Ha [[-> ->]|[Hc Hst]]]; unfold checkout_email; [by rewrite streq_refl; apply answers_ret|].
  rewrite (proj2 (streq_false _ _) Hc). cbn [negb]. unfold answers, stripe_call, mbind, M_bind. rewrite Hst.
  rewrite (proj2 (streq_false _ _) Ha). by eexists.
Qed.

(** *** The licence is written *)

Lemma insert_calm {R} (T : Table string R) k r w :
  calm w -> t_get T (w_db w) !! k = None ->
  (forall k' r', t_get T (w_db w) !! k' = Some r' -> t_conflict T r' r = false) -> t_check T (w_db w) r = None ->
  sql_insert T k r w = (Ok tt, set_db (t_set T (<[k := r]> (t_get T (w_db w))) (w_db w)) w).
Proof.
  intros Hc Hk Hcf Hck. unfold sql_insert. rewrite stmt_calm by done. unfold insert_row.
  by rewrite Hk, (proj2 (row_exists_false _ _) Hcf), Hck.
Qed.

(** The identifier and the ciphertext of the key. *)
Lemma answers_prepare l w :
  lic_ID l = "" -> (12 <= List.length (w_rand w))%nat ->
  exists n ct w', prepareLicenseForInsert (sh_AEAD h) l w = (Ok (lic_set_key (uuid_nth n) (HashKey (lic_LicenseKey l)) ct l), w') /\
    (quiet w -> quiet w') /\ w_db w' = w_db w.
Proof.
  intros Hid Hr. unfold prepareLicenseForInsert. rewrite Hid. unfold fresh_id, newID, mbind, M_bind.
  rewrite bool_decide_eq_true_2 by done. cbv iota zeta.
  destruct (sh_AEAD h) as [a|]; [|by eexists _, _, _].
  destruct (negb _); [|by eexists _, _, _].
  unfold Encrypt, map_err, mbind, M_bind, rand_Read.
  change (w_rand (set_ids (S (w_ids w)) w)) with (w_rand w).
  rewrite (bool_decide_eq_true_2 (12 <= List.length (w_rand w))%nat) by done. cbv iota.
  eexists _, _, _. split; [reflexivity|]. by split.
Qed.

(** No row stands in the way of a licence with this key and subscription. *)
Definition room (db : DB) (l : License) : Prop :=
  (forall n, db_licenses db !! uuid_nth n = None /\ db_subscriptions db !! uuid_nth n = None) /\
  (forall k l', db_licenses db !! k = Some l' -> lic_LicenseKey l' <> lic_LicenseKey l /\
     lic_KeyHash l' <> HashKey (lic_LicenseKey l) /\
     (lic_StripeSubscriptionID l = "" \/ lic_StripeSubscriptionID l' <> lic_StripeSubscriptionID l)) /\
  present (db_products db !! lic_ProductID l) = true /\ present (db_plans db !! lic_PlanID l) = true /\
  contains (lic_Status l) license_statuses = true.

Lemma room_row db l n ct t :
  room db l -> let r := lic_row t (lic_set_key (uuid_nth n) (HashKey (lic_LicenseKey l)) ct l) in
  t_check licenses db r = None /\ forall k l', db_licenses db !! k = Some l' -> t_conflict licenses l' r = false.
Proof.
  intros (_ & Hcf & Hp & Hpl & Hst) r. split; [by apply check_license|].
  intros k l' Hl'. destruct (Hcf _ _ Hl') as (N1 & N2 & N3). simpl.
  rewrite (proj2 (streq_false _ _) N1), (proj2 (streq_false _ _) N2), andb_false_r. simpl.
  destruct N3 as [->|N3]; [done|]. by rewrite (proj2 (streq_false _ _) N3), andb_false_r.
Qed.

(** The subscription row of a plan that has one. *)
Definition subscription_of (plan : Plan) (l : License) : M goerr unit :=
  if streq (plan_LicenseType plan) "subscription" || streq (plan_LicenseType plan) "trial" then
    id ← newID;
    sub ← (if streq (plan_LicenseType plan) "trial" && (0 <? plan_TrialDays plan) then
             now ← time_Now;
             mret (mkSubscription id (lic_ID l) (plan_ID plan) (lic_Status l) (Some now)
               (Some (Add now (go_mul (go_mul (plan_TrialDays plan) 24) Hour))) 0 0)
           else mret (mkSubscription id (lic_ID l) (plan_ID plan) (lic_Status l) None None 0 0));
    t ← sql_now;
    let sub := mkSubscription (sub_ID sub) (sub_LicenseID sub) (sub_PlanID sub) (sub_Status sub)
      (sub_TrialStart sub) (sub_TrialEnd sub) (or_now t (sub_CreatedAt sub)) (or_now t (sub_UpdatedAt sub)) in
    sql_insert subscriptions (sub_ID sub) sub
  else mret tt.

Lemma subscription_runs plan l w tx :
  calm w -> w_tx w = Some tx -> (forall n, db_subscriptions (w_db w) !! uuid_nth n = None) ->
  present (db_licenses (w_db w) !! lic_ID l) = true -> present (db_plans (w_db w) !! plan_ID plan) = true ->
  contains (lic_Status l) license_statuses = true ->
  exists w', subscription_of plan l w = (Ok tt, w') /\ calm w' /\ w_tx w' = Some tx /\ db_licenses (w_db w') = db_licenses (w_db w).
Proof.
  intros Hc Htx Hfree Hl Hp Hst. unfold subscription_of. destruct (_ || _); [|by exists w].
  assert (forall w1 sub, calm w1 -> w_db w1 = w_db w -> sub_LicenseID sub = lic_ID l -> sub_PlanID sub = plan_ID plan ->
    sub_Status sub = lic_Status l -> (exists n, sub_ID sub = uuid_nth n) ->
    sql_insert subscriptions (sub_ID sub) sub w1
    = (Ok tt, set_db (t_set subscriptions (<[sub_ID sub := sub]> (db_subscriptions (w_db w))) (w_db w)) w1)) as Hins.
  { intros w1 sub Hc1 Edb E1 E2 E3 (n & E4). rewrite insert_calm; [by rewrite Edb|done| |done|].
    - rewrite Edb, E4. apply Hfree.
    - rewrite Edb. apply check_subscription_iff. rewrite E1, E2, E3. split_and!; [done..|]. by apply license_status_subscription. }
  assert (forall ds t w1, w_tx w1 = Some tx -> calm w1 -> calm (set_clock t ds w1)) as Hclock by by intros ? ? ? ? [].
  unfold newID, sql_now, time_Now, tick, mbind, M_bind, mret, M_ret. destruct (_ && _); [destruct (w_ticks _)|];
    cbn [w_tx set_ids set_clock]; rewrite Htx; (rewrite Hins; [| | |done..|by eexists]; [|done|done]);
    by eexists; split; [reflexivity|].
Qed.

Lemma with_tx_quiet {A} (body : M goerr A) w :
  quiet w -> with_tx body w
    = let '(r, w') := body (set_tx (Some (mkTx (w_db w) false (fst (tick w)))) (set_clock (fst (tick w)) (snd (tick w)) w))
      in (r, rollback_w w').
Proof.
  intros Hq. unfold with_tx, mbind, M_bind. rewrite begin_calm by by apply quiet_calm. by destruct (tick w).
Qed.

Lemma create_runs l plan w :
  quiet w -> lic_ID l = "" -> lic_PlanID l = plan_ID plan -> (12 <= List.length (w_rand w))%nat -> room (w_db w) l ->
  exists n ct t w', CreateLicenseWithSubscription (sh_AEAD h) l (Some plan) w
      = (Ok (lic_set_key (uuid_nth n) (HashKey (lic_LicenseKey l)) ct l), w') /\ quiet w' /\
    db_licenses (w_db w') !! uuid_nth n = Some (lic_row t (lic_set_key (uuid_nth n) (HashKey (lic_LicenseKey l)) ct l)).
Proof.
  intros Hq Hid Hplan Hr Hroom. destruct (answers_prepare l w Hid Hr) as (n & ct & w1 & E1 & Hq1 & Edb). specialize (Hq1 Hq).
  rewrite <- Edb in Hroom. clear Edb Hr Hq. unfold CreateLicenseWithSubscription, mbind at 1, M_bind at 1.
  rewrite E1. set (l1 := lic_set_key _ _ _ l) in *. unfold mbind at 1, M_bind at 1. rewrite with_tx_quiet by done.
  destruct (tick w1) as [t ds]. cbn [fst snd]. set (w2 := set_tx (Some (mkTx (w_db w1) false t)) (set_clock t ds w1)).
  assert (calm w2) as Hc2 by (destruct Hq1; by split). assert (w_tx w2 = Some (mkTx (w_db w1) false t)) as Htx2 by done.
  assert (w_db w2 = w_db w1) as Edb by done. clearbody w2.
  destruct (room_row (w_db w1) l n ct t Hroom) as [Hck Hcf]. fold l1 in Hck, Hcf.
  assert (insert_license l1 w2 = (Ok tt, set_db (t_set licenses (<[uuid_nth n := lic_row t l1]> (db_licenses (w_db w1))) (w_db w1)) w2)) as Ei.
  { unfold insert_license, sql_now, mbind, M_bind. rewrite Htx2. cbn [tx_now]. rewrite insert_calm; [by rewrite Edb|done|..];
      rewrite Edb; [apply Hroom|exact Hcf|exact Hck]. }
  unfold mbind at 1, M_bind at 1. rewrite Ei.
  match goal with |- context [set_db ?d w2] => set (w3 := set_db d w2) end.
  destruct (subscription_runs plan l1 w3 (mkTx (w_db w1) false t)) as (w4 & E4 & Hc4 & Htx4 & Edb4).
  { destruct Hc2. by split. } { done. } { apply Hroom. }
  { simpl. by rewrite lookup_insert_eq. } { simpl. rewrite <- Hplan. apply Hroom. } { apply Hroom. }
  match goal with |- context [mbind _ ?s w3] => change s with (subscription_of plan l1) end.
  unfold mbind at 1, M_bind at 1. rewrite E4. erewrite commit_calm by done. unfold mret, M_ret.
  eexists n, ct, t, _. split; [reflexivity|]. split; [destruct Hc4; by split|].
  simpl. rewrite Edb4. simpl. apply lookup_insert_eq.
Qed.

(** *** The whole attempt *)

(** The licence granted: for the address and the plan, alive. *)
Definition granted (k : string) (plan : Plan) (address subscriptionID : string) (db : DB) : Prop :=
  exists l, db_licenses db !! k = Some l /\ live_for address (plan_ProductID plan) l = true /\
    lic_PlanID l = plan_ID plan /\ lic_StripeSubscriptionID l = subscriptionID.

Lemma granted_tolerant k plan address subscriptionID : tolerant (granted k plan address subscriptionID).
Proof. split; by intros ??. Qed.

Lemma granted_user k plan address subscriptionID id userID :
  keeps (granted k plan address subscriptionID) (UpdateLicenseUser id userID).
Proof.
  unfold UpdateLicenseUser. apply keeps_bind; [|intros; apply keeps_ret]. apply keeps_stmt. intros db n db' (l & Hl & Hg).
  cbv zeta. intros [= _ <-]. unfold granted. cbn [db_licenses].
  rewrite lookup_update_rows, Hl.
  eexists. split; [reflexivity|]. by destruct (streq _ _).
Qed.

Lemma create_from_grants plan address customerID subscriptionID source w key rest :
  quiet w -> GenerateKey "" (w_rand w) = Some (key, rest) -> (12 <= List.length rest)%nat -> address <> "" ->
  room (w_db w) (checkout_license plan address customerID subscriptionID key None) ->
  exists k, granted k plan address subscriptionID
    (w_db (snd (create_from_checkout h plan address customerID subscriptionID source w))).
Proof.
  intros Hq Hkey Hrest Ha Hroom. unfold create_from_checkout, generate_key. unfold mbind at 1, M_bind at 1. rewrite Hkey.
  set (w1 := set_rand rest w). assert (quiet w1) as Hq1 by exact Hq.
  assert (exists ends, answers (E := goerr) (trial_until plan) ends w1) as (ends & w2 & E2 & I2).
  { unfold trial_until. destruct (_ && _); [|eexists; apply answers_ret]. unfold answers, mbind, M_bind.
    destruct (answers_now (E := goerr) w1) as (t & w' & -> & Hi). by eexists _, w'. }
  unfold mbind at 1, M_bind at 1. rewrite E2. pose proof (in_quiet _ _ I2 Hq1) as Hq2.
  destruct (answers_UpsertUser (E := goerr) (mkUser "" address "" "" "" 0 0 0) w2 Hq2) as (r & w3 & E3 & I3).
  unfold mbind at 1, M_bind at 1, ignore. unfold attempt in E3. destruct (UpsertUser _ w2) as [r' w3'].
  injection E3 as <- ->. pose proof (in_quiet _ _ I3 Hq2) as Hq3.
  assert (intact w1 w3) as [_ Erand El Es Ep Epl] by by etrans.
  set (l := checkout_license plan address customerID subscriptionID key ends) in *.
  destruct (create_runs l plan w3 Hq3) as (n & ct & t & w4 & E4 & Hq4 & Hl4); [done|done|by rewrite Erand|..].
  { destruct Hroom as (R1 & R2 & R3 & R4 & R5). unfold room. rewrite El, Es, Ep, Epl. split_and!; [exact R1|exact R2|done..]. }
  unfold mbind at 1, M_bind at 1. unfold attempt at 1. cbn [snd]. rewrite E4. exists (uuid_nth n).
  apply keeps_closed; [|apply Hq4|].
  - apply (payment_keeps_announce h _ (granted_tolerant _ _ _ _) (fun _ => True)); [|done]. intros. apply granted_user.
  - eexists. split; [exact Hl4|]. split_and!; [|done..]. unfold live_for. simpl. rewrite !streq_refl. simpl.
    unfold checkout_status. by destruct (streq _ _).
Qed.

(** C12. Checkout_grants: when no statement fails, fulfilling a session for the
    first time leaves a live licence of the plan's product with the customer's
    address, and a new one is of the plan bought and of its subscription. *)
Theorem checkout_grants_license email customerID subscriptionID metadata source session address p key rest w :
  quiet w -> metadata !! "session_id" = Some session -> session <> "" ->
  ~ recorded "stripe_fulfill" session (w_db w) ->
  checkout_for (w_db w) subscriptionID metadata p -> address_of email customerID address ->
  GenerateKey "" (w_rand w) = Some (key, rest) -> (12 <= List.length rest)%nat ->
  room (w_db w) (checkout_license p address customerID subscriptionID key None) ->
  let db' := w_db (snd (fulfillCheckout h email customerID subscriptionID metadata source w)) in
  exists k l, db_licenses db' !! k = Some l /\ live_for address (plan_ProductID p) l = true /\
    (db_licenses (w_db w) !! k = Some l \/
     lic_PlanID l = plan_ID p /\ lic_StripeSubscriptionID l = subscriptionID).
Proof.
  intros Hq Hm Hs Hr Hp Ha Hkey Hrest Hroom. unfold fulfillCheckout. rewrite Hm. cbv zeta.
  change (default "" (Some session)) with session. rewrite (proj2 (streq_false _ _) Hs). cbn [negb].
  destruct (answers_TryRecord (E := goerr) "stripe_fulfill" session w Hq Hr) as (w1 & E1 & I1).
  pose proof (in_quiet _ _ I1 Hq) as Hq1. unfold mbind at 1, M_bind at 1. rewrite E1. cbn [negb].
  assert (checkout_for (w_db w1) subscriptionID metadata p) as Hp1.
  { destruct Hp as [? ? ? ? ? Hf|? ? ? ? Hf]; rewrite <- (in_plans _ _ I1) in Hf; [by eapply cf_price|by eapply cf_metadata]. }
  destruct (answers_checkout_plan (E := goerr) w1 _ _ p Hq1 Hp1) as (p' & (w2 & E2 & I2) & db & ->).
  unfold mbind at 1, M_bind at 1. rewrite E2. pose proof (in_quiet _ _ I2 Hq1) as Hq2.
  destruct (answers_checkout_email (E := goerr) w2 email customerID address Ha) as (w3 & E3 & I3).
  unfold mbind at 1, M_bind at 1. rewrite E3. pose proof (in_quiet _ _ I3 Hq2) as Hq3.
  rewrite (proj2 (streq_false _ _) (proj1 Ha)).
  assert (intact w w3) as [_ Erand El Es Ep Epl] by by (etrans; [|etrans]).
  unfold FindActiveLicenseByEmailAndProduct, attempt. unfold mbind at 1 2, M_bind at 1 2.
  rewrite select_one_quiet by done. change (plan_ProductID (with_entitlements db p)) with (plan_ProductID p).
  destruct (first_row _) as [l|] eqn:Ef.
  - apply first_row_rows in Ef as (k & Hk & Hb). exists k, l. split; [done|]. split; [done|]. left. by rewrite <- El.
  - assert (room (w_db w3) (checkout_license p address customerID subscriptionID key None)) as Hroom3.
    { destruct Hroom as (R1 & R2 & R3 & R4 & R5). unfold room. rewrite El, Es, Ep, Epl. split_and!; [exact R1|exact R2|done..]. }
    destruct (create_from_grants (with_entitlements db p) address customerID subscriptionID source w3 key rest) as (k & l & Hg).
    { done. } { by rewrite Erand. } { done. } { apply Ha. } { exact Hroom3. }
    exists k, l. split; [apply Hg|]. split; [apply Hg|]. right. split; apply Hg.
Qed.
End grant.
