(* ===== verification/PaymentRequests.v ===== *)
(** * A customer's payment requests reach only their own licence

    What cancelling a subscription and changing its plan may do to the
    licences, whatever statement fails. *)

From S2P Require Import Prelude GoStrings Errors Model World Tables Logic Progress Crypto KeyGen GoTime AesGcm Store.
From S2P Require Import Usability Webhook Lookup Sessions Expiry ExpiryProps EmailQueue ReleaseStore Payments PaymentProps.
From Stdlib Require Import Ascii String.

#[local] Open Scope string_scope.
#[local] Open Scope Z_scope.

(** What a request of the signed-in address may do to a licence: it is theirs
    and has a subscription; it is cancelled at once, ends with the period, or
    moves to an active subscription plan of the same product. *)
Inductive own_step (db : DB) (email : option string) (l : License) : License -> Prop :=
  | os_cancel now t :
      email = Some (lic_Email l) -> lic_StripeSubscriptionID l <> "" ->
      own_step db email l (lic_set_UpdatedAt t (lic_billing StatusCanceled (Some now) (Some now) (lic_SuspendedAt l)
        (lic_PastDueAt l) l))
  | os_period_end until0 t :
      email = Some (lic_Email l) -> lic_StripeSubscriptionID l <> "" ->
      own_step db email l (lic_set_UpdatedAt t (lic_billing (lic_Status l) until0 (lic_CanceledAt l) (lic_SuspendedAt l)
        (lic_PastDueAt l) l))
  | os_plan k p t :
      email = Some (lic_Email l) -> lic_StripeSubscriptionID l <> "" ->
      db_plans db !! k = Some p -> plan_ProductID p = lic_ProductID l -> plan_Active p = true ->
      plan_LicenseType p = "subscription" ->
      own_step db email l (lic_set_UpdatedAt t (lic_set_plan (plan_ID p) l)).

Section requests.
Context `{UUIDs} `{GCM} `{Stripe} (h : StripeHandler) (db0 : DB) (email : option string) (id : string).
Context (keyed : forall k l, db_licenses db0 !! k = Some l -> lic_ID l = k).

(** The licence named changed by a step, the others as they were. *)
Definition reached (db : DB) : Prop :=
  db_plans db = db_plans db0 /\
  (forall k l, db_licenses db0 !! k = Some l -> exists l', db_licenses db !! k = Some l' /\
     (l' = l \/ k = id /\ own_step db0 email l l')) /\
  (forall k, db_licenses db0 !! k = None -> db_licenses db !! k = None).

Definition start (db : DB) : Prop := db_licenses db = db_licenses db0.

Lemma reached_tolerant : tolerant reached.
Proof. split; by intros ??. Qed.

Lemma reached_put db k l r' :
  reached db -> start db -> db_licenses db0 !! k = Some l -> k = id -> own_step db0 email l r' ->
  reached (t_set licenses (<[k := r']> (db_licenses db)) db).
Proof.
  intros (Hp & _ & _) Hs Hl Hk Hr. unfold start in Hs. unfold reached. change (db_licenses (t_set licenses ?m db)) with m.
  rewrite Hs. split_and!; [done| |].
  - intros k1 l1 Hk1. destruct (decide (k = k1)) as [<-|Hne].
    + rewrite lookup_insert_eq. eexists. split; [done|]. right. split; [done|]. congruence.
    + rewrite lookup_insert_ne by done. eauto.
  - intros k1 Hn. rewrite lookup_insert_ne; [done|]. intros ->. congruence.
Qed.

(** Writing the columns of the licence found. *)
Lemma reached_update {E} l lic' cols :
  db_licenses db0 !! id = Some l -> lic_ID lic' = id ->
  (forall t, own_step db0 email l (lic_assign_cols (lic_set_UpdatedAt t lic') (app cols [ColUpdatedAt]) l)) ->
  hoare (E := E) reached start (ignore (UpdateLicense lic' cols)) (fun _ _ => True).
Proof.
  intros Hl Hid Hstep. assert (hoare reached start (UpdateLicense lic' cols) (fun _ _ => True)) as Hu.
  { unfold UpdateLicense. apply hoare_bind_still; [apply still_time_Now| |done]. intros now. cbv zeta.
    eapply hoare_bind; [apply hoare_update_checked| |done].
    - intros db r Hr Hs Hk _ _. change (lic_ID (lic_set_UpdatedAt now lic')) with (lic_ID lic') in *. rewrite Hid in *.
      assert (r = l) as ->. { change (db_licenses db !! id = Some r) in Hk. unfold start in Hs. congruence. }
      by apply (reached_put db id l).
    - intros n. apply hoare_of_keeps, keeps_ret. }
  intros w Hs Hp. split; [|done]. unfold ignore. simpl. by apply Hu.
Qed.

(** The licence the request names, when it is the caller's. *)
Lemma reached_own (k : License -> M goerr Reply) :
  (forall l lic, db_licenses db0 !! id = Some l -> same_row l lic -> email = Some (lic_Email l) ->
     hoare reached start (k lic) (fun _ _ => True)) ->
  hoare reached start (own_license email id k) (fun _ _ => True).
Proof.
  intros Hk. unfold own_license.
  eapply (hoare_bind_fact _ _ (fun r => match r with
    | Ok lic => exists l, db_licenses db0 !! id = Some l /\ same_row l lic | Err _ => True end)); [| |done].
  - assert (hoare reached start (FindLicenseByID id) (fun r db => start db /\ match r with
      | Ok lic => exists l, db_licenses db0 !! id = Some l /\ same_row l lic | Err _ => True end)) as Hf.
    { eapply hoare_weaken; [apply hoare_read|done|].
      { intros db l db'. destruct (first_row _); by intros [= _ <-]. }
      intros r db _ [Hs Hr]. split; [done|]. destruct r as [lic|]; [|done].
      destruct (first_row _) as [l|] eqn:El; [|done]. injection Hr as <-.
      apply first_row_rows in El as (k0 & Hk0 & Hid%streq_true). unfold start in Hs. rewrite Hs in Hk0.
      pose proof (keyed _ _ Hk0) as Hkey. exists l. split; [congruence|]. by eexists _, _. }
    eapply hoare_weaken; [apply hoare_attempt, Hf|done|]. intros [[lic|e]|e] db _ Hr; [exact Hr..|done].
  - intros [lic|e] Hr; [|apply hoare_drop, keeps_ret]. destruct Hr as (l & Hl & Hs).
    destruct email as [e|] eqn:He; [|apply hoare_drop, keeps_ret].
    destruct (streq (lic_Email lic) e) eqn:Ee; [|apply hoare_drop, keeps_ret]. apply streq_true in Ee.
    apply (Hk l lic); [done|done|]. destruct Hs as (p & q & ->). f_equal. by rewrite <- Ee.
Qed.

Lemma reached_rest {E A B} (m : M E A) (k : A -> M E B) :
  hoare reached start m (fun _ _ => True) -> (forall a, keeps reached (k a)) ->
  hoare reached start (m ≫= k) (fun _ _ => True).
Proof. intros Hm Hk. eapply hoare_bind; [exact Hm| |done]. intros a. apply hoare_of_keeps, Hk. Qed.

Lemma reached_cancel_at_stripe immediate l lic :
  db_licenses db0 !! id = Some l -> same_row l lic -> email = Some (lic_Email l) -> lic_StripeSubscriptionID l <> "" ->
  hoare reached start (cancel_at_stripe immediate lic) (fun _ _ => True).
Proof.
  intros Hl Hs He Hsub. pose proof (keyed _ _ Hl) as Hid. destruct Hs as (p & q & ->). unfold cancel_at_stripe. cbv zeta.
  destruct immediate; (apply hoare_bind_still; [apply still_stripe_call| |done]); intros [a|e]; try (apply hoare_drop, keeps_ret).
  - apply hoare_bind_still; [apply still_time_Now| |done]. intros now. apply reached_rest; [|intros; apply keeps_ret].
    apply (reached_update l); [done|done|]. intros t. destruct l. exact (os_cancel _ _ _ now t He Hsub).
  - apply reached_rest; [|intros; apply keeps_ret].
    apply (reached_update l); [done|done|]. intros t. destruct l. exact (os_period_end _ _ _ (Some (unix a)) t He Hsub).
Qed.

Hint Extern 1 (keeps reached (user_audit _ _ _)) => apply keeps_audit_log, reached_tolerant : licensehub.
Hint Extern 1 (keeps reached (send _ _ _ _)) => apply keeps_send : licensehub.
Hint Extern 1 (keeps reached (FindProductByID _)) => apply payment_keeps_FindProductByID : licensehub.

Lemma reached_Cancel req :
  cr_LicenseID req = id -> hoare reached start (CancelSubscription h email (Some req)) (fun _ _ => True).
Proof.
  intros Hid. unfold CancelSubscription. rewrite Hid. apply reached_own. intros l lic Hl Hs He.
  destruct (streq (lic_StripeSubscriptionID lic) "") eqn:Esub; [apply hoare_drop, keeps_ret|].
  apply streq_false in Esub. assert (lic_StripeSubscriptionID l <> "") as Hsub by by destruct Hs as (? & ? & ->).
  apply reached_rest; [by apply (reached_cancel_at_stripe _ l)|]. intros [[]|]; keeps_go.
Qed.

Lemma reached_change l lic p priceID proration k :
  db_licenses db0 !! id = Some l -> same_row l lic -> email = Some (lic_Email l) -> lic_StripeSubscriptionID l <> "" ->
  db_plans db0 !! k = Some p -> plan_ProductID p = lic_ProductID l -> plan_Active p = true ->
  plan_LicenseType p = "subscription" -> forall p', plan_ID p' = plan_ID p ->
  hoare reached start (change_plan lic p' priceID proration) (fun _ _ => True).
Proof.
  intros Hl Hs He Hsub Hp Hprod Hact Htype p' Hp'. pose proof (keyed _ _ Hl) as Hid. destruct Hs as (pr & q & ->).
  unfold change_plan. cbv zeta. apply hoare_bind_still; [apply still_stripe_call| |done]. intros [items|e]; [|apply hoare_drop, keeps_ret].
  destruct items as [|[item price] items]; [apply hoare_drop, keeps_ret|].
  apply hoare_bind_still; [apply still_stripe_call| |done]. intros [[]|e]; [|apply hoare_drop, keeps_ret].
  apply reached_rest.
  - apply (reached_update l); [done|done|]. intros t. rewrite Hp'. destruct l. by eapply (os_plan _ _ _ k p t).
  - intros _. assert (forall i, keeps reached (FindSubscriptionByLicense i)) as Hfind.
    { intros i. apply keeps_read. intros db s db'. destruct (head _); by intros [= _ <-]. }
    assert (forall s, keeps reached (UpdateSubscriptionPlan s)) as Hupd.
    { intros s. unfold UpdateSubscriptionPlan. apply keeps_bind; [apply keeps_still, still_time_Now|]. intros now.
      apply keeps_bind; [|intros; apply keeps_ret]. apply hoare_keeps, hoare_update_checked. intros db r Hr _ _ _ _. exact Hr. }
    keeps_go; auto.
Qed.

Lemma reached_ChangePlan req :
  cpr_LicenseID req = id -> hoare reached start (ChangePlan email (Some req)) (fun _ _ => True).
Proof.
  intros Hid. unfold ChangePlan. rewrite Hid. apply reached_own. intros l lic Hl Hs He.
  eapply (hoare_bind_fact _ _ (fun r => match r with
    | Ok p' => exists k p db, db_plans db0 !! k = Some p /\ p' = with_entitlements db p | Err _ => True end)); [| |done].
  - assert (hoare reached start (FindPlanByStripePrice (cpr_NewPriceID req)) (fun r db => start db /\ match r with
      | Ok p' => exists k p db, db_plans db0 !! k = Some p /\ p' = with_entitlements db p | Err _ => True end)) as Hf.
    { eapply hoare_weaken; [apply hoare_read|done|].
      { intros db p db'. destruct (first_row _); by intros [= _ <-]. }
      intros r db [Hpl _] [Hst Hr]. split; [done|]. destruct r as [p'|]; [|done].
      destruct (first_row _) as [p|] eqn:Ep; [|done]. injection Hr as <-.
      apply first_row_rows in Ep as (k & Hk & _). rewrite Hpl in Hk. by exists k, p, db. }
    eapply hoare_weaken; [apply hoare_attempt, Hf|done|]. intros [[p'|e]|e] db _ Hr; [exact Hr..|done].
  - intros [p'|e] Hr; [|apply hoare_drop, keeps_ret]. destruct Hr as (k & p & db & Hk & ->).
    assert (lic_StripeSubscriptionID lic = lic_StripeSubscriptionID l /\ lic_ProductID lic = lic_ProductID l) as [Es Epr]
      by by destruct Hs as (? & ? & ->).
    rewrite Es, Epr. repeat match goal with
    | |- hoare _ _ (if ?b then mret _ else _) _ => let F := fresh "F" in destruct b eqn:F; [apply hoare_drop, keeps_ret|]
    end.
    apply streq_false in F. apply negb_false_iff in F0, F1, F2. apply streq_true in F0, F2.
    by eapply (reached_change l lic p).
Qed.
End requests.

(** The requests that name a licence. *)
Inductive LicenseRequest :=
  | Cancelling (req : CancelRequest)
  | Changing (req : ChangePlanRequest)
  | Managing (licenseID returnURL : string).

Definition names (r : LicenseRequest) : string :=
  match r with
  | Cancelling req => cr_LicenseID req
  | Changing req => cpr_LicenseID req
  | Managing licenseID _ => licenseID
  end.

Definition serve `{UUIDs} `{GCM} `{Stripe} (h : StripeHandler) (email : option string) (r : LicenseRequest) : M goerr Reply :=
  match r with
  | Cancelling req => CancelSubscription h email (Some req)
  | Changing req => ChangePlan email (Some req)
  | Managing licenseID returnURL => CreatePortalSession h email (Some (licenseID, returnURL))
  end.

(** C13. Own_license_only: whatever fails, a request changes no licence but the one
    it names, and that one only when the caller's address owns it and it has a
    subscription; a new plan is an active subscription plan of its product. *)
Theorem requests_reach_own_license `{UUIDs} `{GCM} `{Stripe} h email r w :
  w_tx w = None -> (forall k l, db_licenses (w_db w) !! k = Some l -> lic_ID l = k) ->
  let db' := w_db (snd (serve h email r w)) in
  (forall k l, db_licenses (w_db w) !! k = Some l -> exists l', db_licenses db' !! k = Some l' /\
     (l' = l \/ k = names r /\ own_step (w_db w) email l l')) /\
  (forall k, db_licenses (w_db w) !! k = None -> db_licenses db' !! k = None).
Proof.
  intros Hw Hkey. assert (safe (reached (w_db w) email (names r)) w) as Hs.
  { apply safe_closed; [|done]. split_and!; [done|eauto|done]. }
  enough (hoare (reached (w_db w) email (names r)) (start (w_db w)) (serve h email r) (fun _ _ => True)) as Hh.
  { destruct (Hh w Hs eq_refl) as [[Hr _] _]. apply Hr. }
  destruct r as [req|req|licenseID returnURL]; simpl serve.
  - by apply reached_Cancel.
  - by apply reached_ChangePlan.
  - unfold CreatePortalSession. apply reached_own; [done|]. intros l lic _ _ _. apply hoare_drop. cbv zeta.
    repeat first [apply keeps_still, still_stripe_call|keeps_step].
Qed.

(** A query records nothing. *)
Lemma query_silent {A} (f : DB -> result goerr (A * DB)) w :
  (forall db a db', f db = Ok (a, db') -> db' = db) ->
  w_db (snd (stmt f w)) = w_db w /\ w_events (snd (stmt f w)) = w_events w.
Proof.
  intros Hf. pose proof (stmt_outcomes f w) as Ho.
  destruct (stmt f w) as [r w']; simpl in *. inversion Ho as [a db' ? Hr ? Fr|? ? ? ? Fr|? ? ? ? Fr|a db' ? Hr ? Fr]; subst;
    try apply Hf in Hr; split; try congruence; by rewrite (fr_events _ _ Fr).
Qed.

(** Foreign_refused: a request for a licence that is not the caller's is
    answered "not found" or "forbidden" before Stripe or a table is asked to
    change anything. *)
Theorem foreign_license_refused `{UUIDs} `{GCM} `{Stripe} h email r w :
  (forall k l, db_licenses (w_db w) !! k = Some l -> lic_ID l = names r -> email <> Some (lic_Email l)) ->
  let '(reply, w') := serve h email r w in
  (reply = Ok (Failure 404 "NOT_FOUND" "license not found") \/ reply = Ok (Failure 403 "FORBIDDEN" "not your license")) /\
  w_db w' = w_db w /\ w_events w' = w_events w.
Proof.
  intros Hno. assert (forall k, let '(reply, w') := own_license email (names r) k w in
    (reply = Ok (Failure 404 "NOT_FOUND" "license not found") \/ reply = Ok (Failure 403 "FORBIDDEN" "not your license")) /\
    w_db w' = w_db w /\ w_events w' = w_events w) as Hown; [|by destruct r; apply Hown].
  intros k. unfold own_license, mbind, M_bind, attempt. 
  assert (w_db (snd (FindLicenseByID (names r) w)) = w_db w /\ w_events (snd (FindLicenseByID (names r) w)) = w_events w) as Hro.
  { apply query_silent. intros db a db'. destruct (first_row _); by intros [= _ <-]. }
  destruct (FindLicenseByID (names r) w) as [[lic|e] w1] eqn:Ef.
  - unfold FindLicenseByID in Ef. apply select_license_Ok in Ef as (k0 & l & Hl & Hid%streq_true & ->).
    specialize (Hno _ _ Hl Hid). simpl in Hro. destruct email as [e|]; [|split; [by right|by apply Hro]].
    change (lic_Email (load_license (w_db w) l)) with (lic_Email l). rewrite (proj2 (streq_false _ _)) by congruence.
    split; [by right|apply Hro].
  - split; [by left|apply Hro].
Qed.
