(* ===== verification/PaymentDemo.v ===== *)
(** * The payment theorems on a concrete catalogue

    Two subscribers, one of them past due; a payment provider whose deliveries
    carry their type as their body; a plan sold by price and another to move
    to. *)

From S2P Require Import Prelude GoStrings Errors Model World Tables Logic Progress Crypto KeyGen GoTime AesGcm Store.
From S2P Require Import Usability Webhook Sessions Expiry ExpiryProps EmailQueue ReleaseStore ReleaseDemo.
From S2P Require Import Payments PaymentProps PaymentRun PaymentGrant PaymentRequests Demo.
From Stdlib Require Import Ascii String.

#[local] Open Scope string_scope.
#[local] Open Scope Z_scope.

#[local] Existing Instances Demo.uuids ToyGCM.gcm.

Module PaymentDemo.
#[export] Instance stripe : Stripe := {|
  ConstructEvent body signature secret :=
    if streq signature secret then Some (mkEvent ("evt-" +:+ body) body false "{}") else None;
  st_customer _ _ := Ok "carol@example.com";
  st_subscription _ _ := Ok [("item-1", "price-1")];
  st_session _ id := Ok (mkSession id "paid" "carol@example.com" None None {["plan_id" := "plan-4"]});
  st_sessions _ _ := ([], None);
  st_new_session _ _ := Ok ("https://pay", "cs-9");
  st_price_type _ _ := Ok "recurring";
  st_cancel _ _ := Ok tt;
  st_cancel_at_period_end _ _ := Ok 9000;
  st_change_price _ _ _ _ _ := Ok tt;
  st_portal _ _ _ := Ok "https://portal"
|}.

#[export] Instance json : StripeJSON := {|
  un_checkout _ := Some (mkCheckoutData "cs-1" "carol@example.com" "" "" {["plan_id" := "plan-4"]});
  un_invoice_paid _ := Some ("sub-2", 8000);
  un_subscription _ := Some (mkSubscriptionData "sub-2" "past_due" 7000);
  un_id _ := Some "sub-1";
  un_invoice _ := Some "sub-1";
  un_charge _ := Some (mkChargeData "ch-1" "cus-1" 100 true);
  un_dispute _ := None;
  un_dispute_closed _ := None;
  un_action_required _ := None;
  un_trial _ := None;
  un_upcoming _ := None;
  un_customer _ := Some ("cus-1", "new@example.com")
|}.

Definition license (id email sub customer status : string) (pastDue : option Time) : License :=
  mkLicense id "prod-1" "plan-1" "" email ("KEY-" +:+ id) (HashKey ("KEY-" +:+ id)) "" "stripe" customer sub status 0
    (Some (5000 * Second)) None None pastDue "" "" "" "" 0 0 None None.

Definition plan (id price : string) : Plan :=
  mkPlan id "prod-1" "Pro" "pro" "" "subscription" "month" 2 0 3 price "standard" 30 2 true 0 0 [].

Definition db : DB :=
  mkDB ∅ (db_products Demo.db) {["plan-1" := plan "plan-1" "price-1"; "plan-4" := plan "plan-4" "price-4"]} ∅
    {["lic-1" := license "lic-1" "alice@example.com" "sub-1" "cus-1" StatusActive None;
      "lic-2" := license "lic-2" "bob@example.com" "sub-2" "cus-2" StatusPastDue (Some (900 * Second))]}
    ∅ ∅ ∅ ∅ ∅ ∅ ∅ ∅ ∅ ∅ ∅ ∅ ∅ ∅ ∅ ∅ ∅ ∅ ∅ ∅ ∅ ∅ ∅ ∅ ∅ ∅ ∅.

Definition world : World := Demo.world_of db.
Definition handler : StripeHandler := mkStripe "whsec" "https://hub" true true false None.
End PaymentDemo.

Export (hints) PaymentDemo.

Lemma demo_well_formed : well_formed PaymentDemo.db.
Proof. apply well_formed_checked. vm_compute. reflexivity. Qed.

Lemma demo_uuid_nonempty n : Demo.uuids n <> "".
Proof. done. Qed.

Lemma demo_licenses k l :
  db_licenses PaymentDemo.db !! k = Some l ->
  k = "lic-1" /\ l = PaymentDemo.license "lic-1" "alice@example.com" "sub-1" "cus-1" StatusActive None \/
  k = "lic-2" /\ l = PaymentDemo.license "lic-2" "bob@example.com" "sub-2" "cus-2" StatusPastDue (Some (900 * Second)).
Proof.
  unfold PaymentDemo.db. cbn [db_licenses]. intros [[<- <-]|[_ Hl]]%lookup_insert_Some; [by left|right]. by apply lookup_singleton_Some in Hl as [<- <-].
Qed.

(** ** Witnesses *)

Lemma Webhook_refines_billing_witness :
  let db' := w_db (snd (Webhook PaymentDemo.handler (Some "invoice.payment_failed") "whsec" PaymentDemo.world)) in
  well_formed db' /\ exists l', db_licenses db' !! "lic-1" = Some l' /\ lic_Status l' = StatusPastDue.
Proof.
  intros db'. destruct (Webhook_refines_billing PaymentDemo.handler (Some "invoice.payment_failed") "whsec" PaymentDemo.world)
    as (Hwf & _); [exact demo_well_formed|reflexivity|]. split; [exact Hwf|].
  eexists. split; vm_compute; reflexivity.
Defined.

Lemma dunning_clock_kept_witness :
  exists l', db_licenses (w_db (snd (Webhook PaymentDemo.handler (Some "customer.subscription.updated") "whsec"
    PaymentDemo.world))) !! "lic-2" = Some l' /\ lic_PastDueAt l' = Some (900 * Second).
Proof.
  destruct (db_licenses (w_db (snd (Webhook PaymentDemo.handler (Some "customer.subscription.updated") "whsec"
    PaymentDemo.world))) !! "lic-2") as [l'|] eqn:El; [|vm_compute in El; discriminate El].
  exists l'. split; [reflexivity|].
  assert (lic_Status l' = StatusPastDue) as Hs by (vm_compute in El; injection El as <-; reflexivity).
  eapply (dunning_clock_kept PaymentDemo.handler (Some "customer.subscription.updated") "whsec" PaymentDemo.world "lic-2");
    [exact demo_well_formed|reflexivity|vm_compute; reflexivity|reflexivity|reflexivity|exact El|exact Hs].
Defined.

Definition demo_delivery : option string * string := (Some "invoice.paid", "whsec").

Lemma demo_handled : handled PaymentDemo.handler "evt-invoice.paid" demo_delivery (Ok received).
Proof.
  split; [reflexivity|]. exists (mkEvent "evt-invoice.paid" "invoice.paid" false "{}"). split; [|reflexivity].
  exists "invoice.paid". repeat split; done.
Qed.

(** A delivery and its replay: the first is handled, and only it can be. *)
Lemma event_handled_once_witness :
  deliver_all PaymentDemo.handler [demo_delivery; demo_delivery] PaymentDemo.world = [Ok received; Ok skipped] /\
  0%nat = 0%nat.
Proof.
  split; [vm_compute; reflexivity|].
  apply (event_handled_once PaymentDemo.handler [demo_delivery; demo_delivery] PaymentDemo.world 0 0 demo_delivery demo_delivery
    (Ok received) (Ok received) "evt-invoice.paid"); try exact demo_handled; vm_compute; reflexivity.
Defined.

Definition demo_metadata : gmap string string := {["session_id" := "cs-1"; "plan_id" := "plan-4"]}.

Lemma session_fulfilled_once_witness :
  let w1 := snd (fulfillCheckout PaymentDemo.handler "carol@example.com" "" "" demo_metadata "webhook" PaymentDemo.world) in
  w_db (snd (fulfillCheckout PaymentDemo.handler "mallory@example.com" "" "" demo_metadata "verify" w1)) = w_db w1.
Proof.
  intros w1. pose proof (session_fulfilled_once PaymentDemo.handler "carol@example.com" "" "" demo_metadata "webhook"
    "mallory@example.com" "" "" demo_metadata "verify" "cs-1" PaymentDemo.world w1) as Ho.
  fold w1 in Ho. destruct (fulfillCheckout _ "mallory@example.com" _ _ _ _ w1) as [r w3].
  apply Ho; [reflexivity|reflexivity|discriminate|reflexivity| |reflexivity].
  intros E. assert (size (db_licenses (w_db w1)) = size (db_licenses (w_db PaymentDemo.world))) as Es by (rewrite E; reflexivity).
  vm_compute in Es. discriminate Es.
Defined.

Lemma Webhook_takes_step_witness :
  exists l', db_licenses (w_db (snd (Webhook PaymentDemo.handler (Some "invoice.payment_failed") "whsec" PaymentDemo.world)))
    !! "lic-1" = Some l' /\ lic_Status l' = StatusPastDue.
Proof.
  destruct (Webhook_takes_step PaymentDemo.handler demo_uuid_nonempty (Some "invoice.payment_failed") "whsec" PaymentDemo.world
    (mkEvent "evt-invoice.payment_failed" "invoice.payment_failed" false "{}") "lic-1"
    (PaymentDemo.license "lic-1" "alice@example.com" "sub-1" "cus-1" StatusActive None) 0
    (lic_billing StatusPastDue (Some (5000 * Second)) None None (Some 0)
       (PaymentDemo.license "lic-1" "alice@example.com" "sub-1" "cus-1" StatusActive None)))
    as (now & t & l' & Hn & Hdb).
  - by split.
  - exact demo_well_formed.
  - reflexivity.
  - exists "invoice.payment_failed". repeat split; done.
  - set_solver.
  - vm_compute. reflexivity.
  - discriminate.
  - eexists. split; [exact Hdb|]. revert Hn. vm_compute. intros [= <-]. reflexivity.
Defined.

Lemma demo_room key :
  key <> "KEY-lic-1" -> key <> "KEY-lic-2" -> HashKey key <> HashKey "KEY-lic-1" -> HashKey key <> HashKey "KEY-lic-2" ->
  room PaymentDemo.db (checkout_license (PaymentDemo.plan "plan-4" "price-4") "carol@example.com" "" "" key None).
Proof.
  intros N1 N2 N3 N4. split_and!; try reflexivity.
  - intros n. split; [|reflexivity].
    destruct (db_licenses PaymentDemo.db !! uuid_nth n) as [l|] eqn:El; [exfalso|done].
    destruct (demo_licenses _ _ El) as [[E _]|[E _]]; discriminate E.
  - intros k l Hl. destruct (demo_licenses _ _ Hl) as [[-> ->]|[-> ->]];
      (split_and!; [simpl; congruence|simpl; congruence|by left]).
Qed.

Definition demo_key : string := Eval vm_compute in (match GenerateKey "" (w_rand PaymentDemo.world) with Some (k, _) => k | None => "" end).

Lemma checkout_grants_license_witness :
  exists k l, db_licenses (w_db (snd (fulfillCheckout PaymentDemo.handler "carol@example.com" "" "" demo_metadata "webhook"
      PaymentDemo.world))) !! k = Some l /\ live_for "carol@example.com" "prod-1" l = true /\ lic_PlanID l = "plan-4".
Proof.
  destruct (checkout_grants_license PaymentDemo.handler demo_uuid_nonempty "carol@example.com" "" "" demo_metadata "webhook" "cs-1"
    "carol@example.com" (PaymentDemo.plan "plan-4" "price-4") demo_key (drop 32 (w_rand PaymentDemo.world)) PaymentDemo.world)
    as (k & l & Hl & Hlive & Hc).
  - by split.
  - reflexivity.
  - discriminate.
  - set_solver.
  - eapply cf_metadata; [reflexivity|reflexivity|discriminate|vm_compute; reflexivity].
  - split; [discriminate|by left].
  - vm_compute. reflexivity.
  - vm_compute. lia.
  - apply demo_room; vm_compute; discriminate.
  - exists k, l. split; [exact Hl|]. split; [exact Hlive|]. destruct Hc as [Hold|[Hp _]]; [|exact Hp].
    exfalso. revert Hlive. destruct (demo_licenses _ _ Hold) as [[-> ->]|[-> ->]]; done.
Defined.

Lemma payment_demo_keyed k l : db_licenses (w_db PaymentDemo.world) !! k = Some l -> lic_ID l = k.
Proof. intros Hl. by apply demo_well_formed in Hl as [Hid _]. Qed.

Definition demo_change : LicenseRequest := Changing (mkChangePlanRequest "lic-1" "price-4" None).

Lemma requests_reach_own_license_witness :
  exists l', db_licenses (w_db (snd (serve PaymentDemo.handler (Some "alice@example.com") demo_change PaymentDemo.world)))
      !! "lic-2" = Some l' /\ lic_PlanID l' = "plan-1".
Proof.
  destruct (requests_reach_own_license PaymentDemo.handler (Some "alice@example.com") demo_change PaymentDemo.world)
    as [Hrows _]; [reflexivity|exact payment_demo_keyed|].
  destruct (Hrows "lic-2" _ eq_refl) as (l' & Hl' & [->|[E _]]); [|discriminate E].
  eexists. split; [exact Hl'|reflexivity].
Defined.

Lemma foreign_license_refused_witness :
  w_events (snd (serve PaymentDemo.handler (Some "bob@example.com") demo_change PaymentDemo.world)) = [].
Proof.
  pose proof (foreign_license_refused PaymentDemo.handler (Some "bob@example.com") demo_change PaymentDemo.world) as Hf.
  destruct (serve _ _ _ _) as [reply w']. destruct Hf as (_ & _ & E); [|exact E].
  intros k l Hl. destruct (demo_licenses _ _ Hl) as [[-> ->]|[-> ->]]; done.
Defined.

(** ** What the order of the steps loses *)

(** The licences of [db] with a given address, as identifier and status. *)
Definition held_by (email : string) (db : DB) : list (string * string) :=
  (fun l => (lic_ID l, lic_Status l)) <$> (map_to_list (rows (fun l => streq (lic_Email l) email) (db_licenses db))).*2.

Definition verify_paid (w : World) : World := snd (VerifyCheckoutSession PaymentDemo.handler "cs-1" w).

(** A paid session is granted a licence. *)
Example paid_session_granted :
  List.length (held_by "carol@example.com" (w_db (verify_paid PaymentDemo.world))) = 1%nat.
Proof. vm_compute. reflexivity. Qed.

(** The record of the session outlives a failure to read its plan: the next
    attempt, nothing failing, does not grant it. *)
Example paid_session_lost :
  let lost := verify_paid (mkWorld PaymentDemo.db None (1000 * Second) [] [NoFault; Lost false] false 0
    (w_rand PaymentDemo.world) ∅ []) in
  held_by "carol@example.com" (w_db (verify_paid lost)) = [] /\ w_faults (verify_paid lost) = [].
Proof. vm_compute. split; reflexivity. Qed.

(** A payment makes a revoked licence active again. *)
Example revoked_license_reactivated :
  let w := Demo.world_of (t_set licenses
    {["lic-2" := PaymentDemo.license "lic-2" "bob@example.com" "sub-2" "cus-2" StatusRevoked None]} PaymentDemo.db) in
  held_by "bob@example.com" (w_db (snd (Webhook PaymentDemo.handler (Some "invoice.paid") "whsec" w)))
  = [("lic-2", StatusActive)].
Proof. vm_compute. reflexivity. Qed.

(** A checkout with the address of an account erases the name and the picture
    of the account. *)
Example checkout_erases_name :
  let w := Demo.world_of (t_set users {["u-1" := mkUser "u-1" "carol@example.com" "Carol" "face.png" "user" 0 0 0]} PaymentDemo.db) in
  (user_Name <$> db_users (w_db (verify_paid w)) !! "u-1") = Some "".
Proof. vm_compute. reflexivity. Qed.
