(* ===== verification/Audited.v ===== *)
(** * Changes that are audited ([store.RunAuditedMutation], the outbox triggers)

    A mutation and its audit row are stored together or not at all, whatever
    statement fails and whatever becomes of the connection at the commit.  The
    triggers of [db/migrations/20260823_auth_security.up.sql] add a row to
    [audit_outbox] for every row a statement writes; they are part of the
    statements of the passkey recovery and of the backfills, whose theorems
    speak of the whole database. *)

From S2P Require Import Prelude GoStrings Errors Model World Tables Logic Crypto AesGcm Store.
From Stdlib Require Import Ascii String.

#[local] Open Scope string_scope.
#[local] Open Scope Z_scope.

(** A program that stays in its transaction and reports the failures of its
    statements: when it succeeds, the transaction is as it was. *)
Definition honest {E A} (m : M E A) : Prop := forall w,
  tx_snapshot <$> w_tx (snd (m w)) = tx_snapshot <$> w_tx w /\
  match fst (m w) with Ok _ => w_tx (snd (m w)) = w_tx w | Err _ => True end.

Section honest.
Lemma honest_ret {E A} (a : A) : honest (E := E) (mret a).
Proof. done. Qed.
Lemma honest_throw {E A} (e : E) : honest (A := A) (throw e).
Proof. done. Qed.
Lemma honest_still {E A} (m : M E A) : still m -> honest m.
Proof. intros Hm w. destruct (Hm w) as (_ & Ht & _). rewrite Ht. by destruct (fst (m w)). Qed.
Lemma honest_stmt {A} (f : DB -> result goerr (A * DB)) : honest (stmt f).
Proof.
  intros w. split.
  - by destruct (stmt_outcomes f w) as [a db' w' _ _ Fr|e w' _ _ Fr|e w' _ _ Fr|a db' w' _ _ Fr]; destruct Fr.
  - destruct (stmt f w) as [[a|e] w'] eqn:E; [|done]. by apply stmt_Ok in E as (_ & Ht & _).
Qed.
Lemma honest_bind {E A B} (m : M E A) (k : A -> M E B) : honest m -> (forall a, honest (k a)) -> honest (m ≫= k).
Proof.
  intros Hm Hk w. unfold mbind, M_bind. destruct (Hm w) as [H1 H2]. destruct (m w) as [[a|e] w1]; simpl in *; [|done].
  destruct (Hk a w1) as [H3 H4]. rewrite <- H2. split; [done|]. exact H4.
Qed.
Lemma honest_map_err {E E' A} (f : E -> E') (m : M E A) : honest m -> honest (map_err f m).
Proof. intros Hm w. unfold map_err. specialize (Hm w). by destruct (m w) as [[]]. Qed.
Lemma honest_must_affect n ok e : honest (must_affect n ok e).
Proof. unfold must_affect. by destruct (ok n). Qed.
End honest.

#[export] Hint Resolve honest_ret honest_throw honest_stmt honest_must_affect honest_still : licensehub.

Ltac honest_step :=
  match goal with
  | |- forall _, _ => intros ?
  | |- honest (_ ≫= _) => apply honest_bind
  | |- honest (map_err _ _) => apply honest_map_err
  | |- honest (match ?x with _ => _ end) => destruct x eqn:?
  | |- honest (sql_insert _ _ _) => apply honest_stmt
  | |- honest (sql_update _ _ _) => apply honest_stmt
  | |- honest (sql_update_checked _ _ _) => apply honest_stmt
  | |- honest (sql_update_c _ _ _) => apply honest_stmt
  | |- honest (sql_delete _ _) => apply honest_stmt
  | |- honest _ => solve [auto with licensehub nocore]
  end.
Ltac honest_go := repeat honest_step.

Definition add_audit (id : string) (now : Time) (log : AuditLog) (db : DB) : DB :=
  t_set audit_logs (<[id := audit_with id now log]> (db_audit_logs db)) db.

(** The tables of [db] after [mutate] and the insertion of its audit row. *)
Definition audited (mutate : M goerr unit) (log : AuditLog) (db db' : DB) : Prop :=
  exists w1 w2 id now, w_db w1 = db /\ mutate w1 = (Ok tt, w2) /\ db_audit_logs (w_db w2) !! id = None /\
    db' = add_audit id now log (w_db w2).

(** The end of a transaction none of whose statements failed: committed, or
    undone with an error. *)
Lemma commit_cases w tx :
  w_tx w = Some tx -> tx_failed tx = false ->
  w_db (rollback_w (snd (commit_tx w))) = w_db w \/
  fst (commit_tx w) <> Ok tt /\ w_db (rollback_w (snd (commit_tx w))) = tx_snapshot tx.
Proof.
  intros Htx Hok. unfold commit_tx. pose proof (next_fault_frame w) as (Edb & Etx & _).
  destruct (next_fault w) as [flt w1]; simpl in *. rewrite Etx, Htx, Hok. destruct flt as [|[]]; simpl.
  - by left.
  - by left.
  - right. split; [done|]. unfold rollback_w. by rewrite Etx, Htx.
Qed.

Lemma honest_insert_audit log : honest (insert_audit log).
Proof. unfold insert_audit. honest_go. Qed.

(** Audited_atomic: after an audited mutation the tables are as they were and
    an error is reported, or they are those of the whole mutation together with
    its audit row. *)
Theorem audited_atomic `{UUIDs} log mutate w :
  audit_ID log = "" -> honest mutate -> w_tx w = None ->
  let '(r, w') := RunAuditedMutation (Some log) mutate w in
  r <> Ok tt /\ w_db w' = w_db w \/ audited mutate log (w_db w) (w_db w').
Proof.
  intros Hid Hm Hw. unfold RunAuditedMutation. rewrite Hid. unfold mbind at 1, M_bind at 1.
  destruct (fresh_id_run (E := goerr) "" w) as (w0 & -> & <- & T0 & _). rewrite <- T0 in Hw.
  generalize (stored_id "" w). clear T0 w. intros id. unfold with_tx. unfold mbind at 1, M_bind at 1, begin_tx.
  pose proof (next_fault_frame w0) as (D1 & T1 & _). destruct (next_fault w0) as [[|b] w1]; simpl in D1, T1; [|by left].
  destruct (tick w1) as [t ds]. rewrite D1. set (w2 := set_tx _ _).
  assert (w_db w2 = w_db w0) as D2 by (by rewrite <- D1). assert (w_tx w2 = Some (mkTx (w_db w0) false t)) as T2 by done.
  clearbody w2. unfold defer_rollback. clear D1 T1 w1 ds Hw.
  assert (forall w3, tx_snapshot <$> w_tx w3 = Some (w_db w0) -> w_db (rollback_w w3) = w_db w0) as Hroll.
  { intros w3 H3. unfold rollback_w. destruct (w_tx w3) as [tx|]; [|done]. by injection H3 as ->. }
  unfold mbind at 1, M_bind at 1. destruct (Hm w2) as [Hs Ht]. rewrite T2 in Hs, Ht.
  destruct (mutate w2) as [[[]|e] w3] eqn:Em; simpl in Hs, Ht; [|left; split; [done|by apply Hroll]].
  unfold mbind at 1, M_bind at 1. pose proof (honest_map_err (ErrWrap "write audit log") _ (honest_insert_audit (audit_with id 0 log)) w3) as [Hs3 Ht3].
  rewrite Ht in Hs3, Ht3. destruct (map_err _ _ w3) as [[[]|e] w4] eqn:Ea; simpl in Hs3, Ht3; [|left; split; [done|by apply Hroll]].
  pose proof (commit_cases w4 _ Ht3 eq_refl) as Hc. destruct (commit_tx w4) as [r w5]. simpl in Hc |- *.
  destruct Hc as [Hc|[He Hc]].
  - right. rewrite Hc. apply map_err_Ok in Ea. unfold insert_audit, sql_now in Ea. apply bind_Ok in Ea as (now & w3' & Hn & Ea).
    rewrite Ht in Hn. injection Hn as <- <-. apply stmt_Ok in Ea as (Hi & _). apply insert_row_Ok in Hi as (Hk & _ & _ & Hdb).
    exists w2, w3, id, t. by split_and!.
  - by left.
Qed.

(** ** The triggers of the outbox *)

(** A new row of the outbox for each mutation, in order. *)
Inductive enqueued : list (string * string * string) -> gmap string OutboxRow -> gmap string OutboxRow -> Prop :=
  | enqueued_nil m : enqueued [] m m
  | enqueued_cons id entity row_id action now es m m' :
      m !! id = None -> enqueued es (<[id := mkOutboxRow id entity row_id action now]> m) m' ->
      enqueued ((entity, row_id, action) :: es) m m'.

Lemma enqueued_app es es' m m1 m2 : enqueued es m m1 -> enqueued es' m1 m2 -> enqueued (es ++ es') m m2.
Proof. induction 1; [done|]. intros H2. simpl. by eapply enqueued_cons, IHenqueued. Qed.

(** One statement's mutations of a table: entity, row, action.  Rows without an
    identifier have none. *)
Definition mutations (entity action : string) (ids : list string) : list (string * string * string) :=
  (fun id => (entity, id, action)) <$> List.filter (fun id => negb (streq id "")) ids.

Section triggers.
Context `{UUIDs}.

(** [licensehub_enqueue_audit_mutation], for each row of a statement. *)
Fixpoint enqueue (entity action : string) (now : Time) (n : nat) (ids : list string) (db : DB) : result goerr DB :=
  match ids with
  | [] => Ok db
  | id :: rest =>
      if streq id "" then enqueue entity action now n rest db
      else
        match insert_row audit_outbox (uuid_nth n) (mkOutboxRow (uuid_nth n) entity id action now) db with
        | Ok (_, db) => enqueue entity action now (S n) rest db
        | Err e => Err e
        end
  end.

(** A statement and the trigger it fires; [written] are the identifiers of the
    rows it writes.  [gen_random_uuid] draws from the supply of identifiers. *)
Definition with_trigger {A} (entity action : string) (written : DB -> list string) (f : DB -> result goerr (A * DB)) : M goerr A :=
  now ← sql_now;
  base ← gets w_ids;
  modify (fun w => set_ids (base + List.length (written (w_db w))) w) ;;
  stmt (fun db =>
    match f db with
    | Ok (a, db') =>
        match enqueue entity action now base (written db) db' with Ok db' => Ok (a, db') | Err e => Err e end
    | Err e => Err e
    end).

Section table.
Context {K R : Type} `{Countable K} (T : Table K R) (entity : string) (row_id : R -> string).

Definition ids_of (P : R -> bool) (db : DB) : list string := row_id <$> (map_to_list (rows P (t_get T db))).*2.

(** No statement here changes an identifier. *)
Definition update_triggered (P : R -> bool) (f : R -> R) : M goerr Z :=
  with_trigger entity "update" (ids_of P) (fun db =>
    let m := t_get T db in Ok (count P m, t_set T (update_rows P f m) db)).

Definition delete_triggered (P : R -> bool) : M goerr Z :=
  with_trigger entity "delete" (ids_of P) (fun db =>
    let m := t_get T db in Ok (count P m, t_set T (delete_rows P m) db)).

(** The row under the key, against the constraints of its table. *)
Definition update_checked_row (k : K) (f : R -> R) (db : DB) : result goerr (Z * DB) :=
  let m := t_get T db in
  match m !! k with
  | None => Ok (0, db)
  | Some r =>
      let r' := f r in
      if row_exists (fun r0 => t_conflict T r0 r') (delete k m) then Err (ErrSQL UniqueViolation)
      else match t_check T db r' with
           | Some e => Err (ErrSQL e)
           | None => Ok (1, t_set T (<[k := r']> m) db)
           end
  end.

Lemma update_checked_row_stmt k f : sql_update_checked T k f = stmt (update_checked_row k f).
Proof. done. Qed.

Definition update_checked_triggered (k : K) (f : R -> R) : M goerr Z :=
  with_trigger entity "update" (fun db => match t_get T db !! k with Some r => [row_id r] | None => [] end) (update_checked_row k f).
End table.

Lemma enqueue_enqueued entity action now n ids db db' :
  enqueue entity action now n ids db = Ok db' ->
  exists m, db' = t_set audit_outbox m db /\ enqueued (mutations entity action ids) (db_audit_outbox db) m.
Proof.
  revert n db. induction ids as [|id ids IH]; intros n db; simpl.
  { intros [= <-]. exists (db_audit_outbox db). split; [by destruct db|constructor]. }
  unfold mutations. simpl. destruct (streq id ""); simpl; [apply IH|].
  destruct (insert_row _ _ _ db) as [[u db1]|e] eqn:Ei; [|done]. apply insert_row_Ok in Ei as (Hn & _ & _ & ->).
  intros (m & -> & Hm)%IH. exists m. split; [done|]. by apply (enqueued_cons (uuid_nth n) entity id action now).
Qed.

Lemma still_trigger_ids (written : DB -> list string) base :
  still (modify (E := goerr) (fun w => set_ids (base + List.length (written (w_db w))) w)).
Proof. by intros w. Qed.

(** What holds after a statement with a trigger. *)
Lemma keeps_with_trigger {A} I entity action written (f : DB -> result goerr (A * DB)) :
  (forall db a db1 m, I db -> f db = Ok (a, db1) -> enqueued (mutations entity action (written db)) (db_audit_outbox db1) m ->
     I (t_set audit_outbox m db1)) ->
  keeps I (with_trigger entity action written f).
Proof.
  intros Hf. unfold with_trigger. apply keeps_bind; [apply keeps_sql_now|]. intros now. apply keeps_bind; [apply keeps_gets|].
  intros base. apply keeps_bind; [apply keeps_still, still_trigger_ids|]. intros []. apply keeps_stmt. intros db a db' Hi.
  destruct (f db) as [[a1 db1]|e] eqn:E; [|done]. destruct (enqueue _ _ _ _ _ db1) as [db2|e] eqn:Eq; [|done].
  intros [= <- <-]. apply enqueue_enqueued in Eq as (m & -> & Hm). by eapply Hf.
Qed.

(** The identifiers to come are none of the outbox. *)
Definition fresh_ids (w : World) : Prop :=
  (forall i j, uuid_nth i = uuid_nth j -> i = j) /\
  forall i, (w_ids w <= i)%nat -> db_audit_outbox (w_db w) !! uuid_nth i = None.

Lemma enqueue_run entity action now n ids db :
  (forall i j, uuid_nth i = uuid_nth j -> i = j) -> (forall i, (n <= i)%nat -> db_audit_outbox db !! uuid_nth i = None) ->
  exists m, enqueue entity action now n ids db = Ok (t_set audit_outbox m db) /\
    forall i, (n + List.length ids <= i)%nat -> m !! uuid_nth i = None.
Proof.
  intros Hinj. revert n db. induction ids as [|id ids IH]; intros n db Hf; simpl.
  { exists (db_audit_outbox db). split; [by destruct db|]. intros i Hi. apply Hf. lia. }
  destruct (streq id "").
  { destruct (IH n db Hf) as (m & E & Hm). exists m. split; [done|]. intros i Hi. apply Hm. lia. }
  unfold insert_row. change (t_get audit_outbox db) with (db_audit_outbox db). rewrite Hf by done.
  assert (row_exists (fun r => t_conflict audit_outbox r (mkOutboxRow (uuid_nth n) entity id action now)) (db_audit_outbox db) = false) as ->
    by by apply row_exists_false.
  simpl. destruct (IH (S n) (t_set audit_outbox (<[uuid_nth n := mkOutboxRow (uuid_nth n) entity id action now]> (db_audit_outbox db)) db))
    as (m & E & Hm).
  - intros i Hi. change (<[uuid_nth n := mkOutboxRow (uuid_nth n) entity id action now]> (db_audit_outbox db) !! uuid_nth i = None).
    rewrite lookup_insert_ne; [apply Hf; lia|]. intros Ei%Hinj. lia.
  - exists m. split; [exact E|]. intros i Hi. apply Hm. lia.
Qed.

(** The statement takes effect when nothing fails. *)
Lemma with_trigger_quiet {A} entity action written (f : DB -> result goerr (A * DB)) w a db1 :
  quiet w -> fresh_ids w -> f (w_db w) = Ok (a, db1) -> db_audit_outbox db1 = db_audit_outbox (w_db w) ->
  exists m w', with_trigger entity action written f w = (Ok a, w') /\ quiet w' /\ fresh_ids w' /\
    w_db w' = t_set audit_outbox m db1 /\ w_rand w' = w_rand w.
Proof.
  intros Hq [Hinj Hf] Ef Eo. unfold with_trigger. unfold mbind at 1, M_bind at 1. pose proof (quiet_still (sql_now (E := goerr)) w still_sql_now Hq) as Hq1.
  assert (exists now w1, sql_now (E := goerr) w = (Ok now, w1) /\ w_db w1 = w_db w /\ w_ids w1 = w_ids w /\ w_rand w1 = w_rand w)
    as (now & w1 & E & Hd & Hi & Hr).
  { unfold sql_now. rewrite (proj2 Hq). unfold time_Now. destruct (tick w) as [t ds]. by eexists _, _. }
  rewrite E in Hq1 |- *. simpl in Hq1. unfold mbind, M_bind, gets, modify. rewrite stmt_quiet by done.
  change (w_db (set_ids ?n w1)) with (w_db w1). rewrite Hd, Ef.
  destruct (enqueue_run entity action now (w_ids w1) (written (w_db w)) db1 Hinj) as (m & -> & Hm).
  { rewrite Eo, Hi. exact Hf. }
  exists m. eexists. split; [reflexivity|]. split_and!; [exact Hq1| |done|done].
  split; [exact Hinj|]. exact Hm.
Qed.
End triggers.
