(* ===== verification/Access.v ===== *)
(** * Who may call the administration ([middleware/auth.go], [store], [handler/admin.go])

    API keys with their scopes and their product, the middlewares in front of
    the routes under [/admin] and their order in [cmd/server/main.go], and the
    product test the handlers make.  A handler is any program of the request's
    context; the answer of a refused request is written by the middleware that
    refused it. *)

From S2P Require Import Prelude GoStrings Errors Model Crypto RateLimit World Tables Logic Store Sessions ReleaseStore.
From Stdlib Require Import Ascii String.

#[local] Open Scope string_scope.
#[local] Open Scope Z_scope.

(** ** API keys in the store *)

Definition HashAPIKey (raw : string) : string := sha256_hex raw.

(** [rand.Read]'s error is dropped. *)
Definition GenerateRawAPIKey {E} : M E string :=
  r ← randomHex 24; mret ("kg_live_" +:+ r).

Definition ak_set_hash (id hash : string) (ak : APIKey) : APIKey :=
  mkAPIKey id (ak_ProductID ak) (ak_Name ak) hash (ak_Prefix ak) (ak_Scopes ak) (ak_LastUsed ak)
    (ak_LastUsedIP ak) (ak_CreatedAt ak).

(** The row of an insertion: [created_at] defaults to [now()]. *)
Definition ak_row (now : Time) (ak : APIKey) : APIKey :=
  mkAPIKey (ak_ID ak) (ak_ProductID ak) (ak_Name ak) (ak_KeyHash ak) (ak_Prefix ak) (ak_Scopes ak) (ak_LastUsed ak)
    (ak_LastUsedIP ak) (or_now now (ak_CreatedAt ak)).

Definition ak_rotated (hash prefix : string) (ak : APIKey) : APIKey :=
  mkAPIKey (ak_ID ak) (ak_ProductID ak) (ak_Name ak) hash prefix (ak_Scopes ak) None "" (ak_CreatedAt ak).

Definition ak_touched (now : Time) (ip : string) (ak : APIKey) : APIKey :=
  mkAPIKey (ak_ID ak) (ak_ProductID ak) (ak_Name ak) (ak_KeyHash ak) (ak_Prefix ak) (ak_Scopes ak) (Some now) ip
    (ak_CreatedAt ak).

(** SQL's LIKE; [ILIKE] is the same on lower case. *)
Fixpoint like (pattern s : string) {struct pattern} : bool :=
  match pattern with
  | "" => streq s ""
  | String c p =>
      if Ascii.eqb c "%" then
        (fix any_suffix (s : string) : bool :=
           like p s || match s with "" => false | String _ s' => any_suffix s' end) s
      else
        match s with
        | "" => false
        | String d s' =>
            if Ascii.eqb c "_" then like p s'
            else if Ascii.eqb c "\" then
              match p with String e p' => Ascii.eqb e d && like p' s' | "" => false end
            else Ascii.eqb c d && like p s'
        end
  end.
Definition ilike (pattern s : string) : bool := like (ToLower pattern) (ToLower s).

Definition wanted (want have : string) : bool := streq want "" || streq have want.

Definition is_key (id : string) (ak : APIKey) : bool := streq (ak_ID ak) id.

Section store.
Context `{UUIDs}.

Definition store_CreateAPIKey (ak : APIKey) (rawKey : string) : M goerr APIKey :=
  id ← fresh_id (ak_ID ak);
  let ak := ak_set_hash id (HashAPIKey rawKey) ak in
  now ← sql_now;
  sql_insert api_keys (ak_ID ak) (ak_row now ak) ;;
  mret (ak_row now ak).

(** Newest first, each with its product. *)
Definition ListAPIKeys (productID search : string) : M goerr (list (APIKey * option Product)) := stmt (fun db =>
  let P ak := wanted productID (ak_ProductID ak)
              && (streq search "" || ilike ("%" +:+ search +:+ "%") (ak_Name ak)
                  || ilike ("%" +:+ search +:+ "%") (ak_Prefix ak)) in
  Ok ((fun ak => (ak, db_products db !! ak_ProductID ak)) <$>
        sort_by (fun ak => - ak_CreatedAt ak) (map_to_list (rows P (db_api_keys db))).*2, db)).

Definition FindAPIKeyByID (id : string) : M goerr APIKey := sql_select_one api_keys (is_key id).

Definition key_with (keyHash : string) (db : DB) : option APIKey :=
  first_row (rows (fun ak => streq (ak_KeyHash ak) keyHash) (db_api_keys db)).

(** The product is loaded with the key. *)
Definition FindProductByAPIKey (keyHash : string) : M goerr (option Product * APIKey) := stmt (fun db =>
  match key_with keyHash db with
  | Some ak => Ok ((db_products db !! ak_ProductID ak, ak), db)
  | None => Err ErrNoRows
  end).

(** Run in a goroutine of its own; here at once. *)
Definition TouchAPIKey {E} (id ip : string) : M E unit :=
  now ← sql_now;
  ignore (sql_update api_keys (is_key id) (ak_touched now ip)).

Definition RotateAPIKeyWithAudit (id rawKey prefix actorID ip : string) : M goerr unit :=
  RunAuditedMutation
    (Some (mkAuditLog "" "api_key" id "rotated" actorID "admin" {["secret_replaced" := AnyBool true]} ip 0))
    (n ← sql_update_checked api_keys id (ak_rotated (HashAPIKey rawKey) prefix);
     must_affect n (fun n => n =? 1) (ErrText "api key not found")).

Definition DeleteAPIKeyWithAudit (id actorID ip : string) : M goerr unit :=
  RunAuditedMutation
    (Some (mkAuditLog "" "api_key" id "deleted" actorID "admin" ∅ ip 0))
    (n ← sql_delete api_keys (is_key id);
     must_affect n (fun n => n =? 1) (ErrText "api key not found")).
End store.

(** ** The request's context *)

(** The values the middlewares set; [None] when a value was not set. *)
Record Context_ := mkContext {
  cx_user_id : option string;
  cx_email : option string;
  cx_is_admin : option bool;
  cx_auth_type : string;
  cx_auth_method : string;
  cx_api_key : option APIKey;
  cx_ip : string
}.

(** What a caller presents. *)
Record Credential := mkCredential {
  cr_Authorization : string;       (* the header *)
  cr_Session : option string;      (* the cookie *)
  cr_IP : string
}.

Definition extractBearer (header : string) : string :=
  if HasPrefix header "Bearer " then sdrop 7 header else "".

(** A refusal: status, code. *)
Definition Refusal : Type := Z * string.

Section middleware.
Context `{UUIDs} (jwt_parse : string -> string -> Time -> option Claims) (secret : string).

(** The bearer token, else the cookie. *)
Definition session_token (cred : Credential) : string :=
  let raw := extractBearer (cr_Authorization cred) in
  if streq raw "" then default "" (cr_Session cred) else raw.

Definition session_context {E} (cred : Credential) : M E (Context_ + Refusal) :=
  r ← sessionAuth jwt_parse secret (session_token cred);
  match r with
  | inl who => mret (inl (mkContext (Some (id_user who)) (Some (id_email who)) (Some (id_admin who)) "session"
                 (id_method who) None (cr_IP cred)))
  | inr (Failed status code) => mret (inr (status, code))
  | inr (OK _ _) => mret (inr (401, "UNAUTHORIZED"))
  end.

Definition sessionOrAPIKey {E} (cred : Credential) : M E (Context_ + Refusal) :=
  let raw := extractBearer (cr_Authorization cred) in
  if HasPrefix raw "kg_live_" then
    r ← attempt (FindProductByAPIKey (HashAPIKey raw));
    match r with
    | Err _ => mret (inr (401, "INVALID_API_KEY"))
    | Ok (_, ak) =>
        TouchAPIKey (ak_ID ak) (cr_IP cred) ;;
        mret (inl (mkContext (Some ("apikey:" +:+ ak_ID ak)) (Some ("apikey:" +:+ ak_ID ak)) None "api_key" ""
          (Some ak) (cr_IP cred)))
    end
  else session_context cred.
End middleware.

Definition AdminOnly (cx : Context_) : option Refusal :=
  match cx_user_id cx with
  | None => Some (401, "UNAUTHORIZED")
  | Some _ => match cx_is_admin cx with Some true => None | _ => Some (403, "FORBIDDEN") end
  end.

Definition RequirePasskeyStepUp (cx : Context_) : option Refusal :=
  if streq (cx_auth_type cx) "api_key" then None
  else if negb (streq (cx_auth_type cx) "session") || negb (streq (cx_auth_method cx) "webauthn")
  then Some (403, "PASSKEY_STEP_UP_REQUIRED") else None.

Definition RequireScope (allowed : list string) (cx : Context_) : option Refusal :=
  if streq (cx_auth_type cx) "session" then
    match cx_is_admin cx with Some true => None | _ => Some (403, "FORBIDDEN") end
  else if streq (cx_auth_type cx) "api_key" then
    match cx_api_key cx with
    | None => Some (403, "FORBIDDEN")
    | Some ak =>
        if contains ScopeAdmin (ak_Scopes ak) then None
        else if existsb (fun want => contains want (ak_Scopes ak)) allowed then None
        else Some (403, "INSUFFICIENT_SCOPE")
    end
  else Some (401, "UNAUTHORIZED").

(** *** The groups of [cmd/server/main.go] *)

Inductive Group := GroupAdmin | GroupLicWrite | GroupRelWrite.

Definition allowed_scopes (g : Group) : list string :=
  match g with
  | GroupAdmin => [ScopeAdmin]
  | GroupLicWrite => [ScopeAdmin; ScopeLicensesWrite]
  | GroupRelWrite => [ScopeAdmin; ScopeReleasesWrite]
  end.

(** [limiter] is the verdict of the rate limiter's store, [None] when it
    cannot be reached. *)
Definition rate_refusal (limiter : option bool) : option Refusal :=
  match rateLimit true limiter with Next => None | Abort status code => Some (status, code) end.

(** The chain in front of a route: what it lets through, or the refusal. *)
Definition authorize `{UUIDs} {E} (jwt_parse : string -> string -> Time -> option Claims) (secret : string) (g : Group)
    (limiter : option bool) (cred : Credential) : M E (Context_ + Refusal) :=
  r ← sessionOrAPIKey jwt_parse secret cred;
  match r with
  | inr no => mret (inr no)
  | inl cx =>
      match rate_refusal limiter with
      | Some no => mret (inr no)
      | None =>
          match RequirePasskeyStepUp cx with
          | Some no => mret (inr no)
          | None => match RequireScope (allowed_scopes g) cx with
                    | Some no => mret (inr no)
                    | None => mret (inl cx)
                    end
          end
      end
  end.

(** ** What the handlers ask of the context *)

Definition adminID (cx : Context_) : string := default "" (cx_user_id cx).

Definition requireKeyProductScope (cx : Context_) (resourceProductID : string) : bool :=
  match cx_api_key cx with
  | None => true
  | Some ak => streq (ak_ProductID ak) "" || streq (ak_ProductID ak) resourceProductID
  end.

(** ** The handlers of the keys *)

Definition validateScopes (scopes : list string) : bool := forallb IsValidScope scopes.

(** [KeySecret] shows the raw key, this once. *)
Inductive KeyAnswer :=
  | KeyList (keys : list (APIKey * option Product))
  | KeySecret (status : Z) (ak : APIKey) (rawKey prefix : string)
  | KeyDeleted
  | KeyFailed (status : Z) (code message : string).

Definition key_internal : KeyAnswer := KeyFailed 500 "INTERNAL_ERROR" "an internal error occurred".
Definition key_not_found (message : string) : KeyAnswer := KeyFailed 404 "NOT_FOUND" message.
Definition key_bad (message : string) : KeyAnswer := KeyFailed 400 "BAD_REQUEST" message.

Section keys.
Context `{UUIDs} (cx : Context_).

Definition ListAPIKeys_ (productID search : string) : M goerr KeyAnswer :=
  r ← attempt (ListAPIKeys productID search);
  mret (match r with Ok ks => KeyList ks | Err _ => key_internal end).

(** [if req.ProductID != "" { ... }]: whether the product named exists. *)
Definition product_known (productID : string) : M goerr bool :=
  if streq productID "" then mret true
  else r ← attempt (FindProductByID productID); mret (match r with Ok _ => true | Err _ => false end).

Definition new_api_key (productID name : string) (scopes : list string) : M goerr KeyAnswer :=
  rawKey ← GenerateRawAPIKey;
  let prefix := stake 12 rawKey in
  r ← attempt (store_CreateAPIKey (mkAPIKey "" productID name "" prefix scopes None "" 0) rawKey);
  match r with
  | Err _ => mret key_internal
  | Ok ak =>
      Audit (mkAuditLog "" "api_key" (ak_ID ak) "created" (adminID cx) "admin"
        {["name" := AnyString name; "product_id" := AnyString productID; "scopes" := AnyStrings scopes]} "" 0) ;;
      mret (KeySecret 201 ak rawKey prefix)
  end.

(** The body: product, name, scopes; [None] when it does not bind. *)
Definition CreateAPIKey_ (req : option (string * string * list string)) : M goerr KeyAnswer :=
  match req with
  | None => mret (key_bad "name is required")
  | Some (productID, name, scopes) =>
      known ← product_known productID;
      if negb known then mret (key_not_found "product not found")
      else match ValidateName "name" name with
           | Some e => mret (key_bad (Message e))
           | None =>
               if negb (validateScopes scopes) then mret (key_bad "unknown scope") else new_api_key productID name scopes
           end
  end.

Definition RotateAPIKey_ (id : string) : M goerr KeyAnswer :=
  r ← attempt (FindAPIKeyByID id);
  match r with
  | Err _ => mret (key_not_found "api key not found")
  | Ok ak =>
      rawKey ← GenerateRawAPIKey;
      let prefix := stake 12 rawKey in
      r ← attempt (RotateAPIKeyWithAudit (ak_ID ak) rawKey prefix (adminID cx) (cx_ip cx));
      mret (match r with Ok _ => KeySecret 200 ak rawKey prefix | Err _ => key_internal end)
  end.

Definition DeleteAPIKey_ (id : string) : M goerr KeyAnswer :=
  r ← attempt (DeleteAPIKeyWithAudit id (adminID cx) (cx_ip cx));
  mret (match r with Ok _ => KeyDeleted | Err _ => key_internal end).
End keys.
