(* ===== verification/AdminLicense.v ===== *)
(** * Licences in the administration ([handler/admin.go])

    Every handler of the routes that a [licenses:write] key may call, over the
    store, and the table of those routes in [cmd/server/main.go].  A request
    whose body does not bind is [None]. *)

From S2P Require Import Prelude GoStrings Errors Model Crypto KeyGen GoTime RateLimit World Tables Logic AesGcm Store Webhook.
From S2P Require Import Usage Entitlement Seats Floating Sessions ReleaseStore Payments Access.
From Stdlib Require Import Ascii String.

#[local] Open Scope string_scope.
#[local] Open Scope Z_scope.

Record AdminHandler := mkAdminHandler {
  ah_Webhook : bool;            (* Webhook != nil *)
  ah_Email : option bool;       (* Email, and whether it is configured *)
  ah_AEAD : option AESGCM
}.

(** A created licence is answered without the instants the server fills in. *)
Inductive Answer :=
  | Answered (status : Z) (data : gmap string any)
  | AnsweredLicense (status : Z) (l : License)
  | AnsweredLicenses (ls : list License) (total : Z)
  | AnsweredUsage (events : list UsageEvent) (counters : list UsageCounter) (total : Z)
  | AnsweredSeats (ss : list Seat) (active : Z)
  | AnsweredAddon (la : LicenseAddon)
  | AnsweredAddons (las : list LicenseAddon)
  | AnsweredSessions (ss : list FloatingSession) (active : Z)
  | Exported (format : string) (rows : list (list string))
  | NoContent
  | Refused (status : Z) (code message : string).

Definition bad (message : string) : Answer := Refused 400 "BAD_REQUEST" message.
Definition not_found (message : string) : Answer := Refused 404 "NOT_FOUND" message.
Definition internal_error : Answer := Refused 500 "INTERNAL_ERROR" "an internal error occurred".
Definition out_of_scope : Answer :=
  Refused 403 "PRODUCT_SCOPE_MISMATCH" "api_key is bound to a different product".

(** ** Queries of the store *)

Record LicenseListFilter := mkLicenseFilter {
  lf_ProductID : string; lf_Status : string; lf_Search : string; lf_ExternalCustomerID : string;
  lf_ExternalWorkspaceID : string; lf_Offset : Z; lf_Limit : Z
}.

Definition license_matches (f : LicenseListFilter) (l : License) : bool :=
  wanted (lf_ProductID f) (lic_ProductID l) && wanted (lf_Status f) (lic_Status l)
  && wanted (lf_ExternalCustomerID f) (lic_ExternalCustomerID l)
  && wanted (lf_ExternalWorkspaceID f) (lic_ExternalWorkspaceID l)
  && (streq (lf_Search f) "" || ilike ("%" +:+ lf_Search f +:+ "%") (lic_Email l)
      || like (lf_Search f +:+ "%") (lic_LicenseKey l)).

(** OFFSET and LIMIT are left out of the query unless positive. *)
Definition page {A} (offset limit : Z) (l : list A) : list A :=
  let l := drop (Z.to_nat offset) l in if 0 <? limit then take (Z.to_nat limit) l else l.

Definition newest_licenses (P : License -> bool) (db : DB) : list License :=
  load_license db <$> sort_by (fun l => - lic_CreatedAt l) (map_to_list (rows P (db_licenses db))).*2.

Definition ListLicenses (f : LicenseListFilter) : M goerr (list License * Z) :=
  total ← sql_count licenses (license_matches f);
  ls ← stmt (fun db => Ok (page (lf_Offset f) (lf_Limit f) (newest_licenses (license_matches f) db), db));
  mret (ls, total).

Definition store_ExportLicenses (productID status : string) : M goerr (list License) := stmt (fun db =>
  Ok (newest_licenses (fun l => wanted productID (lic_ProductID l) && wanted status (lic_Status l)) db, db)).

Definition GetLicenseProductID (id : string) : M goerr string := stmt (fun db =>
  match first_row (rows (fun l => streq (lic_ID l) id) (db_licenses db)) with
  | Some l => Ok (lic_ProductID l, db)
  | None => Err ErrNoRows
  end).

(** [activations a JOIN licenses l ON l.id = a.license_id]. *)
Definition GetActivationProductID (id : string) : M goerr string := stmt (fun db =>
  match first_row (rows (fun a => streq (act_ID a) id && present (db_licenses db !! act_LicenseID a)) (db_activations db)) with
  | Some a => match db_licenses db !! act_LicenseID a with Some l => Ok (lic_ProductID l, db) | None => Err ErrNoRows end
  | None => Err ErrNoRows
  end).

Definition DeleteActivationByID (id : string) : M goerr unit :=
  sql_delete activations (fun a => streq (act_ID a) id) ;; mret tt.

Definition ListUsageEvents (licenseID feature : string) (offset limit : Z) : M goerr (list UsageEvent * Z) :=
  let mine e := streq (ue_LicenseID e) licenseID && wanted feature (ue_Feature e) in
  total ← sql_count usage_events mine;
  es ← stmt (fun db => Ok (page offset limit
         (sort_by (fun e => - ue_RecordedAt e) (map_to_list (rows mine (db_usage_events db))).*2), db));
  mret (es, total).

(** [ORDER BY feature, period]. *)
Definition counter_before (c c' : UsageCounter) : bool :=
  match String.compare (uc_Feature c) (uc_Feature c') with
  | Lt => true
  | Gt => false
  | Eq => match String.compare (uc_Period c) (uc_Period c') with Gt => false | _ => true end
  end.

Definition GetUsageSummary (licenseID : string) : M goerr (list UsageCounter) := stmt (fun db =>
  Ok (sort_le counter_before
        (map_to_list (rows (fun c => streq (uc_LicenseID c) licenseID) (db_usage_counters db))).*2, db)).

(** ** Requests *)

Record CreateLicenseRequest := mkCreateLicense {
  cl_product : string; cl_plan : string; cl_email : string; cl_notes : string;
  cl_customer : string; cl_workspace : string; cl_valid_until : string
}.
Record ResetUsageRequest := mkResetUsage { ru_feature : string; ru_period : string; ru_period_key : string }.

(** The routes with the parameters they read. *)
Inductive LicenseRoute :=
  | RListLicenses (f : LicenseListFilter)
  | RExportLicenses (format : option string) (productID status : string)
  | RGetLicense (id : string)
  | RCreateLicense (req : option CreateLicenseRequest)
  | RRefundLicense (id : string)
  | RRevokeLicense (id : string)
  | RSuspendLicense (id : string)
  | RReinstateLicense (id : string)
  | RSetValidUntil (id : string) (req : option string)
  | RChangePlan (id : string) (req : option string)
  | RListUsage (id feature : string) (offset limit : Z)
  | RResetUsage (id : string) (req : option ResetUsageRequest)
  | RListSeats (id : string)
  | RListAddons (id : string)
  | RAddAddon (id : string) (req : option string)
  | RRemoveAddon (id addonID : string)
  | RListFloating (id : string)
  | RDeleteActivation (id : string).

Section handlers.
Context `{UUIDs} `{GCM} `{Stripe} (h : AdminHandler).
(** [time.Parse(time.RFC3339, s)] and [mail.ParseAddress]. *)
Context (parse_RFC3339 : string -> option Time) (mail_ParseAddress : string -> option string).
Context (cx : Context_).

Definition admin_dispatch (productID event : string) (data : gmap string any) : M goerr unit :=
  if ah_Webhook h then Dispatch productID event data else mret tt.

Definition email_ready : bool := match ah_Email h with Some configured => configured | None => false end.

Definition admin_audit (id action : string) (changes : gmap string any) : M goerr unit :=
  Audit (mkAuditLog "" "license" id action (adminID cx) "admin" changes "" 0).

Definition product_name_of (productID : string) : M goerr string :=
  r ← attempt (FindProductByID productID);
  mret (match r with Ok p => prod_Name p | Err _ => "" end).

(** [if !requireKeyProductScope(c, productID) { return }]. *)
Definition scoped (productID : string) (k : M goerr Answer) : M goerr Answer :=
  if requireKeyProductScope cx productID then k else mret out_of_scope.

(** [checkLicenseScope]. *)
Definition checkLicenseScope (licenseID : string) (k : M goerr Answer) : M goerr Answer :=
  r ← attempt (GetLicenseProductID licenseID);
  match r with
  | Err _ => mret (not_found "license not found")
  | Ok pid => scoped pid k
  end.

(** [lic, err := FindLicenseByID; if err == nil { ... }]. *)
Definition if_found (id : string) (k : License -> M goerr unit) : M goerr unit :=
  r ← attempt (FindLicenseByID id);
  match r with Ok lic => k lic | Err _ => mret tt end.

Definition license_data (id : string) (lic : License) : gmap string any :=
  {["license_id" := AnyString id; "email" := AnyString (lic_Email lic)]}.

Definition list_licenses (f : LicenseListFilter) : M goerr Answer :=
  let run productID :=
    r ← attempt (ListLicenses (mkLicenseFilter productID (lf_Status f) (lf_Search f) (lf_ExternalCustomerID f)
                   (lf_ExternalWorkspaceID f) (lf_Offset f) (lf_Limit f)));
    mret (match r with Ok (ls, total) => AnsweredLicenses ls total | Err _ => internal_error end) in
  match cx_api_key cx with
  | Some ak =>
      if streq (ak_ProductID ak) "" then run (lf_ProductID f)
      else if negb (streq (lf_ProductID f) "") && negb (streq (lf_ProductID f) (ak_ProductID ak)) then mret out_of_scope
      else run (ak_ProductID ak)
  | None => run (lf_ProductID f)
  end.

Definition export_row (l : License) : M goerr (list string) :=
  key ← DecryptLicenseKey (ah_AEAD h) (Some l);
  mret [lic_ID l; lic_Email l; match lic_Product l with Some p => prod_Name p | None => "" end;
        match lic_Plan l with Some p => plan_Name p | None => "" end; lic_Status l; key;
        format_RFC3339 (lic_ValidFrom l); match lic_ValidUntil l with Some t => format_RFC3339 t | None => "" end;
        format_RFC3339 (lic_CreatedAt l)].

Fixpoint export_rows (ls : list License) : M goerr (list (list string)) :=
  match ls with
  | [] => mret []
  | l :: ls => row ← export_row l; rows ← export_rows ls; mret (row :: rows)
  end.

(** The rows of the CSV, or the fields of the JSON objects; the file's name
    carries the date. *)
Definition ExportLicenses (format : option string) (productID status : string) : M goerr Answer :=
  let format := default "csv" format in
  if negb (streq format "csv") && negb (streq format "json") then mret (bad "format must be csv or json")
  else
    r ← attempt (store_ExportLicenses productID status);
    match r with
    | Err _ => mret internal_error
    | Ok ls => _ ← time_Now; rows ← export_rows ls; mret (Exported format rows)
    end.

Definition GetLicense (id : string) : M goerr Answer :=
  r ← attempt (FindLicenseByID id);
  match r with
  | Err _ => mret (not_found "license not found")
  | Ok l => scoped (lic_ProductID l) (mret (AnsweredLicense 200 l))
  end.

(** [Some (inl message)] refuses the date, [Some (inr t)] is a date to come. *)
Definition parse_future (s message : string) : M goerr (option (string + Time)) :=
  if streq s "" then mret None
  else match parse_RFC3339 s with
       | None => mret (Some (inl message))
       | Some ts =>
           now ← time_Now;
           mret (Some (if After ts now then inr ts else inl "valid_until must be in the future"))
       end.

(** The licence the request makes; its expiry is the request's, else the
    trial's. *)
Definition new_license (req : CreateLicenseRequest) (plan : Plan) (until : option Time) : M goerr License :=
  key ← generate_key "";
  until ← match until with Some t => mret (Some t) | None => trial_until plan end;
  mret (mkLicense "" (cl_product req) (cl_plan req) "" (cl_email req) key "" "" "" "" "" (checkout_status plan) 0
    until None None None (cl_notes req) "" (cl_customer req) (cl_workspace req) 0 0 None None).

Definition announce_license (req : CreateLicenseRequest) (plan : Plan) (l : License) : M goerr Answer :=
  admin_audit (lic_ID l) "created" {["email" := AnyString (cl_email req); "plan_id" := AnyString (cl_plan req)]} ;;
  admin_dispatch (lic_ProductID l) "license.created"
    {["license_id" := AnyString (lic_ID l); "email" := AnyString (cl_email req); "plan_id" := AnyString (cl_plan req)]} ;;
  (if email_ready then
     name ← product_name_of (lic_ProductID l);
     emit (EvEmail "license_created" (cl_email req) [name; plan_Name plan; lic_LicenseKey l])
   else mret tt) ;;
  mret (AnsweredLicense 201 l).

Definition create_license (req : CreateLicenseRequest) (until : option Time) : M goerr Answer :=
  r ← attempt (FindPlanByID (cl_plan req));
  match r with
  | Err _ => mret (not_found "plan not found")
  | Ok plan =>
      if negb (streq (plan_ProductID plan) (cl_product req))
      then mret (Refused 400 "PLAN_PRODUCT_MISMATCH" "plan does not belong to the requested product")
      else scoped (cl_product req) (
        l ← new_license req plan until;
        r ← attempt (CreateLicenseWithSubscription (ah_AEAD h) l (Some plan));
        match r with Err _ => mret internal_error | Ok l => announce_license req plan l end)
  end.

Definition CreateLicense (req : option CreateLicenseRequest) : M goerr Answer :=
  match req with
  | None => mret (bad "product_id, plan_id, and email are required")
  | Some req =>
      match ValidateEmail mail_ParseAddress (cl_email req) with
      | Some e => mret (bad (Message e))
      | None =>
          if 256 <? len (cl_customer req) then mret (bad "external_customer_id must be ≤ 256 chars")
          else if 256 <? len (cl_workspace req) then mret (bad "external_workspace_id must be ≤ 256 chars")
          else
            until ← parse_future (cl_valid_until req) "valid_until must be an RFC 3339 timestamp";
            match until with
            | Some (inl message) => mret (bad message)
            | Some (inr t) => create_license req (Some t)
            | None => create_license req None
            end
      end
  end.

Definition RevokeLicense_ (id : string) : M goerr Answer :=
  checkLicenseScope id (
    r ← attempt (RevokeLicenseWithAudit id (adminID cx) (cx_ip cx));
    match r with
    | Err e => mret (not_found (goerr_Error e))
    | Ok _ =>
        (if ah_Webhook h then
           if_found id (fun lic => Dispatch (lic_ProductID lic) "license.revoked" (license_data id lic))
         else mret tt) ;;
        mret (Answered 200 {["status" := AnyString "revoked"]})
    end).

(** The licence is revoked whatever Stripe answered. *)
Definition refund (id : string) (lic : License) : M goerr Answer :=
  let sub := lic_StripeSubscriptionID lic in
  r ← stripe_call "subscription.Cancel" [sub] (fun n => st_cancel n sub);
  let result := match r with Ok _ => "stripe_subscription_canceled" | Err _ => "stripe_cancel_failed" end in
  let lic' := lic_billing StatusRevoked (lic_ValidUntil lic) (lic_CanceledAt lic) (lic_SuspendedAt lic)
                (lic_PastDueAt lic) lic in
  u ← attempt (UpdateLicenseAndSubscription lic' [ColStatus]);
  match u with
  | Err _ => mret internal_error
  | Ok _ =>
      admin_audit id "refunded" {["provider_result" := AnyString result]} ;;
      admin_dispatch (lic_ProductID lic) "license.revoked" (<["reason" := AnyString "refund"]> (license_data id lic)) ;;
      mret (Answered 200 {["status" := AnyString "refunded"; "provider_result" := AnyString result]})
  end.

Definition RefundLicense (id : string) : M goerr Answer :=
  r ← attempt (FindLicenseByID id);
  match r with
  | Err _ => mret (not_found "license not found")
  | Ok lic => scoped (lic_ProductID lic) (
      if streq (lic_StripeSubscriptionID lic) "" then mret (bad "license has no payment subscription to refund")
      else refund id lic)
  end.

Definition tell_suspended (id : string) : M goerr unit :=
  if_found id (fun lic =>
    admin_dispatch (lic_ProductID lic) "license.suspended" (license_data id lic) ;;
    if email_ready && negb (streq (lic_Email lic) "") then
      name ← product_name_of (lic_ProductID lic);
      emit (EvEmail "license_suspended" (lic_Email lic) [name; ""])
    else mret tt).

Definition SuspendLicense_ (id : string) : M goerr Answer :=
  checkLicenseScope id (
    r ← attempt (SuspendLicense id);
    match r with
    | Err e => mret (not_found (goerr_Error e))
    | Ok _ =>
        admin_audit id "suspended" ∅ ;;
        tell_suspended id ;;
        mret (Answered 200 {["status" := AnyString "suspended"]})
    end).

Definition ReinstateLicense_ (id : string) : M goerr Answer :=
  checkLicenseScope id (
    r ← attempt (ReinstateLicense id);
    match r with
    | Err e => mret (bad (goerr_Error e))
    | Ok _ =>
        admin_audit id "reinstated" ∅ ;;
        (if ah_Webhook h then
           if_found id (fun lic => Dispatch (lic_ProductID lic) "license.reinstated" (license_data id lic))
         else mret tt) ;;
        mret (Answered 200 {["status" := AnyString "active"]})
    end).

Definition lic_set_until (until : option Time) (l : License) : License :=
  lic_billing (lic_Status l) until (lic_CanceledAt l) (lic_SuspendedAt l) (lic_PastDueAt l) l.

Definition set_valid_until (id text : string) (until : option Time) (lic : License) : M goerr Answer :=
  let lic' := lic_set_until until lic in
  r ← attempt (UpdateLicense lic' [ColValidUntil]);
  match r with
  | Err _ => mret internal_error
  | Ok _ =>
      admin_audit id "valid_until_changed" {["valid_until" := AnyString text]} ;;
      admin_dispatch (lic_ProductID lic) "license.expiry_changed"
        (<["valid_until" := match until with Some t => AnyString (format_RFC3339 t) | None => AnyNil end]>
          (license_data id lic)) ;;
      mret (AnsweredLicense 200 lic')
  end.

Definition SetLicenseValidUntil (id : string) (req : option string) : M goerr Answer :=
  checkLicenseScope id (
    match req with
    | None => mret (bad "invalid request body")
    | Some text =>
        r ← attempt (FindLicenseByID id);
        match r with
        | Err _ => mret (not_found "license not found")
        | Ok lic =>
            if streq (lic_PaymentProvider lic) "stripe"
            then mret (Refused 409 "STRIPE_MANAGED" "expiry for Stripe-billed licenses is managed by the subscription")
            else
              until ← parse_future text "valid_until must be an RFC 3339 timestamp or empty";
              match until with
              | Some (inl message) => mret (bad message)
              | Some (inr t) => set_valid_until id text (Some t) lic
              | None => set_valid_until id text None lic
              end
        end
    end).

Definition DeleteActivation (id : string) : M goerr Answer :=
  r ← attempt (GetActivationProductID id);
  match r with
  | Err _ => mret (not_found "activation not found")
  | Ok pid => scoped pid (
      r ← attempt (DeleteActivationByID id);
      mret (match r with Ok _ => NoContent | Err _ => internal_error end))
  end.

Definition tell_plan_changed (l : License) (oldPlanID : string) (plan : Plan) : M goerr unit :=
  if email_ready && negb (streq (lic_Email l) "") then
    name ← product_name_of (lic_ProductID l);
    old ← attempt (FindPlanByID oldPlanID);
    emit (EvEmail "plan_changed" (lic_Email l) [name; match old with Ok p => plan_Name p | Err _ => "" end; plan_Name plan])
  else mret tt.

Definition change_license_plan (id planID : string) (l : License) (plan : Plan) : M goerr Answer :=
  r ← attempt (UpdateLicense (lic_set_plan planID l) [ColPlanID]);
  match r with
  | Err _ => mret internal_error
  | Ok _ =>
      admin_audit id "plan_changed" {["old_plan_id" := AnyString (lic_PlanID l); "new_plan_id" := AnyString planID]} ;;
      admin_dispatch (lic_ProductID l) "plan.changed"
        {["license_id" := AnyString id; "old_plan_id" := AnyString (lic_PlanID l); "new_plan_id" := AnyString planID]} ;;
      tell_plan_changed l (lic_PlanID l) plan ;;
      mret (Answered 200 {["status" := AnyString "plan_changed"; "plan_id" := AnyString planID]})
  end.

Definition ChangeLicensePlan (id : string) (req : option string) : M goerr Answer :=
  match req with
  | None => mret (bad "plan_id is required")
  | Some planID =>
      r ← attempt (FindLicenseByID id);
      match r with
      | Err _ => mret (not_found "license not found")
      | Ok l => scoped (lic_ProductID l) (
          p ← attempt (FindPlanByID planID);
          match p with
          | Err _ => mret (not_found "plan not found")
          | Ok plan =>
              if negb (streq (plan_ProductID plan) (lic_ProductID l))
              then mret (bad "plan must belong to the same product")
              else change_license_plan id planID l plan
          end)
      end
  end.

Definition ListLicenseUsage (id feature : string) (offset limit : Z) : M goerr Answer :=
  checkLicenseScope id (
    r ← attempt (ListUsageEvents id feature offset limit);
    match r with
    | Err _ => mret internal_error
    | Ok (events, total) =>
        c ← attempt (GetUsageSummary id);
        mret (AnsweredUsage events (match c with Ok cs => cs | Err _ => [] end) total)
    end).

Definition ResetLicenseUsage (id : string) (req : option ResetUsageRequest) : M goerr Answer :=
  checkLicenseScope id (
    match req with
    | None => mret (bad "feature is required")
    | Some req =>
        let period := if streq (ru_period req) "" then "monthly" else ru_period req in
        key ← (if streq (ru_period_key req) "" then now ← time_Now; mret (CurrentPeriodKey period now)
               else mret (ru_period_key req));
        r ← attempt (ResetUsageCounter id (ru_feature req) period key);
        match r with
        | Err _ => mret internal_error
        | Ok _ =>
            admin_audit id "usage_reset"
              {["feature" := AnyString (ru_feature req); "period" := AnyString period; "period_key" := AnyString key]} ;;
            mret (Answered 200 {["status" := AnyString "reset"]})
        end
    end).

Definition ListLicenseSeats (id : string) : M goerr Answer :=
  checkLicenseScope id (
    r ← attempt (ListSeats id);
    match r with
    | Err _ => mret internal_error
    | Ok ss => n ← attempt (CountActiveSeats id); mret (AnsweredSeats ss (match n with Ok n => n | Err _ => 0 end))
    end).

(** The store fills in the identifier. *)
Definition AddLicenseAddon_ (id : string) (req : option string) : M goerr Answer :=
  checkLicenseScope id (
    match req with
    | None => mret (bad "addon_id is required")
    | Some addonID =>
        new ← newID;
        let la := mkLicenseAddon new id addonID true None in
        r ← attempt (AddLicenseAddon la);
        mret (match r with Ok _ => AnsweredAddon la | Err _ => internal_error end)
    end).

Definition RemoveLicenseAddon_ (id addonID : string) : M goerr Answer :=
  checkLicenseScope id (
    r ← attempt (RemoveLicenseAddon id addonID);
    mret (match r with Ok _ => NoContent | Err _ => internal_error end)).

Definition ListLicenseAddons_ (id : string) : M goerr Answer :=
  checkLicenseScope id (
    r ← attempt (ListLicenseAddons id);
    mret (match r with Ok las => AnsweredAddons las | Err _ => internal_error end)).

Definition ListFloatingSessions_ (id : string) : M goerr Answer :=
  checkLicenseScope id (
    r ← attempt (ListFloatingSessions id);
    match r with
    | Err _ => mret internal_error
    | Ok ss => n ← attempt (CountActiveFloating id); mret (AnsweredSessions ss (match n with Ok n => n | Err _ => 0 end))
    end).

Definition license_route (r : LicenseRoute) : M goerr Answer :=
  match r with
  | RListLicenses f => list_licenses f
  | RExportLicenses format productID status => ExportLicenses format productID status
  | RGetLicense id => GetLicense id
  | RCreateLicense req => CreateLicense req
  | RRefundLicense id => RefundLicense id
  | RRevokeLicense id => RevokeLicense_ id
  | RSuspendLicense id => SuspendLicense_ id
  | RReinstateLicense id => ReinstateLicense_ id
  | RSetValidUntil id req => SetLicenseValidUntil id req
  | RChangePlan id req => ChangeLicensePlan id req
  | RListUsage id feature offset limit => ListLicenseUsage id feature offset limit
  | RResetUsage id req => ResetLicenseUsage id req
  | RListSeats id => ListLicenseSeats id
  | RListAddons id => ListLicenseAddons_ id
  | RAddAddon id req => AddLicenseAddon_ id req
  | RRemoveAddon id addonID => RemoveLicenseAddon_ id addonID
  | RListFloating id => ListFloatingSessions_ id
  | RDeleteActivation id => DeleteActivation id
  end.
End handlers.

(** A request of the group: the chain, then the handler. *)
Definition serve_license `{UUIDs} `{GCM} `{Stripe} (h : AdminHandler) (parse_RFC3339 : string -> option Time)
    (mail_ParseAddress : string -> option string) (jwt_parse : string -> string -> Time -> option Claims) (secret : string)
    (limiter : option bool) (cred : Credential) (r : LicenseRoute) : M goerr Answer :=
  a ← authorize jwt_parse secret GroupLicWrite limiter cred;
  match a with
  | inr (status, code) => mret (Refused status code "")
  | inl cx => license_route h parse_RFC3339 mail_ParseAddress cx r
  end.
