(* ===== verification/Confinement.v ===== *)
(** * What a product's key may reach

    [others_kept p db db']: the licences of every other product, and the rows
    that hang on them, are the same in [db'] as in [db].  The writes of the
    store that keep it, and the calculus [yields] for programs whose answers
    speak of one product only. *)

From S2P Require Import Prelude GoStrings Errors Model Crypto World Tables Logic AesGcm Store Webhook Usage Entitlement.
From S2P Require Import Lookup Expiry ExpiryProps.
From Stdlib Require Import Ascii String.

#[local] Open Scope string_scope.
#[local] Open Scope Z_scope.

(** ** Selected rows after a write *)

Section rows.
Context {K R : Type} `{Countable K} (F : R -> bool).
Implicit Types (m : gmap K R).

Lemma rows_insert_out m k r :
  (forall r0, m !! k = Some r0 -> F r0 = false) -> F r = false -> rows F (<[k := r]> m) = rows F m.
Proof.
  intros Hold Hr. apply map_eq. intros k'. apply option_eq. intros x. rewrite !lookup_rows.
  destruct (decide (k = k')) as [<-|Hne].
  - rewrite lookup_insert_eq. split; [naive_solver congruence|]. intros [Hx Fx]. specialize (Hold x Hx). congruence.
  - by rewrite lookup_insert_ne.
Qed.

Lemma rows_update_out (P : R -> bool) f m :
  (forall k r, m !! k = Some r -> P r = true -> F r = false /\ F (f r) = false) -> rows F (update_rows P f m) = rows F m.
Proof.
  intros Hp. apply map_eq. intros k. apply option_eq. intros x. rewrite !lookup_rows, lookup_update_rows.
  destruct (m !! k) as [r|] eqn:Hk; simpl; [|naive_solver]. specialize (Hp k r Hk). destruct (P r); [|done].
  destruct Hp as [H1 H2]; [done|]. naive_solver congruence.
Qed.

Lemma rows_delete_out (P : R -> bool) m :
  (forall k r, m !! k = Some r -> P r = true -> F r = false) -> rows F (delete_rows P m) = rows F m.
Proof.
  intros Hp. apply map_eq. intros k. apply option_eq. intros x. rewrite !lookup_rows, lookup_delete_rows.
  split; [naive_solver|]. intros [Hk Fx]. split; [|done]. split; [done|]. destruct (P x) eqn:E; [|done].
  specialize (Hp k x Hk E). congruence.
Qed.
End rows.

(** ** Programs whose answers satisfy a predicate, keeping an invariant *)

Definition yields {E A} (I : DB -> Prop) (m : M E A) (F : A -> Prop) : Prop :=
  forall w, safe I w -> safe I (snd (m w)) /\ match fst (m w) with Ok a => F a | Err _ => True end.

Section yields.
Context (I : DB -> Prop).

Lemma yields_ret {E A} (a : A) (F : A -> Prop) : F a -> yields (E := E) I (mret a) F.
Proof. by intros Ha w Hs. Qed.
Lemma yields_keeps {E A} (m : M E A) : keeps I m -> yields I m (fun _ => True).
Proof. intros Hm w Hs. split; [by apply Hm|]. by destruct (fst (m w)). Qed.
Lemma yields_fact {E A} (m : M E A) (F : A -> Prop) :
  keeps I m -> (forall w a w', I (w_db w) -> m w = (Ok a, w') -> F a) -> yields I m F.
Proof.
  intros Hm HF w Hs. split; [by apply Hm|]. destruct (m w) as [[a|e] w'] eqn:Em; [|done]. eapply HF; [apply Hs|exact Em].
Qed.
Lemma keeps_yields {E A} (m : M E A) F : yields I m F -> keeps I m.
Proof. intros Hm w Hs. by apply Hm. Qed.
Lemma yields_weaken {E A} (m : M E A) (F G : A -> Prop) : yields I m F -> (forall a, F a -> G a) -> yields I m G.
Proof. intros Hm HF w Hs. destruct (Hm w Hs) as [H1 H2]. split; [done|]. destruct (fst (m w)); auto. Qed.

Lemma yields_bind {E A B} (m : M E A) (k : A -> M E B) F G :
  yields I m F -> (forall a, F a -> yields I (k a) G) -> yields I (m ≫= k) G.
Proof.
  intros Hm Hk w Hs. unfold mbind, M_bind. destruct (Hm w Hs) as [H1 H2].
  destruct (m w) as [[a|e] w']; simpl in *; [by apply Hk|done].
Qed.
Lemma yields_then {E A B} (m : M E A) (k : A -> M E B) G :
  keeps I m -> (forall a, yields I (k a) G) -> yields I (m ≫= k) G.
Proof. intros Hm Hk. apply (yields_bind _ _ (fun _ => True)); [by apply yields_keeps|auto]. Qed.

Lemma yields_attempt {E E' A} (m : M E A) F :
  yields I m F -> yields (E := E') I (attempt m) (fun r => match r with Ok a => F a | Err _ => True end).
Proof. intros Hm w Hs. unfold attempt. destruct (Hm w Hs). by destruct (m w). Qed.

(** A query: what it answers, of tables that satisfy the invariant. *)
Lemma yields_read {A} (f : DB -> result goerr (A * DB)) (F : A -> Prop) :
  (forall db a db', I db -> f db = Ok (a, db') -> db' = db /\ F a) -> yields I (stmt f) F.
Proof.
  intros Hf w Hs. destruct (stmt_outcomes f w) as [a db' w' E Edb Fr|e w' E Edb Fr|e w' _ Edb Fr|a db' w' E Edb Fr];
    simpl; try (apply Hf in E as [-> E]; [|apply Hs]); (split; [eapply safe_frame; [done|rewrite Edb; apply Hs|done]|done]).
Qed.
End yields.

(** ** The rows of the other products *)

Definition product_of (db : DB) (licenseID : string) : option string := lic_ProductID <$> db_licenses db !! licenseID.

Definition of_others (p : string) (l : License) : bool := negb (streq (lic_ProductID l) p).

(** A licence of [db] that belongs to another product. *)
Definition foreign (p : string) (db : DB) (licenseID : string) : bool :=
  match db_licenses db !! licenseID with Some l => of_others p l | None => false end.

Definition others_kept (p : string) (db db' : DB) : Prop :=
  rows (of_others p) (db_licenses db') = rows (of_others p) (db_licenses db) /\
  rows (fun a => foreign p db (act_LicenseID a)) (db_activations db')
  = rows (fun a => foreign p db (act_LicenseID a)) (db_activations db) /\
  rows (fun s => foreign p db (sub_LicenseID s)) (db_subscriptions db')
  = rows (fun s => foreign p db (sub_LicenseID s)) (db_subscriptions db) /\
  rows (fun c => foreign p db (uc_LicenseID c)) (db_usage_counters db')
  = rows (fun c => foreign p db (uc_LicenseID c)) (db_usage_counters db) /\
  rows (fun a => foreign p db (la_LicenseID a)) (db_license_addons db')
  = rows (fun a => foreign p db (la_LicenseID a)) (db_license_addons db) /\
  db_usage_events db' = db_usage_events db /\ db_seats db' = db_seats db /\
  db_floating_sessions db' = db_floating_sessions db /\ db_products db' = db_products db /\ db_plans db' = db_plans db.

Definition activations_keyed (db : DB) : Prop := forall k a, db_activations db !! k = Some a -> act_ID a = k.

Section confined.
Context `{UUIDs} `{GCM} (p : string) (db0 : DB).

(** The invariant of a request confined to [p]. *)
Definition confined (db : DB) : Prop := others_kept p db0 db /\ licenses_keyed db /\ activations_keyed db.
Definition ours (licenseID : string) : Prop := foreign p db0 licenseID = false.

Lemma confined_start : licenses_keyed db0 -> activations_keyed db0 -> confined db0.
Proof. intros Hl Ha. split; [|done]. by split_and!. Qed.

(** A stored licence is another product's when it was at the start. *)
Lemma confined_license db k l : confined db -> db_licenses db !! k = Some l -> of_others p l = foreign p db0 k.
Proof.
  intros [Ho _] Hl. unfold foreign. pose proof (proj1 Ho) as E.
  destruct (of_others p l) eqn:Hp.
  - assert (rows (of_others p) (db_licenses db) !! k = Some l) as Hr by by apply lookup_rows.
    rewrite E in Hr. apply lookup_rows in Hr as [-> ->]. done.
  - destruct (db_licenses db0 !! k) as [l0|] eqn:Hl0; [|done]. destruct (of_others p l0) eqn:Hp0; [|done].
    assert (rows (of_others p) (db_licenses db0) !! k = Some l0) as Hr by by apply lookup_rows.
    rewrite <- E in Hr. apply lookup_rows in Hr as [Hr _]. congruence.
Qed.

Lemma confined_ours db k l : confined db -> db_licenses db !! k = Some l -> lic_ProductID l = p -> ours k.
Proof. intros Hc Hl Hp. unfold ours. rewrite <- (confined_license db k l) by done. unfold of_others. by rewrite Hp, streq_refl. Qed.

Lemma ours_of_others db k l : confined db -> db_licenses db !! k = Some l -> ours k -> of_others p l = false.
Proof. intros Hc Hl Ho. by rewrite (confined_license db k l). Qed.

(** Writes of the licences. *)
Lemma confined_set_licenses db m :
  confined db -> rows (of_others p) m = rows (of_others p) (db_licenses db) -> (forall k l, m !! k = Some l -> lic_ID l = k) ->
  confined (t_set licenses m db).
Proof.
  intros [(H1 & H2 & H3 & H4 & H5 & H6) [_ Ha]] Hm Hk. split; [|by split]. split_and!; try done; try apply H6. change (rows (of_others p) m = rows (of_others p) (db_licenses db0)). congruence.
Qed.

Lemma own_update_license id P f :
  (forall l, P l = true -> lic_ID l = id) -> (forall l, lic_ID (f l) = lic_ID l /\ lic_ProductID (f l) = lic_ProductID l) ->
  ours id -> keeps confined (sql_update licenses P f).
Proof.
  intros HP Hf Ho. apply keeps_stmt. intros db n db' Hc [= _ <-]. pose proof Hc as (_ & Hk & _).
  apply confined_set_licenses; [done| |].
  - apply rows_update_out. intros k l Hl Hp. apply HP in Hp. pose proof (Hk _ _ Hl). subst.
    pose proof (ours_of_others _ _ _ Hc Hl Ho) as E. unfold of_others in *. by rewrite (proj2 (Hf l)).
  - intros k l Hl. rewrite lookup_update_rows in Hl. change (t_get licenses db) with (db_licenses db) in Hl.
    destruct (db_licenses db !! k) as [l0|] eqn:E; [|done].
    injection Hl as <-. destruct (P l0); [rewrite (proj1 (Hf l0))|]; by apply Hk.
Qed.

Lemma own_update_row id f :
  (forall l, lic_ID (f l) = lic_ID l /\ lic_ProductID (f l) = lic_ProductID l) -> ours id ->
  keeps confined (sql_update_checked licenses id f).
Proof.
  intros Hf Ho. apply hoare_keeps, hoare_update_checked. intros db l Hc _ Hl _ _. change (db_licenses db !! id = Some l) in Hl.
  change (t_get licenses db) with (db_licenses db). pose proof Hc as (_ & Hk & _). apply confined_set_licenses; [done| |].
  - pose proof (ours_of_others _ _ _ Hc Hl Ho) as E. apply rows_insert_out; [by intros l0 [= <-]%(eq_trans (eq_sym Hl))|].
    unfold of_others in *. by rewrite (proj2 (Hf l)).
  - intros k l' [[<- <-]|[_ Hl']]%lookup_insert_Some; [rewrite (proj1 (Hf l))|]; by apply Hk.
Qed.

(** Writes of the tables that hang on the licences. *)
Lemma own_delete_activations P :
  (forall db a, confined db -> db_activations db !! act_ID a = Some a -> P a = true -> ours (act_LicenseID a)) ->
  keeps confined (sql_delete activations P).
Proof.
  intros HP. apply keeps_stmt. intros db n db' Hc [= _ <-]. pose proof Hc as ((H1 & H2 & H3 & H4 & H5 & H6) & Hk & Ha).
  change (t_get activations db) with (db_activations db).
  split; [split_and!; try done; try apply H6|split; [done|]].
  - change (rows (fun a => foreign p db0 (act_LicenseID a)) (delete_rows P (db_activations db))
            = rows (fun a => foreign p db0 (act_LicenseID a)) (db_activations db0)).
    rewrite <- H2. apply rows_delete_out. intros k a Hl Hp. apply (HP db); [done| |done]. by rewrite (Ha _ _ Hl).
  - intros k a Hl. change (delete_rows P (db_activations db) !! k = Some a) in Hl. apply lookup_delete_rows in Hl as [Hl _].
    by apply Ha.
Qed.

(** A table whose rows name their licence by [lid]. *)
Definition hangs {K R} `{Countable K} (T : Table K R) (lid : R -> string) : Prop :=
  forall db m, confined db -> rows (fun r => foreign p db0 (lid r)) m = rows (fun r => foreign p db0 (lid r)) (t_get T db) ->
    confined (t_set T m db).

Lemma hang_subscriptions : hangs subscriptions sub_LicenseID.
Proof. intros db m [(H1 & H2 & H3 & H4 & H5 & H6) Hk] Hm. split; [|done]. split_and!; try done; try apply H6. etrans; [exact Hm|exact H3]. Qed.
Lemma hang_counters : hangs usage_counters uc_LicenseID.
Proof. intros db m [(H1 & H2 & H3 & H4 & H5 & H6) Hk] Hm. split; [|done]. split_and!; try done; try apply H6. etrans; [exact Hm|exact H4]. Qed.
Lemma hang_addons : hangs license_addons la_LicenseID.
Proof. intros db m [(H1 & H2 & H3 & H4 & H5 & H6) Hk] Hm. split; [|done]. split_and!; try done; try apply H6. etrans; [exact Hm|exact H5]. Qed.

Section hanging.
Context {K R : Type} `{Countable K} (T : Table K R) (lid : R -> string) (hang : hangs T lid).

Lemma hang_update db P f :
  confined db -> (forall r, P r = true -> ours (lid r)) -> (forall r, lid (f r) = lid r) ->
  confined (t_set T (update_rows P f (t_get T db)) db).
Proof. intros Hc HP Hf. apply hang; [done|]. apply rows_update_out. intros k r _ Hp. rewrite Hf. split; by apply HP. Qed.

Lemma own_update P f : (forall r, P r = true -> ours (lid r)) -> (forall r, lid (f r) = lid r) -> keeps confined (sql_update T P f).
Proof. intros HP Hf. apply keeps_stmt. intros db n db' Hc [= _ <-]. by apply hang_update. Qed.
Lemma own_update_c P f : (forall r, P r = true -> ours (lid r)) -> (forall r, lid (f r) = lid r) -> keeps confined (sql_update_c T P f).
Proof.
  intros HP Hf. apply keeps_stmt. intros db n db' Hc. cbv zeta. destruct (head _); [done|]. intros [= _ <-]. by apply hang_update.
Qed.
Lemma own_delete P : (forall r, P r = true -> ours (lid r)) -> keeps confined (sql_delete T P).
Proof.
  intros HP. apply keeps_stmt. intros db n db' Hc [= _ <-]. apply hang; [done|]. apply rows_delete_out. intros k r _. apply HP.
Qed.
Lemma hang_insert db k r u db' : confined db -> ours (lid r) -> insert_row T k r db = Ok (u, db') -> confined db'.
Proof.
  intros Hc Ho (Hn & _ & _ & ->)%insert_row_Ok. apply hang; [done|]. apply rows_insert_out; [congruence|exact Ho].
Qed.
Lemma own_insert k r : ours (lid r) -> keeps confined (sql_insert T k r).
Proof. intros Ho. apply keeps_stmt. intros db u db' Hc Hi. by eapply hang_insert. Qed.
End hanging.
End confined.
