(* ===== verification/Scoped.v ===== *)
(** * What a product's key may reach, for a table and its children

    Releases with their artifacts, and webhooks with their deliveries, are
    guarded alike: the parent names its product, the child its parent, and a
    key of one product may write the rows of that product only.
    [within_product] is the invariant of such a request, [mine] the parents it
    may touch. *)

From S2P Require Import Prelude GoStrings Errors Model World Tables Logic Confinement.
From Stdlib Require Import Ascii String.

#[local] Open Scope string_scope.
#[local] Open Scope Z_scope.

Definition keyed {R} (id : R -> string) (m : gmap string R) : Prop := forall k r, m !! k = Some r -> id r = k.

Lemma keyed_insert_row {R} (id : R -> string) m k r : keyed id m -> id r = k -> keyed id (<[k := r]> m).
Proof. intros Hk Hr k' r' [[<- <-]|[_ H']]%lookup_insert_Some; [done|by apply Hk]. Qed.
Lemma keyed_update {R} (id : R -> string) m P f : keyed id m -> (forall r, id (f r) = id r) -> keyed id (update_rows P f m).
Proof.
  intros Hk Hf k r. rewrite lookup_update_rows. intros (r0 & Hr0 & ->)%fmap_Some. destruct (P r0); [rewrite Hf|]; by apply Hk.
Qed.
Lemma keyed_delete_rows {R} (id : R -> string) m P : keyed id m -> keyed id (delete_rows P m).
Proof. intros Hk k r [Hr _]%lookup_delete_rows. by apply Hk. Qed.

Section scoped.
Context {R C : Type} (T : Table string R) (TC : Table string C).
Context (rid prod : R -> string) (cid par : C -> string) (p : string) (db0 : DB).
Context (apart : forall m db, t_get TC (t_set T m db) = t_get TC db) (apart' : forall m db, t_get T (t_set TC m db) = t_get T db).

Definition other (r : R) : bool := negb (streq (prod r) p).

(** [id] is a parent of another product. *)
Definition alien (db : DB) (id : string) : bool := match t_get T db !! id with Some r => other r | None => false end.

(** The rows of the other products are those of [db]. *)
Definition aliens_kept (db db' : DB) : Prop :=
  rows other (t_get T db') = rows other (t_get T db) /\
  rows (fun c => alien db (par c)) (t_get TC db') = rows (fun c => alien db (par c)) (t_get TC db).

Definition within_product (db : DB) : Prop := aliens_kept db0 db /\ keyed rid (t_get T db) /\ keyed cid (t_get TC db).

Definition mine (id : string) : Prop := alien db0 id = false.
Definition my_child (id : string) : Prop := forall c, t_get TC db0 !! id = Some c -> mine (par c).

Lemma within_start : keyed rid (t_get T db0) -> keyed cid (t_get TC db0) -> within_product db0.
Proof. done. Qed.

(** *** Rows of the current tables *)

Lemma within_parent db k r : within_product db -> t_get T db !! k = Some r -> other r = alien db0 k.
Proof.
  intros [[E _] _] Hr. unfold alien. destruct (other r) eqn:Ho.
  - assert (rows other (t_get T db) !! k = Some r) as Hx by by apply lookup_rows.
    rewrite E in Hx. apply lookup_rows in Hx as [-> ->]. done.
  - destruct (t_get T db0 !! k) as [r0|] eqn:H0; [|done]. destruct (other r0) eqn:Ho0; [|done].
    assert (rows other (t_get T db0) !! k = Some r0) as Hx by by apply lookup_rows.
    rewrite <- E in Hx. apply lookup_rows in Hx as [Hx _]. congruence.
Qed.

Lemma mine_of db k r : within_product db -> t_get T db !! k = Some r -> prod r = p -> mine k.
Proof. intros Hw Hr Hp. unfold mine. rewrite <- (within_parent db k r) by done. unfold other. by rewrite Hp, streq_refl. Qed.

Lemma not_other db k r : within_product db -> t_get T db !! k = Some r -> mine k -> other r = false.
Proof. intros Hw Hr Hm. by rewrite (within_parent db k r). Qed.

Lemma prod_of db k r : within_product db -> t_get T db !! k = Some r -> mine k -> prod r = p.
Proof. intros Hw Hr Hm. apply (not_other db k r Hw Hr) in Hm. by apply negb_false_iff, streq_true in Hm. Qed.

Lemma child_mine db k c : within_product db -> t_get TC db !! k = Some c -> mine (par c) <-> my_child k.
Proof.
  intros [[_ E] _] Hc. unfold my_child, mine. split.
  - intros Hm c0 Hc0. destruct (alien db0 (par c0)) eqn:A0; [|done].
    assert (rows (fun c => alien db0 (par c)) (t_get TC db0) !! k = Some c0) as Hx by by apply lookup_rows.
    rewrite <- E in Hx. apply lookup_rows in Hx as [Hx _]. congruence.
  - intros Hm. destruct (alien db0 (par c)) eqn:A0; [|done].
    assert (rows (fun c => alien db0 (par c)) (t_get TC db) !! k = Some c) as Hx by by apply lookup_rows.
    rewrite E in Hx. apply lookup_rows in Hx as [Hx _]. specialize (Hm _ Hx). congruence.
Qed.

(** An identifier without a row is nobody's. *)
Lemma mine_fresh db k : within_product db -> t_get T db !! k = None -> mine k.
Proof.
  intros [[E _] _] Hn. unfold mine, alien. destruct (t_get T db0 !! k) as [r0|] eqn:H0; [|done].
  destruct (other r0) eqn:Ho; [|done]. assert (rows other (t_get T db0) !! k = Some r0) as Hx by by apply lookup_rows.
  rewrite <- E in Hx. apply lookup_rows in Hx as [Hx _]. congruence.
Qed.
Lemma my_child_fresh db k : within_product db -> t_get TC db !! k = None -> my_child k.
Proof.
  intros [[_ E] _] Hn c0 Hc0. unfold mine. destruct (alien db0 (par c0)) eqn:A0; [|done].
  assert (rows (fun c => alien db0 (par c)) (t_get TC db0) !! k = Some c0) as Hx by by apply lookup_rows.
  rewrite <- E in Hx. apply lookup_rows in Hx as [Hx _]. congruence.
Qed.

(** *** Writes *)

Lemma within_set_parents db m :
  within_product db -> rows other m = rows other (t_get T db) -> keyed rid m -> within_product (t_set T m db).
Proof.
  intros [[E1 E2] [K1 K2]] Hm Hk. split; [|by rewrite t_get_set, apart]. split; [rewrite t_get_set; by etrans|by rewrite apart].
Qed.
Lemma within_set_children db m :
  within_product db -> rows (fun c => alien db0 (par c)) m = rows (fun c => alien db0 (par c)) (t_get TC db) -> keyed cid m ->
  within_product (t_set TC m db).
Proof.
  intros [[E1 E2] [K1 K2]] Hm Hk. split; [|by rewrite t_get_set, apart']. split; [by rewrite apart'|rewrite t_get_set; by etrans].
Qed.

Lemma within_update_parents db P f :
  within_product db -> (forall r, P r = true -> mine (rid r)) -> (forall r, rid (f r) = rid r /\ prod (f r) = prod r) ->
  within_product (t_set T (update_rows P f (t_get T db)) db).
Proof.
  intros Hw HP Hf. pose proof Hw as (_ & K & _). apply within_set_parents; [done| |by apply keyed_update; [|intros; apply Hf]].
  apply rows_update_out. intros k r Hr Hp. apply HP in Hp. rewrite (K _ _ Hr) in Hp.
  pose proof (not_other _ _ _ Hw Hr Hp) as Ho. unfold other in *. by rewrite (proj2 (Hf r)).
Qed.

Lemma within_update_children db P f :
  within_product db -> (forall c, P c = true -> my_child (cid c)) -> (forall c, cid (f c) = cid c /\ par (f c) = par c) ->
  within_product (t_set TC (update_rows P f (t_get TC db)) db).
Proof.
  intros Hw HP Hf. pose proof Hw as (_ & _ & K). apply within_set_children; [done| |by apply keyed_update; [|intros; apply Hf]].
  apply rows_update_out. intros k c Hc Hp. apply HP in Hp. rewrite (K _ _ Hc) in Hp.
  apply (child_mine _ _ _ Hw Hc) in Hp. by rewrite (proj2 (Hf c)).
Qed.

Lemma within_delete_parents db P :
  within_product db -> (forall r, P r = true -> mine (rid r)) -> within_product (t_set T (delete_rows P (t_get T db)) db).
Proof.
  intros Hw HP. pose proof Hw as (_ & K & _). apply within_set_parents; [done| |by apply keyed_delete_rows].
  apply rows_delete_out. intros k r Hr Hp. apply HP in Hp. rewrite (K _ _ Hr) in Hp. by apply (not_other db k).
Qed.

Lemma within_delete_children db P :
  within_product db -> (forall k c, t_get TC db !! k = Some c -> P c = true -> mine (par c)) ->
  within_product (t_set TC (delete_rows P (t_get TC db)) db).
Proof.
  intros Hw HP. pose proof Hw as (_ & _ & K). apply within_set_children; [done| |by apply keyed_delete_rows].
  apply rows_delete_out. intros k c Hc Hp. by eapply HP.
Qed.

(** *** Statements *)

Lemma own_update_parents P f :
  (forall r, P r = true -> mine (rid r)) -> (forall r, rid (f r) = rid r /\ prod (f r) = prod r) ->
  keeps within_product (sql_update_where T P f).
Proof. intros HP Hf. apply keeps_update_where. intros db Hw _. by apply within_update_parents. Qed.

Lemma own_update_children P f :
  (forall c, P c = true -> my_child (cid c)) -> (forall c, cid (f c) = cid c /\ par (f c) = par c) ->
  keeps within_product (sql_update_where TC P f).
Proof. intros HP Hf. apply keeps_update_where. intros db Hw _. by apply within_update_children. Qed.

Lemma own_delete_children P :
  (forall c, P c = true -> my_child (cid c)) -> keeps within_product (sql_delete TC P).
Proof.
  intros HP. apply keeps_stmt. intros db n db' Hw [= _ <-]. apply within_delete_children; [done|].
  intros k c Hc Hp. apply HP in Hp. rewrite (proj2 (proj2 Hw) _ _ Hc) in Hp. by apply (child_mine db k).
Qed.

(** A row of ours is inserted, and is ours from then on. *)
Lemma own_insert_parent k r : rid r = k -> prod r = p -> yields within_product (sql_insert T k r) (fun _ => mine k).
Proof.
  intros Hk Hp. apply yields_fact.
  - apply keeps_stmt. intros db u db' Hw (Hn & _ & _ & ->)%insert_row_Ok. apply within_set_parents; [done| |].
    + apply rows_insert_out; [congruence|]. unfold other. by rewrite Hp, streq_refl.
    + apply keyed_insert_row; [apply Hw|done].
  - intros w [] w' Hw (Hi & _)%stmt_Ok. apply insert_row_Ok in Hi as (Hn & _). by eapply mine_fresh.
Qed.

Lemma own_insert_child k c : cid c = k -> mine (par c) -> yields within_product (sql_insert TC k c) (fun _ => my_child k).
Proof.
  intros Hk Hm. apply yields_fact.
  - apply keeps_stmt. intros db u db' Hw (Hn & _ & _ & ->)%insert_row_Ok. apply within_set_children; [done| |].
    + apply rows_insert_out; [congruence|done].
    + apply keyed_insert_row; [apply Hw|done].
  - intros w [] w' Hw (Hi & _)%stmt_Ok. apply insert_row_Ok in Hi as (Hn & _). by eapply my_child_fresh.
Qed.
End scoped.

(** ** More of the calculus of answers *)

Section yields.
Context (I : DB -> Prop).

Lemma yields_map_err {E E' A} (f : E -> E') (m : M E A) F : yields I m F -> yields I (map_err f m) F.
Proof. intros Hm w Hs. unfold map_err. destruct (Hm w Hs). by destruct (m w) as [[]]. Qed.
Lemma yields_throw {E A} (e : E) (F : A -> Prop) : yields I (throw e) F.
Proof. intros w Hs. done. Qed.
Lemma yields_with_tx {A} (body : M goerr A) F : yields I body F -> yields I (with_tx body) F.
Proof.
  intros Hb w Hs. split; [apply keeps_with_tx; [by eapply keeps_yields|done]|].
  unfold with_tx, mbind, M_bind. pose proof (proj1 (hoare_begin I (fun _ => True) w Hs Logic.I)) as Hs1.
  destruct (begin_tx w) as [[[]|e] w1]; simpl in *; [|done]. unfold defer_rollback.
  destruct (Hb w1 Hs1) as [_ Hf]. by destruct (body w1) as [r w2].
Qed.
Lemma keeps_for_each_of {E A} (l : list A) (body : A -> M E unit) (F : A -> Prop) :
  Forall F l -> (forall x, F x -> keeps I (body x)) -> keeps I (for_each l body).
Proof. intros Hl Hb. induction Hl as [|x l Hx Hl IH]; simpl; [apply keeps_ret|]. apply keeps_bind; [by apply Hb|done]. Qed.
End yields.
