(* ===== verification/ReleaseAdmin.v ===== *)
(** * Releases in the administration ([handler/release_admin.go],
      [handler/release_signing_admin.go])

    The handlers over the release service and the signing keys, with the
    product test of each, and the routes of the two groups in
    [cmd/server/main.go] they are reached by.  A body that does not bind is
    [None]; its required fields are tested here. *)

From S2P Require Import Prelude GoStrings Errors Model Crypto Base64 World Tables Logic AesGcm Store Webhook.
From S2P Require Import Sessions ReleaseStore Release ReleaseFeed Access.
From Stdlib Require Import Ascii String.

#[local] Open Scope string_scope.
#[local] Open Scope Z_scope.

(** ** Requests and answers *)

(** A signing key is answered without its private half. *)
Inductive ReleaseAnswer :=
  | AnsweredRelease (status : Z) (r : Release)
  | AnsweredReleases (rs : list Release) (total limit offset : Z)
  | AnsweredArtifact (a : ReleaseArtifact)
  | AnsweredUpload (out : AddArtifactResult)
  | AnsweredStatus (status : string)
  | AnsweredKey (k : ReleaseSigningKey)
  | AnsweredKeys (ks : list ReleaseSigningKey)
  | AnsweredPEM (document : string)
  | AnsweredPubkey (wrapped : string)
  | RefusedWith (e : Envelope).

Definition refuse (status : Z) (code message : string) : ReleaseAnswer := RefusedWith (mkEnvelope status code message None).
Definition rel_bad (message : string) : ReleaseAnswer := refuse 400 "BAD_REQUEST" message.
Definition rel_missing (message : string) : ReleaseAnswer := refuse 404 "NOT_FOUND" message.
Definition rel_internal : ReleaseAnswer := refuse 500 "INTERNAL_ERROR" "an internal error occurred".
Definition rel_out_of_scope : ReleaseAnswer :=
  refuse 403 "PRODUCT_SCOPE_MISMATCH" "api_key is bound to a different product".

Record AddArtifactRequest := mkAddArtifactRequest {
  aq_platform : string; aq_content_type : string; aq_expected_size : Z; aq_filename : string
}.

(** Query parameters as they arrive. *)
Record ListReleasesRequest := mkListReleases {
  lq_limit : string; lq_offset : string; lq_channel : string; lq_status : string; lq_product_id : string
}.

Inductive ReleaseRoute :=
  | RelList (q : ListReleasesRequest)
  | RelGet (id : string)
  | RelCreate (req : option CreateReleaseInput)
  | RelUpdate (id : string) (req : option (option string * option string))
  | RelDelete (id : string)
  | RelAddArtifact (id : string) (req : option AddArtifactRequest)
  | RelFinalizeArtifact (id aid expected legacy : string)
  | RelDeleteArtifact (id aid : string)
  | RelPublish (id : string)
  | RelYank (id : string) (req : option string)
  | RelUnyank (id : string).

Inductive SigningRoute :=
  | KeyGenerate (productID : string)
  | KeyRotate (productID note : string)
  | KeyDeactivate (productID note : string)
  | KeyList (productID : string)
  | KeyPEM (productID : string)
  | KeyTauri (productID : string).

(** [if err != nil { answer; return }]. *)
Definition on_error {E A B} (m : M E A) (no : E -> B) (k : A -> M goerr B) : M goerr B :=
  r ← attempt m;
  match r with Ok a => k a | Err e => mret (no e) end.

(** ** Releases *)

Definition maxReleaseNotes : Z := 65536.
Definition maxReleaseName : Z := 256.
Definition maxYankReason : Z := 1024.
Definition maxFilenameInput : Z := 256.
Definition maxExpectedSize : Z := 10 * 1024 * 1024 * 1024.

Section handlers.
Context `{UUIDs} `{GCM} `{Ed25519} `{Storage} `{Semver} (s : ReleaseService) (cx : Context_).

Definition app_error (e : error) : ReleaseAnswer := RefusedWith (writeAppErr e).

Definition release_audit (entity id action : string) (changes : gmap string any) : M goerr unit :=
  Audit (mkAuditLog "" entity id action (adminID cx) "admin" changes (cx_ip cx) 0).

(** [if !requireKeyProductScope(c, productID) { return }]. *)
Definition in_scope (productID : string) (k : M goerr ReleaseAnswer) : M goerr ReleaseAnswer :=
  if requireKeyProductScope cx productID then k else mret rel_out_of_scope.

Definition checkReleaseScope (releaseID : string) (k : M goerr ReleaseAnswer) : M goerr ReleaseAnswer :=
  on_error (GetReleaseProductID releaseID) (fun _ => rel_missing "release not found") (fun pid => in_scope pid k).

Definition assertArtifactBelongsToRelease (releaseID artifactID : string) (k : M goerr ReleaseAnswer) :
    M goerr ReleaseAnswer :=
  on_error (FindArtifact artifactID) (fun _ => rel_missing "artifact not found") (fun a =>
  if negb (streq (art_ReleaseID a) releaseID) then mret (rel_missing "artifact not found") else k).

Definition CreateRelease_ (req : option CreateReleaseInput) : M goerr ReleaseAnswer :=
  match req with
  | None => mret (rel_bad "product_id and version are required")
  | Some req =>
      if streq (cri_ProductID req) "" || streq (cri_Version req) ""
      then mret (rel_bad "product_id and version are required")
      else if maxReleaseName <? len (cri_Name req) then mret (rel_bad "name too long")
      else if maxReleaseNotes <? len (cri_ReleaseNotes req) then mret (rel_bad "release_notes too long")
      else
        on_error (FindProductByID (cri_ProductID req)) (fun _ => rel_missing "product not found") (fun prod =>
        if negb (ProductSupports (prod_Type prod) CapReleases) then
          mret (refuse 400 "INCOMPATIBLE_PRODUCT_TYPE"
            ("release management is not available for " +:+ prod_Type prod +:+ " products"))
        else
          in_scope (cri_ProductID req) (
            on_error (CreateRelease req) app_error (fun rel =>
            release_audit "release" (rel_ID rel) "draft_created"
              {["product_id" := AnyString (cri_ProductID req); "version" := AnyString (cri_Version req);
                "channel" := AnyString (rel_Channel rel)]} ;;
            mret (AnsweredRelease 201 rel))))
  end.

Definition AddArtifact_ (id : string) (req : option AddArtifactRequest) : M goerr ReleaseAnswer :=
  checkReleaseScope id (
    match req with
    | None => mret (rel_bad "platform is required")
    | Some req =>
        if streq (aq_platform req) "" then mret (rel_bad "platform is required")
        else if (aq_expected_size req <? 0) || (maxExpectedSize <? aq_expected_size req)
        then mret (rel_bad "expected_size out of range")
        else if maxFilenameInput <? len (aq_filename req) then mret (rel_bad "filename too long")
        else if 256 <? len (aq_content_type req) then mret (rel_bad "content_type too long")
        else
          on_error (AddArtifact s (mkAddArtifact id (aq_platform req) (aq_content_type req) (aq_expected_size req)
                                     (aq_filename req))) app_error (fun out =>
          release_audit "release_artifact" (art_ID (aar_Artifact out)) "added"
            {["release_id" := AnyString id; "platform" := AnyString (aq_platform req)]} ;;
          mret (AnsweredUpload out))
    end).

(** [expected_sha256] and its legacy name. *)
Definition FinalizeArtifact_ (id aid expectedSHA256 legacySHA256 : string) : M goerr ReleaseAnswer :=
  checkReleaseScope id (
  assertArtifactBelongsToRelease id aid (
    let expected := if streq expectedSHA256 "" then legacySHA256 else expectedSHA256 in
    on_error (FinalizeArtifact aid expected) app_error (fun a =>
    release_audit "release_artifact" aid "uploaded"
      {["release_id" := AnyString id; "sha256" := AnyString (art_SHA256 a); "size" := AnyInt (art_FileSize a)]} ;;
    mret (AnsweredArtifact a)))).

Definition DeleteArtifact_ (id aid : string) : M goerr ReleaseAnswer :=
  checkReleaseScope id (
  assertArtifactBelongsToRelease id aid (
    on_error (Release.DeleteArtifact aid) app_error (fun _ =>
    release_audit "release_artifact" aid "deleted" ∅ ;;
    mret (AnsweredStatus "deleted")))).

Definition Publish_ (id : string) : M goerr ReleaseAnswer :=
  checkReleaseScope id (
    on_error (Publish s id) app_error (fun rel =>
    release_audit "release" id "published"
      {["version" := AnyString (rel_Version rel); "channel" := AnyString (rel_Channel rel);
        "artifacts" := AnyInt (Z.of_nat (List.length (rel_Artifacts rel)))]} ;;
    mret (AnsweredRelease 200 rel))).

Definition Yank_ (id : string) (req : option string) : M goerr ReleaseAnswer :=
  checkReleaseScope id (
    match req with
    | None => mret (rel_bad "reason is required")
    | Some reason =>
        let reason := TrimSpace reason in
        if streq reason "" then mret (rel_bad "reason is required")
        else if maxYankReason <? len reason then mret (rel_bad "reason too long")
        else
          on_error (Yank s id reason) app_error (fun rel =>
          release_audit "release" id "yanked" {["reason" := AnyString reason]} ;;
          mret (AnsweredRelease 200 rel))
    end).

Definition Unyank_ (id : string) : M goerr ReleaseAnswer :=
  checkReleaseScope id (
    on_error (Unyank s id) app_error (fun rel =>
    release_audit "release" id "unyanked" ∅ ;;
    mret (AnsweredRelease 200 rel))).

(** [switch err { case store.ErrReleaseNotFound: ... default: ... }]. *)
Definition release_error (e : goerr) : ReleaseAnswer :=
  if bool_decide (e = ErrReleaseNotFound) then rel_missing "release not found" else rel_internal.

(** Name and notes as given, else as they are; or the refusal. *)
Definition edited (rel : Release) (name notes : option string) : (string * string) + string :=
  let name := TrimSpace <$> name in
  let longer (max : Z) (v : option string) := match v with Some v => max <? len v | None => false end in
  if longer maxReleaseName name then inr "name too long"
  else if longer maxReleaseNotes notes then inr "release_notes too long"
  else inl (default (rel_Name rel) name, default (rel_ReleaseNotes rel) notes).

Definition UpdateRelease_ (id : string) (req : option (option string * option string)) : M goerr ReleaseAnswer :=
  match req with
  | None => mret (rel_bad "invalid request body")
  | Some (None, None) => mret (rel_bad "at least one of name, release_notes must be provided")
  | Some (name, notes) =>
      on_error (FindReleaseByID id) release_error (fun rel =>
      in_scope (rel_ProductID rel) (
        match edited rel name notes with
        | inr message => mret (rel_bad message)
        | inl (name, notes) =>
            on_error (UpdateReleaseNotes id name notes) release_error (fun _ =>
            release_audit "release" id "updated" ∅ ;;
            on_error (FindReleaseByID id) (fun _ => rel_internal) (fun updated =>
            mret (AnsweredRelease 200 updated)))
        end))
  end.

Definition DeleteRelease_ (id : string) : M goerr ReleaseAnswer :=
  checkReleaseScope id (
    on_error (DeleteDraft id) app_error (fun _ =>
    release_audit "release" id "deleted" ∅ ;;
    mret (AnsweredStatus "deleted"))).

Definition list_releases (f : ReleaseFilter) : M goerr ReleaseAnswer :=
  on_error (ListReleases f) (fun _ => rel_internal) (fun rs =>
  on_error (CountReleases f) (fun _ => rel_internal) (fun total =>
  mret (AnsweredReleases rs total (f_Limit f) (f_Offset f)))).

(** A number of the query, its default when it is absent. *)
Definition query_number (v : string) (def : Z) (ok : Z -> bool) : option Z :=
  if streq v "" then Some def
  else match Atoi v with Some n => if ok n then Some n else None | None => None end.

Definition ListReleases_ (q : ListReleasesRequest) : M goerr ReleaseAnswer :=
  match query_number (lq_limit q) 50 (fun n => (0 <? n) && (n <=? 200)) with
  | None => mret (rel_bad "limit must be an integer between 1 and 200")
  | Some limit =>
      match query_number (lq_offset q) 0 (fun n => 0 <=? n) with
      | None => mret (rel_bad "offset must be a non-negative integer")
      | Some offset =>
          if negb (streq (lq_channel q) "") && negb (IsValidReleaseChannel (lq_channel q))
          then mret (rel_bad "channel must be stable, beta, alpha, or dev")
          else if negb (contains (lq_status q) [""; ReleaseStatusDraft; ReleaseStatusPublished; ReleaseStatusYanked])
          then mret (rel_bad "status must be draft, published, or yanked")
          else
            let filter product := mkReleaseFilter product (lq_channel q) (lq_status q) limit offset in
            match cx_api_key cx with
            | Some ak =>
                if streq (ak_ProductID ak) "" then list_releases (filter (lq_product_id q))
                else if negb (streq (lq_product_id q) "") && negb (streq (lq_product_id q) (ak_ProductID ak))
                then mret rel_out_of_scope
                else list_releases (filter (ak_ProductID ak))
            | None => list_releases (filter (lq_product_id q))
            end
      end
  end.

Definition GetRelease_ (id : string) : M goerr ReleaseAnswer :=
  checkReleaseScope id (on_error (FindReleaseByID id) release_error (fun rel => mret (AnsweredRelease 200 rel))).

Definition release_route (r : ReleaseRoute) : M goerr ReleaseAnswer :=
  match r with
  | RelList q => ListReleases_ q
  | RelGet id => GetRelease_ id
  | RelCreate req => CreateRelease_ req
  | RelUpdate id req => UpdateRelease_ id req
  | RelDelete id => DeleteRelease_ id
  | RelAddArtifact id req => AddArtifact_ id req
  | RelFinalizeArtifact id aid expected legacy => FinalizeArtifact_ id aid expected legacy
  | RelDeleteArtifact id aid => DeleteArtifact_ id aid
  | RelPublish id => Publish_ id
  | RelYank id req => Yank_ id req
  | RelUnyank id => Unyank_ id
  end.

(** ** Signing keys *)

(** [pem.EncodeToMemory]: the base64 text in lines of 64. *)
Fixpoint pem_lines (fuel : nat) (b64 : string) : string :=
  match fuel with
  | O => ""
  | S fuel => if streq b64 "" then "" else stake 64 b64 +:+ String (chr 10) (pem_lines fuel (sdrop 64 b64))
  end.
Definition pem_EncodeToMemory (type bytes : string) : string :=
  let b64 := Std.EncodeToString bytes in
  "-----BEGIN " +:+ type +:+ "-----" +:+ String (chr 10)
    (pem_lines (String.length b64) b64 +:+ "-----END " +:+ type +:+ "-----" +:+ String (chr 10) "").

Definition ExportPublicKeyPEM (signer : option Signer) (productID : string) : M goerr string :=
  match signer with
  | None => throw ErrSigningDisabled
  | Some _ =>
      k ← map_err active_missing (FindActiveSigningKey productID);
      match Std.DecodeString (sk_PublicKey k) with
      | None => throw (ErrWrap "decode stored public key" (ErrText "base64"))
      | Some rawKey =>
          if negb (len rawKey =? 32)
          then throw (ErrText ("stored public key has wrong length: " +:+ pretty (len rawKey)))
          else mret (pem_EncodeToMemory "ED25519 PUBLIC KEY" rawKey)
      end
  end.

Definition ExportPublicKeyTauri (signer : option Signer) (productID : string) : M goerr string :=
  match signer with
  | None => throw ErrSigningDisabled
  | Some _ =>
      k ← map_err active_missing (FindActiveSigningKey productID);
      let wrapped := TauriPublicKey (sk_PublicKey k) in
      if streq wrapped "" then throw (ErrText "stored public key has unexpected shape") else mret wrapped
  end.

Definition with_product (productID : string) (k : M goerr ReleaseAnswer) : M goerr ReleaseAnswer :=
  on_error (FindProductByID productID) (fun _ => rel_missing "product not found") (fun _ => k).

Definition generate_error (e : goerr) : ReleaseAnswer :=
  if goerr_Is e ErrSigningDisabled then
    refuse 503 "SIGNING_DISABLED" "release signing is not configured (RELEASE_KEY_ENCRYPTION_KEY is missing)"
  else if goerr_Is e ErrSigningKeyAlreadyActive then
    refuse 409 "KEY_ALREADY_ACTIVE" "this product already has an active signing key — rotate instead"
  else rel_internal.

Definition rotate_error (e : goerr) : ReleaseAnswer :=
  if goerr_Is e ErrSigningDisabled then refuse 503 "SIGNING_DISABLED" "release signing is not configured" else rel_internal.

Definition export_error (e : goerr) : ReleaseAnswer :=
  if goerr_Is e ErrSigningKeyMissing
  then rel_missing "no active signing key for this product — generate one first" else rel_internal.

Definition inactive_error (e : goerr) : ReleaseAnswer :=
  if goerr_Is e ErrActiveSigningKeyMissing then rel_missing "no active signing key for this product" else rel_internal.

Context (signer : option Signer).

Definition GenerateKey (productID : string) : M goerr ReleaseAnswer :=
  with_product productID (
    on_error (GenerateForProduct signer productID) generate_error (fun key =>
    release_audit "release_signing_key" (sk_ID key) "generated"
      {["product_id" := AnyString productID; "public_key" := AnyString (sk_PublicKey key)]} ;;
    mret (AnsweredKey key))).

Definition RotateKey (productID note : string) : M goerr ReleaseAnswer :=
  with_product productID (
    if 256 <? len note then mret (rel_bad "note too long (max 256 chars)")
    else
      on_error (RotateForProduct signer productID note) rotate_error (fun key =>
      release_audit "release_signing_key" (sk_ID key) "rotated"
        {["product_id" := AnyString productID; "new_key_id" := AnyString (sk_ID key);
          "public_key" := AnyString (sk_PublicKey key); "note" := AnyString note]} ;;
      mret (AnsweredKey key))).

Definition DeactivateKey (productID note : string) : M goerr ReleaseAnswer :=
  with_product productID (
    on_error (FindActiveSigningKey productID) inactive_error (fun key =>
    if 256 <? len note then mret (rel_bad "note too long (max 256 chars)")
    else
      on_error (DeactivateSigningKey (sk_ID key) note) (fun _ => rel_internal) (fun _ =>
      release_audit "release_signing_key" (sk_ID key) "deactivated"
        {["product_id" := AnyString productID; "note" := AnyString note]} ;;
      mret (AnsweredStatus "deactivated")))).

Definition ListKeys (productID : string) : M goerr ReleaseAnswer :=
  with_product productID (
    on_error (ListSigningKeys productID) (fun _ => rel_internal) (fun keys => mret (AnsweredKeys keys))).

Definition DownloadPublicKey (productID : string) : M goerr ReleaseAnswer :=
  with_product productID (
    on_error (ExportPublicKeyPEM signer productID) export_error (fun pem => mret (AnsweredPEM pem))).

Definition DownloadPublicKeyTauri (productID : string) : M goerr ReleaseAnswer :=
  with_product productID (
    on_error (ExportPublicKeyTauri signer productID) export_error (fun wrapped => mret (AnsweredPubkey wrapped))).

Definition signing_route (r : SigningRoute) : M goerr ReleaseAnswer :=
  match r with
  | KeyGenerate productID => GenerateKey productID
  | KeyRotate productID note => RotateKey productID note
  | KeyDeactivate productID note => DeactivateKey productID note
  | KeyList productID => ListKeys productID
  | KeyPEM productID => DownloadPublicKey productID
  | KeyTauri productID => DownloadPublicKeyTauri productID
  end.
End handlers.

(** ** Requests of the two groups *)

Section serve.
Context `{UUIDs} `{GCM} `{Ed25519} `{Storage} `{Semver} (s : ReleaseService) (signer : option Signer).
Context (jwt_parse : string -> string -> Time -> option Claims) (secret : string) (limiter : option bool) (cred : Credential).

Definition serve_release (r : ReleaseRoute) : M goerr ReleaseAnswer :=
  a ← authorize jwt_parse secret GroupRelWrite limiter cred;
  match a with
  | inr (status, code) => mret (refuse status code "")
  | inl cx => release_route s cx r
  end.

Definition serve_signing (r : SigningRoute) : M goerr ReleaseAnswer :=
  a ← authorize jwt_parse secret GroupAdmin limiter cred;
  match a with
  | inr (status, code) => mret (refuse status code "")
  | inl cx => signing_route cx signer r
  end.
End serve.
