(* ===== verification/AdminScope.v ===== *)
(** * A key bound to a product stays inside it

    Every handler of the licence routes, run for a key of the product [p],
    keeps the rows of the other products and answers with [p]'s only. *)

From S2P Require Import Prelude GoStrings Errors Model Crypto KeyGen GoTime RateLimit World Tables Logic AesGcm Store Webhook.
From S2P Require Import Usage Entitlement Seats Floating Sessions ReleaseStore Lookup Expiry ExpiryProps Payments PaymentProps.
From S2P Require Import Access AdminLicense Confinement.
From Stdlib Require Import Ascii String.

#[local] Open Scope string_scope.
#[local] Open Scope Z_scope.

(** Queries answer the tables as they are. *)
Ltac same_tables := let db := fresh "db" in
  intros db ? ?; repeat match goal with |- context [match ?x with _ => _ end] => destruct x end; intros; by simplify_eq.

(** An answer that speaks of the licences of [p] only: those of [db] that
    belong to another product are not in it. *)
Definition within (p : string) (db : DB) (a : Answer) : Prop :=
  let mine id := foreign p db id = false in
  match a with
  | AnsweredLicense _ l => lic_ProductID l = p
  | AnsweredLicenses ls _ => Forall (fun l => lic_ProductID l = p) ls
  | AnsweredUsage es cs _ => Forall (fun e => mine (ue_LicenseID e)) es /\ Forall (fun c => mine (uc_LicenseID c)) cs
  | AnsweredSeats ss _ => Forall (fun s => mine (seat_LicenseID s)) ss
  | AnsweredAddon la => mine (la_LicenseID la)
  | AnsweredAddons las => Forall (fun la => mine (la_LicenseID la)) las
  | AnsweredSessions ss _ => Forall (fun s => mine (fs_LicenseID s)) ss
  | Exported _ _ => False
  | Answered _ _ | NoContent | Refused _ _ _ => True
  end.

Lemma page_elem {A} offset limit (l : list A) x : x ∈ page offset limit l -> x ∈ l.
Proof.
  unfold page. destruct (0 <? limit); intros Hx; [apply (subseteq_take (Z.to_nat limit)) in Hx|]; by apply subseteq_drop in Hx.
Qed.

Lemma newest_licenses_elem P db x :
  x ∈ newest_licenses P db -> exists k l, db_licenses db !! k = Some l /\ P l = true /\ x = load_license db l.
Proof.
  unfold newest_licenses. intros (l & -> & Hl)%list_elem_of_fmap. rewrite sort_by_perm, elem_of_rows in Hl.
  destruct Hl as (k & Hk & HP). eauto.
Qed.

Section confined.
Context `{UUIDs} `{GCM} `{Stripe} (p : string) (db0 : DB).
#[local] Abbreviation I := (confined p db0).
#[local] Abbreviation ours := (ours p db0).

(** ** The store *)

Lemma confined_audit {E} log : keeps (E := E) I (Audit log).
Proof. apply keeps_audit_log. intros m db Hc. exact Hc. Qed.
Lemma confined_dispatch {E} q event data : keeps (E := E) I (Dispatch q event data).
Proof. apply keeps_Dispatch. intros m db Hc. exact Hc. Qed.
Lemma confined_product id : keeps I (FindProductByID id).
Proof. apply keeps_read. same_tables. Qed.
Lemma confined_plan id : keeps I (FindPlanByID id).
Proof. apply keeps_read. same_tables. Qed.
Lemma confined_find id : keeps I (FindLicenseByID id).
Proof. apply keeps_read. same_tables. Qed.
Lemma confined_decrypt {E} aead l : keeps (E := E) I (DecryptLicenseKey aead l).
Proof. apply keeps_DecryptLicenseKey. Qed.
Lemma confined_Encrypt a x y : keeps I (Encrypt a x y).
Proof. unfold Encrypt. keeps_go. Qed.
Hint Resolve confined_audit confined_dispatch confined_product confined_plan confined_find confined_decrypt confined_Encrypt : licensehub.

Lemma confined_affect n ok e : keeps I (must_affect n ok e).
Proof. unfold must_affect. keeps_go. Qed.
Hint Resolve confined_affect : licensehub.

Lemma own_status status id : ours id -> keeps I (set_subscription_status status id).
Proof.
  intros Ho. unfold set_subscription_status. keeps_go.
  apply (own_update_c _ _ _ sub_LicenseID); [apply hang_subscriptions|by intros r <-%streq_true|done].
Qed.

Lemma own_drop_activations id : ours id -> keeps I (delete_activations_of id).
Proof. intros Ho. apply own_delete_activations. by intros db a _ _ <-%streq_true. Qed.

Lemma own_revoke id actor ip : ours id -> keeps I (RevokeLicenseWithAudit id actor ip).
Proof.
  intros Ho. unfold RevokeLicenseWithAudit, RunAuditedMutation, insert_audit.
  repeat first [by apply own_drop_activations|by apply own_status|apply keeps_fresh_id
    |apply (own_update_license _ _ id); [by intros l ->%streq_true|done|done]|keeps_step].
Qed.

Lemma own_suspend id : ours id -> keeps I (SuspendLicense id).
Proof.
  intros Ho. unfold SuspendLicense.
  repeat first [by apply own_status|apply (own_update_license _ _ id); [by intros l ->%streq_true|done|done]|keeps_step].
Qed.

Lemma own_reinstate id : ours id -> keeps I (ReinstateLicense id).
Proof.
  intros Ho. unfold ReinstateLicense.
  repeat first [by apply own_status|apply (own_update_license _ _ id); [by intros l [->%streq_true _]%andb_prop|done|done]|keeps_step].
Qed.

Definition no_product (cols : list LicCol) : Prop :=
  forall new old, lic_ID (lic_assign_cols new cols old) = lic_ID old /\
    lic_ProductID (lic_assign_cols new cols old) = lic_ProductID old.

Lemma own_save lic cols : ours (lic_ID lic) -> no_product (app cols [ColUpdatedAt]) -> keeps I (UpdateLicense lic cols).
Proof.
  intros Ho Hc. unfold UpdateLicense. keeps_go. cbv zeta. keeps_go. apply own_update_row; [|done]. intros l. apply Hc.
Qed.

Lemma own_save_both lic cols :
  ours (lic_ID lic) -> no_product (app cols [ColUpdatedAt]) -> keeps I (UpdateLicenseAndSubscription lic cols).
Proof.
  intros Ho Hc. unfold UpdateLicenseAndSubscription. repeat first [progress cbv zeta|keeps_step].
  - apply own_update_row; [|done]. intros l. apply Hc.
  - apply (own_update_c _ _ _ sub_LicenseID); [apply hang_subscriptions|by intros r [->%streq_true _]%andb_prop|done].
Qed.

Lemma own_reset id feature period key : ours id -> keeps I (ResetUsageCounter id feature period key).
Proof.
  intros Ho. unfold ResetUsageCounter. keeps_go. apply (own_update _ _ _ uc_LicenseID); [apply hang_counters| |done].
  intros c Hc. unfold this_counter, same_counter in Hc. repeat apply andb_prop in Hc as [Hc ?]. by apply streq_true in Hc as ->.
Qed.

Lemma own_add_addon la : ours (la_LicenseID la) -> keeps I (AddLicenseAddon la).
Proof.
  intros Ho. unfold AddLicenseAddon. apply keeps_bind; [apply keeps_fresh_id|]. intros id. apply keeps_stmt.
  intros db u db' Hc. cbv zeta. destruct (row_exists _ _).
  - intros [= _ <-]. apply (hang_update _ _ license_addons la_LicenseID); [apply hang_addons|done| |done].
    by intros r [->%streq_true _]%andb_prop.
  - intros Hi. by eapply (hang_insert _ _ license_addons la_LicenseID); [apply hang_addons| | |exact Hi].
Qed.

Lemma own_remove_addon id addonID : ours id -> keeps I (RemoveLicenseAddon id addonID).
Proof.
  intros Ho. unfold RemoveLicenseAddon. keeps_go. apply (own_delete _ _ _ la_LicenseID); [apply hang_addons|].
  by intros r [->%streq_true _]%andb_prop.
Qed.

(** A licence of [p] may be created. *)
Lemma own_insert_license l : lic_ProductID l = p -> yields I (insert_license l) (fun _ => ours (lic_ID l)).
Proof.
  intros Hp. unfold insert_license. apply yields_then; [apply keeps_sql_now|]. intros t. apply yields_fact.
  - apply hoare_keeps, hoare_insert. intros db Hc _ Hn _ _.
    change (t_get licenses db) with (db_licenses db) in *. apply confined_set_licenses; [done| |].
    + apply rows_insert_out; [congruence|]. unfold of_others. simpl. by rewrite Hp, streq_refl.
    + intros k l' [[<- <-]|[_ Hl']]%lookup_insert_Some; [done|]. destruct Hc as (_ & Hk & _). by apply Hk.
  - intros w [] w' [Ho _] (Hi & _)%stmt_Ok. apply insert_row_Ok in Hi as (Hn & _). change (db_licenses (w_db w) !! lic_ID l = None) in Hn.
    unfold Confinement.ours, foreign. destruct (db_licenses db0 !! lic_ID l) as [l0|] eqn:E0; [|done].
    destruct (of_others p l0) eqn:Hp0; [|done].
    assert (rows (of_others p) (db_licenses db0) !! lic_ID l = Some l0) as Hr by by apply lookup_rows.
    rewrite <- (proj1 Ho) in Hr. apply lookup_rows in Hr as [Hr _]. congruence.
Qed.

Lemma yields_prepare aead l :
  yields I (prepareLicenseForInsert aead l) (fun l' => lic_ProductID l' = lic_ProductID l).
Proof.
  unfold prepareLicenseForInsert. apply yields_then; [apply keeps_fresh_id|]. intros id. cbv zeta.
  destruct aead as [a|]; [|by apply yields_ret]. destruct (negb _); [|by apply yields_ret].
  apply yields_then; [keeps_go|]. intros ct. by apply yields_ret.
Qed.

Lemma own_create aead l plan :
  lic_ProductID l = p -> yields I (CreateLicenseWithSubscription aead l plan) (fun l' => lic_ProductID l' = p).
Proof.
  intros Hp. unfold CreateLicenseWithSubscription. eapply yields_bind; [apply yields_prepare|]. intros l' Hl'.
  rewrite Hp in Hl'. apply yields_then; [|intros; by apply yields_ret]. apply keeps_with_tx.
  apply (keeps_yields _ _ (fun _ => True)). eapply yields_bind; [by apply own_insert_license|]. intros [] Ho.
  apply yields_keeps. apply keeps_bind; [|intros; apply keeps_commit].
  destruct plan as [plan|]; [|apply keeps_ret]. destruct (_ || _); [|apply keeps_ret].
  apply keeps_bind; [apply keeps_newID|]. intros id. apply (keeps_yields _ _ (fun _ => True)).
  apply (yields_bind _ _ _ (fun sub => sub_LicenseID sub = lic_ID l')).
  - destruct (_ && _); [|by apply yields_ret]. apply yields_then; [apply keeps_time_Now|]. intros now. by apply yields_ret.
  - intros sub Hsub. apply yields_keeps. apply keeps_bind; [apply keeps_sql_now|]. intros t. cbv zeta.
    apply (own_insert _ _ subscriptions sub_LicenseID); [apply hang_subscriptions|]. simpl. by rewrite Hsub.
Qed.

(** ** The handlers *)

Context (h : AdminHandler) (parse : string -> option Time) (mail : string -> option string) (cx : Context_) (ak : APIKey).
Context (Hkey : cx_api_key cx = Some ak) (Hprod : ak_ProductID ak = p) (Hp : p <> "").
#[local] Abbreviation answers m := (yields I m (within p db0)).

Lemma yields_scoped q k : (q = p -> answers k) -> answers (scoped cx q k).
Proof.
  intros Hk. unfold scoped, requireKeyProductScope. rewrite Hkey, Hprod. rewrite (proj2 (streq_false p "") Hp). simpl.
  destruct (streq p q) eqn:E; [|by apply yields_ret]. apply streq_true in E. by apply Hk.
Qed.

(** The product a query of the licences answers. *)
Lemma yields_product id : yields I (GetLicenseProductID id) (fun q => q = p -> ours id).
Proof.
  apply yields_read. intros db q db' Hc. destruct (first_row _) as [l|] eqn:El; [|done]. intros [= <- <-]. split; [done|].
  apply first_row_rows in El as (k & Hl & Hid%streq_true). intros Hq. pose proof Hc as (_ & Hk & _). pose proof (Hk _ _ Hl).
  subst. by eapply confined_ours.
Qed.

Lemma yields_found id : yields I (FindLicenseByID id) (fun l => lic_ID l = id /\ (lic_ProductID l = p -> ours id)).
Proof.
  apply yields_read. intros db q db' Hc. destruct (first_row _) as [l|] eqn:El; [|done]. intros [= <- <-]. split; [done|].
  apply first_row_rows in El as (k & Hl & Hid%streq_true). split; [done|]. intros Hq. pose proof Hc as (_ & Hk & _).
  pose proof (Hk _ _ Hl). subst. by eapply confined_ours.
Qed.

Lemma yields_check id k : (ours id -> answers k) -> answers (checkLicenseScope cx id k).
Proof.
  intros Hk. unfold checkLicenseScope. eapply yields_bind; [apply yields_attempt, yields_product|].
  intros [q|e] Hq; [|by apply yields_ret]. apply yields_scoped. auto.
Qed.

(** A licence found, in scope or not. *)
Lemma yields_own id k :
  (forall l, lic_ID l = id -> lic_ProductID l = p -> ours id -> answers (k l)) ->
  answers (r ← attempt (FindLicenseByID id);
           match r with
           | Err _ => mret (not_found "license not found")
           | Ok l => scoped cx (lic_ProductID l) (k l)
           end).
Proof.
  intros Hk. eapply yields_bind; [apply yields_attempt, yields_found|]. intros [l|e] Hl; [|by apply yields_ret].
  apply yields_scoped. intros Hq. destruct Hl as [Hid Ho]. auto.
Qed.

Lemma confined_admin_audit id action changes : keeps I (admin_audit cx id action changes).
Proof. apply confined_audit. Qed.
Lemma confined_admin_dispatch q event data : keeps I (admin_dispatch h q event data).
Proof. unfold admin_dispatch. keeps_go. Qed.
Lemma confined_product_name q : keeps I (product_name_of q).
Proof. unfold product_name_of. keeps_go. Qed.
Hint Resolve confined_audit confined_dispatch confined_product confined_plan confined_find confined_decrypt
  confined_admin_audit confined_admin_dispatch confined_product_name : licensehub.

Lemma confined_if_found id k : (forall l, keeps I (k l)) -> keeps I (if_found id k).
Proof. intros Hk. unfold if_found. keeps_go. Qed.

(** Walk down a handler: what it runs keeps the invariant, what it answers is
    within. *)
Local Ltac within_step :=
  match goal with
  | |- forall _, _ => intros ?
  | |- yields _ (mret _) _ => apply yields_ret; try done
  | |- yields _ (attempt (FindLicenseByID _) ≫= _) _ => apply yields_own
  | |- yields _ (checkLicenseScope _ _ _) _ => apply yields_check
  | |- yields _ (_ ≫= _) _ => apply yields_then; [solve [keeps_go; auto with licensehub]|]
  | |- yields _ (match ?x with _ => _ end) _ => destruct x eqn:?
  end.

Hint Resolve own_revoke own_suspend own_reinstate own_reset own_add_addon own_remove_addon : licensehub.
Hint Extern 1 (keeps _ (if_found _ _)) => apply confined_if_found; intros; keeps_go : licensehub.

Lemma own_GetLicense id : answers (GetLicense cx id).
Proof. apply yields_own. intros l _ Hq _. by apply yields_ret. Qed.

Lemma own_Revoke id : answers (RevokeLicense_ h cx id).
Proof. unfold RevokeLicense_. repeat within_step. Qed.
Lemma own_Suspend id : answers (SuspendLicense_ h cx id).
Proof. unfold SuspendLicense_, tell_suspended. repeat within_step. Qed.
Lemma own_Reinstate id : answers (ReinstateLicense_ h cx id).
Proof. unfold ReinstateLicense_. repeat within_step. Qed.

Lemma own_Refund id : answers (RefundLicense h cx id).
Proof.
  apply yields_own. intros l Hid Hq Ho. destruct (streq _ _); [by apply yields_ret|]. unfold refund. cbv zeta.
  apply yields_then; [by apply keeps_still|]. intros r. apply yields_then; [apply keeps_attempt|].
  - apply own_save_both; [by rewrite <- Hid in Ho|done].
  - repeat within_step.
Qed.

Lemma confined_parse s message : keeps I (parse_future parse s message).
Proof. unfold parse_future. keeps_go. Qed.
Hint Resolve confined_parse : licensehub.

Lemma own_set_until id text until l :
  lic_ID l = id -> lic_ProductID l = p -> ours id -> answers (set_valid_until h cx id text until l).
Proof.
  intros Hid Hq Ho. unfold set_valid_until. cbv zeta. apply yields_then; [apply keeps_attempt|].
  - apply own_save; [by rewrite <- Hid in Ho|done].
  - repeat within_step.
Qed.

Lemma own_SetValidUntil id req : answers (SetLicenseValidUntil h parse cx id req).
Proof.
  apply yields_check. intros Ho. destruct req as [text|]; [|by apply yields_ret].
  eapply yields_bind; [apply yields_attempt|].
  { apply (yields_read _ _ (fun l => lic_ID l = id /\ lic_ProductID l = p)). intros db q db' Hc.
    destruct (first_row _) as [l|] eqn:El; [|done]. intros [= <- <-]. split; [done|].
    apply first_row_rows in El as (k & Hl & Hid%streq_true). split; [done|]. pose proof Hc as (_ & Hk & _).
    pose proof (Hk _ _ Hl). subst. pose proof (ours_of_others _ _ _ _ _ Hc Hl Ho) as Hf.
    apply negb_false_iff, streq_true in Hf. done. }
  intros [l|e] Hl; [|by apply yields_ret]. destruct Hl as [Hid Hq]. repeat first [apply own_set_until; done|within_step].
Qed.

(** The activation [id] is not another product's. *)
Definition own_activation (id : string) : Prop := forall a, db_activations db0 !! id = Some a -> ours (act_LicenseID a).

Lemma confined_activation db k a : confined p db0 db -> db_activations db !! k = Some a ->
  (ours (act_LicenseID a) <-> own_activation k).
Proof.
  intros [Ho _] Ha. pose proof (proj1 (proj2 Ho)) as E. unfold own_activation, Confinement.ours. split.
  - intros Hm a0 Ha0. destruct (foreign p db0 (act_LicenseID a0)) eqn:F0; [|done].
    assert (rows (fun a => foreign p db0 (act_LicenseID a)) (db_activations db0) !! k = Some a0) as Hr by by apply lookup_rows.
    rewrite <- E in Hr. apply lookup_rows in Hr as [Hr _]. congruence.
  - intros Hm. destruct (foreign p db0 (act_LicenseID a)) eqn:F0; [|done].
    assert (rows (fun a => foreign p db0 (act_LicenseID a)) (db_activations db) !! k = Some a) as Hr by by apply lookup_rows.
    rewrite E in Hr. apply lookup_rows in Hr as [Hr _]. specialize (Hm _ Hr). congruence.
Qed.

Lemma yields_activation_product id : yields I (GetActivationProductID id) (fun q => q = p -> own_activation id).
Proof.
  apply yields_read. intros db q db' Hc. destruct (first_row _) as [a|] eqn:Ea; [|done].
  apply first_row_rows in Ea as (k & Ha & [Hid%streq_true _]%andb_prop).
  destruct (db_licenses db !! act_LicenseID a) as [l|] eqn:El; [|done]. intros [= <- <-]. split; [done|]. intros Hq.
  pose proof Hc as (_ & _ & Hk). rewrite (Hk _ _ Ha) in Hid. subst k.
  by eapply (confined_activation db); [done..|eapply confined_ours].
Qed.

Lemma own_DeleteActivation id : answers (DeleteActivation cx id).
Proof.
  unfold DeleteActivation. eapply yields_bind; [apply yields_attempt, yields_activation_product|].
  intros [q|e] Ho; [|by apply yields_ret]. apply yields_scoped. intros Hq. specialize (Ho Hq).
  apply yields_then; [|intros [[]|e']; by apply yields_ret]. apply keeps_attempt. unfold DeleteActivationByID.
  apply keeps_bind; [|intros; apply keeps_ret]. apply own_delete_activations. intros db a Hc Ha Hid%streq_true.
  rewrite Hid in Ha. by apply (confined_activation db id a).
Qed.

Lemma own_ChangePlan id req : answers (ChangeLicensePlan h cx id req).
Proof.
  unfold ChangeLicensePlan. destruct req as [planID|]; [|by apply yields_ret]. apply yields_own. intros l Hid Hq Ho.
  apply yields_then; [keeps_go; apply confined_plan|]. intros [plan|e]; [|by apply yields_ret].
  destruct (negb _); [by apply yields_ret|]. unfold change_license_plan, tell_plan_changed.
  apply yields_then; [apply keeps_attempt, own_save; [by rewrite <- Hid in Ho|done]|]. repeat within_step.
Qed.

Lemma own_CreateLicense req : answers (CreateLicense h parse mail cx req).
Proof.
  unfold CreateLicense. destruct req as [req|]; [|by apply yields_ret].
  assert (forall t, answers (create_license h cx req t)) as Hcreate; [|repeat first [apply Hcreate|within_step]].
  intros t. unfold create_license. apply yields_then; [keeps_go; apply confined_plan|].
  intros [plan|e]; [|by apply yields_ret]. destruct (negb _); [by apply yields_ret|]. apply yields_scoped. intros Hq.
  apply (yields_bind _ _ _ (fun l => lic_ProductID l = p)).
  - unfold new_license. apply yields_then; [apply keeps_still, still_generate_key|].
    intros key. apply yields_then; [unfold trial_until; keeps_go|]. intros t'. by apply yields_ret.
  - intros l Hl. eapply yields_bind; [by apply yields_attempt, own_create|]. intros [l'|e] Hl'; [|by apply yields_ret].
    unfold announce_license. repeat within_step.
Qed.

(** *** Lists *)

Lemma own_list f : answers (list_licenses cx f).
Proof.
  unfold list_licenses. rewrite Hkey, Hprod. rewrite (proj2 (streq_false p "") Hp). destruct (_ && _); [by apply yields_ret|].
  apply (yields_bind _ _ _ (fun r => match r with Ok (ls, _) => Forall (fun l => lic_ProductID l = p) ls | Err _ => True end)).
  - apply yields_attempt, (yields_bind _ _ _ (fun _ => True)); [apply yields_keeps, keeps_count|]. intros total _.
    apply (yields_bind _ _ _ (Forall (fun l => lic_ProductID l = p))).
    + apply yields_read. intros db ls db' _ [= <- <-]. split; [done|]. apply Forall_forall. intros l Hl.
      apply page_elem, newest_licenses_elem in Hl as (k & l0 & _ & Hm & ->). simpl in Hm |- *. unfold license_matches, wanted in Hm. simpl in Hm.
      rewrite (proj2 (streq_false p "") Hp) in Hm. simpl in Hm. repeat apply andb_prop in Hm as [Hm _]. by apply streq_true in Hm.
    + intros ls Hls. by apply yields_ret.
  - intros [[ls total]|e] Hr; by apply yields_ret.
Qed.

Lemma own_usage id feature offset limit : answers (ListLicenseUsage cx id feature offset limit).
Proof.
  apply yields_check. intros Ho.
  apply (yields_bind _ _ _ (fun r => match r with Ok (es, _) => Forall (fun e => foreign p db0 (ue_LicenseID e) = false) es | Err _ => True end)).
  - apply yields_attempt, (yields_bind _ _ _ (fun _ => True)); [apply yields_keeps, keeps_count|]. intros total _.
    apply (yields_bind _ _ _ (Forall (fun e => foreign p db0 (ue_LicenseID e) = false))).
    + apply yields_read. intros db es db' _ [= <- <-]. split; [done|]. apply Forall_forall. intros e He%page_elem.
      rewrite sort_by_perm, elem_of_rows in He. destruct He as (k & _ & [->%streq_true _]%andb_prop). done.
    + intros es Hes. by apply yields_ret.
  - intros [[es total]|e] Hr; [|by apply yields_ret].
    apply (yields_bind _ _ _ (fun r => match r with Ok cs => Forall (fun c => foreign p db0 (uc_LicenseID c) = false) cs | Err _ => True end)).
    + apply yields_attempt, yields_read. intros db cs db' _ [= <- <-]. split; [done|]. apply Forall_forall. intros c Hc.
      rewrite sort_le_perm, elem_of_rows in Hc. by destruct Hc as (k & _ & ->%streq_true).
    + intros [cs|e] Hc; by apply yields_ret.
Qed.

Lemma own_reset_usage id req : answers (ResetLicenseUsage cx id req).
Proof.
  apply yields_check. intros Ho. destruct req as [req|]; [|by apply yields_ret]. cbv zeta.
  apply yields_then; [keeps_go|]. intros key. repeat within_step.
Qed.

Lemma own_seats id : answers (ListLicenseSeats cx id).
Proof.
  apply yields_check. intros Ho.
  apply (yields_bind _ _ _ (fun r => match r with Ok ss => Forall (fun s => foreign p db0 (seat_LicenseID s) = false) ss | Err _ => True end)).
  - apply yields_attempt, yields_read. intros db ss db' _ [= <- <-]. split; [done|]. apply Forall_forall. intros s Hs.
    rewrite sort_by_perm, elem_of_rows in Hs. by destruct Hs as (k & _ & [->%streq_true _]%andb_prop).
  - intros [ss|e] Hs; [|by apply yields_ret]. unfold CountActiveSeats. repeat within_step.
Qed.

Lemma own_sessions id : answers (ListFloatingSessions_ cx id).
Proof.
  apply yields_check. intros Ho.
  apply (yields_bind _ _ _ (fun r => match r with Ok ss => Forall (fun s => foreign p db0 (fs_LicenseID s) = false) ss | Err _ => True end)).
  - apply yields_attempt, yields_then; [apply keeps_sql_now|]. intros now. apply yields_read. intros db ss db' _ [= <- <-].
    split; [done|]. apply Forall_forall. intros s Hs.
    rewrite sort_by_perm, elem_of_rows in Hs. by destruct Hs as (k & _ & [->%streq_true _]%andb_prop).
  - intros [ss|e] Hs; [|by apply yields_ret]. unfold CountActiveFloating. repeat within_step.
Qed.

Lemma own_addons id : answers (ListLicenseAddons_ cx id).
Proof.
  apply yields_check. intros Ho.
  apply (yields_bind _ _ _ (fun r => match r with Ok las => Forall (fun a => foreign p db0 (la_LicenseID a) = false) las | Err _ => True end)).
  - apply yields_attempt, yields_read. intros db las db' _ [= <- <-]. split; [done|]. apply Forall_forall. intros a Ha.
    apply list_elem_of_fmap in Ha as (a0 & -> & Ha). apply elem_of_rows in Ha as (k & _ & [Hid%streq_true _]%andb_prop).
    change (foreign p db0 (la_LicenseID a0) = false). by rewrite Hid.
  - intros [las|e] Hs; by apply yields_ret.
Qed.

Lemma own_add id req : answers (AddLicenseAddon_ cx id req).
Proof.
  apply yields_check. intros Ho. destruct req as [addonID|]; [|by apply yields_ret].
  apply yields_then; [apply keeps_newID|]. intros new. cbv zeta. apply yields_then; [keeps_go; by apply own_add_addon|]. intros [[]|e]; by apply yields_ret.
Qed.

Lemma own_remove id addonID : answers (RemoveLicenseAddon_ cx id addonID).
Proof.
  apply yields_check. intros Ho. apply yields_then; [keeps_go; by apply own_remove_addon|]. intros [[]|e]; by apply yields_ret.
Qed.

Lemma confined_export format q status : keeps I (ExportLicenses h format q status).
Proof.
  unfold ExportLicenses. cbv zeta. destruct (_ && _); [apply keeps_ret|].
  apply keeps_bind; [apply keeps_attempt, keeps_read; by intros db ls db' [= _ <-]|]. intros [ls|e]; [|apply keeps_ret].
  apply keeps_bind; [apply keeps_time_Now|]. intros _. apply keeps_bind; [|intros; apply keeps_ret].
  induction ls as [|l ls IH]; simpl; [apply keeps_ret|]. unfold export_row. keeps_go.
Qed.

Definition exports (r : LicenseRoute) : bool := match r with RExportLicenses _ _ _ => true | _ => false end.

Lemma confined_route r : keeps I (license_route h parse mail cx r) /\ (exports r = false -> answers (license_route h parse mail cx r)).
Proof.
  enough (exports r = false -> answers (license_route h parse mail cx r)) as Hr.
  { split; [|done]. destruct (exports r) eqn:E; [|by eapply keeps_yields, Hr]. destruct r; try done. apply confined_export. }
  destruct r; simpl; intros Hx; try done.
  - apply own_list. - apply own_GetLicense. - apply own_CreateLicense. - apply own_Refund. - apply own_Revoke.
  - apply own_Suspend. - apply own_Reinstate. - apply own_SetValidUntil. - apply own_ChangePlan. - apply own_usage.
  - apply own_reset_usage. - apply own_seats. - apply own_addons. - apply own_add. - apply own_remove.
  - apply own_sessions. - apply own_DeleteActivation.
Qed.
End confined.
