(* ===== verification/AccessProps.v ===== *)
(** * What the access control of the administration ensures

    Who reaches a handler ([authorize_sound]), what a key bound to a product may
    change and see ([key_confined]), and what rotating a key does. *)

From S2P Require Import Prelude GoStrings Errors Model Crypto KeyGen GoTime RateLimit World Tables Logic AesGcm Store Webhook.
From S2P Require Import Usage Entitlement Seats Floating Sessions ReleaseStore Lookup Payments Access AdminLicense.
From S2P Require Import Confinement AdminScope Audited.
From Stdlib Require Import Ascii String.

#[local] Open Scope string_scope.
#[local] Open Scope Z_scope.

(** The bearer of a request. *)
Definition bearer (cred : Credential) : string := extractBearer (cr_Authorization cred).
Definition presents_key (cred : Credential) : bool := HasPrefix (bearer cred) "kg_live_".

(** ** A key bound to a product *)

(** Every stored key with the secret's hash is bound to [p]. *)
Definition bound_to (p raw : string) (db : DB) : Prop :=
  forall k ak, db_api_keys db !! k = Some ak -> ak_KeyHash ak = HashAPIKey raw -> ak_ProductID ak = p.

Lemma keeps_touch {E} p raw (J : DB -> Prop) id ip :
  ignores_table J api_keys -> keeps (E := E) (fun db => J db /\ bound_to p raw db) (TouchAPIKey id ip).
Proof.
  intros HJ. unfold TouchAPIKey. keeps_go. apply keeps_stmt. intros db n db' [Hj Hb] [= _ <-]. split; [by apply HJ|].
  intros k ak Hk. change (update_rows (is_key id) (ak_touched a ip) (db_api_keys db) !! k = Some ak) in Hk.
  rewrite lookup_update_rows in Hk. destruct (db_api_keys db !! k) as [ak0|] eqn:E0; [|done]. injection Hk as <-.
  specialize (Hb _ _ E0). by destruct (is_key id ak0).
Qed.

(** What the chain lets through for a key: a context that carries it. *)
Lemma yields_authorize {E} `{UUIDs} jwt secret g limiter cred p (J : DB -> Prop) :
  ignores_table J api_keys -> presents_key cred = true ->
  yields (fun db => J db /\ bound_to p (bearer cred) db) (authorize (E := E) jwt secret g limiter cred)
    (fun a => match a with inl cx => exists ak, cx_api_key cx = Some ak /\ ak_ProductID ak = p | inr _ => True end).
Proof.
  intros HJ Hb. unfold authorize. eapply (yields_bind _ _ _
    (fun a => match a with inl cx => exists ak, cx_api_key cx = Some ak /\ ak_ProductID ak = p | inr _ => True end)).
  - unfold sessionOrAPIKey. unfold presents_key, bearer in Hb. rewrite Hb.
    apply (yields_bind _ _ _ (fun r => match r with Ok pa => ak_ProductID pa.2 = p | Err _ => True end)).
    + apply yields_attempt, yields_read. intros db pa db' [_ Hbound] Hr. destruct (key_with _ db) as [ak|] eqn:Ek; [|done].
      injection Hr as <- <-. split; [done|]. apply first_row_rows in Ek as (k & Hk & Hh%streq_true). by apply (Hbound k).
    + intros [[q ak]|e] Hak; [|by apply yields_ret]. apply yields_then; [by apply keeps_touch|]. intros _.
      apply yields_ret. by exists ak.
  - intros [cx|no] Hcx; [|by apply yields_ret].
    repeat match goal with |- yields _ (match ?x with _ => _ end) _ => destruct x end; by apply yields_ret.
Qed.

(** The chain, then a handler that answers a key of [p] with what satisfies [F]. *)
Definition serve_group `{UUIDs} {A} (refused : Z -> string -> A) jwt secret g limiter cred (route : Context_ -> M goerr A) : M goerr A :=
  a ← authorize jwt secret g limiter cred;
  match a with inr (status, code) => mret (refused status code) | inl cx => route cx end.

Lemma yields_serve `{UUIDs} {A} (refused : Z -> string -> A) jwt secret g limiter cred p (J : DB -> Prop) route (F : A -> Prop) w :
  ignores_table J api_keys -> presents_key cred = true -> bound_to p (bearer cred) (w_db w) -> w_tx w = None -> J (w_db w) ->
  (forall cx ak, cx_api_key cx = Some ak -> ak_ProductID ak = p -> yields J (route cx) F) -> (forall status code, F (refused status code)) ->
  let '(answer, w') := serve_group refused jwt secret g limiter cred route w in
  J (w_db w') /\ match answer with Ok a => F a | Err _ => True end.
Proof.
  intros HJ Hb Hbound Hw Hj Hroute Hno.
  assert (safe (fun db => J db /\ bound_to p (bearer cred) db) w) as Hs by by apply safe_closed.
  unfold serve_group, mbind, M_bind. destruct (yields_authorize (E := goerr) jwt secret g limiter cred p J HJ Hb w Hs) as [Hs1 Hcx].
  destruct (authorize _ _ _ _ _ w) as [[[cx|[status code]]|e] w1]; simpl in Hs1, Hcx |- *; [|by split; [apply Hs1|apply Hno]|by split; [apply Hs1|]].
  destruct Hcx as (ak & Hk & Hq).
  assert (safe J w1) as Hs1' by (destruct Hs1 as [[HI _] Htx]; split; [done|]; intros tx Et; by apply Htx).
  destruct (Hroute cx ak Hk Hq w1 Hs1') as [[Hj' _] Hans]. by destruct (route cx w1).
Qed.

(** ** Who reaches a handler *)

Definition scope_allowed (g : Group) (ak : APIKey) : Prop :=
  ScopeAdmin ∈ ak_Scopes ak \/ exists s, s ∈ allowed_scopes g /\ s ∈ ak_Scopes ak.

(** A stored key of the secret presented. *)
Definition by_key (g : Group) (cred : Credential) (db : DB) (cx : Context_) : Prop :=
  presents_key cred = true /\
  exists k ak, db_api_keys db !! k = Some ak /\ ak_KeyHash ak = HashAPIKey (bearer cred) /\ scope_allowed g ak /\
    cx_api_key cx = Some ak.

(** An administrator's session, opened with a passkey and not revoked. *)
Definition by_session (jwt_parse : string -> string -> Time -> option Claims) (secret : string) (cred : Credential)
    (db : DB) (cx : Context_) : Prop :=
  presents_key cred = false /\ cx_api_key cx = None /\
  exists now claims k u, jwt_parse secret (session_token cred) now = Some claims /\ cl_AuthMethod claims = "webauthn" /\
    db_users db !! k = Some u /\ user_ID u = cl_UserID claims /\ user_SessionVersion u = cl_SessionVersion claims /\
    admin_role (user_Role u) = true /\ cx_user_id cx = Some (cl_UserID claims).

Lemma session_state_Ok {E} id v admin w w' :
  FindUserSessionState (E := E) id v w = (Ok (admin, true), w') -> w_db w' = w_db w /\
  exists k u, db_users (w_db w) !! k = Some u /\ user_ID u = id /\ user_SessionVersion u = v /\ admin = admin_role (user_Role u).
Proof.
  unfold FindUserSessionState. intros Hr. inv_ok. match goal with Hf : FindUserByID _ _ = (?r, _) |- _ =>
    pose proof (select_one_db _ _ _ _ _ Hf) as [Edb _]; destruct r as [u|]; [|done] end.
  match goal with Hf : FindUserByID _ _ = _ |- _ => apply select_one_Ok in Hf as (k & Hk & Hid) end.
  split; [done|]. destruct (negb _) eqn:Hv; [done|]. apply negb_false_iff, Z.eqb_eq in Hv.
  match goal with Ha : _ = (admin, true) |- _ => injection Ha as <- end. unfold is_user in Hid. apply streq_true in Hid. by exists k, u.
Qed.

Lemma session_context_sound {E} jwt_parse secret cred cx w w' :
  session_context (E := E) jwt_parse secret cred w = (Ok (inl cx), w') ->
  cx_api_key cx = None /\ cx_auth_type cx = "session" /\
  exists now claims k u, jwt_parse secret (session_token cred) now = Some claims /\ cx_auth_method cx = cl_AuthMethod claims /\
    db_users (w_db w) !! k = Some u /\ user_ID u = cl_UserID claims /\ user_SessionVersion u = cl_SessionVersion claims /\
    cx_is_admin cx = Some (admin_role (user_Role u)) /\ cx_user_id cx = Some (cl_UserID claims).
Proof.
  unfold session_context. intros Hr. apply bind_Ok in Hr as (r & w1 & Hs & Hr).
  destruct r as [who|[]]; apply mret_Ok in Hr as [Hcx _]; try done. injection Hcx as <-. split; [done|]. split; [done|].
  unfold sessionAuth in Hs. destruct (streq _ ""); [by apply mret_Ok in Hs as [? _]|].
  apply bind_Ok in Hs as (now & w2 & Hn & Hs). assert (w_db w2 = w_db w) as Ed.
  { pose proof (still_time_Now (E := E) w) as (Ed & _). by rewrite Hn in Ed. }
  destruct (jwt_parse _ _ _) as [claims|] eqn:Ej; [|by apply mret_Ok in Hs as [? _]].
  destruct (_ || _); [by apply mret_Ok in Hs as [? _]|]. apply bind_Ok in Hs as ([admin valid] & w3 & Hf & Hs).
  destruct valid; [|by apply mret_Ok in Hs as [? _]]. simpl in Hs. apply mret_Ok in Hs as [Hw _]. injection Hw as <-.
  apply session_state_Ok in Hf as (_ & k & u & Hu & Hid & Hv & ->). rewrite Ed in Hu.
  by exists now, claims, k, u.
Qed.

Lemma RequireScope_key g cx ak :
  cx_auth_type cx = "api_key" -> cx_api_key cx = Some ak -> RequireScope (allowed_scopes g) cx = None -> scope_allowed g ak.
Proof.
  unfold RequireScope, scope_allowed. intros -> ->. cbn [streq]. change (streq "api_key" "session") with false.
  change (streq "api_key" "api_key") with true. cbn [negb].
  destruct (contains ScopeAdmin _) eqn:Ha; [left; by apply bool_decide_eq_true in Ha|].
  destruct (existsb _ _) eqn:He; [|done]. intros _. right. apply existsb_exists in He as (s & Hs & Hc).
  exists s. rewrite list_elem_of_In. split; [done|]. by apply bool_decide_eq_true in Hc.
Qed.

Lemma authorize_lets `{UUIDs} {E} jwt_parse secret g limiter cred cx w w' :
  authorize (E := E) jwt_parse secret g limiter cred w = (Ok (inl cx), w') ->
  limiter = Some true /\ (by_key g cred (w_db w) cx \/ by_session jwt_parse secret cred (w_db w) cx).
Proof.
  unfold authorize. intros Hr. apply bind_Ok in Hr as (r & w1 & Ha & Hr). destruct r as [cx0|no]; [|by apply mret_Ok in Hr as [? _]].
  destruct (rate_refusal limiter) eqn:El; [by apply mret_Ok in Hr as [? _]|].
  destruct (RequirePasskeyStepUp cx0) eqn:Es; [by apply mret_Ok in Hr as [? _]|].
  destruct (RequireScope _ cx0) eqn:Ec; [by apply mret_Ok in Hr as [? _]|]. apply mret_Ok in Hr as [Hcx _]. injection Hcx as ->.
  split; [by destruct limiter as [[]|]|]. unfold sessionOrAPIKey in Ha. unfold by_key, by_session, presents_key, bearer.
  destruct (HasPrefix _ _) eqn:Hb.
  - left. split; [done|]. apply bind_Ok in Ha as (r & w2 & Hf & Ha). apply (proj1 (attempt_Ok _ _ _ _)) in Hf.
    destruct r as [[q ak]|e]; [|by apply mret_Ok in Ha as [? _]]. apply bind_Ok in Ha as (? & w3 & _ & Ha).
    apply mret_Ok in Ha as [Hcx _]. injection Hcx as <-. apply stmt_Ok in Hf as (Hf & _).
    destruct (key_with _ _) as [ak'|] eqn:Ek; [|done]. injection Hf as _ -> _. apply first_row_rows in Ek as (k & Hk & Hh%streq_true).
    exists k, ak. split_and!; [done|done|eapply RequireScope_key, Ec; done|done].
  - right. apply session_context_sound in Ha as (Hk & Ht & now & claims & k & u & Hj & Hm & Hu & Hid & Hv & Hadm & Hwho).
    unfold RequirePasskeyStepUp in Es. rewrite Ht, Hm in Es. change (streq "session" "api_key") with false in Es.
    change (streq "session" "session") with true in Es. simpl in Es. destruct (streq _ "webauthn") eqn:Ew; [|done].
    apply streq_true in Ew. unfold RequireScope in Ec. rewrite Ht, Hadm in Ec. change (streq "session" "session") with true in Ec.
    cbn in Ec. destruct (admin_role _) eqn:Er; [|done]. split; [done|]. split; [done|]. by exists now, claims, k, u.
Qed.

(** No stored key of the secret has a scope of the group. *)
Definition unscoped (g : Group) (raw : string) (db : DB) : Prop :=
  forall k ak, db_api_keys db !! k = Some ak -> ak_KeyHash ak = HashAPIKey raw -> ~ scope_allowed g ak.

Lemma refused_unscoped `{UUIDs} {A} (refused : Z -> string -> A) jwt secret g limiter cred p route w (J : DB -> Prop) :
  ignores_table J api_keys -> presents_key cred = true -> bound_to p (bearer cred) (w_db w) -> unscoped g (bearer cred) (w_db w) ->
  w_tx w = None -> J (w_db w) ->
  let '(answer, w') := serve_group refused jwt secret g limiter cred route w in
  J (w_db w') /\ match answer with Ok a => exists status code, a = refused status code | Err _ => True end.
Proof.
  intros HJ Hb Hbound Hno Hw Hj. assert (safe (fun db => J db /\ bound_to p (bearer cred) db) w) as Hs by by apply safe_closed.
  unfold serve_group, mbind, M_bind. destruct (yields_authorize (E := goerr) jwt secret g limiter cred p J HJ Hb w Hs) as [Hs1 _].
  destruct (authorize _ _ _ _ _ w) as [[[cx|[status code]]|e] w1] eqn:Ea; simpl in Hs1 |- *.
  - apply authorize_lets in Ea as [_ [(_ & k & ak & Hk & Hh & Hallow & _)|(Hn & _)]]; [by destruct (Hno k ak)|by rewrite Hb in Hn].
  - split; [apply Hs1|by exists status, code].
  - by split; [apply Hs1|].
Qed.

(** ** What a key may change *)

(** C14. Key_confined: a request that presents a key of the product [p], whatever
    route of the licence group it calls and whatever statement fails, changes no
    licence of another product, and no activation, subscription, usage or add-on
    of one; except for the export, what it is answered speaks of [p]'s licences
    only. A route of any group the key has no scope for refuses it and changes
    none of those either: all that a key of [licenses:write] alone reaches of the
    administration is the licence group. (A key of the scope [admin] passes the
    chain of every group.) *)
Theorem key_confined `{UUIDs} `{GCM} `{Stripe} h parse mail jwt secret limiter cred r p w :
  presents_key cred = true -> p <> "" -> bound_to p (bearer cred) (w_db w) ->
  w_tx w = None -> licenses_keyed (w_db w) -> activations_keyed (w_db w) ->
  (let '(answer, w') := serve_license h parse mail jwt secret limiter cred r w in
   others_kept p (w_db w) (w_db w') /\
   (exports r = false -> match answer with Ok a => within p (w_db w) a | Err _ => True end)) /\
  (forall A (refused : Z -> string -> A) g route, unscoped g (bearer cred) (w_db w) ->
     let '(answer, w') := serve_group refused jwt secret g limiter cred route w in
     others_kept p (w_db w) (w_db w') /\
     match answer with Ok a => exists status code, a = refused status code | Err _ => True end).
Proof.
  intros Hb Hp Hbound Hw Hl Ha.
  pose proof (yields_serve (fun status code => Refused status code "") jwt secret GroupLicWrite limiter cred p
    (confined p (w_db w)) (fun cx => license_route h parse mail cx r) (fun a => exports r = false -> within p (w_db w) a) w) as Hserve.
  unfold serve_group in Hserve. fold (serve_license h parse mail jwt secret limiter cred r w) in Hserve. split.
  - destruct (serve_license h parse mail jwt secret limiter cred r w) as [answer w'].
    destruct Hserve as [[Hkept _] Hans]; [by intros m db|done..|by apply confined_start| |done|split; [done|]; intros Hx; destruct answer; auto].
    intros cx ak Hk Hq. destruct (confined_route p (w_db w) h parse mail cx ak Hk Hq Hp r) as [Hkeep Hans].
    intros w1 Hs1. split; [by apply Hkeep|]. destruct (fst _) eqn:Er; [|done]. intros Hx. specialize (Hans Hx w1 Hs1). rewrite Er in Hans. apply Hans.
  - intros A refused g route Hno. pose proof (refused_unscoped refused jwt secret g limiter cred p route w (confined p (w_db w))) as Href.
    destruct (serve_group _ _ _ _ _ _ _ w) as [answer w'].
    destruct Href as [[Hkept _] Hans]; [by intros m db|done..|by apply confined_start|done].
Qed.

(** C15. Authorize_sound: the chain lets a request through only when the rate limiter
    allows it and it presents a stored key with a scope of the group, or an
    administrator's live session opened with a passkey. *)
Theorem authorize_sound `{UUIDs} {E} jwt_parse secret g limiter cred cx w w' :
  authorize (E := E) jwt_parse secret g limiter cred w = (Ok (inl cx), w') ->
  limiter = Some true /\ (by_key g cred (w_db w) cx \/ by_session jwt_parse secret cred (w_db w) cx).
Proof. apply authorize_lets. Qed.

(** ** Revoking a licence *)

(** What a revocation does to the tables. *)
Definition revoked (id actor ip : string) (db db' : DB) : Prop :=
  (exists l now, db_licenses db !! id = Some l /\
     db_licenses db' = <[id := lic_set_status StatusRevoked now l]> (db_licenses db)) /\
  db_activations db' = delete_rows (Store.of_license id) (db_activations db) /\
  (exists t, db_subscriptions db'
             = update_rows (fun s => streq (sub_LicenseID s) id) (sub_set_Status StatusRevoked t) (db_subscriptions db)) /\
  (exists k now, db_audit_logs db !! k = None /\
     db_audit_logs db' = <[k := mkAuditLog k "license" id "revoked" actor "admin" ∅ ip now]> (db_audit_logs db)).

(** An update of the row of a key. *)
Lemma update_rows_key {R} (m : gmap string R) (key : R -> string) (id : string) f r :
  (forall k r, m !! k = Some r -> key r = k) -> m !! id = Some r ->
  update_rows (fun r => streq (key r) id) f m = <[id := f r]> m.
Proof.
  intros Hk Hr. apply map_eq. intros k. rewrite lookup_update_rows. destruct (decide (k = id)) as [->|Hne].
  - rewrite lookup_insert_eq, Hr. simpl. by rewrite (Hk _ _ Hr), streq_refl.
  - rewrite lookup_insert_ne by done. destruct (m !! k) as [r'|] eqn:E; [|done]. simpl. rewrite (Hk _ _ E).
    by rewrite (proj2 (streq_false k id)).
Qed.

Lemma count_key_nonzero {R} (m : gmap string R) (key : R -> string) id :
  (forall k r, m !! k = Some r -> key r = k) -> count (fun r => streq (key r) id) m <> 0 -> exists r, m !! id = Some r.
Proof.
  intros Hk Hn. destruct (m !! id) as [r|] eqn:E; [by exists r|]. exfalso. apply Hn, count_zero. intros k r Hr.
  apply streq_false. rewrite (Hk _ _ Hr). congruence.
Qed.

Section revocation.
Context `{UUIDs}.

Definition revoke_license (id : string) : M goerr unit :=
  delete_activations_of id ;;
  now ← time_Now;
  n ← sql_update licenses (fun l => streq (lic_ID l) id) (lic_set_status StatusRevoked now);
  must_affect n (fun n => negb (n =? 0)) (ErrText "license not found") ;;
  set_subscription_status StatusRevoked id ;;
  mret tt.

Lemma still_db {E A} (m : M E A) w a w' : still m -> m w = (Ok a, w') -> w_db w' = w_db w.
Proof. intros Hm Hr. destruct (Hm w) as [Hd _]. by rewrite Hr in Hd. Qed.

Lemma revoke_license_Ok id log w w' k now :
  licenses_keyed (w_db w) -> revoke_license id w = (Ok tt, w') -> db_audit_logs (w_db w') !! k = None ->
  revoked id (audit_ActorID log) (audit_IPAddress log) (w_db w)
    (add_audit k now (mkAuditLog "" "license" id "revoked" (audit_ActorID log) "admin" ∅ (audit_IPAddress log) 0) (w_db w')).
Proof.
  intros Hkey Hr Hk. unfold revoke_license in Hr. apply bind_Ok in Hr as (n & w1 & Hd & Hr). apply stmt_Ok in Hd as (Hd & _).
  injection Hd as _ Hd. apply bind_Ok in Hr as (now1 & w2 & Hn & Hr). apply still_db in Hn; [|apply still_time_Now].
  apply bind_Ok in Hr as (n2 & w3 & Hu & Hr). apply stmt_Ok in Hu as (Hu & _). injection Hu as Hn2 Hu.
  apply bind_Ok in Hr as ([] & w4 & Hm & Hr). unfold must_affect in Hm. destruct (n2 =? 0) eqn:E2; [done|]. injection Hm as <-.
  apply bind_Ok in Hr as (n3 & w5 & Hs & Hr). apply mret_Ok in Hr as [_ <-]. unfold set_subscription_status in Hs.
  apply bind_Ok in Hs as (t & w6 & Ht & Hs). apply still_db in Ht; [|apply still_sql_now].
  apply stmt_Ok in Hs as (Hs & _). cbv zeta in Hs. destruct (head _) in Hs; [done|]. injection Hs as _ Hs.
  rewrite Hn, <- Hd in Hu, Hn2. rewrite Ht, <- Hu in Hs. rewrite <- Hs in Hk |- *. apply Z.eqb_neq in E2.
  change (db_licenses (t_set activations ?m ?db)) with (db_licenses db) in *.
  destruct (count_key_nonzero (db_licenses (w_db w)) lic_ID id Hkey) as [l Hl]; [by rewrite <- Hn2 in E2|].
  split; [exists l, now1; split; [done|by apply (update_rows_key _ lic_ID)]|]. split; [done|]. split; [by exists t|].
  by exists k, now.
Qed.

Lemma honest_revoke id : honest (revoke_license id).
Proof. unfold revoke_license, delete_activations_of, set_subscription_status. honest_go. Qed.

Lemma revoke_audited id actor ip w :
  w_tx w = None -> licenses_keyed (w_db w) ->
  let '(r, w') := RevokeLicenseWithAudit id actor ip w in
  r <> Ok tt /\ w_db w' = w_db w \/ revoked id actor ip (w_db w) (w_db w').
Proof.
  intros Hw Hk. pose proof (audited_atomic (mkAuditLog "" "license" id "revoked" actor "admin" ∅ ip 0) (revoke_license id) w
    eq_refl (honest_revoke id) Hw) as Ha. change (RunAuditedMutation _ (revoke_license id)) with (RevokeLicenseWithAudit id actor ip) in Ha.
  destruct (RevokeLicenseWithAudit id actor ip w) as [r w']. destruct Ha as [Ha|(w1 & w2 & k & now & Hd & Hr & Hn & ->)]; [by left|right].
  rewrite <- Hd in Hk |- *. by apply (revoke_license_Ok id (mkAuditLog "" "license" id "revoked" actor "admin" ∅ ip 0)).
Qed.

(** What a revocation may change. *)
Definition same_records (db db' : DB) : Prop :=
  db_licenses db' = db_licenses db /\ db_activations db' = db_activations db /\
  db_subscriptions db' = db_subscriptions db /\ db_audit_logs db' = db_audit_logs db.

Lemma revoked_same id actor ip db db' db2 : revoked id actor ip db db' -> same_records db' db2 -> revoked id actor ip db db2.
Proof. unfold revoked. by intros Hr (-> & -> & -> & ->). Qed.

Lemma keeps_told h id db w : w_tx w = None -> same_records db (w_db w) ->
  same_records db (w_db (snd ((if ah_Webhook h then
    if_found id (fun lic => Dispatch (lic_ProductID lic) "license.revoked" (license_data id lic)) else mret tt) w))).
Proof.
  intros Hw Hs. assert (keeps (same_records db) (if ah_Webhook h then
    if_found id (fun lic => Dispatch (lic_ProductID lic) "license.revoked" (license_data id lic)) else mret tt)) as Hk.
  { unfold if_found, FindLicenseByID, select_license.
    repeat first [apply keeps_Dispatch; by intros ??|apply keeps_read; by same_tables|keeps_step]. }
  apply (Hk w). by apply safe_closed.
Qed.

(** Revocation_atomic: whatever fails, revoking a licence leaves it as it was,
    or revokes it, drops all its devices, ends its subscriptions and records who
    did it; only the latter is answered with success. *)
Theorem revocation_atomic h cx id w :
  w_tx w = None -> licenses_keyed (w_db w) ->
  let '(r, w') := RevokeLicense_ h cx id w in
  revoked id (adminID cx) (cx_ip cx) (w_db w) (w_db w') \/
  same_records (w_db w) (w_db w') /\ r <> Ok (Answered 200 {["status" := AnyString "revoked"]}).
Proof.
  intros Hw Hk. unfold RevokeLicense_, checkLicenseScope. unfold mbind at 1, M_bind at 1.
  assert (readonly (GetLicenseProductID id)) as Hro by (apply readonly_stmt; same_tables).
  unfold attempt at 1. pose proof (Hro w Hw) as (Hd & Ht & _). destruct (GetLicenseProductID id w) as [[q|e] w1]; simpl in Hd, Ht.
  2: { right. by rewrite Hd. }
  unfold scoped. destruct (requireKeyProductScope cx q); [|right; by rewrite Hd].
  unfold mbind at 1, M_bind at 1, attempt at 1. rewrite <- Hd in Hk |- *. clear Hd Hro Hw w.
  pose proof (revoke_audited id (adminID cx) (cx_ip cx) w1 Ht Hk) as Ha.
  assert (closes (RevokeLicenseWithAudit id (adminID cx) (cx_ip cx))) as Hcl.
  { unfold RevokeLicenseWithAudit, RunAuditedMutation, fresh_id. closes_go. }
  specialize (Hcl w1 Ht). destruct (RevokeLicenseWithAudit _ _ _ w1) as [[[]|e] w2]; simpl in Hcl.
  - destruct Ha as [[Hn _]|Ha]; [by destruct (Hn eq_refl)|]. unfold mbind, M_bind.
    pose proof (keeps_told h id (w_db w2) w2 Hcl) as Hs.
    match type of Hs with _ -> same_records _ (w_db (snd ?x)) => destruct x as [[[]|e] w3] end;
      simpl; left; eapply revoked_same; [exact Ha|by apply Hs|exact Ha|by apply Hs].
  - simpl. destruct Ha as [[_ ->]|Ha]; [by right|by left].
Qed.
End revocation.

(** ** Rotating a key *)

(** The keys as the table holds them: by identifier, one per secret. *)
Definition keys_indexed (db : DB) : Prop :=
  (forall k ak, db_api_keys db !! k = Some ak -> ak_ID ak = k) /\
  (forall k k' ak ak', db_api_keys db !! k = Some ak -> db_api_keys db !! k' = Some ak' ->
     ak_KeyHash ak = ak_KeyHash ak' -> k = k').

Lemma key_with_Some db k ak hash :
  keys_indexed db -> db_api_keys db !! k = Some ak -> ak_KeyHash ak = hash -> key_with hash db = Some ak.
Proof.
  intros [_ Hu] Hk Hh. unfold key_with. apply (first_row_unique _ _ k); [done|by rewrite Hh, streq_refl|].
  intros k' ak' Hk' Hh'%streq_true. eapply Hu; [done..|congruence].
Qed.

Lemma key_with_inv db hash ak : key_with hash db = Some ak -> exists k, db_api_keys db !! k = Some ak /\ ak_KeyHash ak = hash.
Proof. intros (k & Hk & Hh%streq_true)%first_row_rows. by exists k. Qed.

Lemma key_with_None db hash : key_with hash db = None <-> forall k ak, db_api_keys db !! k = Some ak -> ak_KeyHash ak <> hash.
Proof. unfold key_with. rewrite first_row_rows_None. by setoid_rewrite streq_false. Qed.

Section rotation.
Context `{UUIDs}.

Definition swap_secret (id hash prefix : string) : M goerr unit :=
  n ← sql_update_checked api_keys id (ak_rotated hash prefix);
  must_affect n (fun n => n =? 1) (ErrText "api key not found").

(** The row of [id] has a new secret that no other row has. *)
Definition swapped (id hash prefix : string) (db db' : DB) : Prop :=
  exists ak, db_api_keys db !! id = Some ak /\
    (forall k ak', db_api_keys db !! k = Some ak' -> ak_KeyHash ak' = hash -> k = id) /\
    db_api_keys db' = <[id := ak_rotated hash prefix ak]> (db_api_keys db).

Lemma swap_secret_Ok id hash prefix w w' :
  swap_secret id hash prefix w = (Ok tt, w') -> swapped id hash prefix (w_db w) (w_db w').
Proof.
  unfold swap_secret. intros Hr. apply bind_Ok in Hr as (n & w1 & Hu & Hm). apply stmt_Ok in Hu as (Hu & _). cbv zeta in Hu.
  change (t_get api_keys (w_db w)) with (db_api_keys (w_db w)) in Hu. unfold must_affect in Hm.
  destruct (db_api_keys (w_db w) !! id) as [ak|] eqn:Hk; [|by injection Hu as <- _].
  destruct (row_exists _ _) eqn:Hx; [done|]. destruct (t_check _ _ _); [done|]. injection Hu as <- Hd. injection Hm as <-.
  exists ak. split; [done|]. rewrite <- Hd. split; [|done]. rewrite row_exists_false in Hx. intros k ak' Hk' Hh.
  destruct (decide (k = id)) as [|Hne]; [done|]. specialize (Hx k ak'). rewrite lookup_delete_ne in Hx by done.
  specialize (Hx Hk'). simpl in Hx. rewrite Hh, streq_refl in Hx. done.
Qed.

Lemma swapped_keys id hash prefix db db' :
  keys_indexed db -> swapped id hash prefix db db' ->
  (exists ak ak', db_api_keys db !! id = Some ak /\ key_with hash db' = Some ak' /\ ak' = ak_rotated hash prefix ak) /\
  (forall other, other <> hash -> key_with other db'
     = match key_with other db with Some old => if streq (ak_ID old) id then None else Some old | None => None end).
Proof.
  intros Hi (ak & Hk & Hfree & Hd). pose proof Hi as [Hid Hu]. assert (keys_indexed db') as Hi'.
  { unfold keys_indexed. rewrite Hd. split.
    - intros k ak' [[<- <-]|[_ Hk']]%lookup_insert_Some; [exact (Hid _ _ Hk)|by apply Hid].
    - intros k k' a a' [[<- <-]|[Hne Ha]]%lookup_insert_Some [[<- <-]|[Hne' Ha']]%lookup_insert_Some Hh; [done| | |by eapply Hu].
      + symmetry. by apply (Hfree _ _ Ha').
      + by apply (Hfree _ _ Ha). }
  split.
  - exists ak, (ak_rotated hash prefix ak). split_and!; [done| |done].
    apply (key_with_Some _ id); [done| |done]. by rewrite Hd, lookup_insert_eq.
  - intros other Ho. destruct (key_with other db) as [old|] eqn:Eo.
    + apply key_with_inv in Eo as (k & Hk' & Hh). rewrite (Hid _ _ Hk'). destruct (streq k id) eqn:Ek.
      * apply streq_true in Ek as ->. apply key_with_None. rewrite Hd.
        intros k ak' [[<- <-]|[Hne Ha]]%lookup_insert_Some; [simpl; congruence|]. intros Hh'. apply Hne. symmetry. eapply Hu; [done..|congruence].
      * apply streq_false in Ek. apply (key_with_Some _ k); [done| |done]. rewrite Hd. by rewrite lookup_insert_ne.
    + rewrite key_with_None in Eo. apply key_with_None. rewrite Hd.
      intros k ak' [[<- <-]|[Hne Ha]]%lookup_insert_Some; [simpl; congruence|by eapply Eo].
Qed.

(** Rotation_replaces_secret: once a rotation is answered, the new secret and
    no other authenticates as the key, with its product and scopes; the
    secrets of the other keys are as they were. *)
Theorem rotation_replaces_secret cx id status ak raw prefix w w' :
  RotateAPIKey_ cx id w = (Ok (KeySecret status ak raw prefix), w') -> w_tx w = None -> keys_indexed (w_db w) ->
  (exists ak', key_with (HashAPIKey raw) (w_db w') = Some ak' /\ ak_ID ak' = id /\ ak_ProductID ak' = ak_ProductID ak /\
     ak_Scopes ak' = ak_Scopes ak) /\
  (forall secret, HashAPIKey secret <> HashAPIKey raw -> key_with (HashAPIKey secret) (w_db w')
     = match key_with (HashAPIKey secret) (w_db w) with
       | Some old => if streq (ak_ID old) id then None else Some old
       | None => None
       end).
Proof.
  unfold RotateAPIKey_. intros Hr Hw Hi. apply bind_Ok in Hr as (r & w1 & Hf & Hr). apply (proj1 (attempt_Ok _ _ _ _)) in Hf.
  destruct r as [ak0|e]; [|by apply mret_Ok in Hr as [? _]]. pose proof Hf as Hf'. apply select_one_db in Hf' as [Hd _].
  assert (w_tx w1 = None) as Hw1. { unfold FindAPIKeyByID in Hf. apply stmt_Ok in Hf as (_ & -> & _). done. }
  apply select_one_Ok in Hf as (k & Hk & Hid). unfold is_key in Hid. apply streq_true in Hid.
  change (db_api_keys (w_db w) !! k = Some ak0) in Hk. pose proof (proj1 Hi _ _ Hk) as Hkey. rewrite Hid in Hkey. subst k.
  apply bind_Ok in Hr as (raw0 & w2 & Hg & Hr).
  assert (still (GenerateRawAPIKey (E := goerr))) as Hstill.
  { intros w3. unfold GenerateRawAPIKey, randomHex, rand_Read, mbind, M_bind. by case_bool_decide. }
  pose proof (Hstill w1) as (Hd2 & Ht2 & _). rewrite Hg in Hd2, Ht2. simpl in Hd2, Ht2.
  apply bind_Ok in Hr as (r & w3 & Ha & Hr). apply (proj1 (attempt_Ok _ _ _ _)) in Ha. apply mret_Ok in Hr as [Hans <-].
  destruct r as [[]|e]; [|done]. injection Hans as <- <- <- <-.
  pose proof (audited_atomic (mkAuditLog "" "api_key" (ak_ID ak0) "rotated" (adminID cx) "admin" {["secret_replaced" := AnyBool true]} (cx_ip cx) 0)
    (swap_secret (ak_ID ak0) (HashAPIKey raw0) (stake 12 raw0)) w2 eq_refl) as Hat.
  change (RunAuditedMutation _ (swap_secret _ _ _)) with (RotateAPIKeyWithAudit (ak_ID ak0) raw0 (stake 12 raw0) (adminID cx) (cx_ip cx)) in Hat.
  rewrite Ha in Hat. destruct Hat as [[Hn _]|Hat]; [unfold swap_secret; honest_go|by rewrite Ht2|by destruct (Hn eq_refl)|].
  destruct Hat as (w4 & w5 & i & now & Hd4 & Hs & _ & Hd3). apply swap_secret_Ok in Hs. rewrite Hd4, Hd2, Hd, Hid in Hs.
  assert (swapped id (HashAPIKey raw0) (stake 12 raw0) (w_db w) (w_db w3)) as Hsw by (rewrite Hd3; exact Hs).
  apply swapped_keys in Hsw as [(ak1 & ak' & Hk1 & Hk' & ->) Hothers]; [|done]. rewrite Hk in Hk1. injection Hk1 as <-.
  split; [|intros secret Hne; by apply Hothers]. exists (ak_rotated (HashAPIKey raw0) (stake 12 raw0) ak0). by rewrite Hk'.
Qed.
End rotation.
