(* ===== verification/ReleaseScope.v ===== *)
(** * A key bound to a product publishes that product only

    Every handler of the release routes, run for a key of the product [p],
    keeps the releases of the other products and their artifacts, and answers
    with [p]'s only. *)

From S2P Require Import Prelude GoStrings Errors Model Crypto World Tables Logic AesGcm Store Webhook.
From S2P Require Import Sessions ReleaseStore Release ReleaseInv ReleaseProps Expiry ExpiryProps Access Confinement Scoped AdminScope AccessProps.
From S2P Require Import ReleaseAdmin.
From Stdlib Require Import Ascii String.

#[local] Open Scope string_scope.
#[local] Open Scope Z_scope.

(** Releases of another product, and their artifacts, are kept. *)
Definition other_releases_kept (p : string) : DB -> DB -> Prop :=
  aliens_kept releases release_artifacts rel_ProductID art_ReleaseID p.

(** What a key of [p] may be told. *)
Definition speaks_of (p : string) (db : DB) (a : ReleaseAnswer) : Prop :=
  let ours id := alien releases rel_ProductID p db id = false in
  match a with
  | AnsweredRelease _ r => rel_ProductID r = p
  | AnsweredReleases rs _ _ _ => Forall (fun r => rel_ProductID r = p) rs
  | AnsweredArtifact a => ours (art_ReleaseID a)
  | AnsweredUpload out => ours (art_ReleaseID (aar_Artifact out))
  | AnsweredStatus _ | RefusedWith _ => True
  | AnsweredKey _ | AnsweredKeys _ | AnsweredPEM _ | AnsweredPubkey _ => False
  end.

Section scope.
Context `{UUIDs} `{GCM} `{Ed25519} `{Storage} `{Semver} (s : ReleaseService) (p : string) (db0 : DB).
#[local] Abbreviation I := (within_product releases release_artifacts rel_ID rel_ProductID art_ID art_ReleaseID p db0).
#[local] Abbreviation ours := (mine releases rel_ProductID p db0).
#[local] Abbreviation our_artifact := (my_child releases release_artifacts rel_ProductID art_ReleaseID p db0).
#[local] Abbreviation answers m := (yields I m (speaks_of p db0)).

(** ** The store *)

Lemma scope_audit {E} log : keeps (E := E) I (Audit log).
Proof. apply keeps_audit_log. intros m db Hc. exact Hc. Qed.
Lemma scope_dispatch {E} rel event : keeps (E := E) I (dispatchWebhook s rel event).
Proof. unfold dispatchWebhook. destruct (rs_webhook s); [apply keeps_Dispatch; intros m db Hc; exact Hc|keeps_go]. Qed.
Lemma scope_storage {A} op key (answer : nat -> result goerr A) : keeps I (storage_call op key answer).
Proof. apply keeps_storage_call. Qed.
Lemma scope_cleanup {E} msg key : keeps (E := E) I (storage_cleanup msg key).
Proof. unfold storage_cleanup. keeps_go; apply scope_storage. Qed.
Lemma scope_product id : keeps I (FindProductByID id).
Proof. apply keeps_FindProductByID. Qed.
Hint Resolve scope_audit scope_dispatch scope_storage scope_cleanup scope_product keeps_FindReleaseByID keeps_FindArtifact
  keeps_join_release keeps_fresh_id : licensehub.

(** A release found is [p]'s when the key may touch it, and its artifacts with it. *)
Definition found_release (id : string) (r : Release) : Prop :=
  rel_ID r = id /\ (rel_ProductID r = p -> ours id) /\ (ours id -> rel_ProductID r = p /\ Forall (fun a => our_artifact (art_ID a)) (rel_Artifacts r)).

Lemma artifacts_ours db id : I db -> ours id -> Forall (fun a => our_artifact (art_ID a)) (artifacts_of id db).
Proof.
  intros Hi Ho. apply Forall_forall. intros a Ha. apply elem_of_rows in Ha as (k & Hk & Hown%streq_true).
  pose proof (proj2 (proj2 Hi) _ _ Hk) as Hid. rewrite Hid. eapply (child_mine releases release_artifacts); [exact Hi|exact Hk|by rewrite Hown].
Qed.

Lemma yields_release id : yields I (FindReleaseByID id) (found_release id).
Proof.
  apply yields_map_err, yields_read. intros db r db' Hi. destruct (first_row _) as [r0|] eqn:Er; [|done]. intros [= <- <-].
  split; [done|]. apply first_row_rows in Er as (k & Hk & Hid%streq_true). pose proof (proj1 (proj2 Hi) _ _ Hk) as Hk'. subst.
  split; [done|]. split; [intros Hq; eapply (mine_of releases release_artifacts); [exact Hi|exact Hk|exact Hq]|]. intros Ho.
  change (rel_ProductID r0 = p /\ Forall (fun a => our_artifact (art_ID a)) (artifacts_of (rel_ID r0) db)).
  split; [eapply (prod_of releases release_artifacts); [exact Hi|exact Hk|exact Ho]|by apply artifacts_ours].
Qed.

Lemma yields_release_product id : yields I (GetReleaseProductID id) (fun q => q = p -> ours id).
Proof.
  unfold GetReleaseProductID. eapply (yields_bind _ _ _ (fun r => rel_ProductID r = p -> ours id)); [|intros r Hr; by apply yields_ret].
  apply yields_read. intros db r db' Hi. destruct (first_row _) as [r0|] eqn:Er; [|done]. intros [= <- <-].
  split; [done|]. apply first_row_rows in Er as (k & Hk & Hid%streq_true). pose proof (proj1 (proj2 Hi) _ _ Hk) as Hk'. subst.
  intros Hq. eapply (mine_of releases release_artifacts); [exact Hi|exact Hk|exact Hq].
Qed.

Lemma yields_artifact id :
  yields I (FindArtifact id) (fun a => art_ID a = id /\ (ours (art_ReleaseID a) <-> our_artifact id)).
Proof.
  apply yields_map_err, yields_read. intros db a db' Hi. destruct (first_row _) as [a0|] eqn:Ea; [|done]. intros [= <- <-].
  split; [done|]. apply first_row_rows in Ea as (k & Hk & Hid%streq_true). pose proof (proj2 (proj2 Hi) _ _ Hk) as Hk'. subst.
  split; [done|]. eapply (child_mine releases release_artifacts); [exact Hi|exact Hk].
Qed.

(** *** Writes *)

Lemma scope_update_releases db P f :
  I db -> (forall r, P r = true -> ours (rel_ID r)) -> (forall r, rel_ID (f r) = rel_ID r /\ rel_ProductID (f r) = rel_ProductID r) ->
  I (t_set releases (update_rows P f (db_releases db)) db).
Proof. apply (within_update_parents releases release_artifacts rel_ID rel_ProductID art_ID art_ReleaseID p db0); done. Qed.
Lemma scope_delete_releases db P :
  I db -> (forall r, P r = true -> ours (rel_ID r)) -> I (t_set releases (delete_rows P (db_releases db)) db).
Proof. apply (within_delete_parents releases release_artifacts rel_ID rel_ProductID art_ID art_ReleaseID p db0); done. Qed.
Lemma scope_delete_artifacts db id :
  I db -> ours id -> I (t_set release_artifacts (delete_rows (owned id) (db_release_artifacts db)) db).
Proof.
  intros Hi Ho. apply (within_delete_children releases release_artifacts rel_ID rel_ProductID art_ID art_ReleaseID p db0); [done|exact Hi|].
  by intros k a _ ->%streq_true.
Qed.

Lemma own_create_release r : rel_ProductID r = p -> yields I (ReleaseStore.CreateRelease r) (fun row => rel_ProductID row = p).
Proof.
  intros Hp. unfold ReleaseStore.CreateRelease. apply yields_then; [auto with licensehub|]. intros id.
  apply yields_then; [auto with licensehub|]. intros now. cbv zeta.
  apply (yields_bind _ _ _ (fun _ => True)); [|intros _ _; by apply yields_ret].
  apply yields_keeps, keeps_map_err, (keeps_yields _ _ (fun _ => ours id)). by apply own_insert_parent.
Qed.

Lemma own_restatus P (f : Release -> Release) id :
  (forall r, P r = true -> rel_ID r = id) -> (forall r, rel_ID (f r) = rel_ID r /\ rel_ProductID (f r) = rel_ProductID r) ->
  ours id -> keeps I (sql_update_where releases P f).
Proof. intros HP Hf Ho. apply own_update_parents; [done| |done]. intros r Hr. by rewrite (HP r Hr). Qed.

Lemma scope_classify {A} id e : keeps I (classifyReleaseUpdateMiss (A := A) id e).
Proof. unfold classifyReleaseUpdateMiss. keeps_go. Qed.
Lemma scope_diagnose {A} id b : keeps I (diagnoseUnpublishable (A := A) id b).
Proof. unfold diagnoseUnpublishable. keeps_go. Qed.
Hint Resolve scope_classify scope_diagnose : licensehub.

Lemma in_status_id id status r : in_status id status r = true -> rel_ID r = id.
Proof. by intros [->%streq_true _]%andb_prop. Qed.

Lemma own_yank id reason : ours id -> keeps I (YankRelease id reason).
Proof. intros Ho. unfold YankRelease. repeat first [by apply (own_restatus _ _ id); [apply in_status_id| |]|keeps_step]. Qed.
Lemma own_unyank id : ours id -> keeps I (UnyankRelease id).
Proof. intros Ho. unfold UnyankRelease. repeat first [by apply (own_restatus _ _ id); [apply in_status_id| |]|keeps_step]. Qed.
Lemma own_notes id name notes : ours id -> keeps I (UpdateReleaseNotes id name notes).
Proof.
  intros Ho. unfold UpdateReleaseNotes. repeat first [by apply (own_restatus _ _ id); [by intros ? ->%streq_true| |]|keeps_step].
Qed.

Lemma own_publish id b : ours id -> keeps I (PublishRelease id b).
Proof.
  intros Ho. unfold PublishRelease. apply keeps_bind; [auto with licensehub|]. intros now. apply keeps_bind; [|intros n; keeps_go].
  apply keeps_stmt. intros db n db' Hi. unfold publish_update. cbv zeta. intros [= _ <-].
  apply scope_update_releases; [done| |done]. by intros r [->%streq_true _]%andb_prop.
Qed.

Lemma own_delete_release id : ours id -> keeps I (DeleteRelease id).
Proof.
  intros Ho. unfold DeleteRelease. repeat first [keeps_step|apply keeps_stmt]. unfold delete_draft in *. cbv zeta in *.
  match goal with E : Ok _ = Ok _ |- _ => injection E as _ <- end.
  match goal with Hi : I ?db |- _ => pose proof (scope_delete_releases db (in_status id ReleaseStatusDraft) Hi) as Hd; set (db' := t_set releases _ db) in * end.
  assert (I db') as Hd' by (apply Hd; intros r Hr; by rewrite (in_status_id _ _ _ Hr)).
  destruct (row_exists _ _); [|exact Hd']. by apply (scope_delete_artifacts db' id).
Qed.

(** *** Artifacts *)

Lemma yields_CreateArtifact a :
  ours (art_ReleaseID a) -> yields I (CreateArtifact a) (fun row => art_ReleaseID row = art_ReleaseID a /\ our_artifact (art_ID row)).
Proof.
  intros Ho. unfold CreateArtifact. apply yields_then; [auto with licensehub|]. intros id. apply yields_with_tx.
  apply yields_then; [unfold lock_draft; keeps_go|]. intros _. apply yields_then; [auto with licensehub|]. intros now. cbv zeta.
  apply (yields_bind _ _ _ (fun _ => our_artifact id)); [by apply yields_map_err, own_insert_child|].
  intros _ Ha. apply yields_then; [auto with licensehub|]. intros _. by apply yields_ret.
Qed.

Lemma own_delete_artifact id : our_artifact id -> keeps I (ReleaseStore.DeleteArtifact id).
Proof.
  intros Ha. unfold ReleaseStore.DeleteArtifact, lock_parent_draft.
  repeat first [by apply own_delete_children; [..|by intros ? ->%streq_true]|keeps_step].
Qed.
Lemma own_file id key size sha ct : our_artifact id -> keeps I (UpdateArtifactFile id key size sha ct).
Proof.
  intros Ha. unfold UpdateArtifactFile, lock_parent_draft.
  repeat first [by apply own_update_children; [..|by intros ? ->%streq_true|]|keeps_step].
Qed.
Lemma own_signature id sig key : our_artifact id -> keeps I (UpdateArtifactSignature id sig key).
Proof.
  intros Ha. unfold UpdateArtifactSignature. repeat first [by apply own_update_children; [..|by intros ? ->%streq_true|]|keeps_step].
Qed.
Hint Resolve own_yank own_unyank own_notes own_publish own_delete_release own_delete_artifact own_file own_signature : licensehub.

(** ** The service *)

Lemma own_sign rel a : our_artifact (art_ID a) -> keeps I (sign_one s rel a).
Proof.
  intros Ha. unfold sign_one, sign_error, SignArtifact, FindActiveSigningKey, read_artifact. keeps_go.
Qed.

Lemma own_AddArtifact in_ :
  ours (aai_ReleaseID in_) -> yields I (AddArtifact s in_) (fun out => ours (art_ReleaseID (aar_Artifact out))).
Proof.
  intros Ho. unfold AddArtifact, internal. destruct (validatePlatform _); [apply yields_throw|]. cbv zeta.
  apply yields_then; [keeps_go|]. intros rel. destruct (negb _); [apply yields_throw|].
  apply yields_then; [keeps_go|]. intros prod.
  eapply yields_bind; [by apply yields_map_err, yields_CreateArtifact|]. intros a [Hr Ha].
  apply yields_then; [keeps_go|]. intros [url|e].
  - apply yields_then; [auto with licensehub|]. intros now. apply yields_ret. simpl. by rewrite Hr.
  - apply yields_then; [keeps_go|]. intros del. apply yields_then; [keeps_go|]. intros _. apply yields_throw.
Qed.

Lemma own_FinalizeArtifact id sha :
  our_artifact id -> yields I (FinalizeArtifact id sha) (fun a => ours (art_ReleaseID a)).
Proof.
  intros Ha. unfold FinalizeArtifact, internal. destruct (_ && _); [apply yields_throw|].
  eapply yields_bind; [apply yields_map_err, yields_artifact|]. intros a [Hid _]. cbv zeta.
  apply yields_then; [keeps_go|]. intros info. destruct (_ <? _); [apply yields_throw|].
  apply yields_then; [unfold computeArtifactSHA256; keeps_go|]. intros computed. destruct (_ && _); [apply yields_throw|].
  rewrite Hid. apply yields_then; [keeps_go|]. intros _. apply yields_map_err. eapply yields_weaken; [apply yields_artifact|].
  intros a' [_ Ho]. by apply Ho.
Qed.

Lemma own_DeleteArtifact id : our_artifact id -> keeps I (Release.DeleteArtifact id).
Proof. intros Ha. unfold Release.DeleteArtifact. keeps_go. Qed.
Lemma own_DeleteDraft id : ours id -> keeps I (DeleteDraft id).
Proof. intros Ho. unfold DeleteDraft. keeps_go. Qed.

(** The release read back at the end. *)
Lemma yields_updated {E} (f : goerr -> E) id : ours id -> yields I (map_err f (FindReleaseByID id)) (fun r => rel_ProductID r = p).
Proof. intros Ho. apply yields_map_err. eapply yields_weaken; [apply yields_release|]. intros r (_ & _ & Hr). by apply Hr. Qed.

Lemma own_Publish id : ours id -> yields I (Publish s id) (fun r => rel_ProductID r = p).
Proof.
  intros Ho. unfold Publish, internal. eapply yields_bind; [apply yields_map_err, yields_release|]. intros rel (_ & _ & Hr).
  destruct (Hr Ho) as [Hp Hall]. destruct (bool_decide _); [apply yields_throw|].
  apply yields_then; [unfold check_uploaded; keeps_go|]. intros _. apply yields_then; [unfold check_stored; keeps_go|]. intros _.
  apply yields_then; [keeps_go|]. intros prod.
  apply yields_then; [unfold decide_signing, GetActivePublicKey, FindActiveSigningKey; keeps_go|]. intros sign.
  destruct (_ && _); [apply yields_throw|]. apply yields_then.
  - destruct sign; [|auto with licensehub]. eapply keeps_for_each_of; [exact Hall|]. intros a Ha. by apply own_sign.
  - intros _. apply yields_then; [keeps_go|]. intros _. eapply yields_bind; [by apply yields_updated|]. intros out Hout.
    apply yields_then; [auto with licensehub|]. intros _. by apply yields_ret.
Qed.

Lemma own_Yank id reason : ours id -> yields I (Yank s id reason) (fun r => rel_ProductID r = p).
Proof.
  intros Ho. unfold Yank, internal. apply yields_then; [keeps_go|]. intros _.
  eapply yields_bind; [by apply yields_updated|]. intros rel Hr. apply yields_then; [auto with licensehub|]. intros _. by apply yields_ret.
Qed.
Lemma own_Unyank id : ours id -> yields I (Unyank s id) (fun r => rel_ProductID r = p).
Proof.
  intros Ho. unfold Unyank, internal. apply yields_then; [keeps_go|]. intros _.
  eapply yields_bind; [by apply yields_updated|]. intros rel Hr. apply yields_then; [auto with licensehub|]. intros _. by apply yields_ret.
Qed.

Lemma own_CreateRelease in_ : cri_ProductID in_ = p -> yields I (CreateRelease in_) (fun r => rel_ProductID r = p).
Proof.
  intros Hp. unfold CreateRelease. destruct (validateVersion _); [apply yields_throw|]. cbv zeta.
  repeat (destruct (_ : bool); [apply yields_throw|]). by apply yields_map_err, own_create_release.
Qed.

(** ** The handlers *)

Context (cx : Context_) (ak : APIKey).
Context (Hkey : cx_api_key cx = Some ak) (Hprod : ak_ProductID ak = p) (Hp : p <> "").

Lemma yields_on_error {E A} (m : M E A) no k F :
  yields I m F -> (forall e, speaks_of p db0 (no e)) -> (forall a, F a -> answers (k a)) -> answers (on_error m no k).
Proof.
  intros Hm Hno Hk. unfold on_error. eapply yields_bind; [by apply yields_attempt|]. intros [a|e] Ha; [by apply Hk|by apply yields_ret].
Qed.
Lemma keeps_on_error {E A} (m : M E A) no k :
  keeps I m -> (forall e, speaks_of p db0 (no e)) -> (forall a, answers (k a)) -> answers (on_error m no k).
Proof. intros Hm Hno Hk. apply (yields_on_error _ _ _ (fun _ => True)); [by apply yields_keeps|done|auto]. Qed.

Lemma yields_in_scope q k : (q = p -> answers k) -> answers (in_scope cx q k).
Proof.
  intros Hk. unfold in_scope, requireKeyProductScope. rewrite Hkey, Hprod. rewrite (proj2 (streq_false p "") Hp). simpl.
  destruct (streq p q) eqn:E; [|by apply yields_ret]. apply streq_true in E. by apply Hk.
Qed.

Lemma yields_check_release id k : (ours id -> answers k) -> answers (checkReleaseScope cx id k).
Proof.
  intros Hk. eapply yields_on_error; [apply yields_release_product|done|]. intros q Hq. apply yields_in_scope. auto.
Qed.

Lemma yields_belongs id aid k : ours id -> (our_artifact aid -> answers k) -> answers (assertArtifactBelongsToRelease id aid k).
Proof.
  intros Ho Hk. eapply yields_on_error; [apply yields_artifact|done|]. intros a [_ Ha]. destruct (streq _ _) eqn:E; [|by apply yields_ret].
  apply streq_true in E. apply Hk, Ha. by rewrite E.
Qed.

(** The answer after the audit row. *)
Lemma yields_audited entity id action changes a :
  speaks_of p db0 a -> answers (release_audit cx entity id action changes ;; mret a).
Proof. intros Ha. apply yields_then; [apply scope_audit|]. intros _. by apply yields_ret. Qed.

Lemma own_Create_ req : answers (CreateRelease_ cx req).
Proof.
  unfold CreateRelease_. destruct req as [req|]; [|by apply yields_ret].
  repeat (destruct (_ : bool); [by apply yields_ret|]). apply keeps_on_error; [auto with licensehub|done|]. intros prod.
  destruct (negb _); [by apply yields_ret|]. apply yields_in_scope. intros Hq.
  eapply yields_on_error; [by apply own_CreateRelease|done|]. intros r Hr. by apply yields_audited.
Qed.

Lemma own_AddArtifact_ id req : answers (AddArtifact_ s cx id req).
Proof.
  apply yields_check_release. intros Ho. destruct req as [req|]; [|by apply yields_ret].
  repeat (destruct (_ : bool); [by apply yields_ret|]).
  eapply yields_on_error; [by apply own_AddArtifact|done|]. intros out Hout. by apply yields_audited.
Qed.

Lemma own_Finalize_ id aid expected legacy : answers (FinalizeArtifact_ cx id aid expected legacy).
Proof.
  apply yields_check_release. intros Ho. apply yields_belongs; [done|]. intros Ha. cbv zeta.
  eapply yields_on_error; [by apply own_FinalizeArtifact|done|]. intros a Hout. by apply yields_audited.
Qed.

Lemma own_DeleteArtifact_ id aid : answers (DeleteArtifact_ cx id aid).
Proof.
  apply yields_check_release. intros Ho. apply yields_belongs; [done|]. intros Ha.
  apply keeps_on_error; [by apply own_DeleteArtifact|done|]. intros _. by apply yields_audited.
Qed.

Lemma own_Publish_ id : answers (Publish_ s cx id).
Proof.
  apply yields_check_release. intros Ho. eapply yields_on_error; [by apply own_Publish|done|]. intros r Hr. by apply yields_audited.
Qed.
Lemma own_Yank_ id req : answers (Yank_ s cx id req).
Proof.
  apply yields_check_release. intros Ho. destruct req as [reason|]; [|by apply yields_ret]. cbv zeta.
  repeat (destruct (_ : bool); [by apply yields_ret|]).
  eapply yields_on_error; [by apply own_Yank|done|]. intros r Hr. by apply yields_audited.
Qed.
Lemma own_Unyank_ id : answers (Unyank_ s cx id).
Proof.
  apply yields_check_release. intros Ho. eapply yields_on_error; [by apply own_Unyank|done|]. intros r Hr. by apply yields_audited.
Qed.
Lemma own_Delete_ id : answers (DeleteRelease_ cx id).
Proof.
  apply yields_check_release. intros Ho. apply keeps_on_error; [by apply own_DeleteDraft|done|]. intros _. by apply yields_audited.
Qed.

Lemma release_error_speaks e : speaks_of p db0 (release_error e).
Proof. unfold release_error. by case_bool_decide. Qed.
Hint Resolve release_error_speaks : licensehub.

Lemma own_Update_ id req : answers (UpdateRelease_ cx id req).
Proof.
  assert (forall name notes, answers (on_error (FindReleaseByID id) release_error (fun rel =>
    in_scope cx (rel_ProductID rel) (match edited rel name notes with
      | inr message => mret (rel_bad message)
      | inl (name, notes) => on_error (UpdateReleaseNotes id name notes) release_error (fun _ =>
          release_audit cx "release" id "updated" ∅ ;;
          on_error (FindReleaseByID id) (fun _ => rel_internal) (fun updated => mret (AnsweredRelease 200 updated)))
      end)))) as Hgo.
  { intros name notes. eapply yields_on_error; [apply yields_release|auto with licensehub|]. intros rel (Hid & Ho & _).
    apply yields_in_scope. intros Hq. specialize (Ho Hq). destruct (edited _ _ _) as [[name' notes']|message]; [|by apply yields_ret].
    apply keeps_on_error; [auto with licensehub|auto with licensehub|]. intros _. apply yields_then; [apply scope_audit|]. intros _.
    eapply yields_on_error; [apply yields_release|done|]. intros r (_ & _ & Hr). apply yields_ret. by apply Hr. }
  unfold UpdateRelease_. destruct req as [[[name|] [notes|]]|]; try apply Hgo; by apply yields_ret.
Qed.

Lemma own_Get_ id : answers (GetRelease_ cx id).
Proof.
  apply yields_check_release. intros Ho. eapply yields_on_error; [apply yields_release|auto with licensehub|].
  intros r (_ & _ & Hr). apply yields_ret. by apply Hr.
Qed.

Lemma own_list_releases f : f_ProductID f = p -> answers (list_releases f).
Proof.
  intros Hf. unfold list_releases. apply (yields_on_error _ _ _ (Forall (fun r => rel_ProductID r = p))); [|done|].
  - unfold ListReleases. cbv zeta. apply yields_read. intros db rs db' Hi [= <- <-]. split; [done|].
    apply Forall_forall. intros r (r0 & -> & Hr)%list_elem_of_fmap. apply subseteq_take, subseteq_drop in Hr.
    rewrite sort_le_perm, elem_of_rows in Hr. destruct Hr as (k & _ & Hm). unfold release_matches in Hm. rewrite Hf in Hm.
    rewrite (proj2 (streq_false p "") Hp) in Hm. simpl in Hm. repeat apply andb_prop in Hm as [Hm _]. by apply streq_true in Hm.
  - intros rs Hrs. apply keeps_on_error; [unfold CountReleases; auto with licensehub|done|]. intros total. by apply yields_ret.
Qed.

Lemma own_List_ q : answers (ListReleases_ cx q).
Proof.
  unfold ListReleases_. destruct (query_number _ _ _); [|by apply yields_ret]. destruct (query_number _ _ _); [|by apply yields_ret].
  destruct (_ && _); [by apply yields_ret|]. destruct (negb _); [by apply yields_ret|]. cbv zeta. rewrite Hkey, Hprod.
  rewrite (proj2 (streq_false p "") Hp). destruct (_ && _); [by apply yields_ret|]. by apply own_list_releases.
Qed.

Lemma own_release_route r : answers (release_route s cx r).
Proof.
  destruct r; simpl.
  - apply own_List_. - apply own_Get_. - apply own_Create_. - apply own_Update_. - apply own_Delete_. - apply own_AddArtifact_.
  - apply own_Finalize_. - apply own_DeleteArtifact_. - apply own_Publish_. - apply own_Yank_. - apply own_Unyank_.
Qed.
End scope.

(** C17. Release_key_confined: a request of the release routes that presents a key of
    the product [p], whatever it asks and whatever statement or call of the
    storage fails, changes no release of another product and no artifact of
    one; the releases and artifacts it is answered are [p]'s. *)
Theorem release_key_confined `{UUIDs} `{GCM} `{Ed25519} `{Storage} `{Semver} s jwt secret limiter cred r p w :
  presents_key cred = true -> p <> "" -> bound_to p (bearer cred) (w_db w) ->
  w_tx w = None -> keyed_releases (w_db w) -> keyed_artifacts (w_db w) ->
  let '(answer, w') := serve_release s jwt secret limiter cred r w in
  other_releases_kept p (w_db w) (w_db w') /\
  match answer with Ok a => speaks_of p (w_db w) a | Err _ => True end.
Proof.
  intros Hb Hp Hbound Hw Hr Ha.
  pose proof (yields_serve (fun status code => refuse status code "") jwt secret GroupRelWrite limiter cred p
    (within_product releases release_artifacts rel_ID rel_ProductID art_ID art_ReleaseID p (w_db w))
    (fun cx => release_route s cx r) (speaks_of p (w_db w)) w) as Hserve.
  unfold serve_group in Hserve. fold (serve_release s jwt secret limiter cred r w) in Hserve.
  destruct (serve_release s jwt secret limiter cred r w) as [answer w'].
  destruct Hserve as [[Hkept _] Hans]; [by intros m db|done..|by apply within_start| |done|by split].
  intros cx ak Hk Hq. by eapply own_release_route.
Qed.
