(* ===== verification/WebhookAdmin.v ===== *)
(** * Webhooks in the administration ([handler/webhook_admin.go], [store/webhook.go])

    The handlers of the webhook routes over [Webhook.v], with the queries only
    they use; and what a key bound to a product may reach through them.  The
    product loaded with a webhook is not modelled. *)

From S2P Require Import Prelude GoStrings Errors Model Crypto World Tables Logic AesGcm Store Webhook.
From S2P Require Import Sessions ReleaseStore Access AdminLicense ReleaseAdmin.
From S2P Require Import Expiry ExpiryProps Confinement Scoped AdminScope AccessProps.
From Stdlib Require Import Ascii String.

#[local] Open Scope string_scope.
#[local] Open Scope Z_scope.

(** ** Store *)

Definition wh_row (id : string) (now : Time) (w : Webhook) : Webhook :=
  mkWebhook id (wh_ProductID w) (wh_URL w) (wh_Secret w) (wh_Events w) (wh_Active w) now now.
Definition wh_updated (now : Time) (w : Webhook) : Webhook :=
  mkWebhook (wh_ID w) (wh_ProductID w) (wh_URL w) (wh_Secret w) (wh_Events w) (wh_Active w) (wh_CreatedAt w) now.
Definition is_webhook (id : string) (w : Webhook) : bool := streq (wh_ID w) id.

Record WebhookDeliveryFilter := mkDeliveryFilter {
  df_WebhookID : string; df_Status : string; df_Event : string; df_Offset : Z; df_Limit : Z
}.

Section store.
Context `{UUIDs}.

Definition CreateWebhook (w : Webhook) : M goerr Webhook :=
  id ← fresh_id (wh_ID w);
  now ← sql_now;
  sql_insert webhooks id (wh_row id now w) ;;
  mret (wh_row id now w).

Definition ListWebhooks (productID search : string) : M goerr (list Webhook) := stmt (fun db =>
  let P w := wanted productID (wh_ProductID w) && (streq search "" || ilike ("%" +:+ search +:+ "%") (wh_URL w)) in
  Ok (sort_by (fun w => - wh_CreatedAt w) (map_to_list (rows P (db_webhooks db))).*2, db)).

(** Every column of the row is written. *)
Definition UpdateWebhook (w : Webhook) : M goerr Webhook :=
  now ← time_Now;
  let w := wh_updated now w in
  sql_update_where webhooks (is_webhook (wh_ID w)) (fun _ => w) ;;
  mret w.

(** [ON DELETE CASCADE] takes the deliveries. *)
Definition delete_webhook (id : string) (db : DB) : result goerr (unit * DB) :=
  let db' := t_set webhook_deliveries (delete_rows (fun d => streq (wd_WebhookID d) id) (db_webhook_deliveries db)) db in
  Ok (tt, t_set webhooks (delete_rows (is_webhook id) (db_webhooks db)) db').
Definition DeleteWebhook (id : string) : M goerr unit := stmt (delete_webhook id).

Definition delivery_matches (f : WebhookDeliveryFilter) (d : WebhookDelivery) : bool :=
  streq (wd_WebhookID d) (df_WebhookID f) && wanted (df_Status f) (wd_Status d) && wanted (df_Event f) (wd_Event d).

(** A negative OFFSET is left out of the query. *)
Definition ListWebhookDeliveries (f : WebhookDeliveryFilter) : M goerr (list WebhookDelivery * Z) :=
  total ← sql_count webhook_deliveries (delivery_matches f);
  let limit := if (df_Limit f <=? 0) || (200 <? df_Limit f) then 50 else df_Limit f in
  ds ← stmt (fun db => Ok (page (df_Offset f) limit
         (sort_by (fun d => - wd_CreatedAt d) (map_to_list (rows (delivery_matches f) (db_webhook_deliveries db))).*2), db));
  mret (ds, total).
End store.

(** ** Requests and answers *)

Record CreateWebhookRequest := mkCreateWebhook {
  wq_product_id : string; wq_url : string; wq_events : option (list string); wq_secret : string
}.
Record UpdateWebhookRequest := mkUpdateWebhook {
  uw_url : option string; uw_events : option (list string); uw_active : option bool
}.

Inductive WebhookRoute :=
  | WhList (productID search : string)
  | WhCreate (req : option CreateWebhookRequest)
  | WhUpdate (id : string) (req : option UpdateWebhookRequest)
  | WhDelete (id : string)
  | WhDeliveries (id status event : string) (offset limit : string)
  | WhGetDelivery (id deliveryID : string)
  | WhResend (id deliveryID : string)
  | WhTest (id : string).

(** Only the creation answers the secret. *)
Inductive WebhookAnswer :=
  | WhAnswered (w : Webhook)
  | WhCreated (w : Webhook) (secret : string)
  | WhListed (ws : list Webhook)
  | WhDeliveryList (ds : list WebhookDelivery) (total : Z)
  | WhDelivery (status : Z) (d : WebhookDelivery)
  | WhDone (status : string)
  | WhNoContent
  | WhRefused (status : Z) (code message : string).

Definition wh_bad (message : string) : WebhookAnswer := WhRefused 400 "BAD_REQUEST" message.
Definition wh_missing (message : string) : WebhookAnswer := WhRefused 404 "NOT_FOUND" message.
Definition wh_internal : WebhookAnswer := WhRefused 500 "INTERNAL_ERROR" "an internal error occurred".
Definition wh_out_of_scope : WebhookAnswer :=
  WhRefused 403 "PRODUCT_SCOPE_MISMATCH" "api_key is bound to a different product".

(** [queryInt]. *)
Definition queryInt (v : string) (def : Z) : Z :=
  if streq v "" then def else default def (Atoi v).

(** The webhook with the fields the request names; or the refusal. *)
Definition wh_merged (req : UpdateWebhookRequest) (w : Webhook) : Webhook + string :=
  match uw_url req ≫= ValidateURL with
  | Some e => inr (Message e)
  | None => inl (mkWebhook (wh_ID w) (wh_ProductID w) (default (wh_URL w) (uw_url req)) (wh_Secret w)
              (default (wh_Events w) (uw_events req)) (default (wh_Active w) (uw_active req)) (wh_CreatedAt w) (wh_UpdatedAt w))
  end.

Section handlers.
Context `{UUIDs} (cx : Context_).

Definition wh_scope (productID : string) (k : M goerr WebhookAnswer) : M goerr WebhookAnswer :=
  if requireKeyProductScope cx productID then k else mret wh_out_of_scope.

Definition checkWebhookScope (id : string) (k : Webhook -> M goerr WebhookAnswer) : M goerr WebhookAnswer :=
  on_error (FindWebhookByID id) (fun _ => wh_missing "webhook not found") (fun w => wh_scope (wh_ProductID w) (k w)).

(** The product asked for, narrowed to the key's; [None] when they differ. *)
Definition narrowed (productID : string) : option string :=
  match cx_api_key cx with
  | None => Some productID
  | Some ak =>
      if streq (ak_ProductID ak) "" then Some productID
      else if negb (streq productID "") && negb (streq productID (ak_ProductID ak)) then None
      else Some (ak_ProductID ak)
  end.

Definition ListWebhooks_ (productID search : string) : M goerr WebhookAnswer :=
  match narrowed productID with
  | None => mret wh_out_of_scope
  | Some productID => on_error (ListWebhooks productID search) (fun _ => wh_internal) (fun ws => mret (WhListed ws))
  end.

Definition GenerateWebhookSecret : M goerr string := randomHex 32.

Definition CreateWebhook_ (req : option CreateWebhookRequest) : M goerr WebhookAnswer :=
  match req with
  | Some (mkCreateWebhook productID url (Some events) secret) =>
      if streq productID "" || streq url "" then mret (wh_bad "product_id, url, and events are required")
      else match ValidateURL url with
      | Some e => mret (wh_bad (Message e))
      | None =>
          if bool_decide (events = []) then mret (wh_bad "at least one event type is required")
          else
            secret ← (if streq secret "" then GenerateWebhookSecret else mret secret);
            wh_scope productID (
              on_error (CreateWebhook (mkWebhook "" productID url secret events true 0 0)) (fun _ => wh_internal) (fun w =>
              mret (WhCreated w secret)))
      end
  | _ => mret (wh_bad "product_id, url, and events are required")
  end.

Definition UpdateWebhook_ (id : string) (req : option UpdateWebhookRequest) : M goerr WebhookAnswer :=
  checkWebhookScope id (fun w =>
    match req with
    | None => mret (wh_bad "invalid request")
    | Some req =>
        match wh_merged req w with
        | inr message => mret (wh_bad message)
        | inl w => on_error (UpdateWebhook w) (fun _ => wh_internal) (fun w => mret (WhAnswered w))
        end
    end).

Definition DeleteWebhook_ (id : string) : M goerr WebhookAnswer :=
  checkWebhookScope id (fun _ => on_error (DeleteWebhook id) (fun _ => wh_internal) (fun _ => mret WhNoContent)).

Definition ListDeliveries_ (id status event offset limit : string) : M goerr WebhookAnswer :=
  checkWebhookScope id (fun _ =>
    if negb (contains status [""; "pending"; "delivered"; "failed"])
    then mret (wh_bad "status must be pending, delivered, or failed")
    else
      on_error (ListWebhookDeliveries (mkDeliveryFilter id status event (queryInt offset 0) (queryInt limit 50)))
        (fun _ => wh_internal) (fun '(ds, total) => mret (WhDeliveryList ds total))).

(** The delivery, which must be one of the webhook in the path. *)
Definition with_delivery (wh : Webhook) (deliveryID : string) (k : WebhookDelivery -> M goerr WebhookAnswer) :
    M goerr WebhookAnswer :=
  on_error (FindWebhookDeliveryByID deliveryID) (fun _ => wh_missing "delivery not found") (fun d =>
  if negb (streq (wd_WebhookID d) (wh_ID wh)) then mret (wh_missing "delivery not found") else k d).

Definition GetDelivery_ (id deliveryID : string) : M goerr WebhookAnswer :=
  checkWebhookScope id (fun wh => with_delivery wh deliveryID (fun d => mret (WhDelivery 200 d))).

Definition resend_error (e : goerr) : WebhookAnswer :=
  if bool_decide (e = ErrWebhookDeliveryNotResendable)
  then WhRefused 409 "NOT_RESENDABLE" "webhook is deleted or inactive — re-enable it before resending"
  else wh_internal.

Definition ResendDelivery_ (id deliveryID : string) : M goerr WebhookAnswer :=
  checkWebhookScope id (fun wh => with_delivery wh deliveryID (fun orig =>
    on_error (Redispatch deliveryID) resend_error (fun fresh =>
    Audit (mkAuditLog "" "webhook_delivery" (wd_ID fresh) "resent" (adminID cx) "admin"
      {["original_delivery_id" := AnyString deliveryID; "webhook_id" := AnyString (wh_ID wh);
        "event" := AnyString (wd_Event orig)]} "" 0) ;;
    mret (WhDelivery 201 fresh)))).

Definition TestWebhook_ (id : string) : M goerr WebhookAnswer :=
  checkWebhookScope id (fun w =>
    Dispatch (wh_ProductID w) "webhook.test"
      {["webhook_id" := AnyString (wh_ID w); "message" := AnyString "This is a test delivery from Keygate."]} ;;
    mret (WhDone "test dispatched")).

Definition webhook_route (r : WebhookRoute) : M goerr WebhookAnswer :=
  match r with
  | WhList productID search => ListWebhooks_ productID search
  | WhCreate req => CreateWebhook_ req
  | WhUpdate id req => UpdateWebhook_ id req
  | WhDelete id => DeleteWebhook_ id
  | WhDeliveries id status event offset limit => ListDeliveries_ id status event offset limit
  | WhGetDelivery id deliveryID => GetDelivery_ id deliveryID
  | WhResend id deliveryID => ResendDelivery_ id deliveryID
  | WhTest id => TestWebhook_ id
  end.
End handlers.

Definition serve_webhook `{UUIDs} (jwt_parse : string -> string -> Time -> option Claims) (secret : string)
    (limiter : option bool) (cred : Credential) (r : WebhookRoute) : M goerr WebhookAnswer :=
  a ← authorize jwt_parse secret GroupAdmin limiter cred;
  match a with
  | inr (status, code) => mret (WhRefused status code "")
  | inl cx => webhook_route cx r
  end.

(** ** A key bound to a product *)

Definition other_webhooks_kept (p : string) : DB -> DB -> Prop :=
  aliens_kept webhooks webhook_deliveries wh_ProductID wd_WebhookID p.

(** What a key of [p] may be told. *)
Definition wh_speaks_of (p : string) (db : DB) (a : WebhookAnswer) : Prop :=
  let ours id := alien webhooks wh_ProductID p db id = false in
  match a with
  | WhAnswered w | WhCreated w _ => wh_ProductID w = p
  | WhListed ws => Forall (fun w => wh_ProductID w = p) ws
  | WhDeliveryList ds _ => Forall (fun d => ours (wd_WebhookID d)) ds
  | WhDelivery _ d => ours (wd_WebhookID d)
  | WhDone _ | WhNoContent | WhRefused _ _ _ => True
  end.

Section scope.
Context `{UUIDs} (p : string) (db0 : DB).
#[local] Abbreviation I := (within_product webhooks webhook_deliveries wh_ID wh_ProductID wd_ID wd_WebhookID p db0).
#[local] Abbreviation ours := (mine webhooks wh_ProductID p db0).
#[local] Abbreviation our_delivery := (my_child webhooks webhook_deliveries wh_ProductID wd_WebhookID p db0).
#[local] Abbreviation answers m := (yields I m (wh_speaks_of p db0)).

(** *** The store *)

Definition found_webhook (id : string) (w : Webhook) : Prop := wh_ID w = id /\ (wh_ProductID w = p <-> ours id).

Lemma yields_webhook id : yields I (FindWebhookByID id) (found_webhook id).
Proof.
  apply yields_read. intros db w db' Hi. destruct (first_row _) as [w0|] eqn:Ew; [|done]. intros [= <- <-]. split; [done|].
  apply first_row_rows in Ew as (k & Hk & Hid%streq_true). pose proof (proj1 (proj2 Hi) _ _ Hk) as Hk'. subst.
  split; [done|]. split; intros Hx.
  - eapply (mine_of webhooks webhook_deliveries); [exact Hi|exact Hk|exact Hx].
  - eapply (prod_of webhooks webhook_deliveries); [exact Hi|exact Hk|exact Hx].
Qed.

Lemma yields_delivery id :
  yields I (FindWebhookDeliveryByID id) (fun d => ours (wd_WebhookID d) <-> our_delivery id).
Proof.
  apply yields_read. intros db d db' Hi. destruct (first_row _) as [d0|] eqn:Ed; [|done]. intros [= <- <-]. split; [done|].
  apply first_row_rows in Ed as (k & Hk & Hid%streq_true). pose proof (proj2 (proj2 Hi) _ _ Hk) as Hk'. subst.
  eapply (child_mine webhooks webhook_deliveries); [exact Hi|exact Hk].
Qed.

Lemma own_CreateDelivery d :
  ours (wd_WebhookID d) -> yields I (CreateWebhookDelivery d) (fun d' => ours (wd_WebhookID d')).
Proof.
  intros Ho. unfold CreateWebhookDelivery. apply yields_then; [apply keeps_fresh_id|]. intros id.
  apply yields_then; [auto with licensehub|]. intros now.
  eapply yields_bind; [by apply own_insert_child|]. intros _ _. by apply yields_ret.
Qed.

Lemma own_Dispatch {E} event data : keeps (E := E) I (Dispatch p event data).
Proof.
  unfold Dispatch. apply keeps_bind; [|intros r; keeps_go]. apply keeps_attempt. unfold DispatchWithLog.
  apply (keeps_yields _ _ (fun _ => True)).
  apply (yields_bind _ _ _ (Forall (fun w => ours (wh_ID w)))).
  - apply yields_map_err, yields_read. intros db ws db' Hi [= <- <-]. split; [done|]. apply Forall_forall. intros w Hw.
    apply elem_of_rows in Hw as (k & Hk & Hp). repeat apply andb_prop in Hp as [Hp _]. apply streq_true in Hp.
    rewrite (proj1 (proj2 Hi) _ _ Hk). eapply (mine_of webhooks webhook_deliveries); [exact Hi|exact Hk|exact Hp].
  - intros ws Hws. apply yields_keeps. destruct ws as [|w ws]; [apply keeps_ret|]. apply keeps_bind; [apply keeps_time_Now|].
    intros now. eapply keeps_for_each_of; [exact Hws|]. intros w' Hw'. unfold start_delivery.
    apply keeps_bind; [|intros r; keeps_go]. apply keeps_attempt. eapply keeps_yields, own_CreateDelivery. exact Hw'.
Qed.

Lemma own_Redispatch id : our_delivery id -> yields I (Redispatch id) (fun d => ours (wd_WebhookID d)).
Proof.
  intros Ho. unfold Redispatch. eapply yields_bind; [apply yields_delivery|]. intros orig Horig.
  eapply yields_bind; [apply yields_map_err, yields_webhook|]. intros wh [Hid Hp]. destruct (negb _); [apply yields_throw|].
  eapply yields_bind; [apply own_CreateDelivery; simpl; rewrite Hid; by apply Horig|]. intros fresh Hf.
  apply yields_then; [auto with licensehub|]. intros _. by apply yields_ret.
Qed.

Lemma own_UpdateWebhook w : ours (wh_ID w) -> wh_ProductID w = p -> yields I (UpdateWebhook w) (fun w' => wh_ProductID w' = p).
Proof.
  intros Ho Hp. unfold UpdateWebhook. apply yields_then; [auto with licensehub|]. intros now. cbv zeta.
  apply yields_then; [|intros _; by apply yields_ret]. apply keeps_update_where. intros db Hi _.
  apply (within_set_parents webhooks webhook_deliveries wh_ID wh_ProductID wd_ID wd_WebhookID p db0); [done|exact Hi| |].
  - apply rows_update_out. intros k r Hr Hid%streq_true. simpl in Hid. unfold other. simpl. rewrite Hp, streq_refl.
    split; [|done]. eapply (not_other webhooks webhook_deliveries); [exact Hi|exact Hr|].
    rewrite (proj1 (proj2 Hi) _ _ Hr) in Hid. by rewrite Hid.
  - intros k r. rewrite lookup_update_rows. intros (r0 & Hr0 & ->)%fmap_Some. pose proof (proj1 (proj2 Hi) _ _ Hr0) as Hk.
    destruct (is_webhook _ r0) eqn:E; [|done]. apply streq_true in E. simpl in *. congruence.
Qed.

Lemma own_DeleteWebhook id : ours id -> keeps I (DeleteWebhook id).
Proof.
  intros Ho. apply keeps_stmt. intros db u db' Hi. unfold delete_webhook. cbv zeta. intros [= _ <-].
  pose proof (within_delete_children webhooks webhook_deliveries wh_ID wh_ProductID wd_ID wd_WebhookID p db0 (fun _ _ => eq_refl)
    db (fun d => streq (wd_WebhookID d) id) Hi) as Hd.
  refine (within_delete_parents webhooks webhook_deliveries wh_ID wh_ProductID wd_ID wd_WebhookID p db0 (fun _ _ => eq_refl)
    _ (is_webhook id) (Hd _) _); [by intros k d _ ->%streq_true|by intros w ->%streq_true].
Qed.

(** *** The handlers *)

Context (cx : Context_) (ak : APIKey).
Context (Hkey : cx_api_key cx = Some ak) (Hprod : ak_ProductID ak = p) (Hp : p <> "").

Lemma wh_on_error {A} (m : M goerr A) no k F :
  yields I m F -> (forall e, wh_speaks_of p db0 (no e)) -> (forall a, F a -> answers (k a)) -> answers (on_error m no k).
Proof.
  intros Hm Hno Hk. unfold on_error. eapply yields_bind; [by apply yields_attempt|]. intros [a|e] Ha; [by apply Hk|by apply yields_ret].
Qed.

Lemma yields_wh_scope q k : (q = p -> answers k) -> answers (wh_scope cx q k).
Proof.
  intros Hk. unfold wh_scope, requireKeyProductScope. rewrite Hkey, Hprod. rewrite (proj2 (streq_false p "") Hp). simpl.
  destruct (streq p q) eqn:E; [|by apply yields_ret]. apply streq_true in E. by apply Hk.
Qed.

Lemma yields_check_webhook id k :
  (forall w, wh_ID w = id -> wh_ProductID w = p -> ours id -> answers (k w)) -> answers (checkWebhookScope cx id k).
Proof.
  intros Hk. eapply wh_on_error; [apply yields_webhook|done|]. intros w [Hid Ho]. apply yields_wh_scope. intros Hq. apply Hk; tauto.
Qed.

Lemma yields_with_delivery w id k :
  ours (wh_ID w) -> (forall d, ours (wd_WebhookID d) -> our_delivery id -> answers (k d)) -> answers (with_delivery w id k).
Proof.
  intros Ho Hk. eapply wh_on_error; [apply yields_delivery|done|]. intros d Hd. destruct (streq _ _) eqn:E; [|by apply yields_ret].
  apply streq_true in E. cbv beta in Hd. rewrite E in Hd. simpl. apply Hk; [by rewrite E|by apply Hd].
Qed.

Lemma own_webhook_list productID search : answers (ListWebhooks_ cx productID search).
Proof.
  unfold ListWebhooks_, narrowed. rewrite Hkey, Hprod, (proj2 (streq_false p "") Hp). destruct (_ && _); [by apply yields_ret|].
  apply (wh_on_error _ _ _ (Forall (fun w => wh_ProductID w = p))); [|done|intros ws Hws; by apply yields_ret].
  apply yields_read. intros db ws db' Hi [= <- <-]. split; [done|]. apply Forall_forall. intros w Hw.
  rewrite sort_by_perm, elem_of_rows in Hw. destruct Hw as (k & _ & [Hq _]%andb_prop). unfold wanted in Hq.
  rewrite (proj2 (streq_false p "") Hp) in Hq. by apply streq_true in Hq.
Qed.

Lemma own_CreateWebhook req : answers (CreateWebhook_ cx req).
Proof.
  unfold CreateWebhook_. destruct req as [[q url [events|] secret]|]; try by apply yields_ret.
  destruct (_ || _); [by apply yields_ret|]. destruct (ValidateURL url); [by apply yields_ret|].
  destruct (bool_decide _); [by apply yields_ret|].
  apply yields_then; [destruct (streq secret ""); [apply keeps_still, still_randomHex|auto with licensehub]|]. intros sec.
  apply yields_wh_scope. intros Hq. apply (wh_on_error _ _ _ (fun w => wh_ProductID w = p)); [|done|intros w Hw; by apply yields_ret].
  unfold CreateWebhook. apply yields_then; [apply keeps_fresh_id|]. intros id. apply yields_then; [auto with licensehub|]. intros now.
  eapply yields_bind; [by apply own_insert_parent|]. intros _ _. by apply yields_ret.
Qed.

Lemma own_UpdateWebhook_ id req : answers (UpdateWebhook_ cx id req).
Proof.
  apply yields_check_webhook. intros w Hid Hq Ho. destruct req as [req|]; [|by apply yields_ret].
  unfold wh_merged. destruct (_ ≫= _); [by apply yields_ret|].
  eapply wh_on_error; [by apply own_UpdateWebhook; simpl; [rewrite Hid|]|done|]. intros w' Hw'. by apply yields_ret.
Qed.

Lemma own_deliveries id status event offset limit : answers (ListDeliveries_ cx id status event offset limit).
Proof.
  apply yields_check_webhook. intros w Hid Hq Ho. destruct (negb _); [by apply yields_ret|].
  apply (wh_on_error _ _ _ (fun r => Forall (fun d => ours (wd_WebhookID d)) r.1)); [|done|intros [ds total] Hds; by apply yields_ret].
  unfold ListWebhookDeliveries. apply yields_then; [auto with licensehub|]. intros total. cbv zeta.
  eapply (yields_bind _ _ _ (Forall (fun d => ours (wd_WebhookID d)))); [|intros ds Hds; by apply yields_ret].
  apply yields_read. intros db ds db' Hi [= <- <-]. split; [done|]. apply Forall_forall. intros d Hd%page_elem.
  rewrite sort_by_perm, elem_of_rows in Hd. destruct Hd as (k & _ & Hm). unfold delivery_matches in Hm. simpl in Hm.
  repeat apply andb_prop in Hm as [Hm _]. apply streq_true in Hm. by rewrite Hm.
Qed.

Lemma own_resend id deliveryID : answers (ResendDelivery_ cx id deliveryID).
Proof.
  apply yields_check_webhook. intros w Hid Hq Ho. apply yields_with_delivery; [by rewrite Hid|]. intros d Hd Hown.
  eapply wh_on_error; [by apply own_Redispatch|intros e; unfold resend_error; by case_bool_decide|]. intros fresh Hf.
  apply yields_then; [|intros _; by apply yields_ret]. apply keeps_audit_log. intros m db Hc. exact Hc.
Qed.

Lemma own_webhook_route r : answers (webhook_route cx r).
Proof.
  destruct r; simpl; [apply own_webhook_list|apply own_CreateWebhook|apply own_UpdateWebhook_| |apply own_deliveries| |apply own_resend|];
    apply yields_check_webhook; intros w Hid Hq Ho.
  - eapply wh_on_error; [by apply yields_keeps, own_DeleteWebhook|done|]. intros _ _. by apply yields_ret.
  - apply yields_with_delivery; [by rewrite Hid|]. intros d Hd _. by apply yields_ret.
  - rewrite Hq. apply yields_then; [apply own_Dispatch|]. intros _. by apply yields_ret.
Qed.
End scope.

(** C18. Webhook_key_confined: a request of the webhook routes that presents a key of
    the product [p] changes no webhook of another product, and makes, repeats or
    drops no delivery of one; the webhooks and deliveries it is answered are
    [p]'s. *)
Theorem webhook_key_confined `{UUIDs} jwt secret limiter cred r p w :
  presents_key cred = true -> p <> "" -> bound_to p (bearer cred) (w_db w) -> w_tx w = None ->
  keyed wh_ID (db_webhooks (w_db w)) -> keyed wd_ID (db_webhook_deliveries (w_db w)) ->
  let '(answer, w') := serve_webhook jwt secret limiter cred r w in
  other_webhooks_kept p (w_db w) (w_db w') /\
  match answer with Ok a => wh_speaks_of p (w_db w) a | Err _ => True end.
Proof.
  intros Hb Hp Hbound Hw Hr Ha.
  pose proof (yields_serve (fun status code => WhRefused status code "") jwt secret GroupAdmin limiter cred p
    (within_product webhooks webhook_deliveries wh_ID wh_ProductID wd_ID wd_WebhookID p (w_db w))
    (fun cx => webhook_route cx r) (wh_speaks_of p (w_db w)) w) as Hserve.
  unfold serve_group in Hserve. fold (serve_webhook jwt secret limiter cred r w) in Hserve.
  destruct (serve_webhook jwt secret limiter cred r w) as [answer w'].
  destruct Hserve as [[Hkept _] Hans]; [by intros m db|done..|by apply within_start| |done|by split].
  intros cx ak Hk Hq. by eapply own_webhook_route.
Qed.
