(* ===== verification/ScopeDemo.v ===== *)
(** * The release and webhook routes on a concrete catalogue

    A key of one product over the releases, webhooks and signing keys of two. *)

From S2P Require Import Prelude GoStrings Errors Model Crypto Base64 World Tables Logic AesGcm Token Store Webhook.
From S2P Require Import Sessions ReleaseStore Release ReleaseInv ReleaseDemo Access AdminLicense AccessProps ReleaseAdmin ReleaseScope.
From S2P Require Import WebhookAdmin Scoped Demo.
From Stdlib Require Import Ascii String.

#[local] Open Scope string_scope.
#[local] Open Scope Z_scope.

#[local] Existing Instances Demo.uuids ToyGCM.gcm Toy.ed25519 ReleaseDemo.semver ReleaseDemo.storage.

Module ScopeDemo.
Definition key (id secret : string) (scopes : list string) : APIKey :=
  mkAPIKey id "prod-1" "ci" (HashAPIKey secret) "kg_live_" scopes None "" 0.
Definition foreign_release : Release :=
  mkRelease "rel-9" "prod-2" "2.0.0" "stable" "Portal" "" ReleaseStatusPublished "" (Some 5) None 0 0 None [].
Definition hook (id productID : string) : Webhook :=
  mkWebhook id productID "https://example.com/hook" "secret" ["webhook.test"] true 0 0.
Definition delivery (id webhookID : string) : WebhookDelivery :=
  mkDelivery id webhookID "license.created" (mkPayload "license.created" 0 ∅) 500 "" 3 None "failed" 0 None.
Definition db : DB :=
  t_set api_keys {["key-1" := key "key-1" "kg_live_1" [ScopeReleasesWrite]; "key-2" := key "key-2" "kg_live_2" [ScopeAdmin]]}
  (t_set webhooks {["wh-1" := hook "wh-1" "prod-1"; "wh-2" := hook "wh-2" "prod-2"]}
  (t_set webhook_deliveries {["d-1" := delivery "d-1" "wh-1"; "d-2" := delivery "d-2" "wh-2"]}
  (t_set releases (<["rel-9" := foreign_release]> (db_releases ReleaseDemo.db)) ReleaseDemo.db))).
Definition world : World := mkWorld db None (1000 * Second) [5%N] [] false 0 (repeat "r"%char 200) ∅ [].
Definition with_key (secret : string) : Credential := mkCredential ("Bearer " +:+ secret) None "10.0.0.1".
Definition parse (secret raw : string) (now : Time) : option Claims := None.
Definition release_request (r : ReleaseRoute) : M goerr ReleaseAnswer :=
  serve_release ReleaseDemo.service parse "s" (Some true) (with_key "kg_live_1") r.
Definition webhook_request (r : WebhookRoute) : M goerr WebhookAnswer :=
  serve_webhook parse "s" (Some true) (with_key "kg_live_2") r.
Definition signing_request (r : SigningRoute) : M goerr ReleaseAnswer :=
  serve_signing ReleaseDemo.signer parse "s" (Some true) (with_key "kg_live_2") r.
End ScopeDemo.

Definition all_bound (p : string) (db : DB) : bool := forallb (fun kv => streq (ak_ProductID kv.2) p) (map_to_list (db_api_keys db)).
Lemma all_bound_sound p secret db : all_bound p db = true -> bound_to p secret db.
Proof.
  unfold all_bound. rewrite forallb_forall. intros Hall k ak Hk _.
  assert (In (k, ak) (map_to_list (db_api_keys db))) as Hin by by apply list_elem_of_In, elem_of_map_to_list.
  by apply Hall, streq_true in Hin.
Qed.
Lemma scope_demo_bound secret : bound_to "prod-1" secret ScopeDemo.db.
Proof. apply all_bound_sound. vm_compute. reflexivity. Qed.
Lemma scope_demo_releases : keyed_releases ScopeDemo.db.
Proof. apply (map_Forall_to_list (fun k r => rel_ID r = k)). vm_compute. repeat constructor. Qed.
Lemma scope_demo_artifacts : keyed_artifacts ScopeDemo.db.
Proof. apply (map_Forall_to_list (fun k a => art_ID a = k)). vm_compute. repeat constructor. Qed.
Lemma scope_demo_webhooks : keyed wh_ID (db_webhooks ScopeDemo.db).
Proof. apply (map_Forall_to_list (fun k w => wh_ID w = k)). vm_compute. repeat constructor. Qed.
Lemma scope_demo_deliveries : keyed wd_ID (db_webhook_deliveries ScopeDemo.db).
Proof. apply (map_Forall_to_list (fun k d => wd_ID d = k)). vm_compute. repeat constructor. Qed.

(** The key yanks a release of its product, and the other product's release is
    as it was. *)
Lemma release_key_confined_witness :
  let '(answer, w') := ScopeDemo.release_request (RelYank "rel-1" (Some "broken")) ScopeDemo.world in
  other_releases_kept "prod-1" ScopeDemo.db (w_db w') /\
  match answer with Ok a => speaks_of "prod-1" ScopeDemo.db a | Err _ => True end.
Proof.
  exact (release_key_confined ReleaseDemo.service ScopeDemo.parse "s" (Some true) (ScopeDemo.with_key "kg_live_1")
    (RelYank "rel-1" (Some "broken")) "prod-1" ScopeDemo.world eq_refl ltac:(discriminate) (scope_demo_bound _) eq_refl
    scope_demo_releases scope_demo_artifacts).
Defined.

Lemma webhook_key_confined_witness :
  let '(answer, w') := ScopeDemo.webhook_request (WhResend "wh-1" "d-1") ScopeDemo.world in
  other_webhooks_kept "prod-1" ScopeDemo.db (w_db w') /\
  match answer with Ok a => wh_speaks_of "prod-1" ScopeDemo.db a | Err _ => True end.
Proof.
  exact (webhook_key_confined ScopeDemo.parse "s" (Some true) (ScopeDemo.with_key "kg_live_2") (WhResend "wh-1" "d-1") "prod-1"
    ScopeDemo.world eq_refl ltac:(discriminate) (scope_demo_bound _) eq_refl scope_demo_webhooks scope_demo_deliveries).
Defined.

(** What the two requests answer, and what the same requests answer about the
    other product. *)
Definition answered_status (a : ReleaseAnswer) : Z :=
  match a with AnsweredRelease st _ => st | RefusedWith e => env_status e | _ => 200 end.
Definition hook_status (a : WebhookAnswer) : Z :=
  match a with WhDelivery st _ => st | WhRefused st _ _ => st | _ => 200 end.

Example requests_answered :
  observe (fun a _ => answered_status a) 0 (ScopeDemo.release_request (RelYank "rel-1" (Some "broken")) ScopeDemo.world) = 200 /\
  observe (fun a _ => answered_status a) 0 (ScopeDemo.release_request (RelYank "rel-9" (Some "broken")) ScopeDemo.world) = 403 /\
  observe (fun a _ => answered_status a) 0 (ScopeDemo.release_request (RelDeleteArtifact "rel-2" "art-1") ScopeDemo.world) = 404 /\
  observe (fun a _ => answered_status a) 0 (ScopeDemo.release_request (RelDeleteArtifact "rel-2" "art-2") ScopeDemo.world) = 200 /\
  observe (fun a _ => hook_status a) 0 (ScopeDemo.webhook_request (WhResend "wh-1" "d-1") ScopeDemo.world) = 201 /\
  observe (fun a _ => hook_status a) 0 (ScopeDemo.webhook_request (WhResend "wh-2" "d-2") ScopeDemo.world) = 403 /\
  observe (fun a _ => hook_status a) 0 (ScopeDemo.webhook_request (WhResend "wh-1" "d-2") ScopeDemo.world) = 404.
Proof. vm_compute. repeat split. Qed.

(** Bound_key_rotates: the handlers of signing keys never look at the product of
    the key that calls them, so a key of the admin scope bound to one product
    replaces the signing key of another. *)
Theorem bound_key_rotates :
  observe (fun a w => match a with
    | AnsweredKey k => streq (sk_ProductID k) "prod-2" && sk_Active k && present (db_signing_keys (w_db w) !! sk_ID k)
    | _ => false end) false (ScopeDemo.signing_request (KeyRotate "prod-2" "") ScopeDemo.world) = true.
Proof. vm_compute. reflexivity. Qed.

(** An update may leave a webhook without an event type, which a creation
    refuses. *)
Example webhook_without_events :
  observe (fun a _ => match a with WhAnswered w => bool_decide (wh_Events w = []) | _ => false end) false
    (ScopeDemo.webhook_request (WhUpdate "wh-1" (Some (mkUpdateWebhook None (Some []) None))) ScopeDemo.world) = true.
Proof. vm_compute. reflexivity. Qed.
