(* ===== verification/AccessDemo.v ===== *)
(** * The access theorems on a concrete catalogue

    A key of one product, an operator's key bound to that product, and an
    administrator with a passkey, over the licences of two products. *)

From S2P Require Import Prelude GoStrings Errors Model Crypto KeyGen GoTime RateLimit World Tables Logic AesGcm Store Webhook.
From S2P Require Import Usage Entitlement Seats Floating Sessions ReleaseStore Lookup Payments PaymentDemo Demo.
From S2P Require Import Access AdminLicense Confinement AdminScope Audited AccessProps.
From Stdlib Require Import Ascii String.

#[local] Open Scope string_scope.
#[local] Open Scope Z_scope.

#[local] Existing Instances Demo.uuids ToyGCM.gcm PaymentDemo.stripe.

Module AccessDemo.
Definition key (id productID secret : string) (scopes : list string) : APIKey :=
  mkAPIKey id productID "ci" (HashAPIKey secret) "kg_live_" scopes None "" 0.
Definition ann : User := mkUser "ann" "ann@example.com" "" "" RoleOwner 3 0 0.
Definition db : DB :=
  t_set api_keys {["key-1" := key "key-1" "prod-1" "kg_live_1" [ScopeLicensesWrite];
                   "key-2" := key "key-2" "prod-1" "kg_live_2" [ScopeAdmin]]}
    (t_set users {["ann" := ann]} Demo.db).
Definition world : World := Demo.world_of db.
Definition claims : Claims := mkClaims "ann" "ann@example.com" "" true 3 "webauthn" (9000 * Second) 0 "jti".
Definition parse (secret raw : string) (now : Time) : option Claims := if streq raw "tok" then Some claims else None.
Definition with_key (secret : string) : Credential := mkCredential ("Bearer " +:+ secret) None "10.0.0.1".
Definition with_cookie : Credential := mkCredential "" (Some "tok") "10.0.0.1".
Definition h : AdminHandler := mkAdminHandler true (Some true) None.
Definition serve (cred : Credential) (r : LicenseRoute) : M goerr Answer :=
  serve_license h (fun _ => None) (fun a => Some a) parse "s" (Some true) cred r.
Definition admin : Context_ := mkContext (Some "ann") (Some "ann@example.com") (Some true) "session" "webauthn" None "10.0.0.1".
End AccessDemo.

Lemma access_demo_licenses : licenses_keyed AccessDemo.db.
Proof. apply (map_Forall_to_list (fun k l => lic_ID l = k)). vm_compute. repeat constructor. Qed.
Lemma access_demo_activations : activations_keyed AccessDemo.db.
Proof. apply (map_Forall_to_list (fun k a => act_ID a = k)). vm_compute. repeat constructor. Qed.
Lemma access_demo_bound : bound_to "prod-1" (bearer (AccessDemo.with_key "kg_live_1")) AccessDemo.db.
Proof.
  apply (map_Forall_to_list (fun k ak => ak_KeyHash ak = _ -> ak_ProductID ak = "prod-1")).
  vm_compute. repeat constructor.
Qed.
Definition indexedb (db : DB) : bool :=
  let keys := map_to_list (db_api_keys db) in
  forallb (fun kv => streq (ak_ID kv.2) kv.1
    && forallb (fun kv' => negb (streq (ak_KeyHash kv.2) (ak_KeyHash kv'.2)) || streq kv.1 kv'.1) keys) keys.
Lemma indexedb_sound db : indexedb db = true -> keys_indexed db.
Proof.
  unfold indexedb. cbv zeta. rewrite forallb_forall. intros Hall.
  assert (forall k ak, db_api_keys db !! k = Some ak -> In (k, ak) (map_to_list (db_api_keys db))) as Hin.
  { intros k ak Hk. by apply list_elem_of_In, elem_of_map_to_list. }
  split.
  - intros k ak Hk%Hin%Hall. apply andb_prop in Hk as [Hk _]. by apply streq_true in Hk.
  - intros k k' ak ak' Hk%Hin%Hall Hk'%Hin Hh. apply andb_prop in Hk as [_ Hk]. rewrite forallb_forall in Hk.
    specialize (Hk _ Hk'). simpl in Hk. rewrite Hh, streq_refl in Hk. by apply streq_true in Hk.
Qed.
Lemma access_demo_indexed : keys_indexed AccessDemo.db.
Proof. apply indexedb_sound. vm_compute. reflexivity. Qed.

(** A key of the scope [licenses:write] alone has none of the administration. *)
Lemma access_demo_unscoped : unscoped GroupAdmin (bearer (AccessDemo.with_key "kg_live_1")) AccessDemo.db.
Proof.
  intros k ak Hk Hh. enough (ak_Scopes ak = [ScopeLicensesWrite]) as Es.
  { intros [Ha|(x & Hx & Ha)]; rewrite Es in Ha; [|apply list_elem_of_singleton in Hx as ->]; by apply list_elem_of_singleton in Ha. }
  revert k ak Hk Hh. apply (map_Forall_to_list (fun k ak => ak_KeyHash ak = _ -> ak_Scopes ak = [ScopeLicensesWrite])).
  vm_compute. repeat constructor; intros Hx; discriminate Hx.
Qed.

Lemma key_confined_witness :
  (let '(answer, w') := AccessDemo.serve (AccessDemo.with_key "kg_live_1") (RRevokeLicense "lic-2") AccessDemo.world in
   answer = Ok out_of_scope /\ others_kept "prod-1" AccessDemo.db (w_db w')) /\
  (let '(answer, w') := serve_group (fun status code => KeyFailed status code "") AccessDemo.parse "s" GroupAdmin (Some true) (AccessDemo.with_key "kg_live_1")
     (fun cx => ListAPIKeys_ "" "") AccessDemo.world in
   answer = Ok (KeyFailed 403 "INSUFFICIENT_SCOPE" "")).
Proof.
  destruct (key_confined AccessDemo.h (fun _ => None) (fun a => Some a) AccessDemo.parse "s" (Some true)
    (AccessDemo.with_key "kg_live_1") (RRevokeLicense "lic-2") "prod-1" AccessDemo.world
    ltac:(vm_compute; reflexivity) ltac:(discriminate) access_demo_bound eq_refl access_demo_licenses access_demo_activations) as [Hc Hg].
  split.
  - assert (fst (AccessDemo.serve (AccessDemo.with_key "kg_live_1") (RRevokeLicense "lic-2") AccessDemo.world) = Ok out_of_scope) as Ha
      by (vm_compute; reflexivity).
    unfold AccessDemo.serve in *. destruct (serve_license _ _ _ _ _ _ _ _ _) as [answer w']. split; [exact Ha|exact (proj1 Hc)].
  - specialize (Hg KeyAnswer (fun status code => KeyFailed status code "") GroupAdmin (fun cx => ListAPIKeys_ "" "") access_demo_unscoped).
    assert (fst (serve_group (fun status code => KeyFailed status code "") AccessDemo.parse "s" GroupAdmin (Some true) (AccessDemo.with_key "kg_live_1")
      (fun cx => ListAPIKeys_ "" "") AccessDemo.world) = Ok (KeyFailed 403 "INSUFFICIENT_SCOPE" "")) as Ha by (vm_compute; reflexivity).
    destruct (serve_group _ _ _ _ _ _ _ _) as [answer w']. exact Ha.
Defined.

(** The same key revokes a licence of its product. *)
Example key_revokes_own :
  fst (AccessDemo.serve (AccessDemo.with_key "kg_live_1") (RRevokeLicense "lic-1") AccessDemo.world)
  = Ok (Answered 200 {["status" := AnyString "revoked"]}).
Proof. vm_compute. reflexivity. Qed.

(** Export_unscoped: the export answers the same key with the licence, and the
    licence key, of another product. *)
Theorem export_unscoped :
  exists rows, fst (AccessDemo.serve (AccessDemo.with_key "kg_live_1") (RExportLicenses None "" "") AccessDemo.world)
               = Ok (Exported "csv" rows) /\
    exists row, row ∈ rows /\ "lic-2" ∈ row /\ "KEY-2" ∈ row.
Proof.
  eexists. split; [vm_compute; reflexivity|]. eexists. split; [right; right; left|]. split; [left|do 5 right; left].
Qed.

Lemma authorize_sound_witness :
  exists cx w', authorize (E := goerr) AccessDemo.parse "s" GroupAdmin (Some true) AccessDemo.with_cookie AccessDemo.world = (Ok (inl cx), w') /\
    (by_key GroupAdmin AccessDemo.with_cookie AccessDemo.db cx
     \/ by_session AccessDemo.parse "s" AccessDemo.with_cookie AccessDemo.db cx).
Proof.
  destruct (authorize (E := goerr) AccessDemo.parse "s" GroupAdmin (Some true) AccessDemo.with_cookie AccessDemo.world)
    as [[[cx|no]|e] w'] eqn:E.
  - exists cx, w'. split; [reflexivity|].
    exact (proj2 (authorize_sound AccessDemo.parse "s" GroupAdmin (Some true) AccessDemo.with_cookie cx AccessDemo.world w' E)).
  - exfalso. vm_compute in E. discriminate E.
  - exfalso. vm_compute in E. discriminate E.
Defined.

Lemma revocation_atomic_witness :
  revoked "lic-1" "ann" "10.0.0.1" AccessDemo.db
    (w_db (snd (RevokeLicense_ AccessDemo.h AccessDemo.admin "lic-1" AccessDemo.world))).
Proof.
  pose proof (revocation_atomic AccessDemo.h AccessDemo.admin "lic-1" AccessDemo.world eq_refl access_demo_licenses) as Hr.
  assert (fst (RevokeLicense_ AccessDemo.h AccessDemo.admin "lic-1" AccessDemo.world)
          = Ok (Answered 200 {["status" := AnyString "revoked"]})) as Ha by (vm_compute; reflexivity).
  destruct (RevokeLicense_ _ _ _ _) as [r w']. simpl in Ha |- *. destruct Hr as [Hr|[_ Hn]]; [exact Hr|by destruct (Hn Ha)].
Defined.

Lemma audited_atomic_witness :
  let '(r, w') := RevokeLicenseWithAudit "lic-9" "ann" "" AccessDemo.world in
  r = Err (ErrText "license not found") /\ w_db w' = AccessDemo.db.
Proof.
  pose proof (audited_atomic (mkAuditLog "" "license" "lic-9" "revoked" "ann" "admin" ∅ "" 0) (revoke_license "lic-9") AccessDemo.world
    eq_refl (honest_revoke "lic-9") eq_refl) as Ha.
  change (RunAuditedMutation _ (revoke_license "lic-9")) with (RevokeLicenseWithAudit "lic-9" "ann" "") in Ha.
  assert (fst (RevokeLicenseWithAudit "lic-9" "ann" "" AccessDemo.world) = Err (ErrText "license not found")) as He
    by (vm_compute; reflexivity).
  destruct (RevokeLicenseWithAudit _ _ _ _) as [r w']. split; [exact He|]. destruct Ha as [[_ Ha]|Ha]; [exact Ha|exfalso].
  destruct Ha as (w1 & w2 & id & now & Hd & Hm & Hn & _). apply (revoke_license_Ok _ (mkAuditLog "" "license" "lic-9" "revoked" "ann" "admin" ∅ "" 0) _ _ id now) in Hm.
  - destruct Hm as ((l & t & Hl & _) & _). rewrite Hd in Hl. vm_compute in Hl. discriminate Hl.
  - rewrite Hd. exact access_demo_licenses.
  - exact Hn.
Defined.

Lemma rotation_replaces_secret_witness :
  exists status ak raw prefix w', RotateAPIKey_ AccessDemo.admin "key-1" AccessDemo.world = (Ok (KeySecret status ak raw prefix), w') /\
    exists ak', key_with (HashAPIKey raw) (w_db w') = Some ak' /\ ak_ID ak' = "key-1".
Proof.
  destruct (RotateAPIKey_ AccessDemo.admin "key-1" AccessDemo.world) as [[[l|status ak raw prefix| |s c m]|e] w'] eqn:E.
  2: { exists status, ak, raw, prefix, w'. split; [reflexivity|].
       destruct (rotation_replaces_secret AccessDemo.admin "key-1" status ak raw prefix AccessDemo.world w' E eq_refl access_demo_indexed)
         as [(ak' & Hk & Hid & _) _]. exists ak'. exact (conj Hk Hid). }
  all: exfalso; vm_compute in E; discriminate E.
Defined.

(** Bound_key_escapes: a key of the admin scope bound to one product makes a key
    of that scope bound to none. *)
Theorem bound_key_escapes :
  exists cx w1, authorize (E := goerr) AccessDemo.parse "s" GroupAdmin (Some true) (AccessDemo.with_key "kg_live_2") AccessDemo.world = (Ok (inl cx), w1) /\
    option_map ak_ProductID (cx_api_key cx) = Some "prod-1" /\
    exists ak raw prefix w2, CreateAPIKey_ cx (Some ("", "escaped", [ScopeAdmin])) w1 = (Ok (KeySecret 201 ak raw prefix), w2) /\
      ak_ProductID ak = "" /\ ak_Scopes ak = [ScopeAdmin].
Proof.
  eexists _, _. split; [vm_compute; reflexivity|]. split; [reflexivity|]. eexists _, _, _, _.
  split; [vm_compute; reflexivity|]. split; reflexivity.
Qed.
