(* ===== verification/Catalogue.v ===== *)
(** * The catalogue ([handler/admin.go], [store/admin.go], [store/addons.go])

    Products, plans, entitlements and add-ons as the administration edits
    them.  An UPDATE writes every column of the row it read; a DELETE removes
    what refers to the row with ON DELETE CASCADE and is refused while anything
    else does. *)

From S2P Require Import Prelude GoStrings Errors Model Crypto World Tables Logic Store Sessions ReleaseStore Payments Access.
From Stdlib Require Import Ascii String.

#[local] Open Scope string_scope.
#[local] Open Scope Z_scope.

(** ** Rows *)

Definition prod_with (name slug type version message : string) (signing : bool) (p : Product) : Product :=
  mkProduct (prod_ID p) name slug type version message signing (prod_CreatedAt p).
Definition prod_set_Name name p :=
  prod_with name (prod_Slug p) (prod_Type p) (prod_MinimumSupportedVersion p) (prod_MinimumSupportedMessage p)
    (prod_RequireSigning p) p.
Definition prod_set_Slug slug p :=
  prod_with (prod_Name p) slug (prod_Type p) (prod_MinimumSupportedVersion p) (prod_MinimumSupportedMessage p)
    (prod_RequireSigning p) p.
Definition prod_set_Type type p :=
  prod_with (prod_Name p) (prod_Slug p) type (prod_MinimumSupportedVersion p) (prod_MinimumSupportedMessage p)
    (prod_RequireSigning p) p.
Definition prod_set_Version version p :=
  prod_with (prod_Name p) (prod_Slug p) (prod_Type p) version (prod_MinimumSupportedMessage p) (prod_RequireSigning p) p.
Definition prod_set_Message message p :=
  prod_with (prod_Name p) (prod_Slug p) (prod_Type p) (prod_MinimumSupportedVersion p) message (prod_RequireSigning p) p.
Definition prod_set_Signing signing p :=
  prod_with (prod_Name p) (prod_Slug p) (prod_Type p) (prod_MinimumSupportedVersion p) (prod_MinimumSupportedMessage p)
    signing p.

(** The row of an insertion: a zero column with a default gets the default. *)
Definition prod_row (id : string) (now : Time) (p : Product) : Product :=
  mkProduct id (prod_Name p) (prod_Slug p) (prod_Type p) (prod_MinimumSupportedVersion p)
    (prod_MinimumSupportedMessage p) true (or_now now (prod_CreatedAt p)).

Definition plan_row (id checkoutID : string) (now : Time) (p : Plan) : Plan :=
  mkPlan id (plan_ProductID p) (plan_Name p) (plan_Slug p) checkoutID (plan_LicenseType p) (plan_BillingInterval p)
    (plan_MaxActivations p) (plan_TrialDays p) (plan_GraceDays p) (plan_StripePriceID p) (plan_LicenseModel p)
    (plan_FloatingTimeout p) (plan_MaxSeats p) true (plan_SortOrder p) (or_now now (plan_CreatedAt p)) [].

(** The columns of a row loaded with its relations. *)
Definition plan_columns (p : Plan) : Plan :=
  mkPlan (plan_ID p) (plan_ProductID p) (plan_Name p) (plan_Slug p) (plan_CheckoutID p) (plan_LicenseType p)
    (plan_BillingInterval p) (plan_MaxActivations p) (plan_TrialDays p) (plan_GraceDays p) (plan_StripePriceID p)
    (plan_LicenseModel p) (plan_FloatingTimeout p) (plan_MaxSeats p) (plan_Active p) (plan_SortOrder p)
    (plan_CreatedAt p) [].

Definition ent_row (id : string) (e : Entitlement) : Entitlement :=
  mkEntitlement id (ent_PlanID e) (ent_Feature e) (ent_ValueType e) (ent_Value e) (ent_QuotaPeriod e) (ent_QuotaUnit e)
    (ent_StripeMeterEventName e).

Definition addon_row (id : string) (now : Time) (a : Addon) : Addon :=
  mkAddon id (addon_ProductID a) (addon_Name a) (addon_Slug a) (addon_Description a) (addon_Feature a)
    (addon_ValueType a) (addon_Value a) (addon_QuotaPeriod a) (addon_QuotaUnit a) true (addon_SortOrder a)
    (or_now now (addon_CreatedAt a)).

(** ** The store *)

Definition matches (search a b : string) : bool :=
  streq search "" || ilike ("%" +:+ search +:+ "%") a || ilike ("%" +:+ search +:+ "%") b.

(** [ORDER BY sort_order ASC, created_at DESC]. *)
Definition in_order {R} (order created : R -> Z) (r r' : R) : bool :=
  (order r <? order r') || (order r =? order r') && (created r' <=? created r).

(** A DELETE takes along the rows that refer to the deleted one with ON DELETE
    CASCADE. *)
Definition drop_products (id : string) (db : DB) : DB :=
  let addon_gone a := streq (addon_ProductID a) id in
  let webhook_gone w := streq (wh_ProductID w) id in
  let db := t_set license_addons
    (delete_rows (fun la => match db_addons db !! la_AddonID la with Some a => addon_gone a | None => false end)
      (db_license_addons db)) db in
  let db := t_set addons (delete_rows addon_gone (db_addons db)) db in
  let db := t_set webhook_deliveries
    (delete_rows (fun d => match db_webhooks db !! wd_WebhookID d with Some w => webhook_gone w | None => false end)
      (db_webhook_deliveries db)) db in
  let db := t_set webhooks (delete_rows webhook_gone (db_webhooks db)) db in
  let db := t_set api_keys (delete_rows (fun ak => streq (ak_ProductID ak) id) (db_api_keys db)) db in
  let db := t_set signing_keys (delete_rows (fun k => streq (sk_ProductID k) id) (db_signing_keys db)) db in
  t_set products (delete_rows (fun p => streq (prod_ID p) id) (db_products db)) db.

(** Plans, licences and releases refer to products without a cascade. *)
Definition product_in_use (id : string) (db : DB) : bool :=
  row_exists (fun p => streq (plan_ProductID p) id) (db_plans db)
  || row_exists (fun l => streq (lic_ProductID l) id) (db_licenses db)
  || row_exists (fun r => streq (rel_ProductID r) id) (db_releases db).

(** Licences and subscriptions refer to plans without a cascade. *)
Definition plan_in_use (id : string) (db : DB) : bool :=
  row_exists (fun l => streq (lic_PlanID l) id) (db_licenses db)
  || row_exists (fun s => streq (sub_PlanID s) id) (db_subscriptions db).

Definition drop_plans (id : string) (db : DB) : DB :=
  let db := t_set entitlements (delete_rows (fun e => streq (ent_PlanID e) id) (db_entitlements db)) db in
  t_set plans (delete_rows (fun p => streq (plan_ID p) id) (db_plans db)) db.

Definition drop_addons (id : string) (db : DB) : DB :=
  let db := t_set license_addons (delete_rows (fun la => streq (la_AddonID la) id) (db_license_addons db)) db in
  t_set addons (delete_rows (fun a => streq (addon_ID a) id) (db_addons db)) db.

(** The plan settings a product of type [t] cannot have. *)
Definition incompatible_with (t : string) (p : Plan) : bool :=
  let supportsAct := ProductSupports t CapActivations in
  let supportsSeats := ProductSupports t CapSeats in
  negb supportsAct && ((0 <? plan_MaxActivations p) || streq (plan_LicenseModel p) "floating")
  || negb supportsSeats && (0 <? plan_MaxSeats p).

Section store.
Context `{UUIDs}.

Definition ListProducts (search : string) : M goerr (list Product) := stmt (fun db =>
  Ok (sort_by (fun p => - prod_CreatedAt p)
        (map_to_list (rows (fun p => matches search (prod_Name p) (prod_Slug p)) (db_products db))).*2, db)).

Definition CreateProduct (p : Product) : M goerr Product :=
  id ← fresh_id (prod_ID p);
  now ← sql_now;
  sql_insert products id (prod_row id now p) ;;
  mret (prod_row id now p).

Definition UpdateProduct (p : Product) : M goerr unit :=
  sql_update_checked products (prod_ID p) (fun _ => p) ;; mret tt.

Definition DeleteProduct (id : string) : M goerr unit := stmt (fun db =>
  if present (db_products db !! id) && product_in_use id db then Err (ErrSQL ForeignKeyViolation)
  else Ok (tt, drop_products id db)).

Definition ListPlans (productID search : string) : M goerr (list (Plan * option Product)) := stmt (fun db =>
  Ok ((fun p => (with_entitlements db p, db_products db !! plan_ProductID p)) <$>
        sort_le (in_order plan_SortOrder plan_CreatedAt)
          (map_to_list (rows (fun p => wanted productID (plan_ProductID p) && matches search (plan_Name p) (plan_Slug p))
                             (db_plans db))).*2, db)).

(** [hex.EncodeToString(b)[:8]] of six random bytes. *)
Definition shortID {E} : M E string := r ← randomHex 6; mret (stake 8 r).

Definition CreatePlan (p : Plan) : M goerr Plan :=
  id ← fresh_id (plan_ID p);
  checkoutID ← (if streq (plan_CheckoutID p) "" then shortID else mret (plan_CheckoutID p));
  now ← sql_now;
  sql_insert plans id (plan_row id checkoutID now p) ;;
  mret (plan_row id checkoutID now p).

Definition UpdatePlan (p : Plan) : M goerr unit :=
  sql_update_checked plans (plan_ID p) (fun _ => plan_columns p) ;; mret tt.

Definition DeletePlan (id : string) : M goerr unit := stmt (fun db =>
  if present (db_plans db !! id) && plan_in_use id db then Err (ErrSQL ForeignKeyViolation)
  else Ok (tt, drop_plans id db)).

Definition CountPlansIncompatibleWithType (productID newType : string) : M goerr Z :=
  if ProductSupports newType CapActivations && ProductSupports newType CapSeats then mret 0
  else sql_count plans (fun p => streq (plan_ProductID p) productID && incompatible_with newType p).

Definition ProductLicenseCount (productID : string) : M goerr Z :=
  sql_count licenses (fun l => streq (lic_ProductID l) productID).
Definition PlanLicenseCount (planID : string) : M goerr Z := sql_count licenses (fun l => streq (lic_PlanID l) planID).

Definition FindEntitlementByID (id : string) : M goerr Entitlement :=
  sql_select_one entitlements (fun e => streq (ent_ID e) id).
Definition CreateEntitlement (e : Entitlement) : M goerr Entitlement :=
  id ← fresh_id (ent_ID e);
  sql_insert entitlements id (ent_row id e) ;;
  mret (ent_row id e).
Definition UpdateEntitlement (e : Entitlement) : M goerr unit :=
  sql_update_checked entitlements (ent_ID e) (fun _ => e) ;; mret tt.
Definition DeleteEntitlement (id : string) : M goerr unit :=
  sql_delete entitlements (fun e => streq (ent_ID e) id) ;; mret tt.

Definition FindAddonByID (id : string) : M goerr Addon := sql_select_one addons (fun a => streq (addon_ID a) id).
Definition ListAddons (productID search : string) : M goerr (list Addon) := stmt (fun db =>
  Ok (sort_le (in_order addon_SortOrder addon_CreatedAt)
        (map_to_list (rows (fun a => wanted productID (addon_ProductID a) && matches search (addon_Name a) (addon_Feature a))
                           (db_addons db))).*2, db)).
Definition CreateAddon (a : Addon) : M goerr Addon :=
  id ← fresh_id (addon_ID a);
  now ← sql_now;
  sql_insert addons id (addon_row id now a) ;;
  mret (addon_row id now a).
Definition UpdateAddon (a : Addon) : M goerr unit :=
  sql_update_checked addons (addon_ID a) (fun _ => a) ;; mret tt.
Definition DeleteAddon (id : string) : M goerr unit := stmt (fun db => Ok (tt, drop_addons id db)).
End store.

(** ** Requests *)

(** A field left out of the body is [None]; those of [UpdateProduct] that are
    plain strings are then empty. *)
Record ProductUpdate := mkProductUpdate {
  pu_Name : string; pu_Slug : string; pu_Type : string;
  pu_MinimumSupportedVersion : option string; pu_MinimumSupportedMessage : option string; pu_RequireSigning : option bool
}.

Record PlanRequest := mkPlanRequest {
  pq_ProductID : string; pq_Name : string; pq_Slug : string; pq_LicenseType : string; pq_BillingInterval : string;
  pq_MaxActivations : Z; pq_MaxSeats : Z; pq_TrialDays : Z; pq_GraceDays : Z; pq_StripePriceID : string;
  pq_LicenseModel : string; pq_FloatingTimeout : Z; pq_SortOrder : Z
}.

Record PlanUpdate := mkPlanUpdate {
  pl_Name : option string; pl_Slug : option string; pl_LicenseType : option string; pl_BillingInterval : option string;
  pl_MaxActivations : option Z; pl_MaxSeats : option Z; pl_TrialDays : option Z; pl_GraceDays : option Z;
  pl_StripePriceID : option string; pl_LicenseModel : option string; pl_FloatingTimeout : option Z;
  pl_Active : option bool; pl_SortOrder : option Z
}.

Record EntitlementUpdate := mkEntitlementUpdate {
  eu_Feature : option string; eu_ValueType : option string; eu_Value : option string; eu_QuotaPeriod : option string;
  eu_QuotaUnit : option string; eu_StripeMeterEventName : option string
}.

Record AddonUpdate := mkAddonUpdate {
  au_Name : option string; au_Description : option string; au_Feature : option string; au_ValueType : option string;
  au_Value : option string; au_QuotaPeriod : option string; au_QuotaUnit : option string; au_Active : option bool;
  au_SortOrder : option Z
}.

Inductive CatalogueAnswer :=
  | Products (ps : list Product)
  | Plans (ps : list (Plan * option Product))
  | Addons (l : list Addon)
  | AProduct (status : Z) (p : Product)
  | APlan (status : Z) (p : Plan)
  | AnEntitlement (status : Z) (e : Entitlement)
  | AnAddon (status : Z) (a : Addon)
  | Deleted
  | Rejected (status : Z) (code message : string).

Definition cat_bad (message : string) : CatalogueAnswer := Rejected 400 "BAD_REQUEST" message.
Definition cat_not_found (message : string) : CatalogueAnswer := Rejected 404 "NOT_FOUND" message.
Definition cat_internal : CatalogueAnswer := Rejected 500 "INTERNAL_ERROR" "an internal error occurred".
Definition duplicate (message : string) : CatalogueAnswer := Rejected 409 "DUPLICATE" message.
Definition incompatible (message : string) : CatalogueAnswer := Rejected 400 "INCOMPATIBLE_PRODUCT_TYPE" message.

(** ** Handlers *)

Section handlers.
Context `{UUIDs} (semver_IsValid : string -> bool) (cx : Context_).

Definition catalogue_audit (entity id action : string) (changes : gmap string any) : M goerr unit :=
  Audit (mkAuditLog "" entity id action (adminID cx) "admin" changes "" 0).

(** [if err != nil { response.Internal(c); return }; response.OK(c, x)]. *)
Definition or_internal {A} (m : M goerr A) (answer : A -> CatalogueAnswer) : M goerr CatalogueAnswer :=
  r ← attempt m;
  mret (match r with Ok a => answer a | Err _ => cat_internal end).

Definition ListProducts_ (search : string) : M goerr CatalogueAnswer := or_internal (ListProducts search) Products.

Definition GetProduct_ (id : string) : M goerr CatalogueAnswer :=
  r ← attempt (FindProductByID id);
  mret (match r with Ok p => AProduct 200 p | Err _ => cat_not_found "product not found" end).

(** [apperr] checks that stop the request. *)
Definition unless (e : option AppError) (k : M goerr CatalogueAnswer) : M goerr CatalogueAnswer :=
  match e with Some e => mret (cat_bad (Message e)) | None => k end.

Definition known_type (t : string) : bool := streq t "desktop" || streq t "saas" || streq t "hybrid".
Definition bad_type : CatalogueAnswer := cat_bad "type must be desktop, saas, or hybrid".

Definition CreateProduct_ (req : option (string * string * string)) : M goerr CatalogueAnswer :=
  match req with
  | None => mret (cat_bad "name, slug, and type are required")
  | Some (name, slug, type) =>
      if negb (known_type type) then mret bad_type
      else unless (ValidateName "name" name) (unless (ValidateSlug slug) (
        r ← attempt (CreateProduct (mkProduct "" name slug type "" "" false 0));
        match r with
        | Err _ => mret (duplicate "product slug already exists")
        | Ok p =>
            catalogue_audit "product" (prod_ID p) "created"
              {["name" := AnyString name; "slug" := AnyString slug; "type" := AnyString type]} ;;
            mret (AProduct 201 p)
        end))
  end.

(** The steps of [UpdateProduct], each changing the row in memory. *)
Definition change_name (u : ProductUpdate) (p : Product) (k : Product -> M goerr CatalogueAnswer) :=
  if streq (pu_Name u) "" then k p
  else unless (ValidateName "name" (pu_Name u)) (k (prod_set_Name (pu_Name u) p)).

Definition change_slug (u : ProductUpdate) (p : Product) (k : Product -> M goerr CatalogueAnswer) :=
  if streq (pu_Slug u) "" then k p else unless (ValidateSlug (pu_Slug u)) (k (prod_set_Slug (pu_Slug u) p)).

Definition change_type (u : ProductUpdate) (p : Product) (k : Product -> M goerr CatalogueAnswer) :=
  let t := pu_Type u in
  if streq t "" then k p
  else if negb (known_type t) then mret bad_type
  else if streq t (prod_Type p) then k (prod_set_Type t p)
  else
    r ← attempt (CountPlansIncompatibleWithType (prod_ID p) t);
    match r with
    | Err _ => mret cat_internal
    | Ok n =>
        if 0 <? n then mret (Rejected 409 "INCOMPATIBLE_PLANS"
          (pretty n +:+ " existing plan(s) use fields that are not valid for " +:+ t
           +:+ " products; reset max_activations / max_seats / license_model on those plans first"))
        else k (prod_set_Type t p)
    end.

Definition change_version (u : ProductUpdate) (p : Product) (k : Product -> M goerr CatalogueAnswer) :=
  match pu_MinimumSupportedVersion u with
  | None => k p
  | Some v =>
      let v := TrimSpace v in
      unless (if streq v "" then None else ValidateSemver semver_IsValid v) (k (prod_set_Version v p))
  end.

Definition change_message (u : ProductUpdate) (p : Product) (k : Product -> M goerr CatalogueAnswer) :=
  match pu_MinimumSupportedMessage u with
  | None => k p
  | Some m =>
      let m := TrimSpace m in
      if 1024 <? len m then mret (cat_bad "minimum_supported_message must be ≤ 1024 chars")
      else k (prod_set_Message m p)
  end.

Definition save_product (p : Product) : M goerr CatalogueAnswer := or_internal (UpdateProduct p) (fun _ => AProduct 200 p).

Definition UpdateProduct_ (id : string) (req : option ProductUpdate) : M goerr CatalogueAnswer :=
  r ← attempt (FindProductByID id);
  match r, req with
  | Err _, _ => mret (cat_not_found "product not found")
  | Ok _, None => mret (cat_bad "invalid request body")
  | Ok p, Some u =>
      change_name u p (fun p => change_slug u p (fun p => change_type u p (fun p =>
      change_version u p (fun p => change_message u p (fun p =>
        save_product (match pu_RequireSigning u with Some b => prod_set_Signing b p | None => p end))))))
  end.

(** The error of the count is dropped. *)
Definition DeleteProduct_ (id : string) : M goerr CatalogueAnswer :=
  c ← attempt (ProductLicenseCount id);
  if 0 <? (match c with Ok n => n | Err _ => 0 end)
  then mret (Rejected 409 "HAS_LICENSES" "cannot delete product with existing licenses")
  else
    r ← attempt (DeleteProduct id);
    match r with
    | Err _ => mret cat_internal
    | Ok _ => catalogue_audit "product" id "deleted" ∅ ;; mret Deleted
    end.

(** *** Plans *)

Definition ListPlans_ (productID search : string) : M goerr CatalogueAnswer := or_internal (ListPlans productID search) Plans.

Definition GetPlan_ (id : string) : M goerr CatalogueAnswer :=
  r ← attempt (FindPlanByID id);
  mret (match r with Ok p => APlan 200 p | Err _ => cat_not_found "plan not found" end).

Definition known_license_type (t : string) : bool := streq t "subscription" || streq t "perpetual" || streq t "trial".
Definition known_model (m : string) : bool := streq m "standard" || streq m "floating".
Definition bad_license_type : CatalogueAnswer := cat_bad "license_type must be subscription, perpetual, or trial".
Definition bad_model : CatalogueAnswer := cat_bad "license_model must be standard or floating".

(** What a product of type [t] cannot be asked for: devices, seats, floating
    sessions; the answer to a creation carries a hint. *)
Definition unsupported (hint : bool) (t : string) (devices seats : Z) (model : string) : option CatalogueAnswer :=
  if (0 <? devices) && negb (ProductSupports t CapActivations)
  then Some (incompatible ("max_activations is not supported for " +:+ t +:+ " products"
                           +:+ if hint then " (use a hybrid or desktop product)" else ""))
  else if (0 <? seats) && negb (ProductSupports t CapSeats)
  then Some (incompatible ("max_seats is not supported for " +:+ t +:+ " products"
                           +:+ if hint then " (use a hybrid or saas product)" else ""))
  else if streq model "floating" && negb (ProductSupports t CapActivations)
  then Some (incompatible ("floating license_model is not supported for " +:+ t +:+ " products"))
  else None.

Definition request_bounds (q : PlanRequest) : planBounds :=
  mkPlanBounds (pq_MaxActivations q) (pq_MaxSeats q) (pq_TrialDays q) (pq_GraceDays q) (pq_FloatingTimeout q).

(** The plan of a request for a product of type [t], its defaults filled in. *)
Definition requested_plan (q : PlanRequest) (t model : string) : Plan :=
  mkPlan "" (pq_ProductID q) (pq_Name q) (pq_Slug q) "" (pq_LicenseType q) (pq_BillingInterval q)
    (if (pq_MaxActivations q <=? 0) && ProductSupports t CapActivations then 1 else pq_MaxActivations q)
    (pq_TrialDays q) (if pq_GraceDays q <=? 0 then 7 else pq_GraceDays q) (pq_StripePriceID q) model
    (if pq_FloatingTimeout q <=? 0 then 30 else pq_FloatingTimeout q) (pq_MaxSeats q) true (pq_SortOrder q) 0 [].

Definition create_plan (q : PlanRequest) (model : string) : M goerr CatalogueAnswer :=
  r ← attempt (FindProductByID (pq_ProductID q));
  match r with
  | Err _ => mret (cat_not_found "product not found")
  | Ok prod =>
      match unsupported true (prod_Type prod) (pq_MaxActivations q) (pq_MaxSeats q) model with
      | Some no => mret no
      | None =>
          r ← attempt (CreatePlan (requested_plan q (prod_Type prod) model));
          match r with
          | Err _ => mret (duplicate "plan slug already exists for this product")
          | Ok p =>
              catalogue_audit "plan" (plan_ID p) "created"
                {["name" := AnyString (pq_Name q); "product_id" := AnyString (pq_ProductID q)]} ;;
              mret (APlan 201 p)
          end
      end
  end.

Definition CreatePlan_ (req : option PlanRequest) : M goerr CatalogueAnswer :=
  match req with
  | None => mret (cat_bad "product_id, name, slug, and license_type are required")
  | Some q =>
      unless (ValidateName "name" (pq_Name q)) (unless (ValidateSlug (pq_Slug q)) (
        if negb (known_license_type (pq_LicenseType q)) then mret bad_license_type
        else match validatePlanNumericBounds (request_bounds q) with
        | Some message => mret (cat_bad message)
        | None =>
            let model := if streq (pq_LicenseModel q) "" then "standard" else pq_LicenseModel q in
            if negb (known_model model) then mret bad_model else create_plan q model
        end))
  end.

Definition merged_bounds (u : PlanUpdate) (p : Plan) : planBounds :=
  mkPlanBounds (default (plan_MaxActivations p) (pl_MaxActivations u)) (default (plan_MaxSeats p) (pl_MaxSeats u))
    (default (plan_TrialDays p) (pl_TrialDays u)) (default (plan_GraceDays p) (pl_GraceDays u))
    (default (plan_FloatingTimeout p) (pl_FloatingTimeout u)).

Definition merged_plan (u : PlanUpdate) (p : Plan) : Plan :=
  mkPlan (plan_ID p) (plan_ProductID p) (default (plan_Name p) (pl_Name u)) (default (plan_Slug p) (pl_Slug u))
    (plan_CheckoutID p) (default (plan_LicenseType p) (pl_LicenseType u))
    (default (plan_BillingInterval p) (pl_BillingInterval u)) (default (plan_MaxActivations p) (pl_MaxActivations u))
    (default (plan_TrialDays p) (pl_TrialDays u)) (default (plan_GraceDays p) (pl_GraceDays u))
    (default (plan_StripePriceID p) (pl_StripePriceID u)) (default (plan_LicenseModel p) (pl_LicenseModel u))
    (default (plan_FloatingTimeout p) (pl_FloatingTimeout u)) (default (plan_MaxSeats p) (pl_MaxSeats u))
    (default (plan_Active p) (pl_Active u)) (default (plan_SortOrder p) (pl_SortOrder u)) (plan_CreatedAt p)
    (plan_Entitlements p).

(** The guards of [UpdatePlan], in order: the settings asked for, then the
    kind of licence, then the bounds of the merged row. *)
Definition update_refused (t : string) (u : PlanUpdate) (p : Plan) : option CatalogueAnswer :=
  match unsupported false t (default 0 (pl_MaxActivations u)) (default 0 (pl_MaxSeats u)) "" with
  | Some no => Some no
  | None =>
      if negb (match pl_LicenseModel u with Some m => known_model m | None => true end) then Some bad_model
      else match unsupported false t 0 0 (default "" (pl_LicenseModel u)) with
      | Some no => Some no
      | None =>
          if negb (match pl_LicenseType u with Some lt => known_license_type lt | None => true end) then Some bad_license_type
          else cat_bad <$> validatePlanNumericBounds (merged_bounds u p)
      end
  end.

Definition UpdatePlan_ (id : string) (req : option PlanUpdate) : M goerr CatalogueAnswer :=
  r ← attempt (FindPlanByID id);
  match r, req with
  | Err _, _ => mret (cat_not_found "plan not found")
  | Ok _, None => mret (cat_bad "invalid request body")
  | Ok p, Some u =>
      r ← attempt (FindProductByID (plan_ProductID p));
      match r with
      | Err _ => mret cat_internal
      | Ok prod =>
          match update_refused (prod_Type prod) u p with
          | Some no => mret no
          | None => or_internal (UpdatePlan (merged_plan u p)) (fun _ => APlan 200 (merged_plan u p))
          end
      end
  end.

Definition DeletePlan_ (id : string) : M goerr CatalogueAnswer :=
  c ← attempt (PlanLicenseCount id);
  if 0 <? (match c with Ok n => n | Err _ => 0 end)
  then mret (Rejected 409 "HAS_LICENSES" "cannot delete plan with existing licenses")
  else or_internal (DeletePlan id) (fun _ => Deleted).

(** *** Entitlements and add-ons *)

(** The body's row has no identifier. *)
Definition CreateEntitlement_ (req : option Entitlement) : M goerr CatalogueAnswer :=
  match req with
  | None => mret (cat_bad "plan_id, feature, value_type, and value are required")
  | Some e =>
      if negb (contains (ent_ValueType e) ["bool"; "int"; "string"; "quota"; "flag"])
      then mret (cat_bad "value_type must be bool, int, string, quota, or flag")
      else if negb (streq (ent_StripeMeterEventName e) "") && negb (streq (ent_ValueType e) "quota")
      then mret (cat_bad "stripe_meter_event_name requires value_type=quota")
      else
        r ← attempt (CreateEntitlement (ent_row "" e));
        mret (match r with
              | Ok e => AnEntitlement 201 e
              | Err _ => duplicate "entitlement already exists for this plan and feature"
              end)
  end.

Definition merged_entitlement (u : EntitlementUpdate) (e : Entitlement) : Entitlement :=
  mkEntitlement (ent_ID e) (ent_PlanID e) (default (ent_Feature e) (eu_Feature u))
    (default (ent_ValueType e) (eu_ValueType u)) (default (ent_Value e) (eu_Value u))
    (default (ent_QuotaPeriod e) (eu_QuotaPeriod u)) (default (ent_QuotaUnit e) (eu_QuotaUnit u))
    (default (ent_StripeMeterEventName e) (eu_StripeMeterEventName u)).

(** Whether the request names a meter for a feature that is not a quota. *)
Definition meter_misplaced (u : EntitlementUpdate) (e : Entitlement) : bool :=
  match eu_StripeMeterEventName u with
  | Some name => negb (streq name "") && negb (streq (ent_ValueType (merged_entitlement u e)) "quota")
  | None => false
  end.

Definition UpdateEntitlement_ (id : string) (req : option EntitlementUpdate) : M goerr CatalogueAnswer :=
  r ← attempt (FindEntitlementByID id);
  match r, req with
  | Err _, _ => mret (cat_not_found "entitlement not found")
  | Ok _, None => mret (cat_bad "invalid request body")
  | Ok e, Some u =>
      if meter_misplaced u e then mret (cat_bad "stripe_meter_event_name requires value_type=quota")
      else or_internal (UpdateEntitlement (merged_entitlement u e)) (fun _ => AnEntitlement 200 (merged_entitlement u e))
  end.

Definition DeleteEntitlement_ (id : string) : M goerr CatalogueAnswer := or_internal (DeleteEntitlement id) (fun _ => Deleted).

Definition ListAddons_ (productID search : string) : M goerr CatalogueAnswer := or_internal (ListAddons productID search) Addons.

(** The body's row has no identifier and is active. *)
Definition CreateAddon_ (req : option Addon) : M goerr CatalogueAnswer :=
  match req with
  | None => mret (cat_bad "product_id, name, slug, feature, value_type, and value are required")
  | Some a =>
      unless (ValidateName "name" (addon_Name a)) (unless (ValidateSlug (addon_Slug a)) (
        if negb (contains (addon_ValueType a) ["bool"; "int"; "string"; "quota"])
        then mret (cat_bad "value_type must be bool, int, string, or quota")
        else
          r ← attempt (CreateAddon (addon_row "" 0 a));
          mret (match r with
                | Ok a => AnAddon 201 a
                | Err _ => duplicate "addon slug already exists for this product"
                end)))
  end.

Definition merged_addon (u : AddonUpdate) (a : Addon) : Addon :=
  mkAddon (addon_ID a) (addon_ProductID a) (default (addon_Name a) (au_Name u)) (addon_Slug a)
    (default (addon_Description a) (au_Description u)) (default (addon_Feature a) (au_Feature u))
    (default (addon_ValueType a) (au_ValueType u)) (default (addon_Value a) (au_Value u))
    (default (addon_QuotaPeriod a) (au_QuotaPeriod u)) (default (addon_QuotaUnit a) (au_QuotaUnit u))
    (default (addon_Active a) (au_Active u)) (default (addon_SortOrder a) (au_SortOrder u)) (addon_CreatedAt a).

Definition UpdateAddon_ (id : string) (req : option AddonUpdate) : M goerr CatalogueAnswer :=
  r ← attempt (FindAddonByID id);
  match r, req with
  | Err _, _ => mret (cat_not_found "addon not found")
  | Ok _, None => mret (cat_bad "invalid request")
  | Ok a, Some u => or_internal (UpdateAddon (merged_addon u a)) (fun _ => AnAddon 200 (merged_addon u a))
  end.

Definition DeleteAddon_ (id : string) : M goerr CatalogueAnswer := or_internal (DeleteAddon id) (fun _ => Deleted).
End handlers.

(** ** The routes *)

Inductive CatalogueRoute :=
  | RListProducts (search : string)
  | RGetProduct (id : string)
  | RCreateProduct (req : option (string * string * string))
  | RUpdateProduct (id : string) (req : option ProductUpdate)
  | RDeleteProduct (id : string)
  | RListPlans (productID search : string)
  | RGetPlan (id : string)
  | RCreatePlan (req : option PlanRequest)
  | RUpdatePlan (id : string) (req : option PlanUpdate)
  | RDeletePlan (id : string)
  | RCreateEntitlement (req : option Entitlement)
  | RUpdateEntitlement (id : string) (req : option EntitlementUpdate)
  | RDeleteEntitlement (id : string)
  | RListAddonsOf (productID search : string)
  | RCreateAddon (req : option Addon)
  | RUpdateAddon (id : string) (req : option AddonUpdate)
  | RDeleteAddon (id : string).

Definition catalogue_route `{UUIDs} (semver_IsValid : string -> bool) (cx : Context_) (r : CatalogueRoute)
    : M goerr CatalogueAnswer :=
  match r with
  | RListProducts search => ListProducts_ search
  | RGetProduct id => GetProduct_ id
  | RCreateProduct req => CreateProduct_ cx req
  | RUpdateProduct id req => UpdateProduct_ semver_IsValid id req
  | RDeleteProduct id => DeleteProduct_ cx id
  | RListPlans productID search => ListPlans_ productID search
  | RGetPlan id => GetPlan_ id
  | RCreatePlan req => CreatePlan_ cx req
  | RUpdatePlan id req => UpdatePlan_ id req
  | RDeletePlan id => DeletePlan_ id
  | RCreateEntitlement req => CreateEntitlement_ req
  | RUpdateEntitlement id req => UpdateEntitlement_ id req
  | RDeleteEntitlement id => DeleteEntitlement_ id
  | RListAddonsOf productID search => ListAddons_ productID search
  | RCreateAddon req => CreateAddon_ req
  | RUpdateAddon id req => UpdateAddon_ id req
  | RDeleteAddon id => DeleteAddon_ id
  end.
