(* ===== verification/CatalogueProps.v ===== *)
(** * The catalogue stays consistent

    What every request of the catalogue leaves behind, whatever statement
    fails: plans fit their product, rows refer to rows that exist. *)

From S2P Require Import Prelude GoStrings Errors Model Crypto World Tables Logic AesGcm Store Sessions Expiry ExpiryProps.
From S2P Require Import ReleaseStore Payments Access Catalogue.
From Stdlib Require Import Ascii String.

#[local] Open Scope string_scope.
#[local] Open Scope Z_scope.

(** ** The invariant *)

Definition product_ok (p : Product) : Prop :=
  known_type (prod_Type p) = true /\ ValidateName "name" (prod_Name p) = None /\ ValidateSlug (prod_Slug p) = None.

Definition bounds_of (p : Plan) : planBounds :=
  mkPlanBounds (plan_MaxActivations p) (plan_MaxSeats p) (plan_TrialDays p) (plan_GraceDays p) (plan_FloatingTimeout p).

Definition within_bounds (b : planBounds) : Prop :=
  0 <= pb_MaxActivations b <= 10000 /\ 0 <= pb_MaxSeats b <= 100000 /\ 0 <= pb_TrialDays b <= 365 /\
  0 <= pb_GraceDays b <= 365 /\ 0 <= pb_FloatingTimeout b <= 1440.

(** Devices and floating sessions are for installed products, seats for hosted
    ones. *)
Definition fits (t : string) (p : Plan) : Prop :=
  (0 < plan_MaxActivations p \/ plan_LicenseModel p = "floating" -> t = "desktop" \/ t = "hybrid") /\
  (0 < plan_MaxSeats p -> t = "saas" \/ t = "hybrid").

(** The settings of a plan are within bounds and supported by its product. *)
Definition plan_ok (db : DB) (p : Plan) : Prop :=
  within_bounds (bounds_of p) /\
  exists prod, db_products db !! plan_ProductID p = Some prod /\ fits (prod_Type prod) p.

Definition keyed_by {R} (key : R -> string) (m : gmap string R) : Prop := forall k r, m !! k = Some r -> key r = k.
Definition refers {R S} (to : R -> string) (m : gmap string R) (target : gmap string S) : Prop :=
  forall k r, m !! k = Some r -> is_Some (target !! to r).

Definition consistent (db : DB) : Prop :=
  (keyed_by prod_ID (db_products db) /\ keyed_by plan_ID (db_plans db) /\ keyed_by addon_ID (db_addons db)) /\
  (forall k p, db_products db !! k = Some p -> product_ok p) /\
  (forall k p, db_plans db !! k = Some p -> plan_ok db p) /\
  refers ent_PlanID (db_entitlements db) (db_plans db) /\
  refers addon_ProductID (db_addons db) (db_products db) /\
  refers la_AddonID (db_license_addons db) (db_addons db) /\
  refers lic_ProductID (db_licenses db) (db_products db) /\ refers lic_PlanID (db_licenses db) (db_plans db) /\
  refers rel_ProductID (db_releases db) (db_products db).

(** The tests of the source say the same. *)
Lemma within_bounds_iff b : validatePlanNumericBounds b = None <-> within_bounds b.
Proof.
  unfold validatePlanNumericBounds, within_bounds. split.
  - intros Hb. repeat match type of Hb with (if ?c then _ else _) = None => destruct c eqn:?; [done|] end. bool_facts. lia.
  - intros Hb. repeat match goal with |- (if ?c then _ else _) = None => destruct c eqn:?; [bool_facts; lia|] end. done.
Qed.

Lemma supports_activations t : ProductSupports t CapActivations = true <-> t = "desktop" \/ t = "hybrid".
Proof.
  unfold ProductSupports, ProductTypeDesktop, ProductTypeSaaS, ProductTypeHybrid. repeat case_bool_decide; naive_solver.
Qed.
Lemma supports_seats t : ProductSupports t CapSeats = true <-> t = "saas" \/ t = "hybrid".
Proof.
  unfold ProductSupports, ProductTypeDesktop, ProductTypeSaaS, ProductTypeHybrid. repeat case_bool_decide; naive_solver.
Qed.

(** What a product of type [t] does not support. *)
Definition misfit (t : string) (devices seats : Z) (model : string) : bool :=
  negb (ProductSupports t CapActivations) && ((0 <? devices) || streq model "floating")
  || negb (ProductSupports t CapSeats) && (0 <? seats).

Lemma fits_misfit t p : fits t p <-> misfit t (plan_MaxActivations p) (plan_MaxSeats p) (plan_LicenseModel p) = false.
Proof.
  unfold misfit, fits. rewrite <- supports_activations, <- supports_seats, <- streq_true, <- !Z.ltb_lt.
  destruct (ProductSupports t CapActivations), (ProductSupports t CapSeats), (0 <? plan_MaxActivations p), (0 <? plan_MaxSeats p),
    (streq (plan_LicenseModel p) "floating"); cbn; intuition.
Qed.

Lemma fits_iff t p : incompatible_with t p = false <-> fits t p.
Proof. by rewrite fits_misfit. Qed.

(** Read the tables of a database just written. *)
Ltac written := cbv beta delta [drop_plans drop_addons] in *;
  cbn [db_products db_plans db_entitlements db_addons db_license_addons db_licenses db_releases t_set products plans
    entitlements addons license_addons] in *.

(** ** References *)

Section refs.
Context {R S : Type} (to : R -> string).
Implicit Types (m : gmap string R) (t : gmap string S).

Lemma refers_insert_target m t k s : refers to m t -> refers to m (<[k := s]> t).
Proof. intros Hr k' r Hk. apply lookup_insert_is_Some. destruct (decide (k = to r)); [by left|right; eauto]. Qed.
Lemma refers_insert m t k r : refers to m t -> is_Some (t !! to r) -> refers to (<[k := r]> m) t.
Proof. intros Hr Ht k' r' [[<- <-]|[_ Hk]]%lookup_insert_Some; eauto. Qed.
Lemma refers_delete m t P : refers to m t -> refers to (delete_rows P m) t.
Proof. intros Hr k r [Hk _]%lookup_delete_rows. eauto. Qed.
(** Deleting rows nothing kept refers to. *)
Lemma refers_delete_target m t P :
  refers to m t -> (forall k r s, m !! k = Some r -> t !! to r = Some s -> P s = false) -> refers to m (delete_rows P t).
Proof.
  intros Hr Hp k r Hk. destruct (Hr _ _ Hk) as [s Hs]. exists s. apply lookup_delete_rows. eauto.
Qed.
End refs.

Lemma keyed_insert {R} (key : R -> string) m k r : keyed_by key m -> key r = k -> keyed_by key (<[k := r]> m).
Proof. intros Hk <- k' r' [[<- <-]|[_ Hr]]%lookup_insert_Some; [done|by apply Hk]. Qed.
Lemma keyed_delete {R} (key : R -> string) m P : keyed_by key m -> keyed_by key (delete_rows P m).
Proof. intros Hk k r [Hr _]%lookup_delete_rows. by apply Hk. Qed.

(** A row of a deleted key is gone, the others stay. *)
Lemma delete_key {R} (key : R -> string) (m : gmap string R) id :
  keyed_by key m -> delete_rows (fun r => streq (key r) id) m = delete id m.
Proof.
  intros Hk. apply map_eq. intros k. apply option_eq. intros r. rewrite lookup_delete_rows, lookup_delete_Some, streq_false.
  split; [intros [Hr Hn]; rewrite (Hk _ _ Hr) in Hn; auto|intros [Hn Hr]; rewrite (Hk _ _ Hr); auto].
Qed.

(** ** Products *)

Lemma plan_ok_insert_product db k prod p :
  plan_ok db p -> (plan_ProductID p = k -> fits (prod_Type prod) p) ->
  plan_ok (t_set products (<[k := prod]> (db_products db)) db) p.
Proof.
  intros [Hb (prod0 & Hp & Hc)] Hn. split; [done|]. change (db_products (t_set products ?m db)) with m.
  destruct (decide (plan_ProductID p = k)) as [<-|Hne].
  - exists prod. rewrite lookup_insert_eq. auto.
  - exists prod0. by rewrite lookup_insert_ne.
Qed.

(** A product written: new, or one whose plans fit its type. *)
Lemma consistent_put_product db k prod :
  consistent db -> prod_ID prod = k -> product_ok prod ->
  (forall i p, db_plans db !! i = Some p -> plan_ProductID p = k -> fits (prod_Type prod) p) ->
  consistent (t_set products (<[k := prod]> (db_products db)) db).
Proof.
  intros ((K1 & K2 & K3) & Hp & Hpl & R1 & R2 & R3 & R4 & R5 & R6) Hid Hok Hfit.
  unfold consistent; written; split; [split_and!; [by apply keyed_insert|done|done]|]. split_and!; try done; try by apply refers_insert_target.
  - intros i p [[<- <-]|[_ Hi]]%lookup_insert_Some; [done|by eapply Hp].
  - intros i p Hi. apply plan_ok_insert_product; [by eapply Hpl|by apply (Hfit i)].
Qed.

Lemma consistent_put_plan db k p :
  consistent db -> plan_ID p = k -> plan_ok db p -> consistent (t_set plans (<[k := p]> (db_plans db)) db).
Proof.
  intros ((K1 & K2 & K3) & Hp & Hpl & R1 & R2 & R3 & R4 & R5 & R6) Hid Hok.
  unfold consistent; written; split; [split_and!; [done|by apply keyed_insert|done]|]. split_and!; try done; try by apply refers_insert_target.
  intros i p' [[<- <-]|[_ Hi]]%lookup_insert_Some; [exact Hok|exact (Hpl _ _ Hi)].
Qed.

Lemma consistent_put_entitlement db k e :
  consistent db -> is_Some (db_plans db !! ent_PlanID e) -> consistent (t_set entitlements (<[k := e]> (db_entitlements db)) db).
Proof. intros (K & Hp & Hpl & R1 & R) He. split; [done|]. split_and!; try done; try apply R. by apply refers_insert. Qed.

Lemma consistent_put_addon db k a :
  consistent db -> addon_ID a = k -> is_Some (db_products db !! addon_ProductID a) ->
  consistent (t_set addons (<[k := a]> (db_addons db)) db).
Proof.
  intros ((K1 & K2 & K3) & Hp & Hpl & R1 & R2 & R3 & R) Hid Ha. unfold consistent; written; split; [split_and!; [done|done|by apply keyed_insert]|].
  split_and!; try done; try apply R; [by apply refers_insert|by apply refers_insert_target].
Qed.

(** ** Deletions *)

Lemma not_row_exists {R} (P : R -> bool) (m : gmap string R) k r : row_exists P m = false -> m !! k = Some r -> P r = false.
Proof. intros Hr Hk. by eapply row_exists_false in Hr. Qed.

Lemma consistent_drop_plans db id :
  consistent db -> present (db_plans db !! id) && plan_in_use id db = false -> consistent (drop_plans id db).
Proof.
  intros ((K1 & K2 & K3) & Hp & Hpl & R1 & R2 & R3 & R4 & R5 & R6) Hfree.
  assert (forall k l, db_licenses db !! k = Some l -> lic_PlanID l <> id) as Hlic.
  { intros k l Hl <-. destruct (R5 _ _ Hl) as [q Hq]. rewrite Hq in Hfree. simpl in Hfree.
    apply orb_false_iff in Hfree as [Hf _]. apply (not_row_exists _ _ _ _ Hf) in Hl. by rewrite streq_refl in Hl. }
  unfold consistent; written; split; [split_and!; [done|by apply keyed_delete|done]|]. split_and!; try done.
  - intros k p [Hk _]%lookup_delete_rows. exact (Hpl _ _ Hk).
  - intros k e [Hk He%streq_false]%lookup_delete_rows. destruct (R1 _ _ Hk) as [q Hq]. exists q.
    change (delete_rows (fun p => streq (plan_ID p) id) (db_plans db) !! ent_PlanID e = Some q).
    rewrite delete_key by done. by rewrite lookup_delete_ne.
  - intros k l Hl. destruct (R5 _ _ Hl) as [q Hq]. exists q.
    change (delete_rows (fun p => streq (plan_ID p) id) (db_plans db) !! lic_PlanID l = Some q).
    rewrite delete_key by done. rewrite lookup_delete_ne; [done|]. intros E. by apply (Hlic _ _ Hl).
Qed.

Lemma consistent_drop_addons db id : consistent db -> consistent (drop_addons id db).
Proof.
  intros ((K1 & K2 & K3) & Hp & Hpl & R1 & R2 & R3 & R).
  unfold consistent; written; split; [split_and!; [done|done|by apply keyed_delete]|]. split_and!; try done; try apply R; [by apply refers_delete|].
  intros k la [Hk Hn%streq_false]%lookup_delete_rows. destruct (R3 _ _ Hk) as [a Ha]. exists a.
  change (delete_rows (fun a => streq (addon_ID a) id) (db_addons db) !! la_AddonID la = Some a).
  rewrite delete_key by done. by rewrite lookup_delete_ne.
Qed.

Lemma drop_products_tables id db (db' := drop_products id db) :
  db_products db' = delete_rows (fun p => streq (prod_ID p) id) (db_products db) /\ db_plans db' = db_plans db /\
  db_entitlements db' = db_entitlements db /\
  db_addons db' = delete_rows (fun a => streq (addon_ProductID a) id) (db_addons db) /\
  db_license_addons db' = delete_rows (fun la => match db_addons db !! la_AddonID la with
                                                 | Some a => streq (addon_ProductID a) id | None => false end) (db_license_addons db) /\
  db_licenses db' = db_licenses db /\ db_releases db' = db_releases db.
Proof. by repeat split. Qed.

Lemma consistent_drop_products db id :
  consistent db -> present (db_products db !! id) && product_in_use id db = false -> consistent (drop_products id db).
Proof.
  intros ((K1 & K2 & K3) & Hp & Hpl & R1 & R2 & R3 & R4 & R5 & R6) Hfree.
  destruct (drop_products_tables id db) as (Eprod & Eplan & Eent & Eadd & Ela & Elic & Erel).
  generalize dependent (drop_products id db). intros db' Eprod Eplan Eent Eadd Ela Elic Erel.
  assert (forall i q, db_products db !! i = Some q -> i <> id -> db_products db' !! i = Some q) as Hleft.
  { intros i q Hi Hne. rewrite Eprod, delete_key by done. by rewrite lookup_delete_ne. }
  assert (forall i q, db_products db !! i = Some q -> (i = id -> product_in_use id db = true) ->
            db_products db' !! i = Some q) as Hused.
  { intros i q Hi Hu. apply Hleft; [done|]. intros ->. rewrite Hi in Hfree. simpl in Hfree. rewrite Hu in Hfree; done. }
  unfold consistent. rewrite Eplan, Eent, Eadd, Ela, Elic, Erel.
  split; [split_and!; [rewrite Eprod; by apply keyed_delete|done|by apply keyed_delete]|]. split_and!; try done.
  - rewrite Eprod. intros k p [Hk _]%lookup_delete_rows. exact (Hp _ _ Hk).
  - intros k p Hk. destruct (Hpl _ _ Hk) as [Hb (prod & Hprod & Hc)]. split; [done|]. exists prod. split; [|done].
    apply Hused; [done|]. intros Hid. unfold product_in_use. apply orb_true_intro; left. apply orb_true_intro; left.
    apply row_exists_true. exists k, p. by rewrite Hid, streq_refl.
  - intros k a [Hk Hn%streq_false]%lookup_delete_rows. destruct (R2 _ _ Hk) as [q Hq]. exists q. by apply Hleft.
  - intros k la [Hk Hn]%lookup_delete_rows. destruct (R3 _ _ Hk) as [a Ha]. exists a. apply lookup_delete_rows.
    split; [done|]. by rewrite Ha in Hn.
  - intros k l Hl. destruct (R4 _ _ Hl) as [q Hq]. exists q. apply Hused; [done|]. intros Hid.
    unfold product_in_use. apply orb_true_intro; left. apply orb_true_intro; right. apply row_exists_true. exists k, l. by rewrite Hid, streq_refl.
  - intros k r Hr. destruct (R6 _ _ Hr) as [q Hq]. exists q. apply Hused; [done|]. intros Hid.
    unfold product_in_use. apply orb_true_intro; right. apply row_exists_true. exists k, r. by rewrite Hid, streq_refl.
Qed.

(** ** The requests *)

Section requests.
Context `{UUIDs} (semver_IsValid : string -> bool) (cx : Context_).
#[local] Abbreviation I := consistent.
#[local] Abbreviation safely P m := (hoare I P m (fun _ _ => True)).

Lemma hoare_then {E A B} P (m : M E A) (k : A -> M E B) : safely P m -> (forall a, keeps I (k a)) -> safely P (m ≫= k).
Proof. intros Hm Hk. eapply hoare_bind; [exact Hm| |done]. intros a. apply hoare_of_keeps, Hk. Qed.

Lemma safely_attempt {E E' A} P (m : M E A) : safely P m -> hoare (E := E') I P (attempt m) (fun _ _ => True).
Proof. intros Hm. eapply hoare_weaken; [apply hoare_attempt, Hm|done|]. by intros [[]|]. Qed.

Lemma safely_or_internal {A} P (m : M goerr A) answer : safely P m -> safely P (or_internal m answer).
Proof. intros Hm. unfold or_internal. apply hoare_then; [by apply safely_attempt|]. intros r. apply keeps_ret. Qed.

(** An answer of a query, with what the tables say about it. *)
Lemma hoare_query {A} P (m : M goerr A) (Q : A -> DB -> Prop) (k : result goerr A -> M goerr CatalogueAnswer) :
  hoare I P m (fun r db => P db /\ match r with Ok a => Q a db | Err _ => True end) ->
  (forall e, keeps I (k (Err e))) -> (forall a, safely (fun db => P db /\ Q a db) (k (Ok a))) ->
  safely P (attempt m ≫= k).
Proof.
  intros Hm Hk0 Hk. eapply hoare_bind; [apply hoare_attempt, Hm| |done]. intros [a|e]; simpl; [apply Hk|].
  apply hoare_drop, Hk0.
Qed.

Lemma find_product P id :
  hoare I P (FindProductByID id) (fun r db => P db /\ match r with
    | Ok p => prod_ID p = id /\ db_products db !! id = Some p | Err _ => True end).
Proof.
  eapply hoare_weaken; [apply hoare_read|done|]; [intros db p db'; destruct (first_row _); by intros [= _ <-]|].
  intros [p|e] db [(K & _) _] [HP Hr]; [|done]. split; [done|]. destruct (first_row _) as [p'|] eqn:Ep; [|done]. injection Hr as ->.
  apply first_row_rows in Ep as (k & Hk & Hid%streq_true). split; [done|]. rewrite <- Hid. by rewrite (K _ _ Hk).
Qed.

Lemma find_plan P id :
  hoare I P (FindPlanByID id) (fun r db => P db /\ match r with
    | Ok p => plan_ID p = id /\ db_plans db !! id <> None /\ plan_ok db (plan_columns p) | Err _ => True end).
Proof.
  eapply hoare_weaken; [apply hoare_read|done|]; [intros db p db'; destruct (first_row _); by intros [= _ <-]|].
  intros [p|e] db ((_ & K & _) & _ & Hpl & _) [HP Hr]; [|done]. split; [done|]. destruct (first_row _) as [p'|] eqn:Ep; [|done].
  injection Hr as <-. apply first_row_rows in Ep as (k & Hk & Hid%streq_true). split; [done|]. split.
  - rewrite <- Hid, (K _ _ Hk). by rewrite Hk.
  - destruct (Hpl _ _ Hk) as [Hb Hp]. by split.
Qed.

Lemma catalogue_audit_keeps entity id action changes : keeps I (catalogue_audit cx entity id action changes).
Proof. apply keeps_audit_log. by intros m db. Qed.
Hint Resolve catalogue_audit_keeps : licensehub.

(** *** Products *)

Lemma safely_CreateProduct P p : product_ok p -> safely P (CreateProduct p).
Proof.
  intros Hok. unfold CreateProduct. apply hoare_bind_still; [unfold fresh_id; destruct (bool_decide _); [apply still_newID|done]| |done].
  intros id. apply hoare_bind_still; [apply still_sql_now| |done]. intros now. apply hoare_then; [|intros; apply keeps_ret].
  apply hoare_insert. intros db Hi _ Hn _ _. apply consistent_put_product; [done|done|done|].
  intros i q Hq Hid. destruct Hi as (_ & _ & Hpl & _). destruct (Hpl _ _ Hq) as [_ (prod & Hp & _)].
  change (db_products db !! id = None) in Hn. congruence.
Qed.

Lemma safely_CreateProduct_ P req : safely P (CreateProduct_ cx req).
Proof.
  unfold CreateProduct_. destruct req as [[[name slug] type]|]; [|apply hoare_drop, keeps_ret].
  destruct (known_type type) eqn:Ht; simpl; [|apply hoare_drop, keeps_ret].
  unfold unless. destruct (ValidateName _ _) eqn:Hn; [apply hoare_drop, keeps_ret|].
  destruct (ValidateSlug _) eqn:Hs; [apply hoare_drop, keeps_ret|].
  apply hoare_then; [apply safely_attempt, safely_CreateProduct; by split_and!|]. intros [p|e]; keeps_go.
Qed.

(** The row in memory may be stored: it is a stored product's, valid, and every
    plan of the product fits its type. *)
Definition ready (p : Product) (db : DB) : Prop :=
  product_ok p /\ forall i q, db_plans db !! i = Some q -> plan_ProductID q = prod_ID p -> fits (prod_Type p) q.

Definition ready_for (k : Product -> M goerr CatalogueAnswer) : Prop := forall p, safely (ready p) (k p).

Lemma ready_name u k : ready_for k -> ready_for (fun p => change_name u p k).
Proof.
  intros Hk p. unfold change_name, unless. destruct (streq _ ""); [apply Hk|].
  destruct (ValidateName _ _) eqn:En; [apply hoare_drop, keeps_ret|].
  eapply hoare_weaken; [apply Hk| |done]. intros db _ [(Ht & _ & Hs) Hf]. by split.
Qed.

Lemma ready_slug u k : ready_for k -> ready_for (fun p => change_slug u p k).
Proof.
  intros Hk p. unfold change_slug, unless. destruct (streq _ ""); [apply Hk|].
  destruct (ValidateSlug _) eqn:En; [apply hoare_drop, keeps_ret|].
  eapply hoare_weaken; [apply Hk| |done]. intros db _ [(Ht & Hn & _) Hf]. by split.
Qed.

(** Whether the plans fit the new type is asked of the tables. *)
Lemma count_incompatible P pid t :
  hoare I P (CountPlansIncompatibleWithType pid t) (fun r db => P db /\ match r with
    | Ok n => (0 <? n) = false -> forall i q, db_plans db !! i = Some q -> plan_ProductID q = pid -> fits t q
    | Err _ => True end).
Proof.
  unfold CountPlansIncompatibleWithType. destruct (_ && _) eqn:Es.
  - eapply hoare_weaken; [apply hoare_ret|done|]. intros r db _ [-> HP]. split; [done|]. intros _ i q _ _.
    apply andb_prop in Es as [E1 E2]. apply fits_iff. unfold incompatible_with. by rewrite E1, E2.
  - eapply hoare_weaken; [apply (hoare_count plans)|done|]. intros [n|e] db _ [HP Hn]; [|done]. split; [done|]. intros Hz i q Hq Hp.
    apply Z.ltb_ge in Hz. subst n. destruct (incompatible_with t q) eqn:Ei; [exfalso|by apply fits_iff].
    pose proof (count_pos (fun p => streq (plan_ProductID p) pid && incompatible_with t p) (db_plans db) i q Hq) as Hc.
    cbv beta in Hc. rewrite Hp, streq_refl, Ei in Hc. specialize (Hc eq_refl). change (t_get plans db) with (db_plans db) in Hz. lia.
Qed.

Lemma ready_type u k : ready_for k -> ready_for (fun p => change_type u p k).
Proof.
  intros Hk p. unfold change_type. cbv zeta. destruct (streq (pu_Type u) ""); [apply Hk|].
  destruct (known_type (pu_Type u)) eqn:Ht; simpl; [|apply hoare_drop, keeps_ret].
  destruct (streq (pu_Type u) (prod_Type p)) eqn:Es.
  - apply streq_true in Es. eapply hoare_weaken; [apply Hk| |done]. intros db _ [(_ & Hn & Hs) Hf]. rewrite Es in *.
    split; [by split_and!|done].
  - apply (hoare_query _ _ (fun n db => (0 <? n) = false -> forall i q, db_plans db !! i = Some q -> plan_ProductID q = prod_ID p ->
      fits (pu_Type u) q)); [apply count_incompatible|intros; apply keeps_ret|].
    intros n. destruct (0 <? n) eqn:En; [apply hoare_drop, keeps_ret|]. eapply hoare_weaken; [apply Hk| |done].
    intros db _ [[(_ & Hn & Hs) _] Hf]. split; [by split_and!|]. by apply Hf.
Qed.

Lemma ready_version u k : ready_for k -> ready_for (fun p => change_version semver_IsValid u p k).
Proof.
  intros Hk p. unfold change_version, unless. destruct (pu_MinimumSupportedVersion u) as [v|]; [|apply Hk]. cbv zeta.
  destruct (if streq (TrimSpace v) "" then _ else _); [apply hoare_drop, keeps_ret|]. eapply hoare_weaken; [apply Hk|done|done].
Qed.

Lemma ready_message u k : ready_for k -> ready_for (fun p => change_message u p k).
Proof.
  intros Hk p. unfold change_message. destruct (pu_MinimumSupportedMessage u) as [v|]; [|apply Hk]. cbv zeta.
  destruct (_ <? _); [apply hoare_drop, keeps_ret|]. eapply hoare_weaken; [apply Hk|done|done].
Qed.

Lemma ready_save u : ready_for (fun p => save_product (match pu_RequireSigning u with Some b => prod_set_Signing b p | None => p end)).
Proof.
  assert (ready_for save_product) as Hs; [|intros p; destruct (pu_RequireSigning u); [|apply Hs]; eapply hoare_weaken; [apply Hs|done|done]].
  intros p. unfold save_product. apply safely_or_internal. unfold UpdateProduct. apply hoare_then; [|intros; apply keeps_ret].
  apply hoare_update_checked. intros db p0 Hi [Hok Hf] _ _ _. by apply consistent_put_product.
Qed.

Lemma safely_UpdateProduct_ id req : safely (fun _ => True) (UpdateProduct_ semver_IsValid id req).
Proof.
  unfold UpdateProduct_. eapply hoare_query; [apply find_product|intros e; apply keeps_ret|].
  intros p. destruct req as [u|]; [|apply hoare_drop, keeps_ret].
  eapply hoare_weaken; [apply ready_name, ready_slug, ready_type, ready_version, ready_message, ready_save| |done].
  intros db (K & Hp & Hpl & _) [_ [Hid Hk]]. split; [by eapply Hp|]. intros i q Hq Hpq.
  destruct (Hpl _ _ Hq) as [_ (prod & Hprod & Hc)]. rewrite Hpq, Hid, Hk in Hprod. by injection Hprod as <-.
Qed.

Lemma safely_DeleteProduct P id : safely P (DeleteProduct id).
Proof.
  apply hoare_stmt. intros db Hi _. split; [done|]. destruct (_ && _) eqn:E; [done|]. split; [|done]. by apply consistent_drop_products.
Qed.

Lemma safely_DeleteProduct_ P id : safely P (DeleteProduct_ cx id).
Proof.
  unfold DeleteProduct_. eapply hoare_bind; [apply hoare_drop; unfold ProductLicenseCount; keeps_go| |done]. intros c.
  destruct (_ <? _); [apply hoare_drop, keeps_ret|].
  apply hoare_then; [apply safely_attempt, safely_DeleteProduct|]. intros [[]|e]; keeps_go.
Qed.

(** *** Plans *)

Lemma still_shortID {E} : still (shortID (E := E)).
Proof. apply still_bind; [apply still_randomHex|]. intros. apply still_ret. Qed.

(** A plan may be stored under a product that is there. *)
Definition fits_product (p : Plan) (db : DB) : Prop := plan_ok db p.

Lemma safely_CreatePlan p : safely (fits_product p) (CreatePlan p).
Proof.
  unfold CreatePlan. apply hoare_bind_still; [unfold fresh_id; destruct (bool_decide _); [apply still_newID|done]| |done].
  intros id. apply hoare_bind_still; [destruct (streq _ _); [apply still_shortID|done]| |done]. intros checkoutID.
  apply hoare_bind_still; [apply still_sql_now| |done]. intros now. apply hoare_then; [|intros; apply keeps_ret].
  apply hoare_insert. intros db Hi Hp _ _ _. by apply consistent_put_plan.
Qed.

Lemma unsupported_None hint t devices seats model :
  unsupported hint t devices seats model = None <-> misfit t devices seats model = false.
Proof.
  unfold unsupported, misfit. destruct (0 <? devices), (0 <? seats), (streq model "floating"), (ProductSupports t CapActivations),
    (ProductSupports t CapSeats); by split.
Qed.

(** What the guards of a creation let through. *)
Lemma requested_ok q prod model db :
  validatePlanNumericBounds (request_bounds q) = None -> db_products db !! pq_ProductID q = Some prod ->
  unsupported true (prod_Type prod) (pq_MaxActivations q) (pq_MaxSeats q) model = None ->
  plan_ok db (requested_plan q (prod_Type prod) model).
Proof.
  intros Hb Hp Hu. split.
  - apply within_bounds_iff in Hb. revert Hb. unfold within_bounds, bounds_of, request_bounds, requested_plan. cbn.
    destruct (pq_MaxActivations q <=? 0) eqn:E1, (ProductSupports _ _), (pq_GraceDays q <=? 0) eqn:E2, (pq_FloatingTimeout q <=? 0) eqn:E3;
      cbn; lia.
  - exists prod. split; [done|]. apply unsupported_None in Hu. apply fits_misfit. revert Hu. unfold misfit. cbn.
    destruct (ProductSupports (prod_Type prod) CapActivations); [by cbn|by rewrite andb_false_r].
Qed.

Lemma safely_CreatePlan_ P req : safely P (CreatePlan_ cx req).
Proof.
  unfold CreatePlan_, unless. destruct req as [q|]; [|apply hoare_drop, keeps_ret].
  destruct (ValidateName _ _); [apply hoare_drop, keeps_ret|]. destruct (ValidateSlug _); [apply hoare_drop, keeps_ret|].
  destruct (negb _); [apply hoare_drop, keeps_ret|]. destruct (validatePlanNumericBounds _) eqn:Hb; [apply hoare_drop, keeps_ret|].
  cbv zeta. destruct (negb _); [apply hoare_drop, keeps_ret|]. unfold create_plan.
  eapply hoare_query; [apply find_product|intros; apply keeps_ret|]. intros prod.
  destruct (unsupported _ _ _ _ _) eqn:Hu; [apply hoare_drop, keeps_ret|].
  apply hoare_then; [|intros [p|e]; keeps_go]. apply safely_attempt. eapply hoare_weaken; [apply safely_CreatePlan| |done].
  intros db _ [_ [_ Hp]]. by apply requested_ok.
Qed.

Lemma merged_ok u p prod db :
  plan_ok db (plan_columns p) -> db_products db !! plan_ProductID p = Some prod -> update_refused (prod_Type prod) u p = None ->
  plan_ok db (plan_columns (merged_plan u p)).
Proof.
  intros [Hb (prod' & Hp' & Hc)] Hp Hu. change (plan_ProductID (plan_columns p)) with (plan_ProductID p) in Hp'.
  assert (prod' = prod) as -> by congruence. unfold update_refused in Hu.
  destruct (unsupported _ _ (default 0 _) _ _) eqn:U1; [done|]. destruct (negb _); [done|].
  destruct (unsupported _ _ 0 0 _) eqn:U2; [done|]. destruct (negb _); [done|].
  destruct (validatePlanNumericBounds (merged_bounds u p)) eqn:Hm; [done|].
  split; [by apply within_bounds_iff in Hm|]. exists prod. split; [done|].
  apply unsupported_None in U1, U2. apply fits_misfit. apply fits_misfit in Hc. revert Hc U1 U2. unfold misfit. cbn.
  destruct (ProductSupports (prod_Type prod) CapActivations), (ProductSupports (prod_Type prod) CapSeats),
    (pl_MaxActivations u), (pl_MaxSeats u), (pl_LicenseModel u); cbn; rewrite ?orb_false_iff; intuition.
Qed.

Lemma safely_UpdatePlan_ id req : safely (fun _ => True) (UpdatePlan_ id req).
Proof.
  unfold UpdatePlan_. eapply hoare_query; [apply find_plan|intros e; apply keeps_ret|]. intros p.
  destruct req as [u|]; [|apply hoare_drop, keeps_ret].
  eapply hoare_query; [apply find_product|intros e; apply keeps_ret|]. intros prod.
  destruct (update_refused _ u p) eqn:Hu; [apply hoare_drop, keeps_ret|]. apply safely_or_internal. unfold UpdatePlan.
  apply hoare_then; [|intros; apply keeps_ret]. apply hoare_update_checked. intros db p0 Hi [[_ (Hid & _ & Hok)] [_ Hp]] _ _ _.
  apply consistent_put_plan; [done|done|]. by eapply merged_ok.
Qed.

Lemma safely_DeletePlan_ P id : safely P (DeletePlan_ id).
Proof.
  unfold DeletePlan_. eapply hoare_bind; [apply hoare_drop; unfold PlanLicenseCount; keeps_go| |done]. intros c.
  destruct (_ <? _); [apply hoare_drop, keeps_ret|]. apply safely_or_internal, hoare_stmt.
  intros db Hi _. split; [done|]. destruct (_ && _) eqn:E; [done|]. split; [|done]. by apply consistent_drop_plans.
Qed.

(** *** Entitlements and add-ons *)

(** A foreign key that was accepted. *)
Lemma fk_Some b o : and_then (fk b) o = None -> b = true.
Proof. by destruct b. Qed.
Lemma present_Some {A} (o : option A) : present o = true -> is_Some o.
Proof. destruct o; [by eexists|done]. Qed.

Lemma safely_CreateEntitlement_ P req : safely P (CreateEntitlement_ req).
Proof.
  unfold CreateEntitlement_. destruct req as [e|]; [|apply hoare_drop, keeps_ret].
  destruct (negb _); [apply hoare_drop, keeps_ret|]. destruct (_ && _); [apply hoare_drop, keeps_ret|].
  apply hoare_then; [|intros; apply keeps_ret]. apply safely_attempt. unfold CreateEntitlement.
  apply hoare_bind_still; [unfold fresh_id; destruct (bool_decide _); [apply still_newID|done]| |done].
  intros id. apply hoare_then; [|intros; apply keeps_ret]. apply hoare_insert. intros db Hi _ _ _ Hc%fk_Some%present_Some.
  by apply consistent_put_entitlement.
Qed.

Lemma safely_UpdateEntitlement_ P id req : safely P (UpdateEntitlement_ id req).
Proof.
  unfold UpdateEntitlement_. eapply hoare_bind; [apply hoare_drop; unfold FindEntitlementByID; keeps_go| |done].
  intros [e|e]; [|apply hoare_drop; destruct req; apply keeps_ret]. destruct req as [u|]; [|apply hoare_drop, keeps_ret].
  destruct (meter_misplaced u e); [apply hoare_drop, keeps_ret|]. apply safely_or_internal. unfold UpdateEntitlement.
  apply hoare_then; [|intros; apply keeps_ret]. apply hoare_update_checked. intros db e0 Hi _ _ _ Hc%fk_Some%present_Some.
  by apply consistent_put_entitlement.
Qed.

Lemma keeps_DeleteEntitlement_ id : keeps I (DeleteEntitlement_ id).
Proof.
  unfold DeleteEntitlement_, or_internal, DeleteEntitlement. keeps_go. apply keeps_stmt.
  intros db n db' (K & Hp & Hpl & R1 & R) [= _ <-]. split; [done|]. split_and!; try done; try apply R. by apply refers_delete.
Qed.

Lemma safely_CreateAddon_ P req : safely P (CreateAddon_ req).
Proof.
  unfold CreateAddon_, unless. destruct req as [a|]; [|apply hoare_drop, keeps_ret].
  destruct (ValidateName _ _); [apply hoare_drop, keeps_ret|]. destruct (ValidateSlug _); [apply hoare_drop, keeps_ret|].
  destruct (negb _); [apply hoare_drop, keeps_ret|].
  apply hoare_then; [|intros; apply keeps_ret]. apply safely_attempt. unfold CreateAddon.
  apply hoare_bind_still; [unfold fresh_id; destruct (bool_decide _); [apply still_newID|done]| |done].
  intros id. apply hoare_bind_still; [apply still_sql_now| |done]. intros now. apply hoare_then; [|intros; apply keeps_ret].
  apply hoare_insert. intros db Hi _ _ _ Hc%fk_Some%present_Some. by apply consistent_put_addon.
Qed.

Lemma safely_UpdateAddon_ P id req : safely P (UpdateAddon_ id req).
Proof.
  unfold UpdateAddon_. eapply hoare_bind; [apply hoare_drop; unfold FindAddonByID; keeps_go| |done].
  intros [a|e]; [|apply hoare_drop; destruct req; apply keeps_ret]. destruct req as [u|]; [|apply hoare_drop, keeps_ret].
  apply safely_or_internal. unfold UpdateAddon.
  apply hoare_then; [|intros; apply keeps_ret]. apply hoare_update_checked. intros db e0 Hi _ _ _ Hc%fk_Some%present_Some.
  by apply consistent_put_addon.
Qed.

Lemma keeps_DeleteAddon_ id : keeps I (DeleteAddon_ id).
Proof.
  unfold DeleteAddon_, or_internal. keeps_go. apply keeps_stmt. intros db u db' Hi [= _ <-]. by apply consistent_drop_addons.
Qed.

Lemma keeps_catalogue_route r : keeps I (catalogue_route semver_IsValid cx r).
Proof.
  apply hoare_keeps. destruct r; simpl.
  - apply hoare_drop. unfold ListProducts_, or_internal. keeps_go. apply keeps_read. by intros db ps db' [= _ <-].
  - apply hoare_drop. unfold GetProduct_. keeps_go. apply keeps_read. intros db p db'. destruct (first_row _); by intros [= _ <-].
  - apply safely_CreateProduct_.
  - apply safely_UpdateProduct_.
  - apply safely_DeleteProduct_.
  - apply hoare_drop. unfold ListPlans_, or_internal. keeps_go. apply keeps_read. by intros db ps db' [= _ <-].
  - apply hoare_drop. unfold GetPlan_. keeps_go. apply keeps_read. intros db p db'. destruct (first_row _); by intros [= _ <-].
  - apply safely_CreatePlan_.
  - apply safely_UpdatePlan_.
  - apply safely_DeletePlan_.
  - apply safely_CreateEntitlement_.
  - apply safely_UpdateEntitlement_.
  - apply hoare_drop, keeps_DeleteEntitlement_.
  - apply hoare_drop. unfold ListAddons_, or_internal. keeps_go. apply keeps_read. by intros db ps db' [= _ <-].
  - apply safely_CreateAddon_.
  - apply safely_UpdateAddon_.
  - apply hoare_drop, keeps_DeleteAddon_.
Qed.
End requests.

(** The requests of any number of administrators, one after the other. *)
Definition edit_all `{UUIDs} (semver_IsValid : string -> bool) (qs : list (Context_ * CatalogueRoute)) : M Empty_set unit :=
  for_each qs (fun '(cx, r) => ignore (catalogue_route semver_IsValid cx r)).

(** C27. Catalogue_consistency: whatever the administrators ask of the catalogue
    and whichever statements fail, every product has a known type and a valid
    name and slug, every plan has its numbers within bounds and only settings
    its product's type supports, and no plan, entitlement, add-on, licence or
    release refers to a row that is gone. *)
Theorem catalogue_stays_consistent `{UUIDs} semver_IsValid qs w :
  w_tx w = None -> consistent (w_db w) -> consistent (w_db (snd (edit_all semver_IsValid qs w))).
Proof.
  intros Hw Hi.
  assert (keeps consistent (edit_all semver_IsValid qs)) as Hk.
  { apply keeps_for_each. intros [cx r] _. apply keeps_ignore, keeps_catalogue_route. }
  apply (Hk w). by apply safe_closed.
Qed.
