(* ===== verification/CatalogueDemo.v ===== *)
(** * The catalogue theorem on a concrete catalogue

    A desktop and a hybrid product with their plans, and what some requests
    leave behind. *)

From S2P Require Import Prelude GoStrings Errors Model Crypto World Tables Logic Store Sessions ReleaseStore Payments Demo.
From S2P Require Import Access Catalogue CatalogueProps.
From Stdlib Require Import Ascii String.

#[local] Open Scope string_scope.
#[local] Open Scope Z_scope.

#[local] Existing Instance Demo.uuids.

Module CatalogueDemo.
Definition plan (id productID slug model : string) (devices seats : Z) : Plan :=
  mkPlan id productID "Pro" slug ("co-" +:+ id) "subscription" "month" devices 14 3 "" model 30 seats true 0 0 [].
Definition metered : Entitlement := mkEntitlement "ent-3" "plan-1" "exports" "quota" "10" "monthly" "" "exports_total".
Definition db : DB :=
  t_set entitlements {["ent-3" := metered]} (t_set plans
    {["plan-1" := plan "plan-1" "prod-1" "pro" "standard" 2 2; "plan-2" := plan "plan-2" "prod-2" "team" "standard" 0 5;
      "plan-3" := plan "plan-3" "prod-1" "floating" "floating" 2 2]}
    Demo.db).
Definition world : World := Demo.world_of db.
Definition admin : Context_ := mkContext (Some "ann") (Some "ann@example.com") (Some true) "session" "webauthn" None "10.0.0.1".
Definition is_semver (v : string) : bool := true.

Definition no_change : PlanUpdate := mkPlanUpdate None None None None None None None None None None None None None.
Definition seats (n : Z) : PlanUpdate := mkPlanUpdate None None None None None (Some n) None None None None None None None.
Definition to_type (t : string) : ProductUpdate := mkProductUpdate "" "" t None None None.
Definition new_plan (productID : string) (devices seats : Z) : PlanRequest :=
  mkPlanRequest productID "Basic" "basic" "perpetual" "" devices seats 0 0 "" "" 0 0.
Definition route (r : CatalogueRoute) : M goerr CatalogueAnswer := catalogue_route is_semver admin r.
Definition answer (r : CatalogueRoute) : result goerr CatalogueAnswer := fst (route r world).
End CatalogueDemo.

(** ** Deciding the invariant *)

Definition all_rows {R} (P : string -> R -> bool) (m : gmap string R) : bool := forallb (fun kv => P kv.1 kv.2) (map_to_list m).

Lemma all_rows_sound {R} (P : string -> R -> bool) m : all_rows P m = true -> forall k r, m !! k = Some r -> P k r = true.
Proof.
  unfold all_rows. rewrite forallb_forall. intros Hall k r Hk. apply (Hall (k, r)).
  by apply list_elem_of_In, elem_of_map_to_list.
Qed.

Definition none {A} (o : option A) : bool := negb (present o).
Lemma none_true {A} (o : option A) : none o = true -> o = None.
Proof. by destruct o. Qed.

Definition consistentb (db : DB) : bool :=
  let to {R S} (key : R -> string) (t : gmap string S) (_ : string) (r : R) := present (t !! key r) in
  all_rows (fun k p => streq (prod_ID p) k && known_type (prod_Type p) && none (ValidateName "name" (prod_Name p))
              && none (ValidateSlug (prod_Slug p))) (db_products db)
  && all_rows (fun k p => streq (plan_ID p) k && none (validatePlanNumericBounds (bounds_of p))
              && match db_products db !! plan_ProductID p with
                 | Some prod => negb (incompatible_with (prod_Type prod) p) | None => false end) (db_plans db)
  && all_rows (fun k a => streq (addon_ID a) k) (db_addons db)
  && all_rows (to ent_PlanID (db_plans db)) (db_entitlements db)
  && all_rows (to addon_ProductID (db_products db)) (db_addons db)
  && all_rows (to la_AddonID (db_addons db)) (db_license_addons db)
  && all_rows (to lic_ProductID (db_products db)) (db_licenses db)
  && all_rows (to lic_PlanID (db_plans db)) (db_licenses db)
  && all_rows (to rel_ProductID (db_products db)) (db_releases db).

Lemma consistentb_sound db : consistentb db = true -> consistent db.
Proof.
  unfold consistentb. cbv zeta. rewrite !andb_true_iff. intros [[[[[[[[Hprods Hplans] Haddons] ?] ?] ?] ?] ?] ?].
  repeat match goal with H : all_rows _ _ = true |- _ => let R := fresh in rename H into R; pose proof (all_rows_sound _ _ R) as H; clear R end.
  cbv beta in *.
  assert (forall R S (key : R -> string) (m : gmap string R) (t : gmap string S),
    (forall k r, m !! k = Some r -> present (t !! key r) = true) -> refers key m t) as Href.
  { intros R S key m t Hp k r Hk. by apply present_Some, (Hp k). }
  unfold consistent. split_and!; try (by apply Href).
  - intros k p Hp%Hprods. repeat apply andb_prop in Hp as [Hp ?]. by apply streq_true.
  - intros k p Hp%Hplans. repeat apply andb_prop in Hp as [Hp ?]. by apply streq_true.
  - intros k a Ha%Haddons. by apply streq_true.
  - intros k p Hp%Hprods. repeat apply andb_prop in Hp as [Hp ?]. split_and!; [done|by apply none_true|by apply none_true].
  - intros k p Hp%Hplans. apply andb_prop in Hp as [[_ Hb%none_true%within_bounds_iff]%andb_prop Hp]. split; [done|].
    destruct (db_products db !! plan_ProductID p) as [prod|]; [|done]. exists prod. split; [done|]. by apply fits_iff, negb_true_iff.
Qed.

Lemma catalogue_demo_consistent : consistent CatalogueDemo.db.
Proof. apply consistentb_sound. vm_compute. reflexivity. Qed.

(** A plan with devices appears under the hybrid product, and the desktop
    product's type no longer changes. *)
Lemma catalogue_stays_consistent_witness :
  consistent (w_db (snd (edit_all CatalogueDemo.is_semver
    [(CatalogueDemo.admin, RCreatePlan (Some (CatalogueDemo.new_plan "prod-1" 5 0)));
     (CatalogueDemo.admin, RUpdateProduct "prod-1" (Some (CatalogueDemo.to_type "saas")));
     (CatalogueDemo.admin, RUpdatePlan "plan-2" (Some (CatalogueDemo.seats 9)));
     (CatalogueDemo.admin, RDeletePlan "plan-3")] CatalogueDemo.world))).
Proof. apply catalogue_stays_consistent; [reflexivity|exact catalogue_demo_consistent]. Defined.

(** ** Examples *)

Definition answer_code (r : result goerr CatalogueAnswer) : Z * string :=
  match r with
  | Ok (AProduct s _) | Ok (APlan s _) | Ok (AnEntitlement s _) | Ok (AnAddon s _) => (s, "")
  | Ok (Rejected s code _) => (s, code)
  | Ok Deleted => (204, "")
  | Ok _ => (200, "")
  | Err _ => (0, "")
  end.

(** The guards at work: devices and seats by product type, a type change that
    would strand plans, rows still referred to. *)
Example catalogue_guards :
  answer_code <$> [
    CatalogueDemo.answer (RCreatePlan (Some (CatalogueDemo.new_plan "prod-1" 5 5)));
    CatalogueDemo.answer (RCreatePlan (Some (CatalogueDemo.new_plan "prod-2" 5 0)));
    CatalogueDemo.answer (RCreatePlan (Some (CatalogueDemo.new_plan "prod-9" 0 0)));
    CatalogueDemo.answer (RUpdateProduct "prod-1" (Some (CatalogueDemo.to_type "saas")));
    CatalogueDemo.answer (RUpdateProduct "prod-2" (Some (CatalogueDemo.to_type "hybrid")));
    CatalogueDemo.answer (RDeleteProduct "prod-1");
    CatalogueDemo.answer (RDeletePlan "plan-9")]
  = [(201, ""); (400, "INCOMPATIBLE_PRODUCT_TYPE"); (404, "NOT_FOUND"); (409, "INCOMPATIBLE_PLANS"); (200, "");
     (409, "HAS_LICENSES"); (204, "")].
Proof. vm_compute. reflexivity. Qed.

(** A quota's meter stays when only the type of its value changes, a
    combination both requests refuse when it is asked for. *)
Definition to_bool : EntitlementUpdate := mkEntitlementUpdate None (Some "bool") (Some "true") None None None.
Example meter_left_behind :
  let w := snd (CatalogueDemo.route (RUpdateEntitlement "ent-3" (Some to_bool)) CatalogueDemo.world) in
  ((fun e => (ent_ValueType e, ent_StripeMeterEventName e)) <$> db_entitlements (w_db w) !! "ent-3") = Some ("bool", "exports_total") /\
  answer_code (CatalogueDemo.answer (RCreateEntitlement
    (Some (mkEntitlement "" "plan-3" "exports" "bool" "true" "" "" "exports_total")))) = (400, "BAD_REQUEST").
Proof. vm_compute. split; reflexivity. Qed.

(** A plan may lose its name and get any slug afterwards. *)
Definition nameless : PlanUpdate :=
  mkPlanUpdate (Some "") (Some "Not A Slug") None None None None None None None None None None None.
Example plan_renamed_unchecked :
  let w := snd (CatalogueDemo.route (RUpdatePlan "plan-1" (Some nameless)) CatalogueDemo.world) in
  ((fun p => (plan_Name p, plan_Slug p)) <$> db_plans (w_db w) !! "plan-1") = Some ("", "Not A Slug") /\
  ValidateName "name" "" <> None /\ ValidateSlug "Not A Slug" <> None.
Proof. vm_compute. split; [reflexivity|]. split; intros Hv; inversion Hv. Qed.

(** A plan created between the check of a type change and its write does not
    fit the new type: requests that overlap can leave what one after the other
    cannot. *)
Definition overlapping : M goerr CatalogueAnswer :=
  change_type (CatalogueDemo.to_type "saas") (mkProduct "prod-3" "Cli" "cli" ProductTypeDesktop "" "" true 0) (fun p =>
    CreatePlan_ CatalogueDemo.admin (Some (CatalogueDemo.new_plan "prod-3" 5 0)) ;; save_product p).
Example overlapping_requests_strand_plan :
  let db := t_set products (<["prod-3" := mkProduct "prod-3" "Cli" "cli" ProductTypeDesktop "" "" true 0]>
    (db_products CatalogueDemo.db)) CatalogueDemo.db in
  consistentb db = true /\
  exists w, overlapping (Demo.world_of db) = (Ok (AProduct 200 (mkProduct "prod-3" "Cli" "cli" "saas" "" "" true 0)), w) /\
    consistentb (w_db w) = false.
Proof. vm_compute. split; [reflexivity|eexists; split; reflexivity]. Qed.

(** A product without licences that still has plans: the request is refused by
    the foreign key, as an internal error. *)
Example product_with_plans_internal :
  let db := t_set plans (<["plan-4" := CatalogueDemo.plan "plan-4" "prod-4" "solo" "standard" 1 0]> (db_plans CatalogueDemo.db))
    (t_set products (<["prod-4" := mkProduct "prod-4" "App" "app" ProductTypeDesktop "" "" true 0]> (db_products CatalogueDemo.db))
      CatalogueDemo.db) in
  answer_code (fst (CatalogueDemo.route (RDeleteProduct "prod-4") (Demo.world_of db))) = (500, "INTERNAL_ERROR").
Proof. vm_compute. reflexivity. Qed.
