(* ===== verification/Passkeys.v ===== *)
(** * Passkeys ([store/passkey.go], [handler/passkey.go])

    Enrolment, assertion, removal and recovery of the passkeys an administrator
    signs in with.  A ceremony is opened by one request and closed by another;
    its state is stored under a digest and deleted when it is closed.  The
    WebAuthn library is a class. *)

From S2P Require Import Prelude GoStrings Errors Model Crypto World Tables Logic AesGcm Store Sessions Audited Access.
From Stdlib Require Import Ascii String.

#[local] Open Scope string_scope.
#[local] Open Scope Z_scope.

(** ** The WebAuthn library *)

(** Credentials and ceremony data with their JSON; the calls may answer
    differently every time. *)
Class WebAuthn := {
  WACredential : Type;
  WASession : Type;
  WAOptions : Type;
  cred_ID : WACredential -> string;
  cred_SignCount : WACredential -> Z;
  marshal_credential : WACredential -> option string;
  unmarshal_credential : string -> option WACredential;
  marshal_session : WASession -> option string;
  unmarshal_session : string -> option WASession;
  wa_BeginRegistration : nat -> User -> list WACredential -> option (WAOptions * WASession);
  wa_FinishRegistration : nat -> User -> list WACredential -> WASession -> string -> option WACredential;
  wa_BeginLogin : nat -> User -> list WACredential -> option (WAOptions * WASession);
  wa_FinishLogin : nat -> User -> list WACredential -> WASession -> string -> option WACredential
}.

(** ** Rows *)

Definition pk_of (userID : string) (p : PasskeyCredential) : bool := streq (pk_UserID p) userID.
Definition rc_of (userID : string) (r : PasskeyRecoveryCode) : bool := streq (rc_UserID r) userID.
Definition pk_used (data : string) (now : Time) (p : PasskeyCredential) : PasskeyCredential :=
  mkPasskey (pk_ID p) (pk_UserID p) (pk_CredentialID p) data (pk_Name p) (pk_CreatedAt p) (Some now).

(** A ceremony that can be closed: its digest, user and purpose, and the time
    left. *)
Definition open_ceremony (digest userID purpose : string) (now : Time) (s : WebAuthnSession) : bool :=
  streq (ws_CeremonyIDHash s) digest && streq (ws_UserID s) userID && streq (ws_Purpose s) purpose
  && (now <? ws_ExpiresAt s).

Definition usable_code (userID hash : string) (r : PasskeyRecoveryCode) : bool :=
  rc_of userID r && streq (rc_CodeHash r) hash && negb (present (rc_UsedAt r)).

(** ** The store *)

Section store.
Context `{UUIDs} `{GCM} `{WebAuthn} (aead : option AESGCM).

Definition passkey_aad (id : string) : string := "passkey:" +:+ id.

Definition encodePasskeyCredential (id : string) (credential : WACredential) : M goerr string :=
  match marshal_credential credential with
  | None => throw (ErrWrap "marshal WebAuthn credential" (ErrText "json"))
  | Some raw => match aead with None => mret raw | Some a => Encrypt a raw (passkey_aad id) end
  end.

Definition decodePasskeyCredential (record : PasskeyCredential) : result goerr WACredential :=
  let parse raw := match unmarshal_credential raw with
                   | Some c => Ok c | None => Err (ErrWrap "decode WebAuthn credential" (ErrText "json")) end in
  match aead with
  | None => parse (pk_CredentialData record)
  | Some a => match Decrypt a (pk_CredentialData record) (passkey_aad (pk_ID record)) with
              | Err e => Err e | Ok raw => parse raw end
  end.

Definition SaveWebAuthnSession (row : WebAuthnSession) : M goerr unit :=
  if streq (ws_CeremonyIDHash row) "" || streq (ws_UserID row) "" then throw (ErrText "invalid WebAuthn session")
  else
    now ← sql_now;
    sql_insert webauthn_sessions (ws_CeremonyIDHash row)
      (mkWebAuthnSession (ws_CeremonyIDHash row) (ws_UserID row) (ws_Purpose row) (ws_SessionData row) (ws_ExpiresAt row) now).

(** [DELETE ... RETURNING session_data]. *)
Definition ConsumeWebAuthnSession (digest userID purpose : string) : M goerr string :=
  now ← sql_now;
  stmt (fun db =>
    let P := open_ceremony digest userID purpose now in
    match first_row (rows P (db_webauthn_sessions db)) with
    | None => Err ErrNoRows
    | Some s => Ok (ws_SessionData s, t_set webauthn_sessions (delete_rows P (db_webauthn_sessions db)) db)
    end).

Definition CleanExpiredWebAuthnSessions {E} : M E unit :=
  now ← sql_now; ignore (sql_delete webauthn_sessions (fun s => ws_ExpiresAt s <=? now)).

(** The rows with their credentials; one that cannot be decoded fails the
    whole list. *)
Fixpoint decode_all (l : list PasskeyCredential) : result goerr (list (PasskeyCredential * WACredential)) :=
  match l with
  | [] => Ok []
  | r :: l =>
      match decodePasskeyCredential r with
      | Err e => Err (ErrWrap ("passkey " +:+ pk_ID r) e)
      | Ok c => match decode_all l with Err e => Err e | Ok out => Ok ((r, c) :: out) end
      end
  end.

Definition ListPasskeyCredentials (userID : string) : M goerr (list (PasskeyCredential * WACredential)) :=
  l ← stmt (fun db => Ok (sort_by pk_CreatedAt (map_to_list (rows (pk_of userID) (db_passkeys db))).*2, db));
  match decode_all l with Ok out => mret out | Err e => throw e end.

Definition CountPasskeyCredentials (userID : string) : M goerr Z := sql_count passkeys (pk_of userID).

Fixpoint insert_codes (userID : string) (hashes : list string) : M goerr unit :=
  match hashes with
  | [] => mret tt
  | hash :: hashes =>
      id ← newID;
      now ← sql_now;
      sql_insert recovery_codes id (mkRecoveryCode id userID hash now None) ;;
      insert_codes userID hashes
  end.

(** The codes of a first passkey replace whatever codes there were. *)
Definition install_codes (userID : string) (hashes : list string) : M goerr unit :=
  if Z.of_nat (List.length hashes) <? 8 then throw (ErrText "first passkey enrollment requires recovery codes")
  else
    sql_delete recovery_codes (rc_of userID) ;;
    insert_codes userID hashes.

Definition passkey_audit (entityID action actorID actorType ip : string) (changes : gmap string any) : M goerr unit :=
  id ← newID;
  insert_audit (mkAuditLog id "passkey" entityID action actorID actorType changes ip 0).

(** The answer says whether recovery codes were installed. *)
Definition CreatePasskeyCredential (userID name ip : string) (credential : WACredential) (recoveryHashes : list string)
    : M goerr bool :=
  if streq (cred_ID credential) "" then throw (ErrText "invalid WebAuthn credential")
  else with_tx (
    sql_select_one users (is_user userID) ;;
    n ← sql_count passkeys (pk_of userID);
    id ← newID;
    data ← encodePasskeyCredential id credential;
    now ← sql_now;
    sql_insert passkeys id (mkPasskey id userID (cred_ID credential) data name now None) ;;
    (if n =? 0 then install_codes userID recoveryHashes else mret tt) ;;
    map_err (ErrWrap "write passkey audit")
      (passkey_audit id "enrolled" userID "user" ip {["name" := AnyString name; "first_passkey" := AnyBool (n =? 0)]}) ;;
    commit_tx ;;
    mret (n =? 0)).

Definition UpdatePasskeyCredentialWithAudit (userID ip : string) (credential : WACredential) : M goerr unit :=
  if streq (cred_ID credential) "" then throw (ErrText "invalid WebAuthn credential")
  else with_tx (
    row ← sql_select_one passkeys (fun p => pk_of userID p && streq (pk_CredentialID p) (cred_ID credential));
    envelope ← encodePasskeyCredential (pk_ID row) credential;
    now ← time_Now;
    n ← sql_update passkeys (fun p => streq (pk_ID p) (pk_ID row) && pk_of userID p) (pk_used envelope now);
    must_affect n (fun n => n =? 1) ErrNoRows ;;
    map_err (ErrWrap "write passkey assertion audit")
      (passkey_audit (pk_ID row) "asserted" userID "webauthn" ip {["sign_count" := AnyInt (cred_SignCount credential)]}) ;;
    commit_tx).

Definition DeletePasskeyCredentialWithAudit (userID credentialRowID ip : string) : M goerr unit :=
  RunAuditedMutation
    (Some (mkAuditLog "" "passkey" credentialRowID "deleted" userID "user" ∅ ip 0))
    (sql_select_one users (is_user userID) ;;
     count ← sql_count passkeys (pk_of userID);
     if count <=? 1 then throw ErrLastPasskey
     else
       n ← sql_delete passkeys (fun p => streq (pk_ID p) credentialRowID && pk_of userID p);
       must_affect n (fun n => n =? 1) ErrNoRows).

(** The writes of passkeys and of users fire the triggers of the outbox. *)
Definition RecoverPasskeys (userID recoveryHash ip : string) : M goerr unit :=
  with_tx (
    sql_select_one recovery_codes (usable_code userID recoveryHash) ;;
    delete_triggered passkeys "passkey_credentials" pk_ID (pk_of userID) ;;
    sql_delete recovery_codes (rc_of userID) ;;
    now ← sql_now;
    n ← update_triggered users "users" user_ID (is_user userID) (user_revoke now);
    must_affect n (fun n => n =? 1) ErrNoRows ;;
    map_err (ErrWrap "write recovery audit")
      (passkey_audit userID "recovered" userID "recovery_code" ip
        {["all_passkeys_revoked" := AnyBool true; "all_sessions_revoked" := AnyBool true]}) ;;
    commit_tx).
End store.

(** ** Requests and answers *)

(** [store.PasskeyCredentialAEAD], [h.WebAuthn != nil], the secret of the
    configuration. *)
Record AuthHandler := mkAuthHandler { ah_aead : option AESGCM; ah_WebAuthn : bool; ah_JWTSecret : string }.

Record passkeyFinishRequest := mkFinish { pf_CeremonyID : string; pf_Name : string; pf_Credential : string }.

Inductive PasskeyAnswer `{WebAuthn} :=
  | Begun (ceremonyID : string) (options : WAOptions)
  | Enrolled (cookies : string * string) (name : string) (codes : option (list string))
  | Verified (cookies : string * string)
  | PasskeyItems (items : list PasskeyCredential) (step_up : bool)
  | PasskeyDeleted
  | Recovered (cookies : string * string)
  | Refused (status : Z) (code message : string).

Fixpoint without (c : ascii) (s : string) : string :=
  match s with
  | EmptyString => ""
  | String c' s => if Ascii.eqb c' c then without c s else String c' (without c s)
  end.

Definition recoveryCodeHash (secret userID rawCode : string) : string :=
  let normalized := ToUpper (without " " (without "-" (TrimSpace rawCode))) in
  let zero := String Ascii.zero "" in
  hex_EncodeToString (hmac_sha256 secret ("licensehub:passkey-recovery:v1" +:+ zero +:+ userID +:+ zero +:+ normalized)).

Definition recoveryCodeCount : nat := 10.
Definition passkeyCeremonyTTL : Duration := 5 * Minute.

Definition format_code (raw : string) : string :=
  let part i := stake 4 (sdrop i raw) in
  "LHRC-" +:+ part 0%nat +:+ "-" +:+ part 4%nat +:+ "-" +:+ part 8%nat +:+ "-" +:+ part 12%nat +:+ "-" +:+ part 16%nat.

(** Each code with its hash. *)
Fixpoint generate_codes {E} (n : nat) (secret userID : string) : M E (list (string * string)) :=
  match n with
  | O => mret []
  | S n =>
      raw ← randomHex 10;
      let code := format_code (ToUpper raw) in
      rest ← generate_codes n secret userID;
      mret ((code, recoveryCodeHash secret userID code) :: rest)
  end.
Definition generateRecoveryCodes {E} (secret userID : string) : M E (list (string * string)) :=
  generate_codes recoveryCodeCount secret userID.

Definition ceremonyDigest (raw : string) : string := sha256_hex raw.

Definition validatePasskeyName (raw : string) : option string :=
  let name := TrimSpace raw in
  let name := if streq name "" then "Passkey" else name in
  if 80 <? len name then None else Some name.

(** ** Handlers *)

Section handlers.
Context `{UUIDs} `{GCM} `{WebAuthn} (jwt_sign : string -> Claims -> option string) (h : AuthHandler).

Definition pk_internal : PasskeyAnswer := Refused 500 "INTERNAL_ERROR" "an internal error occurred".
Definition pk_bad (message : string) : PasskeyAnswer := Refused 400 "BAD_REQUEST" message.
Definition pk_unavailable : PasskeyAnswer := Refused 503 "PASSKEY_UNAVAILABLE" "passkey authentication is unavailable".
Definition pk_ceremony : PasskeyAnswer :=
  Refused 401 "PASSKEY_CEREMONY_INVALID" "passkey ceremony is invalid, expired, or already used".
Definition pk_unverified (message : string) : PasskeyAnswer := Refused 401 "PASSKEY_VERIFICATION_FAILED" message.
Definition pk_step_up (message : string) : PasskeyAnswer := Refused 403 "PASSKEY_STEP_UP_REQUIRED" message.
Definition pk_finish_bad : PasskeyAnswer := pk_bad "ceremony_id and credential are required".
Definition pk_no_code : PasskeyAnswer := Refused 401 "UNAUTHORIZED" "invalid recovery code".

(** [if err != nil { answer; return }]. *)
Definition or_answer {A} (m : M goerr A) (no : PasskeyAnswer) (k : A -> M goerr PasskeyAnswer) : M goerr PasskeyAnswer :=
  r ← attempt m;
  match r with Ok a => k a | Err _ => mret no end.

Definition or_none {A} (o : option A) (no : PasskeyAnswer) (k : A -> M goerr PasskeyAnswer) : M goerr PasskeyAnswer :=
  match o with Some a => k a | None => mret no end.

(** A call of the library, recorded. *)
Definition wa_call {A} (name userID : string) (answer : nat -> A) : M goerr A := fun w =>
  (Ok (answer (List.length (w_events w))), set_events (app (w_events w) [EvWebAuthn name userID]) w).

Definition loadPasskeyUser (userID : string) : M goerr (User * list WACredential) :=
  user ← FindUserByID userID;
  records ← ListPasskeyCredentials (ah_aead h) userID;
  mret (user, records.*2).

Definition currentAdminUserID (cx : Context_) (k : string -> M goerr PasskeyAnswer) : M goerr PasskeyAnswer :=
  let uid := default "" (cx_user_id cx) in
  if streq uid "" || negb (match cx_is_admin cx with Some b => b | None => false end)
  then mret (Refused 403 "FORBIDDEN" "admin required") else k uid.

Definition savePasskeyCeremony (userID purpose : string) (session : WASession) : M goerr string :=
  rawID ← randomHex 32;
  match marshal_session session with
  | None => throw (ErrText "json")
  | Some data =>
      now ← time_Now;
      SaveWebAuthnSession (mkWebAuthnSession (ceremonyDigest rawID) userID purpose data (Add now passkeyCeremonyTTL) 0) ;;
      mret rawID
  end.

Definition PasskeyRegisterBegin (cx : Context_) : M goerr PasskeyAnswer := currentAdminUserID cx (fun uid =>
  if negb (ah_WebAuthn h) then mret pk_unavailable
  else
    or_answer (CountPasskeyCredentials uid) pk_internal (fun n =>
    if (0 <? n) && negb (streq (cx_auth_method cx) "webauthn")
    then mret (pk_step_up "verify an existing passkey before adding another")
    else
      or_answer (loadPasskeyUser uid) pk_internal (fun '(user, credentials) =>
      b ← wa_call "BeginRegistration" uid (fun n => wa_BeginRegistration n user credentials);
      or_none b pk_internal (fun '(creation, session) =>
      or_answer (savePasskeyCeremony uid "register" session) pk_internal (fun ceremonyID =>
      mret (Begun ceremonyID creation)))))).

(** The ceremony closed, with its data and the user it is for. *)
Definition close_ceremony (uid purpose : string) (req : passkeyFinishRequest)
    (k : WASession -> User -> list WACredential -> M goerr PasskeyAnswer) : M goerr PasskeyAnswer :=
  or_answer (ConsumeWebAuthnSession (ceremonyDigest (pf_CeremonyID req)) uid purpose) pk_ceremony (fun sessionJSON =>
  or_none (unmarshal_session sessionJSON) pk_internal (fun session =>
  or_answer (loadPasskeyUser uid) pk_internal (fun '(user, credentials) => k session user credentials))).

Definition finish_request (req : option passkeyFinishRequest) (k : passkeyFinishRequest -> M goerr PasskeyAnswer)
    : M goerr PasskeyAnswer :=
  match req with
  | None => mret pk_finish_bad
  | Some req => if streq (pf_CeremonyID req) "" || streq (pf_Credential req) "" then mret pk_finish_bad else k req
  end.

Definition PasskeyRegisterFinish (cx : Context_) (req : option passkeyFinishRequest) : M goerr PasskeyAnswer :=
  currentAdminUserID cx (fun uid => finish_request req (fun req =>
  or_none (validatePasskeyName (pf_Name req)) (pk_bad "passkey name is too long") (fun name =>
  close_ceremony uid "register" req (fun session user credentials =>
  c ← wa_call "FinishRegistration" uid (fun n => wa_FinishRegistration n user credentials session (pf_Credential req));
  or_none c (pk_unverified "passkey registration could not be verified") (fun credential =>
  codes ← generateRecoveryCodes (ah_JWTSecret h) uid;
  or_answer (CreatePasskeyCredential (ah_aead h) uid name (cx_ip cx) credential codes.*2) pk_internal (fun installed =>
  or_answer (issueSession jwt_sign (ah_JWTSecret h) user "webauthn") pk_internal (fun cookies =>
  mret (Enrolled cookies name (if installed then Some codes.*1 else None))))))))).

Definition PasskeyAssertionBegin (cx : Context_) : M goerr PasskeyAnswer := currentAdminUserID cx (fun uid =>
  if negb (ah_WebAuthn h) then mret pk_unavailable
  else
    or_answer (loadPasskeyUser uid) pk_internal (fun '(user, credentials) =>
    match credentials with
    | [] => mret (Refused 409 "PASSKEY_NOT_ENROLLED" "enroll a passkey first")
    | _ =>
        b ← wa_call "BeginLogin" uid (fun n => wa_BeginLogin n user credentials);
        or_none b pk_internal (fun '(assertion, session) =>
        or_answer (savePasskeyCeremony uid "login" session) pk_internal (fun ceremonyID =>
        mret (Begun ceremonyID assertion)))
    end)).

Definition PasskeyAssertionFinish (cx : Context_) (req : option passkeyFinishRequest) : M goerr PasskeyAnswer :=
  currentAdminUserID cx (fun uid => finish_request req (fun req =>
  close_ceremony uid "login" req (fun session user credentials =>
  c ← wa_call "FinishLogin" uid (fun n => wa_FinishLogin n user credentials session (pf_Credential req));
  or_none c (pk_unverified "passkey assertion could not be verified") (fun credential =>
  or_answer (UpdatePasskeyCredentialWithAudit (ah_aead h) uid (cx_ip cx) credential) pk_internal (fun _ =>
  or_answer (issueSession jwt_sign (ah_JWTSecret h) user "webauthn") pk_internal (fun cookies =>
  Audit (mkAuditLog "" "session" uid "passkey_step_up" uid "webauthn" ∅ (cx_ip cx) 0) ;;
  mret (Verified cookies))))))).

Definition PasskeyList (cx : Context_) : M goerr PasskeyAnswer := currentAdminUserID cx (fun uid =>
  or_answer (ListPasskeyCredentials (ah_aead h) uid) pk_internal (fun records =>
  mret (PasskeyItems records.*1 (streq (cx_auth_method cx) "webauthn")))).

Definition PasskeyDelete (cx : Context_) (id : string) : M goerr PasskeyAnswer := currentAdminUserID cx (fun uid =>
  if negb (streq (cx_auth_method cx) "webauthn") then mret (pk_step_up "verify a passkey before removing one")
  else
    r ← attempt (DeletePasskeyCredentialWithAudit uid id (cx_ip cx));
    mret (match r with
          | Ok _ => PasskeyDeleted
          | Err e =>
              if goerr_Is e ErrLastPasskey
              then Refused 409 "LAST_PASSKEY" "the last passkey can only be reset with a recovery code"
              else if goerr_Is e ErrNoRows then Refused 404 "NOT_FOUND" "passkey not found"
              else pk_internal
          end)).

Definition PasskeyRecover (ip : string) (req : option (string * string)) : M goerr PasskeyAnswer :=
  match req with
  | None => mret (pk_bad "email and recovery code are required")
  | Some (email, code) =>
      if streq (TrimSpace email) "" || streq (TrimSpace code) "" then mret (pk_bad "email and recovery code are required")
      else
        or_answer (FindUserByEmail (ToLower (TrimSpace email))) pk_no_code (fun user =>
        if negb (IsAdmin user) then mret pk_no_code
        else
          let hash := recoveryCodeHash (ah_JWTSecret h) (user_ID user) code in
          or_answer (RecoverPasskeys (user_ID user) hash ip) pk_no_code (fun _ =>
          or_answer (FindUserByID (user_ID user)) pk_internal (fun user =>
          or_answer (issueSession jwt_sign (ah_JWTSecret h) user "recovery") pk_internal (fun cookies =>
          mret (Recovered cookies)))))
  end.
End handlers.

(** ** The routes *)

Inductive PasskeyRoute :=
  | RRegisterBegin
  | RRegisterFinish (req : option passkeyFinishRequest)
  | RAssertionBegin
  | RAssertionFinish (req : option passkeyFinishRequest)
  | RPasskeyList
  | RPasskeyDelete (id : string)
  | RPasskeyRecover (req : option (string * string)).

(** All but the recovery are behind the session check. *)
Definition passkey_route `{UUIDs} `{GCM} `{WebAuthn} (jwt_sign : string -> Claims -> option string)
    (jwt_parse : string -> string -> Time -> option Claims) (h : AuthHandler) (cred : Credential) (r : PasskeyRoute)
    : M goerr PasskeyAnswer :=
  let session (k : Context_ -> M goerr PasskeyAnswer) : M goerr PasskeyAnswer :=
    c ← session_context jwt_parse (ah_JWTSecret h) cred;
    match c with inr (status, code) => mret (Refused status code "") | inl cx => k cx end in
  match r with
  | RRegisterBegin => session (PasskeyRegisterBegin h)
  | RRegisterFinish req => session (fun cx => PasskeyRegisterFinish jwt_sign h cx req)
  | RAssertionBegin => session (PasskeyAssertionBegin h)
  | RAssertionFinish req => session (fun cx => PasskeyAssertionFinish jwt_sign h cx req)
  | RPasskeyList => session (PasskeyList h)
  | RPasskeyDelete id => session (fun cx => PasskeyDelete cx id)
  | RPasskeyRecover req => PasskeyRecover jwt_sign h (cr_IP cred) req
  end.
