(* ===== verification/Txn.v ===== *)
(** * What a transaction leaves behind

    Inside a transaction the tables may break an invariant for a while; what
    counts is what a commit or a rollback leaves.  [txh] is a triple for the
    statements of a transaction, [ends] says that a program closes the
    transaction it runs in with the invariant restored.  With [I] a relation to
    the tables at the start, [ends] is atomicity. *)

From S2P Require Import Prelude GoStrings Errors Model World Tables Logic Store Audited.
From Stdlib Require Import Ascii String.

#[local] Open Scope string_scope.
#[local] Open Scope Z_scope.

(** From tables that satisfy [P], [m] ends with tables that satisfy [Q] of its
    answer, in the same transaction, or fails. *)
Definition txh {E A} (P : DB -> Prop) (m : M E A) (Q : A -> DB -> Prop) : Prop :=
  forall w tx, w_tx w = Some tx -> tx_failed tx = false -> P (w_db w) ->
    let '(r, w') := m w in
    match r with
    | Ok a => w_tx w' = Some tx /\ Q a (w_db w')
    | Err _ => tx_snapshot <$> w_tx w' = Some (tx_snapshot tx)
    end.

(** [m] closes the transaction: after the deferred rollback, [I] holds, and [Q]
    if no error is reported. *)
Definition ends {A} (I P : DB -> Prop) (m : M goerr A) (Q : A -> DB -> Prop) : Prop :=
  forall w tx, w_tx w = Some tx -> tx_failed tx = false -> I (tx_snapshot tx) -> P (w_db w) ->
    let '(r, w') := m w in
    I (w_db (rollback_w w')) /\ match r with Ok a => Q a (w_db (rollback_w w')) | Err _ => True end.

Section txh.
Implicit Types P : DB -> Prop.

Lemma txh_ret {E A} P (a : A) : txh (E := E) P (mret a) (fun a' db => a' = a /\ P db).
Proof. done. Qed.
Lemma txh_throw {E A} P (e : E) Q : txh (A := A) P (throw e) Q.
Proof. intros w tx Htx _ _. simpl. by rewrite Htx. Qed.

Lemma txh_weaken {E A} P P' (m : M E A) Q Q' :
  txh P m Q -> (forall db, P' db -> P db) -> (forall a db, Q a db -> Q' a db) -> txh P' m Q'.
Proof.
  intros Hm HP HQ w tx Htx Hok Hp. specialize (Hm w tx Htx Hok (HP _ Hp)). destruct (m w) as [[a|e] w']; [|done].
  destruct Hm as [H1 H2]. split; [done|by apply HQ].
Qed.

Lemma txh_bind {E A B} P (m : M E A) (k : A -> M E B) Q R :
  txh P m Q -> (forall a, txh (Q a) (k a) R) -> txh P (m ≫= k) R.
Proof.
  intros Hm Hk w tx Htx Hok Hp. specialize (Hm w tx Htx Hok Hp). unfold mbind, M_bind.
  destruct (m w) as [[a|e] w']; [|done]. destruct Hm as [H1 H2]. by apply (Hk a w' tx).
Qed.

Lemma txh_map_err {E E' A} P (f : E -> E') (m : M E A) Q : txh P m Q -> txh P (map_err f m) Q.
Proof. intros Hm w tx Htx Hok Hp. specialize (Hm w tx Htx Hok Hp). unfold map_err. by destruct (m w) as [[]]. Qed.

Lemma txh_still {E A} P (m : M E A) : still m -> txh P m (fun _ => P).
Proof.
  intros Hm w tx Htx _ Hp. destruct (Hm w) as (D & T & _). destruct (m w) as [[a|e] w']; simpl in *; rewrite T.
  - by rewrite D.
  - by rewrite Htx.
Qed.

Lemma txh_stmt {A} P (f : DB -> result goerr (A * DB)) Q :
  (forall db a db', P db -> f db = Ok (a, db') -> Q a db') -> txh P (stmt f) Q.
Proof.
  intros Hf w tx Htx Hok Hp. destruct (stmt f w) as [[a|e] w'] eqn:E.
  - apply stmt_Ok in E as (Hs & Ht & _). rewrite Ht. split; [done|]. by eapply Hf.
  - pose proof (honest_stmt f w) as [Hs _]. rewrite E in Hs. simpl in Hs. by rewrite Hs, Htx.
Qed.

Lemma txh_with_trigger `{UUIDs} {A} P entity action written (f : DB -> result goerr (A * DB)) Q :
  (forall db a db1 m, P db -> f db = Ok (a, db1) -> enqueued (mutations entity action (written db)) (db_audit_outbox db1) m ->
     Q a (t_set audit_outbox m db1)) ->
  txh P (with_trigger entity action written f) Q.
Proof.
  intros Hf. unfold with_trigger. eapply txh_bind; [apply txh_still, still_sql_now|]. intros now. cbv beta.
  eapply txh_bind; [apply txh_still; by intros w|]. intros base. cbv beta.
  eapply txh_bind; [apply txh_still, still_trigger_ids|]. intros []. cbv beta. apply txh_stmt. intros db a db' Hp.
  destruct (f db) as [[a1 db1]|e] eqn:E; [|done]. destruct (enqueue _ _ _ _ _ db1) as [db2|e] eqn:Eq; [|done].
  intros [= <- <-]. apply enqueue_enqueued in Eq as (m & -> & Hm). by eapply Hf.
Qed.

Lemma txh_must_affect P n ok e : txh P (must_affect n ok e) (fun _ db => P db /\ ok n = true).
Proof. unfold must_affect. destruct (ok n); [|apply txh_throw]. by intros w tx Htx _ Hp. Qed.

Lemma ends_bind {A B} I P (m : M goerr A) (k : A -> M goerr B) Q R :
  txh P m Q -> (forall a, ends I (Q a) (k a) R) -> ends I P (m ≫= k) R.
Proof.
  intros Hm Hk w tx Htx Hok Hi Hp. specialize (Hm w tx Htx Hok Hp). unfold mbind, M_bind.
  destruct (m w) as [[a|e] w'].
  - destruct Hm as [H1 H2]. by apply (Hk a w' tx).
  - split; [|done]. unfold rollback_w. destruct (w_tx w') as [tx'|]; [|done]. injection Hm as Hs. simpl. by rewrite Hs.
Qed.

Lemma ends_commit I P : (forall db, P db -> I db) -> ends I P commit_tx (fun _ => P).
Proof.
  intros Hpi w tx Htx Hok Hi Hp. pose proof (commit_cases w tx Htx Hok) as Hc. destruct (commit_tx w) as [[[]|e] w'];
    simpl in Hc; destruct Hc as [->|[Hne ->]]; try done; auto.
Qed.
Lemma ends_commit_ret {B} I P (b : B) : (forall db, P db -> I db) -> ends I P (commit_tx ;; mret b) (fun b' db => b' = b /\ P db).
Proof.
  intros Hpi w tx Htx Hok Hi Hp. pose proof (ends_commit I P Hpi w tx Htx Hok Hi Hp) as He.
  unfold mbind, M_bind. destruct (commit_tx w) as [[[]|e] w']; simpl; [by destruct He|done].
Qed.

Lemma ends_throw {A} I P (e : goerr) Q : ends (A := A) I P (throw e) Q.
Proof. intros w tx Htx _ Hi _. simpl. unfold rollback_w. by rewrite Htx. Qed.

Lemma ends_weaken {A} I P P' (m : M goerr A) Q Q' :
  ends I P m Q -> (forall db, P' db -> P db) -> (forall a db, Q a db -> Q' a db) -> ends I P' m Q'.
Proof.
  intros Hm HP HQ w tx Htx Hok Hi Hp. specialize (Hm w tx Htx Hok Hi (HP _ Hp)). destruct (m w) as [[a|e] w']; [|done].
  destruct Hm. auto.
Qed.

(** The whole transaction. *)
Lemma keeps_ends {A} I (body : M goerr A) Q :
  (forall db0, I db0 -> ends I (fun db => db = db0) body Q) -> keeps I (with_tx body).
Proof.
  intros Hb w Hs. unfold with_tx, mbind, M_bind, begin_tx. pose proof (safe_next_fault I w Hs) as Hs1.
  destruct (next_fault w) as [[|b] w1]; simpl in Hs1; [|done]. destruct (tick w1) as [t ds]. unfold defer_rollback.
  set (w2 := set_tx _ _). assert (I (w_db w1)) as Hi by apply Hs1.
  pose proof (Hb (w_db w1) Hi w2 _ eq_refl eq_refl Hi eq_refl) as He. destruct (body w2) as [r w3]. destruct He as [He _].
  split; [exact He|]. simpl. intros tx. unfold rollback_w. destruct (w_tx w3) eqn:E3; simpl; [done|]. by rewrite E3.
Qed.
End txh.

(** A transaction is atomic: the tables afterwards are those before, and an
    error is reported, or they are related to them by what its statements do. *)
Lemma with_tx_atomic {A} (R : DB -> DB -> Prop) (body : M goerr A) w :
  w_tx w = None -> (forall db0, ends (fun db => db = db0 \/ R db0 db) (fun db => db = db0) body (fun _ => R db0)) ->
  let '(r, w') := with_tx body w in (exists e, r = Err e) /\ w_db w' = w_db w \/ R (w_db w) (w_db w').
Proof.
  intros Hw Hb. unfold with_tx, mbind, M_bind, begin_tx. pose proof (next_fault_frame w) as (D1 & _).
  destruct (next_fault w) as [[|b] w1]; simpl in D1; [|left; split; [by eexists|done]]. destruct (tick w1) as [t ds]. unfold defer_rollback.
  set (w2 := set_tx _ _). rewrite <- D1.
  pose proof (Hb (w_db w1) w2 _ eq_refl eq_refl (or_introl eq_refl) eq_refl) as He. destruct (body w2) as [r w3].
  destruct He as [[He|He] Hr]; [|by right]. destruct r as [a|e]; [by right|]. left. split; [by eexists|done].
Qed.

(** The same with what an answer says of the tables. *)
Lemma with_tx_answer {A} (I : DB -> Prop) (Q : A -> DB -> Prop) (body : M goerr A) w :
  w_tx w = None -> I (w_db w) -> ends I (fun db => db = w_db w) body Q ->
  let '(r, w') := with_tx body w in w_tx w' = None /\ I (w_db w') /\ match r with Ok a => Q a (w_db w') | Err _ => True end.
Proof.
  intros Hw Hi Hb. pose proof (with_tx_closed body w Hw) as Hcl. unfold with_tx, mbind, M_bind, begin_tx in *.
  pose proof (next_fault_frame w) as (D1 & T1 & _).
  destruct (next_fault w) as [[|b] w1]; simpl in D1, T1, Hcl; [|rewrite D1; by split_and!].
  destruct (tick w1) as [t ds]. unfold defer_rollback in *. set (w2 := set_tx _ _) in *. rewrite <- D1 in Hi, Hb.
  pose proof (Hb w2 _ eq_refl eq_refl Hi eq_refl) as He. destruct (body w2) as [r w3]. destruct He as [He Hq].
  by split_and!.
Qed.

(** ** Transactions of a calm world, which succeed *)

Definition proceeds {E A} (m : M E A) : Prop := forall w, calm w -> exists a w', m w = (Ok a, w') /\ calm w' /\ w_tx w' = w_tx w.

Section proceeds.
Lemma proceeds_ret {E A} (a : A) : proceeds (E := E) (mret a).
Proof. intros w Hw. by exists a, w. Qed.
Lemma proceeds_bind {E A B} (m : M E A) (k : A -> M E B) : proceeds m -> (forall a, proceeds (k a)) -> proceeds (m ≫= k).
Proof.
  intros Hm Hk w Hw. destruct (Hm w Hw) as (a & w1 & E1 & C1 & T1). destruct (Hk a w1 C1) as (b & w2 & E2 & C2 & T2).
  exists b, w2. unfold mbind, M_bind. rewrite E1. split_and!; congruence.
Qed.
Lemma proceeds_for_each {E A} (l : list A) (body : A -> M E unit) :
  (forall x, proceeds (body x)) -> proceeds (for_each l body).
Proof. intros Hb. induction l as [|x l IH]; simpl; [apply proceeds_ret|by apply proceeds_bind]. Qed.
Lemma proceeds_stmt {A} (f : DB -> result goerr (A * DB)) : (forall db, exists a db', f db = Ok (a, db')) -> proceeds (stmt f).
Proof.
  intros Hf w Hw. destruct (Hf (w_db w)) as (a & db' & E). exists a, (set_db db' w). rewrite stmt_calm, E by done. done.
Qed.
Lemma proceeds_sql_now {E} : proceeds (E := E) sql_now.
Proof.
  intros w Hw. destruct (still_sql_now (E := E) w) as (_ & Ht & _ & Hf). unfold sql_now, time_Now in *.
  destruct (w_tx w) as [tx|] eqn:Et; [|destruct (tick w) as [t ds]]; eexists _, _; (split; [done|]); unfold calm in *; simpl in *;
    rewrite ?Ht, ?Hf; by rewrite Et in Hw.
Qed.

Lemma with_tx_settles {A B} (body : M goerr A) (k : A -> B) w :
  quiet w -> proceeds body -> exists b w', with_tx (a ← body; commit_tx ;; mret (k a)) w = (Ok b, w') /\ quiet w'.
Proof.
  intros Hq Hb. pose proof (quiet_calm _ Hq) as Hc. destruct Hq as [Hf Ht].
  unfold with_tx. unfold mbind at 1, M_bind at 1. rewrite begin_calm by done. destruct (tick w) as [t ds].
  set (w1 := set_tx _ _). destruct (Hb w1) as (a & w2 & E & C2 & T2); [by split|].
  unfold defer_rollback, mbind, M_bind. rewrite E, (commit_calm w2 _ C2 T2). eexists _, _. split; [done|].
  unfold rollback_w. simpl. by split; [apply C2|].
Qed.
End proceeds.

(** ** The statements *)

Section statements.
Context {K R : Type} `{Countable K} (T : Table K R) (P : DB -> Prop).

Lemma txh_select_one p :
  txh P (sql_select_one T p) (fun x db => P db /\ exists k, t_get T db !! k = Some x /\ p x = true).
Proof.
  apply txh_stmt. intros db a db' Hp. destruct (first_row _) as [x|] eqn:E; [|done]. intros [= <- <-]. split; [done|].
  by apply first_row_rows in E.
Qed.
Lemma txh_count p : txh P (sql_count T p) (fun n db => P db /\ n = count p (t_get T db)).
Proof. apply txh_stmt. intros db a db' Hp [= <- <-]. done. Qed.
Lemma txh_insert k r :
  txh P (sql_insert T k r) (fun _ db' => exists db, P db /\ t_get T db !! k = None /\ t_check T db r = None /\
    db' = t_set T (<[k := r]> (t_get T db)) db).
Proof. apply txh_stmt. intros db a db' Hp (Hk & _ & Hc & ->)%insert_row_Ok. by exists db. Qed.
Lemma txh_update p f :
  txh P (sql_update T p f) (fun n db' => exists db, P db /\ n = count p (t_get T db) /\ db' = t_set T (update_rows p f (t_get T db)) db).
Proof. apply txh_stmt. intros db a db' Hp [= <- <-]. by exists db. Qed.
Lemma txh_delete p :
  txh P (sql_delete T p) (fun n db' => exists db, P db /\ n = count p (t_get T db) /\ db' = t_set T (delete_rows p (t_get T db)) db).
Proof. apply txh_stmt. intros db a db' Hp [= <- <-]. by exists db. Qed.
End statements.

Lemma txh_insert_audit P log :
  txh P (insert_audit log) (fun _ db' => exists db now, P db /\ db' = add_audit (audit_ID log) now log db).
Proof.
  unfold insert_audit. eapply txh_bind; [apply txh_still, still_sql_now|]. intros now. cbv beta.
  eapply txh_weaken; [apply txh_insert|done|]. intros a db' (db & Hp & _ & _ & ->). by exists db, now.
Qed.

(** An audited mutation, seen as a transaction. *)
Lemma ends_audited I P log (mutate : M goerr unit) Q R :
  txh P mutate (fun _ => Q) -> (forall db now, Q db -> R (add_audit (audit_ID log) now log db)) -> (forall db, R db -> I db) ->
  ends I P (mutate ;; map_err (ErrWrap "write audit log") (insert_audit log) ;; commit_tx) (fun _ => R).
Proof.
  intros Hm Ha Hi. eapply ends_bind; [exact Hm|]. intros []. eapply (ends_bind _ _ _ _ (fun _ => R)).
  - apply txh_map_err. eapply txh_weaken; [apply txh_insert_audit|done|]. intros [] db (db1 & now & Hq & ->). by apply Ha.
  - intros []. by apply ends_commit.
Qed.
