(* ===== verification/PasskeyProps.v ===== *)
(** * What passkeys promise

    An administrator with a passkey can always be recovered and never loses the
    last one by removing it; a recovery resets everything or nothing; a session
    opened with a passkey had a ceremony, which is closed for good. *)

From S2P Require Import Prelude GoStrings Errors Model Crypto World Tables Logic AesGcm Store Sessions Audited Txn Confinement.
From S2P Require Import Access Passkeys.
From Stdlib Require Import Ascii String.

#[local] Open Scope string_scope.
#[local] Open Scope Z_scope.

(** ** Programs that leave the tables alone *)

Lemma still_wa_call {A} name userID (answer : nat -> A) : still (wa_call name userID answer).
Proof. intros w. by repeat split. Qed.

Lemma still_encode `{GCM} `{WebAuthn} aead id credential : still (encodePasskeyCredential aead id credential).
Proof.
  unfold encodePasskeyCredential. destruct (marshal_credential credential); [|apply still_throw].
  destruct aead; [|apply still_ret]. unfold Encrypt. apply still_bind; [apply still_rand_Read|].
  intros [nonce|]; [apply still_ret|apply still_throw].
Qed.

Lemma still_generate_codes {E} n secret userID : still (generate_codes (E := E) n secret userID).
Proof.
  induction n as [|n IH]; simpl; [apply still_ret|].
  apply still_bind; [apply still_randomHex|]. intros raw. cbv zeta.
  apply still_bind; [exact IH|]. intros. apply still_ret.
Qed.

#[export] Hint Resolve still_wa_call still_encode still_generate_codes : licensehub.

(** ** Counting *)

Section counting.
Context {K R : Type} `{Countable K}.
Implicit Types (P Q : R -> bool) (m : gmap K R).

Lemma b2z_nonneg b : 0 <= b2z b.
Proof. by destruct b. Qed.

Lemma count_delete_out P Q m : (forall r, P r = true -> Q r = false) -> count P (delete_rows Q m) = count P m.
Proof.
  intros Hd. unfold count. f_equal. f_equal. apply rows_delete_out. intros k r _ Hq. destruct (P r) eqn:E; [|done].
  by rewrite (Hd r E) in Hq.
Qed.

(** What a deletion takes away. *)
Lemma count_split P Q m : count P m = count P (delete_rows Q m) + count (fun r => P r && Q r) m.
Proof.
  unfold delete_rows. induction m as [|k r m Hk IH] using map_ind; [by rewrite map_filter_empty, !count_empty|].
  rewrite !(count_insert_fresh _ m) by done. destruct (Q r) eqn:E.
  - rewrite map_filter_insert_False by (simpl; by rewrite E). rewrite delete_id by done. rewrite IH, andb_true_r. lia.
  - rewrite map_filter_insert_True by (simpl; by rewrite E). rewrite count_insert_fresh by (apply map_lookup_filter_None; by left).
    rewrite IH, andb_false_r. simpl. lia.
Qed.
End counting.

(** ** Recovery codes *)

Definition unused_of (userID : string) (r : PasskeyRecoveryCode) : bool := rc_of userID r && negb (present (rc_UsedAt r)).
Definition codes_of (userID : string) (db : DB) : Z := count (unused_of userID) (db_recovery_codes db).

(** Every owner of a passkey has recovery codes left. *)
Definition recoverable (db : DB) : Prop :=
  forall k p, db_passkeys db !! k = Some p -> 8 <= codes_of (pk_UserID p) db.
(** The same of everybody else. *)
Definition recoverable_but (userID : string) (db : DB) : Prop :=
  forall k p, db_passkeys db !! k = Some p -> pk_UserID p <> userID -> 8 <= codes_of (pk_UserID p) db.

Section codes.
Context `{UUIDs}.

(** While [userID]'s codes are replaced. *)
Definition replacing (userID : string) (n : Z) (db : DB) : Prop := recoverable_but userID db /\ n <= codes_of userID db.

Lemma txh_insert_codes userID hashes n :
  txh (replacing userID n) (insert_codes userID hashes)
    (fun _ => replacing userID (n + Z.of_nat (List.length hashes))).
Proof.
  revert n. induction hashes as [|h hashes IH]; intros n; simpl.
  - eapply txh_weaken; [apply txh_ret|done|]. intros [] db [_ Hr]. by rewrite Z.add_0_r.
  - eapply txh_bind; [apply txh_still, still_newID|]. intros id. cbv beta.
    eapply txh_bind; [apply txh_still, still_sql_now|]. intros now. cbv beta.
    eapply (txh_bind _ _ _ (fun _ => replacing userID (n + 1))).
    + apply txh_stmt. intros db [] db' [Hb Hn] (Hk & _ & _ & ->)%insert_row_Ok.
      change (db_recovery_codes db !! id = None) in Hk. split.
      * intros k p Hp Hu. change (db_passkeys db !! k = Some p) in Hp. unfold codes_of.
        change (8 <= count (unused_of (pk_UserID p)) (<[id := mkRecoveryCode id userID h now None]> (db_recovery_codes db))).
        rewrite count_insert_fresh by done. specialize (Hb _ _ Hp Hu). unfold codes_of in Hb. pose proof (b2z_nonneg (unused_of (pk_UserID p) (mkRecoveryCode id userID h now None))). lia.
      * unfold codes_of. change (n + 1 <= count (unused_of userID) (<[id := mkRecoveryCode id userID h now None]> (db_recovery_codes db))).
        rewrite count_insert_fresh by done. unfold unused_of at 2, rc_of. simpl. rewrite streq_refl. unfold codes_of in Hn. simpl. lia.
    + intros []. eapply txh_weaken; [apply IH|done|]. intros [] db. by replace (n + 1 + _) with (n + Z.of_nat (S (List.length hashes))) by lia.
Qed.

Lemma replaced_recoverable userID db : replacing userID 8 db -> recoverable db.
Proof. intros [Hb Hn] k p Hp. destruct (decide (pk_UserID p = userID)) as [->|Hne]; [done|by eapply Hb]. Qed.

Lemma txh_install_codes userID hashes :
  txh (recoverable_but userID) (install_codes userID hashes) (fun _ => recoverable).
Proof.
  unfold install_codes. destruct (_ <? 8) eqn:E; [apply txh_throw|]. bool_facts.
  eapply (txh_bind _ _ _ (fun _ => replacing userID 0)).
  - apply txh_stmt. intros db a db' Hb [= _ <-]. split.
    + intros k p Hp Hu. change (db_passkeys db !! k = Some p) in Hp. unfold codes_of.
      change (8 <= count (unused_of (pk_UserID p)) (delete_rows (rc_of userID) (db_recovery_codes db))).
      rewrite count_delete_out; [by eapply Hb|]. unfold unused_of, rc_of. intros r [Hr%streq_true _]%andb_prop.
      apply streq_false. congruence.
    + apply count_nonneg.
  - intros a. eapply txh_weaken; [apply txh_insert_codes|done|]. intros [] db [Hb Hn]. apply (replaced_recoverable userID). split; [done|lia].
Qed.
End codes.

(** ** Every operation keeps the codes *)

Section recoverable.
Context `{UUIDs} `{GCM} `{WebAuthn} (aead : option AESGCM).

Lemma txh_passkey_audit P entityID action actorID actorType ip changes :
  (forall m db, P db -> P (t_set audit_logs m db)) ->
  txh P (map_err (ErrWrap "write passkey audit") (passkey_audit entityID action actorID actorType ip changes)) (fun _ => P).
Proof.
  intros Hp. apply txh_map_err. unfold passkey_audit. eapply txh_bind; [apply txh_still, still_newID|]. intros id. cbv beta.
  eapply txh_weaken; [apply txh_insert_audit|done|]. intros [] db (db1 & now & Hdb & ->). by apply Hp.
Qed.

(** A new passkey: only its owner's codes may be too few, and only if it is the
    first. *)
Lemma added_passkey db id row :
  recoverable db -> db_passkeys db !! id = None ->
  let db' := t_set passkeys (<[id := row]> (db_passkeys db)) db in
  recoverable_but (pk_UserID row) db' /\ (count (pk_of (pk_UserID row)) (db_passkeys db) <> 0 -> recoverable db').
Proof.
  intros Hr Hk db'. split.
  - intros k p Hp Hu. change (<[id := row]> (db_passkeys db) !! k = Some p) in Hp.
    apply lookup_insert_Some in Hp as [[<- <-]|[_ Hp]]; [done|]. exact (Hr _ _ Hp).
  - intros Hn k p Hp. change (<[id := row]> (db_passkeys db) !! k = Some p) in Hp.
    apply lookup_insert_Some in Hp as [[<- <-]|[_ Hp]]; [|exact (Hr _ _ Hp)].
    destruct (row_exists (pk_of (pk_UserID row)) (db_passkeys db)) eqn:E.
    + apply row_exists_true in E as (k & q & Hq & Eu%streq_true). rewrite <- Eu. exact (Hr _ _ Hq).
    + rewrite count_zero in Hn by (by apply row_exists_false). done.
Qed.

Lemma keeps_CreatePasskeyCredential userID name ip credential hashes :
  keeps recoverable (CreatePasskeyCredential aead userID name ip credential hashes).
Proof.
  unfold CreatePasskeyCredential. destruct (streq _ ""); [apply keeps_throw|]. apply (keeps_ends _ _ (fun _ _ => True)). intros db0 Hi.
  eapply ends_bind; [apply txh_select_one|]. intros u. eapply ends_bind; [apply txh_count|]. intros n. cbv beta.
  eapply ends_bind; [apply txh_still, still_newID|]. intros id. cbv beta.
  eapply ends_bind; [apply txh_still, still_encode|]. intros data. cbv beta.
  eapply ends_bind; [apply txh_still, still_sql_now|]. intros now. cbv beta.
  eapply (ends_bind _ _ _ _ (fun _ db => recoverable_but userID db /\ (n <> 0 -> recoverable db))).
  { eapply txh_weaken; [apply (txh_insert passkeys)|intros ? Hp; exact Hp|]. intros [] db' (db & [[-> _] Hn] & Hk & _ & ->).
    destruct (added_passkey db0 id (mkPasskey id userID (cred_ID credential) data name now None) Hi Hk) as [Hbut Hall].
    split; [exact Hbut|]. intros Hz. apply Hall. rewrite Hn in Hz. exact Hz. }
  intros []. eapply (ends_bind _ _ _ _ (fun _ => recoverable)).
  { destruct (n =? 0) eqn:En; bool_facts.
    - eapply txh_weaken; [apply txh_install_codes| |done]. by intros db [].
    - eapply txh_weaken; [apply (txh_ret (fun db => recoverable_but userID db /\ (n <> 0 -> recoverable db)))|done|].
      intros [] db [_ [_ Hr]]. by apply Hr. }
  intros []. eapply ends_bind; [by apply txh_passkey_audit|]. intros [].
  by eapply ends_weaken; [apply ends_commit_ret|..].
Qed.

(** Passkeys that are only updated or removed. *)
Lemma recoverable_update P data now db :
  recoverable db -> recoverable (t_set passkeys (update_rows P (pk_used data now) (db_passkeys db)) db).
Proof.
  intros Hr k p Hk. change (update_rows P (pk_used data now) (db_passkeys db) !! k = Some p) in Hk.
  rewrite lookup_update_rows in Hk. destruct (db_passkeys db !! k) as [q|] eqn:Eq; [|done]. injection Hk as <-.
  replace (pk_UserID (if P q then _ else q)) with (pk_UserID q) by (by destruct (P q)). exact (Hr _ _ Eq).
Qed.
Lemma recoverable_delete P db : recoverable db -> recoverable (t_set passkeys (delete_rows P (db_passkeys db)) db).
Proof. intros Hr k p [Hk _]%lookup_delete_rows. exact (Hr _ _ Hk). Qed.

Lemma keeps_passkey_audit I entityID action actorID actorType ip changes :
  (forall m db, I db -> I (t_set audit_logs m db)) -> keeps I (passkey_audit entityID action actorID actorType ip changes).
Proof. intros Hi. unfold passkey_audit, insert_audit. keeps_go. apply keeps_insert_ignored. by intros ??; apply Hi. Qed.

Lemma keeps_UpdatePasskeyCredential userID ip credential :
  keeps recoverable (UpdatePasskeyCredentialWithAudit aead userID ip credential).
Proof.
  unfold UpdatePasskeyCredentialWithAudit. destruct (streq _ ""); [apply keeps_throw|]. apply keeps_with_tx.
  apply keeps_bind; [apply keeps_select_one|]. intros row. apply keeps_bind; [apply keeps_still, still_encode|]. intros data.
  apply keeps_bind; [apply keeps_time_Now|]. intros now. apply keeps_bind.
  { apply keeps_stmt. intros db a db' Hr [= _ <-]. by apply recoverable_update. }
  intros n. unfold must_affect. keeps_go. by apply keeps_passkey_audit.
Qed.

Lemma keeps_DeletePasskeyCredential userID id ip : keeps recoverable (DeletePasskeyCredentialWithAudit userID id ip).
Proof.
  unfold DeletePasskeyCredentialWithAudit, RunAuditedMutation, insert_audit, must_affect. apply keeps_bind; [apply keeps_fresh_id|].
  intros aid. apply keeps_with_tx. keeps_go. apply keeps_stmt. intros db n' db' Hr [= _ <-]. by apply recoverable_delete.
Qed.
End recoverable.

(** ** Recovery *)

Section recovery.
Context `{UUIDs}.

(** What a recovery does to the tables. *)
Definition reset (userID : string) (now : Time) (db : DB) : DB :=
  let db := t_set passkeys (delete_rows (pk_of userID) (db_passkeys db)) db in
  let db := t_set recovery_codes (delete_rows (rc_of userID) (db_recovery_codes db)) db in
  t_set users (update_rows (is_user userID) (user_revoke now) (db_users db)) db.

Definition recovery_log (userID ip : string) : AuditLog :=
  mkAuditLog "" "passkey" userID "recovered" userID "recovery_code"
    {["all_passkeys_revoked" := AnyBool true; "all_sessions_revoked" := AnyBool true]} ip 0.

(** What the triggers record of it. *)
Definition reset_mutations (userID : string) (db : DB) : list (string * string * string) :=
  mutations "passkey_credentials" "delete" (ids_of passkeys pk_ID (pk_of userID) db) ++
  mutations "users" "update" (ids_of users user_ID (is_user userID) db).

(** A stored, unused code of the user, who is one row, was spent on it. *)
Definition recovered (userID hash ip : string) (db db' : DB) : Prop :=
  (exists k c, db_recovery_codes db !! k = Some c /\ usable_code userID hash c = true) /\
  count (is_user userID) (db_users db) = 1 /\
  exists id at_ now outbox, enqueued (reset_mutations userID db) (db_audit_outbox db) outbox /\
    db' = add_audit id at_ (recovery_log userID ip) (t_set audit_outbox outbox (reset userID now db)).

(** The passkeys are gone, and the outbox says so. *)
Definition deleted (userID hash : string) (db0 db : DB) : Prop :=
  (exists k c, db_recovery_codes db0 !! k = Some c /\ usable_code userID hash c = true) /\
  exists m, enqueued (mutations "passkey_credentials" "delete" (ids_of passkeys pk_ID (pk_of userID) db0)) (db_audit_outbox db0) m /\
    db = t_set audit_outbox m (t_set passkeys (delete_rows (pk_of userID) (db_passkeys db0)) db0).

Lemma keeps_RecoverPasskeys_of (I : DB -> Prop) userID hash ip :
  (forall db db', I db -> recovered userID hash ip db db' -> I db') -> keeps I (RecoverPasskeys userID hash ip) /\
  forall w, w_tx w = None -> let '(r, w') := RecoverPasskeys userID hash ip w in
    (exists e, r = Err e) /\ w_db w' = w_db w \/ recovered userID hash ip (w_db w) (w_db w').
Proof.
  intros Hi.
  assert (forall db0 (J : DB -> Prop), (forall db, recovered userID hash ip db0 db -> J db) ->
    ends J (fun db => db = db0) (
      sql_select_one recovery_codes (usable_code userID hash) ;;
      delete_triggered passkeys "passkey_credentials" pk_ID (pk_of userID) ;;
      sql_delete recovery_codes (rc_of userID) ;;
      now ← sql_now;
      n ← update_triggered users "users" user_ID (is_user userID) (user_revoke now);
      must_affect n (fun n => n =? 1) ErrNoRows ;;
      map_err (ErrWrap "write recovery audit") (passkey_audit userID "recovered" userID "recovery_code" ip
        {["all_passkeys_revoked" := AnyBool true; "all_sessions_revoked" := AnyBool true]}) ;;
      commit_tx) (fun _ => recovered userID hash ip db0)) as Hb.
  { intros db0 J Hj. eapply ends_bind; [apply txh_select_one|]. intros c.
    eapply (ends_bind _ _ _ _ (fun _ db => deleted userID hash db0 db)).
    { apply txh_with_trigger. intros db n db1 m [-> Hc] [= _ <-] Hm. split; [destruct Hc as (k & Hc); by exists k, c|]. by exists m. }
    intros n1. cbv beta. eapply ends_bind; [apply txh_delete|]. intros n2. cbv beta.
    eapply ends_bind; [apply txh_still, still_sql_now|]. intros now. cbv beta.
    eapply (ends_bind _ _ _ _ (fun n db => n = count (is_user userID) (db_users db0) /\
      (exists k c, db_recovery_codes db0 !! k = Some c /\ usable_code userID hash c = true) /\
      exists outbox, enqueued (reset_mutations userID db0) (db_audit_outbox db0) outbox /\
        db = t_set audit_outbox outbox (reset userID now db0))).
    { apply txh_with_trigger. intros db n db1 m (db2 & [Hc (m1 & Hm1 & ->)] & _ & ->) [= <- <-] Hm.
      split; [done|]. split; [exact Hc|]. exists m. split; [|done]. by eapply enqueued_app. }
    intros n. cbv beta. eapply ends_bind; [apply txh_must_affect|]. intros []. cbv beta.
    eapply (ends_bind _ _ _ _ (fun _ => recovered userID hash ip db0)); [|intros []; by apply ends_commit].
    apply txh_map_err. unfold passkey_audit. eapply txh_bind; [apply txh_still, still_newID|]. intros id. cbv beta.
    eapply txh_weaken; [apply txh_insert_audit|intros ? Hp; exact Hp|].
    intros [] db' (db1 & at_ & [(Hcount & Hc & outbox & Hout & ->) Hn] & ->).
    split; [exact Hc|]. apply Z.eqb_eq in Hn. split; [congruence|]. by exists id, at_, now, outbox. }
  split.
  - apply (keeps_ends _ _ (fun _ _ => True)). intros db0 Hi0.
    eapply ends_weaken; [apply (Hb db0 I)|done|done]. intros db. by apply Hi.
  - intros w Hw. apply (with_tx_atomic (recovered userID hash ip)); [done|]. intros db0. apply Hb. by right.
Qed.

(** Nothing of the user's is left of what a recovery removes. *)
Lemma recovered_gone userID hash ip db db' :
  recovered userID hash ip db db' ->
  (forall k p, db_passkeys db' !! k = Some p -> db_passkeys db !! k = Some p /\ pk_UserID p <> userID) /\
  (forall k c, db_recovery_codes db' !! k = Some c -> db_recovery_codes db !! k = Some c /\ rc_UserID c <> userID) /\
  (forall u, u <> userID -> codes_of u db' = codes_of u db).
Proof.
  intros (_ & _ & id & at_ & now & outbox & _ & ->). split_and!.
  - intros k p Hk. change (delete_rows (pk_of userID) (db_passkeys db) !! k = Some p) in Hk.
    apply lookup_delete_rows in Hk as [Hk Hp%streq_false]. done.
  - intros k c Hk. change (delete_rows (rc_of userID) (db_recovery_codes db) !! k = Some c) in Hk.
    apply lookup_delete_rows in Hk as [Hk Hp%streq_false]. done.
  - intros u Hu. unfold codes_of. change (count (unused_of u) (delete_rows (rc_of userID) (db_recovery_codes db)) = count (unused_of u) (db_recovery_codes db)).
    apply count_delete_out. unfold unused_of, rc_of. intros r [Hr%streq_true _]%andb_prop. apply streq_false. congruence.
Qed.

Lemma keeps_RecoverPasskeys userID hash ip : keeps recoverable (RecoverPasskeys userID hash ip).
Proof.
  apply keeps_RecoverPasskeys_of. intros db db' Hr Hrec%recovered_gone k p Hk.
  destruct Hrec as (Hp & _ & Hc). apply Hp in Hk as [Hk Hne]. rewrite Hc by done. by eapply Hr.
Qed.
End recovery.

(** ** The requests *)

Definition is_recovery (r : PasskeyRoute) : bool := match r with RPasskeyRecover _ => true | _ => false end.

Section routes.
Context `{UUIDs} `{GCM} `{WebAuthn} (jwt_sign : string -> Claims -> option string)
  (jwt_parse : string -> string -> Time -> option Claims) (h : AuthHandler).

(** An invariant of the tables of passkeys, that each operation on them keeps. *)
Section invariant.
Context (I : DB -> Prop).
Hypothesis ceremonies_ignored : ignores_table I webauthn_sessions.
Hypothesis tokens_ignored : ignores_table I refresh_tokens.
Hypothesis audit_ignored : ignores_table I audit_logs.
Hypothesis create_keeps : forall userID name ip c hashes, keeps I (CreatePasskeyCredential (ah_aead h) userID name ip c hashes).
Hypothesis update_keeps : forall userID ip c, keeps I (UpdatePasskeyCredentialWithAudit (ah_aead h) userID ip c).
Hypothesis delete_keeps : forall userID id ip, keeps I (DeletePasskeyCredentialWithAudit userID id ip).

Lemma keeps_or_answer {A} (m : M goerr A) no k : keeps I m -> (forall a, keeps I (k a)) -> keeps I (or_answer m no k).
Proof. intros Hm Hk. unfold or_answer. apply keeps_bind; [by apply keeps_attempt|]. intros [a|e]; [apply Hk|apply keeps_ret]. Qed.
Lemma keeps_or_none {A} (o : option A) no k : (forall a, keeps I (k a)) -> keeps I (or_none o no k).
Proof. intros Hk. destruct o; [apply Hk|apply keeps_ret]. Qed.
Lemma keeps_currentAdmin cx k : (forall uid, keeps I (k uid)) -> keeps I (currentAdminUserID cx k).
Proof. intros Hk. unfold currentAdminUserID. cbv zeta. destruct (_ || _); [apply keeps_ret|apply Hk]. Qed.
Lemma keeps_finish_request req k : (forall r, keeps I (k r)) -> keeps I (finish_request req k).
Proof. intros Hk. unfold finish_request. destruct req; [|apply keeps_ret]. destruct (_ || _); [apply keeps_ret|apply Hk]. Qed.

Lemma keeps_wa_call {A} name userID (answer : nat -> A) : keeps I (wa_call name userID answer).
Proof. apply keeps_still, still_wa_call. Qed.
Lemma keeps_ListPasskeys userID : keeps I (ListPasskeyCredentials (ah_aead h) userID).
Proof.
  unfold ListPasskeyCredentials. apply keeps_bind; [apply keeps_read; by intros db l db' [= _ <-]|]. intros l.
  destruct (decode_all _ l); [apply keeps_ret|apply keeps_throw].
Qed.
Lemma keeps_loadPasskeyUser userID : keeps I (loadPasskeyUser h userID).
Proof.
  unfold loadPasskeyUser. apply keeps_bind; [apply keeps_select_one|]. intros u.
  apply keeps_bind; [apply keeps_ListPasskeys|]. intros l. apply keeps_ret.
Qed.
Lemma keeps_savePasskeyCeremony userID purpose session : keeps I (savePasskeyCeremony userID purpose session).
Proof.
  unfold savePasskeyCeremony, randomHex, SaveWebAuthnSession. keeps_go. by apply keeps_insert_ignored.
Qed.
Lemma keeps_close_ceremony uid purpose req k :
  (forall session user credentials, keeps I (k session user credentials)) -> keeps I (close_ceremony h uid purpose req k).
Proof.
  intros Hk. unfold close_ceremony. apply keeps_or_answer.
  - unfold ConsumeWebAuthnSession. apply keeps_bind; [apply keeps_sql_now|]. intros now. apply keeps_stmt.
    intros db a db' Hi. destruct (first_row _); [|done]. intros [= _ <-]. by apply ceremonies_ignored.
  - intros json. apply keeps_or_none. intros session. apply keeps_or_answer; [apply keeps_loadPasskeyUser|]. intros [user creds]. apply Hk.
Qed.
Lemma keeps_issueSession secret user method : keeps I (issueSession jwt_sign secret user method).
Proof.
  unfold issueSession, IssueJWTWithSession, randomHex, CreateRefreshToken. keeps_go. by apply keeps_insert_ignored.
Qed.
Lemma keeps_audit log : keeps (E := goerr) I (Audit log).
Proof.
  unfold Audit, insert_audit. apply keeps_bind; [apply keeps_fresh_id|]. intros id. keeps_go. by apply keeps_insert_ignored.
Qed.

Lemma keeps_RegisterBegin cx : keeps I (PasskeyRegisterBegin h cx).
Proof.
  unfold PasskeyRegisterBegin. apply keeps_currentAdmin. intros uid. destruct (negb _); [apply keeps_ret|].
  apply keeps_or_answer; [apply keeps_count|]. intros n. destruct (_ && _); [apply keeps_ret|].
  apply keeps_or_answer; [apply keeps_loadPasskeyUser|]. intros [user creds].
  apply keeps_bind; [apply keeps_wa_call|]. intros b. apply keeps_or_none. intros [creation session].
  apply keeps_or_answer; [apply keeps_savePasskeyCeremony|]. intros id. apply keeps_ret.
Qed.

Lemma keeps_RegisterFinish cx req : keeps I (PasskeyRegisterFinish jwt_sign h cx req).
Proof.
  unfold PasskeyRegisterFinish. apply keeps_currentAdmin. intros uid. apply keeps_finish_request. intros r.
  apply keeps_or_none. intros name. apply keeps_close_ceremony. intros session user creds.
  apply keeps_bind; [apply keeps_wa_call|]. intros c. apply keeps_or_none. intros credential.
  apply keeps_bind; [apply keeps_still, still_generate_codes|]. intros codes.
  apply keeps_or_answer; [apply create_keeps|]. intros installed. apply keeps_or_answer; [apply keeps_issueSession|].
  intros cookies. apply keeps_ret.
Qed.

Lemma keeps_AssertionBegin cx : keeps I (PasskeyAssertionBegin h cx).
Proof.
  unfold PasskeyAssertionBegin. apply keeps_currentAdmin. intros uid. destruct (negb _); [apply keeps_ret|].
  apply keeps_or_answer; [apply keeps_loadPasskeyUser|]. intros [user [|c creds]]; [apply keeps_ret|].
  apply keeps_bind; [apply keeps_wa_call|]. intros b. apply keeps_or_none. intros [assertion session].
  apply keeps_or_answer; [apply keeps_savePasskeyCeremony|]. intros id. apply keeps_ret.
Qed.

Lemma keeps_AssertionFinish cx req : keeps I (PasskeyAssertionFinish jwt_sign h cx req).
Proof.
  unfold PasskeyAssertionFinish. apply keeps_currentAdmin. intros uid. apply keeps_finish_request. intros r.
  apply keeps_close_ceremony. intros session user creds. apply keeps_bind; [apply keeps_wa_call|]. intros c.
  apply keeps_or_none. intros credential. apply keeps_or_answer; [apply update_keeps|]. intros [].
  apply keeps_or_answer; [apply keeps_issueSession|]. intros cookies. apply keeps_bind; [apply keeps_audit|]. intros. apply keeps_ret.
Qed.

Lemma keeps_session_context cred : keeps (E := goerr) I (session_context jwt_parse (ah_JWTSecret h) cred).
Proof. unfold session_context, sessionAuth, FindUserSessionState, FindUserByID. keeps_go. Qed.

(** Every request but a recovery, for which that is to be shown. *)
Lemma keeps_passkey_route cred r :
  (forall req, r = RPasskeyRecover req -> keeps I (PasskeyRecover jwt_sign h (cr_IP cred) req)) ->
  keeps I (passkey_route jwt_sign jwt_parse h cred r).
Proof.
  intros Hrec. unfold passkey_route.
  assert (forall k : Context_ -> M goerr PasskeyAnswer, (forall cx, keeps I (k cx)) ->
    keeps I (c ← session_context jwt_parse (ah_JWTSecret h) cred;
             match c with inr (status, code) => mret (Refused status code "") | inl cx => k cx end)) as Hs.
  { intros k Hk. apply keeps_bind; [apply keeps_session_context|]. intros [cx|[]]; [apply Hk|apply keeps_ret]. }
  destruct r; cbv zeta; [apply Hs..|by apply Hrec]; intros cx.
  - apply keeps_RegisterBegin.
  - apply keeps_RegisterFinish.
  - apply keeps_AssertionBegin.
  - apply keeps_AssertionFinish.
  - unfold PasskeyList. apply keeps_currentAdmin. intros uid. apply keeps_or_answer; [apply keeps_ListPasskeys|]. intros. apply keeps_ret.
  - unfold PasskeyDelete. apply keeps_currentAdmin. intros uid. destruct (negb _); [apply keeps_ret|].
    apply keeps_bind; [apply keeps_attempt, delete_keeps|]. intros. apply keeps_ret.
Qed.

Lemma keeps_PasskeyRecover ip req :
  (forall userID hash, keeps I (RecoverPasskeys userID hash ip)) -> keeps I (PasskeyRecover jwt_sign h ip req).
Proof.
  intros Hr. unfold PasskeyRecover. destruct req as [[email code]|]; [|apply keeps_ret]. destruct (_ || _); [apply keeps_ret|].
  apply keeps_or_answer; [apply keeps_select_one|]. intros user. destruct (negb _); [apply keeps_ret|]. cbv zeta.
  apply keeps_or_answer; [apply Hr|]. intros []. apply keeps_or_answer; [apply keeps_select_one|]. intros u.
  apply keeps_or_answer; [apply keeps_issueSession|]. intros. apply keeps_ret.
Qed.
End invariant.

(** The requests of any number of callers, one after the other. *)
Definition passkey_requests (qs : list (Credential * PasskeyRoute)) : M Empty_set unit :=
  for_each qs (fun '(cred, r) => ignore (passkey_route jwt_sign jwt_parse h cred r)).

(** C23. Recovery_possible: whatever requests are served, recoveries among them, and
    whichever statements fail, every user who has a passkey has at least eight
    unused recovery codes. *)
Theorem passkeys_stay_recoverable qs w :
  w_tx w = None -> recoverable (w_db w) -> recoverable (w_db (snd (passkey_requests qs w))).
Proof.
  intros Hw Hi.
  assert (keeps recoverable (passkey_requests qs)) as Hk; [|apply (Hk w); by apply safe_closed].
  apply keeps_for_each. intros [cred r] _. apply keeps_ignore, keeps_passkey_route; try by intros ??.
  - intros. apply keeps_CreatePasskeyCredential.
  - intros. apply keeps_UpdatePasskeyCredential.
  - intros. apply keeps_DeletePasskeyCredential.
  - intros req _. apply keeps_PasskeyRecover; [by intros ??|]. intros. apply keeps_RecoverPasskeys.
Qed.
End routes.

(** ** The last passkey *)

Definition has_passkey (userID : string) (db : DB) : Prop := 1 <= count (pk_of userID) (db_passkeys db).

Section last.
Context `{UUIDs} `{GCM} `{WebAuthn} (u : string).

Lemma keeps_install_codes I userID hashes : ignores_table I recovery_codes -> keeps I (install_codes userID hashes).
Proof.
  intros Hi. unfold install_codes. destruct (_ <? 8); [apply keeps_throw|]. apply keeps_bind; [by apply keeps_delete_ignored|].
  intros _. induction hashes as [|hash hashes IH]; simpl; [apply keeps_ret|].
  apply keeps_bind; [apply keeps_newID|]. intros id. apply keeps_bind; [apply keeps_sql_now|]. intros now.
  apply keeps_bind; [by apply keeps_insert_ignored|]. intros _. apply IH.
Qed.

Lemma has_CreatePasskeyCredential aead userID name ip c hashes :
  keeps (has_passkey u) (CreatePasskeyCredential aead userID name ip c hashes).
Proof.
  unfold CreatePasskeyCredential. destruct (streq _ ""); [apply keeps_throw|]. apply keeps_with_tx.
  apply keeps_bind; [apply keeps_select_one|]. intros usr. apply keeps_bind; [apply keeps_count|]. intros n.
  apply keeps_bind; [apply keeps_newID|]. intros id. apply keeps_bind; [apply keeps_still, still_encode|]. intros data.
  apply keeps_bind; [apply keeps_sql_now|]. intros now. apply keeps_bind.
  { apply keeps_stmt. intros db a db' Hh (Hk & _ & _ & ->)%insert_row_Ok. unfold has_passkey in *.
    change (1 <= count (pk_of u) (<[id := mkPasskey id userID (cred_ID c) data name now None]> (db_passkeys db))).
    rewrite count_insert_fresh by exact Hk. pose proof (b2z_nonneg (pk_of u (mkPasskey id userID (cred_ID c) data name now None))). lia. }
  intros []. apply keeps_bind; [destruct (n =? 0); [apply keeps_install_codes; by intros ??|apply keeps_ret]|]. intros [].
  apply keeps_bind; [apply keeps_map_err, keeps_passkey_audit; by intros|]. intros []. keeps_go.
Qed.

Lemma has_UpdatePasskeyCredential aead userID ip c :
  keeps (has_passkey u) (UpdatePasskeyCredentialWithAudit aead userID ip c).
Proof.
  unfold UpdatePasskeyCredentialWithAudit. destruct (streq _ ""); [apply keeps_throw|]. apply keeps_with_tx.
  apply keeps_bind; [apply keeps_select_one|]. intros row. apply keeps_bind; [apply keeps_still, still_encode|]. intros data.
  apply keeps_bind; [apply keeps_time_Now|]. intros now. apply keeps_bind.
  { apply keeps_stmt. intros db n db' Hh [= _ <-]. unfold has_passkey in *.
    cbn [db_passkeys]. by rewrite count_update_same. }
  intros n. unfold must_affect. keeps_go. apply keeps_passkey_audit. by intros.
Qed.

(** The rows counted before are those the DELETE runs on, and it takes one. *)
Lemma has_DeletePasskeyCredential userID id ip : keeps (has_passkey u) (DeletePasskeyCredentialWithAudit userID id ip).
Proof.
  unfold DeletePasskeyCredentialWithAudit, RunAuditedMutation. apply keeps_bind; [apply keeps_fresh_id|]. intros aid.
  apply (keeps_ends _ _ (fun _ _ => True)). intros db0 Hi. apply (ends_weaken _ (fun db => db = db0) _ _ (fun _ => has_passkey u)); [|done|done].
  apply (ends_audited _ _ _ _ (has_passkey u) (has_passkey u)); [|by intros|by intros].
  eapply txh_bind; [apply txh_select_one|]. intros usr. eapply txh_bind; [apply txh_count|]. intros n. cbv beta.
  destruct (n <=? 1) eqn:En; [apply txh_throw|]. eapply txh_bind; [apply txh_delete|]. intros m. cbv beta.
  eapply txh_weaken; [apply txh_must_affect|intros ? Hp; exact Hp|].
  intros [] db' [(db & [[-> _] Hn] & Hm & ->) Hone%Z.eqb_eq]. change (t_get passkeys db0) with (db_passkeys db0) in *.
  unfold has_passkey in *.
  match goal with |- 1 <= count _ (db_passkeys (t_set passkeys ?m _)) => change (1 <= count (pk_of u) m) end.
  set (Q := fun p => streq (pk_ID p) id && pk_of userID p) in *. pose proof (count_split (pk_of u) Q (db_passkeys db0)) as Hs.
  destruct (streq u userID) eqn:E.
  - apply streq_true in E as ->. assert (count (fun p => pk_of userID p && Q p) (db_passkeys db0) <= count Q (db_passkeys db0)) as Hle.
    { apply count_mono. by intros k r _ [_ Hq]%andb_prop. }
    bool_facts. lia.
  - apply streq_false in E. rewrite count_delete_out; [exact Hi|]. unfold Q, pk_of. intros p Hp%streq_true. rewrite Hp.
    apply andb_false_iff. right. by apply streq_false.
Qed.
End last.

(** Last_passkey_kept: no request but a recovery, and no failure, takes the last
    passkey from a user who has one. *)
Theorem last_passkey_kept `{UUIDs} `{GCM} `{WebAuthn} jwt_sign jwt_parse h qs userID w :
  Forall (fun q => is_recovery q.2 = false) qs -> w_tx w = None -> has_passkey userID (w_db w) ->
  has_passkey userID (w_db (snd (passkey_requests jwt_sign jwt_parse h qs w))).
Proof.
  intros Hqs Hw Hi.
  assert (keeps (has_passkey userID) (passkey_requests jwt_sign jwt_parse h qs)) as Hk; [|apply (Hk w); by apply safe_closed].
  apply keeps_for_each. intros [cred r] Hin. rewrite Forall_forall in Hqs. specialize (Hqs _ Hin). simpl in Hqs.
  apply keeps_ignore, keeps_passkey_route; try by intros ??.
  - intros. apply has_CreatePasskeyCredential.
  - intros. apply has_UpdatePasskeyCredential.
  - intros. apply has_DeletePasskeyCredential.
  - by intros req ->.
Qed.

(** C22. Recovery_resets: a recovery either changes nothing and reports an error, or
    spent a stored, unused code of the user: the passkeys and the codes of the
    user are gone, the session version is one more, an audit row says so, the
    outbox has a new row for each passkey deleted and one for the user, as the
    triggers write them, and nothing else changed. *)
Theorem recovery_resets `{UUIDs} userID hash ip w :
  w_tx w = None ->
  let '(r, w') := RecoverPasskeys userID hash ip w in
  (exists e, r = Err e) /\ w_db w' = w_db w \/ recovered userID hash ip (w_db w) (w_db w').
Proof. apply (keeps_RecoverPasskeys_of (fun _ => True)). done. Qed.

(** ** Assertions *)

Section assertion.
Context `{UUIDs} `{GCM} `{WebAuthn} (jwt_sign : string -> Claims -> option string) (h : AuthHandler).

Lemma or_answer_inv {A} (m : M goerr A) no k x w w' :
  or_answer m no k w = (Ok x, w') -> x <> no -> exists a w1, m w = (Ok a, w1) /\ k a w1 = (Ok x, w').
Proof.
  unfold or_answer. intros Hr Hx. apply bind_Ok in Hr as ([a|e] & w1 & Ha & Hr).
  - apply (proj1 (attempt_Ok _ _ _ _)) in Ha. by exists a, w1.
  - by apply mret_Ok in Hr as [-> _].
Qed.
Lemma or_none_inv {A} (o : option A) no k x w w' :
  or_none o no k w = (Ok x, w') -> x <> no -> exists a, o = Some a /\ k a w = (Ok x, w').
Proof. destruct o as [a|]; simpl; [by exists a|]. intros Hr Hx. by apply mret_Ok in Hr as [-> _]. Qed.

Lemma currentAdmin_inv cx k x w w' :
  currentAdminUserID cx k w = (Ok x, w') -> (forall m, x <> Refused 403 "FORBIDDEN" m) ->
  exists uid, cx_user_id cx = Some uid /\ uid <> "" /\ cx_is_admin cx = Some true /\ k uid w = (Ok x, w').
Proof.
  unfold currentAdminUserID. cbv zeta. intros Hr Hx. destruct (_ || _) eqn:E; [apply mret_Ok in Hr as [<- _]; by destruct (Hx "admin required")|].
  apply orb_false_iff in E as [Eu Ea]. destruct (cx_user_id cx) as [uid|]; [|done]. exists uid. simpl in *.
  apply streq_false in Eu. destruct (cx_is_admin cx) as [[]|]; done.
Qed.

Lemma finish_request_inv req k x w w' :
  finish_request req k w = (Ok x, w') -> x <> pk_finish_bad ->
  exists rq, req = Some rq /\ pf_CeremonyID rq <> "" /\ pf_Credential rq <> "" /\ k rq w = (Ok x, w').
Proof.
  unfold finish_request. intros Hr Hx. destruct req as [rq|]; [|by apply mret_Ok in Hr as [<- _]].
  destruct (_ || _) eqn:E; [by apply mret_Ok in Hr as [<- _]|]. apply orb_false_iff in E as [E1%streq_false E2%streq_false].
  by exists rq.
Qed.

(** No ceremony of the digest can be closed from [now] on. *)
Definition closed (digest userID purpose : string) (now : Time) (db : DB) : Prop :=
  forall k s t, db_webauthn_sessions db !! k = Some s -> now <= t -> open_ceremony digest userID purpose t s = false.

Lemma ConsumeWebAuthnSession_Ok digest userID purpose w data w' :
  w_tx w = None -> ConsumeWebAuthnSession digest userID purpose w = (Ok data, w') ->
  exists now k s, w_clock w <= now /\ db_webauthn_sessions (w_db w) !! k = Some s /\
    open_ceremony digest userID purpose now s = true /\ ws_SessionData s = data /\ w_tx w' = None /\
    w_db w' = t_set webauthn_sessions (delete_rows (open_ceremony digest userID purpose now) (db_webauthn_sessions (w_db w))) (w_db w).
Proof.
  intros Hw Hr. unfold ConsumeWebAuthnSession in Hr. apply bind_Ok in Hr as (now & w1 & Hn & Hr).
  unfold sql_now in Hn. rewrite Hw in Hn. unfold time_Now in Hn. destruct (tick w) as [t ds] eqn:Et.
  apply tick_later in Et. injection Hn as <- <-. apply stmt_Ok in Hr as (Hs & Htx & _). simpl in Hs.
  destruct (first_row _) as [s|] eqn:E; [|done]. apply first_row_rows in E as (k & Hk & Ho). injection Hs as Hd Hdb.
  exists t, k, s. split_and!; try done. by rewrite Htx.
Qed.

(** A ceremony that was closed stays closed. *)
Lemma consumed_closed digest userID purpose now db :
  closed digest userID purpose now
    (t_set webauthn_sessions (delete_rows (open_ceremony digest userID purpose now) (db_webauthn_sessions db)) db).
Proof.
  intros k s t Hk Ht. change (delete_rows (open_ceremony digest userID purpose now) (db_webauthn_sessions db) !! k = Some s) in Hk.
  apply lookup_delete_rows in Hk as [_ Hk]. unfold open_ceremony in *.
  apply andb_false_iff in Hk as [->|Hk]; [done|]. apply andb_false_iff. right. apply Z.ltb_ge in Hk. apply Z.ltb_ge. lia.
Qed.

Lemma decode_all_Ok aead l out :
  decode_all aead l = Ok out -> forall c, c ∈ out.*2 -> exists p, p ∈ l /\ decodePasskeyCredential aead p = Ok c.
Proof.
  revert out. induction l as [|p l IH]; simpl; intros out; [intros [= <-] c Hc; by apply elem_of_nil in Hc|].
  destruct (decodePasskeyCredential aead p) as [c0|e] eqn:Ed; [|done]. destruct (decode_all aead l) as [out0|e]; [|done].
  intros [= <-] c. simpl. rewrite elem_of_cons. intros [->|Hc]; [exists p; split; [by left|exact Ed]|].
  destruct (IH _ eq_refl c Hc) as (q & Hq & Hd). exists q. split; [by right|done].
Qed.

Lemma readonly_loadPasskeyUser uid : readonly (loadPasskeyUser h uid).
Proof.
  unfold loadPasskeyUser, FindUserByID, ListPasskeyCredentials. readonly_go. apply readonly_stmt. by intros db l db' [= _ <-].
Qed.

(** The user a ceremony is closed for, with the credentials stored for it. *)
Lemma loadPasskeyUser_Ok uid w user credentials w' :
  loadPasskeyUser h uid w = (Ok (user, credentials), w') ->
  w_db w' = w_db w /\ user_ID user = uid /\
  forall c, c ∈ credentials -> exists k p, db_passkeys (w_db w) !! k = Some p /\ pk_UserID p = uid /\
    decodePasskeyCredential (ah_aead h) p = Ok c.
Proof.
  unfold loadPasskeyUser. intros Hr. apply bind_Ok in Hr as (u & w1 & Hu & Hr). unfold FindUserByID in Hu.
  pose proof (select_one_Ok _ _ _ _ _ Hu) as (ku & _ & Hid). apply select_one_db in Hu as [D1 _].
  apply bind_Ok in Hr as (l & w2 & Hl & Hr). apply mret_Ok in Hr as [[= <- <-] <-].
  unfold ListPasskeyCredentials in Hl. apply bind_Ok in Hl as (rs & w3 & Hs & Hl). apply stmt_Ok in Hs as (Hs & _).
  injection Hs as Hrs D3. destruct (decode_all (ah_aead h) rs) as [out|e] eqn:Ed; [|by apply throw_Ok in Hl].
  apply mret_Ok in Hl as [-> ->]. split; [congruence|]. unfold is_user in Hid. split; [by apply streq_true in Hid|].
  intros c Hc. destruct (decode_all_Ok _ _ _ Ed c Hc) as (p & Hp & Hd). rewrite <- Hrs, sort_by_perm in Hp.
  apply elem_of_rows in Hp as (k & Hk & Hu%streq_true). exists k, p. rewrite <- D1. done.
Qed.

Lemma close_ceremony_inv uid purpose rq k x w w' :
  w_tx w = None -> close_ceremony h uid purpose rq k w = (Ok x, w') -> (forall s c m, x <> Refused s c m) ->
  exists now s session user credentials w1,
    w_clock w <= now /\ (exists i, db_webauthn_sessions (w_db w) !! i = Some s) /\
    open_ceremony (ceremonyDigest (pf_CeremonyID rq)) uid purpose now s = true /\
    unmarshal_session (ws_SessionData s) = Some session /\ user_ID user = uid /\
    (forall c, c ∈ credentials -> exists k p, db_passkeys (w_db w) !! k = Some p /\ pk_UserID p = uid /\
       decodePasskeyCredential (ah_aead h) p = Ok c) /\
    db_passkeys (w_db w1) = db_passkeys (w_db w) /\ closed (ceremonyDigest (pf_CeremonyID rq)) uid purpose now (w_db w1) /\
    w_tx w1 = None /\ k session user credentials w1 = (Ok x, w').
Proof.
  intros Hw Hr Hx. unfold close_ceremony in Hr. apply or_answer_inv in Hr as (data & w1 & Hc & Hr); [|apply Hx].
  apply ConsumeWebAuthnSession_Ok in Hc as (now & i & s & Hnow & Hi & Ho & <- & T1 & D1); [|done].
  apply or_none_inv in Hr as (session & Hun & Hr); [|apply Hx].
  apply or_answer_inv in Hr as ([user credentials] & w2 & Hl & Hr); [|apply Hx].
  destruct (readonly_run _ _ _ _ (readonly_loadPasskeyUser uid) Hl T1) as (_ & T2 & _).
  apply loadPasskeyUser_Ok in Hl as (D2 & Hid & Hcr). exists now, s, session, user, credentials, w2. rewrite D2, D1.
  split_and!; try done; [by exists i| |apply consumed_closed].
  intros c Hc. destruct (Hcr c Hc) as (j & p & Hp & H3). exists j, p. split; [|done]. by rewrite D1 in Hp.
Qed.

(** The stored credential an assertion is recorded on. *)
Lemma UpdatePasskey_Ok userID ip c w u w' :
  UpdatePasskeyCredentialWithAudit (ah_aead h) userID ip c w = (Ok u, w') ->
  exists k p, db_passkeys (w_db w) !! k = Some p /\ pk_UserID p = userID /\ pk_CredentialID p = cred_ID c.
Proof.
  unfold UpdatePasskeyCredentialWithAudit. destruct (streq _ ""); [by intros ?%throw_Ok|]. intros Hr.
  apply with_tx_Ok in Hr as (w1 & wb & Hb & _ & D1 & _). apply bind_Ok in Hb as (row & w2 & Hs & _).
  apply select_one_Ok in Hs as (k & Hk & [Hu%streq_true Hc%streq_true]%andb_prop). exists k, row. by rewrite <- D1.
Qed.

Lemma closed_ignores digest userID purpose now :
  ignores_table (closed digest userID purpose now) passkeys /\ ignores_table (closed digest userID purpose now) audit_logs /\
  ignores_table (closed digest userID purpose now) refresh_tokens.
Proof. by split_and!; intros m db Hc k s t Hk; exact (Hc k s t Hk). Qed.

Lemma closed_Update digest uid purpose now aead userID ip c :
  keeps (closed digest uid purpose now) (UpdatePasskeyCredentialWithAudit aead userID ip c).
Proof.
  destruct (closed_ignores digest uid purpose now) as (Hp & Ha & _).
  unfold UpdatePasskeyCredentialWithAudit. destruct (streq _ ""); [apply keeps_throw|]. apply keeps_with_tx.
  apply keeps_bind; [apply keeps_select_one|]. intros row. apply keeps_bind; [apply keeps_still, still_encode|]. intros data.
  apply keeps_bind; [apply keeps_time_Now|]. intros t. apply keeps_bind; [by apply keeps_update_ignored|].
  intros n. unfold must_affect. keeps_go. by apply keeps_passkey_audit.
Qed.

(** C21. Assertion_sound: a session is stepped up only for a signed-in
    administrator who closes an unexpired login ceremony of their own, with an
    answer the library accepts for that ceremony and the user's stored
    credentials, by a credential stored for the user; and the ceremony cannot
    be closed again. *)
Theorem assertion_sound cx req w cookies w' :
  w_tx w = None -> PasskeyAssertionFinish jwt_sign h cx req w = (Ok (Verified cookies), w') ->
  exists uid rq now s session user credentials credential n,
    cx_user_id cx = Some uid /\ cx_is_admin cx = Some true /\ req = Some rq /\
    (w_clock w <= now /\ exists i, db_webauthn_sessions (w_db w) !! i = Some s) /\
    open_ceremony (ceremonyDigest (pf_CeremonyID rq)) uid "login" now s = true /\
    unmarshal_session (ws_SessionData s) = Some session /\ user_ID user = uid /\
    (forall c, c ∈ credentials -> exists k p, db_passkeys (w_db w) !! k = Some p /\ pk_UserID p = uid /\
       decodePasskeyCredential (ah_aead h) p = Ok c) /\
    wa_FinishLogin n user credentials session (pf_Credential rq) = Some credential /\
    (exists k p, db_passkeys (w_db w) !! k = Some p /\ pk_UserID p = uid /\ pk_CredentialID p = cred_ID credential) /\
    closed (ceremonyDigest (pf_CeremonyID rq)) uid "login" now (w_db w').
Proof.
  intros Hw Hr. unfold PasskeyAssertionFinish in Hr.
  apply currentAdmin_inv in Hr as (uid & Hu & _ & Ha & Hr); [|done].
  apply finish_request_inv in Hr as (rq & -> & _ & _ & Hr); [|done].
  apply close_ceremony_inv in Hr as (now & s & session & user & creds & w1 & Hnow & Hi & Ho & Hun & Hid & Hcr & Dp & Hcl & T1 & Hr); [|done|done].
  assert (safe (closed (ceremonyDigest (pf_CeremonyID rq)) uid "login" now) w1) as Hs by (by apply safe_closed).
  apply bind_Ok in Hr as (o & w2 & Hc & Hr).
  pose proof (keeps_still _ _ (still_wa_call "FinishLogin" uid (fun n => wa_FinishLogin n user creds session (pf_Credential rq))) _ Hs) as Hs2.
  rewrite Hc in Hs2. injection Hc as Ho' <-. simpl in Hs2. clear Hs.
  apply or_none_inv in Hr as (credential & -> & Hr); [|done].
  apply or_answer_inv in Hr as ([] & w3 & Hup & Hr); [|done].
  pose proof (closed_Update (ceremonyDigest (pf_CeremonyID rq)) uid "login" now (ah_aead h) uid (cx_ip cx) credential _ Hs2) as Hs3.
  rewrite Hup in Hs3. simpl in Hs3. apply UpdatePasskey_Ok in Hup. simpl in Hup. rewrite Dp in Hup.
  destruct (closed_ignores (ceremonyDigest (pf_CeremonyID rq)) uid "login" now) as (_ & Hia & Hit).
  apply or_answer_inv in Hr as (ck & w4 & Hj & Hr); [|done].
  pose proof (keeps_issueSession jwt_sign _ Hit (ah_JWTSecret h) user "webauthn" _ Hs3) as Hs4. rewrite Hj in Hs4.
  apply bind_Ok in Hr as ([] & w5 & Hau & Hr). match type of Hau with Audit ?log _ = _ => pose proof (keeps_audit _ Hia log _ Hs4) as Hs5 end.
  simpl in Hs5. rewrite Hau in Hs5.
  apply mret_Ok in Hr as [_ <-]. exists uid, rq, now, s, session, user, creds, credential, (List.length (w_events w1)).
  split_and!; try done. by destruct Hs5.
Qed.

(** A closed ceremony is refused. *)
Lemma closed_refused digest userID purpose now w :
  closed digest userID purpose now (w_db w) -> now <= w_clock w -> w_tx w = None ->
  exists e, fst (ConsumeWebAuthnSession digest userID purpose w) = Err e.
Proof.
  intros Hc Hn Hw. destruct (ConsumeWebAuthnSession digest userID purpose w) as [[d|e] w'] eqn:E; [|by exists e].
  apply ConsumeWebAuthnSession_Ok in E as (t & k & s & Ht & Hk & Ho & _); [|done].
  by rewrite (Hc k s t Hk) in Ho by lia.
Qed.
End assertion.
