(* ===== verification/Team.v ===== *)
(** * The administrators' team ([handler/admin.go], [store/store.go])

    Listing, inviting and removing the administrators of the installation.
    The answers of the settings table and what the request says of its own
    address are arguments. *)

From S2P Require Import Prelude GoStrings Errors Model Crypto World Tables Logic AesGcm Store Sessions Access AdminLicense ReleaseAdmin.
From S2P Require Import Expiry ExpiryProps Confinement AdminScope Demo.
From Stdlib Require Import Ascii String.

#[local] Open Scope string_scope.
#[local] Open Scope Z_scope.

(** [ORDER BY created_at ASC]. *)
Definition ListAdmins : M goerr (list User) := stmt (fun db =>
  Ok (sort_by user_CreatedAt (map_to_list (rows (fun u => admin_role (user_Role u)) (db_users db))).*2, db)).

Inductive TeamAnswer :=
  | TeamMembers (us : list User)
  | TeamUser (u : User)
  | TeamRemoved
  | TeamRefused (status : Z) (code message : string).

Definition team_bad (message : string) : TeamAnswer := TeamRefused 400 "BAD_REQUEST" message.
Definition team_internal : TeamAnswer := TeamRefused 500 "INTERNAL_ERROR" "an internal error occurred".
Definition team_forbidden : TeamAnswer := TeamRefused 403 "FORBIDDEN" "only the owner can manage team members".

(** The address the request came to. *)
Record RequestOrigin := mkOrigin {
  ro_TLS : bool; ro_ForwardedProto : string; ro_Host : string; ro_ForwardedHost : string
}.

Definition adminBaseURL (o : RequestOrigin) : string :=
  let scheme := if ro_TLS o || streq (ro_ForwardedProto o) "https" then "https" else "http" in
  let host := if streq (ro_ForwardedHost o) "" then ro_Host o else ro_ForwardedHost o in
  scheme +:+ "://" +:+ host.

Record InviteRequest := mkInvite { iv_email : string; iv_role : string }.

Inductive TeamRoute :=
  | TeamList
  | TeamInvite (req : option InviteRequest)
  | TeamRemove (id : string).

(** The struct [FindUserByEmail] returns with an error. *)
Definition no_user : User := mkUser "" "" "" "" "" 0 0 0.

Section handlers.
Context `{UUIDs} (mail_ParseAddress : string -> option string).
(** [GetSetting], empty when there is none; [h.Email], and whether it is configured. *)
Context (setting : string -> string) (email : option bool) (origin : RequestOrigin) (cx : Context_).

Definition ListTeamMembers : M goerr TeamAnswer :=
  on_error ListAdmins (fun _ => team_internal) (fun us => mret (TeamMembers us)).

(** The caller, who must be an owner. *)
Definition as_owner (k : User -> M goerr TeamAnswer) : M goerr TeamAnswer :=
  match cx_email cx with
  | None => mret (TeamRefused 401 "UNAUTHORIZED" "unauthorized")
  | Some address =>
      on_error (FindUserByEmail address) (fun _ => team_forbidden) (fun actor =>
      if negb (streq (user_Role actor) RoleOwner) then mret team_forbidden else k actor)
  end.

Definition send_invite (actor : User) (to role : string) : M goerr unit :=
  match email with
  | Some true =>
      let siteName := if streq (setting "site_name") "" then "Keygate" else setting "site_name" in
      let baseURL := if streq (setting "base_url") "" then adminBaseURL origin else setting "base_url" in
      let inviter := if streq (user_Name actor) "" then user_Email actor else user_Name actor in
      emit (EvEmail "admin_invite" to [siteName; inviter; role; TrimRightByte "/" baseURL +:+ "/login"])
  | _ => mret tt
  end.

Definition tell_invited (actor user : User) (to role : string) : M goerr TeamAnswer :=
  Audit (mkAuditLog "" "team" (user_ID user) "member_invited" (adminID cx) "admin"
    {["email" := AnyString to; "role" := AnyString role]} "" 0) ;;
  send_invite actor to role ;;
  mret (TeamUser user).

(** Any error of the lookup is taken for an unknown address. *)
Definition set_member (actor : User) (to role : string) : M goerr TeamAnswer :=
  r ← attempt (FindUserByEmail to);
  match r with
  | Err _ =>
      on_error (CreatePlaceholderUser to role) (fun _ => team_internal) (fun _ =>
      u ← attempt (FindUserByEmail to);
      tell_invited actor (match u with Ok u => u | Err _ => no_user end) to role)
  | Ok user =>
      if streq (user_Role user) role then mret (TeamUser user)
      else
        on_error (SetUserRole (user_ID user) role) (fun _ => team_internal) (fun _ =>
        tell_invited actor (user_set_role role (user_UpdatedAt user) user) to role)
  end.

(** The address and the role asked for, checked; or the refusal. *)
Definition invitation (actor : User) (req : option InviteRequest) : (string * string) + string :=
  match req with
  | None => inr "email is required"
  | Some req =>
      if streq (iv_email req) "" then inr "email is required"
      else
        let to := ToLower (TrimSpace (iv_email req)) in
        match ValidateEmail mail_ParseAddress to with
        | Some e => inr (Message e)
        | None =>
            let role := if streq (iv_role req) "" then RoleAdmin else iv_role req in
            if negb (streq role RoleAdmin) && negb (streq role RoleOwner) then inr "role must be 'admin' or 'owner'"
            else if EqualFold to (user_Email actor) then inr "cannot change your own role via invite"
            else inl (to, role)
        end
  end.

Definition InviteTeamMember (req : option InviteRequest) : M goerr TeamAnswer :=
  as_owner (fun actor =>
    match invitation actor req with
    | inr message => mret (team_bad message)
    | inl (to, role) => set_member actor to role
    end).

Definition demote_error (e : goerr) : TeamAnswer :=
  if goerr_Is e ErrLastOwner then team_bad "cannot remove the last owner" else team_internal.

Definition RemoveTeamMember (targetID : string) : M goerr TeamAnswer :=
  as_owner (fun actor =>
    if streq targetID (user_ID actor) then mret (team_bad "cannot remove yourself from the team")
    else
      on_error (FindUserByID targetID) (fun _ => TeamRefused 404 "NOT_FOUND" "user not found") (fun target =>
      if negb (IsAdmin target) then mret (team_bad "user is not a team member")
      else
        on_error (DemoteOwnerAtomic targetID) demote_error (fun _ =>
        Audit (mkAuditLog "" "team" targetID "member_removed" (adminID cx) "admin"
          {["email" := AnyString (user_Email target); "previous_role" := AnyString (user_Role target)]} "" 0) ;;
        mret TeamRemoved))).

Definition team_route (r : TeamRoute) : M goerr TeamAnswer :=
  match r with
  | TeamList => ListTeamMembers
  | TeamInvite req => InviteTeamMember req
  | TeamRemove id => RemoveTeamMember id
  end.
End handlers.

(** ** An owner is always left *)

(** The owner [a], whose address is [e], is in place. *)
Definition owner_at (a e : string) (db : DB) : Prop :=
  users_keyed db /\ exists u, db_users db !! a = Some u /\ user_Role u = RoleOwner /\ user_Email u = e.

Lemma owner_at_has a e db : owner_at a e db -> has_owner db.
Proof.
  intros (Hk & u & Hu & Hr & _). split; [done|]. pose proof (count_pos is_owner (db_users db) a u Hu) as Hc.
  unfold is_owner in Hc at 1. rewrite Hr, streq_refl in Hc. specialize (Hc eq_refl). lia.
Qed.

Section team.
Context `{UUIDs} (mail_ParseAddress : string -> option string) (setting : string -> string) (email : option bool)
  (origin : RequestOrigin) (cx : Context_).

Lemma team_audit {E} (I : DB -> Prop) log : ignores_table I audit_logs -> keeps (E := E) I (Audit log).
Proof. intros Hi. by apply keeps_audit_log. Qed.

Section owner.
Context (a e : string).
#[local] Abbreviation I := (owner_at a e).

Lemma owner_ignores {K R} `{Countable K} (T : Table K R) :
  (forall m db, db_users (t_set T m db) = db_users db) -> ignores_table I T.
Proof. intros HT m db. unfold owner_at, users_keyed. by rewrite HT. Qed.

Lemma owner_insert k u : user_ID u = k -> forall db, I db -> db_users db !! k = None -> I (t_set users (<[k := u]> (db_users db)) db).
Proof.
  intros Hid db (Hk & x & Hx & Hr & He) Hn. split.
  - intros j y. change (db_users (t_set users ?m db)) with m. intros [[<- <-]|[_ Hy]]%lookup_insert_Some; [done|by apply Hk].
  - exists x. split; [|done]. change (db_users (t_set users ?m db)) with m. rewrite lookup_insert_ne; [done|congruence].
Qed.

Lemma owner_CreatePlaceholder to role : keeps I (CreatePlaceholderUser to role).
Proof.
  unfold CreatePlaceholderUser. apply keeps_bind; [auto with licensehub|]. intros id. apply keeps_bind; [auto with licensehub|]. intros now.
  apply keeps_stmt. intros db u db' Hi. destruct (row_exists _ _); [by intros [= _ <-]|].
  intros (Hn & _ & _ & ->)%insert_row_Ok. by apply owner_insert.
Qed.

Lemma owner_SetUserRole id role : id <> a -> keeps I (SetUserRole id role).
Proof.
  intros Hne. unfold SetUserRole. destruct (_ && _); [auto with licensehub|]. apply keeps_bind; [auto with licensehub|]. intros now.
  apply keeps_bind; [|auto with licensehub]. apply keeps_stmt. intros db n db' (Hk & u & Hu & Hr & He) [= _ <-]. split.
  - intros j y. simpl. rewrite lookup_update_rows. intros (y0 & Hy & ->)%fmap_Some. apply Hk in Hy. by destruct (is_user id y0).
  - exists u. split; [|done]. simpl. rewrite lookup_update_rows, Hu. simpl. unfold is_user.
    rewrite (Hk _ _ Hu), (proj2 (streq_false a id)) by congruence. done.
Qed.

(** A user found under another address is another user. *)
Lemma yields_other to : to <> e -> yields I (FindUserByEmail to) (fun u => user_ID u <> a).
Proof.
  intros Hne. apply yields_read. intros db u db' (Hk & x & Hx & _ & He). destruct (first_row _) as [u0|] eqn:Eu; [|done].
  intros [= <- <-]. split; [done|]. apply first_row_rows in Eu as (k & Hu & Heq%streq_true).
  change (db_users db !! k = Some u0) in Hu. rewrite (Hk _ _ Hu). intros ->. congruence.
Qed.

Lemma owner_tell actor user to role : keeps I (tell_invited setting email origin cx actor user to role).
Proof.
  unfold tell_invited, send_invite. apply keeps_bind; [by apply team_audit, owner_ignores|]. intros []. keeps_go.
Qed.

Lemma owner_set_member actor to role : to <> e -> keeps I (set_member setting email origin cx actor to role).
Proof.
  intros Hne. unfold set_member, on_error. apply (keeps_yields _ _ (fun _ => True)). eapply yields_bind; [by apply yields_attempt, yields_other|].
  intros [u|err] Hu; apply yields_keeps.
  - destruct (streq _ _); [auto with licensehub|]. apply keeps_bind; [by apply keeps_attempt, owner_SetUserRole|].
    intros [x|]; [apply owner_tell|auto with licensehub].
  - apply keeps_bind; [apply keeps_attempt, owner_CreatePlaceholder|]. intros [x|]; [|auto with licensehub].
    apply keeps_bind; [unfold FindUserByEmail; keeps_go|]. intros r. apply owner_tell.
Qed.
End owner.

(** The caller's lookup changes nothing; past it the caller is an owner. *)
Lemma as_owner_run k w :
  w_tx w = None ->
  (exists r w1, as_owner cx k w = (r, w1) /\ w_db w1 = w_db w) \/
  exists actor key w1, as_owner cx k w = k actor w1 /\ w_db w1 = w_db w /\ w_tx w1 = None /\
    db_users (w_db w) !! key = Some actor /\ cx_email cx = Some (user_Email actor) /\ user_Role actor = RoleOwner.
Proof.
  intros Hw. unfold as_owner. destruct (cx_email cx) as [address|]; [|left; by eexists _, _]. unfold on_error, mbind, M_bind, attempt.
  pose proof (readonly_select_one users (fun u => streq (user_Email u) address) w Hw) as (Hd & Ht & _).
  change (sql_select_one users (fun u => streq (user_Email u) address)) with (FindUserByEmail address) in *.
  destruct (FindUserByEmail address w) as [[u|err] w1] eqn:Ef; simpl in Hd, Ht; [|left; by eexists _, _].
  destruct (streq (user_Role u) RoleOwner) eqn:Er; simpl; [|left; by eexists _, _]. apply streq_true in Er.
  apply select_one_Ok in Ef as (key & Hk & Ha%streq_true). right. exists u, key, w1. by subst address.
Qed.

Lemma team_keeps_owner r w :
  w_tx w = None -> has_owner (w_db w) -> has_owner (w_db (snd (team_route mail_ParseAddress setting email origin cx r w))).
Proof.
  intros Hw Ho. destruct r as [|req|id]; simpl.
  - assert (keeps has_owner ListTeamMembers) as Hk; [|by apply (Hk w), safe_closed].
    unfold ListTeamMembers, on_error, ListAdmins. apply keeps_bind; [apply keeps_attempt, keeps_read; by intros ??? [= _ <-]|keeps_go].
  - unfold InviteTeamMember. destruct (as_owner_run (fun actor => match invitation mail_ParseAddress actor req with
      | inr message => mret (team_bad message) | inl (to, role) => set_member setting email origin cx actor to role end) w Hw)
      as [(x & w1 & -> & Hd)|(actor & key & w1 & -> & Hd & Ht & Hu & He & Hr)]; simpl; [by rewrite Hd|].
    destruct (invitation _ _ _) as [[to role]|message] eqn:Ei; simpl; [|by rewrite Hd].
    apply (owner_at_has key (user_Email actor)). apply (owner_set_member key (user_Email actor) actor to role).
    + unfold invitation in Ei. destruct req as [req|]; [|done]. destruct (streq (iv_email req) ""); [done|]. cbv zeta in Ei.
      destruct (ValidateEmail _ _); [done|]. destruct (_ && _); [done|]. destruct (EqualFold _ _) eqn:Eq; [done|].
      injection Ei as <- _. intros Hto. rewrite Hto in Eq. unfold EqualFold in Eq. by rewrite bool_decide_eq_false in Eq.
    + apply safe_closed; [|done]. rewrite Hd. split; [apply Ho|]. by exists actor.
  - unfold RemoveTeamMember. match goal with |- context [as_owner cx ?k w] =>
      destruct (as_owner_run k w Hw) as [(x & w1 & -> & Hd)|(actor & key & w1 & -> & Hd & Ht & Hu & He & Hr)] end; simpl; [by rewrite Hd|].
    destruct (streq id _); [simpl; by rewrite Hd|].
    match goal with |- has_owner (w_db (snd (?m w1))) => assert (keeps has_owner m) as Hk; [|apply (Hk w1), safe_closed; [by rewrite Hd|done]] end.
    unfold on_error, FindUserByID. repeat first [apply keeps_Demote|apply team_audit; by intros ??|keeps_step].
Qed.

(** C19. Team_requests_guarded: whatever fails, a request of the team routes leaves an owner
    when there was one; and when the caller's address is not an owner's, no account
    is created or changed. *)
Theorem team_requests_guarded r w :
  w_tx w = None -> users_keyed (w_db w) ->
  let '(_, w') := team_route mail_ParseAddress setting email origin cx r w in
  (1 <= count is_owner (db_users (w_db w)) -> 1 <= count is_owner (db_users (w_db w'))) /\
  ((forall k u, db_users (w_db w) !! k = Some u -> cx_email cx = Some (user_Email u) -> user_Role u <> RoleOwner) ->
   db_users (w_db w') = db_users (w_db w)).
Proof.
  intros Hw Hk. pose proof (team_keeps_owner r w Hw) as Ho.
  assert ((forall k u, db_users (w_db w) !! k = Some u -> cx_email cx = Some (user_Email u) -> user_Role u <> RoleOwner) ->
    db_users (w_db (snd (team_route mail_ParseAddress setting email origin cx r w))) = db_users (w_db w)) as Hn.
  { intros Hno. destruct r as [|req|id]; simpl; unfold InviteTeamMember, RemoveTeamMember.
    - assert (keeps (fun db => db_users db = db_users (w_db w)) ListTeamMembers) as Hkeep; [|by apply (Hkeep w), safe_closed].
      unfold ListTeamMembers, on_error, ListAdmins. apply keeps_bind; [apply keeps_attempt, keeps_read; by intros ??? [= _ <-]|keeps_go].
    - match goal with |- context [as_owner cx ?k w] =>
        destruct (as_owner_run k w Hw) as [(x & w1 & -> & Hd)|(actor & key & w1 & -> & Hd & Ht & Hu & He & Hr)] end; simpl; [by rewrite Hd|].
      by destruct (Hno _ _ Hu He).
    - match goal with |- context [as_owner cx ?k w] =>
        destruct (as_owner_run k w Hw) as [(x & w1 & -> & Hd)|(actor & key & w1 & -> & Hd & Ht & Hu & He & Hr)] end; simpl; [by rewrite Hd|].
      by destruct (Hno _ _ Hu He). }
  destruct (team_route _ _ _ _ _ _ w) as [ans w']. split; [|exact Hn]. intros Hc. by apply Ho.
Qed.
End team.

(** ** Instances *)

#[local] Existing Instance Demo.uuids.

Module TeamDemo.
Definition member (id role : string) : User := mkUser id (id +:+ "@example.com") id "" role 0 0 0.
Definition db : DB :=
  t_set users {["ann" := member "ann" RoleOwner; "bob" := member "bob" RoleOwner; "cid" := member "cid" RoleUser]} empty_db.
Definition world (faults : list fault) : World := mkWorld db None (1000 * Second) [] faults false 0 [] ∅ [].
Definition session (id : string) : Context_ :=
  mkContext (Some id) (Some (id +:+ "@example.com")) (Some true) "session" "webauthn" None "10.0.0.1".
Definition parse (a : string) : option string := Some a.
Definition setting (key : string) : string := if streq key "base_url" then "https://licences.example.com/" else "".
Definition origin : RequestOrigin := mkOrigin true "" "localhost" "".
Definition request (id : string) : TeamRoute -> M goerr TeamAnswer := team_route parse setting (Some true) origin (session id).
Definition role_of (id : string) (w : World) : option string := user_Role <$> (db_users (w_db w) !! id).
End TeamDemo.

Definition users_keyedb (db : DB) : bool := forallb (fun kv => streq (user_ID kv.2) kv.1) (map_to_list (db_users db)).
Lemma users_keyedb_sound db : users_keyedb db = true -> users_keyed db.
Proof.
  unfold users_keyedb. rewrite forallb_forall. intros Hall k u Hk.
  assert (In (k, u) (map_to_list (db_users db))) as Hin by by apply list_elem_of_In, elem_of_map_to_list.
  by apply Hall, streq_true in Hin.
Qed.

(** An owner makes another an administrator while the connection is lost after
    the update was applied. *)
Lemma team_requests_guarded_witness :
  let '(_, w') := TeamDemo.request "ann" (TeamInvite (Some (mkInvite "Bob@Example.com " "admin"))) (TeamDemo.world [NoFault; NoFault; Lost true]) in
  1 <= count is_owner (db_users (w_db w')).
Proof.
  assert (users_keyed (w_db (TeamDemo.world [NoFault; NoFault; Lost true]))) as Hk by (apply users_keyedb_sound; vm_compute; reflexivity).
  assert (1 <= count is_owner (db_users (w_db (TeamDemo.world [NoFault; NoFault; Lost true])))) as Hc
    by (apply Z.leb_le; vm_compute; reflexivity).
  pose proof (team_requests_guarded TeamDemo.parse TeamDemo.setting (Some true) TeamDemo.origin (TeamDemo.session "ann")
    (TeamInvite (Some (mkInvite "Bob@Example.com " "admin"))) (TeamDemo.world [NoFault; NoFault; Lost true]) eq_refl Hk) as Ht.
  unfold TeamDemo.request. destruct (team_route _ _ _ _ _ _ _) as [ans w']. exact (proj1 Ht Hc).
Defined.

(** What the requests answer and do. *)
Example invite_and_remove :
  (let '(r, w') := TeamDemo.request "ann" (TeamInvite (Some (mkInvite " Cid@Example.com" ""))) (TeamDemo.world []) in
   TeamDemo.role_of "cid" w' = Some RoleAdmin /\
   w_events w' = [EvEmail "admin_invite" "cid@example.com" ["Keygate"; "ann"; "admin"; "https://licences.example.com/login"]]) /\
  fst (TeamDemo.request "ann" (TeamInvite (Some (mkInvite "ANN@example.com" "admin"))) (TeamDemo.world []))
  = Ok (team_bad "cannot change your own role via invite") /\
  fst (TeamDemo.request "cid" (TeamRemove "ann") (TeamDemo.world [])) = Ok team_forbidden /\
  TeamDemo.role_of "bob" (snd (TeamDemo.request "ann" (TeamRemove "bob") (TeamDemo.world []))) = Some RoleUser.
Proof. vm_compute. repeat split. Qed.

(** Crossed_invites: two owners who make each other administrators at the same
    moment, each found to be an owner before the other's role is written, leave
    no owner: an invitation does not take the lock a removal takes. *)
Theorem crossed_invites :
  let act cx other := fun actor => set_member TeamDemo.setting (Some true) TeamDemo.origin cx actor other RoleAdmin in
  let both := as_owner (TeamDemo.session "ann") (fun ann => as_owner (TeamDemo.session "bob") (fun bob =>
    act (TeamDemo.session "ann") "bob@example.com" ann ;; act (TeamDemo.session "bob") "ann@example.com" bob)) in
  count is_owner (db_users (w_db (TeamDemo.world []))) = 2 /\
  count is_owner (db_users (w_db (snd (both (TeamDemo.world []))))) = 0.
Proof. vm_compute. split; reflexivity. Qed.

(** Invite_lookup_lost: a lookup that fails is taken for an unknown address, the
    insertion that follows does nothing, and an invitation without effect is
    answered, recorded and mailed. *)
Theorem invite_lookup_lost :
  let '(r, w') := TeamDemo.request "ann" (TeamInvite (Some (mkInvite "cid@example.com" "admin"))) (TeamDemo.world [NoFault; Lost false]) in
  (exists u, r = Ok (TeamUser u)) /\ TeamDemo.role_of "cid" w' = Some RoleUser /\ size (db_audit_logs (w_db w')) = 1%nat /\
  List.length (w_events w') = 1%nat.
Proof. vm_compute. split_and!; [eexists; reflexivity|reflexivity..]. Qed.
