(* ===== verification/AuditOutbox.v ===== *)
(** * The audit outbox ([store/audit_outbox.go])

    Rows that triggers of the database leave in the outbox are moved to the
    audit log in bounded batches.  Rows another flusher holds a lock on are
    skipped: which ones is an argument.  No row is lost, and the loop ends. *)

From S2P Require Import Prelude GoStrings Errors Model World Tables Logic Usability Store Audited Txn Lookup ExpiryProps Confinement Scoped.
From Stdlib Require Import Ascii String.

#[local] Open Scope string_scope.
#[local] Open Scope Z_scope.

(** ** The store *)

(** [ORDER BY created_at, id]. *)
Definition older_first (r r' : OutboxRow) : bool :=
  (ob_CreatedAt r <? ob_CreatedAt r') || ((ob_CreatedAt r =? ob_CreatedAt r') && String.leb (ob_ID r) (ob_ID r')).

Definition outbox_entry (now : Time) (r : OutboxRow) : AuditLog :=
  mkAuditLog (ob_ID r) (ob_Entity r) (ob_EntityID r) ("db_" +:+ ob_Action r) "" "system"
    {["source" := AnyString "transactional_outbox"]} "" (or_now now (ob_CreatedAt r)).

Definition pending_rows (locked : string -> bool) (limit : Z) (m : gmap string OutboxRow) : list OutboxRow :=
  take (Z.to_nat limit) (sort_le older_first (map_to_list (rows (fun r => negb (locked (ob_ID r))) m)).*2).

(** [INSERT ... ON CONFLICT (id) DO NOTHING]. *)
Definition deliver_row (r : OutboxRow) : M goerr unit :=
  now ← sql_now;
  stmt (fun db => match db_audit_logs db !! ob_ID r with
                  | Some _ => Ok (tt, db)
                  | None => insert_row audit_logs (ob_ID r) (outbox_entry now r) db
                  end).

Definition delete_delivered (l : list OutboxRow) : M goerr unit :=
  match l with
  | [] => mret tt
  | _ => sql_delete audit_outbox (fun r => contains (ob_ID r) (ob_ID <$> l)) ;; mret tt
  end.

(** The statements of a flush before its commit. *)
Definition move_batch (locked : string -> bool) (limit : Z) : M goerr (list OutboxRow) :=
  l ← stmt (fun db => Ok (pending_rows locked limit (db_audit_outbox db), db));
  for_each l deliver_row ;;
  delete_delivered l ;;
  mret l.

Definition FlushAuditOutbox (locked : string -> bool) (limit : Z) : M goerr Z :=
  if (limit <? 1) || (1000 <? limit) then throw (ErrText "audit outbox limit must be between 1 and 1000")
  else with_tx (
    l ← move_batch locked limit;
    commit_tx ;;
    mret (Z.of_nat (List.length l))).

(** The loop of one tick; [false] when the fuel runs out.  [expired] says
    whether the tick's deadline has passed, in which case an error is not
    logged. *)
Fixpoint flush (locked : nat -> string -> bool) (expired : nat -> bool) (fuel : nat) : M goerr bool :=
  match fuel with
  | O => mret false
  | S fuel =>
      r ← attempt (FlushAuditOutbox (locked fuel) 200);
      match r with
      | Err _ => (if expired fuel then mret tt else emit (EvWarn "audit outbox flush failed")) ;; mret true
      | Ok count => if count <? 200 then mret true else flush locked expired fuel
      end
  end.

(** ** Nothing is lost *)

(** Rows of the outbox stay there or reach the audit log under their identifier;
    what is new in the log is the entry of a row that has left the outbox. *)
Definition none_lost (db db' : DB) : Prop :=
  (forall k r, db_audit_outbox db !! k = Some r -> db_audit_outbox db' !! k = Some r \/ is_Some (db_audit_logs db' !! k)) /\
  (forall k l, db_audit_logs db !! k = Some l -> db_audit_logs db' !! k = Some l) /\
  (forall k l, db_audit_logs db' !! k = Some l -> db_audit_logs db !! k = Some l \/
     db_audit_outbox db' !! k = None /\ exists r now, db_audit_outbox db !! k = Some r /\ l = outbox_entry now r) /\
  db_audit_outbox db' ⊆ db_audit_outbox db.

Lemma none_lost_refl db : none_lost db db.
Proof. split_and!; auto. Qed.

Lemma none_lost_trans db1 db2 db3 : none_lost db1 db2 -> none_lost db2 db3 -> none_lost db1 db3.
Proof.
  intros (H1 & H2 & H3 & H4) (K1 & K2 & K3 & K4). split_and!; [|auto| |by etrans].
  - intros k r Hr. destruct (H1 k r Hr) as [Hr2|[l Hl]]; [auto|]. right. exists l. auto.
  - intros k l [Hl|(Hn & r & now & Hr & ->)]%K3.
    + destruct (H3 k l Hl) as [|(Hn & Hr)]; [by left|]. right. split; [|done].
      destruct (db_audit_outbox db3 !! k) as [r|] eqn:E; [|done]. pose proof (lookup_weaken _ _ _ _ E K4). congruence.
    + right. split; [done|]. exists r, now. split; [|done]. by eapply lookup_weaken.
Qed.

(** *** One batch *)

Section batch.
Context (db0 : DB) (Hkeyed : keyed ob_ID (db_audit_outbox db0)).

(** Rows of the outbox, each once. *)
Definition distinct_rows (l : list OutboxRow) : Prop :=
  NoDup (ob_ID <$> l) /\ Forall (fun r => db_audit_outbox db0 !! ob_ID r = Some r) l.

Lemma batch_pending locked limit : distinct_rows (pending_rows locked limit (db_audit_outbox db0)).
Proof.
  set (ls := (map_to_list (rows (fun r => negb (locked (ob_ID r))) (db_audit_outbox db0))).*2).
  assert (Forall (fun r => db_audit_outbox db0 !! ob_ID r = Some r) ls) as Hin.
  { apply Forall_forall. intros r (k & Hk & _)%elem_of_rows. by rewrite (Hkeyed _ _ Hk). }
  assert (NoDup (ob_ID <$> ls)) as Hnd.
  { assert (ob_ID <$> ls = (map_to_list (rows (fun r => negb (locked (ob_ID r))) (db_audit_outbox db0))).*1) as ->; [|apply NoDup_fst_map_to_list].
    unfold ls. rewrite <- list_fmap_compose. apply list_fmap_ext. intros i [k r] Hi%list_elem_of_lookup_2. simpl.
    apply elem_of_map_to_list, lookup_rows in Hi as [Hi _]. by apply Hkeyed. }
  unfold pending_rows. fold ls. rewrite <- (sort_le_perm older_first ls) in Hnd, Hin. split.
  - eapply sublist_NoDup; [exact Hnd|]. apply fmap_sublist, sublist_take.
  - by apply Forall_take.
Qed.

(** The log with the entries of [l], at some instant each. *)
Inductive entered : list OutboxRow -> gmap string AuditLog -> Prop :=
  | entered_nil : entered [] (db_audit_logs db0)
  | entered_known l m r : entered l m -> is_Some (m !! ob_ID r) -> entered (l ++ [r]) m
  | entered_new l m r now : entered l m -> m !! ob_ID r = None -> entered (l ++ [r]) (<[ob_ID r := outbox_entry now r]> m).

Lemma entered_log l m :
  entered l m ->
  (forall k e, db_audit_logs db0 !! k = Some e -> m !! k = Some e) /\
  Forall (fun r => is_Some (m !! ob_ID r)) l /\
  (forall k e, m !! k = Some e -> db_audit_logs db0 !! k = Some e \/ exists r now, r ∈ l /\ k = ob_ID r /\ e = outbox_entry now r).
Proof.
  induction 1 as [|l m r _ (I1 & I2 & I3) Hr|l m r now _ (I1 & I2 & I3) Hn]; split_and!; auto.
  - apply Forall_app. auto.
  - intros k e [|(r' & now & Hr' & -> & ->)]%I3; [by left|]. right. exists r', now. rewrite elem_of_app. auto.
  - intros k e He. rewrite lookup_insert_ne; [auto|]. intros <-. apply I1 in He. congruence.
  - apply Forall_app. split.
    + eapply Forall_impl; [exact I2|]. intros r' Hr'. simpl in *. by apply lookup_insert_is_Some'; right.
    + constructor; [|done]. rewrite lookup_insert_eq. eauto.
  - intros k e [[<- <-]|[_ He]]%lookup_insert_Some.
    + right. exists r, now. rewrite elem_of_app. split; [right; by apply list_elem_of_singleton|done].
    + apply I3 in He as [|(r' & now' & Hr' & -> & ->)]; [by left|]. right. exists r', now'. rewrite elem_of_app. auto.
Qed.

Lemma txh_deliver l r :
  txh (E := goerr) (fun db => exists m, entered l m /\ db = t_set audit_logs m db0) (deliver_row r)
    (fun _ db => exists m, entered (l ++ [r]) m /\ db = t_set audit_logs m db0).
Proof.
  unfold deliver_row. eapply txh_bind; [apply txh_still, still_sql_now|]. intros now. cbv beta. apply txh_stmt.
  intros db [] db' (m & Hm & ->). change (db_audit_logs (t_set audit_logs m db0)) with m.
  destruct (m !! ob_ID r) as [e|] eqn:Em.
  - intros [= <-]. exists m. split; [|done]. by apply entered_known.
  - intros (_ & _ & _ & ->)%insert_row_Ok. exists (<[ob_ID r := outbox_entry now r]> m). split; [|done]. by apply entered_new.
Qed.

Lemma txh_deliver_all l' l :
  txh (E := goerr) (fun db => exists m, entered l m /\ db = t_set audit_logs m db0) (for_each l' deliver_row)
    (fun _ db => exists m, entered (l ++ l') m /\ db = t_set audit_logs m db0).
Proof.
  revert l. induction l' as [|r l' IH]; intros l.
  - intros w tx Htx _ Hp. split; [done|]. by rewrite app_nil_r.
  - eapply txh_bind; [apply txh_deliver|]. intros []. specialize (IH (app l [r])). by rewrite <- app_assoc in IH.
Qed.

(** The batch is out of the outbox. *)
Lemma size_delivered l (m : gmap string OutboxRow) :
  NoDup (ob_ID <$> l) -> Forall (fun r => m !! ob_ID r = Some r) l -> keyed ob_ID m ->
  (size (delete_rows (fun r => contains (ob_ID r) (ob_ID <$> l)) m) + List.length l = size m)%nat.
Proof.
  revert m. induction l as [|r l IH]; intros m Hnd Hin Hk.
  - simpl. rewrite Nat.add_0_r. unfold delete_rows. rewrite map_filter_id; [done|]. intros k x _. by apply bool_decide_eq_false_2, not_elem_of_nil.
  - rewrite fmap_cons in Hnd |- *. rewrite length_cons. inversion Hnd as [|? ? Hn Hnd']; subst. inversion Hin as [|? ? Hr Hin']; subst.
    assert (Forall (fun r' => delete (ob_ID r) m !! ob_ID r' = Some r') l) as Hin2.
    { apply Forall_forall. intros r' Hr'. rewrite lookup_delete_ne; [by rewrite Forall_forall in Hin'; apply Hin'|].
      intros E. apply Hn. rewrite E. by apply list_elem_of_fmap_2. }
    specialize (IH (delete (ob_ID r) m) Hnd' Hin2).
    assert (keyed ob_ID (delete (ob_ID r) m)) as Hk2 by (intros k x [_ Hx]%lookup_delete_Some; by apply Hk).
    specialize (IH Hk2). assert (size (delete (ob_ID r) m) = (size m - 1)%nat) as Hs.
    { rewrite map_size_delete_Some by eauto. lia. }
    assert (0 < size m)%nat as Hpos.
    { destruct (size m) eqn:E; [|lia]. apply map_size_empty_inv in E. rewrite E in Hr. done. }
    assert (delete_rows (fun r' => contains (ob_ID r') (ob_ID r :: (ob_ID <$> l))) m
            = delete_rows (fun r' => contains (ob_ID r') (ob_ID <$> l)) (delete (ob_ID r) m)) as ->; [|lia].
    apply map_eq. intros k. apply option_eq. intros x. rewrite !lookup_delete_rows, lookup_delete_Some.
    rewrite <- !not_true_iff_false, !contains_true. split.
    + intros [Hx Hc]. split_and!; [|done|]; intros Hcx; apply Hc; [|by right]. rewrite (Hk _ _ Hx), Hcx. by left.
    + intros [[Hne Hx] Hc]. split; [done|]. intros [Hcx|Hcx]%elem_of_cons; [|done]. by rewrite (Hk _ _ Hx) in Hcx.
Qed.

(** A batch of [n] rows moved. *)
Definition moved (n : Z) (db : DB) : Prop :=
  none_lost db0 db /\ keyed ob_ID (db_audit_outbox db) /\
  (size (db_audit_outbox db) + Z.to_nat n = size (db_audit_outbox db0))%nat.

Lemma delivered_moved l m :
  distinct_rows l -> entered l m ->
  moved (Z.of_nat (List.length l))
    (t_set audit_outbox (delete_rows (fun r => contains (ob_ID r) (ob_ID <$> l)) (db_audit_outbox db0)) (t_set audit_logs m db0)).
Proof.
  intros [Hnd Hin] (Hold & Hin2 & Hnew)%entered_log.
  assert (forall k, db_audit_outbox (t_set audit_outbox (delete_rows (fun r => contains (ob_ID r) (ob_ID <$> l)) (db_audit_outbox db0)) (t_set audit_logs m db0)) !! k
    = delete_rows (fun r => contains (ob_ID r) (ob_ID <$> l)) (db_audit_outbox db0) !! k) as Ho by done.
  rewrite Forall_forall in Hin, Hin2. split; [|split].
  - split_and!.
    + intros k r Hr. rewrite Ho. destruct (contains (ob_ID r) (ob_ID <$> l)) eqn:E.
      * right. apply contains_true in E. apply list_elem_of_fmap in E as (r' & E & Hr'). specialize (Hin2 _ Hr'). simpl in Hin2.
        by rewrite <- E, (Hkeyed _ _ Hr) in Hin2.
      * left. by apply lookup_delete_rows.
    + exact Hold.
    + intros k e [|(r & now & Hr & -> & ->)]%Hnew; [by left|]. right. split; [|exists r, now; by split; [apply Hin|]].
      rewrite Ho. destruct (_ !! ob_ID r) as [x|] eqn:E; [|done]. apply lookup_delete_rows in E as [Hx Hc].
      rewrite (Hkeyed _ _ Hx) in Hc. rewrite <- not_true_iff_false, contains_true in Hc. exfalso. apply Hc. by apply list_elem_of_fmap_2.
    + apply map_subseteq_spec. intros k x Hx. rewrite Ho in Hx. by apply lookup_delete_rows in Hx as [Hx _].
  - by apply keyed_delete_rows.
  - rewrite Nat2Z.id. rewrite <- Forall_forall in Hin. by apply size_delivered.
Qed.
End batch.

(** *** The flush *)

Lemma pending_length locked limit m :
  (List.length (pending_rows locked limit m) <= size m)%nat /\
  ((forall id, locked id = false) -> List.length (pending_rows locked limit m) = Nat.min (Z.to_nat limit) (size m)).
Proof.
  unfold pending_rows. rewrite length_take, sort_le_perm, length_fmap, length_map_to_list.
  assert (size (rows (fun r => negb (locked (ob_ID r))) m) <= size m)%nat as Hle by (apply map_subseteq_size, map_filter_subseteq).
  split; [lia|]. intros Hl. assert (rows (fun r => negb (locked (ob_ID r))) m = m) as ->; [|done].
  unfold rows. apply map_filter_id. intros k r _. simpl. by rewrite Hl.
Qed.

Section flush.
Context (db0 : DB) (Hkeyed : keyed ob_ID (db_audit_outbox db0)).

Lemma moved_none : moved db0 0 db0.
Proof. split; [apply none_lost_refl|]. split; [done|]. simpl. lia. Qed.

Lemma txh_delete_delivered l :
  distinct_rows db0 l ->
  txh (E := goerr) (fun db => exists m, entered db0 l m /\ db = t_set audit_logs m db0) (delete_delivered l)
    (fun _ db => moved db0 (Z.of_nat (List.length l)) db).
Proof.
  intros Hb. unfold delete_delivered. destruct l as [|r l].
  - intros w tx Htx _ (m & Hm & Hdb). split; [done|]. inversion Hm; subst; [|by destruct l..].
    rewrite Hdb. replace (t_set audit_logs (db_audit_logs db0) db0) with db0 by by destruct db0. exact moved_none.
  - set (l' := r :: l) in *. eapply txh_bind; [apply txh_delete|]. intros n w tx Htx Hok (db & (m & Hm & ->) & _ & Hdb).
    split; [done|]. rewrite Hdb. by apply (delivered_moved db0 Hkeyed l' m).
Qed.

Lemma txh_move_batch locked limit :
  txh (fun db => db = db0) (move_batch locked limit)
    (fun l db => l = pending_rows locked limit (db_audit_outbox db0) /\ moved db0 (Z.of_nat (List.length l)) db).
Proof.
  unfold move_batch. apply (txh_bind _ _ _ (fun l db => l = pending_rows locked limit (db_audit_outbox db0) /\ db = db0)).
  { apply txh_stmt. intros db l db' -> [= <- <-]. done. }
  intros l. apply (txh_bind _ _ _ (fun _ db => l = pending_rows locked limit (db_audit_outbox db0) /\
    exists m, entered db0 l m /\ db = t_set audit_logs m db0)).
  { intros w tx Htx Hok [Hl Hdb]. pose proof (txh_deliver_all db0 l [] w tx Htx Hok) as Hd. simpl in Hd.
    destruct (for_each l deliver_row w) as [[a|e] w']; [|apply Hd].
    - destruct Hd as [Ht Hm]; [|by split_and!]. exists (db_audit_logs db0). split; [constructor|]. rewrite Hdb. by destruct db0.
    - exists (db_audit_logs db0). split; [constructor|]. rewrite Hdb. by destruct db0. }
  intros []. apply (txh_bind _ _ _ (fun _ db => l = pending_rows locked limit (db_audit_outbox db0) /\ moved db0 (Z.of_nat (List.length l)) db)).
  { intros w tx Htx Hok [Hl Hm]. pose proof (txh_delete_delivered l) as Hd. rewrite Hl in Hd.
    specialize (Hd (batch_pending db0 Hkeyed locked limit) w tx Htx Hok). rewrite <- Hl in Hd. specialize (Hd Hm).
    destruct (delete_delivered l w) as [[a|e] w']; [|done]. destruct Hd. by split_and!. }
  intros []. by intros w tx Htx _ [Hl Hm].
Qed.
End flush.

Lemma Flush_moved locked limit w :
  w_tx w = None -> keyed ob_ID (db_audit_outbox (w_db w)) ->
  let '(r, w') := FlushAuditOutbox locked limit w in
  w_tx w' = None /\ (exists n, moved (w_db w) n (w_db w')) /\
  match r with
  | Ok n => moved (w_db w) n (w_db w') /\ n = Z.of_nat (List.length (pending_rows locked limit (db_audit_outbox (w_db w))))
  | Err _ => True
  end.
Proof.
  intros Hw Hk. unfold FlushAuditOutbox. destruct (_ || _); [split_and!; [done|exists 0; by apply moved_none|done]|].
  apply (with_tx_answer (fun db => exists n, moved (w_db w) n db)
    (fun n db => moved (w_db w) n db /\ n = Z.of_nat (List.length (pending_rows locked limit (db_audit_outbox (w_db w)))))); [done| |].
  - exists 0. by apply moved_none.
  - eapply ends_bind; [by apply txh_move_batch|]. intros l. eapply ends_weaken; [apply ends_commit_ret| |].
    2: { intros db Hdb. exact Hdb. }
    + intros db [_ Hm]. eauto.
    + intros n db [-> [-> Hm]]. done.
Qed.

(** Outbox_rows_kept: whatever statement fails and whichever rows other flushers
    hold, the loop of a tick ends, and every row of the outbox is still there or
    in the audit log under its identifier, as the entry of that row; no entry
    of the log is changed. *)
Theorem outbox_rows_kept locked expired fuel w :
  w_tx w = None -> keyed ob_ID (db_audit_outbox (w_db w)) -> (size (db_audit_outbox (w_db w)) < 200 * fuel)%nat ->
  let '(r, w') := flush locked expired fuel w in
  r = Ok true /\ w_tx w' = None /\ none_lost (w_db w) (w_db w').
Proof.
  revert w. induction fuel as [|fuel IH]; intros w Hw Hk Hsize; [lia|]. simpl.
  pose proof (Flush_moved (locked fuel) 200 w Hw Hk) as Hf. unfold mbind at 1, M_bind at 1, attempt.
  destruct (FlushAuditOutbox (locked fuel) 200 w) as [[n|e] w1]; destruct Hf as (Hw1 & (n' & Hn' & Hk' & _) & Hf).
  - destruct Hf as [(Hm & Hk1 & Hs1) Hn]. destruct (n <? 200) eqn:En; [by split_and!|].
    specialize (IH w1 Hw1 Hk1). destruct (flush locked expired fuel w1) as [r w2].
    destruct IH as (Hr & Hw2 & Hl); [bool_facts; lia|]. split_and!; [done..|]. by eapply none_lost_trans.
  - destruct (expired fuel); by split_and!.
Qed.

(** ** The outbox drains *)

Lemma proceeds_move_batch locked limit : proceeds (move_batch locked limit).
Proof.
  unfold move_batch. apply proceeds_bind; [apply proceeds_stmt; eauto|]. intros l. apply proceeds_bind.
  - apply proceeds_for_each. intros r. unfold deliver_row. apply proceeds_bind; [apply proceeds_sql_now|]. intros now.
    apply proceeds_stmt. intros db. destruct (db_audit_logs db !! ob_ID r) eqn:E; [eauto|]. unfold insert_row.
    change (t_get audit_logs db) with (db_audit_logs db). rewrite E.
    assert (row_exists (fun r' => t_conflict audit_logs r' (outbox_entry now r)) (db_audit_logs db) = false) as ->
      by by apply row_exists_false. simpl. eauto.
  - intros []. apply proceeds_bind; [|intros []; apply proceeds_ret]. unfold delete_delivered. destruct l; [apply proceeds_ret|].
    apply proceeds_bind; [apply proceeds_stmt; eauto|]. intros n. apply proceeds_ret.
Qed.

(** C20. Outbox_drains: when nothing fails and no other flusher is at work, a tick
    empties the outbox: every row reaches the audit log. *)
Theorem outbox_drains expired fuel w :
  quiet w -> keyed ob_ID (db_audit_outbox (w_db w)) -> (size (db_audit_outbox (w_db w)) < 200 * fuel)%nat ->
  let '(r, w') := flush (fun _ _ => false) expired fuel w in
  r = Ok true /\ db_audit_outbox (w_db w') = ∅ /\
  forall k r, db_audit_outbox (w_db w) !! k = Some r -> is_Some (db_audit_logs (w_db w') !! k).
Proof.
  intros Hq Hk Hsize. pose proof (outbox_rows_kept (fun _ _ => false) expired fuel w (proj2 Hq) Hk Hsize) as Hkept.
  assert (db_audit_outbox (w_db (snd (flush (fun _ _ => false) expired fuel w))) = ∅) as Hempty.
  { clear Hkept. revert w Hq Hk Hsize. induction fuel as [|fuel IH]; intros w Hq Hk Hsize; [lia|]. simpl.
    pose proof (Flush_moved (fun _ => false) 200 w (proj2 Hq) Hk) as Hf.
    destruct (with_tx_settles (move_batch (fun _ => false) 200) (fun l => Z.of_nat (List.length l)) w Hq (proceeds_move_batch _ _)) as (n & w1 & Hr & Hq1).
    change (with_tx _) with (FlushAuditOutbox (fun _ => false) 200) in Hr. unfold mbind, M_bind, attempt.
    rewrite Hr in Hf |- *. destruct Hf as (_ & _ & (_ & Hk1 & Hs1) & Hn).
    rewrite (proj2 (pending_length (fun _ => false) 200 (db_audit_outbox (w_db w)))) in Hn by done.
    destruct (n <? 200) eqn:En; bool_facts; [|apply IH; [done|done|lia]].
    apply map_size_empty_inv. simpl. lia. }
  destruct (flush _ _ _ _) as [r w']. destruct Hkept as (-> & _ & Hl & _). simpl in Hempty. split_and!; [done..|].
  intros k x Hx. destruct (Hl k x Hx) as [Hx'|]; [|done]. by rewrite Hempty in Hx'.
Qed.

(** ** Instances *)

Module OutboxDemo.
Definition row (id entity action : string) (t : Time) : OutboxRow := mkOutboxRow id entity (entity +:+ "-1") action t.
Definition db : DB :=
  t_set audit_outbox {["o-1" := row "o-1" "licenses" "update" 30; "o-2" := row "o-2" "plans" "insert" 10;
                       "o-3" := row "o-3" "plans" "delete" 20]} empty_db.
Definition world (faults : list fault) : World := mkWorld db None (1000 * Second) [] faults false 0 [] ∅ [].
Definition held (n : nat) (id : string) : bool := streq id "o-2".
End OutboxDemo.

Lemma outbox_demo_keyed : keyed ob_ID (db_audit_outbox OutboxDemo.db).
Proof. apply (map_Forall_to_list (fun k r => ob_ID r = k)). vm_compute. repeat constructor. Qed.

(** With a row held by another flusher, and the connection lost at the first
    insertion. *)
Lemma outbox_rows_kept_witness :
  let '(r, w') := flush OutboxDemo.held (fun _ => false) 1 (OutboxDemo.world [NoFault; NoFault; Lost true]) in
  r = Ok true /\ none_lost OutboxDemo.db (w_db w').
Proof.
  pose proof (outbox_rows_kept OutboxDemo.held (fun _ => false) 1 (OutboxDemo.world [NoFault; NoFault; Lost true]) eq_refl
    outbox_demo_keyed ltac:(apply Nat.ltb_lt; vm_compute; reflexivity)) as Hf.
  destruct (flush OutboxDemo.held _ _ _) as [r w']. exact (conj (proj1 Hf) (proj2 (proj2 Hf))).
Defined.

Lemma outbox_drains_witness :
  let '(r, w') := flush (fun _ _ => false) (fun _ => false) 1 (OutboxDemo.world []) in
  r = Ok true /\ db_audit_outbox (w_db w') = ∅.
Proof.
  pose proof (outbox_drains (fun _ => false) 1 (OutboxDemo.world []) (conj eq_refl eq_refl)
    outbox_demo_keyed ltac:(apply Nat.ltb_lt; vm_compute; reflexivity)) as Hf.
  destruct (flush (fun _ _ => false) _ _ _) as [r w']. exact (conj (proj1 Hf) (proj1 (proj2 Hf))).
Defined.

(** Oldest first, the held row left. *)
Example outbox_order :
  ob_ID <$> pending_rows (OutboxDemo.held 0) 200 (db_audit_outbox OutboxDemo.db) = ["o-3"; "o-1"].
Proof. vm_compute. reflexivity. Qed.
