(* ===== verification/Portal.v ===== *)
(** * The customer portal ([cmd/server/main.go], [handler/portal_activations.go])

    The routes under [/portal]: a customer with a session looks at the licences
    of their address and manages usage, seats and devices.  The guards in front
    of the routes read the licence key from the body before the handler does;
    what each of the two readings gives is an argument.  The handlers of
    [handler/usage.go] and [handler/seats.go] serve the SDK routes as well. *)

From S2P Require Import Prelude GoStrings Errors Model World Tables Logic KeyGen Store Webhook LicenseService Lookup Usage Seats.
From S2P Require Import Sessions Access AdminLicense Catalogue ReleaseAdmin.
From Stdlib Require Import Ascii String.

#[local] Open Scope string_scope.
#[local] Open Scope Z_scope.

(** ** Queries only the portal uses ([store/admin.go], [store/store.go]) *)

Definition ListActivations (licenseID : string) : M goerr (list Activation) := stmt (fun db =>
  Ok (sort_by (fun a => - act_CreatedAt a) (map_to_list (rows (fun a => streq (act_LicenseID a) licenseID) (db_activations db))).*2, db)).

(** [license.email = ?] or a live seat with the address. *)
Definition listed_for (email : string) (db : DB) (l : License) : bool :=
  streq (lic_Email l) email
  || row_exists (fun s => streq (seat_LicenseID s) (lic_ID l) && streq (seat_Email s) email && live s) (db_seats db).

(** A licence with its activations and seats. *)
Definition with_members (db : DB) (l : License) : License * list Activation * list Seat :=
  (l, (map_to_list (rows (fun a => streq (act_LicenseID a) (lic_ID l)) (db_activations db))).*2,
   (map_to_list (rows (fun s => streq (seat_LicenseID s) (lic_ID l)) (db_seats db))).*2).

Definition ListLicensesByEmail (email : string) : M goerr (list (License * list Activation * list Seat)) := stmt (fun db =>
  Ok (with_members db <$> newest_licenses (listed_for email db) db, db)).

(** ** Answers *)

Record portalActivationView := mkActivationView {
  pv_ID : string; pv_Identifier : string; pv_IdentifierType : string; pv_Label : string; pv_IPAddress : string;
  pv_CreatedAt : Time; pv_LastVerified : Time
}.

Record PublicPlan := mkPublicPlan {
  pp_ID : string; pp_Name : string; pp_Slug : string; pp_LicenseType : string; pp_BillingInterval : string;
  pp_StripePriceID : string; pp_CheckoutID : string
}.

Inductive PortalAnswer :=
  | PortalUser (u : User)
  | PortalLicenses (ls : list (License * list Activation * list Seat))
  | PortalPlans (ps : list PublicPlan)
  | PortalRecorded (r : RecordUsageResult)
  | PortalQuota (q : QuotaStatus)
  | PortalSeats (ss : list Seat)
  | PortalSeat (s : Seat)
  | PortalActivations (vs : list portalActivationView) (max : Z)
  | PortalDone (status : string)
  | PortalRefused (e : Envelope).

Definition po_refuse (status : Z) (code message : string) : PortalAnswer := PortalRefused (mkEnvelope status code message None).
Definition po_bad (message : string) : PortalAnswer := po_refuse 400 "BAD_REQUEST" message.
Definition po_unauthorized : PortalAnswer := po_refuse 401 "UNAUTHORIZED" "unauthorized".
Definition po_missing (message : string) : PortalAnswer := po_refuse 404 "NOT_FOUND" message.
Definition po_internal : PortalAnswer := po_refuse 500 "INTERNAL_ERROR" "an internal error occurred".

(** ** Requests *)

Record UsageRequest := mkUsageRequest {
  uq_key : string; uq_feature : string; uq_quantity : Z; uq_metadata : gmap string any
}.
Record SeatRequest := mkSeatRequest { sq_key : string; sq_email : string; sq_role : string }.

(** The key the guard reads: [None] when the body is too large, empty when it
    is not JSON or has no key.  [req] is what the handler decodes. *)
Inductive PortalRoute :=
  | RouteMe
  | RouteLicenses
  | RouteProfile (name : option string)
  | RoutePlans (productID : string)
  | RouteUsage (guard : option string) (req : option UsageRequest)
  | RouteUsageStatus (guard : option string) (req : option (string * string))
  | RouteSeats (guard : option string) (req : option string)
  | RouteSeatAdd (guard : option string) (req : option SeatRequest)
  | RouteSeatRemove (guard : option string) (req : option (string * string))
  | RouteActivations (key : string)
  | RouteActivationDelete (key activationID : string).

(** [for _, r := range s]: what stands between [<] and the next [>] is dropped. *)
Fixpoint strip_tags (inTag : bool) (s : string) : string :=
  match s with
  | EmptyString => ""
  | String c s =>
      if Ascii.eqb c "<" then strip_tags true s
      else if Ascii.eqb c ">" then strip_tags false s
      else if inTag then strip_tags inTag s else String c (strip_tags inTag s)
  end.
Definition stripHTMLTags : string -> string := strip_tags false.

Definition activation_view (a : Activation) : portalActivationView :=
  mkActivationView (act_ID a) (act_Identifier a) (act_IdentifierType a) (act_Label a) (act_IPAddress a)
    (act_CreatedAt a) (act_LastVerified a).

Definition maxActivationsForLicense (lic : License) : Z :=
  match lic_Plan lic with
  | Some p => if 0 <? plan_MaxActivations p then plan_MaxActivations p else 0
  | None => 0
  end.

Definition public_plan (p : Plan) : PublicPlan :=
  mkPublicPlan (plan_ID p) (plan_Name p) (plan_Slug p) (plan_LicenseType p) (plan_BillingInterval p)
    (plan_StripePriceID p) (plan_CheckoutID p).

Definition app_refusal (e : error) : PortalAnswer := PortalRefused (writeAppErr e).

Section handlers.
Context `{UUIDs} (mail_ParseAddress : string -> option string) (us : UsageService) (ss : SeatService).

(** ** [handler/usage.go], [handler/seats.go] *)

Definition RecordUsage_ (productID ip : string) (req : option UsageRequest) : M goerr PortalAnswer :=
  match req with
  | None => mret (po_bad "license_key and feature are required")
  | Some q =>
      if streq (uq_key q) "" || streq (uq_feature q) "" then mret (po_bad "license_key and feature are required")
      else
        on_error (RecordUsage us (mkRecordUsageInput (uq_key q) (uq_feature q) (uq_quantity q) (uq_metadata q) productID ip))
          app_refusal (fun r => mret (PortalRecorded r))
  end.

Definition GetQuotaStatus_ (productID : string) (req : option (string * string)) : M goerr PortalAnswer :=
  match req with
  | None => mret (po_bad "license_key and feature are required")
  | Some (key, feature) =>
      if streq key "" || streq feature "" then mret (po_bad "license_key and feature are required")
      else on_error (GetQuotaStatus key feature productID) app_refusal (fun r => mret (PortalQuota r))
  end.

Definition AddSeat_ (productID actor : string) (req : option SeatRequest) : M goerr PortalAnswer :=
  match req with
  | None => mret (po_bad "license_key and email are required")
  | Some q =>
      if streq (sq_key q) "" || streq (sq_email q) "" then mret (po_bad "license_key and email are required")
      else
        on_error (AddSeat mail_ParseAddress ss (mkAddSeatInput (sq_key q) (sq_email q) (sq_role q) productID actor))
          app_refusal (fun s => mret (PortalSeat s))
  end.

Definition RemoveSeat_ (productID actor : string) (req : option (string * string)) : M goerr PortalAnswer :=
  match req with
  | None => mret (po_bad "license_key and seat_id are required")
  | Some (key, seatID) =>
      if streq key "" || streq seatID "" then mret (po_bad "license_key and seat_id are required")
      else on_error (RemoveSeat_service key seatID productID actor) app_refusal (fun _ => mret (PortalDone "removed"))
  end.

Definition ListSeats_ (productID : string) (req : option string) : M goerr PortalAnswer :=
  match req with
  | None => mret (po_bad "license_key is required")
  | Some key =>
      if streq key "" then mret (po_bad "license_key is required")
      else on_error (ListSeats_service key productID) app_refusal (fun l => mret (PortalSeats l))
  end.

(** ** The portal *)

Context (cx : Context_).

Definition emailFromContext : string := default "" (cx_email cx).
Definition portal_user : string := default "" (cx_user_id cx).

(** The two guards differ in what they ask of a seat.  A key that names no
    licence, or whose lookup fails, is left to the handler. *)
Definition portal_guard (authority : Seat -> bool) (key : option string) (next : M goerr PortalAnswer) : M goerr PortalAnswer :=
  match key with
  | None => mret (po_refuse 413 "BODY_TOO_LARGE" "request body exceeds 64 KiB")
  | Some key =>
      if streq key "" then next
      else if streq emailFromContext "" then mret po_unauthorized
      else
        r ← attempt (FindLicenseByKey key);
        match r with
        | Err _ => next
        | Ok lic =>
            if EqualFold (lic_Email lic) emailFromContext then next
            else
              s ← attempt (FindSeatByEmail (lic_ID lic) emailFromContext);
              match s with
              | Ok seat => if authority seat then next else mret (po_missing "license not found")
              | Err _ => mret (po_missing "license not found")
              end
        end
  end.

Definition any_seat (s : Seat) : bool := true.
Definition accepted_seat (s : Seat) : bool := present (seat_AcceptedAt s).
Definition admin_seat (s : Seat) : bool := present (seat_AcceptedAt s) && streq (seat_Role s) "admin".

Definition portalLicenseGuard : option string -> M goerr PortalAnswer -> M goerr PortalAnswer := portal_guard any_seat.
Definition portalSeatMutationGuard : option string -> M goerr PortalAnswer -> M goerr PortalAnswer := portal_guard admin_seat.

Definition resolveOwnedLicense (license_key : string) (k : License -> M goerr PortalAnswer) : M goerr PortalAnswer :=
  let key := TrimSpace license_key in
  if streq key "" then mret (po_bad "license_key is required in the URL path")
  else if streq emailFromContext "" then mret po_unauthorized
  else
    on_error (FindLicenseByKey key) (fun _ => po_missing "license not found") (fun lic =>
    if EqualFold (lic_Email lic) emailFromContext then k lic
    else
      on_error (FindSeatByEmail (lic_ID lic) emailFromContext) (fun _ => po_missing "license not found") (fun seat =>
      if accepted_seat seat then k lic else mret (po_missing "license not found"))).

Definition ListActivations_ (license_key : string) : M goerr PortalAnswer :=
  resolveOwnedLicense license_key (fun lic =>
    on_error (ListActivations (lic_ID lic)) (fun _ => po_internal) (fun rows =>
    mret (PortalActivations (activation_view <$> rows) (maxActivationsForLicense lic)))).

Definition delete_error (e : goerr) : PortalAnswer := if goerr_Is e ErrNoRows then PortalDone "deleted" else po_internal.

Definition DeleteActivation_ (license_key activation_id : string) : M goerr PortalAnswer :=
  resolveOwnedLicense license_key (fun lic =>
    let activationID := TrimSpace activation_id in
    if streq activationID "" then mret (po_bad "activation_id is required")
    else
      on_error (ListActivations (lic_ID lic)) (fun _ => po_internal) (fun rows =>
      if negb (existsb (fun a => streq (act_ID a) activationID) rows) then mret (po_missing "activation not found")
      else
        on_error (DeleteActivationByID activationID) delete_error (fun _ =>
        Audit (mkAuditLog "" "activation" activationID "deleted" emailFromContext "portal"
          {["license_id" := AnyString (lic_ID lic); "via" := AnyString "self_service"]} (cx_ip cx) 0) ;;
        mret (PortalDone "deleted")))).

Definition Me : M goerr PortalAnswer :=
  if streq portal_user "" then mret po_unauthorized
  else on_error (FindUserByID portal_user) (fun _ => po_missing "user not found") (fun u => mret (PortalUser u)).

Definition portal_licenses : M goerr PortalAnswer :=
  if streq emailFromContext "" then mret po_unauthorized
  else on_error (ListLicensesByEmail emailFromContext) (fun _ => po_internal) (fun ls => mret (PortalLicenses ls)).

Definition portal_profile (name : option string) : M goerr PortalAnswer :=
  if streq portal_user "" then mret po_unauthorized
  else match name with
  | None => mret (po_bad "invalid request")
  | Some name =>
      let name := stripHTMLTags (TrimSpace name) in
      if 100 <? len name then mret (po_bad "name too long (max 100 characters)")
      else
        on_error (UpdateUserProfile portal_user name) (fun _ => po_internal) (fun _ =>
        on_error (FindUserByID portal_user) (fun _ => po_internal) (fun u => mret (PortalUser u)))
  end.

Definition portal_plans (productID : string) : M goerr PortalAnswer :=
  if streq productID "" then mret (po_bad "product_id is required")
  else
    on_error (ListPlans productID "") (fun _ => po_internal) (fun plans =>
    mret (PortalPlans (public_plan <$> List.filter plan_Active plans.*1))).

(** No product is set by the session middleware. *)
Definition portal_route (r : PortalRoute) : M goerr PortalAnswer :=
  match r with
  | RouteMe => Me
  | RouteLicenses => portal_licenses
  | RouteProfile name => portal_profile name
  | RoutePlans productID => portal_plans productID
  | RouteUsage guard req => portalLicenseGuard guard (RecordUsage_ "" (cx_ip cx) req)
  | RouteUsageStatus guard req => portalLicenseGuard guard (GetQuotaStatus_ "" req)
  | RouteSeats guard req => portalLicenseGuard guard (ListSeats_ "" req)
  | RouteSeatAdd guard req => portalSeatMutationGuard guard (AddSeat_ "" portal_user req)
  | RouteSeatRemove guard req => portalSeatMutationGuard guard (RemoveSeat_ "" portal_user req)
  | RouteActivations key => ListActivations_ key
  | RouteActivationDelete key id => DeleteActivation_ key id
  end.
End handlers.

(** The session check in front of the group. *)
Definition serve_portal `{UUIDs} (mail_ParseAddress : string -> option string) (us : UsageService) (ss : SeatService)
    (jwt_parse : string -> string -> Time -> option Claims) (secret : string) (cred : Credential) (r : PortalRoute) :
    M goerr PortalAnswer :=
  a ← session_context jwt_parse secret cred;
  match a with
  | inr (status, code) => mret (po_refuse status code "")
  | inl cx => portal_route mail_ParseAddress us ss cx r
  end.
