(* ===== verification/PortalProps.v ===== *)
(** * The portal keeps to the caller's licences

    [portal_confined]: a request of the portal changes and tells nothing of a
    licence its session has no part in; and instances, among them the ways
    around the guards. *)

From S2P Require Import Prelude GoStrings Errors Model World Tables Logic KeyGen Store Webhook LicenseService Lookup Usage Seats.
From S2P Require Import Sessions Access AdminLicense Catalogue Expiry ExpiryProps Confinement Scoped ReleaseAdmin Portal Demo.
From Stdlib Require Import Ascii String.

#[local] Open Scope string_scope.
#[local] Open Scope Z_scope.

(** ** A stranger's licence *)

Definition of_license {R} (lid : R -> string) (X : string) (r : R) : bool := streq (lid r) X.

(** The licence [X] and everything recorded for it. *)
Definition license_kept (X : string) (db db' : DB) : Prop :=
  db_licenses db' = db_licenses db /\
  rows (of_license act_LicenseID X) (db_activations db') = rows (of_license act_LicenseID X) (db_activations db) /\
  rows (of_license seat_LicenseID X) (db_seats db') = rows (of_license seat_LicenseID X) (db_seats db) /\
  rows (of_license uc_LicenseID X) (db_usage_counters db') = rows (of_license uc_LicenseID X) (db_usage_counters db) /\
  rows (of_license ue_LicenseID X) (db_usage_events db') = rows (of_license ue_LicenseID X) (db_usage_events db) /\
  rows (of_license mb_LicenseID X) (db_metered_billing db') = rows (of_license mb_LicenseID X) (db_metered_billing db) /\
  db_subscriptions db' = db_subscriptions db /\ db_floating_sessions db' = db_floating_sessions db /\
  db_license_addons db' = db_license_addons db.

(** What the address [e] has no part in: the licence is another's, and no live
    seat of it gives the address the authority a route asks for. *)
Definition stranger (authority : Seat -> bool) (e X : string) (db : DB) : Prop :=
  (forall l, db_licenses db !! X = Some l -> EqualFold (lic_Email l) e = false) /\
  (forall k s, db_seats db !! k = Some s -> live_of X s = true -> seat_Email s = e -> authority s = false).

Definition names (key : string) (l : License) : Prop := lic_KeyHash l = HashKey key \/ lic_LicenseKey l = key.

(** The key names one licence at most. *)
Definition names_one (key : string) (db : DB) : Prop :=
  forall i l j l', db_licenses db !! i = Some l -> names key l -> db_licenses db !! j = Some l' -> names key l' -> i = j.

Section stranger.
Context `{UUIDs} (X : string) (db0 : DB).

(** The row stored under [id] is not one of [X]. *)
Definition spares {R} (lid : R -> string) (m0 : gmap string R) (id : string) : Prop :=
  forall r, m0 !! id = Some r -> lid r <> X.

Lemma spares_row {R} (lid : R -> string) (m m0 : gmap string R) k r :
  rows (of_license lid X) m = rows (of_license lid X) m0 -> m !! k = Some r -> lid r <> X <-> spares lid m0 k.
Proof.
  intros E Hr. split.
  - intros Hne r0 H0 Hx. assert (rows (of_license lid X) m0 !! k = Some r0) as H1 by (apply lookup_rows; split; [done|by apply streq_true]).
    rewrite <- E in H1. apply lookup_rows in H1 as [H1 _]. congruence.
  - intros Hs Hx. assert (rows (of_license lid X) m !! k = Some r) as H1 by (apply lookup_rows; split; [done|by apply streq_true]).
    rewrite E in H1. apply lookup_rows in H1 as [H1 _]. by apply (Hs r).
Qed.

Definition spared (db : DB) : Prop :=
  license_kept X db0 db /\ keyed act_ID (db_activations db) /\ keyed seat_ID (db_seats db).
#[local] Abbreviation I := spared.
#[local] Abbreviation our_seat := (spares seat_LicenseID (db_seats db0)).
#[local] Abbreviation our_device := (spares act_LicenseID (db_activations db0)).

Lemma spared_start : keyed act_ID (db_activations db0) -> keyed seat_ID (db_seats db0) -> spared db0.
Proof. intros Ha Hs. split; [|done]. by split_and!. Qed.

(** *** Writes *)

(** A table whose rows name their licence, and nothing else is asked of. *)
Definition belongs {K R} `{Countable K} (T : Table K R) (lid : R -> string) : Prop :=
  forall db m, I db -> rows (of_license lid X) m = rows (of_license lid X) (t_get T db) -> I (t_set T m db).

Lemma belongs_counters : belongs usage_counters uc_LicenseID.
Proof. intros db m [(H1 & H2 & H3 & H4 & H5 & H6) Hk] Hm. split; [|done]. split_and!; try done; try apply H6. etrans; [exact Hm|exact H4]. Qed.
Lemma belongs_events : belongs usage_events ue_LicenseID.
Proof. intros db m [(H1 & H2 & H3 & H4 & H5 & H6) Hk] Hm. split; [|done]. split_and!; try done; try apply H6. etrans; [exact Hm|exact H5]. Qed.
Lemma belongs_metered : belongs metered_billing mb_LicenseID.
Proof. intros db m [(H1 & H2 & H3 & H4 & H5 & H6 & H7) Hk] Hm. split; [|done]. split_and!; try done; try apply H7. etrans; [exact Hm|exact H6]. Qed.

Lemma spared_seats db m :
  I db -> rows (of_license seat_LicenseID X) m = rows (of_license seat_LicenseID X) (db_seats db) -> keyed seat_ID m ->
  I (t_set seats m db).
Proof.
  intros [(H1 & H2 & H3 & H4) [Ka Ks]] Hm Hk. split; [|by split]. split_and!; try done; try apply H4.
  change (rows (of_license seat_LicenseID X) m = rows (of_license seat_LicenseID X) (db_seats db0)). congruence.
Qed.
Lemma spared_activations db m :
  I db -> rows (of_license act_LicenseID X) m = rows (of_license act_LicenseID X) (db_activations db) -> keyed act_ID m ->
  I (t_set activations m db).
Proof.
  intros [(H1 & H2 & H3) [Ka Ks]] Hm Hk. split; [|by split]. split_and!; try done; try apply H3.
  change (rows (of_license act_LicenseID X) m = rows (of_license act_LicenseID X) (db_activations db0)). congruence.
Qed.

Lemma of_license_false {R} (lid : R -> string) r : lid r <> X -> of_license lid X r = false.
Proof. by intros ?%streq_false. Qed.

Lemma spare_insert {K R} `{Countable K} (T : Table K R) lid k r db u db' :
  belongs T lid -> I db -> lid r <> X -> insert_row T k r db = Ok (u, db') -> I db'.
Proof.
  intros HT Hi Hr (Hn & _ & _ & ->)%insert_row_Ok. apply HT; [done|]. apply rows_insert_out; [congruence|by apply of_license_false].
Qed.

Lemma spare_seat db id s : I db -> db_seats db !! id = Some s -> seat_LicenseID s <> X <-> our_seat id.
Proof. intros Hi. apply spares_row, Hi. Qed.

Lemma spare_update_seat id f :
  our_seat id -> (forall s, seat_ID (f s) = seat_ID s /\ seat_LicenseID (f s) = seat_LicenseID s) ->
  keeps I (sql_update_checked seats id f).
Proof.
  intros Ho Hf. apply hoare_keeps, hoare_update_checked. intros db s Hi _ Hs _ _. change (db_seats db !! id = Some s) in Hs.
  pose proof (proj2 (spare_seat db id s Hi Hs) Ho) as Hne. apply spared_seats; [done| |].
  - apply rows_insert_out.
    + intros s0 Hs0. change (db_seats db !! id = Some s0) in Hs0. apply of_license_false. congruence.
    + apply of_license_false. by rewrite (proj2 (Hf s)).
  - apply keyed_insert_row; [apply Hi|]. rewrite (proj1 (Hf s)). by apply Hi.
Qed.

Lemma spare_remove_seat id now : our_seat id -> keeps I (sql_update seats (fun s => streq (seat_ID s) id && live s) (seat_remove now)).
Proof.
  intros Ho. apply keeps_stmt. intros db n db' Hi [= _ <-]. change (t_get seats db) with (db_seats db). apply spared_seats; [done| |].
  - apply rows_update_out. intros k s Hs [Hid _]%andb_prop. apply streq_true in Hid.
    assert (k = id) as -> by (rewrite <- Hid; symmetry; by apply Hi). pose proof (proj2 (spare_seat db id s Hi Hs) Ho) as Hne.
    split; by apply of_license_false.
  - apply keyed_update; [apply Hi|done].
Qed.

Lemma spare_delete_activation id : our_device id -> keeps I (DeleteActivationByID id).
Proof.
  intros Ho. unfold DeleteActivationByID. apply keeps_bind; [|auto with licensehub]. apply keeps_stmt.
  intros db n db' Hi [= _ <-]. change (t_get activations db) with (db_activations db). apply spared_activations; [done| |].
  - apply rows_delete_out. intros k a Ha Hid%streq_true. assert (k = id) as -> by (rewrite <- Hid; symmetry; by apply Hi).
    apply of_license_false. refine (proj2 (spares_row _ _ _ id a _ Ha) Ho). apply Hi.
  - by apply keyed_delete_rows, Hi.
Qed.

(** *** Queries *)

Lemma yields_select_seat P :
  (forall s, P s = true -> seat_LicenseID s <> X) -> yields I (sql_select_one seats P) (fun s => seat_LicenseID s <> X /\ our_seat (seat_ID s)).
Proof.
  intros HP. apply yields_read. intros db s db' Hi. destruct (first_row _) as [s0|] eqn:Es; [|done]. intros [= <- <-]. split; [done|].
  apply first_row_rows in Es as (k & Hk & Hp). change (db_seats db !! k = Some s0) in Hk. split; [by apply HP|].
  rewrite (proj2 (proj2 Hi) _ _ Hk). apply (spare_seat db k s0 Hi Hk). by apply HP.
Qed.

Lemma yields_FindSeatByID id : yields I (FindSeatByID id) (fun s => seat_LicenseID s <> X -> our_seat id).
Proof.
  apply yields_read. intros db s db' Hi. destruct (first_row _) as [s0|] eqn:Es; [|done]. intros [= <- <-]. split; [done|].
  apply first_row_rows in Es as (k & Hk & Hid%streq_true). change (db_seats db !! k = Some s0) in Hk. intros Hne.
  assert (k = id) as -> by (rewrite <- Hid; symmetry; by apply Hi). by apply (spare_seat db id s0 Hi Hk).
Qed.

Lemma live_of_other L s : L <> X -> live_of L s = true -> seat_LicenseID s <> X.
Proof. intros HL [Hl _]%andb_prop. apply streq_true in Hl. congruence. Qed.

Lemma yields_ListSeats L : L <> X -> yields I (ListSeats L) (Forall (fun s => seat_LicenseID s <> X)).
Proof.
  intros HL. apply yields_read. intros db ss db' Hi [= <- <-]. split; [done|]. apply Forall_forall. intros s Hs.
  rewrite sort_by_perm in Hs. apply elem_of_rows in Hs as (k & _ & Hp). by eapply live_of_other.
Qed.

Lemma yields_latest_removed L e :
  L <> X -> yields I (latest_removed L e) (fun s => seat_LicenseID s <> X /\ our_seat (seat_ID s)).
Proof.
  intros HL. unfold latest_removed. eapply yields_bind.
  - apply (yields_read _ _ (Forall (fun s => seat_LicenseID s <> X /\ our_seat (seat_ID s)))). intros db ss db' Hi [= <- <-].
    split; [done|]. apply Forall_take, Forall_forall. intros s Hs. rewrite sort_by_perm in Hs.
    apply elem_of_rows in Hs as (k & Hk & Hp). change (db_seats db !! k = Some s) in Hk.
    repeat apply andb_prop in Hp as [Hp _]. apply streq_true in Hp. assert (seat_LicenseID s <> X) as Hne by congruence.
    split; [done|]. rewrite (proj2 (proj2 Hi) _ _ Hk). by apply (spare_seat db k s Hi Hk).
  - intros [|s l] Hl; [apply yields_throw|]. apply yields_ret. by inversion Hl.
Qed.

Definition names_other (key : string) : Prop := forall i l, db_licenses db0 !! i = Some l -> names key l -> lic_ID l <> X.

Lemma yields_select_license P :
  (forall i l, db_licenses db0 !! i = Some l -> P l = true -> lic_ID l <> X) -> yields I (select_license P) (fun lic => lic_ID lic <> X).
Proof.
  intros HP. apply yields_read. intros db lic db' Hi. destruct (first_row _) as [l|] eqn:El; [|done]. intros [= <- <-].
  split; [done|]. apply first_row_rows in El as (i & Hl & Hp). rewrite (proj1 (proj1 Hi)) in Hl. simpl. by eapply HP.
Qed.

Lemma yields_FindLicenseByKey key : names_other key -> yields I (FindLicenseByKey key) (fun lic => lic_ID lic <> X).
Proof.
  intros Hk. unfold FindLicenseByKey. eapply yields_bind.
  - apply yields_attempt, yields_select_license. intros i l Hl Hp%streq_true. eapply Hk; [exact Hl|by left].
  - intros [l|e] Hr; [by apply yields_ret|]. apply yields_select_license. intros i l Hl Hp%streq_true. eapply Hk; [exact Hl|by right].
Qed.

Lemma yields_load key productID capability usable :
  names_other key -> yields I (loadLicenseForSDK key productID capability usable) (fun lic => lic_ID lic <> X).
Proof.
  intros Hk. unfold loadLicenseForSDK. eapply yields_bind; [by apply yields_attempt, yields_FindLicenseByKey|].
  intros [lic|e] Hlic; [|destruct (goerr_Is _ _); apply yields_throw].
  destruct (_ && _); [apply yields_throw|]. destruct (_ && _); [apply yields_throw|].
  destruct usable; [|by apply yields_ret]. apply yields_then; [auto with licensehub|]. intros now.
  destruct (negb _); [apply yields_throw|by apply yields_ret].
Qed.

(** *** The services, for a key that names another licence *)

Lemma spare_audit {E} log : keeps (E := E) I (Audit log).
Proof. apply keeps_audit_log. intros m db Hi. exact Hi. Qed.
Lemma spare_Dispatch {E} productID event data : keeps (E := E) I (Dispatch productID event data).
Proof. apply keeps_Dispatch. intros m db Hi. exact Hi. Qed.

Ltac spare_step := first [apply spare_audit|apply spare_Dispatch|keeps_step].

Lemma yields_insert_seat s : seat_LicenseID s <> X -> yields I (insert_seat s) (fun s' => seat_LicenseID s' <> X).
Proof.
  intros Hne. unfold insert_seat. apply yields_then; [auto with licensehub|]. intros now. apply yields_then; [|intros _; by apply yields_ret].
  apply keeps_stmt. intros db u db' Hi (Hn & _ & _ & ->)%insert_row_Ok. change (t_get seats db) with (db_seats db) in *.
  apply spared_seats; [done| |].
  - apply rows_insert_out; [congruence|by apply of_license_false].
  - apply keyed_insert_row; [apply Hi|done].
Qed.

Lemma yields_readd e seat :
  seat_LicenseID e <> X -> our_seat (seat_ID e) -> yields I (readd_live e seat) (fun r => seat_LicenseID r.2 <> X).
Proof.
  intros Hne Ho. unfold readd_live. destruct (present _).
  - apply yields_then; [auto with licensehub|]. intros []. by apply yields_ret.
  - apply yields_then; [by apply spare_update_seat|]. intros n. apply yields_then; [auto with licensehub|]. intros []. by apply yields_ret.
Qed.

Lemma yields_restore seat : seat_LicenseID seat <> X -> yields I (restore_or_insert seat) (fun r => seat_LicenseID r.2 <> X).
Proof.
  intros Hne. unfold restore_or_insert. eapply yields_bind; [by apply yields_attempt, yields_latest_removed|]. intros [s|e] Hr.
  - destruct Hr as [Hs Ho]. apply yields_then; [by apply spare_update_seat|]. intros n. apply yields_then; [auto with licensehub|].
    intros []. by apply yields_ret.
  - destruct (negb _); [apply yields_throw|]. eapply yields_bind; [by apply yields_insert_seat|]. intros s Hs.
    apply yields_then; [auto with licensehub|]. intros []. by apply yields_ret.
Qed.

Lemma yields_AddSeatWithinLimit seat maxSeats :
  seat_LicenseID seat <> X -> yields I (AddSeatWithinLimit seat maxSeats) (fun r => seat_LicenseID r.2 <> X).
Proof.
  intros Hne. unfold AddSeatWithinLimit. apply yields_then; [apply keeps_fresh_id|]. intros id. cbv zeta.
  apply yields_with_tx, yields_then; [auto with licensehub|]. intros []. eapply yields_bind.
  - apply yields_attempt. unfold FindSeatByEmail. apply yields_select_seat. intros s [Hl _]%andb_prop. by eapply live_of_other.
  - intros [e|e] Hr; [destruct Hr; by apply yields_readd|]. destruct (negb _); [apply yields_throw|].
    apply yields_then; [unfold check_capacity; keeps_go|]. intros []. by apply yields_restore.
Qed.

Lemma yields_AddSeat mail ss in_ :
  names_other (as_LicenseKey in_) -> yields I (AddSeat mail ss in_) (fun s => seat_LicenseID s <> X).
Proof.
  intros Hk. unfold AddSeat. cbv zeta. destruct (ValidateEmail _ _); [apply yields_throw|]. destruct (_ && _); [apply yields_throw|].
  eapply yields_bind; [by apply yields_load|]. intros lic Hlic. destruct (EqualFold _ _); [apply yields_throw|]. unfold add_seat.
  apply yields_then; [unfold GenerateSeatInviteToken; keeps_go|]. intros [plain hash]. destruct (streq plain ""); [apply yields_throw|].
  apply yields_then; [auto with licensehub|]. intros now. eapply yields_bind; [by apply yields_attempt, yields_AddSeatWithinLimit|].
  intros [[o s]|e] Hr.
  2: { unfold seat_limit_error, CountActiveSeats. destruct (goerr_Is _ _); [|apply yields_throw].
       apply yields_then; [keeps_go|]. intros r. apply yields_throw. }
  apply yields_then; [unfold announce_seat; repeat spare_step|]. intros []. apply yields_then; [apply spare_audit|].
  intros []. by apply yields_ret.
Qed.

Lemma yields_internal {A} (m : M goerr A) F : yields I m F -> yields I (internal m) F.
Proof. apply yields_map_err. Qed.

Lemma keeps_RemoveSeat_service key seatID productID actor :
  names_other key -> keeps I (RemoveSeat_service key seatID productID actor).
Proof.
  intros Hk. unfold RemoveSeat_service. apply (keeps_yields _ _ (fun _ => True)).
  eapply yields_bind; [by apply yields_load|]. intros lic Hlic. eapply yields_bind; [apply yields_map_err, yields_FindSeatByID|].
  intros seat Hseat. destruct (streq (seat_LicenseID seat) (lic_ID lic)) eqn:El; simpl; [|apply yields_throw].
  apply streq_true in El. apply yields_keeps. apply keeps_bind.
  - apply keeps_map_err. unfold RemoveSeat. apply keeps_bind; [auto with licensehub|]. intros now.
    apply keeps_bind; [|auto with licensehub]. apply spare_remove_seat, Hseat. congruence.
  - intros []. repeat spare_step.
Qed.

Lemma yields_ListSeats_service key productID :
  names_other key -> yields I (ListSeats_service key productID) (Forall (fun s => seat_LicenseID s <> X)).
Proof.
  intros Hk. unfold ListSeats_service. eapply yields_bind; [by apply yields_load|]. intros lic Hlic.
  by apply yields_internal, yields_ListSeats.
Qed.

Lemma spare_counter L f p pk c : L <> X -> this_counter L f p pk c = true -> of_license uc_LicenseID X c = false.
Proof.
  unfold this_counter, same_counter. intros HL Hc. repeat apply andb_prop in Hc as [Hc _]. apply streq_true in Hc.
  apply of_license_false. congruence.
Qed.

Lemma keeps_Increment L feature period pk quantity limit :
  L <> X -> keeps I (IncrementUsageCounterWithLimit L feature period pk quantity limit).
Proof.
  intros HL. unfold IncrementUsageCounterWithLimit. apply keeps_with_tx. apply keeps_bind; [auto with licensehub|]. intros id.
  apply keeps_bind; [auto with licensehub|]. intros now. apply keeps_bind.
  { apply keeps_stmt. intros db u db' Hi. destruct (row_exists _ _); [by intros [= _ <-]|].
    intros Hins. refine (spare_insert usage_counters uc_LicenseID _ _ _ _ _ belongs_counters Hi _ Hins). exact HL. }
  intros []. apply keeps_bind; [apply keeps_read; intros db n db'; destruct (first_row _); intros; by simplify_eq|]. intros used.
  destruct (_ && _); [keeps_go|]. apply keeps_bind; [|intros c; keeps_go]. apply keeps_stmt. intros db c db' Hi. cbv zeta.
  destruct (row_exists _ _); [done|]. destruct (first_row _); [|done]. intros [= _ <-]. apply belongs_counters; [done|].
  apply rows_update_out. intros k r _ Hr. split; [by eapply spare_counter|]. eapply spare_counter; [exact HL|exact Hr].
Qed.

Lemma keeps_RecordUsage us in_ : names_other (ri_LicenseKey in_) -> keeps I (RecordUsage us in_).
Proof.
  intros Hk. unfold RecordUsage. cbv zeta. apply (keeps_yields _ _ (fun _ => True)). eapply yields_bind; [by apply yields_load|].
  intros lic Hlic. apply yields_keeps. destruct (find_quota _ _) as [quota|]; [|auto with licensehub].
  apply keeps_bind; [auto with licensehub|]. intros now. apply keeps_bind; [by apply keeps_map_err, keeps_Increment|].
  intros [c accepted]. destruct (negb accepted); [unfold quota_exceeded; repeat spare_step|]. apply keeps_bind.
  { unfold record_event, RecordUsageEvent. repeat first [apply keeps_fresh_id|keeps_step]. apply keeps_stmt. intros db u db' Hi.
    intros Hins. refine (spare_insert usage_events ue_LicenseID _ _ _ _ _ belongs_events Hi _ Hins). exact Hlic. }
  intros []. apply keeps_bind.
  { unfold enqueue_metered, InsertMeteredEvent. destruct (negb _); [|auto with licensehub].
    repeat first [apply keeps_fresh_id|keeps_step]. apply keeps_stmt. intros db u db' Hi.
    intros Hins. refine (spare_insert metered_billing mb_LicenseID _ _ _ _ _ belongs_metered Hi _ Hins). exact Hlic. }
  intros []. unfold warn_quota. repeat spare_step.
Qed.

Lemma keeps_GetQuotaStatus key feature productID : keeps I (GetQuotaStatus key feature productID).
Proof.
  unfold GetQuotaStatus, loadLicenseForSDK, FindLicenseByKey, select_license, used_now, GetUsageCounter.
  repeat first [apply keeps_read; intros ? ? ?; destruct (first_row _); intros; by simplify_eq|spare_step].
Qed.

(** *** What a session's address may reach *)

(** The rows of an answer are of other licences. *)
Definition rows_other (a : PortalAnswer) : Prop :=
  match a with
  | PortalLicenses ls => Forall (fun x => lic_ID x.1.1 <> X) ls
  | PortalSeats ss => Forall (fun s => seat_LicenseID s <> X) ss
  | PortalSeat s => seat_LicenseID s <> X
  | PortalActivations vs _ => Forall (fun v => our_device (pv_ID v)) vs
  | _ => True
  end.
#[local] Abbreviation answers m := (yields I m rows_other).

Lemma other_on_error {E A} (m : M E A) no k F :
  yields I m F -> (forall e, rows_other (no e)) -> (forall a, F a -> answers (k a)) -> answers (on_error m no k).
Proof.
  intros Hm Hno Hk. unfold on_error. eapply yields_bind; [by apply yields_attempt|]. intros [a|e] Ha; [by apply Hk|by apply yields_ret].
Qed.

Context (e : string) (Hlic : licenses_keyed db0).

Lemma yields_found_email authority key :
  stranger authority e X db0 -> yields I (FindLicenseByKey key) (fun lic => lic_ID lic = X -> EqualFold (lic_Email lic) e = false).
Proof.
  intros [Hx _]. assert (forall P, yields I (select_license P) (fun lic => lic_ID lic = X -> EqualFold (lic_Email lic) e = false)) as Hs.
  { intros P. apply yields_read. intros db lic db' Hi. destruct (first_row _) as [l|] eqn:El; [|done]. intros [= <- <-].
    split; [done|]. apply first_row_rows in El as (i & Hl & _). rewrite (proj1 (proj1 Hi)) in Hl. simpl. intros Hid. apply Hx.
    pose proof (Hlic _ _ Hl) as Hi'. by rewrite <- Hid, Hi'. }
  unfold FindLicenseByKey. eapply yields_bind; [apply yields_attempt, Hs|]. intros [l|err] Hr; [by apply yields_ret|apply Hs].
Qed.

Lemma stranger_seat authority db k s :
  stranger authority e X db0 -> I db -> db_seats db !! k = Some s -> live_of X s = true -> seat_Email s = e -> authority s = false.
Proof.
  intros [_ Hs] Hi Hk Hl He. apply (Hs k); [|done..]. pose proof (andb_prop _ _ Hl) as [Hid _].
  assert (rows (of_license seat_LicenseID X) (db_seats db) !! k = Some s) as Hr by by apply lookup_rows.
  rewrite (proj1 (proj2 (proj2 (proj1 Hi)))) in Hr. by apply lookup_rows in Hr as [Hr _].
Qed.

Lemma yields_found_seat authority L :
  stranger authority e X db0 -> yields I (FindSeatByEmail L e) (fun s => L = X -> authority s = false).
Proof.
  intros Hx. apply yields_read. intros db s db' Hi. destruct (first_row _) as [s0|] eqn:Es; [|done]. intros [= <- <-]. split; [done|].
  apply first_row_rows in Es as (k & Hk & [Hl He]%andb_prop). intros ->. eapply stranger_seat; [done..|by apply streq_true].
Qed.

Context (cx : Context_) (Hcx : emailFromContext cx = e).

Lemma yields_resolve key k :
  stranger accepted_seat e X db0 -> (forall lic, lic_ID lic <> X -> answers (k lic)) -> answers (resolveOwnedLicense cx key k).
Proof.
  intros Hx Hk. unfold resolveOwnedLicense. cbv zeta. rewrite Hcx. destruct (streq _ ""); [by apply yields_ret|].
  destruct (streq e ""); [by apply yields_ret|]. eapply other_on_error; [by eapply yields_found_email|done|].
  intros lic Hl. destruct (EqualFold _ _) eqn:Eq; [apply Hk; intros Hid; by rewrite (Hl Hid) in Eq|].
  eapply other_on_error; [by apply (yields_found_seat accepted_seat)|done|]. intros s Hs.
  destruct (accepted_seat s) eqn:Ea; [|by apply yields_ret]. apply Hk. intros Hid. by rewrite (Hs Hid) in Ea.
Qed.

Lemma yields_ListActivations L :
  L <> X -> yields I (ListActivations L) (Forall (fun a => our_device (act_ID a))).
Proof.
  intros HL. apply yields_read. intros db l db' Hi [= <- <-]. split; [done|]. apply Forall_forall. intros a Ha. rewrite sort_by_perm in Ha.
  apply elem_of_rows in Ha as (k & Hk & Hid%streq_true). change (db_activations db !! k = Some a) in Hk.
  rewrite (proj1 (proj2 Hi) _ _ Hk). refine (proj1 (spares_row _ _ _ k a _ Hk) _); [apply Hi|congruence].
Qed.

Lemma yields_ListActivations_ key : stranger accepted_seat e X db0 -> answers (ListActivations_ cx key).
Proof.
  intros Hx. apply yields_resolve; [done|]. intros lic Hl. eapply other_on_error; [by apply yields_ListActivations|done|].
  intros l Ha. apply yields_ret. simpl. by apply Forall_fmap.
Qed.

Lemma yields_DeleteActivation_ key id : stranger accepted_seat e X db0 -> answers (DeleteActivation_ cx key id).
Proof.
  intros Hx. apply yields_resolve; [done|]. intros lic Hl. cbv zeta. destruct (streq _ ""); [by apply yields_ret|].
  eapply other_on_error; [by apply yields_ListActivations|done|]. intros l Ha.
  destruct (existsb _ l) eqn:Ein; simpl; [|by apply yields_ret]. apply existsb_exists in Ein as (a & Hin%list_elem_of_In & Hid%streq_true).
  rewrite Forall_forall in Ha. specialize (Ha a Hin). rewrite Hid in Ha.
  apply (other_on_error _ _ _ (fun _ => True)); [by apply yields_keeps, spare_delete_activation| |].
  - intros err. unfold delete_error. by destruct (goerr_Is _ _).
  - intros _ _. apply yields_then; [apply spare_audit|]. intros []. by apply yields_ret.
Qed.

Lemma yields_portal_licenses : stranger any_seat e X db0 -> answers (portal_licenses cx).
Proof.
  intros Hx. unfold portal_licenses. rewrite Hcx. destruct (streq e ""); [by apply yields_ret|].
  eapply other_on_error; [|done|intros ls Hls; apply yields_ret; exact Hls].
  apply yields_read. intros db ls db' Hi [= <- <-]. split; [done|]. apply Forall_fmap, Forall_forall. intros l Hl. simpl.
  unfold newest_licenses in Hl. apply list_elem_of_fmap in Hl as (l0 & -> & Hl). rewrite sort_by_perm in Hl.
  apply elem_of_rows in Hl as (i & Hl & Hp). rewrite (proj1 (proj1 Hi)) in Hl. simpl. intros Hid.
  pose proof (Hlic _ _ Hl) as Hi'. rewrite Hi' in Hid. subst i. apply orb_prop in Hp as [He%streq_true|Hs].
  - pose proof (proj1 Hx _ Hl) as Hne. rewrite He in Hne. unfold EqualFold in Hne. by rewrite bool_decide_eq_false in Hne.
  - apply row_exists_true in Hs as (k & s & Hk & Hs). apply andb_prop in Hs as [Hs Hlv]. apply andb_prop in Hs as [HL He].
    apply streq_true in HL, He. rewrite Hi' in HL.
    pose proof (stranger_seat any_seat db k s Hx Hi Hk) as Hf. specialize (Hf ltac:(unfold live_of; by rewrite HL, streq_refl, Hlv) He). done.
Qed.

(** *** The guarded handlers *)

Context (mail : string -> option string) (us : UsageService) (ss : SeatService).

(** What the guard and the handler read of the body of a guarded route. *)
Definition guarded (r : PortalRoute) : option ((Seat -> bool) * option string * string) :=
  match r with
  | RouteUsage g (Some q) => Some (any_seat, g, uq_key q)
  | RouteUsageStatus g (Some (key, _)) | RouteSeats g (Some key) => Some (any_seat, g, key)
  | RouteSeatAdd g (Some q) => Some (admin_seat, g, sq_key q)
  | RouteSeatRemove g (Some (key, _)) => Some (admin_seat, g, key)
  | _ => None
  end.

Lemma yields_app_error {E' A} (m : M E' A) (no : E' -> PortalAnswer) (answer : A -> PortalAnswer) F :
  yields I m F -> (forall err, rows_other (no err)) -> (forall a, F a -> rows_other (answer a)) ->
  answers (on_error m no (fun a => mret (answer a))).
Proof. intros Hm Hno Ha. eapply other_on_error; [exact Hm|exact Hno|]. intros a Fa. by apply yields_ret, Ha. Qed.

Lemma yields_RecordUsage_ q ip : (uq_key q <> "" -> names_other (uq_key q)) -> answers (RecordUsage_ us "" ip (Some q)).
Proof.
  intros Hk. unfold RecordUsage_. destruct (streq (uq_key q) "") eqn:E0; [by apply yields_ret|]. apply streq_false in E0. simpl.
  destruct (streq (uq_feature q) ""); [by apply yields_ret|].
  apply (yields_app_error _ _ _ (fun _ => True)); [apply yields_keeps, keeps_RecordUsage, Hk, E0|done..].
Qed.
Lemma yields_GetQuotaStatus_ req : answers (GetQuotaStatus_ "" req).
Proof.
  unfold GetQuotaStatus_. destruct req as [[key feature]|]; [|by apply yields_ret]. destruct (_ || _); [by apply yields_ret|].
  apply (yields_app_error _ _ _ (fun _ => True)); [apply yields_keeps, keeps_GetQuotaStatus|done..].
Qed.
Lemma yields_AddSeat_ q actor : (sq_key q <> "" -> names_other (sq_key q)) -> answers (AddSeat_ mail ss "" actor (Some q)).
Proof.
  intros Hk. unfold AddSeat_. destruct (streq (sq_key q) "") eqn:E0; [by apply yields_ret|]. apply streq_false in E0. simpl.
  destruct (streq (sq_email q) ""); [by apply yields_ret|]. eapply yields_app_error; [apply yields_AddSeat, Hk, E0|done..].
Qed.
Lemma yields_RemoveSeat_ key seatID actor : (key <> "" -> names_other key) -> answers (RemoveSeat_ "" actor (Some (key, seatID))).
Proof.
  intros Hk. unfold RemoveSeat_. destruct (streq key "") eqn:E0; [by apply yields_ret|]. apply streq_false in E0. simpl.
  destruct (streq seatID ""); [by apply yields_ret|].
  apply (yields_app_error _ _ _ (fun _ => True)); [apply yields_keeps, keeps_RemoveSeat_service, Hk, E0|done..].
Qed.
Lemma yields_ListSeats_ key : (key <> "" -> names_other key) -> answers (ListSeats_ "" (Some key)).
Proof.
  intros Hk. unfold ListSeats_. destruct (streq key "") eqn:E0; [by apply yields_ret|]. apply streq_false in E0.
  eapply yields_app_error; [apply yields_ListSeats_service, Hk, E0|done..].
Qed.

(** *** The guard, when nothing fails *)

Lemma named_other i l key :
  names_one key db0 -> db_licenses db0 !! i = Some l -> names key l -> i <> X -> names_other key.
Proof. intros Hone Hl Hn Hne j l' Hl' Hn'. rewrite (Hlic _ _ Hl'). by rewrite <- (Hone i l j l'). Qed.

Lemma lookup_none key : lookup_license db0 key = None -> names_other key.
Proof.
  unfold lookup_license. destruct (first_row _) eqn:E1; [done|]. intros E2%fmap_None i l Hl [Hh|Hk].
  - apply first_row_rows_None with (k := i) (r := l) in E1; [|done]. by rewrite Hh, streq_refl in E1.
  - apply first_row_rows_None with (k := i) (r := l) in E2; [|done]. by rewrite Hk, streq_refl in E2.
Qed.

(** A refusal that is the same whatever the database holds. *)
Definition blank (a : PortalAnswer) : Prop :=
  a = po_missing "license not found" \/ a = po_unauthorized \/
  a = po_refuse 413 "BODY_TOO_LARGE" "request body exceeds 64 KiB" \/
  (exists message, a = po_bad message) \/ (exists status code, a = po_refuse status code "").

Lemma blank_other a : blank a -> rows_other a.
Proof. by intros [->|[->|[->|[[m ->]|(st & code & ->)]]]]. Qed.

(** Either the guard refuses, or the handler runs and the key is not [X]'s. *)
Lemma guard_quiet authority key next w :
  quiet w -> w_db w = db0 -> key <> "" -> names_one key db0 -> stranger authority e X db0 ->
  (exists a, portal_guard cx authority (Some key) next w = (Ok a, w) /\ blank a) \/
  (portal_guard cx authority (Some key) next w = next w /\ names_other key).
Proof.
  intros Hq Hdb Hkey Hone [Hx Hseat]. unfold portal_guard. rewrite (proj2 (streq_false key "")), Hcx by done.
  assert (blank (po_missing "license not found")) as Hb by by left.
  destruct (streq e ""); [left; eexists; split; [done|by right; left]|]. unfold mbind, M_bind, attempt. pose proof (FindLicenseByKey_quiet key w Hq) as Hf.
  rewrite Hf, Hdb. destruct (lookup_license db0 key) as [lic|] eqn:El; [|right; split; [done|by apply lookup_none]].
  rewrite Hdb, El in Hf. apply FindLicenseByKey_Ok in Hf as (i & l & Hl & -> & Hn); [|apply Hq]. rewrite Hdb in *. simpl.
  destruct (decide (i = X)) as [->|Hne]; [|assert (names_other key) as Hother by (eapply named_other; done)].
  - rewrite (Hx _ Hl). unfold FindSeatByEmail. rewrite select_one_quiet, Hdb by done. left. rewrite (Hlic _ _ Hl).
    destruct (first_row _) as [s|] eqn:Es; [|by eexists]. apply first_row_rows in Es as (k & Hk & [Hlv He]%andb_prop).
    rewrite (Hseat k s Hk Hlv) by by apply streq_true. by eexists.
  - destruct (EqualFold _ _); [by right|]. unfold FindSeatByEmail. rewrite select_one_quiet by done.
    destruct (first_row _) as [s|]; [|left; by eexists]. destruct (authority s); [by right|left; by eexists].
Qed.

(** *** The routes *)

Lemma yields_guard_none authority next : answers (portal_guard cx authority None next).
Proof. by apply yields_ret. Qed.

Definition route_authority (r : PortalRoute) : Seat -> bool :=
  match r with
  | RouteSeatAdd _ _ | RouteSeatRemove _ _ => admin_seat
  | RouteActivations _ | RouteActivationDelete _ _ => accepted_seat
  | _ => any_seat
  end.

(** A route without a key, or whose body the handler cannot decode. *)
Lemma yields_guard authority key next : answers next -> answers (portal_guard cx authority key next).
Proof.
  intros Hn. unfold portal_guard. destruct key as [key|]; [|by apply yields_ret]. destruct (streq key ""); [done|].
  destruct (streq _ ""); [by apply yields_ret|]. apply yields_then; [unfold FindLicenseByKey, select_license|].
  - repeat first [apply keeps_read; intros ? ? ?; destruct (first_row _); intros; by simplify_eq|keeps_step].
  - intros [lic|err]; [|done]. destruct (EqualFold _ _); [done|]. apply yields_then; [unfold FindSeatByEmail; keeps_go|].
    intros [s|err]; [|by apply yields_ret]. destruct (authority s); [done|by apply yields_ret].
Qed.

Lemma yields_unguarded r :
  guarded r = None -> stranger (route_authority r) e X db0 -> answers (portal_route mail us ss cx r).
Proof.
  intros Hg Hx. destruct r as [| |name|p|g [q|]|g [[]|]|g [key|]|g [q|]|g [[]|]|key|key id]; simpl in *; try done;
    try (apply yields_guard; by apply yields_ret).
  - unfold Me. destruct (streq _ ""); [by apply yields_ret|].
    apply (other_on_error _ _ _ (fun _ => True)); [apply yields_keeps; unfold FindUserByID; keeps_go|done|]. intros u _. by apply yields_ret.
  - by apply yields_portal_licenses.
  - unfold portal_profile. destruct (streq _ ""); [by apply yields_ret|]. destruct name as [name|]; [|by apply yields_ret]. cbv zeta.
    destruct (100 <? _); [by apply yields_ret|]. apply (other_on_error _ _ _ (fun _ => True)); [apply yields_keeps|done|].
    + unfold UpdateUserProfile. apply keeps_bind; [auto with licensehub|]. intros now. apply keeps_bind; [|auto with licensehub].
      apply keeps_update_ignored. intros m db Hi. exact Hi.
    + intros _ _. apply (other_on_error _ _ _ (fun _ => True)); [apply yields_keeps; unfold FindUserByID; keeps_go|done|].
      intros u _. by apply yields_ret.
  - unfold portal_plans. destruct (streq _ ""); [by apply yields_ret|].
    apply (other_on_error _ _ _ (fun _ => True)); [|done|intros ps _; by apply yields_ret].
    apply yields_keeps, keeps_read. by intros ??? [= _ <-].
  - by apply yields_ListActivations_.
  - by apply yields_DeleteActivation_.
Qed.

(** *** Requests that name the licence *)

(** The key a route reads. *)
Definition route_key (r : PortalRoute) : option string :=
  match r with
  | RouteActivations key | RouteActivationDelete key _ => Some (TrimSpace key)
  | _ => snd <$> guarded r
  end.

(** The key of the route names [X] and no other licence. *)
Definition asks_for (r : PortalRoute) : Prop :=
  exists key l, route_key r = Some key /\ db_licenses db0 !! X = Some l /\ names key l /\
    forall i l', db_licenses db0 !! i = Some l' -> names key l' -> i = X.

(** The answer has no row of [X], and when the request names [X] it is a refusal
    that does not depend on the database. *)
Definition tells_nothing (r : PortalRoute) (a : PortalAnswer) : Prop :=
  match a with
  | PortalLicenses ls => Forall (fun x => lic_ID x.1.1 <> X) ls /\ ~ asks_for r
  | PortalSeats ss => Forall (fun s => seat_LicenseID s <> X) ss /\ ~ asks_for r
  | PortalSeat s => seat_LicenseID s <> X /\ ~ asks_for r
  | PortalActivations vs _ => Forall (fun v => our_device (pv_ID v)) vs /\ ~ asks_for r
  | PortalRecorded _ | PortalQuota _ | PortalDone _ | PortalUser _ | PortalPlans _ => ~ asks_for r
  | PortalRefused env => asks_for r -> blank (PortalRefused env)
  end.

Lemma tells_nothing_intro r a : rows_other a -> (asks_for r -> blank a) -> tells_nothing r a.
Proof.
  assert (forall a', (forall env, a' <> PortalRefused env) -> (asks_for r -> blank a') -> ~ asks_for r) as Hno.
  { intros a' Hn Hb Ha. destruct (Hb Ha) as [->|[->|[->|[[m ->]|(st & code & ->)]]]]; by edestruct Hn. }
  intros Hr Hb. destruct a; simpl in *; try done; try (split; [done|]); by eapply Hno, Hb.
Qed.

Lemma tells_nothing_blank r a : asks_for r -> tells_nothing r a -> blank a.
Proof. intros Ha. destruct a; simpl; try (intros Hn; by destruct Hn); try (intros [_ Hn]; by destruct Hn). intros Hb. by apply Hb. Qed.

Lemma asks_key r key : asks_for r -> route_key r = Some key -> ~ names_other key.
Proof. intros (key' & l & Hk & Hl & Hn & _) Hk' Ho. rewrite Hk in Hk'. injection Hk' as <-. by apply (Ho X l Hl Hn), Hlic. Qed.

Lemma yields_asked authority r key :
  asks_for r -> route_key r = Some key -> stranger authority e X db0 ->
  yields I (FindLicenseByKey key) (fun lic => lic_ID lic = X /\ EqualFold (lic_Email lic) e = false).
Proof.
  intros (key' & l & Hk & _ & _ & Honly) Hk' [Hx _]. rewrite Hk in Hk'. injection Hk' as <-.
  assert (forall P, (forall l, P l = true -> names key' l) ->
    yields I (select_license P) (fun lic => lic_ID lic = X /\ EqualFold (lic_Email lic) e = false)) as Hs.
  { intros P HP. apply yields_read. intros db lic db' Hi. destruct (first_row _) as [l1|] eqn:El; [|done]. intros [= <- <-].
    split; [done|]. apply first_row_rows in El as (i & Hl & Hp). rewrite (proj1 (proj1 Hi)) in Hl. simpl.
    pose proof (Honly i l1 Hl (HP _ Hp)) as ->. split; [by apply Hlic|by apply Hx]. }
  unfold FindLicenseByKey. eapply yields_bind; [apply yields_attempt, Hs; intros x Hp%streq_true; by left|].
  intros [l1|err] Hr; [by apply yields_ret|]. apply Hs. intros x Hp%streq_true. by right.
Qed.

(** A device route that names [X] ends where the owner is looked up. *)
Lemma yields_resolve_blank r key k :
  asks_for r -> route_key r = Some (TrimSpace key) -> stranger accepted_seat e X db0 ->
  yields I (resolveOwnedLicense cx key k) blank.
Proof.
  intros Ha Hr Hx. assert (blank (po_missing "license not found")) as Hb by by left.
  unfold resolveOwnedLicense. cbv zeta. rewrite Hcx. destruct (streq _ ""); [apply yields_ret; right; right; right; left; by eexists|].
  destruct (streq e ""); [apply yields_ret; by right; left|]. unfold on_error.
  eapply yields_bind; [eapply yields_attempt, yields_asked; done|]. intros [lic|err] Hl; [|by apply yields_ret].
  destruct Hl as [Hid ->]. eapply yields_bind; [apply yields_attempt, (yields_found_seat accepted_seat), Hx|].
  intros [s|err] Hs; [|by apply yields_ret]. rewrite (Hs Hid). by apply yields_ret.
Qed.

Lemma yields_device_blank r :
  guarded r = None -> asks_for r -> stranger (route_authority r) e X db0 -> yields I (portal_route mail us ss cx r) blank.
Proof.
  intros Hg Ha Hx. pose proof Ha as (key & l & Hk & _). destruct r as [| |name|p|g [q|]|g [[]|]|g [k|]|g [q|]|g [[]|]|k|k id]; try done.
  - by eapply yields_resolve_blank.
  - by eapply yields_resolve_blank.
Qed.

Lemma guarded_run r authority g key w :
  guarded r = Some (authority, g, key) -> quiet w -> w_db w = db0 -> names_one key db0 -> g = None \/ g = Some key ->
  stranger (route_authority r) e X db0 -> I db0 ->
  let '(a, w') := portal_route mail us ss cx r w in
  I (w_db w') /\ match a with Ok a => tells_nothing r a | Err _ => True end.
Proof.
  intros Hr Hq Hdb Hone Hg Hx Hi.
  assert (route_key r = Some key) as Hkey by (destruct r; try done; cbn [route_key]; by rewrite Hr).
  assert (forall m : M goerr PortalAnswer, answers m -> (asks_for r -> names_other key) ->
    let '(a, w') := m w in I (w_db w') /\ match a with Ok a => tells_nothing r a | Err _ => True end) as Hrun.
  { intros m Hm Ho. destruct (Hm w) as [[Hs _] Ha]; [apply safe_closed; [by rewrite Hdb|apply Hq]|]. destruct (m w) as [[a|err] w']; [|done].
    split; [done|]. apply tells_nothing_intro; [exact Ha|]. intros Hask. destruct (asks_key r key Hask Hkey (Ho Hask)). }
  assert (forall m : M goerr PortalAnswer, ((key <> "" -> names_other key) -> answers m) ->
    (key = "" -> exists message, m = mret (po_bad message)) ->
    let '(a, w') := portal_guard cx (route_authority r) g m w in I (w_db w') /\ match a with Ok a => tells_nothing r a | Err _ => True end) as Hgo.
  { intros m Hm Hempty. assert (forall a, blank a -> I (w_db w) /\ tells_nothing r a) as Hblank.
    { intros a Hb. rewrite Hdb. split; [done|]. apply tells_nothing_intro; [by apply blank_other|done]. }
    destruct Hg as [->| ->]; [apply (Hblank (po_refuse 413 _ _)); by right; right; left|].
    destruct (decide (key = "")) as [Hk|Hne].
    - destruct (Hempty Hk) as [message ->]. rewrite Hk. apply (Hblank (po_bad message)). right. right. right. left. by eexists.
    - destruct (guard_quiet (route_authority r) key m w Hq Hdb Hne Hone Hx) as [(a & -> & Ha)|[Hgq Hother]]; [by apply Hblank|].
      rewrite Hgq. apply Hrun; [by apply Hm|done]. }
  destruct r as [| |name|p|g' [q|]|g' [[k f]|]|g' [k|]|g' [q|]|g' [[k id]|]|k|k id]; simpl in Hr; try done;
    injection Hr as <- <- <-; apply Hgo.
  - apply yields_RecordUsage_.
  - intros Hk. unfold RecordUsage_. rewrite Hk. by eexists.
  - intros _. apply yields_GetQuotaStatus_.
  - intros ->. by eexists.
  - apply yields_ListSeats_.
  - intros ->. by eexists.
  - apply yields_AddSeat_.
  - intros Hk. unfold AddSeat_. rewrite Hk. by eexists.
  - apply yields_RemoveSeat_.
  - intros ->. by eexists.
Qed.
End stranger.

(** ** The session in front *)

Section session.
Context `{UUIDs} (jwt_parse : string -> string -> Time -> option Claims) (secret : string) (cred : Credential).

(** The context carries the address of the claims. *)
Definition of_session (cx : Context_) : Prop :=
  exists now claims, jwt_parse secret (session_token cred) now = Some claims /\ cx_email cx = Some (cl_Email claims).

Lemma yields_session {E} I : yields (E := E) I (session_context jwt_parse secret cred)
  (fun r => match r with inl cx => of_session cx | inr _ => True end).
Proof.
  unfold session_context. eapply (yields_bind _ _ _ (fun r => match r with
    | inl who => exists now claims, jwt_parse secret (session_token cred) now = Some claims /\ id_email who = cl_Email claims
    | inr _ => True end)).
  - unfold sessionAuth. destruct (streq _ ""); [by apply yields_ret|]. apply yields_then; [auto with licensehub|]. intros now.
    destruct (jwt_parse _ _ now) as [claims|] eqn:Ej; [|by apply yields_ret]. destruct (_ || _); [by apply yields_ret|].
    apply yields_then; [unfold FindUserSessionState, FindUserByID; keeps_go|]. intros [adm valid].
    destruct (negb valid); [by apply yields_ret|]. apply yields_ret. by exists now, claims.
  - intros [who|[]] Hwho; apply yields_ret; [|done..]. destruct Hwho as (now & claims & Hj & He). exists now, claims. simpl. by rewrite He.
Qed.

Lemma session_quiet {E} w :
  quiet w -> quiet (snd (session_context (E := E) jwt_parse secret cred w)) /\
    w_db (snd (session_context (E := E) jwt_parse secret cred w)) = w_db w.
Proof.
  intros Hq. unfold session_context, sessionAuth. destruct (streq _ ""); [done|]. unfold mbind, M_bind.
  destruct (time_Now_quiet (E := E) w Hq) as (now & w1 & -> & Hq1 & Hd & _). destruct (jwt_parse _ _ now) as [claims|]; [|done].
  destruct (_ || _); [done|]. unfold FindUserSessionState, mbind, M_bind, attempt, FindUserByID. rewrite select_one_quiet by done.
  destruct (first_row _) as [u|]; simpl; [|done]. by destruct (negb (user_SessionVersion u =? _)).
Qed.
End session.


(** ** Instances *)

#[local] Existing Instance Demo.uuids.

Module PortalDemo.
Definition user (id : string) : User := mkUser id (id +:+ "@example.com") "" "" RoleUser 0 0 0.
(** A pending invitation of pat to the first licence. *)
Definition invited : Seat := mkSeat "seat-1" "lic-1" "" "pat@example.com" "member" 0 None None "hash" (Some (2000 * Second)) 0.
Definition shouted (l : License) : License :=
  mkLicense (lic_ID l) (lic_ProductID l) (lic_PlanID l) (lic_UserID l) "Cat@Example.com" (lic_LicenseKey l) (lic_KeyHash l)
    "" "stripe" "" "" (lic_Status l) 0 None None None None "" "" "" "" 0 0 None None.
Definition db : DB :=
  t_set users {["lic-2" := user "lic-2"; "eve" := user "eve"; "pat" := user "pat"; "cat" := user "cat"]}
  (t_set seats {["seat-1" := invited]}
  (t_set licenses (alter shouted "lic-3" (db_licenses Demo.db)) Demo.db)).
Definition world (faults : list fault) : World := mkWorld db None (1000 * Second) [5%N] faults false 0 (repeat "r"%char 64) ∅ [].
(** The token is the user's identifier. *)
Definition parse (secret raw : string) (now : Time) : option Claims :=
  Some (mkClaims raw (raw +:+ "@example.com") "" false 0 "otp" 0 0 "jwt-1").
Definition usage_service : UsageService := mkUsageService false (float64 0).
Definition portal (who : string) : PortalRoute -> M goerr PortalAnswer :=
  serve_portal Some usage_service SeatsDemo.service parse "s" (mkCredential ("Bearer " +:+ who) None "10.0.0.1").
Definition seat_for (address : string) : option SeatRequest := Some (mkSeatRequest "KEY-2" address "member").
Definition use : option UsageRequest := Some (mkUsageRequest "KEY-1" "export" 1 ∅).
Definition live_seats (X : string) (w : World) : Z := count (live_of X) (db_seats (w_db w)).

Definition names_oneb (key : string) (db : DB) : bool :=
  let named l := streq (lic_KeyHash l) (HashKey key) || streq (lic_LicenseKey l) key in
  let ls := map_to_list (db_licenses db) in
  forallb (fun a => forallb (fun b => negb (named a.2) || negb (named b.2) || streq a.1 b.1) ls) ls.
Definition strangerb (authority : Seat -> bool) (e X : string) (db : DB) : bool :=
  match db_licenses db !! X with Some l => negb (EqualFold (lic_Email l) e) | None => true end &&
  forallb (fun kv => negb (live_of X kv.2 && streq (seat_Email kv.2) e) || negb (authority kv.2)) (map_to_list (db_seats db)).
End PortalDemo.

Lemma names_oneb_sound key db : PortalDemo.names_oneb key db = true -> names_one key db.
Proof.
  unfold PortalDemo.names_oneb. cbv zeta. rewrite forallb_forall. intros Hall i l j l' Hi Hl Hj Hl'.
  assert (forall x, names key x -> streq (lic_KeyHash x) (HashKey key) || streq (lic_LicenseKey x) key = true) as Hn.
  { intros x [->| ->]; rewrite streq_refl; [done|apply orb_true_r]. }
  assert (In (i, l) (map_to_list (db_licenses db))) as Ii by by apply list_elem_of_In, elem_of_map_to_list.
  assert (In (j, l') (map_to_list (db_licenses db))) as Ij by by apply list_elem_of_In, elem_of_map_to_list.
  specialize (Hall _ Ii). rewrite forallb_forall in Hall. specialize (Hall _ Ij). simpl in Hall.
  rewrite (Hn l Hl), (Hn l' Hl') in Hall. by apply streq_true in Hall.
Qed.

Lemma strangerb_sound authority e X db : PortalDemo.strangerb authority e X db = true -> stranger authority e X db.
Proof.
  unfold PortalDemo.strangerb. intros [H1 H2]%andb_prop. rewrite forallb_forall in H2. split.
  - intros l Hl. rewrite Hl in H1. by apply negb_true_iff in H1.
  - intros k s Hs Hlv He. assert (In (k, s) (map_to_list (db_seats db))) as Is by by apply list_elem_of_In, elem_of_map_to_list.
    specialize (H2 _ Is). simpl in H2. rewrite Hlv, He, streq_refl in H2. by apply negb_true_iff in H2.
Qed.

Lemma portal_demo_licenses : licenses_keyed PortalDemo.db.
Proof. apply (map_Forall_to_list (fun k l => lic_ID l = k)). vm_compute. repeat constructor. Qed.
Lemma portal_demo_activations : keyed act_ID (db_activations PortalDemo.db).
Proof. apply (map_Forall_to_list (fun k a => act_ID a = k)). vm_compute. repeat constructor. Qed.
Lemma portal_demo_seats : keyed seat_ID (db_seats PortalDemo.db).
Proof. apply (map_Forall_to_list (fun k s => seat_ID s = k)). vm_compute. repeat constructor. Qed.

(** A request for the quota of the first licence. *)
Definition quota_of_first : PortalRoute := RouteUsageStatus (Some "KEY-1") (Some ("KEY-1", "export")).

Lemma quota_asks_first : asks_for "lic-1" PortalDemo.db quota_of_first.
Proof.
  assert (names_one "KEY-1" PortalDemo.db) as Hone by (apply names_oneb_sound; vm_compute; reflexivity).
  assert (exists l, db_licenses PortalDemo.db !! "lic-1" = Some l /\ names "KEY-1" l) as (l & Hl & Hn)
    by (eexists; split; [reflexivity|by right]).
  exists "KEY-1", l. split_and!; [done..|]. intros i l' Hi Hn'. by eapply Hone.
Qed.


(** The seat is added for the owner, and refused to another as if there were no
    such licence. *)
Example portal_answers :
  let add := RouteSeatAdd (Some "KEY-2") (PortalDemo.seat_for "new@example.com") in
  let '(a, w1) := PortalDemo.portal "lic-2" add (PortalDemo.world []) in
  let '(b, w2) := PortalDemo.portal "eve" add (PortalDemo.world []) in
  (exists s, a = Ok (PortalSeat s)) /\ PortalDemo.live_seats "lic-2" w1 = 1 /\
  b = Ok (po_missing "license not found") /\ PortalDemo.live_seats "lic-2" w2 = 0.
Proof. vm_compute. split_and!; [eexists|..]; reflexivity. Qed.

(** Trailing_bytes_pass: [json.Unmarshal] refuses a body with bytes after the
    object, and the guard lets what it cannot read through; the decoder of the
    handler stops after the object.  A stranger adds a seat. *)
Theorem trailing_bytes_pass :
  let '(a, w') := PortalDemo.portal "eve" (RouteSeatAdd (Some "") (PortalDemo.seat_for "eve@example.com")) (PortalDemo.world []) in
  (exists s, a = Ok (PortalSeat s) /\ seat_Email s = "eve@example.com") /\ PortalDemo.live_seats "lic-2" w' = 1.
Proof. vm_compute. split; [eexists; split; reflexivity|reflexivity]. Qed.

(** Guard_fails_open: so does one whose lookup in the guard failed. *)
Theorem guard_fails_open :
  let '(a, w') := PortalDemo.portal "eve" (RouteSeatAdd (Some "KEY-2") (PortalDemo.seat_for "eve@example.com"))
    (PortalDemo.world [NoFault; Lost false; Lost false]) in
  (exists s, a = Ok (PortalSeat s)) /\ PortalDemo.live_seats "lic-2" w' = 1.
Proof. vm_compute. split; [eexists; reflexivity|reflexivity]. Qed.

(** Pending_seat_spends: an invitation not yet accepted is enough to spend the
    quota of the licence, but not to see its devices. *)
Theorem pending_seat_spends :
  (exists r, fst (PortalDemo.portal "pat" (RouteUsage (Some "KEY-1") PortalDemo.use) (PortalDemo.world [])) = Ok (PortalRecorded r)) /\
  fst (PortalDemo.portal "pat" (RouteActivations "KEY-1") (PortalDemo.world [])) = Ok (po_missing "license not found").
Proof. vm_compute. split; [eexists|]; reflexivity. Qed.

(** Mixed_case_unlisted: an owner whose address is stored in mixed case manages
    the devices of a licence the listing does not show. *)
Theorem mixed_case_unlisted :
  (exists vs max, fst (PortalDemo.portal "cat" (RouteActivations "KEY-3") (PortalDemo.world [])) = Ok (PortalActivations vs max)) /\
  fst (PortalDemo.portal "cat" RouteLicenses (PortalDemo.world [])) = Ok (PortalLicenses []).
Proof. vm_compute. split; [eexists _, _|]; reflexivity. Qed.

Example tags_stripped : stripHTMLTags "<b>Ann</b> > Bob" = "Ann  Bob".
Proof. reflexivity. Qed.
