(* ===== verification/Sdk.v ===== *)
(** * The SDK routes ([handler/license.go], [handler/floating.go], [handler/entitlement.go])

    What an SDK calls with a licence key or a lease: the handlers, and the
    middlewares in front of them as [cmd/server/main.go] composes them (the
    lockout of the address, the rate limit, and the idempotency slot on the
    routes that write).  [sdk_requests_respect_limit]: no sequence of requests
    takes a licence over its number of devices. *)

From S2P Require Import Prelude GoStrings Errors Model Crypto Lockout RateLimit World Tables Logic Token Usability Store Webhook.
From S2P Require Import LicenseService Lookup LicenseProps Usage Entitlement Seats Floating Idempotency AesGcm ReleaseStore Release ReleaseInv Sessions Access.
From S2P Require Import Confinement Scoped ReleaseAdmin Portal Demo ReleaseDemo.
From Stdlib Require Import Ascii String.

#[local] Open Scope string_scope.
#[local] Open Scope Z_scope.

(** ** Requests and answers *)

Record ActivateRequest := mkActivateRequest {
  aq_LicenseKey : string; aq_Identifier : string; aq_IdentifierType : string; aq_Label : string
}.
Record DeviceRequest := mkDeviceRequest { dq_LicenseKey : string; dq_Identifier : string }.
Record CheckOutRequest := mkCheckOutRequest { oq_LicenseKey : string; oq_Identifier : string; oq_Label : string }.
Record DownloadRequest := mkDownloadRequest { wq_LicenseKey : string; wq_Platform : string; wq_Version : string; wq_Channel : string }.
Record clientLeaseRequest := mkClientLease { lq_ProductID : string; lq_DeviceID : string; lq_Lease : string }.
Record clientLicenseRequest := mkClientLicense {
  cq_LicenseKey : string; cq_ProductID : string; cq_DeviceID : string; cq_Label : string
}.

(** What the strict decoder makes of a body. *)
Inductive Decoded (A : Type) :=
  | BodyTooLarge
  | BodyMalformed                  (* not JSON of the struct, or an unknown field *)
  | BodyTrailing                   (* something follows the object *)
  | Decodes (a : A).
Arguments BodyTooLarge {_}.
Arguments BodyMalformed {_}.
Arguments BodyTrailing {_}.
Arguments Decodes {_} _.

Inductive SdkRoute :=
  | SActivate (req : option ActivateRequest)
  | SUsage (req : option UsageRequest)
  | SCheckOut (req : option CheckOutRequest)
  | SVerify (req : option DeviceRequest)
  | SDeactivate (req : option DeviceRequest)
  | SEntitlements (req : option (string * string))
  | SUsageStatus (req : option (string * string))
  | SCheckIn (req : option DeviceRequest)
  | SHeartbeat (req : option DeviceRequest)
  | SDownload (req : option DownloadRequest)
  | CActivate (body : Decoded clientLicenseRequest)
  | CRefresh (body : Decoded clientLeaseRequest)
  | CDeactivate (body : Decoded clientLeaseRequest).

Inductive SdkAnswer :=
  | SdkActivated (r : ActivateResult)
  | SdkVerified (r : VerifyResult)
  | SdkLeased (lease : string) (status_and_id : option (string * string))
  | SdkDone (status : string)
  | SdkChecked (r : CheckResult)
  | SdkSession (r : CheckOutResult)
  | SdkBeat (expires_at : Time) (remaining_seconds active_sessions max_sessions : Z)
  | SdkDownload (r : DownloadResult)
  | SdkMetered (a : PortalAnswer)
  | SdkRefused (e : Envelope).

Definition sdk_refuse (status : Z) (code message : string) : SdkAnswer := SdkRefused (mkEnvelope status code message None).
Definition sdk_bad (message : string) : SdkAnswer := sdk_refuse 400 "BAD_REQUEST" message.
Definition sdk_error (e : error) : SdkAnswer := SdkRefused (writeAppErr e).

Definition sdk_status (a : SdkAnswer) : Z :=
  match a with
  | SdkRefused e | SdkMetered (PortalRefused e) => env_status e
  | _ => 200
  end.

Definition maxIdentifierLen : Z := 256.
Definition maxClientLicenseKey : Z := 512.
Definition maxClientProductID : Z := 128.
Definition maxClientLabel : Z := 128.
Definition maxClientLease : Z := 48 * 1024.

(** ** Strict bodies *)

Definition bindStrictClientJSON {A} (body : Decoded A) : A + SdkAnswer :=
  match body with
  | BodyTooLarge => inr (sdk_refuse 413 "BODY_TOO_LARGE" "request body exceeds 64 KiB")
  | BodyMalformed => inr (sdk_bad "invalid client request")
  | BodyTrailing => inr (sdk_bad "request body must contain exactly one JSON object")
  | Decodes a => inl a
  end.

Definition out_of_bounds (s : string) (max : Z) : bool := streq s "" || (max <? len s).

Definition bindClientLeaseRequest (body : Decoded clientLeaseRequest) : clientLeaseRequest + SdkAnswer :=
  match bindStrictClientJSON body with
  | inr no => inr no
  | inl q =>
      let q := mkClientLease (TrimSpace (lq_ProductID q)) (TrimSpace (lq_DeviceID q)) (TrimSpace (lq_Lease q)) in
      if out_of_bounds (lq_ProductID q) maxClientProductID || out_of_bounds (lq_DeviceID q) maxIdentifierLen
         || out_of_bounds (lq_Lease q) maxClientLease
      then inr (sdk_bad "product_id, device_id and lease are required") else inl q
  end.

Definition bindClientLicenseRequest (body : Decoded clientLicenseRequest) : clientLicenseRequest + SdkAnswer :=
  match bindStrictClientJSON body with
  | inr no => inr no
  | inl q =>
      let q := mkClientLicense (TrimSpace (cq_LicenseKey q)) (TrimSpace (cq_ProductID q)) (TrimSpace (cq_DeviceID q))
                 (TrimSpace (cq_Label q)) in
      if out_of_bounds (cq_LicenseKey q) maxClientLicenseKey || out_of_bounds (cq_ProductID q) maxClientProductID
         || out_of_bounds (cq_DeviceID q) maxIdentifierLen || (maxClientLabel <? len (cq_Label q))
      then inr (sdk_bad "license_key, product_id and device_id are required") else inl q
  end.

(** A body with a key and a device, both of them required; the device trimmed. *)
Definition with_device (key identifier : string) (k : string -> M goerr SdkAnswer) : M goerr SdkAnswer :=
  if streq key "" || streq identifier "" then mret (sdk_bad "license_key and identifier are required")
  else
    let identifier := TrimSpace identifier in
    if maxIdentifierLen <? len identifier then mret (sdk_bad "identifier too long") else k identifier.

Section handlers.
Context `{UUIDs} `{Ed25519} `{TokenJSON} `{Storage} `{Semver}.
Context (s : LicenseService) (us : UsageService) (rs : ReleaseService) (ip : string).

(** ** [handler/license.go]; the middlewares set no product *)

Definition Activate_ (req : option ActivateRequest) : M goerr SdkAnswer :=
  match req with
  | None => mret (sdk_bad "license_key and identifier are required")
  | Some q =>
      with_device (aq_LicenseKey q) (aq_Identifier q) (fun identifier =>
      on_error (Activate s (mkActivateInput (aq_LicenseKey q) identifier (aq_IdentifierType q) (aq_Label q) ip ""))
        sdk_error (fun r => mret (SdkActivated r)))
  end.

Definition Verify_ (req : option DeviceRequest) : M goerr SdkAnswer :=
  match req with
  | None => mret (sdk_bad "license_key and identifier are required")
  | Some q =>
      with_device (dq_LicenseKey q) (dq_Identifier q) (fun identifier =>
      on_error (LicenseService.Verify s (mkVerifyInput (dq_LicenseKey q) identifier "" ip)) sdk_error (fun r => mret (SdkVerified r)))
  end.

Definition Deactivate_ (req : option DeviceRequest) : M goerr SdkAnswer :=
  match req with
  | None => mret (sdk_bad "license_key and identifier are required")
  | Some q =>
      with_device (dq_LicenseKey q) (dq_Identifier q) (fun identifier =>
      on_error (Deactivate s (mkDeactivateInput (dq_LicenseKey q) identifier "" ip)) sdk_error
        (fun _ => mret (SdkDone "deactivated")))
  end.

Definition ClientActivate (body : Decoded clientLicenseRequest) : M goerr SdkAnswer :=
  match bindClientLicenseRequest body with
  | inr no => mret no
  | inl q =>
      on_error (Activate s (mkActivateInput (cq_LicenseKey q) (cq_DeviceID q) "device" (cq_Label q) ip (cq_ProductID q)))
        sdk_error (fun r => mret (SdkLeased (ar_Token r) (Some (ar_Status r, ar_LicenseID r))))
  end.

Definition lease_input (q : clientLeaseRequest) : LeaseInput := mkLeaseInput (lq_Lease q) (lq_ProductID q) (lq_DeviceID q) ip.

Definition ClientRefresh (body : Decoded clientLeaseRequest) : M goerr SdkAnswer :=
  match bindClientLeaseRequest body with
  | inr no => mret no
  | inl q => on_error (RefreshLease s (lease_input q)) sdk_error (fun lease => mret (SdkLeased lease None))
  end.

Definition ClientDeactivate (body : Decoded clientLeaseRequest) : M goerr SdkAnswer :=
  match bindClientLeaseRequest body with
  | inr no => mret no
  | inl q => on_error (DeactivateLease s (lease_input q)) sdk_error (fun _ => mret (SdkDone "deactivated"))
  end.

(** ** [handler/floating.go], [handler/entitlement.go], [handler/release_public.go] *)

Definition CheckOut_ (req : option CheckOutRequest) : M goerr SdkAnswer :=
  match req with
  | None => mret (sdk_bad "license_key and identifier are required")
  | Some q =>
      if streq (oq_LicenseKey q) "" || streq (oq_Identifier q) "" then mret (sdk_bad "license_key and identifier are required")
      else
        on_error (CheckOut (mkCheckOutInput (oq_LicenseKey q) (oq_Identifier q) (oq_Label q) "" ip)) sdk_error
          (fun r => mret (SdkSession r))
  end.

Definition CheckIn_ (req : option DeviceRequest) : M goerr SdkAnswer :=
  match req with
  | None => mret (sdk_bad "license_key and identifier are required")
  | Some q =>
      if streq (dq_LicenseKey q) "" || streq (dq_Identifier q) "" then mret (sdk_bad "license_key and identifier are required")
      else on_error (CheckIn (dq_LicenseKey q) (dq_Identifier q) "") sdk_error (fun _ => mret (SdkDone "checked_in"))
  end.

(** [int(time.Until(...).Seconds())]: toward zero, and may be negative. *)
Definition Heartbeat_ (req : option DeviceRequest) : M goerr SdkAnswer :=
  match req with
  | None => mret (sdk_bad "license_key and identifier are required")
  | Some q =>
      if streq (dq_LicenseKey q) "" || streq (dq_Identifier q) "" then mret (sdk_bad "license_key and identifier are required")
      else
        on_error (Heartbeat (dq_LicenseKey q) (dq_Identifier q) "") sdk_error (fun r =>
        now ← time_Now;
        mret (SdkBeat (cor_ExpiresAt r) (Z.quot (Sub (cor_ExpiresAt r) now) Second) (cor_Active r) (cor_Max r)))
  end.

Definition EntitlementCheck (req : option (string * string)) : M goerr SdkAnswer :=
  match req with
  | None => mret (sdk_bad "license_key is required")
  | Some (key, feature) =>
      if streq key "" then mret (sdk_bad "license_key is required")
      else on_error (Check_ (mkCheckInput key feature "")) sdk_error (fun r => mret (SdkChecked r))
  end.

Definition Download (req : option DownloadRequest) : M goerr SdkAnswer :=
  match req with
  | None => mret (sdk_bad "license_key and platform are required")
  | Some q =>
      if streq (wq_LicenseKey q) "" || streq (wq_Platform q) "" then mret (sdk_bad "license_key and platform are required")
      else
        on_error (GenerateDownload rs (mkDownload (wq_LicenseKey q) "" (wq_Version q) (wq_Platform q) (wq_Channel q))) sdk_error
          (fun r => mret (SdkDownload r))
  end.

Definition metered (m : M goerr PortalAnswer) : M goerr SdkAnswer := a ← m; mret (SdkMetered a).

Definition sdk_route (r : SdkRoute) : M goerr SdkAnswer :=
  match r with
  | SActivate req => Activate_ req
  | SUsage req => metered (RecordUsage_ us "" ip req)
  | SCheckOut req => CheckOut_ req
  | SVerify req => Verify_ req
  | SDeactivate req => Deactivate_ req
  | SEntitlements req => EntitlementCheck req
  | SUsageStatus req => metered (GetQuotaStatus_ "" req)
  | SCheckIn req => CheckIn_ req
  | SHeartbeat req => Heartbeat_ req
  | SDownload req => Download req
  | CActivate body => ClientActivate body
  | CRefresh body => ClientRefresh body
  | CDeactivate body => ClientDeactivate body
  end.
End handlers.

(** ** The chain *)

(** The endpoint of the idempotency slot, on the routes that have one. *)
Definition idempotent_endpoint (r : SdkRoute) : option string :=
  match r with
  | SActivate _ => Some "/api/v1/license/activate"
  | SUsage _ => Some "/api/v1/license/usage"
  | SCheckOut _ => Some "/api/v1/license/floating/checkout"
  | CActivate _ => Some "/v1/client/activate"
  | _ => None
  end.

(** A request: the address, the verdict of the rate limiter's store, the
    [Idempotency-Key] header and the bytes of the body, the route. *)
Record SdkRequest := mkSdkRequest {
  rq_ip : string; rq_limiter : option bool; rq_key : string; rq_body : option string; rq_route : SdkRoute
}.

(** What the capturing writer holds after a handler: the status, and the JSON of
    the answer. *)
Definition capture (json : SdkAnswer -> string) (h : M goerr SdkAnswer) : World -> Captured * World := fun w =>
  let '(r, w') := h w in
  (match r with Ok a => mkCaptured (sdk_status a) (json a) | Err _ => mkCaptured 0 "" end, w').

(** [BruteForceProtection] without Redis. *)
Definition guard_blocked (ip : string) : M goerr (bool * Duration) :=
  now ← time_Now; gets (fun w => IsBlocked now (bruteForceStateKey ("ip:" +:+ ip)) (w_attempts w)).

Definition serve_sdk `{UUIDs} `{Ed25519} `{TokenJSON} `{Storage} `{Semver} (s : LicenseService) (us : UsageService)
    (rs : ReleaseService) (json : SdkAnswer -> string) (q : SdkRequest) : M goerr Idempotency.Answer :=
  b ← guard_blocked (rq_ip q);
  match LicenseBruteForceGuard b with
  | Some _ => metric "brute_force_blocks" [] ;; mret (Aborted 429 "LOCKED_OUT")
  | None =>
      match rate_refusal (rq_limiter q) with
      | Some (status, code) => mret (Aborted status code)
      | None =>
          let handler := capture json (sdk_route s us rs (rq_ip q) (rq_route q)) in
          match idempotent_endpoint (rq_route q) with
          | Some endpoint => Idempotency.Idempotency handler "POST" (rq_key q) (rq_body q) endpoint
          | None => c ← run_handler handler; mret (Handled c)
          end
      end
  end.

(** ** No sequence of requests takes a licence over its devices *)

Section devices.
Context `{UUIDs} `{Ed25519} `{TokenJSON} `{Storage} `{Semver} (s : LicenseService) (us : UsageService) (rs : ReleaseService).
Context (json : SdkAnswer -> string) (db0 : DB) (Hkeyed : licenses_keyed db0).
#[local] Abbreviation I := (limits_since db0).

(** A table the limit does not look at. *)
Ltac aside := intros m db Hi; exact Hi.
Ltac limit_step :=
  first [ apply keeps_Audit | apply keeps_Dispatch; aside | apply keeps_TouchActivation | apply keeps_DeleteActivation
        | apply keeps_signToken | apply keeps_fresh_id
        | apply keeps_insert_ignored; aside | apply keeps_update_ignored; aside | apply keeps_delete_ignored; aside
        | apply keeps_update_checked_ignored; aside | apply keeps_update_where_ignored; aside
        | apply keeps_read; intros ? ? ?; destruct (first_row _); intros; by simplify_eq
        | apply keeps_read; by intros ? ? ? [= _ <-]
        | keeps_step ].

(** A licence that was found has the limit of its row. *)
Definition limited (lic : License) : Prop :=
  exists l, db_licenses db0 !! lic_ID lic = Some l /\ maxActivations lic = limit_of db0 l.

Lemma yields_select_limited P : yields I (select_license P) limited.
Proof.
  apply yields_read. intros db lic db' (El & Ep & _). destruct (first_row _) as [l|] eqn:Er; [|done]. intros [= <- <-].
  split; [done|]. apply first_row_rows in Er as (k & Hk & _). rewrite El in Hk. pose proof (Hkeyed _ _ Hk) as Hid.
  exists l. split; [simpl; by rewrite Hid|]. rewrite maxActivations_load. unfold limit_of. by rewrite Ep.
Qed.

Lemma yields_find_limited key productID ip hint : yields I (find_scoped s key productID ip hint) limited.
Proof.
  unfold find_scoped, FindLicenseByKey. eapply yields_bind.
  - apply yields_attempt. eapply yields_bind; [apply yields_attempt, yields_select_limited|].
    intros [l|e] Hl; [by apply yields_ret|apply yields_select_limited].
  - intros [lic|e] Hl.
    + destruct (_ && _); [apply yields_then; [unfold record_failures; keeps_go|intros []; apply yields_throw]|].
      destruct (requireProductCapability _ _ _); [apply yields_throw|by apply yields_ret].
    + destruct (goerr_Is _ _); [|apply yields_throw].
      apply yields_then; [unfold record_failures; keeps_go|intros []; apply yields_throw].
Qed.

Lemma limit_check_lockout ip : keeps I (check_lockout s ip).
Proof. unfold check_lockout. keeps_go. Qed.

Lemma limit_Activate in_ : keeps I (Activate s in_).
Proof.
  unfold Activate. apply keeps_bind; [apply limit_check_lockout|]. intros []. cbv zeta. apply (keeps_yields _ _ (fun _ => True)).
  eapply yields_bind; [apply yields_find_limited|]. intros lic (l & Hl & Hmax). apply yields_keeps.
  apply keeps_bind; [unfold assert_usable; keeps_go|]. intros [e|]; [auto with licensehub|].
  apply keeps_bind; [unfold FindActivation; repeat limit_step|]. intros [existing|e].
  - unfold already_activated, internal. repeat limit_step.
  - rewrite Hmax. apply keeps_bind; [by apply keeps_attempt, (keeps_ActivateWithinLimit db0 (lic_ID lic))|].
    intros [[]|err].
    + unfold activated, record_successes, dispatch_if, internal. repeat limit_step.
    + unfold activation_failed, CountActivations. repeat limit_step.
Qed.

Ltac unfold_lookup := unfold find_scoped, FindLicenseByKey, select_license, record_failures, record_successes, FindActivation.

Lemma limit_find key productID ip hint : keeps I (find_scoped s key productID ip hint).
Proof. unfold_lookup. repeat limit_step. Qed.
Lemma limit_Verify in_ : keeps I (LicenseService.Verify s in_).
Proof.
  unfold LicenseService.Verify, check_lockout, assert_usable, verified, internal, FindActivation, record_failures, record_successes.
  repeat first [apply limit_find|limit_step].
Qed.
Lemma limit_Deactivate in_ : keeps I (Deactivate s in_).
Proof.
  unfold Deactivate, check_lockout, dispatch_if, internal, FindActivation, record_successes.
  repeat first [apply limit_find|limit_step].
Qed.
Lemma limit_lease in_ : keeps I (licenseFromLease s in_).
Proof. unfold licenseFromLease, verifyLeaseBinding, VerifyWithKeyRing, Token.Verify, FindLicenseByID, select_license, assert_usable. repeat limit_step. Qed.
Lemma limit_RefreshLease in_ : keeps I (RefreshLease s in_).
Proof. unfold RefreshLease, FindActivation, lift. repeat first [apply limit_lease|limit_step]. Qed.
Lemma limit_DeactivateLease in_ : keeps I (DeactivateLease s in_).
Proof. unfold DeactivateLease, internal, FindActivation. repeat first [apply limit_lease|limit_step]. Qed.

(** *** The other services *)

Lemma limit_RecordUsage in_ : keeps I (RecordUsage us in_).
Proof.
  unfold RecordUsage, IncrementUsageCounterWithLimit, insert_counter, select_used, add_used, quota_exceeded, record_event,
    RecordUsageEvent, enqueue_metered, InsertMeteredEvent, warn_quota, internal. cbv zeta.
  repeat first [apply keeps_loadLicense|limit_step].
  all: apply keeps_stmt; intros db x db' Hi; cbv zeta.
  - destruct (row_exists _ _); [by intros [= _ <-]|]. intros (_ & _ & _ & ->)%insert_row_Ok. exact Hi.
  - destruct (row_exists _ _); [done|]. destruct (first_row _); [|done]. intros [= _ <-]. exact Hi.
Qed.
Lemma limit_GetQuotaStatus key feature productID : keeps I (GetQuotaStatus key feature productID).
Proof. unfold GetQuotaStatus, used_now, GetUsageCounter. repeat first [apply keeps_loadLicense|limit_step]. Qed.
Lemma limit_CheckOut in_ : keeps I (CheckOut in_).
Proof.
  unfold CheckOut, check_out, CheckOutFloatingWithLimit, checkout_at, refresh_session, new_session, active_or_zero,
    CountActiveFloating. repeat first [apply keeps_loadLicense|limit_step].
Qed.
Lemma limit_CheckIn key identifier productID : keeps I (CheckIn key identifier productID).
Proof. unfold CheckIn, CheckInFloating, internal. repeat first [apply keeps_loadLicense|limit_step]. Qed.
Lemma limit_Heartbeat key identifier productID : keeps I (Heartbeat key identifier productID).
Proof.
  unfold Heartbeat, HeartbeatFloating, active_or_zero, CountActiveFloating. repeat first [apply keeps_loadLicense|limit_step].
Qed.
Lemma limit_merge licenseID wanted l features : keeps I (merge_features licenseID wanted l features).
Proof.
  revert features. induction l as [|f l IH]; intros features; simpl; [auto with licensehub|]. destruct (_ && _); [apply IH|].
  apply keeps_bind; [|intros fs; apply IH]. unfold feature_status, quota_status, used_now, GetUsageCounter. repeat limit_step.
Qed.
Lemma limit_Check in_ : keeps I (Check_ in_).
Proof. unfold Check_, ListLicenseAddons. repeat first [apply keeps_loadLicense|apply limit_merge|limit_step]. Qed.

(** *** The routes *)

Lemma limit_on_error {E A} (m : M E A) (no : E -> SdkAnswer) k :
  keeps I m -> (forall a, keeps I (k a)) -> keeps I (on_error m no k).
Proof. intros Hm Hk. unfold on_error. apply keeps_bind; [by apply keeps_attempt|]. intros [a|e]; [apply Hk|auto with licensehub]. Qed.

Lemma limit_shared {E A} (m : M E A) (no : E -> PortalAnswer) k :
  keeps I m -> (forall a, keeps I (k a)) -> keeps I (on_error m no k).
Proof. intros Hm Hk. unfold on_error. apply keeps_bind; [by apply keeps_attempt|]. intros [a|e]; [apply Hk|auto with licensehub]. Qed.

Lemma limit_with_device key identifier k : (forall i, keeps I (k i)) -> keeps I (with_device key identifier k).
Proof. intros Hk. unfold with_device. repeat first [apply Hk|keeps_step]. Qed.

(** A route whose body the handler may not decode, with a test of the fields and
    then one operation. *)
Ltac one_operation op :=
  match goal with
  | |- keeps _ (match ?req with Some _ => _ | None => _ end) => destruct req as [?q|]; [|apply keeps_ret]
  | _ => idtac
  end;
  try match goal with |- keeps _ (let '(_, _) := ?p in _) => destruct p end;
  first [ apply limit_with_device; intros ?
        | match goal with |- keeps _ (if ?b then _ else _) => destruct b; [apply keeps_ret|] end
        | idtac ];
  first [apply limit_on_error|apply limit_shared]; [apply op|intros ?; try apply keeps_ret].

Lemma limit_metered m : keeps I m -> keeps I (metered m).
Proof. intros Hm. apply keeps_bind; [done|]. intros a. apply keeps_ret. Qed.

Lemma limit_client_license body (k : clientLicenseRequest -> M goerr SdkAnswer) : (forall q, keeps I (k q)) ->
  keeps I (match bindClientLicenseRequest body with inr no => mret no | inl q => k q end).
Proof. intros Hk. destruct (bindClientLicenseRequest body); [apply Hk|apply keeps_ret]. Qed.
Lemma limit_client_lease body (k : clientLeaseRequest -> M goerr SdkAnswer) : (forall q, keeps I (k q)) ->
  keeps I (match bindClientLeaseRequest body with inr no => mret no | inl q => k q end).
Proof. intros Hk. destruct (bindClientLeaseRequest body); [apply Hk|apply keeps_ret]. Qed.

Lemma limit_route ip r : keeps I (sdk_route s us rs ip r).
Proof.
  destruct r as [req|req|req|req|req|req|req|req|req|req|body|body|body]; cbn [sdk_route].
  - unfold Activate_. one_operation limit_Activate.
  - apply limit_metered. unfold RecordUsage_. one_operation limit_RecordUsage.
  - unfold CheckOut_. one_operation limit_CheckOut.
  - unfold Verify_. one_operation limit_Verify.
  - unfold Deactivate_. one_operation limit_Deactivate.
  - unfold EntitlementCheck. one_operation limit_Check.
  - apply limit_metered. unfold GetQuotaStatus_. one_operation limit_GetQuotaStatus.
  - unfold CheckIn_. one_operation limit_CheckIn.
  - unfold Heartbeat_. one_operation limit_Heartbeat. apply keeps_bind; [apply keeps_time_Now|]. intros now. apply keeps_ret.
  - unfold Download. one_operation (keeps_GenerateDownload I rs).
  - unfold ClientActivate. apply limit_client_license. intros q. one_operation limit_Activate.
  - unfold ClientRefresh. apply limit_client_lease. intros q. one_operation limit_RefreshLease.
  - unfold ClientDeactivate. apply limit_client_lease. intros q. one_operation limit_DeactivateLease.
Qed.

Lemma limit_run_handler h : keeps I h -> keeps (E := goerr) I (run_handler (capture json h)).
Proof.
  intros Hh w Hs. unfold run_handler, capture. specialize (Hh w Hs). by destruct (h w) as [r w'].
Qed.

Lemma limit_Idempotency h key body endpoint :
  keeps I h -> keeps (E := goerr) I (Idempotency.Idempotency (capture json h) "POST" key body endpoint).
Proof.
  intros Hh. pose proof (limit_run_handler h Hh) as Hrun.
  unfold Idempotency.Idempotency, IdempotencyClaim, insert_slot, read_slot, claimed_or_replayed, settle, IdempotencyAbandon,
    IdempotencyComplete. repeat first [exact Hrun|limit_step].
  all: apply keeps_stmt; intros db x db' Hi; destruct (row_exists _ _); [by intros [= _ <-]|];
    destruct (insert_row _ _ _ _) as [[u db1]|e'] eqn:Ei; [|done]; intros [= _ <-]; apply insert_row_Ok in Ei as (_ & _ & _ & ->); exact Hi.
Qed.

Lemma limit_serve q : keeps I (serve_sdk s us rs json q).
Proof.
  unfold serve_sdk, guard_blocked. pose proof (limit_run_handler _ (limit_route (rq_ip q) (rq_route q))) as Hrun.
  repeat first [exact Hrun|apply limit_Idempotency, limit_route|limit_step].
Qed.
End devices.

(** A request after the other, each with its own failures. *)
Definition sdk_trace `{UUIDs} `{Ed25519} `{TokenJSON} `{Storage} `{Semver} s us rs json (qs : list SdkRequest) : M goerr unit :=
  for_each qs (fun q => serve_sdk s us rs json q ;; mret tt).

(** C2. Sdk_requests_respect_limit: however many requests the SDK routes answer, in
    whatever order, replayed or not, and whatever statement or call fails on
    the way, no licence has more devices than the larger of its plan's limit and
    the number it had before the first; and the requests change neither licences
    nor plans. *)
Theorem sdk_requests_respect_limit `{UUIDs} `{Ed25519} `{TokenJSON} `{Storage} `{Semver} s us rs json qs w k l :
  w_tx w = None -> licenses_keyed (w_db w) -> db_licenses (w_db w) !! k = Some l ->
  let w' := snd (sdk_trace s us rs json qs w) in
  count (of_license k) (db_activations (w_db w'))
  <= Z.max (count (of_license k) (db_activations (w_db w))) (limit_of (w_db w) l) /\
  db_licenses (w_db w') = db_licenses (w_db w) /\ db_plans (w_db w') = db_plans (w_db w).
Proof.
  intros Hw Hk Hl w'. assert (limits_since (w_db w) (w_db w)) as Hstart.
  { split; [done|]. split; [done|]. intros k' l' Hk'. unfold activations_within. lia. }
  assert (keeps (limits_since (w_db w)) (sdk_trace s us rs json qs)) as Hkeep.
  { unfold sdk_trace. apply keeps_for_each. intros q _. apply keeps_bind; [by apply limit_serve|auto with licensehub]. }
  destruct (Hkeep w) as [(E1 & E2 & Hc) _]; [by apply safe_closed|]. split; [by apply (Hc k l)|done].
Qed.

(** ** Instances *)

#[local] Existing Instances Toy.json Toy.ed25519 Demo.uuids ReleaseDemo.storage ReleaseDemo.semver.

Module SdkDemo.
Definition world (faults : list fault) : World :=
  mkWorld Demo.db None (1000 * Second) [5%N] faults false 0 (repeat "r"%char 200) ∅ [].
Definition json (a : SdkAnswer) : string := match a with SdkActivated r => ar_Status r | _ => "answer" end.
Definition usage_service : UsageService := mkUsageService false (float64 0).
Definition serve : SdkRequest -> M goerr Idempotency.Answer :=
  serve_sdk LicenseDemo.service usage_service ReleaseDemo.service json.
Definition request (key : string) (r : SdkRoute) : SdkRequest := mkSdkRequest "10.0.0.1" (Some true) key (Some "body") r.
Definition activate (key device : string) : SdkRequest := request key (SActivate (Some (mkActivateRequest "KEY-1" device "" ""))).
Definition client (product device : string) : Decoded clientLicenseRequest := Decodes (mkClientLicense "KEY-1" product device "").
(** Devices come and go, one request is sent twice. *)
Definition requests : list SdkRequest :=
  [activate "i-1" " desktop "; activate "i-1" " desktop "; request "" (SVerify (Some (mkDeviceRequest "KEY-1" "desktop")));
   activate "" "tablet"; request "" (SDeactivate (Some (mkDeviceRequest "KEY-1" "laptop"))); request "" (CActivate (client "prod-1" "tablet"))].
Definition devices (w : World) : Z := count (of_license "lic-1") (db_activations (w_db w)).
End SdkDemo.

Lemma sdk_requests_respect_limit_witness :
  let w' := snd (sdk_trace LicenseDemo.service SdkDemo.usage_service ReleaseDemo.service SdkDemo.json SdkDemo.requests
                   (SdkDemo.world [NoFault; NoFault; Lost true])) in
  SdkDemo.devices w' <= 2.
Proof.
  destruct (sdk_requests_respect_limit LicenseDemo.service SdkDemo.usage_service ReleaseDemo.service SdkDemo.json SdkDemo.requests
    (SdkDemo.world [NoFault; NoFault; Lost true]) "lic-1" (Demo.license "lic-1" "prod-1" "plan-1" "KEY-1" StatusActive (Some (5000 * Second)))
    eq_refl demo_keyed eq_refl) as [Hc _].
  etransitivity; [exact Hc|]. vm_compute. congruence.
Defined.

(** The second of two requests with one key is answered from the slot; a third
    device is refused, and accepted once another has left. *)
Example sdk_answers :
  let '(a1, w1) := SdkDemo.serve (SdkDemo.activate "i-1" " desktop ") (SdkDemo.world []) in
  let '(a2, w2) := SdkDemo.serve (SdkDemo.activate "i-1" " desktop ") w1 in
  let '(a3, w3) := SdkDemo.serve (SdkDemo.activate "" "tablet") w2 in
  a1 = Ok (Handled (mkCaptured 200 "activated")) /\ a2 = Ok (Replayed 200 "activated") /\
  (exists c, a3 = Ok Passed /\ c = SdkDemo.devices w3 /\ c = 2) /\
  SdkDemo.devices (snd (sdk_trace LicenseDemo.service SdkDemo.usage_service ReleaseDemo.service SdkDemo.json SdkDemo.requests
                         (SdkDemo.world []))) = 2.
Proof. vm_compute. split_and!; [reflexivity..|eexists; split_and!; reflexivity|reflexivity]. Qed.

(** A key of another product, a body with something after the object, and a
    device of spaces. *)
Example client_refusals :
  let answer r := fst (sdk_route LicenseDemo.service SdkDemo.usage_service ReleaseDemo.service "10.0.0.1" r (SdkDemo.world [])) in
  answer (CActivate (SdkDemo.client "prod-2" "desktop")) = Ok (sdk_refuse 404 "LICENSE_NOT_FOUND" "license not found") /\
  answer (CActivate BodyTrailing) = Ok (sdk_bad "request body must contain exactly one JSON object") /\
  answer (CActivate (SdkDemo.client "prod-1" "  ")) = Ok (sdk_bad "license_key, product_id and device_id are required").
Proof. vm_compute. split_and!; reflexivity. Qed.

(** Blank_device: the routes of [/license] ask for an identifier before they trim
    it: spaces make a device without a name. *)
Theorem blank_device :
  let '(a, w') := sdk_route LicenseDemo.service SdkDemo.usage_service ReleaseDemo.service "10.0.0.1"
    (SActivate (Some (mkActivateRequest "KEY-1" "  " "" ""))) (SdkDemo.world []) in
  (exists r, a = Ok (SdkActivated r)) /\ exists k x, db_activations (w_db w') !! k = Some x /\ act_Identifier x = "".
Proof. vm_compute. split; [eexists; reflexivity|]. exists "id-0". eexists. split; reflexivity. Qed.
