(* ===== verification/PasskeyDemo.v ===== *)
(** * The passkey theorems on a concrete database

    An administrator with a passkey and recovery codes, another with none, and
    a library that accepts an answer that is one of the stored credentials. *)

From S2P Require Import Prelude GoStrings Errors Model Crypto World Tables Logic AesGcm Store Sessions Demo Access Passkeys PasskeyProps.
From Stdlib Require Import Ascii String.

#[local] Open Scope string_scope.
#[local] Open Scope Z_scope.

#[local] Existing Instances Demo.uuids ToyGCM.gcm.

Module PasskeyDemo.
#[export] Instance webauthn : WebAuthn := {|
  WACredential := string; WASession := string; WAOptions := string;
  cred_ID c := c; cred_SignCount _ := 1;
  marshal_credential c := Some c; unmarshal_credential s := Some s;
  marshal_session s := Some s; unmarshal_session s := Some s;
  wa_BeginRegistration _ u _ := Some ("create", user_ID u);
  wa_FinishRegistration _ u _ s body := if streq s (user_ID u) then Some body else None;
  wa_BeginLogin _ u _ := Some ("get", user_ID u);
  wa_FinishLogin _ u creds s body := if streq s (user_ID u) && contains body creds then Some body else None
|}.

Definition user (id : string) : User := mkUser id (id +:+ "@example.com") "" "" RoleAdmin 3 0 0.
Definition the_code : string := "LHRC-0A1B-2C3D-4E5F-6071-8293".
Definition code (n : nat) (hash : string) : string * PasskeyRecoveryCode :=
  let id := "rc-" +:+ pretty n in (id, mkRecoveryCode id "ann" hash 0 None).
Definition passkey : PasskeyCredential := mkPasskey "pk-1" "ann" "cred-1" "cred-1" "Laptop" 0 None.
Definition ceremony : WebAuthnSession :=
  mkWebAuthnSession (ceremonyDigest "c-1") "ann" "login" "ann" (2000 * Second) 0.
Definition token : RefreshToken := mkRefreshToken "rt-1" "ann" (hashToken "stolen") (2000 * Second) 0 None.

Definition db : DB :=
  t_set users {["ann" := user "ann"; "bob" := user "bob"]} (t_set passkeys {["pk-1" := passkey]}
    (t_set webauthn_sessions {[ws_CeremonyIDHash ceremony := ceremony]} (t_set refresh_tokens {["rt-1" := token]}
      (t_set recovery_codes
        (list_to_map (code 0 (recoveryCodeHash "s" "ann" the_code) :: ((fun n => code n (pretty n)) <$> seq 1 7)))
        Demo.db)))).

(** A source of bytes without short cycles. *)
Definition bytes : list ascii := (fun i => Ascii.ascii_of_nat ((i * i + 7 * i) mod 251)) <$> seq 0 700.
Definition world : World := set_rand bytes (Demo.world_of db).

Definition h : AuthHandler := mkAuthHandler None true "s".
Definition sign (secret : string) (c : Claims) : option string := Some (cl_UserID c +:+ "/" +:+ cl_AuthMethod c).
Definition parse (secret raw : string) (now : Time) : option Claims :=
  if streq raw "ann/webauthn" then Some (mkClaims "ann" "ann@example.com" "" true 3 "webauthn" (9000 * Second) 0 "jti") else None.
Definition cx (id auth_method : string) : Context_ :=
  mkContext (Some id) (Some (id +:+ "@example.com")) (Some true) "session" auth_method None "10.0.0.1".
Definition ann : Credential := mkCredential "" (Some "ann/webauthn") "10.0.0.1".
Definition login : option passkeyFinishRequest := Some (mkFinish "c-1" "" "cred-1").
End PasskeyDemo.

#[local] Existing Instance PasskeyDemo.webauthn.

Lemma passkey_demo_recoverable : recoverable PasskeyDemo.db.
Proof.
  apply (map_Forall_to_list (fun k p => 8 <= codes_of (pk_UserID p) PasskeyDemo.db)).
  change (db_passkeys PasskeyDemo.db) with ({["pk-1" := PasskeyDemo.passkey]} : gmap string PasskeyCredential).
  rewrite map_to_list_singleton. constructor; [|constructor]. vm_compute. discriminate.
Qed.

Lemma passkeys_stay_recoverable_witness :
  recoverable (w_db (snd (passkey_requests PasskeyDemo.sign PasskeyDemo.parse PasskeyDemo.h
    [(PasskeyDemo.ann, RAssertionFinish PasskeyDemo.login); (PasskeyDemo.ann, RPasskeyDelete "pk-1");
     (PasskeyDemo.ann, RPasskeyRecover (Some ("ann@example.com", PasskeyDemo.the_code)))] PasskeyDemo.world))).
Proof. apply passkeys_stay_recoverable; [reflexivity|exact passkey_demo_recoverable]. Defined.

Lemma last_passkey_kept_witness :
  has_passkey "ann" (w_db (snd (passkey_requests PasskeyDemo.sign PasskeyDemo.parse PasskeyDemo.h
    [(PasskeyDemo.ann, RAssertionFinish PasskeyDemo.login); (PasskeyDemo.ann, RPasskeyDelete "pk-1")] PasskeyDemo.world))).
Proof. apply last_passkey_kept; [repeat constructor|reflexivity|vm_compute; discriminate]. Defined.

Lemma recovery_resets_witness :
  let '(r, w') := RecoverPasskeys "ann" (recoveryCodeHash "s" "ann" PasskeyDemo.the_code) "" PasskeyDemo.world in
  (exists e, r = Err e) /\ w_db w' = w_db PasskeyDemo.world \/
  recovered "ann" (recoveryCodeHash "s" "ann" PasskeyDemo.the_code) "" (w_db PasskeyDemo.world) (w_db w').
Proof. apply recovery_resets. reflexivity. Defined.

Definition step_up : M goerr PasskeyAnswer :=
  PasskeyAssertionFinish PasskeyDemo.sign PasskeyDemo.h (PasskeyDemo.cx "ann" "otp") PasskeyDemo.login.
Definition is_verified (r : result goerr PasskeyAnswer) : bool := match r with Ok (Verified _) => true | _ => false end.

Lemma step_up_verified : is_verified (fst (step_up PasskeyDemo.world)) = true.
Proof. vm_compute. reflexivity. Qed.

Lemma assertion_sound_witness :
  exists cookies w' digest now, step_up PasskeyDemo.world = (Ok (Verified cookies), w') /\ closed digest "ann" "login" now (w_db w').
Proof.
  pose proof step_up_verified as Hv. destruct (step_up PasskeyDemo.world) as [[[]|e] w'] eqn:E; try discriminate Hv.
  destruct (assertion_sound PasskeyDemo.sign PasskeyDemo.h _ _ PasskeyDemo.world cookies w' eq_refl E)
    as (uid & rq & now & s & ss & u & cs & c & n & Hu & _ & _ & _ & _ & _ & _ & _ & _ & _ & Hc).
  exists cookies, w', (ceremonyDigest (pf_CeremonyID rq)), now. injection Hu as <-. split; [reflexivity|exact Hc].
Defined.

(** ** Examples *)

Definition passkey_code (r : result goerr PasskeyAnswer) : string :=
  match r with
  | Ok (Begun _ _) => "begun"
  | Ok (Enrolled _ _ (Some codes)) => "enrolled with " +:+ pretty (List.length codes) +:+ " codes"
  | Ok (Enrolled _ _ None) => "enrolled"
  | Ok (Verified _) => "verified"
  | Ok (PasskeyItems l _) => "listed"
  | Ok PasskeyDeleted => "deleted"
  | Ok (Recovered _) => "recovered"
  | Ok (Refused _ code _) => code
  | Err _ => "error"
  end.

(** A passkey is enrolled with the identifier the ceremony began with. *)
Definition enroll (cx : Context_) (begun : result goerr PasskeyAnswer) (body : string) : M goerr PasskeyAnswer :=
  match begun with
  | Ok (Begun id _) => PasskeyRegisterFinish PasskeyDemo.sign PasskeyDemo.h cx (Some (mkFinish id "" body))
  | _ => mret pk_internal
  end.

(** The codes at work: a ceremony closes once, the last passkey stays, a
    recovery code works once. *)
Definition session_of_ann : M goerr (list string) :=
  let cx := PasskeyDemo.cx "ann" "webauthn" in
  a ← attempt (PasskeyAssertionFinish PasskeyDemo.sign PasskeyDemo.h cx PasskeyDemo.login);
  b ← attempt (PasskeyAssertionFinish PasskeyDemo.sign PasskeyDemo.h cx PasskeyDemo.login);
  c ← attempt (PasskeyDelete cx "pk-1");
  let recover := PasskeyRecover PasskeyDemo.sign PasskeyDemo.h "" (Some (" Ann@example.com", PasskeyDemo.the_code)) in
  d ← attempt recover;
  e ← attempt recover;
  mret (passkey_code <$> [a; b; c; d; e]).
Example passkey_guards :
  fst (session_of_ann PasskeyDemo.world) =
  Ok ["verified"; "PASSKEY_CEREMONY_INVALID"; "LAST_PASSKEY"; "recovered"; "UNAUTHORIZED"].
Proof. vm_compute. reflexivity. Qed.

(** The step-up is asked for when an enrolment begins, not when it ends: two
    enrolments begun before the first passkey both end, the second without a
    passkey having been shown. *)
Definition two_enrollments : M goerr (list string) :=
  let cx := PasskeyDemo.cx "bob" "otp" in
  a ← attempt (PasskeyRegisterBegin PasskeyDemo.h cx);
  b ← attempt (PasskeyRegisterBegin PasskeyDemo.h cx);
  c ← attempt (enroll cx a "key-of-bob");
  again ← attempt (PasskeyRegisterBegin PasskeyDemo.h cx);
  d ← attempt (enroll cx b "key-of-another");
  mret (passkey_code <$> [a; b; c; again; d]).
Example second_passkey_without_step_up :
  let '(r, w) := two_enrollments PasskeyDemo.world in
  r = Ok ["begun"; "begun"; "enrolled with 10 codes"; "PASSKEY_STEP_UP_REQUIRED"; "enrolled"] /\
  count (pk_of "bob") (db_passkeys (w_db w)) = 2.
Proof. vm_compute. split; reflexivity. Qed.

(** A recovery leaves the user's refresh tokens: one taken before it is still
    exchanged for a session of the new version. *)
Definition recover_then_refresh : M goerr (string * Response) :=
  a ← attempt (PasskeyRecover PasskeyDemo.sign PasskeyDemo.h "" (Some ("ann@example.com", PasskeyDemo.the_code)));
  r ← Refresh PasskeyDemo.sign "s" (Some "stolen");
  mret (passkey_code a, r).
Example refresh_survives_recovery :
  match fst (recover_then_refresh PasskeyDemo.world) with
  | Ok (a, r) => a = "recovered" /\ match r with OK status (Some (token, _)) => status = "refreshed" /\ token = "ann/refresh" | _ => False end
  | Err _ => False
  end.
Proof. vm_compute. repeat split; reflexivity. Qed.
