(* ===== verification/Config.v ===== *)
(** * Configuration ([internal/config/config.go], [license/token.go])

    What the server reads from its environment: [Load], with the secrets that
    may come from files, and [ValidateSecurityDefaults], which the server runs
    before it starts ([Boot.v]).  The environment, the files,
    [strconv.ParseFloat] and the token stream of [encoding/json] are arguments;
    [time.ParseDuration] is defined here.  Paths are those of Unix. *)

From S2P Require Import Prelude GoStrings Errors Crypto World Base64 Token Usage.
From Stdlib Require Import Ascii String Floats.SpecFloat.

#[local] Open Scope string_scope.
#[local] Open Scope Z_scope.

#[export] Instance result_bind {E} : MBind (result E) := fun A B k m =>
  match m with Ok a => k a | Err e => Err e end.

(** ** [time.ParseDuration] *)

Definition uint64 (z : Z) : Z := z mod 2 ^ 64.

(** The leading digits of a text, and what follows them. *)
Fixpoint digit_run (s : string) : string * string :=
  match s with
  | "" => ("", "")
  | String c s' => if is_digit c then let '(ds, rest) := digit_run s' in (String c ds, rest) else ("", s)
  end.

(** [leadingInt] on a run of digits. *)
Fixpoint leadingInt (x : Z) (ds : string) : option Z :=
  match ds with
  | "" => Some x
  | String c ds' =>
      if 2 ^ 63 / 10 <? x then None
      else let y := x * 10 + (ord c - 48) in if 2 ^ 63 <? y then None else leadingInt y ds'
  end.

(** [leadingFraction] on a run of digits: the digits that fit, and the power of
    ten they count in. *)
Fixpoint leadingFraction (x : Z) (scale : spec_float) (ds : string) : Z * spec_float :=
  match ds with
  | "" => (x, scale)
  | String c ds' =>
      let y := x * 10 + (ord c - 48) in
      if ((2 ^ 63 - 1) / 10 <? x) || (2 ^ 63 <? y) then (x, scale)
      else leadingFraction y (SFmul 53 1024 scale (float64 10)) ds'
  end.

(** The unit: everything up to a digit or a point. *)
Fixpoint unit_run (s : string) : string * string :=
  match s with
  | "" => ("", "")
  | String c s' =>
      if is_digit c || Ascii.eqb c "." then ("", s)
      else let '(u, rest) := unit_run s' in (String c u, rest)
  end.

Definition unitMap (u : string) : option Z :=
  if streq u "ns" then Some 1
  else if streq u "us" || streq u (String (chr 194) (String (chr 181) "s")) || streq u (String (chr 206) (String (chr 188) "s"))
  then Some 1000
  else if streq u "ms" then Some Millisecond
  else if streq u "s" then Some Second
  else if streq u "m" then Some Minute
  else if streq u "h" then Some Hour
  else None.

Definition fraction_run (s : string) : string * string :=
  match s with String "." s' => digit_run s' | _ => ("", s) end.

(** One number with its unit: its nanoseconds, and the rest of the text. *)
Definition duration_term (s : string) : option (Z * string) :=
  let '(ds, s1) := digit_run s in
  v ← leadingInt 0 ds;
  let '(fs, s2) := fraction_run s1 in
  if streq ds "" && streq fs "" then None
  else
    let '(u, rest) := unit_run s2 in
    unit ← unitMap u;
    if 2 ^ 63 / unit <? v then None
    else
      let '(f, scale) := leadingFraction 0 (float64 1) fs in
      let v := v * unit in
      if 0 <? f then
        let v := v + float_int (SFmul 53 1024 (float64 f) (SFdiv 53 1024 (float64 unit) scale)) in
        if 2 ^ 63 <? v then None else Some (v, rest)
      else Some (v, rest).

(** Each turn takes at least one character of the text. *)
Fixpoint duration_terms (turns : nat) (d : Z) (s : string) : option Z :=
  match s with
  | "" => Some d
  | _ =>
      match turns with
      | O => None
      | S turns' =>
          '(v, rest) ← duration_term s;
          let d := uint64 (d + v) in
          if 2 ^ 63 <? d then None else duration_terms turns' d rest
      end
  end.

Definition ParseDuration (s : string) : option Duration :=
  let '(neg, s) := match s with String "-" s' => (true, s') | String "+" s' => (false, s') | _ => (false, s) end in
  if streq s "0" then Some 0
  else if streq s "" then None
  else
    d ← duration_terms (String.length s) 0 s;
    if neg : bool then Some (wrap64 (- wrap64 d))
    else if 2 ^ 63 - 1 <? d then None else Some d.

(** ** [strings.Split] at a comma *)

Fixpoint split_comma (s : string) : list string :=
  match s with
  | "" => [""]
  | String c s' =>
      if Ascii.eqb c "," then "" :: split_comma s'
      else match split_comma s' with part :: parts => String c part :: parts | [] => [String c ""] end
  end.

(** ** [ParseRetainedPublicKeys] *)

(** What the decoder gives after the opening brace: keys, each with the string
    decoded after it unless that fails; whether a brace then closes the
    object; whether nothing follows. *)
Record RingDoc := mkRingDoc {
  rd_items : list (option string * option string);
  rd_closed : bool;
  rd_end : bool
}.

Fixpoint ring_items (keys : gmap string string) (items : list (option string * option string))
    : result goerr (gmap string string) :=
  match items with
  | [] => Ok keys
  | (None, _) :: _ => Err (ErrText "read key id")
  | (Some kid, value) :: rest =>
      if negb (ValidKeyID kid) then Err (ErrText ("invalid key id " +:+ kid))
      else if bool_decide (is_Some (keys !! kid)) then Err (ErrText ("duplicate key id " +:+ kid))
      else
        match value with
        | None => Err (ErrText ("decode public key " +:+ kid))
        | Some encoded =>
            match Std.DecodeString encoded with
            | None => Err (ErrText ("public key " +:+ kid +:+ " must be standard base64"))
            | Some decoded =>
                if negb (len decoded =? PublicKeySize)
                then Err (ErrText ("public key " +:+ kid +:+ " must decode to 32 bytes"))
                else ring_items (<[kid := decoded]> keys) rest
            end
        end
  end.

Definition ParseRetainedPublicKeys (tokens : string -> option RingDoc) (raw : string) : result goerr (gmap string string) :=
  let raw := if streq (TrimSpace raw) "" then "{}" else raw in
  match tokens raw with
  | None => Err (ErrText "must be a JSON object")
  | Some doc =>
      keys ← ring_items ∅ (rd_items doc);
      if negb (rd_closed doc) then Err (ErrText "invalid JSON object terminator")
      else if negb (rd_end doc) then Err (ErrText "unexpected data after JSON object")
      else Ok keys
  end.

(** ** The configuration *)

Record Config := mkConfig {
  Port : string; Environment : string; BaseURL : string; DatabaseURL : string; JWTSecret : string;
  LicenseSigningKey : string; LicenseSigningKeyID : string; LicenseLeaseTTL : string; LicenseRetainedPublicKeys : string;
  StripeSecretKey : string; StripeWebhookSecret : string; StripeLivemode : bool;
  WebhookMaxAttempts : Z; WebhookRetryInterval : string; WebhookHTTPTimeout : string; QuotaWarningThreshold : spec_float;
  SMTPHost : string; SMTPPort : string; SMTPUsername : string; SMTPPassword : string; SMTPFrom : string;
  RedisURL : string; MetricsToken : string; RateLimitAPI : Z; RateLimitAdmin : Z; RateLimitAuth : Z;
  BFMaxFails : Z; BFLockoutSeconds : Z; AdminEmails : list string;
  StorageEndpoint : string; StorageRegion : string; StorageBucket : string; StorageAccessKey : string; StorageSecretKey : string;
  StoragePublicURL : string; StorageForcePathStyle : bool; StorageUploadTTL : string; StorageDownloadTTL : string;
  ReleaseKeyEncryptionKey : string; MaxReleaseSignSize : Z
}.

Definition deriveLivemode (envVal : string) (envSet : bool) (secretKey : string) : bool :=
  if envSet then EqualFold envVal "true" || streq envVal "1"
  else HasPrefix secretKey "sk_live_" || HasPrefix secretKey "rk_live_".

Definition normalizedEnv (c : Config) : string := ToLower (TrimSpace (Environment c)).
Definition IsProduction (c : Config) : bool := streq (normalizedEnv c) "production".
Definition IsDevLoginAllowed (c : Config) : bool := streq (normalizedEnv c) "development".
Definition IsAdminEmail (c : Config) (email : string) : bool := existsb (fun e => EqualFold e email) (AdminEmails c).
Definition IsStorageEnabled (c : Config) : bool :=
  negb (streq (StorageBucket c) "") && negb (streq (StorageAccessKey c) "") && negb (streq (StorageSecretKey c) "").
Definition IsMasterEncryptionKeyConfigured (c : Config) : bool := len (ReleaseKeyEncryptionKey c) =? 64.

(** The same test as [ValidKeyID], written a second time in the source. *)
Definition validSigningKeyID (v : string) : bool :=
  if (len v <? 1) || (64 <? len v) then false else sall kid_char v.

(** ** [Load] *)

Record FileInfo := mkFileInfo { fi_regular : bool; fi_symlink : bool; fi_perm : Z; fi_size : Z }.

Section load.
Context (env : string -> option string).                  (* [os.LookupEnv], after [godotenv.Load] *)
Context (lstat : string -> goerr + FileInfo) (readFile : string -> goerr + string).
Context (ParseFloat : string -> option spec_float).

Definition Getenv (key : string) : string := default "" (env key).
Definition envOr (key fallback : string) : string := if streq (Getenv key) "" then fallback else Getenv key.
Definition envIntOr (key : string) (fallback : Z) : Z :=
  if streq (Getenv key) "" then fallback else default fallback (Atoi (Getenv key)).
Definition envFloatOr (key : string) (fallback : spec_float) : spec_float :=
  if streq (Getenv key) "" then fallback else default fallback (ParseFloat (Getenv key)).

Definition trim_newlines (s : string) : string := trim_right (fun c => Ascii.eqb c (chr 13) || Ascii.eqb c (chr 10)) s.

Definition envOrFile (key : string) : result goerr string :=
  match env key, env (key +:+ "_FILE") with
  | Some _, Some _ => Err (ErrText (key +:+ " and " +:+ key +:+ "_FILE are mutually exclusive"))
  | value, None => Ok (default "" value)
  | None, Some path =>
      if streq path "" || negb (HasPrefix path "/") then Err (ErrText (key +:+ "_FILE must be an absolute path"))
      else
        match lstat path with
        | inl err => Err (ErrWrap ("read " +:+ key +:+ "_FILE") err)
        | inr info =>
            if negb (fi_regular info) || fi_symlink info
            then Err (ErrText (key +:+ "_FILE must reference a regular non-symlink file"))
            else if negb (Z.land (fi_perm info) 18 =? 0)
            then Err (ErrText (key +:+ "_FILE must not be group/world writable"))
            else if 64 * 1024 <? fi_size info then Err (ErrText (key +:+ "_FILE exceeds 64 KiB"))
            else
              match readFile path with
              | inl err => Err (ErrWrap ("read " +:+ key +:+ "_FILE") err)
              | inr contents => Ok (trim_newlines contents)
              end
        end
  end.

(** 0.8, the nearest [float64]. *)
Definition default_threshold : spec_float := SFdiv 53 1024 (float64 8) (float64 10).

Definition Load : result goerr Config :=
  databaseURL ← envOrFile "DATABASE_URL";
  jwtSecret ← envOrFile "JWT_SECRET";
  licenseSigningKey ← envOrFile "LICENSE_SIGNING_KEY";
  stripeSecretKey ← envOrFile "STRIPE_SECRET_KEY";
  metricsToken ← envOrFile "METRICS_TOKEN";
  smtpPassword ← envOrFile "SMTP_PASSWORD";
  storageAccessKey ← envOrFile "STORAGE_ACCESS_KEY";
  storageSecretKey ← envOrFile "STORAGE_SECRET_KEY";
  releaseKeyEncryptionKey ← envOrFile "RELEASE_KEY_ENCRYPTION_KEY";
  let cfg := {|
    Port := envOr "PORT" "9000";
    Environment := envOr "ENVIRONMENT" "development";
    BaseURL := envOr "BASE_URL" "http://localhost:9000";
    DatabaseURL := databaseURL;
    JWTSecret := jwtSecret;
    LicenseSigningKey := licenseSigningKey;
    LicenseSigningKeyID := envOr "LICENSE_SIGNING_KEY_ID" "v1";
    LicenseLeaseTTL := envOr "LICENSE_LEASE_TTL" "72h";
    LicenseRetainedPublicKeys := envOr "LICENSE_RETAINED_PUBLIC_KEYS" "{}";
    StripeSecretKey := stripeSecretKey;
    StripeWebhookSecret := Getenv "STRIPE_WEBHOOK_SECRET";
    StripeLivemode := deriveLivemode (Getenv "STRIPE_LIVEMODE") (bool_decide (is_Some (env "STRIPE_LIVEMODE"))) stripeSecretKey;
    RedisURL := Getenv "REDIS_URL";
    MetricsToken := metricsToken;
    SMTPHost := Getenv "SMTP_HOST";
    SMTPPort := envOr "SMTP_PORT" "587";
    SMTPUsername := Getenv "SMTP_USERNAME";
    SMTPPassword := smtpPassword;
    SMTPFrom := Getenv "SMTP_FROM";
    RateLimitAPI := envIntOr "RATE_LIMIT_API" 60;
    RateLimitAdmin := envIntOr "RATE_LIMIT_ADMIN" 120;
    RateLimitAuth := envIntOr "RATE_LIMIT_AUTH" 20;
    BFMaxFails := envIntOr "BF_MAX_FAILS" 5;
    BFLockoutSeconds := envIntOr "BF_LOCKOUT_SECONDS" 30;
    WebhookMaxAttempts := envIntOr "WEBHOOK_MAX_ATTEMPTS" 5;
    WebhookRetryInterval := envOr "WEBHOOK_RETRY_INTERVAL" "30s";
    WebhookHTTPTimeout := envOr "WEBHOOK_HTTP_TIMEOUT" "10s";
    QuotaWarningThreshold := envFloatOr "QUOTA_WARNING_THRESHOLD" default_threshold;
    AdminEmails := if streq (Getenv "ADMIN_EMAILS") "" then [] else TrimSpace <$> split_comma (Getenv "ADMIN_EMAILS");
    StorageEndpoint := Getenv "STORAGE_ENDPOINT";
    StorageRegion := envOr "STORAGE_REGION" "auto";
    StorageBucket := Getenv "STORAGE_BUCKET";
    StorageAccessKey := storageAccessKey;
    StorageSecretKey := storageSecretKey;
    StoragePublicURL := Getenv "STORAGE_PUBLIC_URL";
    StorageForcePathStyle := EqualFold (Getenv "STORAGE_FORCE_PATH_STYLE") "true";
    StorageUploadTTL := envOr "STORAGE_UPLOAD_TTL" "1h";
    StorageDownloadTTL := envOr "STORAGE_DOWNLOAD_TTL" "10m";
    ReleaseKeyEncryptionKey := releaseKeyEncryptionKey;
    MaxReleaseSignSize := go_mul (go_mul (envIntOr "MAX_RELEASE_SIGN_SIZE_MB" 500) 1024) 1024
  |} in
  if streq (DatabaseURL cfg) "" then Err (ErrText "DATABASE_URL is required")
  else if streq (JWTSecret cfg) "" then Err (ErrText "JWT_SECRET is required")
  else if streq (LicenseSigningKey cfg) "" then Err (ErrText "LICENSE_SIGNING_KEY is required")
  else Ok cfg.
End load.

(** ** [ValidateSecurityDefaults] *)

(** A message when the condition holds. *)
Definition note (b : bool) (message : string) : list string := if b then [message] else [].

Definition min_lease_ttl : Duration := 5 * Minute.
Definition max_lease_ttl : Duration := 30 * 24 * Hour.

Section validate.
Context (tokens : string -> option RingDoc) (c : Config).

Definition active_key_id : string := if streq (LicenseSigningKeyID c) "" then "v1" else LicenseSigningKeyID c.
Definition lease_ttl_text : string := if streq (LicenseLeaseTTL c) "" then "72h" else LicenseLeaseTTL c.

Definition known_environment : bool := existsb (streq (normalizedEnv c)) ["development"; "staging"; "production"].

Definition valid_seed : bool :=
  match hex_DecodeString (TrimSpace (LicenseSigningKey c)) with Some seed => len seed =? 32 | None => false end.

Definition retained_fatal : list string :=
  match ParseRetainedPublicKeys tokens (LicenseRetainedPublicKeys c) with
  | Err e => ["LICENSE_RETAINED_PUBLIC_KEYS: " +:+ goerr_Error e]
  | Ok retained =>
      note (bool_decide (is_Some (retained !! active_key_id)))
        "LICENSE_RETAINED_PUBLIC_KEYS must not contain active LICENSE_SIGNING_KEY_ID; the active public key is included automatically"
  end.

Definition ttl_fatal : list string :=
  match ParseDuration lease_ttl_text with
  | None => ["LICENSE_LEASE_TTL must be a valid Go duration such as '72h'"]
  | Some ttl => note ((ttl <? min_lease_ttl) || (max_lease_ttl <? ttl)) "LICENSE_LEASE_TTL must be between 5m and 720h"
  end.

Definition production_fatal : list string :=
  if IsProduction c then
    note (streq (TrimSpace (RedisURL c)) "") "REDIS_URL is required in production for persistent distributed abuse controls" ++
    note (streq (TrimSpace (SMTPHost c)) "" || streq (TrimSpace (SMTPFrom c)) "")
      "SMTP_HOST and SMTP_FROM are required in production so OTP authentication cannot fall back or fail silently"
  else [].

Definition storage_fields_set : bool :=
  negb (streq (StorageBucket c) "") || negb (streq (StorageAccessKey c) "") || negb (streq (StorageSecretKey c) "")
  || negb (streq (StorageEndpoint c) "").

(** The switch on the master key: its warnings and its fatal errors. *)
Definition master_key_notes : list string * list string :=
  let key := ReleaseKeyEncryptionKey c in
  if IsStorageEnabled c && streq key ""
  then ([], ["RELEASE_KEY_ENCRYPTION_KEY is required when storage is enabled — generate via: openssl rand -hex 32"])
  else if IsProduction c && streq key ""
  then ([], ["RELEASE_KEY_ENCRYPTION_KEY is required in production so license keys are encrypted at rest"])
  else if streq key ""
  then (["SECURITY: RELEASE_KEY_ENCRYPTION_KEY is not set — license keys are stored in plaintext"], [])
  else if negb (len key =? 64)
  then ([], ["RELEASE_KEY_ENCRYPTION_KEY must be exactly 64 hex chars (32 bytes for AES-256)"])
  else match hex_DecodeString key with
       | None => ([], ["RELEASE_KEY_ENCRYPTION_KEY is not valid hex"])
       | Some _ => ([], [])
       end.

Definition fatals : list string :=
  note (negb known_environment)
    ("ENVIRONMENT must be 'development', 'staging', or 'production', got: '" +:+ Environment c +:+ "'") ++
  note (len (JWTSecret c) <? 32) "JWT_SECRET must be at least 32 characters" ++
  note (negb valid_seed)
    "LICENSE_SIGNING_KEY must be a 32-byte ed25519 seed in hex (64 chars); generate with 'openssl rand -hex 32'" ++
  note (negb (validSigningKeyID active_key_id))
    "LICENSE_SIGNING_KEY_ID must be 1-64 characters using only letters, digits, '.', '_' or '-'" ++
  retained_fatal ++ ttl_fatal ++ production_fatal ++
  note (negb (streq (MetricsToken c) "") && (len (MetricsToken c) <? 32))
    "METRICS_TOKEN must be at least 32 characters when configured" ++
  note (storage_fields_set && negb (IsStorageEnabled c))
    "STORAGE_*: partial config detected — STORAGE_BUCKET, STORAGE_ACCESS_KEY, and STORAGE_SECRET_KEY must all be set together (or all empty to disable releases)" ++
  snd master_key_notes.

Definition warnings : list string :=
  note (IsProduction c && match AdminEmails c with [] => true | _ => false end)
    "SECURITY: ADMIN_EMAILS is empty — no one can access the admin panel" ++
  note (IsDevLoginAllowed c) "SECURITY: dev-login is enabled (ENVIRONMENT=development) — do NOT use in production" ++
  fst master_key_notes.

Definition ValidateSecurityDefaults : list string * list string := (warnings, fatals).
End validate.

(** ** Lemmas *)

Lemma digit_run_append s : fst (digit_run s) +:+ snd (digit_run s) = s.
Proof.
  induction s as [|c s IH]; [done|]. simpl. destruct (is_digit c); [|done].
  destruct (digit_run s). simpl in *. by rewrite IH.
Qed.

Lemma unit_run_append s : fst (unit_run s) +:+ snd (unit_run s) = s.
Proof.
  induction s as [|c s IH]; [done|]. simpl. destruct (_ || _); [done|].
  destruct (unit_run s). simpl in *. by rewrite IH.
Qed.

Lemma digit_run_length s : (String.length (snd (digit_run s)) <= String.length s)%nat.
Proof. rewrite <- (digit_run_append s) at 2. rewrite length_append. lia. Qed.

Lemma unit_run_length s unit :
  unitMap (fst (unit_run s)) = Some unit -> (String.length (snd (unit_run s)) < String.length s)%nat.
Proof.
  intros Hu. rewrite <- (unit_run_append s) at 2. rewrite length_append.
  destruct (fst (unit_run s)) eqn:E; [by vm_compute in Hu|]. simpl. lia.
Qed.

Lemma fraction_run_length s : (String.length (snd (fraction_run s)) <= String.length s)%nat.
Proof.
  destruct s as [|c s]; [done|]. destruct (ascii_dec c ".") as [->|Hc].
  - pose proof (digit_run_length s). simpl. lia.
  - unfold fraction_run. by destruct c as [[] [] [] [] [] [] [] []].
Qed.

(** A turn of the loop takes part of the text. *)
Lemma duration_term_length s v rest : duration_term s = Some (v, rest) -> (String.length rest < String.length s)%nat.
Proof.
  unfold duration_term. pose proof (digit_run_length s) as H1. destruct (digit_run s) as [ds s1].
  destruct (leadingInt 0 ds) as [x|]; [|done]. cbn [mbind option_bind].
  pose proof (fraction_run_length s1) as H2. destruct (fraction_run s1) as [fs s2]. destruct (_ && _); [done|].
  pose proof (unit_run_length s2) as H3. destruct (unit_run s2) as [u r]. simpl in *.
  destruct (unitMap u) as [unit|]; [|done]. specialize (H3 unit eq_refl). simpl.
  destruct (_ <? x); [done|]. destruct (leadingFraction _ _ _) as [f scale]. intros. repeat case_match; simplify_eq; lia.
Qed.

(** The loop of [ParseDuration] ends: more turns than the text has characters
    change nothing. *)
Lemma duration_terms_enough n s d :
  (String.length s <= n)%nat -> duration_terms n d s = duration_terms (String.length s) d s.
Proof.
  remember (String.length s) as k eqn:Hk. revert n s d Hk. induction (lt_wf k) as [k _ IH]. intros n s d -> Hn.
  destruct s as [|c s]; [by destruct n|]. destruct n as [|n]; [simpl in Hn; lia|].
  change (String.length (String c s)) with (S (String.length s)). cbn [duration_terms].
  destruct (duration_term (String c s)) as [[v rest]|] eqn:E; [|done]. simpl.
  apply duration_term_length in E. simpl in E, Hn.
  destruct (_ <? _); [done|].
  rewrite (IH (String.length rest) ltac:(simpl; lia) n rest) by (done || lia).
  symmetry. apply (IH (String.length rest)); [simpl; lia|done|lia].
Qed.

Lemma duration_terms_range n d s d' :
  0 <= d <= 2 ^ 63 -> duration_terms n d s = Some d' -> 0 <= d' <= 2 ^ 63.
Proof.
  revert d s. induction n as [|n IH]; intros d s Hd H; destruct s as [|c s]; simpl in H; [by simplify_eq|done|by simplify_eq|].
  destruct (duration_term (String c s)) as [[v rest]|]; [|done]. simpl in H.
  destruct (_ <? uint64 _) eqn:E; [done|]. apply Z.ltb_ge in E. apply IH in H; [done|].
  unfold uint64 in *. pose proof (Z.mod_pos_bound (d + v) (2 ^ 64) eq_refl). lia.
Qed.

Lemma ParseDuration_range s d : ParseDuration s = Some d -> int64_min <= d <= int64_max.
Proof.
  unfold ParseDuration. set (p := match s with String "-" s' => (true, s') | String "+" s' => (false, s') | _ => (false, s) end).
  clearbody p. destruct p as [neg t]. destruct (streq t "0"); [intros; simplify_eq; vm_compute; by split|].
  destruct (streq t ""); [done|]. destruct (duration_terms _ 0 t) as [z|] eqn:E; [|done].
  apply duration_terms_range in E; [|by vm_compute]. simpl. destruct neg; [intros; simplify_eq; apply wrap64_range|].
  destruct (_ <? z) eqn:Ez; [done|]. apply Z.ltb_ge in Ez. intros. simplify_eq. unfold int64_min, int64_max. lia.
Qed.

(** What the source parses, and what it refuses. *)
Example durations :
  ParseDuration "72h" = Some (72 * Hour) /\ ParseDuration "1h30m" = Some (90 * Minute) /\
  ParseDuration "1.5s" = Some (1500 * Millisecond) /\ ParseDuration "-0.000001ms" = Some (-1) /\
  ParseDuration "72" = None /\ ParseDuration "" = None /\ ParseDuration "." = None /\
  ParseDuration "9223372036854775807ns" = Some int64_max /\ ParseDuration "9223372036854775808ns" = None /\
  ParseDuration "-9223372036854775808ns" = Some int64_min.
Proof. vm_compute. repeat split. Qed.

Lemma validSigningKeyID_ValidKeyID v : validSigningKeyID v = ValidKeyID v.
Proof. done. Qed.

(** The keys the ring gains are 32 bytes long under valid identifiers. *)
Definition ring_valid (keys : gmap string string) : Prop :=
  map_Forall (fun kid pub => ValidKeyID kid = true /\ len pub = PublicKeySize) keys.

Lemma ring_items_valid items keys keys' :
  ring_valid keys -> ring_items keys items = Ok keys' -> ring_valid keys'.
Proof.
  revert keys. induction items as [|[[kid|] value] items IH]; simpl; intros keys Hv H; [by simplify_eq| |done].
  destruct (negb (ValidKeyID kid)) eqn:E1; [done|]. destruct (bool_decide _); [done|].
  destruct value as [enc|]; [|done]. destruct (Std.DecodeString enc) as [pub|]; [|done].
  destruct (negb (len pub =? _)) eqn:E2; [done|]. bool_facts. eapply IH; [|done]. by apply map_Forall_insert_2.
Qed.

Lemma retained_valid tokens raw keys : ParseRetainedPublicKeys tokens raw = Ok keys -> ring_valid keys.
Proof.
  unfold ParseRetainedPublicKeys. destruct (tokens _) as [doc|]; [|done]. unfold mbind, result_bind.
  destruct (ring_items ∅ _) as [keys'|] eqn:E; [|done]. destruct (negb _); [done|]. destruct (negb _); [done|]. intros [= <-].
  eapply ring_items_valid; [|done]. by apply map_Forall_empty.
Qed.

(** A document that names a key twice is refused, whatever its values. *)
Lemma ring_items_duplicate keys kid value items : is_Some (keys !! kid) -> exists e, ring_items keys ((Some kid, value) :: items) = Err e.
Proof.
  intros Hk. simpl. destruct (negb _); [by eexists|]. rewrite bool_decide_eq_true_2 by done. by eexists.
Qed.

(** What no fatal error says of the configuration. *)
Lemma note_nil b m : note b m = [] -> b = false.
Proof. by destruct b. Qed.

Record validated (tokens : string -> option RingDoc) (c : Config) : Prop := {
  va_environment : known_environment c = true;
  va_jwt : 32 <= len (JWTSecret c);
  va_seed : valid_seed c = true;
  va_kid : ValidKeyID (active_key_id c) = true;
  va_retained : exists keys, ParseRetainedPublicKeys tokens (LicenseRetainedPublicKeys c) = Ok keys /\ keys !! active_key_id c = None;
  va_ttl : exists ttl, ParseDuration (lease_ttl_text c) = Some ttl /\ min_lease_ttl <= ttl <= max_lease_ttl;
  va_production : IsProduction c = true -> TrimSpace (RedisURL c) <> "" /\ TrimSpace (SMTPHost c) <> "" /\ TrimSpace (SMTPFrom c) <> "";
  va_metrics : MetricsToken c = "" \/ 32 <= len (MetricsToken c);
  va_storage : storage_fields_set c = true -> IsStorageEnabled c = true;
  va_master : ReleaseKeyEncryptionKey c = "" /\ IsStorageEnabled c = false /\ IsProduction c = false \/
    len (ReleaseKeyEncryptionKey c) = 64 /\ exists raw, hex_DecodeString (ReleaseKeyEncryptionKey c) = Some raw
}.

Lemma master_key_valid c :
  snd (master_key_notes c) = [] ->
  ReleaseKeyEncryptionKey c = "" /\ IsStorageEnabled c = false /\ IsProduction c = false \/
  len (ReleaseKeyEncryptionKey c) = 64 /\ exists raw, hex_DecodeString (ReleaseKeyEncryptionKey c) = Some raw.
Proof.
  unfold master_key_notes. destruct (streq (ReleaseKeyEncryptionKey c) "") eqn:E.
  - apply streq_true in E. destruct (IsStorageEnabled c); [done|]. destruct (IsProduction c); [done|]. by left.
  - rewrite !andb_false_r. destruct (negb _) eqn:El; [done|]. destruct (hex_DecodeString _) as [raw|]; [|done].
    intros _. right. bool_facts. split; [done|by exists raw].
Qed.

Lemma retained_quiet tokens c :
  retained_fatal tokens c = [] ->
  exists keys, ParseRetainedPublicKeys tokens (LicenseRetainedPublicKeys c) = Ok keys /\ keys !! active_key_id c = None.
Proof.
  unfold retained_fatal. destruct (ParseRetainedPublicKeys _ _) as [keys|]; [|done]. intros H%note_nil.
  exists keys. split; [done|]. apply bool_decide_eq_false in H. by apply eq_None_not_Some.
Qed.

Lemma ttl_quiet c :
  ttl_fatal c = [] -> exists ttl, ParseDuration (lease_ttl_text c) = Some ttl /\ min_lease_ttl <= ttl <= max_lease_ttl.
Proof.
  unfold ttl_fatal. destruct (ParseDuration _) as [ttl|]; [|done]. intros H%note_nil. exists ttl.
  apply orb_false_iff in H as [H1%Z.ltb_ge H2%Z.ltb_ge]. done.
Qed.

Lemma production_quiet c :
  production_fatal c = [] -> IsProduction c = true ->
  TrimSpace (RedisURL c) <> "" /\ TrimSpace (SMTPHost c) <> "" /\ TrimSpace (SMTPFrom c) <> "".
Proof.
  unfold production_fatal. intros H Hp. rewrite Hp in H. apply app_nil in H as [H1%note_nil H2%note_nil].
  apply orb_false_iff in H2 as [H2 H3]. by rewrite !streq_false in *.
Qed.

Lemma no_fatal_validated tokens c : fatals tokens c = [] -> validated tokens c.
Proof.
  unfold fatals. rewrite !app_nil.
  intros (H1%note_nil & H2%note_nil & H3%note_nil & H4%note_nil & H5 & H6 & H7 & H8%note_nil & H9%note_nil & H10).
  bool_facts. constructor; [done|lia|done|done|by apply retained_quiet|by apply ttl_quiet|by apply production_quiet|..].
  - apply andb_false_iff in H8 as [H8%negb_false_iff|H8%Z.ltb_ge]; [left; by apply streq_true|by right].
  - intros Hs. rewrite Hs in H9. by apply negb_false_iff in H9.
  - by apply master_key_valid.
Qed.
