(* ===== verification/Settings.v ===== *)
(** * Settings of the installation ([store/settings.go], [handler/admin.go], [cmd/server/main.go])

    A table of texts by name: what it holds of the site's appearance is public,
    the templates of the letters and the state of the set-up are not. *)

From S2P Require Import Prelude GoStrings Errors Model World Tables Logic Store Sessions Access.
From Stdlib Require Import Ascii String.

#[local] Open Scope string_scope.
#[local] Open Scope Z_scope.

(** ** The store *)

Definition is_setting (key : string) (s : Setting) : bool := streq (st_Key s) key.

Definition GetSetting (key : string) : M goerr string :=
  s ← sql_select_one settings (is_setting key); mret (st_Value s).

(** [result[s.Key] = s.Value] over the rows. *)
Definition by_key (rs : list Setting) : gmap string string := list_to_map ((fun s => (st_Key s, st_Value s)) <$> rs).

Definition GetSettings : M goerr (gmap string string) :=
  rs ← sql_select settings (fun _ => true); mret (by_key rs).

Definition publicKeys : list string := ["site_name"; "timezone"; "brand_color"; "language"; "logo_url"].

Definition GetPublicSettings : M goerr (gmap string string) :=
  rs ← sql_select settings (fun s => contains (st_Key s) publicKeys); mret (by_key rs).

(** [INSERT ... ON CONFLICT (key) DO UPDATE SET value = EXCLUDED.value]. *)
Definition put_setting (key value : string) (db : DB) : DB := t_set settings (<[key := mkSetting key value]> (db_settings db)) db.

Definition SetSetting (key value : string) : M goerr unit := stmt (fun db => Ok (tt, put_setting key value db)).

(** One statement for each entry, in the order the map is walked; the first
    that fails ends the loop. *)
Fixpoint SetSettings (entries : list (string * string)) : M goerr unit :=
  match entries with
  | [] => mret tt
  | (key, value) :: rest => SetSetting key value ;; SetSettings rest
  end.

(** ** The handlers *)

Inductive SettingsAnswer :=
  | SettingsAre (settings : gmap string string)
  | SettingsSaved
  | TemplatesAre (templates : list (string * (string * string)))     (* name: custom, default *)
  | SettingsRefused (status : Z) (code message : string).

Definition settings_internal : SettingsAnswer := SettingsRefused 500 "INTERNAL_ERROR" "an internal error occurred".

Definition GetSettings_ : M goerr SettingsAnswer :=
  r ← attempt GetSettings; mret (match r with Ok s => SettingsAre s | Err _ => settings_internal end).

(** The keys an administrator may write. *)
Definition allowed_settings : list string :=
  ["site_name"; "timezone"; "language"; "brand_color"; "logo_url";
   "smtp_host"; "smtp_port"; "smtp_username"; "smtp_password"; "smtp_from";
   "rate_limit_api"; "rate_limit_admin"; "webhook_max_attempts"; "webhook_timeout"; "quota_warning_threshold";
   "setup_complete";
   "email_template_license_created"; "email_template_license_expiring"; "email_template_license_expired";
   "email_template_trial_expired"; "email_template_license_suspended"; "email_template_quota_warning";
   "email_template_seat_invite"; "email_template_payment_failed"].

(** [None]: the body does not bind. *)
Definition UpdateSettings_ `{UUIDs} (cx : Context_) (req : option (list (string * string))) : M goerr SettingsAnswer :=
  match req with
  | None => mret (SettingsRefused 400 "BAD_REQUEST" "settings map is required")
  | Some entries =>
      match head (List.filter (fun kv => negb (contains kv.1 allowed_settings)) entries) with
      | Some (key, _) => mret (SettingsRefused 400 "BAD_REQUEST" ("unknown setting: " +:+ key))
      | None =>
          r ← attempt (SetSettings entries);
          match r with
          | Err _ => mret settings_internal
          | Ok _ =>
              Audit (mkAuditLog "" "settings" "system" "updated" (adminID cx) "admin"
                {["keys" := AnyStrings entries.*1]} "" 0) ;;
              mret SettingsSaved
          end
      end
  end.

(** Errors of the lookup leave the custom text empty. *)
Fixpoint GetEmailTemplates_ (defaults : list (string * string)) : M goerr (list (string * (string * string))) :=
  match defaults with
  | [] => mret []
  | (key, def) :: rest =>
      r ← attempt (GetSetting ("email_template_" +:+ key));
      others ← GetEmailTemplates_ rest;
      mret ((key, (match r with Ok v => v | Err _ => "" end, def)) :: others)
  end.

(** [GET /config]: the public settings, none when they cannot be read, with
    the attribution. *)
Definition site_config : M goerr (gmap string string) :=
  r ← attempt GetPublicSettings;
  let settings := match r with Ok s => s | Err _ => ∅ end in
  mret (<["attribution_url" := "https://keygate.app"]> (<["attribution_text" := "Powered by Keygate"]> settings)).

(** ** Lemmas *)

Definition settings_keyed (db : DB) : Prop := forall k s, db_settings db !! k = Some s -> st_Key s = k.

Definition setting_of (db : DB) (key : string) : option string := st_Value <$> db_settings db !! key.

Lemma put_setting_keyed key value db : settings_keyed db -> settings_keyed (put_setting key value db).
Proof.
  intros Hk k s. unfold put_setting. rewrite (t_get_set settings). intros Hs.
  apply lookup_insert_Some in Hs as [[<- <-]|[_ Hs]]; [done|by apply Hk].
Qed.
