(* ===== verification/Setup.v ===== *)
(** * First run and the other ways in ([handler/setup.go], [handler/oauth.go])

    The set-up wizard, the only way to an owner without a session, and the
    sign-ins of [AuthHandler] that are not a one-time code: the development
    login and the acceptance of an invitation. *)

From S2P Require Import Prelude GoStrings Errors Model Crypto Lockout World Tables Logic Store Usage Config Sessions Access Seats.
From S2P Require Import Catalogue CatalogueProps Audited Txn Settings Demo.
From Stdlib Require Import Ascii String.

#[local] Open Scope string_scope.
#[local] Open Scope Z_scope.

(** ** The wizard *)

Record SetupRequest := mkSetupRequest {
  sq_AdminEmail : string; sq_AdminName : string; sq_SiteName : string;
  sq_ProductName : string; sq_ProductSlug : string; sq_ProductType : string
}.

Inductive SetupAnswer :=
  | SetupStatus (needed : bool) (step : string)
  | SetupCreated (user : User) (product : Product) (plan : Plan)
  | SetupRefused (status : Z) (code message : string).

Definition setup_bad (message : string) : SetupAnswer := SetupRefused 400 "BAD_REQUEST" message.
Definition setup_internal : SetupAnswer := SetupRefused 500 "INTERNAL_ERROR" "an internal error occurred".
Definition setup_complete : SetupAnswer := SetupRefused 409 "SETUP_COMPLETE" "setup already complete".

(** The error of the first query is dropped; when the owners cannot be counted
    the set-up is taken to be needed. *)
Definition setupNeeded : M goerr (bool * string) :=
  complete ← attempt (GetSetting "setup_complete");
  if (match complete with Ok v => streq v "true" | Err _ => false end : bool) then mret (false, "complete")
  else
    r ← attempt CountOwners;
    mret (match r with
          | Err _ => (true, "initialize")
          | Ok ownerCount => if 0 <? ownerCount then (false, "complete") else (true, "initialize")
          end).

Definition Status : M goerr SetupAnswer := '(needed, step) ← setupNeeded; mret (SetupStatus needed step).

Definition normalised (q : SetupRequest) : SetupRequest :=
  mkSetupRequest (TrimSpace (ToLower (sq_AdminEmail q))) (TrimSpace (sq_AdminName q)) (TrimSpace (sq_SiteName q))
    (TrimSpace (sq_ProductName q)) (TrimSpace (ToLower (sq_ProductSlug q))) (TrimSpace (ToLower (sq_ProductType q))).

(** The first check that fails. *)
Definition setup_refusal (q : SetupRequest) : option string :=
  if negb (contains (sq_ProductType q) ["saas"; "desktop"; "hybrid"])
  then Some "product_type must be one of: saas, desktop, hybrid"
  else match ValidateName "product_name" (sq_ProductName q) with
       | Some e => Some (Message e)
       | None => Message <$> ValidateSlug (sq_ProductSlug q)
       end.

(** What the plan of a product type may carry. *)
Definition setup_limits (type : string) : Z * Z :=
  if streq type "saas" then (0, 10) else if streq type "desktop" then (1, 0) else if streq type "hybrid" then (1, 10) else (0, 0).

Definition user_make_owner (name : string) (now : Time) (u : User) : User :=
  mkUser (user_ID u) (user_Email u) name (user_AvatarURL u) RoleOwner (user_SessionVersion u) (user_CreatedAt u) now.

Definition setup_product (id : string) (q : SetupRequest) (now : Time) : Product :=
  mkProduct id (sq_ProductName q) (sq_ProductSlug q) (sq_ProductType q) "" "" true now.

Definition setup_plan (id productID checkoutID : string) (q : SetupRequest) (now : Time) : Plan :=
  let '(maxActivations, maxSeats) := setup_limits (sq_ProductType q) in
  mkPlan id productID "Pro" "pro" checkoutID "subscription" "" maxActivations 0 7 "" "standard" 30 maxSeats true 0 now [].

Section setup.
Context `{UUIDs}.

(** [INSERT ... ON CONFLICT (email) DO UPDATE SET role = 'owner', ...]. *)
Definition upsert_owner (id email name : string) (now : Time) (db : DB) : result goerr (unit * DB) :=
  let same u := streq (user_Email u) email in
  if row_exists same (db_users db)
  then Ok (tt, t_set users (update_rows same (user_make_owner name now) (db_users db)) db)
  else insert_row users id (mkUser id email name "" RoleOwner 0 now now) db.

(** The statements of the transaction. *)
Definition install (q : SetupRequest) : M goerr SetupAnswer :=
  userID ← newID;
  now ← sql_now;
  stmt (upsert_owner userID (sq_AdminEmail q) (sq_AdminName q) now) ;;
  user ← sql_select_one users (fun u => streq (user_Email u) (sq_AdminEmail q));
  SetSetting "site_name" (sq_SiteName q) ;;
  productID ← newID;
  sql_insert products productID (setup_product productID q now) ;;
  planID ← newID;
  checkoutID ← shortID;
  sql_insert plans planID (setup_plan planID productID checkoutID q now) ;;
  SetSetting "setup_complete" "true" ;;
  commit_tx ;;
  mret (SetupCreated (mkUser (user_ID user) (sq_AdminEmail q) (sq_AdminName q) "" RoleOwner 0 0 0)
          (mkProduct productID (sq_ProductName q) (sq_ProductSlug q) (sq_ProductType q) "" "" false 0)
          (mkPlan planID productID "Pro" "pro" "" "subscription" "" 0 0 0 "" "" 0 0 false 0 0 [])).

(** The rest of [Initialize] once the lock is held. *)
Definition initialize_locked (req : option SetupRequest) : M goerr SetupAnswer :=
  '(needed, _) ← setupNeeded;
  if negb needed then mret setup_complete
  else
    match req with
    | None => mret (setup_bad "invalid request")
    | Some q =>
        match setup_refusal (normalised q) with
        | Some message => mret (setup_bad message)
        | None =>
            r ← attempt (with_tx (install (normalised q)));
            mret (match r with Ok a => a | Err _ => setup_internal end)
        end
    end.

(** [free]: whether no other session holds the advisory lock; [None] for
    [req] when the body does not bind. *)
Definition Initialize (free : bool) (req : option SetupRequest) : M goerr SetupAnswer :=
  '(needed, _) ← setupNeeded;
  if negb needed then mret setup_complete
  else
    locked ← attempt (stmt (fun db => Ok (free, db)));
    match locked with
    | Err _ => mret setup_internal
    | Ok false => mret (SetupRefused 409 "SETUP_IN_PROGRESS" "another setup is in progress")
    | Ok true =>
        a ← initialize_locked req;
        ignore sql_lock ;;
        mret a
    end.
End setup.

(** ** What the set-up leaves *)

(** The owner, the product with its plan and the two settings; every other
    user, and every other table, is as before. *)
Definition installed_by (q : SetupRequest) (db db' : DB) : Prop :=
  exists us pid plid cid now,
    db' = t_set settings (<["setup_complete" := mkSetting "setup_complete" "true"]>
            (<["site_name" := mkSetting "site_name" (sq_SiteName q)]> (db_settings db)))
          (t_set plans (<[plid := setup_plan plid pid cid q now]> (db_plans db))
          (t_set products (<[pid := setup_product pid q now]> (db_products db))
          (t_set users us db))) /\
    (exists k u, us !! k = Some u /\ user_Email u = sq_AdminEmail q /\ user_Name u = sq_AdminName q /\ user_Role u = RoleOwner) /\
    (forall k u, user_Email u <> sq_AdminEmail q -> us !! k = Some u <-> db_users db !! k = Some u) /\
    db_products db !! pid = None /\ db_plans db !! plid = None /\
    row_exists (fun p => streq (prod_Slug p) (sq_ProductSlug q)) (db_products db) = false.

Definition setup_done (db : DB) : Prop := setting_of db "setup_complete" = Some "true" \/ 0 < count is_owner (db_users db).

Lemma installed_by_done q db db' : installed_by q db db' -> setup_done db'.
Proof. intros (us & pid & plid & cid & now & -> & _). left. unfold setting_of. by rewrite (t_get_set settings), lookup_insert_eq. Qed.

Lemma upsert_owner_Ok id email name now db db' :
  upsert_owner id email name now db = Ok (tt, db') ->
  exists us, db' = t_set users us db /\
    (exists k u, us !! k = Some u /\ user_Email u = email /\ user_Name u = name /\ user_Role u = RoleOwner) /\
    (forall k u, user_Email u <> email -> us !! k = Some u <-> db_users db !! k = Some u).
Proof.
  unfold upsert_owner. destruct (row_exists _ (db_users db)) eqn:E.
  - intros [= <-]. eexists. split; [done|]. apply row_exists_true in E as (k & u & Hk & Hu). apply streq_true in Hu. split.
    + exists k, (user_make_owner name now u). rewrite lookup_update_rows, Hk. simpl. rewrite Hu, streq_refl. by split_and!.
    + intros k' u' Hne. rewrite lookup_update_rows. destruct (db_users db !! k') as [u0|]; simpl; [|done].
      destruct (streq (user_Email u0) email) eqn:E0; [apply streq_true in E0|done]. split; intros [= <-]; done.
  - intros (Hk & _ & _ & ->)%insert_row_Ok. rewrite row_exists_false in E. simpl in Hk. eexists. split; [done|]. split.
    + eexists id, _. rewrite lookup_insert_eq. by split_and!.
    + intros k u Hne. destruct (decide (k = id)) as [->|Hd]; [rewrite lookup_insert_eq, Hk; split; [intros [= <-]; done|done]|].
      by rewrite lookup_insert_ne.
Qed.

(** The users of the new tables, and what is yet to come unchanged. *)
Definition owner_set (q : SetupRequest) (db0 : DB) (us : gmap string User) : Prop :=
  (exists k u, us !! k = Some u /\ user_Email u = sq_AdminEmail q /\ user_Name u = sq_AdminName q /\ user_Role u = RoleOwner) /\
  (forall k u, user_Email u <> sq_AdminEmail q -> us !! k = Some u <-> db_users db0 !! k = Some u).

Lemma ends_fact {A} I (F : Prop) P (m : M goerr A) Q : (F -> ends I P m Q) -> ends I (fun db => F /\ P db) m Q.
Proof. intros Hm w tx Htx Hok Hi [Hf Hp]. exact (Hm Hf w tx Htx Hok Hi Hp). Qed.
Lemma ends_ex {A B} I (P : B -> DB -> Prop) (m : M goerr A) Q : (forall b, ends I (P b) m Q) -> ends I (fun db => exists b, P b db) m Q.
Proof. intros Hm w tx Htx Hok Hi [b Hp]. exact (Hm b w tx Htx Hok Hi Hp). Qed.

Section install.
Context `{UUIDs} (q : SetupRequest) (db0 : DB).

Definition slug_free : Prop := row_exists (fun p => streq (prod_Slug p) (sq_ProductSlug q)) (db_products db0) = false.

Lemma txh_owner uid now :
  txh (fun db => db = db0) (stmt (upsert_owner uid (sq_AdminEmail q) (sq_AdminName q) now))
    (fun _ db => exists us, owner_set q db0 us /\ db = t_set users us db0).
Proof. apply txh_stmt. intros db [] db' -> (us & -> & H1 & H2)%upsert_owner_Ok. by exists us. Qed.

Lemma txh_site us :
  txh (fun db => db = t_set users us db0) (SetSetting "site_name" (sq_SiteName q))
    (fun _ db => db = put_setting "site_name" (sq_SiteName q) (t_set users us db0)).
Proof. apply txh_stmt. intros db [] db' -> [= <-]. done. Qed.

Lemma txh_product us pid now :
  txh (fun db => db = put_setting "site_name" (sq_SiteName q) (t_set users us db0))
    (sql_insert products pid (setup_product pid q now))
    (fun _ db => db_products db0 !! pid = None /\ slug_free /\
       db = t_set products (<[pid := setup_product pid q now]> (db_products db0)) (put_setting "site_name" (sq_SiteName q) (t_set users us db0))).
Proof.
  apply txh_stmt. intros db [] db' -> (Hk & Hc & _ & ->)%insert_row_Ok. split; [exact Hk|]. split; [|done].
  apply row_exists_false. exact Hc.
Qed.

Lemma ends_plan us pid plid cid now b :
  owner_set q db0 us -> db_products db0 !! pid = None -> slug_free ->
  ends (fun db => db = db0 \/ installed_by q db0 db)
    (fun db => db = t_set products (<[pid := setup_product pid q now]> (db_products db0)) (put_setting "site_name" (sq_SiteName q) (t_set users us db0)))
    (sql_insert plans plid (setup_plan plid pid cid q now) ;; SetSetting "setup_complete" "true" ;; commit_tx ;; mret (M := M goerr) (b : SetupAnswer))
    (fun _ db => installed_by q db0 db).
Proof.
  intros [Ho Hu] Hp Hs. eapply ends_bind; [apply txh_insert|]. intros []. eapply (ends_bind _ _ _ _ (fun _ => installed_by q db0)).
  - apply txh_stmt. intros db [] db' (db1 & -> & Hk & _ & ->) [= <-]. exists us, pid, plid, cid, now. by split_and!.
  - intros []. eapply ends_weaken; [apply ends_commit_ret; by right|done|]. intros a db [_ Hi]. exact Hi.
Qed.

Lemma ends_install : ends (fun db => db = db0 \/ installed_by q db0 db) (fun db => db = db0) (install q) (fun _ db => installed_by q db0 db).
Proof.
  unfold install. eapply ends_bind; [apply txh_still, still_newID|]. intros uid. cbv beta.
  eapply ends_bind; [apply txh_still, still_sql_now|]. intros now. cbv beta.
  eapply ends_bind; [apply txh_owner|]. intros []. cbv beta.
  apply ends_ex. intros us. apply ends_fact. intros Ho.
  eapply ends_bind; [apply txh_select_one|]. intros u. cbv beta.
  eapply ends_weaken; [|intros db [Hdb _]; exact Hdb|intros a db Hq; exact Hq].
  eapply ends_bind; [apply txh_site|]. intros []. cbv beta.
  eapply ends_bind; [apply txh_still, still_newID|]. intros pid. cbv beta.
  eapply ends_bind; [apply txh_product|]. intros []. cbv beta.
  apply ends_fact. intros Hp. apply ends_fact. intros Hs.
  eapply ends_bind; [apply txh_still, still_newID|]. intros plid. cbv beta.
  eapply ends_bind; [apply txh_still, still_shortID|]. intros cid. cbv beta. by apply ends_plan.
Qed.
End install.

(** ** Before and after *)

Lemma readonly_setupNeeded : readonly setupNeeded.
Proof.
  unfold setupNeeded, GetSetting, CountOwners. readonly_go.
Qed.

(** What the setting is read as, when it can be read. *)
Lemma GetSetting_quiet key w :
  quiet w -> settings_keyed (w_db w) ->
  GetSetting key w = (match setting_of (w_db w) key with Some v => Ok v | None => Err ErrNoRows end, w).
Proof.
  intros Hq Hk. unfold GetSetting, mbind, M_bind, setting_of. rewrite select_one_quiet by done. simpl.
  destruct (db_settings (w_db w) !! key) as [s|] eqn:E.
  - assert (is_setting key s = true) as Hs by by apply streq_true, Hk.
    rewrite (first_row_unique _ _ key s E Hs); [done|]. intros k' s' Hk' Hs'%streq_true. apply Hk in Hk'. congruence.
  - destruct (first_row _) as [s|] eqn:Er; [|done]. apply first_row_rows in Er as (k & Hs & Hp%streq_true).
    apply Hk in Hs as Hkey. congruence.
Qed.

Lemma setupNeeded_done w :
  quiet w -> settings_keyed (w_db w) -> setup_done (w_db w) -> setupNeeded w = (Ok (false, "complete"), w).
Proof.
  intros Hq Hk Hd. unfold setupNeeded, attempt, mbind, M_bind. rewrite GetSetting_quiet by done.
  destruct (match setting_of _ _ with Some v => Ok v | None => Err ErrNoRows end) as [v|e] eqn:E; cycle 1.
  - unfold CountOwners, sql_count. rewrite stmt_quiet by done. destruct Hd as [Hd|Hd]; [by rewrite Hd in E|].
    simpl. apply Z.ltb_lt in Hd as ->. by rewrite set_db_same.
  - destruct (streq v "true") eqn:Ev; [done|]. unfold CountOwners, sql_count. rewrite stmt_quiet by done.
    destruct Hd as [Hd|Hd]; [rewrite Hd in E; injection E as <-; done|]. simpl. apply Z.ltb_lt in Hd as ->. by rewrite set_db_same.
Qed.

(** Nothing happened and nothing is reported, or the set-up is complete. *)
Definition set_up_or_not (req : option SetupRequest) (db : DB) (r : result goerr SetupAnswer) (db' : DB) : Prop :=
  db' = db /\ (forall u p pl, r <> Ok (SetupCreated u p pl)) \/
  exists q, req = Some q /\ setup_refusal (normalised q) = None /\ installed_by (normalised q) db db'.

Section initialize.
Context `{UUIDs} (req : option SetupRequest).

Lemma locked_atomic w :
  w_tx w = None -> let '(r, w') := initialize_locked req w in w_tx w' = None /\ set_up_or_not req (w_db w) r (w_db w').
Proof.
  intros Hw. unfold initialize_locked. unfold mbind at 1, M_bind at 1.
  destruct (readonly_setupNeeded w Hw) as (D & T & _). destruct (setupNeeded w) as [[[needed step]|e] w1]; simpl in D, T; [|split; [done|by left]].
  rewrite <- D. destruct (negb needed); [split; [done|by left]|]. destruct req as [q|]; [|split; [done|by left]].
  destruct (setup_refusal (normalised q)) eqn:Eq; [split; [done|by left]|].
  unfold mbind, M_bind, attempt.
  pose proof (with_tx_closed (install (normalised q)) w1 T) as Hcl.
  pose proof (with_tx_atomic (installed_by (normalised q)) (install (normalised q)) w1 T (ends_install (normalised q))) as Ha.
  destruct (with_tx _ w1) as [r w2]. simpl in *. split; [done|].
  destruct Ha as [[[e ->] Hd]|Hi]; [left; by split|]. right. exists q. by split_and!.
Qed.

Lemma Initialize_atomic free w :
  w_tx w = None -> let '(r, w') := Initialize free req w in set_up_or_not req (w_db w) r (w_db w').
Proof.
  intros Hw. unfold Initialize. unfold mbind at 1, M_bind at 1.
  destruct (readonly_setupNeeded w Hw) as (D & T & _). destruct (setupNeeded w) as [[[needed step]|e] w1]; simpl in D, T; [|by left].
  rewrite <- D. destruct (negb needed); [by left|]. unfold mbind at 1, M_bind at 1, attempt.
  assert (readonly (stmt (fun db => Ok (free, db)))) as Htry by (apply readonly_stmt; intros; by simplify_eq).
  destruct (Htry w1 T) as (D2 & T2 & _).
  destruct (stmt _ w1) as [[[]|e] w2]; simpl in D2, T2; rewrite <- D2; [|by left|by left].
  unfold mbind at 1, M_bind at 1. pose proof (locked_atomic w2 T2) as Hl.
  destruct (initialize_locked req w2) as [[a|e] w3]; destruct Hl as [T3 Hl]; [|done].
  assert (readonly sql_lock) as Hun by (apply readonly_stmt; intros; by simplify_eq). destruct (Hun w3 T3) as (D4 & _).
  unfold mbind, M_bind, ignore. simpl. by rewrite D4.
Qed.
End initialize.

(** C24. setup_once: whatever fails, the set-up leaves the tables as they were or
    leaves one owner with the address asked for, a product with its plan and
    the mark that it is done, every other user being untouched, and it reports
    success only then; and once there is an owner, or the mark, a request whose
    statements do not fail is refused and changes nothing. *)
Theorem setup_once `{UUIDs} free req w :
  w_tx w = None ->
  let '(r, w') := Initialize free req w in
  set_up_or_not req (w_db w) r (w_db w') /\
  (quiet w -> settings_keyed (w_db w) -> setup_done (w_db w) -> r = Ok setup_complete /\ w' = w).
Proof.
  intros Hw. pose proof (Initialize_atomic req free w Hw) as Ha. destruct (Initialize free req w) as [r w'] eqn:E.
  split; [done|]. intros Hq Hk Hd. unfold Initialize, mbind, M_bind in E. rewrite setupNeeded_done in E by done.
  change ((Ok setup_complete, w) = (r, w')) in E. by simplify_eq.
Qed.

(** ** Signing in ([handler/oauth.go]) *)

Section sign_in.
Context `{UUIDs} (jwt_sign : string -> Claims -> option string) (secret : string) (c : Config).

Inductive LoginAnswer :=
  | LoggedIn (user : User) (cookies : string * string)
  | Accepted (res : AcceptSeatInviteResult) (cookies : option (string * string))
  | ProvidersAre (dev_login : bool)
  | LoginRefused (status : Z) (code : string)
  | LoginFailed (e : error).

Definition Providers : M error LoginAnswer := mret (ProvidersAre (IsDevLoginAllowed c)).

(** The body: address and name; [None] when it does not bind. *)
Definition DevLogin (req : option (string * string)) (ip : string) : M error LoginAnswer :=
  if negb (IsDevLoginAllowed c) then mret (LoginRefused 404 "NOT_FOUND")
  else if negb (Contains (BaseURL c) "localhost") && negb (Contains (BaseURL c) "127.0.0.1")
  then mret (LoginRefused 404 "NOT_FOUND")
  else
    match req with
    | None => mret (LoginRefused 400 "BAD_REQUEST")
    | Some (rawEmail, rawName) =>
        let email := ToLower (TrimSpace rawEmail) in
        let name := if streq rawName "" then "Dev User" else rawName in
        r ← attempt (UpsertUser (mkUser "" email name "" "" 0 0 0) ;; FindUserByEmail email);
        match r with
        | Err _ => mret (LoginRefused 500 "INTERNAL_ERROR")
        | Ok user =>
            s ← attempt (issueSession jwt_sign secret user "dev");
            match s with
            | Err _ => mret (LoginRefused 500 "INTERNAL_ERROR")
            | Ok cookies =>
                Audit (mkAuditLog "" "session" (user_ID user) "login" (user_ID user) "dev_login"
                  {["email" := AnyString (user_Email user)]} ip 0) ;;
                if IsAdminEmail c (user_Email user) && streq (user_Role user) RoleUser then
                  ignore (SetUserRole (user_ID user) RoleAdmin) ;;
                  mret (LoggedIn (user_set_role RoleAdmin (user_UpdatedAt user) user) cookies)
                else mret (LoggedIn user cookies)
            end
        end
    end.

(** A user who cannot be loaded again has no session, and the seat. *)
Definition AcceptInvite (token : option string) : M error LoginAnswer :=
  match token with
  | None => mret (LoginRefused 400 "BAD_REQUEST")
  | Some plainToken =>
      r ← attempt (AcceptSeatInvite_service plainToken);
      match r with
      | Err e => mret (LoginFailed e)
      | Ok res =>
          u ← attempt (FindUserByID (asr_UserID res));
          match u with
          | Err _ => mret (Accepted res None)
          | Ok user =>
              s ← attempt (issueSession jwt_sign secret user "invite");
              mret (match s with Err _ => LoginRefused 500 "INTERNAL_ERROR" | Ok cookies => Accepted res (Some cookies) end)
          end
      end
  end.
End sign_in.

(** In production nothing signs in as a developer. *)
Lemma no_dev_login `{UUIDs} jwt_sign secret c req ip w :
  IsProduction c = true -> DevLogin jwt_sign secret c req ip w = (Ok (LoginRefused 404 "NOT_FOUND"), w).
Proof.
  unfold IsProduction, DevLogin, IsDevLoginAllowed. intros H1%streq_true. by rewrite H1.
Qed.

(** ** Instances *)

#[local] Existing Instance Demo.uuids.

Module SetupDemo.
Definition request : SetupRequest := mkSetupRequest " Ann@Example.com" "Ann" "Licences" "Editor" "Editor" "hybrid".
Definition fresh : World := mkWorld empty_db None (1000 * Second) [] [] false 0 (list_ascii_of_string "abcdefghijklmnopqrstuvwxyz0123456789") ∅ [].
Definition after : World := snd (Initialize true (Some request) fresh).
Definition intruder : SetupRequest := mkSetupRequest "eve@example.com" "Eve" "Mine" "Tool" "tool" "saas".
Definition with_faults (fs : list fault) (w : World) : World := set_faults fs w.
Definition role_at (email : string) (w : World) : option string :=
  user_Role <$> first_row (rows (fun u => streq (user_Email u) email) (db_users (w_db w))).
End SetupDemo.

Definition settings_keyedb (db : DB) : bool := forallb (fun kv => streq (st_Key kv.2) kv.1) (map_to_list (db_settings db)).
Lemma settings_keyedb_sound db : settings_keyedb db = true -> settings_keyed db.
Proof.
  unfold settings_keyedb. rewrite forallb_forall. intros Hall k s Hk.
  apply streq_true. apply (Hall (k, s)). by apply list_elem_of_In, elem_of_map_to_list.
Qed.

Lemma setup_once_witness :
  (exists u p pl, fst (Initialize true (Some SetupDemo.request) SetupDemo.fresh) = Ok (SetupCreated u p pl)) /\
  fst (Initialize true (Some SetupDemo.intruder) SetupDemo.after) = Ok setup_complete.
Proof.
  split; [vm_compute; by eexists _, _, _|].
  pose proof (setup_once true (Some SetupDemo.intruder) SetupDemo.after) as Hs.
  assert (w_tx SetupDemo.after = None) as Hw by (vm_compute; reflexivity). specialize (Hs Hw).
  destruct (Initialize true (Some SetupDemo.intruder) SetupDemo.after) as [r w'] eqn:E.
  destruct Hs as [_ Hs]. apply Hs.
  - split; vm_compute; reflexivity.
  - apply settings_keyedb_sound. vm_compute. reflexivity.
  - left. vm_compute. reflexivity.
Defined.

(** The guard fails open: the marks of a finished set-up and its owner are
    there, two readings fail twice, and a caller nobody knows becomes an
    owner. *)
Example setup_fails_open :
  let faults := [Lost false; Lost false; NoFault; Lost false; Lost false] in
  let '(r, w') := Initialize true (Some SetupDemo.intruder) (set_faults faults SetupDemo.after) in
  (exists u p pl, r = Ok (SetupCreated u p pl)) /\
  SetupDemo.role_at "ann@example.com" w' = Some RoleOwner /\ SetupDemo.role_at "eve@example.com" w' = Some RoleOwner.
Proof. vm_compute. split; [by eexists _, _, _|done]. Qed.

(** A lost statement inside the transaction leaves nothing behind. *)
Example setup_rolls_back :
  let faults := [NoFault; NoFault; NoFault; NoFault; NoFault; NoFault; NoFault; NoFault; NoFault; Lost true] in
  let '(r, w') := Initialize true (Some SetupDemo.request) (set_faults faults SetupDemo.fresh) in
  r = Ok setup_internal /\ w_db w' = empty_db.
Proof. vm_compute. done. Qed.

(** The address of the server is only searched for a substring. *)
Example dev_login_on_a_public_host :
  Contains "https://localhost.example.org" "localhost" = true.
Proof. reflexivity. Qed.
