(* ===== verification/Letters.v ===== *)
(** * The letters ([service/email.go])

    What the server writes to its customers: the subject and the body of each
    letter, from a template the administration may replace or from a text of
    the program, and the letter an event of a request stands for.
    [html/template] is an argument. *)

From S2P Require Import Prelude GoStrings Errors Model World Tables Logic Settings.
From Stdlib Require Import Ascii String.

#[local] Open Scope string_scope.
#[local] Open Scope Z_scope.

(** [~] stands for a double quote. *)
Definition quote (s : string) : string := smap (fun c => if Ascii.eqb c "~" then chr 34 else c) s.

Definition page (inner : string) : string :=
  quote "<!DOCTYPE html>
<html><body style=~font-family: -apple-system, sans-serif; max-width: 600px; margin: 0 auto; padding: 20px;~>
" +:+ inner +:+ "
</body></html>".

(** ** The templates *)

Definition tmplLicenseCreated : string := page (quote "<h2 style=~color: #111;~>Your {{.Product}} License</h2>
<p>Your <strong>{{.Plan}}</strong> license is ready.</p>
<div style=~background: #f4f4f5; border-radius: 8px; padding: 16px; margin: 16px 0; font-family: monospace; font-size: 18px; text-align: center; letter-spacing: 2px;~>
{{.LicenseKey}}
</div>
<p style=~color: #666; font-size: 14px;~>Keep this key safe. You'll need it to activate your software.</p>").

Definition tmplLicenseExpiring : string := page (quote "<h2 style=~color: #111;~>License Expiring Soon</h2>
<p>Your <strong>{{.Product}}</strong> license expires on <strong>{{.ExpiresAt}}</strong>.</p>
<p>License key: <code>{{.LicenseKey}}</code></p>
<p>Please renew to avoid service interruption.</p>").

Definition tmplQuotaWarning : string := page (quote "<h2 style=~color: #d97706;~>Quota Warning: {{.Feature}}</h2>
<p>Your <strong>{{.Product}}</strong> {{.Feature}} usage is at <strong>{{.Pct}}%</strong>.</p>
<p>Used: {{.Used}} / {{.Limit}}</p>
<p>Consider upgrading your plan to avoid interruptions.</p>").

Definition tmplSeatInvite : string := page (quote "<h2 style=~color: #111;~>You've Been Invited</h2>
<p><strong>{{.Inviter}}</strong> has invited you to join <strong>{{.Product}}</strong>.</p>
<p style=~margin: 24px 0;~>
  <a href=~{{.InviteURL}}~ style=~display: inline-block; padding: 10px 20px; background: #2563eb; color: white; text-decoration: none; border-radius: 6px;~>Accept the invitation</a>
</p>
<p style=~font-size: 12px; color: #666;~>Or paste this link into your browser: <a href=~{{.InviteURL}}~>{{.InviteURL}}</a></p>
<p style=~font-size: 12px; color: #999;~>This link expires in 7 days.</p>").

Definition tmplAdminInvite : string := page (quote "<h2 style=~color: #111;~>You've been added to {{.SiteName}}</h2>
<p><strong>{{.Inviter}}</strong> added you as a <strong>{{.Role}}</strong> on the <strong>{{.SiteName}}</strong> admin team.</p>
<p>Sign in with this email using the email-OTP login to access the admin panel:</p>
<p style=~margin: 24px 0;~>
  <a href=~{{.LoginURL}}~ style=~display: inline-block; padding: 10px 20px; background: #2563eb; color: white; text-decoration: none; border-radius: 6px;~>Sign in</a>
</p>
<p style=~font-size: 12px; color: #666;~>Or paste this link into your browser: <a href=~{{.LoginURL}}~>{{.LoginURL}}</a></p>").

Definition tmplLicenseSuspended : string := page (quote "<h2 style=~color: #dc2626;~>License Suspended</h2>
<p>Your <strong>{{.Product}}</strong> license has been suspended.</p>
{{if .Reason}}<p>Reason: {{.Reason}}</p>{{end}}").

Definition tmplPaymentFailed : string := page (quote "<h2 style=~color: #d97706;~>Payment Failed</h2>
<p>We couldn't process your payment for <strong>{{.Product}}</strong>.</p>
<p>Please update your payment method to avoid service interruption.</p>").

Definition tmplLicenseExpired : string := page (quote "<h2 style=~color: #dc2626;~>License Expired</h2>
<p>Your <strong>{{.Product}}</strong> license has expired.</p>
<p>Please renew your subscription to continue using the software.</p>").

Definition tmplTrialExpired : string := page (quote "<h2 style=~color: #d97706;~>Trial Period Ended</h2>
<p>Your <strong>{{.Product}}</strong> trial has ended.</p>
<p>Subscribe to a paid plan to continue using all features.</p>").

(** The defaults by name. *)
Definition DefaultTemplates : list (string * string) :=
  [("license_created", tmplLicenseCreated);
   ("license_expiring", tmplLicenseExpiring);
   ("license_expired", tmplLicenseExpired);
   ("trial_expired", tmplTrialExpired);
   ("license_suspended", tmplLicenseSuspended);
   ("quota_warning", tmplQuotaWarning);
   ("seat_invite", tmplSeatInvite);
   ("admin_invite", tmplAdminInvite);
   ("payment_failed", tmplPaymentFailed)].

(** ** The letters *)

Record Letter := mkLetter { lt_Subject : string; lt_Body : string }.

Section letters.
Context (execute : string -> list (string * string) -> option string).   (* [Parse], then [Execute] *)

(** A template that does not parse or run is sent as it stands. *)
Definition renderTemplate (tmpl : string) (data : list (string * string)) : string := default tmpl (execute tmpl data).

Definition getTemplate (key defaultTmpl : string) : M goerr string :=
  r ← attempt (GetSetting ("email_template_" +:+ key));
  mret (match r with
        | Ok custom => if streq custom "" then defaultTmpl else custom
        | Err _ => defaultTmpl
        end).

Definition from_template (key defaultTmpl subject : string) (data : list (string * string)) : M goerr Letter :=
  tmpl ← getTemplate key defaultTmpl; mret (mkLetter subject (renderTemplate tmpl data)).

Definition SendLicenseCreated (productName planName licenseKey : string) : M goerr Letter :=
  from_template "license_created" tmplLicenseCreated ("Your license for " +:+ productName)
    [("Product", productName); ("Plan", planName); ("LicenseKey", licenseKey)].

Definition SendLicenseExpiring (productName licenseKey expiresAt : string) : M goerr Letter :=
  from_template "license_expiring" tmplLicenseExpiring (productName +:+ " license expiring soon")
    [("Product", productName); ("LicenseKey", licenseKey); ("ExpiresAt", expiresAt)].

(** The numbers as they are printed. *)
Definition SendQuotaWarning (productName feature used limit pct : string) : M goerr Letter :=
  from_template "quota_warning" tmplQuotaWarning (productName +:+ ": " +:+ feature +:+ " quota at " +:+ pct +:+ "%")
    [("Product", productName); ("Feature", feature); ("Used", used); ("Limit", limit); ("Pct", pct)].

(** The link, for a template that left it out. *)
Definition invite_fallback (acceptURL : string) : string :=
  quote "<p style=~margin-top:24px;font-size:13px;color:#555;~>Accept the invitation: <a href=~" +:+ acceptURL +:+
  quote "~>" +:+ acceptURL +:+ "</a></p>".

Definition with_link (body acceptURL : string) : string :=
  if negb (streq acceptURL "") && negb (Contains body acceptURL) then body +:+ invite_fallback acceptURL else body.

Definition SendSeatInvite (productName inviterName acceptURL : string) : M goerr Letter :=
  tmpl ← getTemplate "seat_invite" tmplSeatInvite;
  let body := renderTemplate tmpl [("Product", productName); ("Inviter", inviterName); ("InviteURL", acceptURL)] in
  mret (mkLetter ("You've been invited to " +:+ productName) (with_link body acceptURL)).

Definition SendLicenseExpired (productName : string) : M goerr Letter :=
  from_template "license_expired" tmplLicenseExpired (productName +:+ " license expired") [("Product", productName)].

Definition SendTrialExpired (productName : string) : M goerr Letter :=
  from_template "trial_expired" tmplTrialExpired (productName +:+ " trial has ended") [("Product", productName)].

Definition SendLicenseSuspended (productName reason : string) : M goerr Letter :=
  from_template "license_suspended" tmplLicenseSuspended (productName +:+ " license suspended")
    [("Product", productName); ("Reason", reason)].

Definition SendPaymentFailed (productName : string) : M goerr Letter :=
  from_template "payment_failed" tmplPaymentFailed (productName +:+ " payment failed") [("Product", productName)].

Definition SendAdminInvite (siteName inviterName role loginURL : string) : M goerr Letter :=
  from_template "admin_invite" tmplAdminInvite ("You've been added to " +:+ siteName)
    [("SiteName", siteName); ("Inviter", inviterName); ("Role", role); ("LoginURL", loginURL)].
End letters.

(** Texts of the program: what they name is inserted as it is. *)
Definition SendSubscriptionCanceled (productName : string) (immediate : bool) : Letter :=
  mkLetter (productName +:+ " subscription canceled")
  (if immediate
   then page ("<h2>Subscription Canceled</h2>
<p>Your <strong>" +:+
    productName +:+
    "</strong> subscription has been canceled immediately.</p>
<p>Your access has ended. Thank you for being a customer.</p>")
   else page ("<h2>Subscription Will Be Canceled</h2>
<p>Your <strong>" +:+
    productName +:+
    "</strong> subscription will be canceled at the end of the current billing period.</p>
<p>You can continue using the service until then.</p>")).

Definition SendDunningSecond (productName : string) : Letter :=
  mkLetter (productName +:+ " — payment still outstanding")
  (page (quote "<h2 style=~color: #d97706;~>Payment Still Outstanding</h2>
<p>We've been unable to process your payment for <strong>" +:+
    productName +:+
    "</strong> for over a week.</p>
<p>Please update your payment method to avoid losing access.</p>")).

Definition SendDunningFinal (productName : string) : Letter :=
  mkLetter (productName +:+ " — final payment notice")
  (page (quote "<h2 style=~color: #dc2626;~>Final Notice — Access Will Be Suspended</h2>
<p>Your <strong>" +:+
    productName +:+
    "</strong> payment has been overdue for 14 days.</p>
<p>Your access will be suspended soon if payment is not received.</p>
<p>Please update your payment method immediately.</p>")).

Definition SendPaymentRecovered (productName : string) : Letter :=
  mkLetter (productName +:+ " — payment recovered")
  (page (quote "<h2 style=~color: #059669;~>Payment Recovered — Thanks!</h2>
<p>Your payment for <strong>" +:+
    productName +:+
    "</strong> went through. Your subscription is active again, and access is fully restored.</p>
<p>No further action required.</p>")).

Definition SendWelcome (name : string) : Letter :=
  mkLetter ("Welcome to Keygate")
  (page ("<h2>Welcome to Keygate!</h2>
<p>Hi " +:+
    name +:+
    ", your account has been created.</p>
<p>You can manage your licenses and subscriptions from your portal.</p>")).

Definition SendOTPCode (code : string) : Letter :=
  mkLetter ("Your login code")
  (page (quote "<h2>Your login code</h2>
<p>Enter this code to sign in:</p>
<div style=~background: #f4f4f5; border-radius: 8px; padding: 16px; margin: 16px 0; font-family: monospace; font-size: 32px; text-align: center; letter-spacing: 8px; font-weight: bold;~>" +:+
    code +:+
    quote "</div>
<p style=~color: #666; font-size: 14px;~>This code expires in 10 minutes. If you didn't request this, ignore this email.</p>")).

Definition SendPlanChanged (productName oldPlan newPlan : string) : Letter :=
  mkLetter (productName +:+ " plan changed")
  (page ("<h2>Plan Changed</h2>
<p>Your <strong>" +:+
    productName +:+
    "</strong> plan has been changed from <strong>" +:+
    oldPlan +:+
    "</strong> to <strong>" +:+
    newPlan +:+
    "</strong>.</p>")).

Definition SendRenewalReminder (productName renewalDate : string) : Letter :=
  mkLetter (productName +:+ " renewal coming up")
  (page ("<h2>Renewal Reminder</h2>
<p>Your <strong>" +:+
    productName +:+
    "</strong> subscription will renew on <strong>" +:+
    renewalDate +:+
    "</strong>.</p>
<p>No action is needed if you'd like to continue.</p>")).

Definition SendPaymentActionRequired (productName invoiceURL : string) : Letter :=
  mkLetter (productName +:+ " — payment authentication required")
  (page (quote "<h2 style=~color: #d97706;~>Payment Authentication Required</h2>
<p>Your payment for <strong>" +:+
    productName +:+
    quote "</strong> requires additional authentication.</p>
<p><a href=~" +:+
    invoiceURL +:+
    quote "~ style=~display:inline-block;background:#2563eb;color:white;padding:10px 24px;border-radius:6px;text-decoration:none;~>Complete Payment</a></p>
<p style=~color:#666;font-size:14px;~>If you don't complete this step, your subscription may be interrupted.</p>")).

Definition SendTrialEnding (productName trialEnd : string) : Letter :=
  mkLetter (productName +:+ " trial ending soon")
  (page ("<h2>Your Trial is Ending Soon</h2>
<p>Your <strong>" +:+
    productName +:+
    "</strong> trial ends on <strong>" +:+
    trialEnd +:+
    quote "</strong>.</p>
<p>After the trial, your subscription will begin automatically. No action needed if you'd like to continue.</p>
<p style=~color:#666;font-size:14px;~>If you'd like to cancel, you can do so from your account portal before the trial ends.</p>")).

(** ** The letter of an event *)

Section letter_of.
Context (execute : string -> list (string * string) -> option string).

(** The letter behind the name and the arguments of an [EvEmail]; [None] when
    no letter has the name and that many arguments. *)
Definition letter_of (template : string) (args : list string) : option (M goerr Letter) :=
  match args with
  | [a] =>
      if streq template "license_expired" then Some (SendLicenseExpired execute a)
      else if streq template "trial_expired" then Some (SendTrialExpired execute a)
      else if streq template "payment_failed" then Some (SendPaymentFailed execute a)
      else if streq template "dunning_second" then Some (mret (SendDunningSecond a))
      else if streq template "dunning_final" then Some (mret (SendDunningFinal a))
      else if streq template "payment_recovered" then Some (mret (SendPaymentRecovered a))
      else if streq template "welcome" then Some (mret (SendWelcome a))
      else if streq template "otp" then Some (mret (SendOTPCode a))
      else None
  | [a; b] =>
      if streq template "license_suspended" then Some (SendLicenseSuspended execute a b)
      else if streq template "renewal_reminder" then Some (mret (SendRenewalReminder a b))
      else if streq template "payment_action_required" then Some (mret (SendPaymentActionRequired a b))
      else if streq template "trial_ending" then Some (mret (SendTrialEnding a b))
      else if streq template "subscription_canceled" then Some (mret (SendSubscriptionCanceled a (streq b "true")))
      else None
  | [a; b; c] =>
      if streq template "license_created" then Some (SendLicenseCreated execute a b c)
      else if streq template "license_expiring" then Some (SendLicenseExpiring execute a b c)
      else if streq template "seat_invite" then Some (SendSeatInvite execute a b c)
      else if streq template "plan_changed" then Some (mret (SendPlanChanged a b c))
      else None
  | [a; b; c; d] => if streq template "admin_invite" then Some (SendAdminInvite execute a b c d) else None
  | [a; b; c; d; e] => if streq template "quota_warning" then Some (SendQuotaWarning execute a b c d e) else None
  | _ => None
  end.
End letter_of.

(** ** Lemmas *)

(** Whatever the administration made of the template, the letter of an
    invitation holds its link. *)
Lemma invitation_has_link execute productName inviterName acceptURL w l w' :
  SendSeatInvite execute productName inviterName acceptURL w = (Ok l, w') -> Contains (lt_Body l) acceptURL = true.
Proof.
  unfold SendSeatInvite. intros H. inv_ok. simpl. unfold with_link. set (body := renderTemplate _ _ _). clearbody body.
  destruct (Contains body acceptURL) eqn:E; [by rewrite andb_false_r|]. rewrite andb_true_r.
  destruct (streq acceptURL "") eqn:Eu; simpl.
  - apply streq_true in Eu as ->. by rewrite Contains_empty in E.
  - apply Contains_app_r. unfold invite_fallback. apply Contains_app_r, Contains_app_l, Contains_refl.
Qed.

(** Names are inserted without escaping in the letters that have no template. *)
Example welcome_is_not_escaped :
  Contains (lt_Body (SendWelcome "<script>alert(1)</script>")) "<p>Hi <script>" = true.
Proof. vm_compute. reflexivity. Qed.

(** The template of an administrator's invitation is shown among the others,
    and cannot be replaced. *)
Example admin_template_fixed :
  contains "admin_invite" DefaultTemplates.*1 = true /\ contains "email_template_admin_invite" allowed_settings = false.
Proof. vm_compute. done. Qed.
