(* ===== verification/Mail.v ===== *)
(** * Sending mail ([service/email.go])

    The conversation with the SMTP server that carries a letter.  A server is any function from what it was sent so far
    to its next answer, or to the end of the connection; [net/smtp] is
    modelled on top of it as far as the source uses it: the greeting, [EHLO]
    with its fallback, [STARTTLS], [AUTH] with its exchange of challenges, and
    the delivery of one message.  [mail.ParseAddress] and [html/template] are
    arguments. *)

From S2P Require Import Prelude GoStrings Errors Model Crypto Base64 World Tables Logic Settings Letters.
From Stdlib Require Import Ascii String.

#[local] Open Scope string_scope.
#[local] Open Scope Z_scope.

(** ** Text *)

(** [strings.Replace] of the first occurrence, [strings.Count] of a byte. *)
Fixpoint replace_first (s old new : string) : string :=
  if HasPrefix s old then new +:+ sdrop (String.length old) s
  else match s with "" => "" | String c s' => String c (replace_first s' old new) end.

Fixpoint count_byte (b : ascii) (s : string) : Z :=
  match s with "" => 0 | String c s' => (if Ascii.eqb c b then 1 else 0) + count_byte b s' end.

Definition crlf : string := String (chr 13) (String (chr 10) "").

Fixpoint join_lines (lines : list string) : string :=
  match lines with
  | [] => ""
  | [l] => l
  | l :: rest => l +:+ crlf +:+ join_lines rest
  end.

(** The text up to the first line break, and the lines after it. *)
Fixpoint lines_of (s : string) : list string :=
  match s with
  | "" => [""]
  | String c s' =>
      if Ascii.eqb c (chr 10) then "" :: lines_of s'
      else match lines_of s' with l :: ls => String c l :: ls | [] => [String c ""] end
  end.

(** [strings.Cut] at a space. *)
Fixpoint cut_space (s : string) : string * string :=
  match s with
  | "" => ("", "")
  | String " " s' => ("", s')
  | String c s' => let '(a, b) := cut_space s' in (String c a, b)
  end.

(** ** The conversation *)

(** What the client does: open the connection, write a line, start TLS, write
    the message, end it.  [tls] tells whether it is under TLS. *)
Inductive Sent :=
  | Dial (addr : string)
  | Line (tls : bool) (line : string)
  | Handshake
  | Content (tls : bool) (message : string)
  | EndOfData (tls : bool).

Record Reply := mkReply { rp_code : Z; rp_msg : string }.

Section conversation.
Context (server : list Sent -> option Reply).   (* [None]: the connection is lost *)

(** What was sent so far, the last first. *)
Definition Conv (A : Type) : Type := list Sent -> result goerr A * list Sent.

#[local] Instance Conv_ret : MRet Conv := fun A a tr => (Ok a, tr).
#[local] Instance Conv_bind : MBind Conv := fun A B k m tr =>
  match m tr with (Ok a, tr') => k a tr' | (Err e, tr') => (Err e, tr') end.
Definition fails {A} (e : goerr) : Conv A := fun tr => (Err e, tr).
(** An answer of either kind, for what is done whatever happened. *)
Definition try {A} (m : Conv A) : Conv (result goerr A) := fun tr => let '(r, tr') := m tr in (Ok r, tr').
Definition wrap {A} (msg : string) (m : Conv A) : Conv A := fun tr =>
  let '(r, tr') := m tr in (match r with Ok a => Ok a | Err e => Err (ErrWrap msg e) end, tr').

Definition send_event (e : Sent) : Conv Reply := fun tr =>
  match server (e :: tr) with
  | Some r => (Ok r, e :: tr)
  | None => (Err (ErrText "EOF"), e :: tr)
  end.

(** Three digits name a code, two its tens, zero any. *)
Definition code_matches (expect code : Z) : bool :=
  if expect =? 0 then true else if expect <? 100 then code / 10 =? expect else code =? expect.

Definition expecting (expect : Z) (r : Reply) : Conv Reply :=
  if code_matches expect (rp_code r) then mret r else fails (ErrText (pretty (rp_code r) +:+ " " +:+ rp_msg r)).

(** *** [net/smtp.Client] *)

Record Client := mkClient {
  cl_serverName : string;
  cl_tls : bool;
  cl_ext : option (list (string * string))
}.

Definition cmd (c : Client) (expect : Z) (line : string) : Conv Reply :=
  r ← send_event (Line (cl_tls c) line); expecting expect r.

Definition parse_ext (msg : string) : list (string * string) := cut_space <$> tail (lines_of msg).

Definition ehlo (c : Client) (localName : string) : Conv Client :=
  r ← cmd c 250 ("EHLO " +:+ localName);
  mret (mkClient (cl_serverName c) (cl_tls c) (Some (parse_ext (rp_msg r)))).

Definition Hello (c : Client) (localName : string) : Conv Client :=
  r ← try (ehlo c localName);
  match r with
  | Ok c' => mret c'
  | Err _ => cmd c 250 ("HELO " +:+ localName) ;; mret (mkClient (cl_serverName c) (cl_tls c) None)
  end.

(** The last line that names an extension counts. *)
Definition Extension (c : Client) (name : string) : option string :=
  exts ← cl_ext c; snd <$> last (List.filter (fun kv => streq kv.1 name) exts).

Definition StartTLS (c : Client) (localName : string) : Conv Client :=
  cmd c 220 "STARTTLS" ;; send_event Handshake ;;
  ehlo (mkClient (cl_serverName c) true (cl_ext c)) localName.

Definition Quit (c : Client) : Conv unit := cmd c 221 "QUIT" ;; mret tt.

(** An [smtp.Auth]: what it starts with, and what it answers. *)
Record Auth := mkAuth {
  au_Start : string -> bool -> goerr + (string * string);       (* server name, TLS: mechanism and first answer *)
  au_Next : string -> bool -> goerr + option string             (* challenge, whether more is awaited *)
}.

Definition isLocalhost (name : string) : bool := streq name "localhost" || streq name "127.0.0.1" || streq name "::1".

Definition PlainAuth (username password host : string) : Auth := {|
  au_Start name tls :=
    if negb tls && negb (isLocalhost name) then inl (ErrText "unencrypted connection")
    else if negb (streq name host) then inl (ErrText "wrong host name")
    else inr ("PLAIN", String (chr 0) username +:+ String (chr 0) password);
  au_Next _ more := if more : bool then inl (ErrText "unexpected server challenge") else inr None
|}.

(** What a challenge is answered with. *)
Definition auth_answer (a : Auth) (r : Reply) : goerr + option string :=
  if rp_code r =? 334 then
    match Std.DecodeString (rp_msg r) with
    | Some msg => au_Next a msg true
    | None => inl (ErrText "illegal base64 data")
    end
  else if rp_code r =? 235 then au_Next a (rp_msg r) false
  else inl (ErrText (pretty (rp_code r) +:+ " " +:+ rp_msg r)).

(** The exchange; the server decides how many turns it has. *)
Fixpoint auth_loop (turns : nat) (c : Client) (a : Auth) (r : Reply) : Conv unit :=
  match auth_answer a r with
  | inl err => try (cmd c 501 "*") ;; try (Quit c) ;; fails err
  | inr None => mret tt
  | inr (Some resp) =>
      match turns with
      | O => fails (ErrText "still waiting for the server")
      | S turns' => r' ← cmd c 0 (Std.EncodeToString resp); auth_loop turns' c a r'
      end
  end.

Definition Auth_ (turns : nat) (c : Client) (a : Auth) : Conv unit :=
  match au_Start a (cl_serverName c) (cl_tls c) with
  | inl err => try (Quit c) ;; fails err
  | inr (mech, resp) =>
      r ← cmd c 0 (TrimSpace ("AUTH " +:+ mech +:+ " " +:+ Std.EncodeToString resp));
      auth_loop turns c a r
  end.

Definition one_line (s : string) : bool := sall (fun b => negb (is_newline b)) s.

Definition Mail (c : Client) (from : string) : Conv unit :=
  if negb (one_line from) then fails (ErrText "smtp: A line must not contain CR or LF")
  else
    cmd c 250 ("MAIL FROM:<" +:+ from +:+ ">" +:+
      (if bool_decide (is_Some (Extension c "8BITMIME")) then " BODY=8BITMIME" else "") +:+
      (if bool_decide (is_Some (Extension c "SMTPUTF8")) then " SMTPUTF8" else "")) ;; mret tt.

Definition Rcpt (c : Client) (to : string) : Conv unit :=
  if negb (one_line to) then fails (ErrText "smtp: A line must not contain CR or LF")
  else cmd c 25 ("RCPT TO:<" +:+ to +:+ ">") ;; mret tt.

Definition Data (c : Client) : Conv unit := cmd c 354 "DATA" ;; mret tt.

(** ** [EmailService] *)

Record EmailService := mkEmailService {
  em_host : string; em_port : string; em_username : string; em_password : string; em_from : string; em_enabled : bool
}.

Definition NewEmailService (host port username password from : string) : EmailService :=
  mkEmailService host port username password from (negb (streq host "") && negb (streq from "")).

Context (mail_ParseAddress : string -> option string) (s : EmailService).

Definition localHostname : string := "[127.0.0.1]".

Definition validateSMTPLine (l : string) : Conv unit :=
  if one_line l then mret tt else fails (ErrText "smtp: line contains CR or LF").

Definition parseEnvelopeAddress (from : string) : option string :=
  let from := TrimSpace from in
  if streq from "" then None
  else match mail_ParseAddress from with
       | Some a => Some a
       | None =>
           if (count_byte "@" from =? 1) && sall (fun b => negb (existsb (Ascii.eqb b) ["<"%char; ">"%char; " "%char])) from
           then Some from else None
       end.

(** The colons at the end, between the trims, then lower case. *)
Definition login_prompt (fromServer : string) : string :=
  ToLower (TrimSpace (TrimRightByte ":" (TrimSpace fromServer))).

Definition loginAuth (username password host : string) : Auth := {|
  au_Start name tls :=
    if negb tls then inl (ErrText "smtp: refusing LOGIN auth on unencrypted connection")
    else if negb (streq name host) then inl (ErrText "smtp: wrong host name")
    else inr ("LOGIN", "");
  au_Next fromServer more :=
    if negb more then inr None
    else
      let prompt := login_prompt fromServer in
      if streq prompt "username" || streq prompt "user name" then inr (Some username)
      else if streq prompt "password" then inr (Some password)
      else inl (ErrText ("smtp: unexpected LOGIN challenge: " +:+ fromServer))
|}.

Definition pickAuth (c : Client) : goerr + Auth :=
  match Extension c "AUTH" with
  | None => inl (ErrText "smtp: server does not advertise AUTH (configure SMTP_USERNAME='' for anonymous relays)")
  | Some authExt =>
      let mechs := ToUpper authExt in
      if Contains mechs "PLAIN" then inr (PlainAuth (em_username s) (em_password s) (em_host s))
      else if Contains mechs "LOGIN" then inr (loginAuth (em_username s) (em_password s) (em_host s))
      else inl (ErrText ("smtp: no supported AUTH mechanism (server advertised: " +:+ authExt +:+ ")"))
  end.

(** [smtp.NewClient]: the connection and its banner. *)
Definition connect (addr : string) : Conv Client :=
  r ← wrap "dial" (send_event (Dial addr));
  wrap "smtp client" (expecting 220 r) ;;
  mret (mkClient (em_host s) false None).

Definition secure (c : Client) : Conv Client :=
  if bool_decide (is_Some (Extension c "STARTTLS")) then wrap "starttls" (StartTLS c localHostname) else mret c.

Definition log_in (turns : nat) (c : Client) : Conv unit :=
  if streq (em_username s) "" then mret tt
  else match pickAuth c with
       | inl perr => fails perr
       | inr auth => wrap "auth" (Auth_ turns c auth)
       end.

Definition deliver (c : Client) (from to msg : string) : Conv unit :=
  wrap "mail from" (Mail c from) ;; wrap "rcpt to" (Rcpt c to) ;; wrap "data" (Data c) ;;
  wrap "data write" (send_event (Content (cl_tls c) msg)) ;;
  wrap "data close" (r ← send_event (EndOfData (cl_tls c)); expecting 250 r) ;;
  Quit c.

Definition sendOnce (turns : nat) (addr to msg : string) : Conv unit :=
  match parseEnvelopeAddress (em_from s) with
  | None => fails (ErrText ("invalid SMTP_FROM " +:+ em_from s))
  | Some envelopeFrom =>
      validateSMTPLine envelopeFrom ;; validateSMTPLine to ;;
      c ← connect addr;
      c ← wrap "ehlo" (Hello c localHostname);
      c ← secure c;
      log_in turns c ;;
      deliver c envelopeFrom to msg
  end.

(** [branding.Domain] and [branding.EmailFooter]; [~] stands for a double
    quote. *)
Definition Domain : string := "keygate.app".
Definition EmailFooter : string :=
  quote "<hr style=~border:none;border-top:1px solid #e5e7eb;margin:32px 0 16px~/><p style=~color:#9ca3af;font-size:11px;text-align:center;~>Powered by <a href=~https://keygate.app~ style=~color:#9ca3af;~>Keygate</a></p>".

Definition with_footer (htmlBody : string) : string :=
  if Contains htmlBody Domain then htmlBody else replace_first htmlBody "</body>" (EmailFooter +:+ "</body>").

Definition message (to subject htmlBody : string) : string :=
  join_lines ["From: " +:+ em_from s; "To: " +:+ to; "Subject: " +:+ subject; "MIME-Version: 1.0";
              "Content-Type: text/html; charset=UTF-8"; ""; htmlBody].

(** [send], with the retry. *)
Definition Send (turns : nat) (to subject htmlBody : string) : Conv unit :=
  if negb (em_enabled s) then mret tt
  else
    let msg := message to subject (with_footer htmlBody) in
    let addr := em_host s +:+ ":" +:+ em_port s in
    r ← try (sendOnce turns addr to msg);
    match r with
    | Ok _ => mret tt
    | Err _ => wrap "email send" (sendOnce turns addr to msg)
    end.
End conversation.

(** ** What goes out in the clear *)

(** Without TLS a client that logs in says no more than this. *)
Definition harmless (e : Sent) : bool :=
  match e with
  | Dial _ | Handshake => true
  | Line true _ | Content true _ | EndOfData true => true
  | Line false l => bool_decide (l ∈ ["EHLO [127.0.0.1]"; "HELO [127.0.0.1]"; "STARTTLS"; "QUIT"])
  | _ => false
  end.

(** Each line is one line: nothing of what it is made of ends it early. *)
Definition whole (e : Sent) : bool := match e with Line _ l => one_line l | _ => true end.

Section privacy.
Context (server : list Sent -> option Reply) (s : EmailService).
Context (secret : em_username s <> "" /\ isLocalhost (em_host s) = false).

Definition allowed (e : Sent) : Prop := harmless e = true /\ whole e = true.

(** What is sent is allowed, and an answer satisfies [Q]. *)
Definition says {A} (m : Conv A) (Q : A -> Prop) : Prop :=
  forall tr, Forall allowed tr -> Forall allowed (snd (m tr)) /\ match fst (m tr) with Ok a => Q a | Err _ => True end.

#[local] Existing Instance Conv_ret.
#[local] Existing Instance Conv_bind.

Lemma says_ret {A} (a : A) (Q : A -> Prop) : Q a -> says (mret a) Q.
Proof. by intros HQ tr Htr. Qed.
Lemma says_fails {A} e (Q : A -> Prop) : says (fails e) Q.
Proof. by intros tr Htr. Qed.
Lemma says_bind {A B} (m : Conv A) (k : A -> Conv B) Q R : says m Q -> (forall a, Q a -> says (k a) R) -> says (m ≫= k) R.
Proof.
  intros Hm Hk tr Htr. unfold mbind, Conv_bind. specialize (Hm tr Htr). destruct (m tr) as [[a|e] tr']; destruct Hm as [H1 H2]; [|done].
  by apply Hk.
Qed.
Lemma says_weaken {A} (m : Conv A) (Q R : A -> Prop) : says m Q -> (forall a, Q a -> R a) -> says m R.
Proof. intros Hm HQ tr Htr. specialize (Hm tr Htr). destruct (m tr) as [[a|e] tr']; destruct Hm; simpl in *; split; auto. Qed.
Lemma says_try {A} (m : Conv A) Q : says m Q -> says (try m) (fun r => match r with Ok a => Q a | Err _ => True end).
Proof. intros Hm tr Htr. unfold try. specialize (Hm tr Htr). by destruct (m tr) as [[a|e] tr']. Qed.
Lemma says_wrap {A} msg (m : Conv A) Q : says m Q -> says (wrap msg m) Q.
Proof. intros Hm tr Htr. unfold wrap. specialize (Hm tr Htr). by destruct (m tr) as [[a|e] tr']. Qed.
Lemma says_event e : allowed e -> says (send_event server e) (fun _ => True).
Proof. intros He tr Htr. unfold send_event. destruct (server _); split; try done; by constructor. Qed.
Lemma says_cmd c expect l : allowed (Line (cl_tls c) l) -> says (cmd server c expect l) (fun _ => True).
Proof.
  intros Hl. unfold cmd. eapply says_bind; [by apply says_event|]. intros r _. unfold expecting.
  destruct (code_matches _ _); [by apply says_ret|apply says_fails].
Qed.
Lemma says_order c expect l : allowed (Line (cl_tls c) l) -> says (cmd server c expect l ;; mret tt) (fun _ => True).
Proof. intros Hl. eapply says_bind; [by apply says_cmd|]. intros _ _. by apply says_ret. Qed.

Lemma clear_line tls l : bool_decide (l ∈ ["EHLO [127.0.0.1]"; "HELO [127.0.0.1]"; "STARTTLS"; "QUIT"]) = true -> allowed (Line tls l).
Proof.
  intros Hl. split; [by destruct tls|]. apply bool_decide_eq_true in Hl. simpl.
  repeat (apply elem_of_cons in Hl as [->|Hl]; [done|]). by apply elem_of_nil in Hl.
Qed.

(** A client of the right server, under TLS or not. *)
Definition at_host (tls : bool) (c : Client) : Prop := cl_serverName c = em_host s /\ cl_tls c = tls.

Lemma says_ehlo tls c : at_host tls c -> says (ehlo server c localHostname) (at_host tls).
Proof.
  intros [Hn Ht]. unfold ehlo. eapply says_bind; [apply says_cmd; by apply clear_line|]. intros r _. by apply says_ret.
Qed.

Lemma says_Hello tls c : at_host tls c -> says (Hello server c localHostname) (at_host tls).
Proof.
  intros Hc. unfold Hello. eapply says_bind; [by apply says_try, says_ehlo|]. intros [c'|e] Hr; [by apply says_ret|].
  eapply says_bind; [apply says_cmd; by apply clear_line|]. intros _ _. apply says_ret. by destruct Hc.
Qed.

Lemma says_Quit c : says (Quit server c) (fun _ => True).
Proof. unfold Quit. eapply says_bind; [apply says_cmd; by apply clear_line|]. intros _ _. by apply says_ret. Qed.

Lemma says_StartTLS c tls : at_host tls c -> says (StartTLS server c localHostname) (at_host true).
Proof.
  intros [Hn _]. unfold StartTLS. eapply says_bind; [apply says_cmd; by apply clear_line|]. intros _ _.
  eapply says_bind; [by apply says_event|]. intros _ _. by apply says_ehlo.
Qed.

Lemma says_secure c : at_host false c -> says (secure server c) (fun c' => exists tls, at_host tls c').
Proof.
  intros Hc. unfold secure. destruct (bool_decide _).
  - apply says_wrap. eapply says_weaken; [by eapply says_StartTLS|]. intros c' Hc'. by exists true.
  - apply says_ret. by exists false.
Qed.

(** Neither mechanism starts in the clear. *)
Lemma pickAuth_clear c a : pickAuth s c = inr a -> exists e, au_Start a (em_host s) false = inl e.
Proof.
  unfold pickAuth. destruct (Extension c "AUTH") as [ext|]; [|done].
  destruct (Contains _ "PLAIN"); [intros [= <-]|destruct (Contains _ "LOGIN"); [intros [= <-]|done]]; simpl; [|by eexists].
  destruct secret as [_ ->]. by eexists.
Qed.

Lemma one_line_Encode t : one_line (Std.EncodeToString t) = true.
Proof. apply Std.Encode_no_break. Qed.

Lemma one_line_app t u : one_line (t +:+ u) = one_line t && one_line u.
Proof. apply sall_append. Qed.

Lemma tls_line l : one_line l = true -> allowed (Line true l).
Proof. done. Qed.

Lemma says_auth_loop turns c a r : cl_tls c = true -> says (auth_loop server turns c a r) (fun _ => True).
Proof.
  intros Ht. revert r. induction turns as [|n IH]; intros r; cbn [auth_loop];
    (destruct (auth_answer a r) as [err|[resp|]]; [|try apply says_fails|by apply says_ret]).
  1,2: eapply says_bind; [apply says_try, says_cmd; by rewrite Ht|]; intros _ _;
    eapply says_bind; [apply says_try, says_Quit|]; intros _ _; apply says_fails.
  eapply says_bind; [apply says_cmd; rewrite Ht; apply tls_line, one_line_Encode|]. intros r' _. apply IH.
Qed.

Definition one_line_mech (a : Auth) : Prop :=
  forall name tls mech resp, au_Start a name tls = inr (mech, resp) -> one_line mech = true.

Lemma pickAuth_mech c a : pickAuth s c = inr a -> one_line_mech a.
Proof.
  unfold pickAuth. destruct (Extension c "AUTH") as [ext|]; [|done].
  destruct (Contains _ "PLAIN"); [intros [= <-]|destruct (Contains _ "LOGIN"); [intros [= <-]|done]];
    intros name tls mech resp H; simpl in H; by repeat case_match; simplify_eq.
Qed.

(** Logging in either ends under TLS or fails. *)
Lemma says_log_in turns c tls : at_host tls c -> says (log_in server s turns c) (fun _ => cl_tls c = true).
Proof.
  intros [Hn Ht]. unfold log_in. destruct (streq (em_username s) "") eqn:Eu; [apply streq_true in Eu; by destruct secret|].
  destruct (pickAuth s c) as [e|a] eqn:Ea; [apply says_fails|]. apply says_wrap. unfold Auth_.
  destruct tls; rewrite Ht.
  - destruct (au_Start a _ true) as [e|[mech resp]] eqn:Es.
    + eapply says_bind; [apply says_try, says_Quit|]. intros _ _. apply says_fails.
    + apply pickAuth_mech in Ea as Hm. apply Hm in Es. eapply says_bind.
      * apply says_cmd. rewrite Ht. apply tls_line, sall_TrimSpace. fold (one_line ("AUTH " +:+ mech +:+ " " +:+ Std.EncodeToString resp)).
        by rewrite !one_line_app, Es, one_line_Encode.
      * intros r _. eapply says_weaken; [by apply says_auth_loop|done].
  - apply pickAuth_clear in Ea as [e He]. rewrite Hn, He.
    eapply says_bind; [apply says_try, says_Quit|]. intros _ _. apply says_fails.
Qed.

Lemma says_deliver c from to msg :
  cl_tls c = true -> one_line from = true -> one_line to = true -> says (deliver server c from to msg) (fun _ => True).
Proof.
  intros Ht Hf Hto. unfold deliver, Mail, Rcpt, Data. rewrite Hf, Hto, Ht. cbn [negb].
  eapply says_bind; [apply says_wrap, says_order; rewrite Ht; apply tls_line|].
  { rewrite !one_line_app, Hf. by destruct (bool_decide _), (bool_decide _). }
  intros _ _. eapply says_bind; [apply says_wrap, says_order; rewrite Ht; apply tls_line|].
  { by rewrite !one_line_app, Hto. }
  intros _ _. eapply says_bind; [apply says_wrap, says_order; by rewrite Ht|].
  intros _ _. eapply says_bind; [by apply says_wrap, says_event|]. intros _ _.
  eapply (says_bind _ _ (fun _ => True)); [apply says_wrap; eapply says_bind; [by apply says_event|]|intros _ _; apply says_Quit].
  intros r _. unfold expecting. destruct (code_matches _ _); [by apply says_ret|apply says_fails].
Qed.

Lemma says_validate l : says (validateSMTPLine l) (fun _ => one_line l = true).
Proof. unfold validateSMTPLine. destruct (one_line l) eqn:E; [by apply says_ret|apply says_fails]. Qed.

Lemma says_connect addr : says (connect server s addr) (at_host false).
Proof.
  unfold connect. eapply says_bind; [by apply says_wrap, says_event|]. intros r _.
  eapply (says_bind _ _ (fun _ => True)); [|intros _ _; by apply says_ret].
  apply says_wrap. unfold expecting. destruct (code_matches _ _); [by apply says_ret|apply says_fails].
Qed.

Lemma says_sendOnce parse turns addr to msg : says (sendOnce server parse s turns addr to msg) (fun _ => True).
Proof.
  unfold sendOnce. destruct (parseEnvelopeAddress parse (em_from s)) as [from|]; [|apply says_fails].
  eapply says_bind; [apply says_validate|]. intros [] Hf. eapply says_bind; [apply says_validate|]. intros [] Hto.
  eapply says_bind; [apply says_connect|]. intros c Hc. eapply says_bind; [by apply says_wrap, says_Hello|]. intros c1 Hc1.
  eapply says_bind; [by apply says_secure|]. intros c2 [tls Hc2]. eapply says_bind; [by eapply says_log_in|]. intros [] Ht.
  by apply says_deliver.
Qed.

Lemma says_Send parse turns to subject body : says (Send server parse s turns to subject body) (fun _ => True).
Proof.
  unfold Send. destruct (negb (em_enabled s)); [by apply says_ret|]. cbv zeta.
  eapply says_bind; [apply says_try, says_sendOnce|]. intros [[]|e] _; [by apply says_ret|apply says_wrap, says_sendOnce].
Qed.
End privacy.

(** C25. mail_confidential: whatever the mail server answers, and as long as it
    may, an installation that logs in to a server that is not the local host
    says nothing in the clear but its greeting, the request for TLS and its
    leave: no credentials, no address and no letter; and every line of the
    conversation is one line, whatever the addresses are. *)
Theorem mail_confidential server parse s turns to subject body :
  em_username s <> "" -> isLocalhost (em_host s) = false ->
  Forall (fun e => harmless e = true /\ whole e = true) (snd (Send server parse s turns to subject body [])).
Proof. intros H1 H2. by apply (says_Send server s (conj H1 H2) parse turns to subject body). Qed.

(** ** Delivery *)

Section delivery.
Context (server : list Sent -> option Reply) (parse : string -> option string) (s : EmailService).

(** The server took the message: it was asked to, and answered 250. *)
Definition taken (msg : string) (tr : list Sent) : Prop :=
  exists tls after before r, tr = (after ++ EndOfData tls :: Content tls msg :: before)%list /\
    server (EndOfData tls :: Content tls msg :: before) = Some r /\ rp_code r = 250.
#[local] Existing Instance Conv_ret.
#[local] Existing Instance Conv_bind.

Lemma conv_bind_Ok {A B} (m : Conv A) (k : A -> Conv B) tr b tr' :
  (m ≫= k) tr = (Ok b, tr') -> exists a tr1, m tr = (Ok a, tr1) /\ k a tr1 = (Ok b, tr').
Proof. unfold mbind, Conv_bind. destruct (m tr) as [[a|e] tr1]; [|done]. intros H. by exists a, tr1. Qed.

Lemma wrap_Ok {A} msg (m : Conv A) tr a tr' : wrap msg m tr = (Ok a, tr') -> m tr = (Ok a, tr').
Proof. unfold wrap. destruct (m tr) as [[x|e] t]; [|done]. intros H. by simplify_eq. Qed.

Lemma event_Ok e tr r tr' : send_event server e tr = (Ok r, tr') -> tr' = e :: tr /\ server (e :: tr) = Some r.
Proof. unfold send_event. destruct (server _) as [x|] eqn:E; [|done]. intros H. by simplify_eq. Qed.

Lemma expecting_Ok n r tr x tr' : expecting n r tr = (Ok x, tr') -> x = r /\ tr' = tr /\ code_matches n (rp_code r) = true.
Proof. unfold expecting, mret, Conv_ret. destruct (code_matches n (rp_code r)); [|done]. intros H. by simplify_eq. Qed.

Lemma deliver_taken c from to msg tr tr' : deliver server c from to msg tr = (Ok tt, tr') -> taken msg tr'.
Proof.
  unfold deliver. intros H. do 3 (apply conv_bind_Ok in H as ([] & ? & _ & H)).
  apply conv_bind_Ok in H as (r1 & t1 & Hc & H). apply wrap_Ok, event_Ok in Hc as [-> _].
  apply conv_bind_Ok in H as (r2 & t2 & He & H). apply wrap_Ok, conv_bind_Ok in He as (r3 & t3 & He & Hx).
  apply event_Ok in He as [-> Hs]. apply expecting_Ok in Hx as (_ & -> & Hcode).
  apply conv_bind_Ok in H as (r4 & t4 & Hq & H). injection H as <-. apply conv_bind_Ok in Hq as (r5 & t5 & Hq & Hx).
  apply event_Ok in Hq as [-> _]. apply expecting_Ok in Hx as (_ & -> & _).
  eexists (cl_tls c), [_], _, r3. split; [done|]. split; [done|]. by apply Z.eqb_eq.
Qed.

Lemma sendOnce_taken turns addr to msg tr tr' : sendOnce server parse s turns addr to msg tr = (Ok tt, tr') -> taken msg tr'.
Proof.
  unfold sendOnce. destruct (parseEnvelopeAddress parse (em_from s)) as [from|]; [|done]. intros H.
  do 6 (apply conv_bind_Ok in H as (? & ? & _ & H)). by eapply deliver_taken.
Qed.

(** Success is only reported of a message the server took. *)
Lemma Send_taken turns to subject body tr tr' :
  em_enabled s = true -> Send server parse s turns to subject body tr = (Ok tt, tr') ->
  taken (message s to subject (with_footer body)) tr'.
Proof.
  intros He. unfold Send. rewrite He. cbv zeta. cbn [negb]. intros H.
  apply conv_bind_Ok in H as ([[]|e] & t1 & Ht & H).
  - injection H as <-. unfold try in Ht. destruct (sendOnce _ _ _ _ _ _ _ tr) as [r t] eqn:E. simplify_eq. by eapply sendOnce_taken.
  - apply wrap_Ok in H. by eapply sendOnce_taken.
Qed.
End delivery.

(** ** The headers *)

(** The text before the first line break, and after it. *)
Fixpoint cut_line (t : string) : option (string * string) :=
  match t with
  | "" => None
  | String a t' =>
      match t' with
      | String b rest =>
          if Ascii.eqb a (chr 13) && Ascii.eqb b (chr 10) then Some ("", rest)
          else '(l, r) ← cut_line t'; Some (String a l, r)
      | "" => None
      end
  end.

(** A reader of the message: the lines up to the blank one, and the body. *)
Fixpoint read_headers (n : nat) (t : string) : option (list string * string) :=
  match n with
  | O => None
  | S n' =>
      '(l, rest) ← cut_line t;
      if streq l "" then Some ([], rest) else '(ls, body) ← read_headers n' rest; Some (l :: ls, body)
  end.

Lemma cut_line_app l rest : one_line l = true -> cut_line (l +:+ crlf +:+ rest) = Some (l, rest).
Proof.
  induction l as [|c l IH]; [done|]. intros H. change (negb (is_newline c) && one_line l = true) in H.
  apply andb_true_iff in H as [Hc Hl]. specialize (IH Hl).
  assert (Ascii.eqb c (chr 13) = false) as E.
  { apply negb_true_iff in Hc. unfold is_newline in Hc. apply orb_false_iff in Hc as [_ Hc].
    destruct (Ascii.eqb c (chr 13)) eqn:E; [|done]. apply Ascii.eqb_eq in E as ->. done. }
  change (String c l +:+ crlf +:+ rest) with (String c (l +:+ crlf +:+ rest)).
  destruct (l +:+ crlf +:+ rest) as [|d t] eqn:Et; [by destruct l|]. cbn [cut_line]. rewrite E. cbn [andb]. 
  cbn [cut_line] in IH. by rewrite IH.
Qed.

Lemma read_header n l rest :
  l <> "" -> one_line l = true ->
  read_headers (S n) (l +:+ crlf +:+ rest) = ('(ls, body) ← read_headers n rest; Some (l :: ls, body)).
Proof.
  intros Hne Hl. cbn [read_headers]. rewrite cut_line_app by done. cbn [mbind option_bind].
  apply streq_false in Hne. by rewrite Hne.
Qed.
Lemma read_blank n rest : read_headers (S n) ("" +:+ crlf +:+ rest) = Some ([], rest).
Proof. done. Qed.

(** The letter is read as it was written: five headers and the body. *)
Lemma message_read s to subject body :
  one_line (em_from s) = true -> one_line to = true -> one_line subject = true ->
  read_headers 6 (message s to subject body) =
  Some (["From: " +:+ em_from s; "To: " +:+ to; "Subject: " +:+ subject; "MIME-Version: 1.0";
         "Content-Type: text/html; charset=UTF-8"], body).
Proof.
  intros Hf Ht Hs. unfold message. cbn [join_lines].
  rewrite (read_header 5 ("From: " +:+ em_from s)) by done. rewrite (read_header 4 ("To: " +:+ to)) by done.
  rewrite (read_header 3 ("Subject: " +:+ subject)) by done.
  rewrite (read_header 2 "MIME-Version: 1.0") by done. rewrite (read_header 1 "Content-Type: text/html; charset=UTF-8") by done.
  by rewrite (read_blank 0).
Qed.

(** ** Instances *)

Module MailDemo.
Definition service : EmailService := NewEmailService "mail.example.com" "587" "hub" "s3cret" "Licences <no-reply@example.com>".
Definition relay : EmailService := NewEmailService "mail.example.com" "25" "" "" "no-reply@example.com".
Definition parse (a : string) : option string := if streq a "Licences <no-reply@example.com>" then Some "no-reply@example.com" else Some a.
(** A server that offers what it is told to, and takes every message. *)
Definition offers (exts : string) (tls_exts : string) (quits : bool) (tr : list Sent) : option Reply :=
  match tr with
  | Dial _ :: _ => Some (mkReply 220 "ready")
  | Handshake :: _ => Some (mkReply 0 "")
  | Line tls l :: _ =>
      if HasPrefix l "EHLO" then Some (mkReply 250 (if tls : bool then tls_exts else exts))
      else if streq l "STARTTLS" then Some (mkReply 220 "go ahead")
      else if HasPrefix l "AUTH PLAIN" then Some (mkReply 235 "welcome")
      else if streq l "AUTH LOGIN" then Some (mkReply 334 (Std.EncodeToString "Username:"))
      else if streq l (Std.EncodeToString "hub") then Some (mkReply 334 (Std.EncodeToString "Password:"))
      else if streq l (Std.EncodeToString "s3cret") then Some (mkReply 235 "welcome")
      else if streq l "DATA" then Some (mkReply 354 "go on")
      else if streq l "QUIT" then (if quits then Some (mkReply 221 "bye") else None)
      else Some (mkReply 250 "ok")
  | Content _ _ :: _ => Some (mkReply 0 "")
  | EndOfData _ :: _ => Some (mkReply 250 "queued")
  | [] => None
  end.
Definition nl : string := String (chr 10) "".
Definition starttls := offers ("mail" +:+ nl +:+ "STARTTLS") ("mail" +:+ nl +:+ "AUTH PLAIN LOGIN") true.
Definition office := offers ("mail" +:+ nl +:+ "STARTTLS") ("mail" +:+ nl +:+ "AUTH LOGIN XOAUTH2") true.
Definition plain := offers ("mail" +:+ nl +:+ "AUTH PLAIN LOGIN") "mail" true.
Definition abrupt := offers ("mail" +:+ nl +:+ "STARTTLS") ("mail" +:+ nl +:+ "AUTH PLAIN LOGIN") false.
Definition answer (server : list Sent -> option Reply) (s : EmailService) : result goerr unit * list Sent :=
  Send server parse s 3 "ann@example.com" "Your login code" "<p>123456</p>" [].
Definition letters (tr : list Sent) : nat := List.length (List.filter (fun e => match e with EndOfData _ => true | _ => false end) tr).
End MailDemo.

Lemma mail_confidential_witness :
  "hub" <> "" /\ fst (MailDemo.answer MailDemo.starttls MailDemo.service) = Ok tt /\
  Forall (fun e => harmless e = true /\ whole e = true) (snd (MailDemo.answer MailDemo.starttls MailDemo.service)).
Proof.
  split; [done|]. split; [vm_compute; reflexivity|].
  apply (mail_confidential MailDemo.starttls MailDemo.parse MailDemo.service 3 "ann@example.com" "Your login code" "<p>123456</p>");
    [done|reflexivity].
Defined.

(** Servers of both mechanisms are served; one without TLS gets no mail, unless
    no account is configured. *)
Example mail_servers :
  fst (MailDemo.answer MailDemo.office MailDemo.service) = Ok tt /\
  (exists e, fst (MailDemo.answer MailDemo.plain MailDemo.service) = Err e) /\
  MailDemo.letters (snd (MailDemo.answer MailDemo.plain MailDemo.service)) = O /\
  fst (MailDemo.answer MailDemo.plain MailDemo.relay) = Ok tt.
Proof. vm_compute. split_and!; [done|by eexists|done..]. Qed.

(** A server that takes the message and hangs up is sent it again, and the
    sender is told it failed. *)
Example letter_taken_twice :
  (exists e, fst (MailDemo.answer MailDemo.abrupt MailDemo.service) = Err e) /\
  MailDemo.letters (snd (MailDemo.answer MailDemo.abrupt MailDemo.service)) = 2%nat.
Proof. vm_compute. split; [by eexists|done]. Qed.

(** A product's name may hold a line break, and then adds a header. *)
Example subject_adds_a_header :
  let name := "Editor" +:+ crlf +:+ "Bcc: eve@example.com" in
  ValidateName "name" name = None /\
  option_map fst (read_headers 9 (message MailDemo.relay "ann@example.com" ("Your license for " +:+ name) "<p></p>"))
  = Some ["From: no-reply@example.com"; "To: ann@example.com"; "Subject: Your license for Editor"; "Bcc: eve@example.com";
          "MIME-Version: 1.0"; "Content-Type: text/html; charset=UTF-8"].
Proof. vm_compute. done. Qed.
