(* ===== verification/Migrations.v ===== *)
(** * Migrations of the schema and of stored keys ([store/store.go])

    [RunMigrations] and the checksums that tell whether a file that was
    applied has changed since.  The schema, what PostgreSQL makes of a file
    and the files are arguments; the faults are those of [World.v], one for
    each statement.  Then the pass over the licences stored before encryption
    was on, which the server starts in the background. *)

From S2P Require Import Prelude GoStrings Errors Crypto Model KeyGen World Tables Logic Progress AesGcm Store Lookup Audited Demo.
From Stdlib Require Import Ascii String.

#[local] Open Scope string_scope.
#[local] Open Scope Z_scope.

(** ** Checksums *)

(** [bytes.ReplaceAll(data, CRLF, LF)]. *)
Fixpoint unix_lines (s : string) : string :=
  match s with
  | "" => ""
  | String a s' =>
      match s' with
      | String b rest =>
          if Ascii.eqb a (chr 13) && Ascii.eqb b (chr 10) then String b (unix_lines rest) else String a (unix_lines s')
      | "" => s
      end
  end.

Definition checksumBytes (data : string) : string := hex_EncodeToString (stake 8 (Sum256 (unix_lines data))).

(** File, checksum of the first deployment, checksum of today. *)
Definition legacyMigrationChecksums : list (string * (string * string)) := [
  ("20260320_init.up.sql", ("ebf87c134e6a5f35", "d72f3bdc0db1dc10"));
  ("20260321_saas_extension.up.sql", ("61f297b7da105988", "568d637da28742aa"));
  ("20260322_email_queue.up.sql", ("281d6d2bd38346ec", "79ca56dca3f1a416"));
  ("20260322_floating_addons.up.sql", ("7515ca5554165fc3", "33d4ea4bdf820806"));
  ("20260322_license_key_hash.up.sql", ("375b68aa2b70347b", "1c8132a4c77f8b26"));
  ("20260322_notifications.up.sql", ("e526df604bff6763", "c5389e6591cb4406"));
  ("20260322_processed_events.up.sql", ("79756d0e99206ce5", "535b2cd3df9d2ed3"));
  ("20260322_refresh_tokens.up.sql", ("57eba02a323e6354", "553435a9b32c9d91"));
  ("20260322_settings.up.sql", ("498fabd0e1462a33", "748e442a92ff0333"));
  ("20260324_fix_subscription_status.up.sql", ("847147b694031839", "70596ef1d1d024d5"));
  ("20260325_user_roles.up.sql", ("bb8ad593bcc1e01d", "140d392c01827fab"));
  ("20260401_otp_codes.up.sql", ("8161538a196f7bed", "c07058e933817ee9"));
  ("20260401_plan_checkout_id.up.sql", ("7b379dcba834fb2d", "812eef0fda23b137"));
  ("20260510_releases.up.sql", ("4ca24835ef4fb365", "5b30d142cdfa5503"));
  ("20260511_release_signing_keys.up.sql", ("45db6e9ca3bd86cb", "151f133ce3a8dcbc"));
  ("20260512_release_signing_key_id.up.sql", ("e8257b801eafc812", "1d02543c19c394bd"));
  ("20260513_tighten_signing_key_check.up.sql", ("a0b615b7eecac59d", "77399dfd1b557956"));
  ("20260514_license_key_encrypted.up.sql", ("00c73cf45b152486", "64fae6d03640068c"));
  ("20260515_release_bundle_refactor.up.sql", ("96cbcd346b38b1fd", "2b39e478a48167d3"));
  ("20260516_post_bundle_evolution.up.sql", ("ef074ea637de6d55", "7dee5a0bde02f38a"));
  ("20260517_post_release_evolution.up.sql", ("656624a1bc239d15", "7e120d225086d0f4"))
].

Definition migrationChecksumMatches (filename existing data : string) : bool :=
  let canonical := checksumBytes data in
  streq existing canonical ||
  existsb (fun e => streq e.1 filename && streq existing e.2.1 && streq canonical e.2.2) legacyMigrationChecksums.

(** ** The run *)

Section run.
Context {Schema : Type} (exec : string -> Schema -> result goerr Schema).

(** The schema, whether the table of migrations exists, and its rows. *)
Record MigDB := mkMigDB { mg_schema : Schema; mg_table : bool; mg_rows : gmap string string }.

Definition D (A : Type) : Type := list fault * MigDB -> result goerr A * (list fault * MigDB).

#[local] Instance D_ret : MRet D := fun A a w => (Ok a, w).
#[local] Instance D_bind : MBind D := fun A B k m w =>
  match m w with (Ok a, w') => k a w' | (Err e, w') => (Err e, w') end.

Definition fault_of (fs : list fault) : fault * list fault := match fs with [] => (NoFault, []) | f :: fs' => (f, fs') end.

(** A statement outside a transaction. *)
Definition sql {A} (f : MigDB -> result goerr (A * MigDB)) : D A := fun '(fs, db) =>
  let '(flt, fs') := fault_of fs in
  match flt, f db with
  | NoFault, Ok (a, db') => (Ok a, (fs', db'))
  | NoFault, Err e => (Err e, (fs', db))
  | Lost true, Ok (_, db') => (Err (ErrSQL ConnectionFailure), (fs', db'))
  | Lost _, _ => (Err (ErrSQL ConnectionFailure), (fs', db))
  end.

(** [_, _ = ...]. *)
Definition best_effort {A} (m : D A) : D unit := fun w => (Ok tt, snd (m w)).

(** The statement is lost, or answers. *)
Definition lost : D bool := fun '(fs, db) =>
  let '(flt, fs') := fault_of fs in (Ok (match flt with NoFault => false | Lost _ => true end), (fs', db)).

Definition no_table : goerr := ErrText "relation schema_migrations does not exist".
Definition conn_lost : goerr := ErrSQL ConnectionFailure.

(** [INSERT ... ON CONFLICT (filename) DO UPDATE SET checksum]. *)
Definition record_row (name checksum : string) (db : MigDB) : result goerr (unit * MigDB) :=
  if mg_table db then Ok (tt, mkMigDB (mg_schema db) true (<[name := checksum]> (mg_rows db))) else Err no_table.

Definition already_there (e : goerr) : bool :=
  Contains (goerr_Error e) "already exists" || Contains (goerr_Error e) "42P07" || Contains (goerr_Error e) "42701".

(** COMMIT of the tables [db'], or what a lost answer leaves. *)
Definition commit_to (db' : MigDB) (err : goerr -> goerr) : D unit := fun '(fs, db) =>
  let '(flt, fs') := fault_of fs in
  match flt with
  | NoFault => (Ok tt, (fs', db'))
  | Lost applied => (Err (err conn_lost), (fs', if applied then db' else db))
  end.

Definition fail {A} (e : goerr) : D A := fun w => (Err e, w).
Definition tables : D MigDB := fun w => (Ok (snd w), w).

(** One file: its SQL and its row in one transaction. *)
Definition apply_migration (name data : string) : D unit :=
  let checksum := checksumBytes data in
  lost_begin ← lost;
  if (lost_begin : bool) then fail (ErrWrap ("begin tx for " +:+ name) conn_lost)
  else
    db ← tables;
    lost_exec ← lost;
    match (if lost_exec : bool then Err conn_lost else exec data (mg_schema db)) with
    | Err e =>
        if already_there e then best_effort (sql (record_row name checksum))
        else fail (ErrWrap ("apply " +:+ name) e)
    | Ok schema =>
        lost_row ← lost;
        match (if lost_row : bool then Err conn_lost else record_row name checksum (mkMigDB schema (mg_table db) (mg_rows db))) with
        | Err e => fail (ErrWrap ("record migration " +:+ name) e)
        | Ok (_, db') => commit_to db' (ErrWrap ("commit " +:+ name))
        end
    end.

Definition HasSuffix (s suffix : string) : bool := HasPrefix (srev s) (srev suffix).

(** An entry of the directory: its name, and what reading it gives. *)
Record Entry := mkEntry { en_name : string; en_dir : bool; en_data : goerr + string }.

Definition is_migration (e : Entry) : bool := negb (en_dir e) && HasSuffix (en_name e) ".up.sql".

Fixpoint run_files (known : gmap string string) (entries : list Entry) : D unit :=
  match entries with
  | [] => mret tt
  | e :: rest =>
      if negb (is_migration e) then run_files known rest
      else
        match en_data e with
        | inl err => fail (ErrWrap ("read " +:+ en_name e) err)
        | inr data =>
            match known !! en_name e with
            | Some cs =>
                if negb (streq cs "") && negb (migrationChecksumMatches (en_name e) cs data)
                then fail (ErrText ("migration " +:+ en_name e +:+ " has been modified"))
                else run_files known rest
            | None => apply_migration (en_name e) data ;; run_files known rest
            end
        end
  end.

Definition create_table : D unit := sql (fun db => Ok (tt, mkMigDB (mg_schema db) true (mg_rows db))).
Definition alter_table : D unit := sql (fun db => if mg_table db then Ok (tt, db) else Err no_table).
Definition lock_or_unlock : D unit := sql (fun db => Ok (tt, db)).

(** The rows; an error leaves none. *)
Definition known_rows : D (gmap string string) := fun w =>
  match sql (fun db => if mg_table db then Ok (mg_rows db, db) else Err no_table) w with
  | (Ok rows, w') => (Ok rows, w')
  | (Err _, w') => (Ok ∅, w')
  end.

(** Between the advisory lock and its release. *)
Definition locked (m : D unit) : D unit := fun w =>
  match lock_or_unlock w with
  | (Err e, w') => (Err (ErrWrap "acquire migration lock" e), w')
  | (Ok _, w') => let '(r, w'') := m w' in (r, snd (best_effort lock_or_unlock w''))
  end.

(** The directory's entries, or why it cannot be read. *)
Definition RunMigrations (dir : goerr + list Entry) : D unit :=
  match dir with
  | inl err => fail (ErrWrap "read migrations dir" err)
  | inr entries =>
      best_effort create_table ;; best_effort alter_table ;;
      locked (known ← known_rows; run_files known entries)
  end.

(** ** What a run does *)

(** The migrations of the directory that are not recorded, in its order. *)
Fixpoint pending (known : gmap string string) (entries : list Entry) : list (string * string) :=
  match entries with
  | [] => []
  | e :: rest =>
      if is_migration e then
        match en_data e, known !! en_name e with
        | inr data, None => (en_name e, data) :: pending known rest
        | _, _ => pending known rest
        end
      else pending known rest
  end.

(** The recorded ones are as they were when they were applied. *)
Definition unmodified (known : gmap string string) (entries : list Entry) : Prop :=
  Forall (fun e => is_migration e = true -> exists data, en_data e = inr data /\
    forall cs, known !! en_name e = Some cs -> cs = "" \/ migrationChecksumMatches (en_name e) cs data = true) entries.

(** Each file of a list has run once, in order, and is recorded. *)
Inductive migrated : MigDB -> list (string * string) -> MigDB -> Prop :=
  | migrated_nil db : migrated db [] db
  | migrated_cons db name data l schema db' :
      exec data (mg_schema db) = Ok schema ->
      migrated (mkMigDB schema (mg_table db) (<[name := checksumBytes data]> (mg_rows db))) l db' ->
      migrated db ((name, data) :: l) db'.

Hypothesis no_leftovers : forall data schema e, exec data schema = Err e -> already_there e = false.

(** One file runs as a whole or not at all; success means it ran. *)
Lemma apply_migration_atomic name data fs db :
  mg_table db = true ->
  let '(r, (fs', db')) := apply_migration name data (fs, db) in
  (exists e, r = Err e) /\ db' = db \/ migrated db [(name, data)] db' /\ mg_table db' = true.
Proof.
  intros Ht. unfold apply_migration. unfold mbind, D_bind, lost, tables, fail, commit_to.
  destruct (fault_of fs) as [[|b] fs1]; [|left; split; [by eexists|done]]. cbn [fst snd].
  destruct (fault_of fs1) as [[|b] fs2]; [|left; split; [by eexists|done]].
  destruct (exec data (mg_schema db)) as [schema|e] eqn:Ee; cycle 1.
  { rewrite (no_leftovers _ _ _ Ee). left. split; [by eexists|done]. }
  assert (migrated db [(name, data)] (mkMigDB schema (mg_table db) (<[name := checksumBytes data]> (mg_rows db)))) as Hm
    by (eapply migrated_cons; [done|constructor]).
  destruct (fault_of fs2) as [[|b] fs3]; [|left; split; [by eexists|done]].
  unfold record_row. cbn [mg_table]. rewrite Ht in *. destruct (fault_of fs3) as [[|[]] fs4]; [by right..|].
  left. split; [by eexists|done].
Qed.

Lemma migrated_app db l1 db1 l2 db2 : migrated db l1 db1 -> migrated db1 l2 db2 -> migrated db (l1 ++ l2) db2.
Proof. induction 1 as [|db name data l schema db1 He Hm IH]; intros H2; [done|]. simpl. by eapply migrated_cons, IH. Qed.

Lemma run_files_prefix known entries fs db :
  mg_table db = true ->
  let '(r, (fs', db')) := run_files known entries (fs, db) in
  exists l1 l2, pending known entries = (l1 ++ l2)%list /\ migrated db l1 db' /\ (r = Ok tt -> l2 = [] /\ unmodified known entries).
Proof.
  revert fs db. induction entries as [|e rest IH]; intros fs db Ht; cbn [run_files pending].
  { exists [], []. split_and!; [done|constructor|]. intros _. split; [done|constructor]. }
  destruct (is_migration e) eqn:Em; cbn [negb]; cycle 1.
  { specialize (IH fs db Ht). destruct (run_files known rest (fs, db)) as [r [fs' db']]. destruct IH as (l1 & l2 & H1 & H2 & H3).
    exists l1, l2. split_and!; [done..|]. intros Hr. destruct (H3 Hr) as [-> Hu]. split; [done|]. constructor; [by rewrite Em|done]. }
  destruct (en_data e) as [err|data] eqn:Ed.
  { unfold fail. exists [], (pending known rest). by split_and!; [|constructor|]. }
  destruct (known !! en_name e) as [cs|] eqn:Ek.
  - destruct (_ && _) eqn:Ec; [unfold fail; exists [], (pending known rest); by split_and!; [|constructor|]|].
    specialize (IH fs db Ht). destruct (run_files known rest (fs, db)) as [r [fs' db']]. destruct IH as (l1 & l2 & H1 & H2 & H3).
    exists l1, l2. split_and!; [done..|]. intros Hr. destruct (H3 Hr) as [-> Hu]. split; [done|]. constructor; [|done].
    intros _. exists data. split; [done|]. intros cs'. rewrite Ek. intros [= <-]. apply andb_false_iff in Ec as [Ec|Ec]; apply negb_false_iff in Ec; [left; by apply streq_true|by right].
  - pose proof (apply_migration_atomic (en_name e) data fs db Ht) as Ha. unfold mbind, D_bind.
    destruct (apply_migration (en_name e) data (fs, db)) as [[[]|err] [fs1 db1]]; destruct Ha as [[[e' He] ->]|[Hm Ht1]]; try done.
    + specialize (IH fs1 db1 Ht1). destruct (run_files known rest (fs1, db1)) as [r [fs' db']]. destruct IH as (l1 & l2 & H1 & H2 & H3).
      exists ((en_name e, data) :: l1), l2. split_and!; [by rewrite H1|by apply (migrated_app db [(en_name e, data)] db1)|].
      intros Hr. destruct (H3 Hr) as [-> Hu]. split; [done|]. constructor; [|done]. intros _. exists data. split; [done|]. by rewrite Ek.
    + exists [], ((en_name e, data) :: pending known rest). by split_and!; [|constructor|].
    + exists [(en_name e, data)], (pending known rest). by split_and!.
Qed.

Lemma migrated_table db l db' : migrated db l db' -> mg_table db' = mg_table db.
Proof. by induction 1. Qed.

Lemma migrated_rows db l db' : migrated db l db' -> mg_rows db' = foldl (fun m nd => <[nd.1 := checksumBytes nd.2]> m) (mg_rows db) l.
Proof. by induction 1. Qed.
End run.

(** The files that are recorded are not run again, and a run with nothing left
    to do leaves everything as it is. *)
Lemma run_files_done {S} exec (known : gmap string string) entries (w : list fault * MigDB (Schema := S)) :
  unmodified known entries -> pending known entries = [] -> run_files exec known entries w = (Ok tt, w).
Proof.
  intros Hu Hp. induction entries as [|e rest IH]; [done|]. inversion_clear Hu as [|? ? He Hr]. cbn [run_files].
  cbn [pending] in Hp. destruct (is_migration e) eqn:Em; cbn [negb]; [|by apply IH].
  destruct (He eq_refl) as (data & Ed & Hc). rewrite Ed in *. destruct (known !! en_name e) as [cs|] eqn:Ek; [|done].
  destruct (Hc cs eq_refl) as [->|Hm]; [by apply IH|]. rewrite Hm, andb_false_r. by apply IH.
Qed.

(** ** A run, and the run after it *)

Section records.
Implicit Types (known : gmap string string) (entries : list Entry).

Lemma elem_of_pending known entries name data :
  (name, data) ∈ pending known entries <->
  known !! name = None /\ exists e, e ∈ entries /\ is_migration e = true /\ en_name e = name /\ en_data e = inr data.
Proof.
  induction entries as [|e rest IH]; cbn [pending]; [split; [by intros ?%elem_of_nil|by intros (_ & e & ?%elem_of_nil & _)]|].
  assert ((exists e', e' ∈ e :: rest /\ is_migration e' = true /\ en_name e' = name /\ en_data e' = inr data) <->
    (is_migration e = true /\ en_name e = name /\ en_data e = inr data) \/
    exists e', e' ∈ rest /\ is_migration e' = true /\ en_name e' = name /\ en_data e' = inr data) as Hcons
    by (setoid_rewrite elem_of_cons; naive_solver).
  rewrite Hcons. clear Hcons. destruct (is_migration e) eqn:Em; [|rewrite IH; naive_solver].
  destruct (en_data e) as [err|d] eqn:Ed; [rewrite IH; naive_solver|].
  destruct (known !! en_name e) as [cs|] eqn:Ek; [rewrite IH; naive_solver congruence|]. rewrite elem_of_cons, IH. naive_solver.
Qed.

Lemma pending_unknown known entries name cs : known !! name = Some cs -> name ∉ (pending known entries).*1.
Proof. intros Hk ([n d] & -> & [Hn _]%elem_of_pending)%list_elem_of_fmap. simpl in Hk. congruence. Qed.

Lemma pending_names known entries : (pending known entries).*1 `sublist_of` (en_name <$> entries).
Proof.
  induction entries as [|e rest IH]; cbn [pending fmap list_fmap]; [constructor|].
  repeat case_match; simpl; by constructor.
Qed.

Definition recorded (m : gmap string string) (l : list (string * string)) : gmap string string :=
  foldl (fun m nd => <[nd.1 := checksumBytes nd.2]> m) m l.

Lemma recorded_other m l name : name ∉ l.*1 -> recorded m l !! name = m !! name.
Proof.
  revert m. induction l as [|[n d] l IH]; intros m Hn; [done|]. cbn in Hn |- *.
  apply not_elem_of_cons in Hn as [H1 H2]. rewrite IH by done. by apply lookup_insert_ne.
Qed.

Lemma recorded_Some m l name data :
  NoDup l.*1 -> (name, data) ∈ l -> recorded m l !! name = Some (checksumBytes data).
Proof.
  revert m. induction l as [|[n d] l IH]; intros m Hd Hin; [by apply elem_of_nil in Hin|].
  cbn in Hd |- *. apply NoDup_cons in Hd as [Hn Hd]. apply elem_of_cons in Hin as [[= -> ->]|Hin]; [|by apply IH].
  rewrite recorded_other by done. by rewrite lookup_insert_eq.
Qed.

(** Once the pending files are recorded, nothing is pending or modified. *)
Lemma recorded_settled known entries :
  NoDup (en_name <$> entries) -> unmodified known entries ->
  unmodified (recorded known (pending known entries)) entries /\ pending (recorded known (pending known entries)) entries = [].
Proof.
  intros Hd Hu. assert (NoDup (pending known entries).*1) as Hp by (eapply sublist_NoDup; [exact Hd|apply pending_names]).
  unfold unmodified in *. rewrite Forall_forall in Hu |- *. split.
  - intros e He Hm. destruct (Hu e He Hm) as (data & Ed & Hc). exists data. split; [done|]. intros cs.
    destruct (known !! en_name e) as [cs0|] eqn:Ek.
    + rewrite recorded_other by (eapply pending_unknown; exact Ek).
      rewrite Ek. apply Hc.
    + rewrite (recorded_Some _ _ _ data Hp) by (apply elem_of_pending; split; [done|by exists e]). intros [= <-]. right.
      unfold migrationChecksumMatches. by rewrite streq_refl.
  - destruct (pending (recorded _ _) entries) as [|[name data] l] eqn:E; [done|].
    assert ((name, data) ∈ pending (recorded known (pending known entries)) entries) as Hin by (rewrite E; left).
    apply elem_of_pending in Hin as (Hn & e & He & Hm & <- & Ed). destruct (known !! en_name e) as [cs|] eqn:Ek.
    + rewrite recorded_other in Hn by (eapply pending_unknown; exact Ek). congruence.
    + by rewrite (recorded_Some _ _ _ data Hp) in Hn by (apply elem_of_pending; split; [done|by exists e]).
Qed.

End records.

Section runs.
Context {Schema : Type} (exec : string -> Schema -> result goerr Schema).

(** The statement that creates the table, when it is not lost or not needed. *)
Lemma create_done fs (db : MigDB (Schema := Schema)) :
  mg_table db = true \/ nth 0 fs NoFault = NoFault ->
  best_effort create_table (fs, db) = (Ok tt, (tail fs, mkMigDB (mg_schema db) true (mg_rows db))).
Proof.
  destruct db as [schema t rows]. intros Ht. destruct fs as [|[|[]] fs]; try done; destruct Ht as [Ht|Ht]; simpl in Ht; by subst.
Qed.

Lemma alter_done fs (db : MigDB (Schema := Schema)) : mg_table db = true -> best_effort alter_table (fs, db) = (Ok tt, (tail fs, db)).
Proof. destruct db as [schema t rows]. simpl. intros ->. by destruct fs as [|[|[]] fs]. Qed.

Lemma lock_outcomes fs (db : MigDB (Schema := Schema)) :
  exists r, lock_or_unlock (fs, db) = (r, (tail fs, db)).
Proof. destruct fs as [|[|[]] fs]; by eexists. Qed.

Lemma known_done fs (db : MigDB (Schema := Schema)) :
  mg_table db = true -> nth 0 fs NoFault = NoFault -> known_rows (fs, db) = (Ok (mg_rows db), (tail fs, db)).
Proof. destruct db as [schema t rows]. simpl. intros -> Hf. destruct fs as [|[|[]] fs]; simpl in Hf; done. Qed.

(** What a run comes to when the table is there and its rows are read. *)
Lemma RunMigrations_read entries fs db :
  mg_table db = true \/ nth 0 fs NoFault = NoFault -> nth 3 fs NoFault = NoFault ->
  let db1 := mkMigDB (mg_schema db) true (mg_rows db) in
  let '(r, (_, db')) := RunMigrations exec (inr entries) (fs, db) in
  (exists e, r = Err e) /\ db' = db1 \/
  exists fs1 fs2, run_files exec (mg_rows db) entries (fs1, db1) = (r, (fs2, db')).
Proof.
  intros Ht Hs db1. unfold RunMigrations, mbind, D_bind. rewrite create_done by done. fold db1.
  rewrite alter_done by done. unfold locked. destruct (lock_outcomes (tail (tail fs)) db1) as [[u|e] ->]; [|left; split; [by eexists|done]].
  rewrite known_done; [|done|by destruct fs as [|? [|? [|? fs]]]]. cbn [mg_rows db1].
  destruct (run_files exec (mg_rows db) entries (_, db1)) as [r [fs2 db2]] eqn:E.
  destruct (lock_outcomes fs2 db2) as [r' Hl]. unfold best_effort. rewrite Hl. simpl. right. by eexists _, fs2.
Qed.
End runs.

(** C26. migrations_in_order: as long as no file fails because its objects exist, and
    whatever statement is lost, a run whose table is there and whose reading of
    the records is answered applies the first files that are pending, in order,
    each once and as a whole, with its record, and nothing else; it succeeds
    only when none is left and no applied file has changed since, and then a
    second run does nothing. *)
Theorem migrations_in_order {Schema} (exec : string -> Schema -> result goerr Schema) entries fs db :
  (forall data schema e, exec data schema = Err e -> already_there e = false) ->
  mg_table db = true \/ nth 0 fs NoFault = NoFault -> nth 3 fs NoFault = NoFault ->
  let '(r, (_, db')) := RunMigrations exec (inr entries) (fs, db) in
  exists done_ left_, pending (mg_rows db) entries = (done_ ++ left_)%list /\
    migrated exec (mkMigDB (mg_schema db) true (mg_rows db)) done_ db' /\
    (r = Ok tt -> left_ = [] /\ unmodified (mg_rows db) entries /\
       (NoDup (en_name <$> entries) -> RunMigrations exec (inr entries) ([], db') = (Ok tt, ([], db')))).
Proof.
  intros Hx Ht Hs. pose proof (RunMigrations_read exec entries fs db Ht Hs) as Hr. cbv zeta in Hr.
  destruct (RunMigrations exec (inr entries) (fs, db)) as [r [fs' db']].
  destruct Hr as [[[e ->] ->]|(fs1 & fs2 & Hr)]; [exists [], (pending (mg_rows db) entries); by split_and!; [|constructor|]|].
  pose proof (run_files_prefix exec Hx (mg_rows db) entries fs1 (mkMigDB (mg_schema db) true (mg_rows db)) eq_refl) as Hp.
  rewrite Hr in Hp. destruct Hp as (l1 & l2 & H1 & H2 & H3). exists l1, l2. split_and!; [done..|].
  intros E. destruct (H3 E) as [-> Hu]. split_and!; [done..|]. intros Hd. rewrite app_nil_r in H1.
  apply migrated_rows in H2 as Hrows. apply migrated_table in H2 as Htab. rewrite <- H1 in Hrows. cbn [mg_rows mg_table] in *.
  destruct (recorded_settled (mg_rows db) entries Hd Hu) as [Hu' Hp']. unfold recorded in *. rewrite <- Hrows in *.
  unfold RunMigrations, mbind, D_bind. rewrite create_done by by left. destruct db' as [schema t rows]. simpl in Htab. subst t.
  unfold locked. simpl. by rewrite run_files_done.
Qed.

(** ** Instances *)

Module MigrationDemo.
Definition file (name data : string) : Entry := mkEntry name false (inr data).
Definition dir : list Entry :=
  [file "1_users.up.sql" "create users"; file "1_users.down.sql" "drop users"; file "2_plans.up.sql" "create plans"].
Definition log (data : string) (schema : list string) : result goerr (list string) := Ok (data :: schema).
Definition empty : MigDB (Schema := list string) := mkMigDB [] false ∅.
(** A schema that refuses what it holds. *)
Definition strict (data : string) (schema : list string) : result goerr (list string) :=
  if existsb (Contains data) schema then Err (ErrText "relation already exists") else Ok (data :: schema).
Definition users_applied : MigDB :=
  mkMigDB ["create users"] true {["1_users.up.sql" := checksumBytes "create users"]}.
Definition edited : list Entry := [file "1_users.up.sql" "create users; grant all"].
End MigrationDemo.

Lemma migrations_in_order_witness :
  fst (RunMigrations MigrationDemo.log (inr MigrationDemo.dir) ([], MigrationDemo.empty)) = Ok tt /\
  mg_schema (snd (snd (RunMigrations MigrationDemo.log (inr MigrationDemo.dir) ([], MigrationDemo.empty)))) = ["create plans"; "create users"] /\
  let db' := snd (snd (RunMigrations MigrationDemo.log (inr MigrationDemo.dir) ([], MigrationDemo.empty))) in
  RunMigrations MigrationDemo.log (inr MigrationDemo.dir) ([], db') = (Ok tt, ([], db')).
Proof.
  split; [vm_compute; reflexivity|]. split; [vm_compute; reflexivity|].
  pose proof (migrations_in_order MigrationDemo.log MigrationDemo.dir [] MigrationDemo.empty) as H.
  assert (fst (RunMigrations MigrationDemo.log (inr MigrationDemo.dir) ([], MigrationDemo.empty)) = Ok tt) as E by (vm_compute; reflexivity).
  destruct (RunMigrations MigrationDemo.log (inr MigrationDemo.dir) ([], MigrationDemo.empty)) as [r [fs' db']].
  destruct H as (l1 & l2 & _ & _ & H); [done|by right|done|]. simpl in *. destruct (H E) as (_ & _ & H2). apply H2.
  vm_compute. repeat constructor; set_solver.
Defined.

(** When the records cannot be read the run goes on as if there were none: an
    edited file passes, and its new checksum is recorded. *)
Example unreadable_records_pass :
  (exists e, fst (RunMigrations MigrationDemo.strict (inr MigrationDemo.edited) ([], MigrationDemo.users_applied)) = Err e) /\
  let '(r, (_, db')) := RunMigrations MigrationDemo.strict (inr MigrationDemo.edited)
                          ([NoFault; NoFault; NoFault; Lost false], MigrationDemo.users_applied) in
  r = Ok tt /\ mg_schema db' = ["create users"] /\
  mg_rows db' !! "1_users.up.sql" = Some (checksumBytes "create users; grant all").
Proof. vm_compute. split; [by eexists|done]. Qed.

(** A file one of whose objects exists is recorded though none of it ran. *)
Example partial_file_recorded :
  let '(r, (_, db')) := RunMigrations MigrationDemo.strict (inr MigrationDemo.edited) ([], mkMigDB ["create users"] true ∅) in
  r = Ok tt /\ mg_schema db' = ["create users"] /\ is_Some (mg_rows db' !! "1_users.up.sql").
Proof. vm_compute. split_and!; [done..|by eexists]. Qed.

(** Line endings do not count. *)
Example checksum_of_line_endings :
  checksumBytes ("a" +:+ String (chr 13) (String (chr 10) "b")) = checksumBytes ("a" +:+ String (chr 10) "b").
Proof. vm_compute. reflexivity. Qed.

(** ** Sealing the stored licence keys

    The pass over the licences whose key has no ciphertext yet, a hundred at a
    time, and the older pass that fills in the hashes.  A missing ciphertext is
    an empty text. *)

Definition lic_set_ciphertext (ct : string) (l : License) : License := lic_set_key (lic_ID l) (lic_KeyHash l) ct l.

(** [license_key_encrypted IS NULL AND license_key <> '']. *)
Definition unsealed (l : License) : bool := streq (lic_LicenseKeyEncrypted l) "" && negb (streq (lic_LicenseKey l) "").

Definition countLicenseKeysUnencrypted : M goerr Z := sql_count licenses unsealed.

(** The gauge, when the count can be read. *)
Definition gauge_unsealed : M goerr Z :=
  r ← attempt countLicenseKeysUnencrypted;
  match r with
  | Ok remaining => metric "license_keys_unencrypted" [pretty remaining] ;; mret remaining
  | Err _ => mret 0
  end.

Definition batchSize : nat := 100.

(** The rows one UPDATE is meant for. *)
Definition same_key (l l' : License) : bool :=
  streq (lic_ID l') (lic_ID l) && streq (lic_LicenseKey l') (lic_LicenseKey l) && streq (lic_LicenseKeyEncrypted l') "".

Section backfill.
Context `{UUIDs} `{GCM} (LicenseKeyAEAD : option AESGCM).

(** One licence: whether its row gained a ciphertext.  Each row written is
    recorded in the outbox by the trigger of [licenses]. *)
Definition seal_row (aead : AESGCM) (l : License) : M goerr bool :=
  ct ← attempt (Encrypt aead (lic_LicenseKey l) (lic_ID l));
  match ct with
  | Err _ => emit (EvWarn "license key backfill: encrypt failed; skipping") ;; mret false
  | Ok ct =>
      n ← attempt (update_triggered licenses "licenses" lic_ID (same_key l) (lic_set_ciphertext ct));
      match n with
      | Err _ => emit (EvWarn "license key backfill: update failed; skipping") ;; mret false
      | Ok n => mret (negb (n =? 0))
      end
  end.

Fixpoint seal_rows (aead : AESGCM) (batch : list License) (total : Z) : M goerr Z :=
  match batch with
  | [] => mret total
  | l :: rest => sealed ← seal_row aead l; seal_rows aead rest (if (sealed : bool) then total + 1 else total)
  end.

Definition select_batch : M goerr (list License) := sql_select_ordered licenses unsealed (fun _ => 0) batchSize.

(** [None]: still running after so many batches. *)
Fixpoint backfill_batches (turns : nat) (aead : AESGCM) (total : Z) : M goerr (option (Z * option goerr)) :=
  match turns with
  | O => mret None
  | S turns' =>
      r ← attempt select_batch;
      match r with
      | Err e => mret (Some (total, Some (ErrWrap "select batch" e)))
      | Ok [] => mret (Some (total, None))
      | Ok batch =>
          total ← seal_rows aead batch total;
          gauge_unsealed ;;
          if (List.length batch <? batchSize)%nat then mret (Some (total, None)) else backfill_batches turns' aead total
      end
  end.

Definition BackfillLicenseKeyEncrypted (turns : nat) : M goerr (option (Z * option goerr)) :=
  match LicenseKeyAEAD with
  | None => mret (Some (0, None))
  | Some aead => gauge_unsealed ;; backfill_batches turns aead 0
  end.

(** The hashes, until an update fails. *)
Fixpoint hash_rows (ls : list License) : M goerr unit :=
  match ls with
  | [] => mret tt
  | l :: rest =>
      update_checked_triggered licenses "licenses" lic_ID (lic_ID l) (fun row => lic_set_key (lic_ID row) (HashKey (lic_LicenseKey l)) (lic_LicenseKeyEncrypted row) row) ;;
      hash_rows rest
  end.

Definition BackfillKeyHashes : M goerr unit :=
  ls ← sql_select licenses (fun l => streq (lic_KeyHash l) ""); hash_rows ls.
End backfill.

(** ** What a pass leaves, whatever fails *)

(** An update that touches one row. *)
Lemma update_rows_single {R} (m : gmap string R) P f k r :
  (forall k' r', m !! k' = Some r' -> P r' = true -> k' = k) -> m !! k = Some r -> P r = true ->
  update_rows P f m = <[k := f r]> m.
Proof.
  intros Hk Hr Hp. apply map_eq. intros k'. rewrite lookup_update_rows. destruct (decide (k' = k)) as [->|Hne].
  - rewrite lookup_insert_eq, Hr. simpl. by rewrite Hp.
  - rewrite lookup_insert_ne by done. destruct (m !! k') as [r'|] eqn:E; [|done]. simpl.
    destruct (P r') eqn:E'; [|done]. by destruct (Hne (Hk _ _ E E')).
Qed.

Lemma lic_set_ciphertext_fields ct l :
  lic_ID (lic_set_ciphertext ct l) = lic_ID l /\ lic_LicenseKey (lic_set_ciphertext ct l) = lic_LicenseKey l /\
  lic_LicenseKeyEncrypted (lic_set_ciphertext ct l) = ct.
Proof. by destruct l. Qed.

Lemma same_key_true l l' :
  same_key l l' = true <-> lic_ID l' = lic_ID l /\ lic_LicenseKey l' = lic_LicenseKey l /\ lic_LicenseKeyEncrypted l' = "".
Proof. unfold same_key. rewrite !andb_true_iff, !streq_true. tauto. Qed.

Section sound.
Context `{UUIDs} `{GCM} (aead : AESGCM).

(** Every ciphertext is that of the key, under the licence's identifier. *)
Definition seals (db : DB) : Prop :=
  forall k l, db_licenses db !! k = Some l -> lic_LicenseKeyEncrypted l <> "" ->
    Decrypt aead (lic_LicenseKeyEncrypted l) (lic_ID l) = Ok (lic_LicenseKey l).

(** The identifier of the row under a key. *)
Definition stored_id_of (db : DB) (k : string) : string := default "" (lic_ID <$> db_licenses db !! k).

(** The tables are the same but for the ciphertexts of the licences [ks], which
    were missing, and for the outbox, which has a new row for each of them. *)
Definition same_but_sealed (db0 db : DB) : Prop :=
  db = t_set audit_outbox (db_audit_outbox db) (t_set licenses (db_licenses db) db0) /\
  exists ks, NoDup ks /\
    (forall k, k ∉ ks -> db_licenses db !! k = db_licenses db0 !! k) /\
    (forall k, k ∈ ks -> exists l ct, db_licenses db0 !! k = Some l /\ lic_LicenseKeyEncrypted l = "" /\ ct <> "" /\
       db_licenses db !! k = Some (lic_set_ciphertext ct l)) /\
    enqueued (mutations "licenses" "update" (stored_id_of db0 <$> ks)) (db_audit_outbox db0) (db_audit_outbox db).

Definition progress (db0 db : DB) : Prop := seals db /\ same_but_sealed db0 db.

Lemma progress_refl db : seals db -> progress db db.
Proof.
  intros Hs. split; [done|]. split; [by destruct db|]. exists []. split; [constructor|]. split; [done|].
  split; [by intros k Hk%not_elem_of_nil|]. constructor.
Qed.

Lemma seals_seal db l ct :
  Decrypt aead ct (lic_ID l) = Ok (lic_LicenseKey l) -> seals db ->
  seals (t_set licenses (update_rows (same_key l) (lic_set_ciphertext ct) (db_licenses db)) db).
Proof.
  intros Hc Hs k l'. change (db_licenses (t_set _ _ db)) with (update_rows (same_key l) (lic_set_ciphertext ct) (db_licenses db)).
  rewrite lookup_update_rows. destruct (db_licenses db !! k) as [l0|] eqn:E; [|done]. intros [= <-].
  destruct (same_key l l0) eqn:Ek; [|by apply (Hs k)]. apply same_key_true in Ek as (E1 & E2 & _).
  destruct (lic_set_ciphertext_fields ct l0) as (-> & -> & ->). by rewrite E1, E2.
Qed.

Lemma mutations_app entity action ids ids' :
  mutations entity action (ids ++ ids')%list = (mutations entity action ids ++ mutations entity action ids')%list.
Proof. unfold mutations. by rewrite List.filter_app, fmap_app. Qed.

(** One UPDATE: the rows it matches, and their records. *)
Lemma progress_seal db0 db l ct m :
  Decrypt aead ct (lic_ID l) = Ok (lic_LicenseKey l) -> ct <> "" -> progress db0 db ->
  enqueued (mutations "licenses" "update" (ids_of licenses lic_ID (same_key l) db)) (db_audit_outbox db) m ->
  progress db0 (t_set audit_outbox m (t_set licenses (update_rows (same_key l) (lic_set_ciphertext ct) (db_licenses db)) db)).
Proof.
  intros Hc Hct [Hs (Hd & ks & Hnd & Hout & Hin & Hq)] Hm. split; [exact (seals_seal db l ct Hc Hs)|].
  split; [simpl; rewrite Hd; by destruct db0|].
  set (L := map_to_list (rows (same_key l) (db_licenses db))).
  assert (forall k, k ∈ L.*1 <-> exists r, db_licenses db !! k = Some r /\ same_key l r = true) as HL.
  { intros k. rewrite list_elem_of_fmap. split.
    - intros ([k' r] & -> & Hr). apply elem_of_map_to_list, lookup_rows in Hr. by exists r.
    - intros (r & Hr). exists (k, r). split; [done|]. by apply elem_of_map_to_list, lookup_rows. }
  assert (forall k, k ∈ L.*1 -> k ∉ ks) as Hdis.
  { intros k (r & Hr & (_ & _ & He)%same_key_true)%HL Hk. destruct (Hin k Hk) as (l0 & ct0 & _ & _ & Hne & Hr').
    rewrite Hr' in Hr. injection Hr as <-. by destruct (lic_set_ciphertext_fields ct0 l0) as (_ & _ & Ex); rewrite Ex in He. }
  change (db_licenses (t_set audit_outbox m (t_set licenses ?u db))) with u.
  exists (ks ++ L.*1)%list. split_and!.
  - apply NoDup_app. split; [done|]. split; [intros k Hk Hl; by eapply Hdis|]. apply NoDup_fst_map_to_list.
  - intros k [Hk Hl]%not_elem_of_app. rewrite lookup_update_rows, <- (Hout k Hk). destruct (db_licenses db !! k) as [r|] eqn:E; [|done].
    simpl. destruct (same_key l r) eqn:Er; [|done]. destruct Hl. apply HL. by exists r.
  - intros k [Hk|Hk]%elem_of_app.
    + destruct (Hin k Hk) as (l0 & ct0 & H1 & H2 & H3 & Hr). exists l0, ct0. split_and!; try done. rewrite lookup_update_rows, Hr. simpl.
      destruct (same_key l _) eqn:Er; [|done]. apply same_key_true in Er as (_ & _ & He).
      by destruct (lic_set_ciphertext_fields ct0 l0) as (_ & _ & Ex); rewrite Ex in He.
    + pose proof (Hdis k Hk) as Hn. apply HL in Hk as (r & Hr & Hsame). rewrite (Hout k Hn) in Hr. exists r, ct.
      split_and!; [done|by apply same_key_true in Hsame as (_ & _ & ?)|done|]. rewrite lookup_update_rows, (Hout k Hn), Hr. simpl. by rewrite Hsame.
  - rewrite fmap_app, mutations_app. eapply enqueued_app; [exact Hq|].
    replace (stored_id_of db0 <$> L.*1) with (ids_of licenses lic_ID (same_key l) db); [exact Hm|].
    unfold ids_of. fold L. rewrite <- !list_fmap_compose. apply list_fmap_ext. intros i [k r] Hi. simpl.
    apply list_elem_of_lookup_2 in Hi. assert (k ∈ L.*1) as Hk by (apply list_elem_of_fmap; by exists (k, r)).
    apply elem_of_map_to_list, lookup_rows in Hi as [Hi _]. unfold stored_id_of. by rewrite <- (Hout k (Hdis k Hk)), Hi.
Qed.

Lemma still_Encrypt pt aad : still (Encrypt aead pt aad).
Proof. unfold Encrypt. apply still_bind; [auto with licensehub|]. intros []; auto with licensehub. Qed.

Lemma keeps_seal_row db0 l : keeps (progress db0) (seal_row aead l).
Proof.
  intros w Hs. unfold seal_row, mbind at 1, M_bind at 1, attempt at 1.
  pose proof (keeps_still _ _ (still_Encrypt (lic_LicenseKey l) (lic_ID l)) w Hs) as Hs1.
  destruct (Encrypt aead (lic_LicenseKey l) (lic_ID l) w) as [[ct|e] w1] eqn:Ee; simpl in Hs1.
  - apply Decrypt_Encrypt in Ee as [Hc Hlen]. assert (ct <> "") as Hct by by intros ->.
    revert w1 Hs1. change (keeps (progress db0) (
      n ← attempt (update_triggered licenses "licenses" lic_ID (same_key l) (lic_set_ciphertext ct));
      match n with
      | Err _ => emit (EvWarn "license key backfill: update failed; skipping") ;; mret false
      | Ok n => mret (negb (n =? 0))
      end : M goerr bool)).
    apply keeps_bind; [apply keeps_attempt, keeps_with_trigger; intros db a db1 m Hp [= _ <-] Hm; by apply progress_seal|]. keeps_go.
  - revert w1 Hs1 Ee. intros w1 Hs1 _. revert w1 Hs1. fold (keeps (progress db0)
      (emit (EvWarn "license key backfill: encrypt failed; skipping") ;; mret false : M goerr bool)). keeps_go.
Qed.

Lemma keeps_seal_rows db0 batch total : keeps (progress db0) (seal_rows aead batch total).
Proof.
  revert total. induction batch as [|l batch IH]; intros total; cbn [seal_rows]; [apply keeps_ret|].
  apply keeps_bind; [apply keeps_seal_row|]. intros []; apply IH.
Qed.

Lemma keeps_gauge I : keeps I gauge_unsealed.
Proof. unfold gauge_unsealed, countLicenseKeysUnencrypted. apply keeps_bind; [apply keeps_attempt, keeps_count|]. keeps_go. Qed.

Lemma keeps_batches db0 turns total : keeps (progress db0) (backfill_batches turns aead total).
Proof.
  revert total. induction turns as [|turns IH]; intros total; cbn [backfill_batches]; [apply keeps_ret|].
  apply keeps_bind; [apply keeps_attempt, keeps_read; intros; by simplify_eq|]. intros [[|l batch]|e]; [keeps_go| |keeps_go].
  apply keeps_bind; [apply keeps_seal_rows|]. intros total'. apply keeps_bind; [apply keeps_gauge|]. intros _.
  destruct (_ <? _)%nat; [keeps_go|apply IH].
Qed.

(** ** A pass without faults seals everything *)

Definition remaining (db : DB) : Z := count unsealed (db_licenses db).
Definition keyed (db : DB) : Prop := forall k l, db_licenses db !! k = Some l -> lic_ID l = k.

(** What is ready for a pass over so many rows: no faults, bytes for their nonces,
    and identifiers for their records that the outbox does not have. *)
Definition ready (n : nat) (w : World) : Prop :=
  quiet w /\ keyed (w_db w) /\ fresh_ids w /\ (12 * n <= List.length (w_rand w))%nat.

Lemma unsealed_true l : unsealed l = true <-> lic_LicenseKeyEncrypted l = "" /\ lic_LicenseKey l <> "".
Proof. unfold unsealed. by rewrite andb_true_iff, negb_true_iff, streq_true, streq_false. Qed.

Lemma Encrypt_ready n pt aad w :
  ready (S n) w -> exists ct w1, Encrypt aead pt aad w = (Ok ct, w1) /\ ct <> "" /\ w_db w1 = w_db w /\ ready n w1.
Proof.
  intros (Hq & Hk & [Hinj Hf] & Hn). pose proof (still_Encrypt pt aad w) as (Edb & _ & _ & _). pose proof (quiet_still _ _ (still_Encrypt pt aad) Hq) as Hq1.
  destruct (Encrypt aead pt aad w) as [r w1] eqn:E. simpl in *.
  assert (exists ct, r = Ok ct /\ w_rand w1 = drop 12 (w_rand w) /\ w_ids w1 = w_ids w) as (ct & -> & Er & Ei).
  { revert E. unfold Encrypt, mbind, M_bind, rand_Read. rewrite bool_decide_eq_true_2 by lia. intros [= <- <-]. by eexists. }
  exists ct, w1. split; [done|]. apply Decrypt_Encrypt in E as [_ Hl]. split; [by intros ->|]. split; [done|].
  split; [done|]. split; [by rewrite Edb|]. rewrite Er, length_drop. split; [|lia]. split; [exact Hinj|]. by rewrite Edb, Ei.
Qed.

Lemma seal_row_ready n l w :
  ready (S n) w -> db_licenses (w_db w) !! lic_ID l = Some l -> unsealed l = true ->
  exists ct w', seal_row aead l w = (Ok true, w') /\ ready n w' /\ ct <> "" /\
    db_licenses (w_db w') = <[lic_ID l := lic_set_ciphertext ct l]> (db_licenses (w_db w)).
Proof.
  intros Hr Hl Hu. destruct (Encrypt_ready n (lic_LicenseKey l) (lic_ID l) w Hr) as (ct & w1 & E & Hct & Edb & Hq & Hk & Hfr & Hn).
  apply unsealed_true in Hu as [Hu _]. assert (same_key l l = true) as Hs by by apply same_key_true.
  assert (forall k' r', db_licenses (w_db w) !! k' = Some r' -> same_key l r' = true -> k' = lic_ID l) as Hone.
  { intros k' r' Hk' (<- & _)%same_key_true. destruct Hr as (_ & Hr & _). by rewrite (Hr k' r' Hk'). }
  unfold seal_row, mbind, M_bind, attempt. rewrite E.
  destruct (with_trigger_quiet "licenses" "update" (ids_of licenses lic_ID (same_key l))
    (fun db => Ok (count (same_key l) (db_licenses db), t_set licenses (update_rows (same_key l) (lic_set_ciphertext ct) (db_licenses db)) db))
    w1 _ _ Hq Hfr eq_refl eq_refl) as (m & w2 & E2 & Hq2 & Hfr2 & Edb2 & Erand).
  change (update_triggered licenses "licenses" lic_ID (same_key l) (lic_set_ciphertext ct) w1
    = (Ok (count (same_key l) (db_licenses (w_db w1))), w2)) in E2. rewrite E2, Edb. pose proof (count_pos _ _ _ _ Hl Hs) as Hc. rewrite Edb in Edb2.
  assert (db_licenses (w_db w2) = <[lic_ID l := lic_set_ciphertext ct l]> (db_licenses (w_db w))) as El.
  { rewrite Edb2. exact (update_rows_single _ _ _ _ _ Hone Hl Hs). }
  exists ct, w2. split; [by rewrite (proj2 (Z.eqb_neq _ 0)) by lia|]. split; [|done].
  split; [done|]. split; [|split; [done|by rewrite Erand]]. intros k' l'. rewrite El. destruct (decide (k' = lic_ID l)) as [->|Hne].
  - rewrite lookup_insert_eq. intros [= <-]. by destruct l.
  - rewrite lookup_insert_ne by done. destruct Hr as (_ & Hr & _). apply Hr.
Qed.

(** The rows of a batch: as they are stored, each once. *)
Definition stored (batch : list License) (db : DB) : Prop :=
  NoDup (lic_ID <$> batch) /\ forall l, l ∈ batch -> db_licenses db !! lic_ID l = Some l /\ unsealed l = true.

Lemma seal_rows_ready batch n total w :
  ready (List.length batch + n) w -> stored batch (w_db w) ->
  exists w', seal_rows aead batch total w = (Ok (total + Z.of_nat (List.length batch)), w') /\ ready n w' /\
    remaining (w_db w') = remaining (w_db w) - Z.of_nat (List.length batch).
Proof.
  revert total w. induction batch as [|l batch IH]; intros total w Hr [Hd Hb]; cbn [seal_rows List.length].
  { exists w. split; [by rewrite Z.add_0_r|]. split; [done|lia]. }
  cbn in Hd. apply NoDup_cons in Hd as [Hn Hd]. destruct (Hb l ltac:(left)) as [Hl Hu].
  destruct (seal_row_ready _ _ _ Hr Hl Hu) as (ct & w1 & E & Hr1 & Hct & Edb).
  unfold mbind, M_bind. rewrite E. destruct (IH (total + 1) w1) as (w2 & E2 & Hr2 & Hc); [done| |].
  - split; [done|]. intros l' Hl'. destruct (Hb l' ltac:(by right)) as [H1 H2]. split; [|done]. rewrite Edb, lookup_insert_ne; [done|].
    intros Ei. apply Hn. rewrite Ei. by apply list_elem_of_fmap_2.
  - exists w2. rewrite E2. split; [do 2 f_equal; lia|]. split; [done|]. rewrite Hc. unfold remaining.
    rewrite Edb, (count_insert _ _ _ _ _ Hl), Hu. simpl.
    assert (unsealed (lic_set_ciphertext ct l) = false) as ->; [|simpl; lia].
    apply not_true_iff_false. intros [Hx _]%unsealed_true. by destruct (lic_set_ciphertext_fields ct l) as (_ & _ & Hy); rewrite Hy in Hx.
Qed.

Lemma gauge_ready n w : ready n w -> exists z w', gauge_unsealed w = (Ok z, w') /\ ready n w' /\ w_db w' = w_db w.
Proof.
  intros Hr. unfold gauge_unsealed, countLicenseKeysUnencrypted, sql_count, mbind, M_bind, attempt.
  rewrite stmt_quiet by apply Hr. rewrite set_db_same. by eexists _, _.
Qed.

(** The rows selected are stored, and all of them unless the batch is full. *)
Lemma select_batch_ready n w :
  ready n w -> exists batch, select_batch w = (Ok batch, w) /\ stored batch (w_db w) /\
    (List.length batch <= batchSize)%nat /\ Z.of_nat (List.length batch) <= remaining (w_db w) /\
    ((List.length batch < batchSize)%nat -> remaining (w_db w) = Z.of_nat (List.length batch)).
Proof.
  intros (Hq & Hk & _). unfold select_batch, sql_select_ordered. rewrite stmt_quiet by done. cbv beta zeta iota. rewrite set_db_same.
  eexists. split; [done|]. change (t_get licenses (w_db w)) with (db_licenses (w_db w)).
  set (all := (map_to_list (rows unsealed (db_licenses (w_db w)))).*2).
  assert (remaining (w_db w) = Z.of_nat (List.length all)) as Hc.
  { unfold remaining, count, all. by rewrite length_fmap, length_map_to_list. }
  assert (List.length (sort_by (fun _ : License => 0) all) = List.length all) as Hl by (by rewrite sort_by_perm).
  rewrite length_take, Hl, Hc. split; [|split_and!; lia].
  split.
  - apply (sublist_NoDup _ (lic_ID <$> sort_by (fun _ => 0) all)); [|apply fmap_sublist, sublist_take].
    rewrite sort_by_perm. unfold all. rewrite <- list_fmap_compose.
    rewrite (list_fmap_ext _ fst (map_to_list (rows unsealed (db_licenses (w_db w))))); [apply NoDup_fst_map_to_list|].
    intros i [k l] Hi. apply list_elem_of_lookup_2, elem_of_map_to_list, lookup_rows in Hi as [Hi _]. simpl. by apply Hk.
  - intros l Hl'. apply subseteq_take in Hl'. rewrite sort_by_perm in Hl'. apply elem_of_rows in Hl' as (k & Hk' & Hu).
    split; [|done]. by rewrite (Hk k l Hk').
Qed.

Lemma backfill_batches_ready turns n total w :
  ready (Z.to_nat (remaining (w_db w)) + n) w -> remaining (w_db w) < 100 * Z.of_nat turns ->
  exists w', backfill_batches turns aead total w = (Ok (Some (total + remaining (w_db w), None)), w') /\ remaining (w_db w') = 0.
Proof.
  revert total w. induction turns as [|turns IH]; intros total w Hr Ht.
  { pose proof (count_nonneg unsealed (db_licenses (w_db w))). unfold remaining in Ht. lia. }
  cbn [backfill_batches]. unfold mbind at 1, M_bind at 1, attempt at 1.
  destruct (select_batch_ready _ _ Hr) as (batch & E & Hs & Hb & Hle & Hlast). rewrite E.
  pose proof batch as Hdec. destruct batch as [|l rest]; [|clear Hdec; set (batch := l :: rest) in *].
  { rewrite Hlast by (unfold batchSize; simpl; lia). simpl. rewrite Z.add_0_r. exists w. split; [done|]. apply Hlast. unfold batchSize. simpl. lia. }
  destruct (seal_rows_ready batch (Z.to_nat (remaining (w_db w)) - List.length batch + n) total w) as (w1 & E1 & Hr1 & Hc1); [|done|].
  { by replace (List.length batch + _)%nat with (Z.to_nat (remaining (w_db w)) + n)%nat by lia. }
  unfold mbind at 1, M_bind at 1. rewrite E1. destruct (gauge_ready _ _ Hr1) as (z & w2 & E2 & Hr2 & Edb).
  unfold mbind at 1, M_bind at 1. rewrite E2. destruct (Nat.ltb_spec (List.length batch) batchSize) as [Hlt|Hge].
  - exists w2. rewrite (Hlast Hlt). split; [done|]. rewrite Edb, Hc1, (Hlast Hlt). lia.
  - destruct (IH (total + Z.of_nat (List.length batch)) w2) as (w3 & E3 & Hzero).
    + rewrite Edb, Hc1. by replace (Z.to_nat (remaining (w_db w) - Z.of_nat (List.length batch)) + n)%nat
        with (Z.to_nat (remaining (w_db w)) - List.length batch + n)%nat by lia.
    + rewrite Edb, Hc1. unfold batchSize in *. lia.
    + exists w3. split; [|done]. rewrite E3, Edb, Hc1. do 3 f_equal. f_equal. lia.
Qed.
End sound.

(** C33. backfill_seals: when the ciphertexts already stored decrypt, then whatever
    fails, a pass leaves every table as it was but for ciphertexts that were
    missing, each of which decrypts to its licence's key under the licence's
    identifier, and for the outbox, in which the trigger wrote one new row for
    each licence sealed. And when nothing fails, each licence is stored under
    its identifier, and there is randomness for the rows that are left and
    distinct identifiers that the outbox does not have, it ends within one batch more
    than they fill, having counted and sealed all of them. *)
Theorem backfill_seals `{UUIDs} `{GCM} (aead : AESGCM) turns w :
  w_tx w = None -> seals aead (w_db w) ->
  let '(r, w') := BackfillLicenseKeyEncrypted (Some aead) turns w in
  progress aead (w_db w) (w_db w') /\
  (ready (Z.to_nat (remaining (w_db w))) w -> remaining (w_db w) < 100 * Z.of_nat turns ->
   r = Ok (Some (remaining (w_db w), None)) /\ remaining (w_db w') = 0).
Proof.
  intros Hw Hs. destruct (BackfillLicenseKeyEncrypted (Some aead) turns w) as [r w'] eqn:E. split.
  - replace w' with (snd (BackfillLicenseKeyEncrypted (Some aead) turns w)) by by rewrite E.
    apply keeps_closed; [|done|by apply progress_refl]. apply keeps_bind; [apply keeps_gauge|]. intros _. apply keeps_batches.
  - intros Hr Ht. destruct (gauge_ready _ _ Hr) as (z & w1 & E1 & Hr1 & Edb).
    destruct (backfill_batches_ready aead turns 0 0 w1) as (w2 & E2 & Hzero); [by rewrite Edb, Nat.add_0_r|by rewrite Edb|].
    revert E. unfold BackfillLicenseKeyEncrypted, mbind, M_bind. rewrite E1, E2, Edb. by intros [= <- <-].
Qed.

(** A batch that fails as a whole is selected again, for ever: here a hundred
    rows, and no bytes for a nonce. *)
Section spin.
Context `{UUIDs} `{GCM} (aead : AESGCM).

Definition starved (w : World) : Prop := quiet w /\ w_rand w = [] /\ 100 <= remaining (w_db w).

Lemma starved_emit e w : starved w -> exists w', emit (E := goerr) e w = (Ok tt, w') /\ starved w'.
Proof. intros Hs. by eexists. Qed.

Lemma seal_rows_starved batch total w : starved w -> exists w', seal_rows aead batch total w = (Ok total, w') /\ starved w'.
Proof.
  revert w. induction batch as [|l batch IH]; intros w Hs; cbn [seal_rows]; [by exists w|].
  destruct Hs as (Hq & Hr & Hc). unfold mbind at 1, M_bind at 1, seal_row, mbind at 1, M_bind at 1, attempt at 1.
  unfold Encrypt, mbind at 1, M_bind at 1, rand_Read. rewrite Hr. simpl. by apply IH.
Qed.

Lemma batches_starved turns total w : starved w -> exists w', backfill_batches turns aead total w = (Ok None, w').
Proof.
  revert total w. induction turns as [|turns IH]; intros total w Hs; [by exists w|]. cbn [backfill_batches].
  pose proof Hs as (Hq & Hr & Hc). unfold mbind at 1, M_bind at 1, attempt at 1.
  assert (exists batch, select_batch w = (Ok batch, w) /\ List.length batch = batchSize) as (batch & -> & Hb).
  { unfold select_batch, sql_select_ordered. rewrite stmt_quiet by done. cbv beta zeta iota. rewrite set_db_same. eexists. split; [done|].
    rewrite length_take, sort_by_perm, length_fmap, length_map_to_list. unfold remaining, count in Hc. unfold batchSize.
    change (t_get licenses (w_db w)) with (db_licenses (w_db w)). lia. }
  destruct batch as [|l rest]; [done|]. set (batch := l :: rest) in *.
  destruct (seal_rows_starved batch total w Hs) as (w1 & E1 & Hs1). unfold mbind at 1, M_bind at 1. rewrite E1.
  assert (exists z w2, gauge_unsealed w1 = (Ok z, w2) /\ starved w2) as (z & w2 & E2 & Hs2).
  { unfold gauge_unsealed, countLicenseKeysUnencrypted, sql_count, mbind, M_bind, attempt.
    rewrite stmt_quiet by apply Hs1. rewrite set_db_same. by eexists _, _. }
  unfold mbind at 1, M_bind at 1. rewrite E2, Hb, Nat.ltb_irrefl. by apply IH.
Qed.
End spin.

(** ** Instances *)

Module BackfillDemo.
#[export] Existing Instances ToyGCM.gcm Demo.uuids.
Definition aead : AESGCM := mkAESGCM "k".
Definition bytes : list ascii := List.concat (replicate 20 demo_random).
Definition world : World := set_rand bytes Demo.world.
End BackfillDemo.
Import BackfillDemo.

Definition plainb (db : DB) : bool :=
  forallb (fun kv => streq (lic_ID kv.2) kv.1 && streq (lic_LicenseKeyEncrypted kv.2) "") (map_to_list (db_licenses db)).
Lemma plainb_sound db k l : plainb db = true -> db_licenses db !! k = Some l -> lic_ID l = k /\ lic_LicenseKeyEncrypted l = "".
Proof.
  unfold plainb. rewrite forallb_forall. intros Hall Hk.
  by apply elem_of_map_to_list, list_elem_of_In, Hall, andb_true_iff in Hk as [?%streq_true ?%streq_true].
Qed.

Lemma backfill_demo_fresh : fresh_ids BackfillDemo.world.
Proof.
  split; [|done]. intros i j. unfold uuid_nth, Demo.uuids. intros E. injection E as E. by apply (inj pretty).
Qed.

Lemma backfill_seals_witness :
  0 < remaining (w_db BackfillDemo.world) /\
  let '(r, w') := BackfillLicenseKeyEncrypted (Some aead) 2 BackfillDemo.world in
  progress aead (w_db BackfillDemo.world) (w_db w') /\
  r = Ok (Some (remaining (w_db BackfillDemo.world), None)) /\ remaining (w_db w') = 0.
Proof.
  split; [vm_compute; reflexivity|].
  pose proof (backfill_seals aead 2 BackfillDemo.world) as H.
  destruct (BackfillLicenseKeyEncrypted (Some aead) 2 BackfillDemo.world) as [r w']. destruct H as [H1 H2].
  - reflexivity.
  - intros k l Hl Hn. destruct (plainb_sound (w_db BackfillDemo.world) k l ltac:(vm_compute; reflexivity) Hl) as [_ He]. by destruct Hn.
  - split; [exact H1|]. apply H2; [|vm_compute; reflexivity]. split; [by split|].
    split; [|split; [exact backfill_demo_fresh|vm_compute; lia]].
    intros k l Hl. by destruct (plainb_sound (w_db BackfillDemo.world) k l ltac:(vm_compute; reflexivity) Hl).
Defined.
