(* ===== verification/S3.v ===== *)
(** * The S3 object store ([storage/s3.go])

    The implementation of [Storage] over a client of the AWS SDK, which is a
    class; the names of downloads in the Content-Disposition header with a
    reader of it; the guards of the configuration and of the life of URLs. *)

From S2P Require Import Prelude GoStrings Errors Crypto Base64 GoTime Model World Release.
From Stdlib Require Import Ascii String.

#[local] Open Scope string_scope.
#[local] Open Scope Z_scope.

(** ** Helpers *)

Definition minPresignTTL : Duration := 30 * Second.
Definition maxPresignTTL : Duration := 7 * 24 * Hour.

Definition clampPresignTTL (d fallback : Duration) : Duration :=
  let d := if d <=? 0 then fallback else d in
  let d := if d <? minPresignTTL then minPresignTTL else d in
  if maxPresignTTL <? d then maxPresignTTL else d.

(** A rune above 0x7e is made of bytes above it, and a byte that starts no rune
    is read as U+FFFD: byte by byte, the same are dropped. *)
Definition plain_char (c : ascii) : bool :=
  negb ((ord c <? 32) || (126 <? ord c) || Ascii.eqb c (chr 34) || Ascii.eqb c "\").
Definition sanitizeASCII (s : string) : string := sfilter plain_char s.

Definition attr_char (c : ascii) : bool :=
  ((97 <=? ord c) && (ord c <=? 122)) || ((65 <=? ord c) && (ord c <=? 90)) || ((48 <=? ord c) && (ord c <=? 57))
  || contains_byte c "!#$&+-.^_`|~".

(** [%02X] of one byte. *)
Definition hex_upper (c : ascii) : string := ToUpper (hex_EncodeToString (String c "")).

Fixpoint rfc5987Escape (s : string) : string :=
  match s with
  | "" => ""
  | String c s' => (if attr_char c then String c "" else String "%" (hex_upper c)) +:+ rfc5987Escape s'
  end.

Definition dquote : string := String (chr 34) "".
Definition disposition (filenameHint : string) : string :=
  "attachment; filename=" +:+ dquote +:+ sanitizeASCII filenameHint +:+ dquote +:+ "; filename*=UTF-8''" +:+ rfc5987Escape filenameHint.

(** ** Configuration *)

Record S3Config := mkS3Config {
  s3_Endpoint : string; s3_Region : string; s3_Bucket : string; s3_AccessKey : string; s3_SecretKey : string; s3_ForcePathStyle : bool
}.

Section config.
(** [url.Parse]: scheme and host; [net.SplitHostPort]: the host; [net.ParseIP]: whether the address is a loopback. *)
Context (url_Parse : string -> goerr + (string * string)) (SplitHostPort : string -> option string) (ParseIP : string -> option bool).

Definition isLoopbackHost (hostport : string) : bool :=
  let host := default hostport (SplitHostPort hostport) in
  if streq host "localhost" then true else default false (ParseIP host).

Definition validateEndpoint (endpoint : string) : option goerr :=
  if streq endpoint "" then None
  else
    match url_Parse endpoint with
    | inl err => Some (ErrWrap "storage: endpoint is not a valid URL" err)
    | inr (scheme, host) =>
        if negb (streq scheme "https") && negb (streq scheme "http") then Some (ErrText "storage: endpoint must use http or https")
        else if streq scheme "http" && negb (isLoopbackHost host)
        then Some (ErrText "storage: endpoint must use https (only loopback may use http)")
        else None
    end.

(** The options of the client, with the bucket. *)
Record S3Options := mkS3Options {
  so_Bucket : string; so_Region : string; so_BaseEndpoint : option string; so_UsePathStyle : bool; so_Credentials : string * string
}.

Definition NewS3 (c : S3Config) : result goerr S3Options :=
  if streq (s3_Bucket c) "" then Err (ErrText "storage: bucket is required")
  else if streq (s3_AccessKey c) "" || streq (s3_SecretKey c) "" then Err (ErrText "storage: access_key and secret_key are required")
  else
    match validateEndpoint (s3_Endpoint c) with
    | Some err => Err err
    | None =>
        Ok (mkS3Options (s3_Bucket c) (if streq (s3_Region c) "" then "auto" else s3_Region c)
              (if streq (s3_Endpoint c) "" then None else Some (s3_Endpoint c)) (s3_ForcePathStyle c) (s3_AccessKey c, s3_SecretKey c))
    end.
End config.

(** ** The client, and the storage over it *)

(** The errors the code tells apart. *)
Inductive S3Error :=
  | TypesNotFound
  | TypesNoSuchKey
  | APIError (code : string)
  | OtherError (message : string).

Definition s3_error (e : S3Error) : goerr :=
  ErrText (match e with TypesNotFound => "NotFound" | TypesNoSuchKey => "NoSuchKey" | APIError code => code | OtherError m => m end).

Definition isS3NotFound (e : S3Error) : bool :=
  match e with
  | TypesNotFound | TypesNoSuchKey => true
  | APIError code => existsb (streq code) ["NotFound"; "NoSuchKey"; "404"]
  | OtherError _ => false
  end.

Record PutObjectInput := mkPutObjectInput { pi_Bucket : string; pi_Key : string; pi_ContentType : string; pi_ContentLength : option Z }.
Record GetObjectInput := mkGetObjectInput { gi_Bucket : string; gi_Key : string; gi_ResponseContentDisposition : option string }.
Record HeadObjectOutput := mkHeadObjectOutput { ho_ContentLength : option Z; ho_ContentType : option string }.

(** The calls of the SDK; the answers may differ at every call. *)
Class S3Client := {
  PresignPutObject : nat -> PutObjectInput -> Duration -> S3Error + string;
  PresignGetObject : nat -> GetObjectInput -> Duration -> S3Error + string;
  HeadObject : nat -> string -> string -> S3Error + HeadObjectOutput;
  GetObject : nat -> string -> string -> S3Error + (string * option goerr);
  DeleteObject : nat -> string -> string -> option S3Error
}.

Definition empty_key : goerr := ErrText "storage: empty key".

Section storage.
Context `{S3Client} (bucket : string).

Definition PresignedPut (n : nat) (key contentType : string) (expectedSize : Z) (expires : Duration) : result goerr string :=
  let expires := clampPresignTTL expires Hour in
  if streq key "" then Err empty_key
  else
    let contentType := if streq contentType "" then "application/octet-stream" else contentType in
    match PresignPutObject n (mkPutObjectInput bucket key contentType (if 0 <? expectedSize then Some expectedSize else None)) expires with
    | inl e => Err (ErrWrap "storage: presign put" (s3_error e))
    | inr url => Ok url
    end.

Definition PresignedGet (n : nat) (key filenameHint : string) (expires : Duration) : result goerr string :=
  let expires := clampPresignTTL expires (10 * Minute) in
  if streq key "" then Err empty_key
  else
    let hint := if streq filenameHint "" then None else Some (disposition filenameHint) in
    match PresignGetObject n (mkGetObjectInput bucket key hint) expires with
    | inl e => Err (ErrWrap "storage: presign get" (s3_error e))
    | inr url => Ok url
    end.

Definition Head (n : nat) (key : string) : result goerr ObjectInfo :=
  if streq key "" then Err empty_key
  else
    match HeadObject n bucket key with
    | inl e => Err (if isS3NotFound e then ErrObjectNotFound else ErrWrap "storage: head" (s3_error e))
    | inr out => Ok (mkObjectInfo (default 0 (ho_ContentLength out)) (default "" (ho_ContentType out)))
    end.

Definition Exists (n : nat) (key : string) : result goerr bool :=
  match Head n key with
  | Ok _ => Ok true
  | Err e => if goerr_Is e ErrObjectNotFound then Ok false else Err e
  end.

Definition Get (n : nat) (key : string) : result goerr (string * option goerr) :=
  if streq key "" then Err empty_key
  else
    match GetObject n bucket key with
    | inl e => Err (if isS3NotFound e then ErrObjectNotFound else ErrWrap "storage: get" (s3_error e))
    | inr body => Ok body
    end.

Definition Delete (n : nat) (key : string) : result goerr unit :=
  if streq key "" then Err empty_key
  else
    match DeleteObject n bucket key with
    | None => Ok tt
    | Some e => if isS3NotFound e then Ok tt else Err (ErrWrap "storage: delete" (s3_error e))
    end.

Definition s3_storage : Storage := {|
  st_PresignedPut := PresignedPut; st_PresignedGet := PresignedGet; st_Head := Head;
  st_Exists := Exists; st_Get := Get; st_Delete := Delete
|}.
End storage.

(** ** Reading the header back (RFC 6266, RFC 5987) *)

(** A quoted string, after its opening quote, and what follows it. *)
Fixpoint read_quoted (s : string) : option (string * string) :=
  match s with
  | "" => None
  | String c s' =>
      if Ascii.eqb c (chr 34) then Some ("", s')
      else if Ascii.eqb c "\" then
        match s' with
        | "" => None
        | String d s'' => '(v, rest) ← read_quoted s''; Some (String d v, rest)
        end
      else '(v, rest) ← read_quoted s'; Some (String c v, rest)
  end.

Definition hex_byte (h l : ascii) : option ascii := x ← hex_value h; y ← hex_value l; Some (chr (16 * x + y)).

Fixpoint unescape (s : string) : option string :=
  match s with
  | "" => Some ""
  | String c s' =>
      if Ascii.eqb c "%" then
        match s' with
        | String h (String l rest) => b ← hex_byte h l; v ← unescape rest; Some (String b v)
        | _ => None
        end
      else if attr_char c then v ← unescape s'; Some (String c v) else None
  end.

Definition cut_prefix (p s : string) : option string := if HasPrefix s p then Some (sdrop (String.length p) s) else None.

(** The plain name and the extended one, which a client prefers. *)
Definition read_disposition (s : string) : option (string * string) :=
  s ← cut_prefix ("attachment; filename=" +:+ dquote) s;
  '(plain, s) ← read_quoted s;
  s ← cut_prefix "; filename*=UTF-8''" s;
  extended ← unescape s;
  Some (plain, extended).

Definition printable (c : ascii) : bool := (32 <=? ord c) && (ord c <=? 126).

Lemma cut_prefix_app p s : cut_prefix p (p +:+ s) = Some s.
Proof. unfold cut_prefix. rewrite HasPrefix_app. f_equal. by induction p. Qed.

Lemma hex_upper_read c : exists h l, hex_upper c = String h (String l "") /\ hex_byte h l = Some c /\ printable h = true /\ printable l = true.
Proof.
  assert (match hex_upper c with
          | String h (String l "") => bool_decide (hex_byte h l = Some c) && printable h && printable l
          | _ => false
          end = true) as Hc by (destruct c as [[] [] [] [] [] [] [] []]; vm_compute; reflexivity).
  destruct (hex_upper c) as [|h [|l []]]; try done. exists h, l.
  by apply andb_true_iff in Hc as [[Hb%bool_decide_eq_true Hh]%andb_true_iff Hl].
Qed.

Lemma attr_char_printable c : attr_char c = true -> printable c = true /\ Ascii.eqb c "%" = false.
Proof. destruct c as [[] [] [] [] [] [] [] []]; vm_compute; intros; by split. Qed.

Lemma plain_char_quoted c : plain_char c = true -> printable c = true /\ Ascii.eqb c (chr 34) = false /\ Ascii.eqb c "\" = false.
Proof. destruct c as [[] [] [] [] [] [] [] []]; vm_compute; intros; by split. Qed.

Lemma unescape_escape s : unescape (rfc5987Escape s) = Some s.
Proof.
  induction s as [|c s IH]; [done|]. cbn [rfc5987Escape]. destruct (attr_char c) eqn:Ec.
  - destruct (attr_char_printable c Ec) as [_ Hp]. simpl. rewrite Hp, Ec, IH. done.
  - destruct (hex_upper_read c) as (h & l & -> & Hb & _). simpl. by rewrite Hb, IH.
Qed.

Lemma escape_printable s : sall printable (rfc5987Escape s) = true.
Proof.
  induction s as [|c s IH]; [done|]. cbn [rfc5987Escape]. rewrite sall_append, IH, andb_true_r. destruct (attr_char c) eqn:Ec.
  - simpl. by rewrite (proj1 (attr_char_printable c Ec)).
  - destruct (hex_upper_read c) as (h & l & -> & _ & Hh & Hl). simpl. by rewrite Hh, Hl.
Qed.

Lemma sanitize_plain s : sall plain_char (sanitizeASCII s) = true.
Proof. unfold sanitizeASCII. induction s as [|c s IH]; [done|]. simpl. destruct (plain_char c) eqn:E; [|done]. simpl. by rewrite E, IH. Qed.

Lemma read_quoted_plain s rest : sall plain_char s = true -> read_quoted (s +:+ dquote +:+ rest) = Some (s, rest).
Proof.
  induction s as [|c s IH]; [done|]. cbn [sall]. intros [Hc Hs]%andb_true_iff.
  destruct (plain_char_quoted c Hc) as (_ & Hq & Hb). cbn [append read_quoted]. rewrite Hq, Hb. cbn [append]. by rewrite IH.
Qed.

Lemma disposition_printable s : sall printable (disposition s) = true.
Proof.
  unfold disposition. rewrite !sall_append, escape_printable, (sall_impl plain_char printable (sanitizeASCII s)).
  - reflexivity.
  - intros c Hc. apply (plain_char_quoted c Hc).
  - apply sanitize_plain.
Qed.

Lemma read_back s : read_disposition (disposition s) = Some (sanitizeASCII s, s).
Proof.
  unfold read_disposition, disposition. rewrite <- (append_assoc "attachment; filename=" dquote), cut_prefix_app. cbn [mbind option_bind].
  rewrite read_quoted_plain by apply sanitize_plain. cbn [mbind option_bind]. rewrite cut_prefix_app. cbn [mbind option_bind].
  by rewrite unescape_escape.
Qed.

Lemma clamp_bounds d fallback :
  minPresignTTL <= clampPresignTTL d fallback <= maxPresignTTL /\
  (minPresignTTL <= d <= maxPresignTTL -> clampPresignTTL d fallback = d).
Proof.
  assert (0 < minPresignTTL < maxPresignTTL) as H by done. unfold clampPresignTTL. revert H.
  generalize minPresignTTL, maxPresignTTL. intros lo hi H. destruct (Z.leb_spec d 0); repeat case_match; lia.
Qed.

(** C34. download_names_survive: the client is asked for the object of the key, never
    for an empty one, with a life between thirty seconds and seven days, the
    one asked for when it is within them; and whatever bytes the name of the
    file is made of, the header holds printable characters alone, its quoted
    name ends where it should, and its extended name reads back as the file's. *)
Theorem download_names_survive `{S3Client} bucket n key filenameHint expires :
  exists ttl header,
    PresignedGet bucket n key filenameHint expires
    = (if streq key "" then Err empty_key
       else match PresignGetObject n (mkGetObjectInput bucket key header) ttl with
            | inl e => Err (ErrWrap "storage: presign get" (s3_error e))
            | inr url => Ok url
            end) /\
    minPresignTTL <= ttl <= maxPresignTTL /\ (minPresignTTL <= expires <= maxPresignTTL -> ttl = expires) /\
    match header with
    | None => filenameHint = ""
    | Some h => sall printable h = true /\ read_disposition h = Some (sanitizeASCII filenameHint, filenameHint)
    end.
Proof.
  exists (clampPresignTTL expires (10 * Minute)), (if streq filenameHint "" then None else Some (disposition filenameHint)).
  destruct (clamp_bounds expires (10 * Minute)) as [H1 H2]. split; [done|]. split; [done|]. split; [done|].
  destruct (streq filenameHint "") eqn:E; [by apply streq_true|]. split; [apply disposition_printable|apply read_back].
Qed.

(** What the rest of the server relies on: a missing object is told from a
    failure by [Head], [Exists] and [Get], and deleting it succeeds. *)
Lemma missing_objects `{S3Client} bucket n key e :
  key <> "" -> isS3NotFound e = true ->
  HeadObject n bucket key = inl e -> GetObject n bucket key = inl e -> DeleteObject n bucket key = Some e ->
  Head bucket n key = Err ErrObjectNotFound /\ Exists bucket n key = Ok false /\
  Get bucket n key = Err ErrObjectNotFound /\ Delete bucket n key = Ok tt.
Proof.
  intros Hk He Hh Hg Hd. unfold Exists, Head, Get, Delete. rewrite (proj2 (streq_false key "")), Hh, Hg, Hd, He by done. done.
Qed.

(** Credentials leave in the clear for the local host alone. *)
Lemma validateEndpoint_sound url_Parse SplitHostPort ParseIP endpoint :
  validateEndpoint url_Parse SplitHostPort ParseIP endpoint = None ->
  endpoint = "" \/ exists scheme host, url_Parse endpoint = inr (scheme, host) /\
    (scheme = "https" \/ scheme = "http" /\ isLoopbackHost SplitHostPort ParseIP host = true).
Proof.
  unfold validateEndpoint. destruct (streq endpoint "") eqn:E; [left; by apply streq_true|].
  destruct (url_Parse endpoint) as [err|[scheme host]]; [done|]. destruct (streq scheme "https") eqn:Es; simpl.
  - intros _. right. exists scheme, host. split; [done|]. left. by apply streq_true.
  - destruct (streq scheme "http") eqn:Eh; simpl; [|done]. destruct (isLoopbackHost _ _ host) eqn:El; [|done].
    intros _. right. exists scheme, host. split; [done|]. right. split; [by apply streq_true|done].
Qed.

(** ** Instances *)

Example awkward_name :
  let name := "Edit" +:+ dquote +:+ "or" +:+ String (chr 195) (String (chr 188) (String (chr 13) "% 1.zip")) in
  disposition name = "attachment; filename=" +:+ dquote +:+ "Editor% 1.zip" +:+ dquote +:+ "; filename*=UTF-8''Edit%22or%C3%BC%0D%25%201.zip".
Proof. vm_compute. reflexivity. Qed.
