(* ===== verification/StripeSetup.v ===== *)
(** * The webhook endpoint at Stripe ([payment/stripe_webhook_setup.go])

    At start-up the server makes sure that Stripe has an endpoint for it, and
    takes the secret that signs its deliveries ([Payments.v]) from the settings
    or from the endpoint it creates.  What the API answers is an argument. *)

From S2P Require Import Prelude GoStrings Errors Model World Tables Logic Settings Payments.
From Stdlib Require Import Ascii String.

#[local] Open Scope string_scope.
#[local] Open Scope Z_scope.

Definition settingWebhookEndpointID : string := "stripe_webhook_endpoint_id".
Definition settingWebhookSecret : string := "stripe_webhook_secret".

Definition stripeWebhookEvents : list string := [
  "checkout.session.completed"; "invoice.paid"; "invoice.payment_failed"; "customer.subscription.deleted";
  "customer.subscription.updated"; "charge.refunded"; "charge.dispute.created"; "charge.dispute.closed";
  "invoice.payment_action_required"; "customer.subscription.paused"; "customer.subscription.resumed";
  "customer.subscription.trial_will_end"; "invoice.upcoming"; "customer.updated"].

Definition IsLocalhostURL (baseURL : string) : bool := Contains baseURL "localhost" || Contains baseURL "127.0.0.1".

(** An endpoint, its secret only in the answer to its creation. *)
Record WebhookEndpoint := mkWebhookEndpoint {
  we_ID : string; we_URL : string; we_Status : string; we_Deleted : bool; we_Secret : string
}.

(** [webhookendpoint.Get], [Update] with a URL, and [New]. *)
Class EndpointAPI := {
  we_Get : nat -> string -> result goerr WebhookEndpoint;
  we_Update : nat -> string -> string -> list string -> result goerr unit;
  we_New : nat -> string -> list string -> result goerr WebhookEndpoint
}.

Section setup.
Context `{EndpointAPI} (BaseURL : string) (id_first : bool).   (* which entry of the map is walked first *)

Definition webhookURL : string := TrimRightByte "/" BaseURL +:+ "/api/v1/webhook/stripe".

(** [v, _ := GetSetting(key)]. *)
Definition setting_or_empty (key : string) : M goerr string :=
  r ← attempt (GetSetting key); mret (match r with Ok v => v | Err _ => "" end).

Definition endpoint_entries (id secret : string) : list (string * string) :=
  let entries := [(settingWebhookEndpointID, id); (settingWebhookSecret, secret)] in
  if id_first then entries else rev entries.

(** The secret that is in force when it succeeds. *)
Definition create_endpoint : M goerr string :=
  ep ← stripe_call "webhookendpoint.New" [webhookURL] (fun n => we_New n webhookURL stripeWebhookEvents);
  match ep with
  | Err e => throw (ErrWrap "create stripe webhook endpoint" e)
  | Ok ep =>
      map_err (ErrWrap "save webhook settings") (SetSettings (endpoint_entries (we_ID ep) (we_Secret ep))) ;;
      mret (we_Secret ep)
  end.

(** Whether the stored endpoint is there, after moving it to the address of the
    server. *)
Definition endpoint_usable (endpointID : string) : M goerr bool :=
  ep ← stripe_call "webhookendpoint.Get" [endpointID] (fun n => we_Get n endpointID);
  match ep with
  | Ok ep =>
      if negb (we_Deleted ep) && streq (we_Status ep) "enabled" then
        if streq (we_URL ep) webhookURL then mret true
        else
          r ← stripe_call "webhookendpoint.Update" [endpointID; webhookURL] (fun n => we_Update n endpointID webhookURL stripeWebhookEvents);
          match r with
          | Ok _ => mret true
          | Err _ => emit (EvWarn "stripe webhook endpoint update failed, will recreate") ;; mret false
          end
      else mret false
  | Err _ => mret false
  end.

Definition ensureWebhookEndpoint : M goerr string :=
  endpointID ← setting_or_empty settingWebhookEndpointID;
  secret ← setting_or_empty settingWebhookSecret;
  if negb (streq endpointID "") && negb (streq secret "") then
    usable ← endpoint_usable endpointID;
    if (usable : bool) then mret secret
    else emit (EvWarn "stripe webhook endpoint not found or disabled, creating new") ;; create_endpoint
  else create_endpoint.

(** The first attempt, then one at each tick until one succeeds: the secret in
    force, [None] while none is. *)
Fixpoint SetupWebhookEndpoint (ticks : nat) : M goerr (option string) :=
  r ← attempt ensureWebhookEndpoint;
  match r with
  | Ok secret => mret (Some secret)
  | Err _ => match ticks with O => mret None | S ticks' => SetupWebhookEndpoint ticks' end
  end.
End setup.

(** ** The secret in force *)

Section sound.
Context `{EndpointAPI} (BaseURL : string).
(** Every endpoint has one secret, told when it is created. *)
Context (secret_of : string -> string).
Hypothesis new_secret : forall n url events ep, we_New n url events = Ok ep -> we_Secret ep = secret_of (we_ID ep).

(** The two settings belong together. *)
Definition matched (db : DB) : Prop :=
  settings_keyed db /\
  forall id secret, setting_of db settingWebhookEndpointID = Some id -> setting_of db settingWebhookSecret = Some secret ->
    id <> "" -> secret <> "" -> secret = secret_of id.

(** Stripe has the endpoint, and delivers to this server. *)
Inductive served (id : string) : Prop :=
  | served_there n ep : we_Get n id = Ok ep -> we_Deleted ep = false -> we_Status ep = "enabled" -> we_URL ep = webhookURL BaseURL -> served id
  | served_moved n : we_Update n id (webhookURL BaseURL) stripeWebhookEvents = Ok tt -> served id
  | served_new n ep : we_New n (webhookURL BaseURL) stripeWebhookEvents = Ok ep -> we_ID ep = id -> served id.

Definition in_force (secret : string) (db : DB) : Prop :=
  exists id, served id /\ secret = secret_of id /\
    setting_of db settingWebhookEndpointID = Some id /\ setting_of db settingWebhookSecret = Some secret.

Lemma setting_put key value key' db :
  setting_of (put_setting key value db) key' = if decide (key' = key) then Some value else setting_of db key'.
Proof.
  unfold setting_of, put_setting. rewrite (t_get_set settings). destruct (decide (key' = key)) as [->|Hne].
  - by rewrite lookup_insert_eq.
  - by rewrite lookup_insert_ne.
Qed.

Lemma readonly_setting key : readonly (setting_or_empty key).
Proof. unfold setting_or_empty, GetSetting. readonly_go. Qed.

Lemma setting_or_empty_Ok key w v w' :
  w_tx w = None -> settings_keyed (w_db w) -> setting_or_empty key w = (Ok v, w') ->
  w_db w' = w_db w /\ w_tx w' = None /\ (v = "" \/ setting_of (w_db w) key = Some v).
Proof.
  intros Hw Hk E. pose proof (readonly_run _ _ _ _ (readonly_setting key) E Hw) as (Edb & Etx & _). split; [done|]. split; [done|].
  unfold setting_or_empty, attempt, mbind, M_bind in E. destruct (GetSetting key w) as [[v'|e] w1] eqn:Eg; injection E as <- <-; [right|by left].
  unfold GetSetting in Eg. apply bind_Ok in Eg as (s & w2 & Es & [= <- <-]).
  apply select_one_Ok in Es as (k & Hs & Hp). apply streq_true in Hp. unfold setting_of.
  change (t_get settings (w_db w)) with (db_settings (w_db w)) in Hs. by rewrite <- Hp, (Hk k s Hs), Hs.
Qed.


Lemma still_endpoint_usable id : still (endpoint_usable BaseURL id).
Proof.
  unfold endpoint_usable. apply still_bind; [apply still_stripe_call|]. intros [ep|e]; [|apply still_ret].
  destruct (_ && _); [|apply still_ret]. destruct (streq _ _); [apply still_ret|].
  apply still_bind; [apply still_stripe_call|]. intros [[]|e]; [apply still_ret|]. apply still_bind; [apply still_emit|]. intros. apply still_ret.
Qed.

Lemma endpoint_usable_true id w w' : endpoint_usable BaseURL id w = (Ok true, w') -> served id.
Proof.
  unfold endpoint_usable, mbind, M_bind, stripe_call. destruct (we_Get _ id) as [ep|e] eqn:Eg; [|done].
  destruct (negb (we_Deleted ep) && streq (we_Status ep) "enabled") eqn:Ee; [|done].
  apply andb_true_iff in Ee as [Hd%negb_true_iff He%streq_true]. destruct (streq (we_URL ep) (webhookURL BaseURL)) eqn:Eu.
  - intros _. eapply served_there; [exact Eg|done|done|by apply streq_true].
  - simpl. destruct (we_Update _ id _ _) as [[]|e] eqn:Em; [|done]. intros _. eapply served_moved, Em.
Qed.

Lemma create_endpoint_Ok b w secret w' :
  settings_keyed (w_db w) -> create_endpoint BaseURL b w = (Ok secret, w') -> matched (w_db w') /\ in_force secret (w_db w').
Proof.
  intros Hk E. unfold create_endpoint in E. apply bind_Ok in E as (r & w1 & [= <- <-] & E).
  destruct (we_New _ _ _) as [ep|e] eqn:En; [|by apply throw_Ok in E].
  apply bind_Ok in E as ([] & w2 & Es%map_err_Ok & [= <- <-]). pose proof (new_secret _ _ _ _ En) as Hs.
  assert (settings_keyed (w_db w2) /\ setting_of (w_db w2) settingWebhookEndpointID = Some (we_ID ep) /\
          setting_of (w_db w2) settingWebhookSecret = Some (we_Secret ep)) as (Hk2 & H1 & H2).
  { destruct b; unfold endpoint_entries in Es; cbn [SetSettings rev app] in Es; unfold SetSetting in Es;
      apply bind_Ok in Es as ([] & w3 & E3 & Es); apply bind_Ok in Es as ([] & w4 & E4 & [= <-]);
      apply stmt_Ok in E3 as ([= E3] & _), E4 as ([= E4] & _); rewrite <- E4, <- E3;
      (split; [by do 2 apply put_setting_keyed|]); rewrite !setting_put; unfold settingWebhookEndpointID, settingWebhookSecret; split; repeat case_decide; congruence. }
  split; [|exists (we_ID ep); split; [by eapply served_new|done]].
  split; [done|]. intros id s. rewrite H1, H2. by intros [= <-] [= <-].
Qed.
End sound.

(** C32. webhook_secret_in_force: from settings that belong together, and whatever
    statement fails, a set-up that succeeds puts the secret in force of an
    endpoint that Stripe has and delivers from to this server, and that one is
    stored with its secret; so the settings belong together again, whichever
    is written first. *)
Theorem webhook_secret_in_force `{EndpointAPI} BaseURL id_first secret_of w secret w' :
  (forall n url events ep, we_New n url events = Ok ep -> we_Secret ep = secret_of (we_ID ep)) ->
  w_tx w = None -> matched secret_of (w_db w) ->
  ensureWebhookEndpoint BaseURL id_first w = (Ok secret, w') ->
  matched secret_of (w_db w') /\ in_force BaseURL secret_of secret (w_db w').
Proof.
  intros Hnew Hw [Hk Hm] E. unfold ensureWebhookEndpoint in E.
  apply bind_Ok in E as (id & w1 & E1 & E). apply (setting_or_empty_Ok _ _ _ _ Hw Hk) in E1 as (Edb1 & Etx1 & Hid). rewrite <- Edb1 in Hk.
  apply bind_Ok in E as (s & w2 & E2 & E). apply (setting_or_empty_Ok _ _ _ _ Etx1 Hk) in E2 as (Edb2 & Etx2 & Hs). rewrite <- Edb2 in Hk.
  destruct (negb (streq id "") && negb (streq s "")) eqn:En; [|exact (create_endpoint_Ok BaseURL secret_of Hnew id_first _ _ _ Hk E)].
  apply andb_true_iff in En as [Hid0%negb_true_iff%streq_false Hs0%negb_true_iff%streq_false].
  destruct Hid as [?|Hid], Hs as [?|Hs]; try done. apply bind_Ok in E as (u & w3 & E3 & E).
  pose proof (still_endpoint_usable BaseURL id w2) as (Edb3 & _). rewrite E3 in Edb3. simpl in Edb3. rewrite <- Edb3 in Hk.
  destruct u; [|apply bind_Ok in E as ([] & w4 & [= <-] & E); refine (create_endpoint_Ok BaseURL secret_of Hnew id_first _ _ _ _ E); exact Hk].
  injection E as <- <-. apply endpoint_usable_true in E3. rewrite Edb1 in Hs.
  unfold in_force. rewrite Edb3, Edb2, Edb1. split; [by split; [by rewrite Edb3, Edb2, Edb1 in Hk|]|]. exists id. split_and!; [done| |done|done].
  by apply Hm.
Qed.

(** ** Instances *)

Module EndpointDemo.
Definition secret_of (id : string) : string := "whsec_" +:+ id.
Definition url : string := "https://hub.example.com/api/v1/webhook/stripe".
(** The first endpoint was removed at Stripe; every creation makes another. *)
#[export] Instance api : EndpointAPI := {|
  we_Get _ id := if streq id "we_old" then Err (ErrText "No such webhook endpoint") else Ok (mkWebhookEndpoint id url "enabled" false "");
  we_Update _ _ _ _ := Ok tt;
  we_New n u _ := let id := "we_" +:+ pretty (Z.of_nat n) in Ok (mkWebhookEndpoint id u "enabled" false (secret_of id))
|}.
Definition stored (id : string) : DB :=
  put_setting settingWebhookSecret (secret_of id) (put_setting settingWebhookEndpointID id empty_db).
Definition world (fs : list fault) (db : DB) : World := mkWorld db None 0 [] fs false 0 [] ∅ [].
Definition run (fs : list fault) (db : DB) (ticks : nat) : result goerr (option string) * World :=
  SetupWebhookEndpoint "https://hub.example.com/" true ticks (world fs db).
Definition settings_of (w : World) : option string * option string :=
  (setting_of (w_db w) settingWebhookEndpointID, setting_of (w_db w) settingWebhookSecret).
Definition created (w : World) : nat :=
  List.length (List.filter (fun e => match e with EvStripe name _ => streq name "webhookendpoint.New" | _ => false end) (w_events w)).
End EndpointDemo.

Lemma webhook_secret_in_force_witness :
  let r := ensureWebhookEndpoint (H := EndpointDemo.api) "https://hub.example.com/" true (EndpointDemo.world [] (EndpointDemo.stored "we_old")) in
  fst r = Ok "whsec_we_2" /\
  matched EndpointDemo.secret_of (w_db (snd r)) /\
  in_force (H := EndpointDemo.api) "https://hub.example.com/" EndpointDemo.secret_of "whsec_we_2" (w_db (snd r)).
Proof.
  split; [vm_compute; reflexivity|].
  refine (webhook_secret_in_force (H := EndpointDemo.api) "https://hub.example.com/" true EndpointDemo.secret_of
    (EndpointDemo.world [] (EndpointDemo.stored "we_old")) "whsec_we_2" _ _ eq_refl _ _); [|split|vm_compute; reflexivity].
  - intros n u evs ep [= <-]. reflexivity.
  - apply put_setting_keyed, put_setting_keyed. intros k s. change (db_settings empty_db) with (∅ : gmap string Setting). by rewrite lookup_empty.
  - intros id s. vm_compute. by intros [= <-] [= <-].
Defined.

(** The two settings are written by two statements: when the second is lost,
    the next attempt finds the new endpoint with the secret of the old one, and
    every delivery fails its signature. *)
Example stale_secret_in_force :
  let '(r, w) := EndpointDemo.run [NoFault; NoFault; NoFault; Lost false] (EndpointDemo.stored "we_old") 1 in
  r = Ok (Some "whsec_we_old") /\ EndpointDemo.settings_of w = (Some "we_2", Some "whsec_we_old").
Proof. vm_compute. done. Qed.

(** A reading that is lost counts as no endpoint: another one is created, and
    the one in use stays at Stripe, with a secret nobody has. *)
Example endpoint_left_behind :
  let '(r, w) := EndpointDemo.run [Lost false] (EndpointDemo.stored "we_new") 0 in
  r = Ok (Some "whsec_we_0") /\ EndpointDemo.created w = 1%nat /\ EndpointDemo.settings_of w = (Some "we_0", Some "whsec_we_0").
Proof. vm_compute. done. Qed.

(** Endpoint and address as stored: nothing is created. *)
Example endpoint_verified :
  let '(r, w) := EndpointDemo.run [] (EndpointDemo.stored "we_new") 0 in
  r = Ok (Some "whsec_we_new") /\ EndpointDemo.created w = O.
Proof. vm_compute. done. Qed.
