(* ===== verification/Boot.v ===== *)
(** * Start-up ([cmd/server/main.go])

    From the configuration to the services: what is checked again, which
    defaults apply, which backends are chosen, which loops are started; the
    keys the server publishes; the middlewares in front of every route
    ([middleware/security.go]); and the check for updates
    ([handler/system.go]), which starts with the server. *)

From S2P Require Import Prelude GoStrings Errors Crypto GoTime Base64 Model AesGcm Lockout World Tables Logic Token LicenseService.
From S2P Require Import Release Payments Config Letters Mail S3 StripeSetup.
From Stdlib Require Import Ascii String.

#[local] Open Scope string_scope.
#[local] Open Scope Z_scope.

(** Why the process ends before it serves. *)
Inductive StartError :=
  | LogFatal (message : string)
  | GoPanic (message : string).

(** What is outside of the program, and the parsers of the libraries. *)
Record Outside := mkOutside {
  ou_database : option goerr;                                  (* [store.New] *)
  ou_migrations : option goerr;                                (* [RunMigrations] *)
  ou_url_Parse : string -> goerr + (string * (string * string));   (* scheme, host, host name *)
  ou_webauthn_New : string -> string -> option goerr;          (* relying party, origin *)
  ou_redis_ParseURL : string -> bool;
  ou_redis_Ping : bool;
  ou_SplitHostPort : string -> option string;
  ou_ParseIP : string -> option bool
}.

(** [newWebAuthn]: the relying party and its origin. *)
Definition newWebAuthn (o : Outside) (baseURL : string) : result goerr (string * string) :=
  match ou_url_Parse o (TrimSpace baseURL) with
  | inl _ => Err (ErrText "BASE_URL must be an absolute origin for WebAuthn")
  | inr (scheme, (host, hostname)) =>
      if streq scheme "" || streq host "" || streq hostname "" then Err (ErrText "BASE_URL must be an absolute origin for WebAuthn")
      else if negb (streq scheme "https") && negb (streq scheme "http" && (streq hostname "localhost" || streq hostname "127.0.0.1"))
      then Err (ErrText "WebAuthn BASE_URL must use HTTPS except on localhost")
      else
        let origin := scheme +:+ "://" +:+ host in
        match ou_webauthn_New o hostname origin with Some e => Err e | None => Ok (hostname, origin) end
  end.

(** What runs when the server is up. *)
Record Server := mkServer {
  sv_webauthn : string * string;
  sv_redis : bool;                 (* rate limits and lockouts shared in Redis *)
  sv_lockout : BFConfig;
  sv_webhookTimeout : Duration;
  sv_webhookRetries : Z;
  sv_webhookInterval : Duration;
  sv_email : EmailService;
  sv_license : LicenseService;
  sv_storage : option S3Options;   (* [None]: [Disabled] *)
  sv_LicenseKeyAEAD : option AESGCM;
  sv_PasskeyCredentialAEAD : option AESGCM;
  sv_release : ReleaseService;
  sv_publicDownloadTTL : Duration;
  sv_stripe : StripeHandler;
  sv_setupEndpoint : bool;
  sv_stripeLoops : bool            (* metered usage and missed checkouts *)
}.

#[local] Instance start_bind : MBind (result StartError) := fun A B k m => match m with Ok a => k a | Err e => Err e end.

Definition or_fatal {A} (prefix : string) (r : result goerr A) : result StartError A :=
  match r with Ok a => Ok a | Err e => Err (LogFatal (prefix +:+ goerr_Error e)) end.
Definition no_error (prefix : string) (e : option goerr) : result StartError unit :=
  match e with None => Ok tt | Some e => Err (LogFatal (prefix +:+ goerr_Error e)) end.
Definition guard_fatal (b : bool) (message : string) : result StartError unit := if b then Ok tt else Err (LogFatal message).

Definition duration_or (fallback : Duration) (text : string) : Duration := default fallback (ParseDuration text).

Section boot.
Context `{Ed25519} (o : Outside) (tokens : string -> option RingDoc) (redis_tracker : BFConfig -> FailureTracker).

Definition lockout_config (c : Config) : BFConfig :=
  mkBFConfig (BFMaxFails c) (go_mul (BFLockoutSeconds c) Second) (30 * Minute) (5 * Minute).

(** Whether the limits are in Redis. *)
Definition connect_redis (c : Config) : result StartError bool :=
  if streq (RedisURL c) "" then Ok false
  else
    guard_fatal (ou_redis_ParseURL o (RedisURL c)) "redis: REDIS_URL is invalid" ≫= fun _ =>
    guard_fatal (ou_redis_Ping o) "redis: distributed security state is unavailable" ≫= fun _ => Ok true.

Definition license_service (c : Config) (redis : bool) : result StartError LicenseService :=
  priv ← or_fatal "LICENSE_SIGNING_KEY: " (PrivateKeyFromHex (LicenseSigningKey c));
  ttl ← or_fatal "LICENSE_LEASE_TTL: " (match ParseDuration (LicenseLeaseTTL c) with
                                        | Some d => Ok d
                                        | None => Err (ErrText "time: invalid duration")
                                        end);
  retained ← or_fatal "LICENSE_RETAINED_PUBLIC_KEYS: " (ParseRetainedPublicKeys tokens (LicenseRetainedPublicKeys c));
  guard_fatal (bool_decide (retained !! LicenseSigningKeyID c = None)) "LICENSE_RETAINED_PUBLIC_KEYS must not contain active key id" ≫= fun _ =>
  let tracker := (if redis then redis_tracker else BruteForceProtection) (lockout_config c) in
  Ok (NewLicenseService priv (LicenseSigningKeyID c) retained ttl (Some tracker) true).

Definition s3_config (c : Config) : S3Config :=
  mkS3Config (StorageEndpoint c) (StorageRegion c) (StorageBucket c) (StorageAccessKey c) (StorageSecretKey c) (StorageForcePathStyle c).

(** A storage that cannot be set up is only logged. *)
Definition release_storage (c : Config) : option S3Options :=
  if IsStorageEnabled c then
    match NewS3 (fun u => match ou_url_Parse o u with inl e => inl e | inr (scheme, (host, _)) => inr (scheme, host) end)
            (ou_SplitHostPort o) (ou_ParseIP o) (s3_config c) with
    | Ok s3 => Some s3
    | Err _ => None
    end
  else None.

Definition must_derive (master purpose : string) : result StartError AESGCM :=
  match MustDeriveAEAD master purpose with Some a => Ok a | None => Err (GoPanic "crypto: derive") end.

(** The ciphers of licence keys and of passkeys, and the signer of releases. *)
Definition encryption (c : Config) : result StartError (option AESGCM * option AESGCM * option Signer) :=
  if IsMasterEncryptionKeyConfigured c then
    match hex_DecodeString (ReleaseKeyEncryptionKey c) with
    | None => Ok (None, None, None)
    | Some masterRaw =>
        license ← must_derive masterRaw "license-key";
        passkey ← must_derive masterRaw "passkey-credential";
        if IsStorageEnabled c then
          release ← must_derive masterRaw "release-signing-private-key";
          Ok (Some license, Some passkey, Some (NewReleaseSigningService (Some release) (MaxReleaseSignSize c)))
        else Ok (Some license, Some passkey, None)
    end
  else Ok (None, None, None).

(** [time.NewTicker] panics when the interval is not positive. *)
Definition start_ticker (interval : Duration) : result StartError unit :=
  if interval <=? 0 then Err (GoPanic "non-positive interval for NewTicker") else Ok tt.

Definition boot (c : Config) : result StartError Server :=
  guard_fatal (match fatals tokens c with [] => true | _ => false end) "security validation failed — fix the above errors before starting" ≫= fun _ =>
  no_error "database: " (ou_database o) ≫= fun _ =>
  no_error "migrations: " (ou_migrations o) ≫= fun _ =>
  webauthn ← or_fatal "webauthn: " (newWebAuthn o (BaseURL c));
  redis ← connect_redis c;
  let httpTimeout := duration_or (10 * Second) (WebhookHTTPTimeout c) in
  let retryInterval := duration_or (30 * Second) (WebhookRetryInterval c) in
  let email := NewEmailService (SMTPHost c) (SMTPPort c) (SMTPUsername c) (SMTPPassword c) (SMTPFrom c) in
  license ← license_service c redis;
  let storage := release_storage c in
  let uploadTTL := duration_or 0 (StorageUploadTTL c) in
  let downloadTTL := duration_or 0 (StorageDownloadTTL c) in
  '(licenseAEAD, passkeyAEAD, signer) ← encryption c;
  let release := NewReleaseService signer true uploadTTL downloadTTL in
  let stripe := mkStripe (StripeWebhookSecret c) (BaseURL c) true true (StripeLivemode c) licenseAEAD in
  let stripeKey := negb (streq (StripeSecretKey c) "") in
  start_ticker retryInterval ≫= fun _ =>
  Ok (mkServer webauthn redis (lockout_config c) httpTimeout (WebhookMaxAttempts c) retryInterval email license storage licenseAEAD
        passkeyAEAD release (if downloadTTL <=? 0 then 10 * Minute else downloadTTL) stripe
        (stripeKey && streq (StripeWebhookSecret c) "" && negb (IsLocalhostURL (BaseURL c))) stripeKey).

(** [GET /v1/client/public-keys]. *)
Definition public_keys (s : Server) : gmap string string := Std.EncodeToString <$> ls_verificationKeys (sv_license s).
End boot.

(** ** In front of every route *)

(** [MetricsAuth]: the status that ends the request, [None] when it goes on. *)
Definition MetricsAuth (token : string) (allowWithoutToken : bool) (authorization : string) : option Z :=
  if streq token "" then if allowWithoutToken then None else Some 404
  else if negb (HasPrefix authorization "Bearer ") then Some 401
  else
    let candidate := sdrop 7 authorization in
    if negb (len candidate =? len token) || negb (streq candidate token) then Some 401 else None.

(** What a request from another origin gets: the origin its credentials are
    allowed for, and the status that ends it. *)
Definition cors (c : Config) (origin method : string) : option string * option Z :=
  if streq origin "" then (None, None)
  else if IsProduction c && negb (streq origin (BaseURL c))
  then (None, if streq method "OPTIONS" then Some 403 else None)
  else (Some origin, if streq method "OPTIONS" then Some 204 else None).

(** The headers of every answer. *)
Definition security_headers (c : Config) : list (string * string) :=
  [("X-Powered-By", "Keygate"); ("X-Frame-Options", "DENY"); ("X-Content-Type-Options", "nosniff"); ("X-XSS-Protection", "1; mode=block");
   ("Referrer-Policy", "strict-origin-when-cross-origin")] ++
  (if HasPrefix (BaseURL c) "https://" then [("Strict-Transport-Security", "max-age=31536000; includeSubDomains; preload")] else []).

(** ** Lemmas *)

Lemma HasPrefix_split s p : HasPrefix s p = true -> s = p +:+ sdrop (String.length p) s.
Proof.
  unfold HasPrefix. revert s. induction p as [|c p IH]; intros [|d s]; simpl; try done.
  destruct (ascii_dec c d) as [->|]; [|done]. intros Hp. by rewrite <- (IH s Hp).
Qed.

(** Metrics are shown to nobody, to everybody or to the bearer of the token. *)
Lemma MetricsAuth_sound token allow authorization :
  MetricsAuth token allow authorization = None <->
  (token = "" /\ allow = true) \/ (token <> "" /\ authorization = "Bearer " +:+ token).
Proof.
  unfold MetricsAuth. destruct (streq token "") eqn:E; [apply streq_true in E as ->; destruct allow; naive_solver|].
  apply streq_false in E. destruct (HasPrefix authorization "Bearer ") eqn:Hp; cbn [negb].
  - apply HasPrefix_split in Hp. change (String.length "Bearer ") with 7%nat in Hp.
    destruct (streq (sdrop 7 authorization) token) eqn:Et; cbn [negb].
    + apply streq_true in Et. rewrite Et, Z.eqb_refl. rewrite Et in Hp. cbn. naive_solver.
    + rewrite orb_true_r. apply streq_false in Et. split; [done|]. intros [[-> _]|[_ ->]]; [done|]. by destruct Et.
  - split; [done|]. intros [[-> _]|[_ ->]]; [done|]. by rewrite HasPrefix_app in Hp.
Qed.

(** In production credentials are allowed for the server's own origin alone. *)
Lemma cors_production c origin method o st :
  IsProduction c = true -> cors c origin method = (Some o, st) -> o = BaseURL c.
Proof.
  unfold cors. intros ->. destruct (streq origin "") eqn:E; [done|]. destruct (streq origin (BaseURL c)) eqn:Eo; simpl; [|by destruct (streq method _)].
  intros [= <- _]. by apply streq_true.
Qed.

Lemma len_hex_Decode s raw : hex_DecodeString s = Some raw -> len s = 2 * len raw.
Proof.
  remember (String.length s) as n eqn:Hn. revert s raw Hn. induction (lt_wf n) as [n _ IH]. intros s raw ->.
  destruct s as [|a [|b s]]; simpl; [by intros [= <-]|done|]. destruct (hex_value a), (hex_value b); try done. simpl.
  destruct (hex_DecodeString s) as [r|] eqn:E; [|done]. simpl. intros [= <-].
  specialize (IH (String.length s) ltac:(simpl; lia) s r eq_refl E). unfold len in *. simpl. lia.
Qed.

(** The subkeys are there for every master key of 32 bytes. *)
Lemma MustDeriveAEAD_some master purpose : 16 <= len master -> purpose <> "" -> exists a, MustDeriveAEAD master purpose = Some a.
Proof.
  intros Hm Hp. unfold MustDeriveAEAD, DeriveSubkey. rewrite (proj2 (Z.ltb_ge _ _)) by lia. rewrite bool_decide_false by done.
  unfold NewAESGCM. assert (len (hkdf_sha256 master (purposePrefix +:+ purpose) SubkeyBytes) = MasterKeyBytes) as ->; [|by eexists].
  unfold hkdf_sha256. change ((SubkeyBytes + 31) / 32)%nat with 1%nat. cbn [hkdf_expand]. rewrite append_nil_r. unfold len.
  assert (forall k m, String.length (hmac_sha256 k m) = 32%nat) as Hh by (intros; apply length_Sum256).
  rewrite Toy.length_stake; [done|]. rewrite Hh. unfold SubkeyBytes. lia.
Qed.

Lemma encryption_on c :
  len (ReleaseKeyEncryptionKey c) = 64 -> is_Some (hex_DecodeString (ReleaseKeyEncryptionKey c)) ->
  exists license passkey, encryption c = Ok (Some license, Some passkey,
    if IsStorageEnabled c then (MustDeriveAEAD (default "" (hex_DecodeString (ReleaseKeyEncryptionKey c))) "release-signing-private-key" ≫=
      fun a => Some (NewReleaseSigningService (Some a) (MaxReleaseSignSize c))) else None).
Proof.
  intros Hl [raw Hr]. unfold encryption, IsMasterEncryptionKeyConfigured. rewrite Hl. simpl. rewrite Hr.
  apply len_hex_Decode in Hr as Hlen. unfold must_derive. simpl.
  destruct (MustDeriveAEAD_some raw "license-key" ltac:(lia) ltac:(done)) as [a ->]. simpl.
  destruct (MustDeriveAEAD_some raw "passkey-credential" ltac:(lia) ltac:(done)) as [b ->]. simpl.
  exists a, b. destruct (IsStorageEnabled c); [|done].
  by destruct (MustDeriveAEAD_some raw "release-signing-private-key" ltac:(lia) ltac:(done)) as [d ->].
Qed.

Lemma envOr_nonempty env key fallback : fallback <> "" -> envOr env key fallback <> "".
Proof. unfold envOr. destruct (streq (Getenv env key) "") eqn:E; [done|]. by apply streq_false in E. Qed.

Lemma Load_defaults env lstat readFile ParseFloat c :
  Load env lstat readFile ParseFloat = Ok c -> LicenseSigningKeyID c <> "" /\ LicenseLeaseTTL c <> "".
Proof.
  unfold Load, mbind, result_bind. intros E.
  repeat match type of E with match envOrFile ?e ?l ?r ?k with _ => _ end = _ => destruct (envOrFile e l r k); [|done] end.
  cbv zeta in E. repeat match type of E with (if ?b then _ else _) = _ => destruct b; [done|] end.
  injection E as <-. split; by apply envOr_nonempty.
Qed.

Section valid.
Context `{Ed25519} (o : Outside) (tokens : string -> option RingDoc) (redis_tracker : BFConfig -> FailureTracker) (c : Config).
Hypothesis valid : validated tokens c.
Hypothesis kid_set : LicenseSigningKeyID c <> "".
Hypothesis ttl_set : LicenseLeaseTTL c <> "".

(** The keys of the service: its own under the configured identifier, and every
    retained one. *)
Definition good_keys (l : LicenseService) : Prop :=
  len (ls_signingKey l) = 64 /\ PrivateKeyFromHex (LicenseSigningKey c) = Ok (ls_signingKey l) /\
  ls_signingKeyID l = LicenseSigningKeyID c /\
  (exists retained, ParseRetainedPublicKeys tokens (LicenseRetainedPublicKeys c) = Ok retained /\
     retained !! LicenseSigningKeyID c = None /\
     ls_verificationKeys l = <[LicenseSigningKeyID c := PublicKey (ls_signingKey l)]> retained) /\
  min_lease_ttl <= ls_leaseTTL l <= max_lease_ttl /\ ring_valid (ls_verificationKeys l).

Lemma license_service_valid redis : exists l, license_service tokens redis_tracker c redis = Ok l /\ good_keys l.
Proof.
  destruct valid. unfold active_key_id, lease_ttl_text in *. rewrite (proj2 (streq_false (LicenseSigningKeyID c) "")) in * by done.
  rewrite (proj2 (streq_false (LicenseLeaseTTL c) "")) in * by done.
  destruct va_retained as (keys & Hkeys & Hfresh), va_ttl as (ttl & Httl & Hb).
  unfold valid_seed in va_seed. destruct (hex_DecodeString (TrimSpace (LicenseSigningKey c))) as [seed|] eqn:Es; [|done].
  assert (len (NewKeyFromSeed seed) = 64) as Hpriv by (apply len_NewKeyFromSeed; by apply Z.eqb_eq).
  assert (PrivateKeyFromHex (LicenseSigningKey c) = Ok (NewKeyFromSeed seed)) as Hkey.
  { unfold PrivateKeyFromHex. rewrite Es. change SeedSize with 32. by rewrite va_seed. }
  unfold license_service. rewrite Hkey, Httl, Hkeys. simpl. rewrite Hfresh, bool_decide_true by done. simpl. eexists. split; [done|].
  unfold NewLicenseService, good_keys, min_lease_ttl in *. simpl. rewrite (proj2 (Z.leb_gt ttl 0)) by (revert Hb; unfold Minute, Second; lia).
  split; [done|]. split; [done|]. split; [done|]. split; [by exists keys|]. split; [done|].
  apply map_Forall_insert_2; [|by eapply retained_valid]. split; [done|]. by apply len_PublicKey.
Qed.

Lemma connect_redis_valid :
  (RedisURL c <> "" -> ou_redis_ParseURL o (RedisURL c) = true /\ ou_redis_Ping o = true) ->
  connect_redis o c = Ok (negb (streq (RedisURL c) "")).
Proof.
  intros Hr. unfold connect_redis. destruct (streq (RedisURL c) "") eqn:E; [done|].
  apply streq_false in E. by destruct (Hr E) as [-> ->].
Qed.

(** What encryption comes to, and when there is none. *)
Lemma encryption_valid :
  exists license passkey signer, encryption c = Ok (license, passkey, signer) /\
    (IsProduction c = true -> is_Some license /\ is_Some passkey) /\
    (IsStorageEnabled c = true -> exists s, signer = Some s /\ is_Some (sg_aead s)).
Proof.
  destruct valid. destruct va_master as [(E & Hs & Hp)|(Hl & raw & Hr)].
  - unfold encryption, IsMasterEncryptionKeyConfigured. rewrite E, Hs, Hp. simpl. by eexists _, _, _.
  - destruct (encryption_on c Hl) as (license & passkey & ->); [by eexists|]. rewrite Hr. simpl. eexists _, _, _. split; [done|].
    split; [intros _; split; by eexists|]. intros ->. apply len_hex_Decode in Hr.
    destruct (MustDeriveAEAD_some raw "release-signing-private-key" ltac:(lia) ltac:(done)) as [a ->]. simpl.
    eexists. split; [done|]. by eexists.
Qed.

Lemma email_valid : IsProduction c = true ->
  em_enabled (NewEmailService (SMTPHost c) (SMTPPort c) (SMTPUsername c) (SMTPPassword c) (SMTPFrom c)) = true.
Proof.
  intros Hp. destruct valid. destruct (va_production Hp) as (_ & Hh & Hf). simpl.
  apply andb_true_iff. split; apply negb_true_iff, streq_false; [by intros E; rewrite E in Hh|by intros E; rewrite E in Hf].
Qed.
End valid.

(** What a server that started promises. *)
Record up `{Ed25519} (tokens : string -> option RingDoc) (c : Config) (s : Server) : Prop := {
  up_keys : good_keys tokens c (sv_license s);
  up_published : forall kid raw,
    ls_verificationKeys (sv_license s) !! kid = Some raw <->
    exists pub, public_keys s !! kid = Some pub /\ Std.DecodeString pub = Some raw;
  up_published_valid : forall kid pub, public_keys s !! kid = Some pub ->
    ValidKeyID kid = true /\ exists raw, Std.DecodeString pub = Some raw /\ len raw = PublicKeySize;
  up_production : IsProduction c = true ->
    sv_redis s = true /\ em_enabled (sv_email s) = true /\ is_Some (sv_LicenseKeyAEAD s) /\ is_Some (sv_PasskeyCredentialAEAD s);
  up_signing : IsStorageEnabled c = true -> exists signer, rs_signer (sv_release s) = Some signer /\ is_Some (sg_aead signer);
  up_ttls : 0 < rs_uploadTTL (sv_release s) /\ 0 < rs_downloadTTL (sv_release s) /\ 0 < sv_webhookInterval s
}.

Lemma published_iff s kid raw :
  ls_verificationKeys (sv_license s) !! kid = Some raw <->
  exists pub, public_keys s !! kid = Some pub /\ Std.DecodeString pub = Some raw.
Proof.
  unfold public_keys. rewrite lookup_fmap. destruct (ls_verificationKeys _ !! kid) as [raw'|]; simpl; [|naive_solver].
  split; [intros [= <-]; eexists; by rewrite Std.Decode_Encode|]. intros (pub & [= <-] & Hd). by rewrite Std.Decode_Encode in Hd.
Qed.

Lemma published_valid s : ring_valid (ls_verificationKeys (sv_license s)) ->
  forall kid pub, public_keys s !! kid = Some pub ->
    ValidKeyID kid = true /\ exists raw, Std.DecodeString pub = Some raw /\ len raw = PublicKeySize.
Proof.
  intros Hv kid pub. unfold public_keys. rewrite lookup_fmap. destruct (ls_verificationKeys _ !! kid) as [raw|] eqn:E; [|done].
  intros [= <-]. destruct (Hv kid raw E) as [H1 H2]. split; [done|]. exists raw. by rewrite Std.Decode_Encode.
Qed.

(** C31. validated_boots: a configuration that loads and has no fatal error starts
    the server, given a database, the relying party and the Redis it names, and
    unless the interval of webhook retries is not positive; it then has its
    configured signing key, a ring of exactly its public half and the retained
    keys, leases between five minutes and thirty days; what it publishes
    decodes, identifier by identifier, to the keys of that ring, all of them
    and no other. In production it shares its limits, sends mail, and encrypts
    licence keys and passkeys; with storage it can sign releases. *)
Theorem validated_boots `{Ed25519} env lstat readFile ParseFloat o tokens redis_tracker c :
  Load env lstat readFile ParseFloat = Ok c -> fatals tokens c = [] ->
  ou_database o = None -> ou_migrations o = None -> (exists rp, newWebAuthn o (BaseURL c) = Ok rp) ->
  (RedisURL c <> "" -> ou_redis_ParseURL o (RedisURL c) = true /\ ou_redis_Ping o = true) ->
  (forall d, ParseDuration (WebhookRetryInterval c) = Some d -> 0 < d) ->
  exists s, boot o tokens redis_tracker c = Ok s /\ up tokens c s.
Proof.
  intros Hload Hf Hdb Hmig [rp Hrp] Hredis Hint. destruct (Load_defaults _ _ _ _ _ Hload) as [Hkid Httl].
  pose proof (no_fatal_validated tokens c Hf) as Hv.
  destruct (license_service_valid tokens redis_tracker c Hv Hkid Httl (negb (streq (RedisURL c) ""))) as (l & El & Hl).
  destruct (encryption_valid tokens c Hv) as (la & pa & signer & Ee & Hprod & Hsign).
  assert (0 < duration_or (30 * Second) (WebhookRetryInterval c)) as Hpos.
  { unfold duration_or. destruct (ParseDuration _) as [d|] eqn:E; [by apply Hint|done]. }
  unfold boot. set (interval := duration_or (30 * Second) (WebhookRetryInterval c)) in *. clearbody interval.
  rewrite Hf, Hdb, Hmig, Hrp, (connect_redis_valid o c Hredis). simpl. rewrite El, Ee. simpl.
  unfold start_ticker. rewrite (proj2 (Z.leb_gt interval 0)) by done. simpl. eexists. split; [done|].
  constructor; [done|by apply published_iff|apply published_valid; apply Hl|..]; simpl.
  - intros Hp. destruct (va_production _ _ Hv Hp) as (Hr & _). split; [|split; [by apply (email_valid tokens)|by apply Hprod]].
    apply negb_true_iff, streq_false. intros E. by rewrite E in Hr.
  - intros Hs. destruct (Hsign Hs) as (sg & -> & Ha). by exists sg.
  - split_and!; [..|done]; match goal with |- 0 < (if ?d <=? 0 then _ else _) => destruct (Z.leb_spec d 0); [done|lia] end.
Qed.

(** ** Instances *)

#[local] Existing Instance Toy.ed25519.

Module BootDemo.
Definition entries : list (string * string) := [
  ("ENVIRONMENT", "production"); ("BASE_URL", "https://hub.example.com"); ("DATABASE_URL", "postgres://db/hub");
  ("JWT_SECRET", "0123456789abcdef0123456789abcdef");
  ("LICENSE_SIGNING_KEY", "000102030405060708090a0b0c0d0e0f101112131415161718191a1b1c1d1e1f");
  ("REDIS_URL", "redis://cache:6379"); ("SMTP_HOST", "mail.example.com"); ("SMTP_FROM", "hub@example.com");
  ("ADMIN_EMAILS", "ann@example.com, bob@example.com");
  ("RELEASE_KEY_ENCRYPTION_KEY", "f0f1f2f3f4f5f6f7f8f9fafbfcfdfeff000102030405060708090a0b0c0d0e0f")].
Definition env_of (l : list (string * string)) (key : string) : option string := snd <$> find (fun kv => streq kv.1 key) l.
Definition lstat (path : string) : goerr + FileInfo := inl (ErrText "no such file").
Definition readFile (path : string) : goerr + string := inl (ErrText "no such file").
Definition load (l : list (string * string)) : result goerr Config := Load (env_of l) lstat readFile (fun _ => None).
Definition ring (text : string) : option RingDoc := Some (mkRingDoc [] true true).
Definition outside : Outside := {|
  ou_database := None; ou_migrations := None;
  ou_url_Parse u := if HasPrefix u "https://" then inr ("https", (sdrop 8 u, sdrop 8 u)) else inl (ErrText "parse");
  ou_webauthn_New _ _ := None; ou_redis_ParseURL _ := true; ou_redis_Ping := true;
  ou_SplitHostPort _ := None; ou_ParseIP _ := None
|}.
Definition start (l : list (string * string)) : result StartError Server :=
  match load l with Ok c => boot outside ring BruteForceProtection c | Err e => Err (LogFatal (goerr_Error e)) end.
End BootDemo.

Lemma validated_boots_witness :
  exists c s, BootDemo.load BootDemo.entries = Ok c /\ IsProduction c = true /\
    boot BootDemo.outside BootDemo.ring BruteForceProtection c = Ok s /\ up BootDemo.ring c s.
Proof.
  destruct (BootDemo.load BootDemo.entries) as [c|e] eqn:E; [|vm_compute in E; discriminate E].
  assert (fatals BootDemo.ring c = [] /\ IsProduction c = true /\ newWebAuthn BootDemo.outside (BaseURL c) = Ok ("hub.example.com", "https://hub.example.com")
    /\ ParseDuration (WebhookRetryInterval c) = Some (30 * Second)) as (H1 & H2 & H3 & H4).
  { vm_compute in E. injection E as <-. vm_compute. split; [reflexivity|split; [reflexivity|split; reflexivity]]. }
  destruct (validated_boots (BootDemo.env_of BootDemo.entries) BootDemo.lstat BootDemo.readFile (fun _ => None)
    BootDemo.outside BootDemo.ring BruteForceProtection c E H1 eq_refl eq_refl (ex_intro _ _ H3) (fun _ => conj eq_refl eq_refl)) as (s & Hs & Hup).
  - intros d Hd. rewrite H4 in Hd. injection Hd as <-. vm_compute. reflexivity.
  - exists c, s. split; [reflexivity|]. split; [exact H2|]. split; [exact Hs|exact Hup].
Defined.

(** An interval of zero passes the checks and ends the process. *)
Example zero_interval_panics :
  BootDemo.start (("WEBHOOK_RETRY_INTERVAL", "0s") :: BootDemo.entries) = Err (GoPanic "non-positive interval for NewTicker").
Proof. vm_compute. reflexivity. Qed.

Example missing_mail_refused :
  exists m, BootDemo.start (("SMTP_HOST", " ") :: BootDemo.entries) = Err (LogFatal m).
Proof. vm_compute. by eexists. Qed.

(** Storage whose endpoint is refused is only disabled. *)
Example endpoint_refused :
  let storage := [("STORAGE_BUCKET", "b"); ("STORAGE_ACCESS_KEY", "a"); ("STORAGE_SECRET_KEY", "s"); ("STORAGE_ENDPOINT", "ftp://x")] in
  match BootDemo.start (storage ++ BootDemo.entries) with Ok s => sv_storage s = None | Err _ => False end.
Proof. vm_compute. reflexivity. Qed.

(** ** The check for updates ([handler/system.go])

    The latest release of the project, as GitHub tells it, compared with the
    version that runs, and kept for an hour. *)

(** ** Versions *)

(** The text before the first separator, and what follows it. *)
Fixpoint cut_at (sep : ascii) (s : string) : string * option string :=
  match s with
  | "" => ("", None)
  | String c s' => if Ascii.eqb c sep then ("", Some s') else let '(a, b) := cut_at sep s' in (String c a, b)
  end.

(** [strings.SplitN] with one separator byte. *)
Fixpoint SplitN (s : string) (sep : ascii) (n : nat) : list string :=
  match n with
  | O => []
  | S O => [s]
  | S n' => match cut_at sep s with (a, Some rest) => a :: SplitN rest sep n' | (a, None) => [a] end
  end.

(** [result[i], _ = strconv.Atoi(num)] on what is before a hyphen. *)
Definition version_number (part : string) : Z := ParseInt (fst (cut_at "-" part)).

Definition parseSemver (v : string) : Z * Z * Z :=
  let parts := SplitN v "." 3 in
  let nth i := match parts !! i with Some p => version_number p | None => 0 end in
  (nth 0%nat, nth 1%nat, nth 2%nat).

Definition stripV (v : string) : string := match v with String "v" v' => v' | _ => v end.

Definition semverNewer (latest current : string) : bool :=
  if streq latest "" || streq current "" || streq current "dev" then false
  else
    let '(l0, l1, l2) := parseSemver latest in
    let '(c0, c1, c2) := parseSemver current in
    if negb (l0 =? c0) then c0 <? l0 else if negb (l1 =? c1) then c1 <? l1 else c2 <? l2.

(** ** The handler *)

Record updateInfo := mkUpdateInfo {
  ui_Available : bool; ui_Latest : string; ui_Current : string; ui_ReleaseURL : string; ui_ReleaseDate : string;
  ui_Changelog : string; ui_UpdateCommand : string; ui_CheckedAt : Time; ui_Error : string
}.

(** What the request to GitHub comes to. *)
Inductive GitHub :=
  | Unreachable (err : string)
  | Answered (code : Z) (status : string) (release : option (string * string * string * string)).  (* tag, address, date, notes *)

(** The cached answer, and when it was stored. *)
Definition UpdateCache : Type := option (updateInfo * Time).

Section system.
Context (Version RepoOwner RepoName : string).

Definition fetchLatestRelease {E} (answer : GitHub) : M E updateInfo :=
  checkedAt ← time_Now;
  let info latest err := mkUpdateInfo false latest Version "" "" "" "" checkedAt err in
  mret (match answer with
        | Unreachable err => info "" ("failed to reach GitHub: " +:+ err)
        | Answered code status release =>
            if code =? 404 then info Version ""
            else if negb (code =? 200) then info "" ("GitHub API returned " +:+ status)
            else match release with
                 | None => info "" "failed to parse GitHub response"
                 | Some (tag, url, date, notes) =>
                     mkUpdateInfo (semverNewer (stripV tag) (stripV Version)) tag Version url date notes
                       ("docker pull ghcr.io/" +:+ RepoOwner +:+ "/" +:+ RepoName +:+ ":" +:+ stripV tag) checkedAt ""
                 end
        end).

Definition refresh_update {E} (answer : GitHub) : M E (updateInfo * UpdateCache) :=
  info ← fetchLatestRelease answer;
  now ← time_Now;
  mret (info, Some (info, now)).

(** [answer]: GitHub's, if it is asked. *)
Definition CheckUpdate {E} (cache : UpdateCache) (answer : GitHub) : M E (updateInfo * UpdateCache) :=
  match cache with
  | Some (info, cacheTime) =>
      now ← time_Now;
      if Sub now cacheTime <? Hour then mret (info, cache) else refresh_update answer
  | None => refresh_update answer
  end.
End system.

(** ** Lemmas *)

Lemma semverNewer_irreflexive v : semverNewer v v = false.
Proof. unfold semverNewer. destruct (_ || _); [done|]. destruct (parseSemver v) as [[a b] c]. rewrite !Z.eqb_refl. apply Z.ltb_irrefl. Qed.

Lemma semverNewer_trans a b c : semverNewer a b = true -> semverNewer b c = true -> semverNewer a c = true.
Proof.
  unfold semverNewer. destruct (streq a "" || streq b "" || streq b "dev") eqn:E1; [done|].
  destruct (streq b "" || streq c "" || streq c "dev") eqn:E2; [done|].
  apply orb_false_iff in E1 as [[Ea _]%orb_false_iff _], E2 as [[_ Ec]%orb_false_iff Ed].
  rewrite Ea, Ec, Ed. destruct (parseSemver a) as [[a0 a1] a2], (parseSemver b) as [[b0 b1] b2], (parseSemver c) as [[c0 c1] c2].
  simpl. intros H1 H2. repeat case_match; bool_facts; lia.
Qed.

(** Within the hour GitHub is not asked: the answer does not depend on it. *)
Lemma update_cached {E} V O N info t answer (w : World) :
  Sub (fst (tick w)) t < Hour ->
  fst (CheckUpdate (E := E) V O N (Some (info, t)) answer w) = Ok (info, Some (info, t)).
Proof.
  intros Ht. unfold CheckUpdate, mbind, M_bind, time_Now. destruct (tick w) as [now ds]. simpl in *. by rewrite (proj2 (Z.ltb_lt _ _) Ht).
Qed.

(** A release is not newer than its own candidates. *)
Example candidates_are_releases :
  semverNewer "2.0.0" "2.0.0-rc.1" = false /\ semverNewer "2.10.0" "2.9.3" = true /\ semverNewer "1.2" "1.1.9" = true.
Proof. vm_compute. done. Qed.
